(* ===== verification/_CoqProject ===== *)
-Q . S2P
Prelude.v
Text.v
Errors.v
Sql.v
Json.v
Identity.v
Totp.v
AuthDb.v
AuthCore.v
AuthStore.v
AuthPasskey.v
AuthRate.v
AuthRules.v
AuthDemo.v
AuthWp.v
AuthInv.v
AuthSafe.v
AuthSafeRules.v
AuthReach.v
AuthRun.v
AuthLogin.v
AuthRuleSpecs.v
AuthRateSpecs.v
AuthPasskeySpecs.v
AuthTokens.v
JsonRound.v
RuleDoc.v
RuleDocSpecs.v
RuleMessage.v
RuleEval.v
RuleEvalSpecs.v
Protocol.v
ProtocolSpecs.v
Dict.v
Http.v
Security.v
Csrf.v
CsrfMiddleware.v
CsrfSpecs.v
CsrfGate.v
Fs.v
Snapshots.v
SnapshotSpecs.v
FilterBridge.v
FilterClient.v
FilterSpecs.v
FilterDemo.v
DockerGuard.v
Smtp.v
SmtpSpecs.v
SmtpClaims.v
Limiter.v
JsonText.v
HelperBase.v
AuditLog.v
HelperAuthz.v
AuditSpecs.v
HelperAuth.v
HelperAccounts.v
HelperRules.v
HelperRuns.v
HelperMessages.v
Helper.v
HelperSpools.v
HelperSpecs.v
HelperProgress.v
HelperDelivery.v
HelperClaims.v
Maddy.v
MaddyConfig.v
MaddyList.v
MaddyCli.v
MaddyOps.v
MaddyGuard.v
MaddySpecs.v
MaddyClaims.v
Config.v
Gateway.v
GatewaySpecs.v
GatewayClaims.v
