(* ===== verification/Prelude.v ===== *)
(** * MaddyWeb: a verification development

    MaddyWeb (Python package [src/src/maddyweb]) is a browser mail client and
    administration console in front of the Maddy mail server.  A web process
    authenticates users and serves requests behind a Host, origin, CSRF and
    concurrency gate ([security.py]); it asks a privileged helper process
    ([helper.py]) for everything else over a UNIX socket that carries
    length-prefixed JSON frames ([protocol.py]).  The helper keeps the
    credentials, sessions and filing rules in an SQLite file ([auth.py]), drives
    the mail server's tools, submits mail over SMTP and writes an audit log
    ([audit.py]).  It publishes each account's rules as a file
    ([rule_snapshots.py]); a bridge process ([filter_bridge.py]) evaluates them
    ([rules.py]) for the command the mail server runs at delivery
    ([filter_client.py]).

    This development models these parts as executable functions and
    transition systems, and proves what makes them correct.

    ** Conventions

    A Python [str] is a list of code points and [bytes] a list of integers below
    256, both [list Z]; Python integers are [Z], and bounds the code checks
    (64-bit counters, lengths) are written out.  Fallible code returns
    [result exc A]: [exc] ([Errors]) has one constructor per exception class,
    and [catches] is the [except] clause test.  Stateful code is [eff S exc A]
    ([Prelude]): a function from the state to an outcome and a new state, where
    an exception keeps the state reached when it was raised.  Loops whose
    recursion is not structural take fuel and fail with [OutOfFuel]; the
    theorems that describe such a loop show that the fuel given by its caller is
    never exhausted.

    ** The parts

    - [Prelude], [Text], [Errors], [Sql], [Dict], [Json], [JsonText]:
      the fragment of Python and SQLite the code uses.  [Sql] has tables as row
      lists with SELECT / UPDATE / DELETE / INSERT, ORDER BY and LIMIT; [Json] is
      [json.dumps] and [json.loads] with their hooks, [JsonText] printing in
      other styles; [JsonRound] proves that reading inverts printing.
    - [Identity] is [identity.py]: the canonical form of a mail address.
    - [Totp] is the one-time-password part of [auth.py], over SHA-1, SHA-256 and
      HMAC.
    - [AuthDb]: the tables of the authentication database as records, their
      CHECK, UNIQUE and FOREIGN KEY constraints, cascades, and [_transaction]
      with its rollback.  [AuthCore], [AuthStore], [AuthPasskey], [AuthRate],
      [AuthRules]: one definition per method of [AuthStore], under the method's
      name, in the order of the file.  Its configuration, the clock, the random
      source, AES-GCM and the [webauthn] package are the record fields [store]
      and [webauthn], arbitrary in every theorem.
    - [RuleDoc], [RuleMessage], [RuleEval] are [rules.py]: rule documents, the
      facts of a message, compilation and evaluation.  Python's [email] package,
      byte codecs and Unicode case folding are parameters.
    - [Protocol] is [protocol.py]: frames, binary streams, requests, responses and the client, over a connection that may cut the
      bytes anywhere ([incoming] lists the pieces the peer's bytes arrive in).
    - [Http], [Security], [Csrf], [CsrfMiddleware], [Limiter] are [security.py]:
      hosts and origins, response headers, signed tokens and the registry of
      their nonces, the middleware as steps that interleave at its awaits, and
      the request limiter over a model of [asyncio.Semaphore].
    - [Fs] is one POSIX directory whose system calls may each fail;
      [Snapshots] is [rule_snapshots.py] over it; [FilterBridge] and
      [FilterClient] are the two ends of delivery filing.
    - [helper.py]: [HelperBase] is the dispatcher object with its state
      ([hstate]: the database, the snapshot directory, the mail server, the log,
      the context of a request, the open spools) and the three services it
      calls as classes ([MaddyService], [CertificateManager],
      [SubmissionService]); [HelperAuthz] the table of operations and the
      authorization of a request; [HelperAuth], [HelperAccounts],
      [HelperRules], [HelperRuns], [HelperMessages] one definition per handler;
      [Helper] the dispatcher and the service of one connection.  [DockerGuard]
      and [Smtp] are the submission client, over a socket or a process of the
      operating system.  [AuditLog] is [audit.py].
    - [maddy.py]: [Maddy] has versions, deployment targets with their argument
      vectors and the checks of every argument; [MaddyConfig] the lexer of the
      mail server's configuration and what makes it unsafe; [MaddyList] the
      parsers of message listings; [MaddyCli] the service object with what it has
      learned ([cache]), its probes, the attestation of the command line and the
      write gate, over the class [Runner] of what executes a command; [MaddyOps]
      the operations on accounts, mailboxes and messages with their compensations,
      and the instance of [HelperBase.MaddyService] the helper calls.
    - [Config] is [config.py]: the settings record of each section and its
      [from_dict], over POSIX paths, host names and origins.
    - [Gateway] is [gateway.py], the web process's client of the helper.  Each
      public method is a coroutine ([job]) cut at its awaits; a [world] has the
      gateway object with its four caches, the tasks of the event loop, the
      threads that have not connected yet, the line of connections the helper
      serves one at a time, and what it answered.  An [event] is the start of a
      method, a turn of a task, the progress or failure of a call, a cancelled
      request, a late [done] callback, or time passing.  What the helper answers
      is left open in every theorem.

    ** What is proved

    - The store ([AuthInv], [AuthSafe*], [AuthReach]).  [reachable] is the
      transition system of all public methods, in any order, succeeding or
      raising, under any clock and random source.  Every reachable database
      satisfies the constraints of the schema, keeps the per-account caps and the
      session lifetimes, has an owner for every pending enrollment, and numbers
      the rules of an account 0..n-1.  [AuthWp] is the program logic the
      preservation lemmas are proved in; [AuthSafeRules] has the argument that
      renumbering never violates the uniqueness of positions midway.
    - Exact behaviour of the security-relevant methods on every branch
      ([AuthLogin], [AuthRateSpecs], [AuthPasskeySpecs], [AuthRuleSpecs]): login, step-up,
      revocation, replay protection, optimistic concurrency, run life cycle,
      rate limits.  [AuthRun] turns methods into equations on a given world and
      [AuthDemo] is the concrete world the witnesses run on.
    - Encodings ([Totp], [AuthTokens], [JsonRound], [RuleDocSpecs],
      [ProtocolSpecs]): round trips of secrets, tokens,
      rule documents, frames, requests and responses.
    - Rules ([RuleDocSpecs], [RuleEvalSpecs]): the size check is equivalent to
      the recursive measures; evaluation is Kleene's three-valued logic; filing
      is first match; the MIME walk terminates in document order within bounds.
    - The gate of the web process ([CsrfSpecs], [CsrfGate], [Limiter]): what a state-changing request has passed when its handler
      runs, that a token is spent once whatever is interleaved, that tokens are
      authentic, and that the limiter keeps its capacity, loses no wakeup and
      serves its line.
    - Delivery ([SnapshotSpecs], [FilterSpecs]): publication is atomic under every
      pattern of failing calls, the bridge's handler is the evaluation of the
      message however the bytes arrive, and the client fails open.
    - The helper ([HelperSpecs], [HelperSpools], [HelperDelivery],
      [HelperProgress], [AuditSpecs]): the table is well formed, only authorized
      requests reach a handler, every request is answered and logged without its
      secrets, refused ones touch nothing, no connection leaves a spool open,
      what delivery reads is never stale, and a run of existing mail ends.
      [HelperClaims] holds the concrete helper and the witnesses.
    - Submission ([SmtpSpecs], [SmtpClaims]): what the server reads is one transaction with the message
      of the spool, and a failure is never reported as safe to retry after the
      server may have accepted the message, over a process; over a socket it can
      be, and a short write goes unnoticed.

    - The mail server's adapter ([MaddyGuard], [MaddySpecs], [MaddyClaims]).
      [MaddyGuard] is a monitor of the commands a method hands to the runner and a
      small logic ([keeps]) in which every method of the class is proved to stay
      within it.  From this: only probes and attested commands run, with no client
      text read as an option; a write runs behind the gate, whose conditions hold
      at that moment; after a broken output contract nothing writes; creating an
      account removes nothing that was there; listings are displayable; and the
      adapter's windows descend, the hypothesis [HelperProgress.run_terminates]
      has of the mail server.
    - Settings ([Config]): an accepted configuration has only known keys and safe
      values, and the adapter is built from it without an error.
    - The gateway ([GatewaySpecs], [GatewayClaims]).  [GatewaySpecs] has the
      invariant of the reachable worlds: which calls are under way, which tasks
      track them, and for each cached or flying value a reading of the helper
      that no change of the same scope followed.  From it: an account list or a
      page of messages is never returned or cached older than a change that was
      acknowledged before the request; the tracking of mutations is never lost;
      the caches keep their capacities.  [rename_keeps_old_page] and
      [logout_leaves_session] are runs in which a cache outlives what it shows.

    ** Fuel

    [BUDGET_FUEL] = 102 and [PARTS_FUEL] = 130 exceed the 100 condition nodes
    and 128 MIME parts after which the loops raise; a receive loop has one unit
    of fuel per byte still wanted and every iteration receives at least one; the
    JSON scanner has one unit per character; the allocation loops of identifiers
    have the bounded number of attempts of the code; a response of the SMTP
    server has [RESPONSE_FUEL] lines, as many as its byte limit allows, the
    loop over a message one unit per piece and two; the semaphore's wake-up
    loop has as many as its value, which each turn lowers.

    ** Not modelled

    A method that holds a lock (the dispatcher's, the store's, the adapter's) is
    one step, so concurrency inside it is the order of the steps.  Left out, with
    the reason: opening and migrating a database file, binding sockets, the accept
    loops, [logging], reading a settings file and [SubprocessRunner] (operating
    system calls; the last is an instance of the class [Runner]); the routes of
    [web.py] and the page templates (glue of the web framework around the modelled
    gate and client); the composer and reader of [mail.py] other than
    [safe_display_header] (a walk over the objects of Python's [email] package);
    [certificates.py] and [docker_certificates.py] (drivers of external programs,
    the class [CertificateManager] of the helper); [cli.py], the attestation of
    releases, the installation scripts and the JavaScript of the browser. *)

From stdpp Require Export base decidable list strings sorting relations.
From Stdlib Require Export ZArith Lia.

#[global] Set Default Proof Using "Type".
Open Scope Z_scope.

(** ** Text and bytes

    A Python [str] is a sequence of Unicode code points and a Python [bytes]
    is a sequence of integers below 256; both are lists of [Z] here.  [u "abc"]
    is the code-point list of an ASCII literal. *)

Abbreviation pystr := (list Z).
Abbreviation bytes := (list Z).

Definition code_of (a : Ascii.ascii) : Z := Z.of_N (Ascii.N_of_ascii a).

Definition u (s : string) : list Z := code_of <$> Stdlib.Strings.String.list_ascii_of_string s.

Definition zlen {A} (l : list A) : Z := Z.of_nat (length l).

(** ** Results and effects

    [result E A] is a computation that returned a value or raised an exception
    of type [E]; [eff S E A] threads a state [S] through fallible code.  An
    exception keeps the state reached when it was raised (the rollback of a
    transaction is an operation of the component that has transactions). *)

Inductive result (E A : Type) : Type :=
| Ok (a : A)
| Err (e : E).
Arguments Ok {E A} a.
Arguments Err {E A} e.

Definition result_bind {E A B} (f : A → result E B) (r : result E A) : result E B :=
  match r with Ok a => f a | Err e => Err e end.

#[export] Instance result_ret {E} : MRet (result E) := λ A a, Ok a.
#[export] Instance result_mbind {E} : MBind (result E) := λ A B f r, result_bind f r.

Definition raise {E A} (e : E) : result E A := Err e.

Definition guard_err {E} (b : bool) (e : E) : result E unit := if b then Ok tt else Err e.

Definition is_ok {E A} (r : result E A) : bool := match r with Ok _ => true | Err _ => false end.

Definition eff (S E A : Type) : Type := S → result E A * S.

Definition eff_bind {S E A B} (f : A → eff S E B) (m : eff S E A) : eff S E B :=
  λ s, match m s with
       | (Ok a, s') => f a s'
       | (Err e, s') => (Err e, s')
       end.

#[export] Instance eff_ret {S E} : MRet (eff S E) := λ A a s, (Ok a, s).
#[export] Instance eff_mbind {S E} : MBind (eff S E) := λ A B f m, eff_bind f m.

Definition throw {S E A} (e : E) : eff S E A := λ s, (Err e, s).
Definition gets {S E A} (f : S → A) : eff S E A := λ s, (Ok (f s), s).
Definition modify {S E} (f : S → S) : eff S E unit := λ s, (Ok tt, f s).
Definition lift {S E A} (r : result E A) : eff S E A := λ s, (r, s).
Definition when {S E} (b : bool) (m : eff S E unit) : eff S E unit :=
  if b then m else mret tt.
Definition require {S E} (b : bool) (e : E) : eff S E unit := if b then mret tt else throw e.

Fixpoint eff_iter {S E A} (f : A → eff S E unit) (l : list A) : eff S E unit :=
  match l with
  | [] => mret tt
  | x :: l => f x ≫= λ _, eff_iter f l
  end.

Fixpoint eff_map {S E A B} (f : A → eff S E B) (l : list A) : eff S E (list B) :=
  match l with
  | [] => mret []
  | x :: l => y ← f x; ys ← eff_map f l; mret (y :: ys)
  end.

Fixpoint result_map {E A B} (f : A → result E B) (l : list A) : result E (list B) :=
  match l with
  | [] => Ok []
  | x :: l => y ← f x; ys ← result_map f l; mret (y :: ys)
  end.

(** Inversion and introduction of [result] computations. *)
Lemma result_bind_err {E A B} (r : result E A) (f : A → result E B) e :
  (r ≫= f) = Err e → r = Err e ∨ ∃ a, r = Ok a ∧ f a = Err e.
Proof. destruct r as [a|e']; simpl; [eauto|]. intros [= ->]. by left. Qed.

Lemma result_bind_ok {E A B} (r : result E A) (f : A → result E B) b :
  (r ≫= f) = Ok b → ∃ a, r = Ok a ∧ f a = Ok b.
Proof. destruct r as [a|e]; simpl; [eauto|done]. Qed.

Lemma result_map_ok {E A B} (f : A → result E B) l k :
  result_map f l = Ok k ↔ Forall2 (λ x y, f x = Ok y) l k.
Proof.
  revert k. induction l as [|x l IH]; intros k; simpl.
  - split; [by intros [= <-]|]. by intros ->%Forall2_nil_inv_l.
  - split.
    + intros (y & Hy & H)%result_bind_ok. apply result_bind_ok in H as (ys & Hys & H).
      injection H as <-. constructor; [done|]. by apply IH.
    + intros (y & ys & Hy & Hys & ->)%Forall2_cons_inv_l. rewrite Hy. simpl.
      apply IH in Hys as ->. done.
Qed.

(** Inversion of effectful computations. *)
Lemma eff_bind_ok {S E A B} (m : eff S E A) (f : A → eff S E B) s b s' :
  (m ≫= f) s = (Ok b, s') → ∃ a s1, m s = (Ok a, s1) ∧ f a s1 = (Ok b, s').
Proof.
  unfold mbind, eff_mbind, eff_bind. destruct (m s) as [[a|e] s1]; [|done]. eauto.
Qed.

Lemma eff_bind_err {S E A B} (m : eff S E A) (f : A → eff S E B) s e s' :
  (m ≫= f) s = (Err e, s') →
  m s = (Err e, s') ∨ ∃ a s1, m s = (Ok a, s1) ∧ f a s1 = (Err e, s').
Proof.
  unfold mbind, eff_mbind, eff_bind. destruct (m s) as [[a|e'] s1]; [eauto|]. intros [= -> ->]. by left.
Qed.

Lemma eff_bind_run {S E A B} (m : eff S E A) (f : A → eff S E B) s a s1 :
  m s = (Ok a, s1) → (m ≫= f) s = f a s1.
Proof. intros H. unfold mbind, eff_mbind, eff_bind. by rewrite H. Qed.

Lemma eff_bind_fail {S E A B} (m : eff S E A) (f : A → eff S E B) s e s1 :
  m s = (Err e, s1) → (m ≫= f) s = (Err e, s1).
Proof. intros H. unfold mbind, eff_mbind, eff_bind. by rewrite H. Qed.

Lemma require_ok {S E} b (e : E) (s : S) a s' :
  require b e s = (Ok a, s') → b = true ∧ s' = s.
Proof. unfold require. destruct b; [|done]. by intros [= _ <-]. Qed.

(** [try: m except classes: ...]: [None] when an exception of the clause was
    raised; the state is the one the body reached. *)
Definition attempt {S E A} (classes : E → bool) (m : eff S E A) : eff S E (option A) :=
  λ s, match m s with
       | (Ok a, s') => (Ok (Some a), s')
       | (Err e, s') => if classes e then (Ok None, s') else (Err e, s')
       end.

(** ** Hoare-style reasoning

    [hoare P m Q]: from a state in [P], if [m] returns then the value and the
    final state are in [Q].  Nothing is said of an exception: the components
    that need it state what an exception leaves behind separately. *)

Section Hoare.
Context {S E : Type}.

Definition hoare {A} (P : S → Prop) (m : eff S E A) (Q : A → S → Prop) : Prop :=
  ∀ s a s', P s → m s = (Ok a, s') → Q a s'.

Lemma hoare_ret {A} (P : S → Prop) (Q : A → S → Prop) a :
  (∀ s, P s → Q a s) → hoare P (mret a) Q.
Proof. intros HQ s a' s' HP [= <- <-]. auto. Qed.

Lemma hoare_bind {A B} P (R : A → S → Prop) (m : eff S E A) (f : A → eff S E B) Q :
  hoare P m R → (∀ a, hoare (R a) (f a) Q) → hoare P (m ≫= f) Q.
Proof.
  intros Hm Hf s b s' HP. unfold mbind, eff_mbind, eff_bind.
  destruct (m s) as [[a|e] s1] eqn:Em; [|discriminate].
  intros Hb. eapply Hf; eauto.
Qed.

Lemma hoare_throw {A} P (Q : A → S → Prop) e : hoare P (throw e) Q.
Proof. intros s a s' _ [=]. Qed.

Lemma hoare_gets {A} P (f : S → A) (Q : A → S → Prop) :
  (∀ s, P s → Q (f s) s) → hoare P (gets f) Q.
Proof. intros HQ s a s' HP [= <- <-]. auto. Qed.

Lemma hoare_modify P f (Q : unit → S → Prop) :
  (∀ s, P s → Q tt (f s)) → hoare P (modify f) Q.
Proof. intros HQ s a s' HP [= <- <-]. auto. Qed.

Lemma hoare_lift {A} P (r : result E A) (Q : A → S → Prop) :
  (∀ a s, r = Ok a → P s → Q a s) → hoare P (lift r) Q.
Proof. intros HQ s a s' HP [= -> <-]. auto. Qed.

Lemma hoare_pre {A} (P P' : S → Prop) (m : eff S E A) Q :
  hoare P' m Q → (∀ s, P s → P' s) → hoare P m Q.
Proof. intros Hm HP s a s' ?. eauto. Qed.

Lemma hoare_post {A} P (m : eff S E A) (Q Q' : A → S → Prop) :
  hoare P m Q' → (∀ a s, Q' a s → Q a s) → hoare P m Q.
Proof. intros Hm HQ s a s' ??. eauto. Qed.

Lemma hoare_require P b e (Q : unit → S → Prop) :
  (∀ s, b = true → P s → Q tt s) → hoare P (require b e) Q.
Proof.
  intros HQ. unfold require. destruct b; [|apply hoare_throw].
  apply hoare_ret. auto.
Qed.

Lemma hoare_when P b m (Q : unit → S → Prop) :
  (b = true → hoare P m Q) → (b = false → ∀ s, P s → Q tt s) → hoare P (when b m) Q.
Proof.
  intros Ht Hf. unfold when. destruct b; [auto|]. apply hoare_ret. auto.
Qed.

Lemma hoare_iter {A} (I : S → Prop) (f : A → eff S E unit) l :
  (∀ x, x ∈ l → hoare I (f x) (λ _, I)) → hoare I (eff_iter f l) (λ _, I).
Proof.
  induction l as [|x l IH]; intros Hf; simpl.
  - apply hoare_ret; auto.
  - eapply hoare_bind; [apply Hf; left|].
    intros ?. apply IH. intros y Hy. apply Hf. by right.
Qed.
End Hoare.

(** ** Outcomes

    [wpf m Q X s]: run from [s], [m] returns a value and a state in [Q] or
    raises an exception and leaves a state in [X]. *)

Section Outcomes.
Context {S E : Type}.
Implicit Types (s : S).

Definition wpf {A} (m : eff S E A) (Q : A → S → Prop) (X : E → S → Prop) s : Prop :=
  match m s with (Ok a, s') => Q a s' | (Err e, s') => X e s' end.

Lemma wpf_ret {A} (a : A) (Q : A → S → Prop) (X : E → S → Prop) s :
  Q a s → wpf (mret (M := eff S E) a) Q X s.
Proof. done. Qed.
Lemma wpf_throw {A} e (Q : A → S → Prop) (X : E → S → Prop) s : X e s → wpf (throw e) Q X s.
Proof. done. Qed.
Lemma wpf_bind {A B} (m : eff S E A) (f : A → eff S E B) Q X s :
  wpf m (λ a, wpf (f a) Q X) X s → wpf (m ≫= f) Q X s.
Proof. unfold wpf, mbind, eff_mbind, eff_bind. by destruct (m s) as [[a|e] s']. Qed.
Lemma wpf_lift {A} (r : result E A) (Q : A → S → Prop) X s :
  match r with Ok a => Q a s | Err e => X e s end → wpf (lift r) Q X s.
Proof. unfold wpf, lift. by destruct r. Qed.
Lemma wpf_mono {A} (m : eff S E A) (Q Q' : A → S → Prop) (X X' : E → S → Prop) s :
  wpf m Q X s → (∀ a s', Q a s' → Q' a s') → (∀ e s', X e s' → X' e s') → wpf m Q' X' s.
Proof. unfold wpf. destruct (m s) as [[a|e] s']; auto. Qed.
Lemma wpf_attempt {A} (classes : E → bool) (m : eff S E A) (Q : option A → S → Prop) X s :
  wpf m (λ a, Q (Some a)) (λ e s', if classes e then Q None s' else X e s') s →
  wpf (attempt classes m) Q X s.
Proof. unfold wpf, attempt. destruct (m s) as [[a|e] s']; [done|]. by destruct (classes e). Qed.
Lemma wpf_iter {A} (f : A → eff S E unit) l (I : S → Prop) (X : E → S → Prop) s :
  I s → (∀ x s, x ∈ l → I s → wpf (f x) (λ _, I) X s) → wpf (eff_iter f l) (λ _, I) X s.
Proof.
  revert s. induction l as [|x l IH]; intros s Hs Hf; [done|]. simpl. apply wpf_bind.
  eapply wpf_mono; [apply Hf; [left|done]| |done]. intros [] s' Hs'. simpl.
  apply IH; [done|]. intros y s'' Hy. apply Hf. by right.
Qed.
End Outcomes.

(** ** The order of SQL columns

    Keys are lists of integers: numbers are singletons, text and blobs their
    code points.  Lexicographic order is SQLite's BINARY collation. *)

Fixpoint zlist_leb (a b : list Z) : bool :=
  match a, b with
  | [], _ => true
  | _ :: _, [] => false
  | x :: a, y :: b => (x <? y) || ((x =? y) && zlist_leb a b)
  end.

Definition zlist_le (a b : list Z) : Prop := Is_true (zlist_leb a b).

#[export] Instance zlist_le_dec : RelDecision zlist_le := λ a b, _.

#[export] Instance zlist_le_total : Total zlist_le.
Proof.
  intros a b. unfold zlist_le. revert b.
  induction a as [|x a IH]; intros [|y b]; simpl; auto.
  destruct (Z.ltb_spec x y), (Z.ltb_spec y x), (Z.eqb_spec x y), (Z.eqb_spec y x);
    simpl; auto; lia.
Qed.

#[export] Instance zlist_le_trans : Transitive zlist_le.
Proof.
  intros a b c. unfold zlist_le. revert b c.
  induction a as [|x a IH]; intros [|y b] [|z c]; simpl; auto; try done.
  destruct (Z.ltb_spec x y), (Z.ltb_spec y z), (Z.eqb_spec x y), (Z.eqb_spec y z),
    (Z.ltb_spec x z), (Z.eqb_spec x z); simpl; try done; try lia; eauto.
Qed.

#[export] Instance zlist_le_antisym : AntiSymm (=) zlist_le.
Proof.
  intros a b. unfold zlist_le. revert b.
  induction a as [|x a IH]; intros [|y b]; simpl; try done.
  destruct (Z.ltb_spec x y), (Z.ltb_spec y x), (Z.eqb_spec x y), (Z.eqb_spec y x);
    simpl; try done; try lia.
  intros ??. subst. f_equal. auto.
Qed.
