(* ===== verification/Text.v ===== *)
(** * Python text operations

    The [str] methods the modelled code calls, on lists of code points:
    [strip], [lower] (ASCII), [isascii], [startswith], [endswith], substring
    test, [split], [join], [count], [partition]; [re.fullmatch] of the
    one-character-class patterns [[..]+] and [[..]{n}]; UTF-8 encoding. *)

From S2P Require Import Prelude.

(** The white space [str.strip] removes (Unicode [White_Space] together with
    the separators U+001C to U+001F). *)
Definition is_space (c : Z) : bool :=
  ((9 <=? c) && (c <=? 13)) || ((28 <=? c) && (c <=? 32)) || (c =? 133) || (c =? 160)
  || (c =? 5760) || ((8192 <=? c) && (c <=? 8202)) || (c =? 8232) || (c =? 8233)
  || (c =? 8239) || (c =? 8287) || (c =? 12288).

Fixpoint lstrip_by (p : Z → bool) (s : list Z) : list Z :=
  match s with
  | [] => []
  | c :: s' => if p c then lstrip_by p s' else s
  end.

Definition rstrip_by (p : Z → bool) (s : list Z) : list Z := reverse (lstrip_by p (reverse s)).
Definition strip (s : list Z) : list Z := rstrip_by is_space (lstrip_by is_space s).

Definition is_ascii (s : list Z) : bool := forallb (λ c, c <? 128) s.

Definition lower_char (c : Z) : Z := if (65 <=? c) && (c <=? 90) then c + 32 else c.
Definition lower (s : list Z) : list Z := lower_char <$> s.
Definition upper_char (c : Z) : Z := if (97 <=? c) && (c <=? 122) then c - 32 else c.
Definition upper (s : list Z) : list Z := upper_char <$> s.

Definition str_eqb (a b : list Z) : bool := bool_decide (a = b).

Fixpoint starts_with (p s : list Z) : bool :=
  match p, s with
  | [], _ => true
  | _ :: _, [] => false
  | x :: p, y :: s => (x =? y) && starts_with p s
  end.

Definition ends_with (p s : list Z) : bool := starts_with (reverse p) (reverse s).

Fixpoint contains (p s : list Z) : bool :=
  starts_with p s || match s with [] => false | _ :: s => contains p s end.

Definition has_char (c : Z) (s : list Z) : bool := existsb (Z.eqb c) s.

Definition count_char (c : Z) (s : list Z) : Z := zlen (filter (λ x, x = c) s).

(** [s.split(sep)] for a one-character separator: always at least one field. *)
Fixpoint split_char (sep : Z) (s : list Z) : list (list Z) :=
  match s with
  | [] => [[]]
  | c :: s =>
      if c =? sep then [] :: split_char sep s
      else match split_char sep s with
           | [] => [[c]]
           | f :: fs => (c :: f) :: fs
           end
  end.

Fixpoint join (sep : list Z) (fs : list (list Z)) : list Z :=
  match fs with
  | [] => []
  | [f] => f
  | f :: fs => f ++ sep ++ join sep fs
  end.

(** [s.partition(sep)] without the separator; [None] when it is absent. *)
Fixpoint partition_char (sep : Z) (s : list Z) : option (list Z * list Z) :=
  match s with
  | [] => None
  | c :: s =>
      if c =? sep then Some ([], s)
      else match partition_char sep s with
           | Some (a, b) => Some (c :: a, b)
           | None => None
           end
  end.

Definition replace_char (c : Z) (by_ : list Z) (s : list Z) : list Z :=
  mjoin ((λ x, if x =? c then by_ else [x]) <$> s).

(** Character classes. *)
Definition is_digit (c : Z) : bool := (48 <=? c) && (c <=? 57).
Definition is_lower (c : Z) : bool := (97 <=? c) && (c <=? 122).
Definition is_upper (c : Z) : bool := (65 <=? c) && (c <=? 90).
Definition is_alnum (c : Z) : bool := is_digit c || is_lower c || is_upper c.
Definition is_hex_lower (c : Z) : bool := is_digit c || ((97 <=? c) && (c <=? 102)).
Definition in_chars (cs : list Z) (c : Z) : bool := has_char c cs.

(** [re.fullmatch("[class]+", s)] and [re.fullmatch("[class]{n}", s)]. *)
Definition match_plus (p : Z → bool) (s : list Z) : bool :=
  negb (bool_decide (s = [])) && forallb p s.
Definition match_exact (p : Z → bool) (n : Z) (s : list Z) : bool :=
  (zlen s =? n) && forallb p s.
Definition match_range (p : Z → bool) (lo hi : Z) (s : list Z) : bool :=
  (lo <=? zlen s) && (zlen s <=? hi) && forallb p s.

(** [str(n)] for an integer: decimal digits by repeated division. *)
Fixpoint digits_fuel (fuel : nat) (n : Z) : list Z :=
  match fuel with
  | O => []
  | S fuel => if n <? 10 then [48 + n] else digits_fuel fuel (n / 10) ++ [48 + n mod 10]
  end.

Definition digits (n : Z) : list Z := digits_fuel (S (Z.to_nat (Z.log2 n))) n.

Definition str_of_int (n : Z) : list Z := if n <? 0 then 45 :: digits (- n) else digits n.

(** [int(s)] of a string of ASCII decimal digits. *)
Definition int_of_digits (s : list Z) : Z := foldl (λ acc c, acc * 10 + (c - 48)) 0 s.

(** [ipaddress.ip_address] of an IPv4 address. *)
Definition ipv4_octet (s : list Z) : option Z :=
  if match_plus is_digit s && (zlen s <=? 3) && (str_eqb s [48] || negb (starts_with [48] s))
  then let n := int_of_digits s in if n <=? 255 then Some n else None
  else None.

Definition ipv4_address (s : list Z) : option (Z * Z * Z * Z) :=
  match split_char 46 s with
  | [a; b; c; d] =>
      match ipv4_octet a, ipv4_octet b, ipv4_octet c, ipv4_octet d with
      | Some a, Some b, Some c, Some d => Some (a, b, c, d)
      | _, _, _, _ => None
      end
  | _ => None
  end.

(** ["%0wd" % n] for [0 <= n]. *)
Definition zero_pad (w : nat) (s : list Z) : list Z := replicate (w - length s) 48 ++ s.

(** [s.split()]: the maximal runs without white space. *)
Fixpoint words (s : list Z) : list (list Z) :=
  match s with
  | [] => []
  | c :: s' =>
      if is_space c then words s'
      else match s' with
           | [] => [[c]]
           | d :: _ => if is_space d then [c] :: words s'
                       else match words s' with
                            | w :: ws => (c :: w) :: ws
                            | [] => [[c]]
                            end
           end
  end.

(** [s.splitlines()]: the line boundaries of [str]. *)
Definition is_line_break (c : Z) : bool :=
  ((10 <=? c) && (c <=? 13)) || ((28 <=? c) && (c <=? 30)) || (c =? 133) || (c =? 8232)
  || (c =? 8233).

Fixpoint lines_from (line s : list Z) : list (list Z) :=
  match s with
  | [] => match line with [] => [] | _ => [line] end
  | 13 :: 10 :: s => line :: lines_from [] s
  | c :: s => if is_line_break c then line :: lines_from [] s else lines_from (line ++ [c]) s
  end.

Definition splitlines (s : list Z) : list (list Z) := lines_from [] s.

(** [bytes.hex()]. *)
Definition hex_digit (n : Z) : Z := if n <? 10 then 48 + n else 87 + n.
Definition hex_of_byte (b : Z) : list Z := [hex_digit (b / 16); hex_digit (b mod 16)].
Definition hex (bs : list Z) : list Z := mjoin (hex_of_byte <$> bs).

(** [str.encode("utf-8")]: [None] is UnicodeEncodeError (a lone surrogate), and
    the value at an integer that is not a code point. *)
Definition utf8_char (c : Z) : option (list Z) :=
  if (c <? 0) || (1114112 <=? c) then None
  else if c <? 128 then Some [c]
  else if c <? 2048 then Some [192 + c / 64; 128 + c mod 64]
  else if (55296 <=? c) && (c <=? 57343) then None
  else if c <? 65536 then Some [224 + c / 4096; 128 + c / 64 mod 64; 128 + c mod 64]
  else Some [240 + c / 262144; 128 + c / 4096 mod 64; 128 + c / 64 mod 64; 128 + c mod 64].

Fixpoint utf8_encode (s : list Z) : option (list Z) :=
  match s with
  | [] => Some []
  | c :: s =>
      match utf8_char c, utf8_encode s with
      | Some b, Some bs => Some (b ++ bs)
      | _, _ => None
      end
  end.

(** ** Facts *)

Create HintDb text discriminated.

Lemma zlen_nonneg {A} (l : list A) : 0 ≤ zlen l.
Proof. unfold zlen. lia. Qed.

Lemma zlen_app {A} (l k : list A) : zlen (l ++ k) = zlen l + zlen k.
Proof. unfold zlen. rewrite length_app. lia. Qed.

Lemma zlen_cons {A} (x : A) l : zlen (x :: l) = 1 + zlen l.
Proof. unfold zlen. simpl. lia. Qed.

Lemma zlen_fmap {A B} (f : A → B) l : zlen (f <$> l) = zlen l.
Proof. unfold zlen. by rewrite length_fmap. Qed.

Lemma str_eqb_true a b : str_eqb a b = true ↔ a = b.
Proof. apply bool_decide_eq_true. Qed.

Lemma str_eqb_refl a : str_eqb a a = true.
Proof. by apply str_eqb_true. Qed.

Lemma lower_char_idemp c : lower_char (lower_char c) = lower_char c.
Proof.
  unfold lower_char. destruct ((65 <=? c) && (c <=? 90)) eqn:E; [|by rewrite E].
  destruct ((65 <=? c + 32) && (c + 32 <=? 90)) eqn:E'; lia.
Qed.

Lemma lower_idemp s : lower (lower s) = lower s.
Proof.
  unfold lower. rewrite <-list_fmap_compose. apply list_fmap_ext. intros i c _.
  apply lower_char_idemp.
Qed.

Lemma zlen_lower s : zlen (lower s) = zlen s.
Proof. apply zlen_fmap. Qed.

Lemma lower_app a b : lower (a ++ b) = lower a ++ lower b.
Proof. apply fmap_app. Qed.

Lemma forallb_lower p s : (∀ c, p (lower_char c) = p c) → forallb p (lower s) = forallb p s.
Proof. intros Hp. induction s as [|c s IH]; [done|]; csimpl. by rewrite Hp, IH. Qed.

Lemma forallb_impl {A} (p q : A → bool) l :
  (∀ x, p x = true → q x = true) → forallb p l = true → forallb q l = true.
Proof. rewrite !forallb_forall. naive_solver. Qed.

Lemma lstrip_by_id p s : match s with [] => True | c :: _ => p c = false end → lstrip_by p s = s.
Proof. destruct s as [|c s]; simpl; [done|]. by intros ->. Qed.

Lemma lstrip_by_idemp p s : lstrip_by p (lstrip_by p s) = lstrip_by p s.
Proof.
  induction s as [|c s IH]; [done|]. simpl. destruct (p c) eqn:E; [done|]. simpl. by rewrite E.
Qed.

Lemma strip_none s : forallb (λ c, negb (is_space c)) s = true → strip s = s.
Proof.
  intros Hs. unfold strip, rstrip_by.
  assert (Hl : ∀ l, forallb (λ c, negb (is_space c)) l = true → lstrip_by is_space l = l).
  { intros [|c l]; [done|]; simpl. by destruct (is_space c). }
  rewrite (Hl s Hs), Hl; [apply reverse_involutive|].
  apply forallb_forall. intros c Hc. rewrite <-list_elem_of_In, elem_of_reverse, list_elem_of_In in Hc.
  rewrite forallb_forall in Hs. auto.
Qed.

Lemma starts_with_spec p s : starts_with p s = true ↔ ∃ t, s = p ++ t.
Proof.
  revert s. induction p as [|x p IH]; intros s; simpl.
  - split; [intros _; by exists s|done].
  - destruct s as [|y s]; simpl.
    + split; [done|]. by intros [t [=]].
    + rewrite andb_true_iff, Z.eqb_eq, IH. split.
      * intros [-> [t ->]]. by exists t.
      * intros [t [= -> ->]]. eauto.
Qed.

Lemma contains_spec p s : contains p s = true ↔ ∃ a b, s = a ++ p ++ b.
Proof.
  induction s as [|c s IH]; simpl; rewrite orb_true_iff, starts_with_spec.
  - split; [intros [[t ?]|?]; [by exists [], t|done]|].
    intros (a & b & Hab). left. destruct a; [by exists b|discriminate].
  - rewrite IH. split.
    + intros [[t Ht]|(a & b & ->)]; [by exists [], t|]. by exists (c :: a), b.
    + intros ([|x a] & b & Hab); [left; by exists b|].
      right. simplify_eq/=. eauto.
Qed.

Lemma split_char_nonempty sep s : split_char sep s ≠ [].
Proof.
  destruct s as [|c s]; simpl; [done|]. destruct (c =? sep); [done|].
  by destruct (split_char sep s).
Qed.

Lemma join_cons sep f g fs : join sep (f :: g :: fs) = f ++ sep ++ join sep (g :: fs).
Proof. done. Qed.

Lemma join_split sep s : join [sep] (split_char sep s) = s.
Proof.
  induction s as [|c s IH]; [done|]. simpl.
  pose proof (split_char_nonempty sep s) as Hne.
  destruct (Z.eqb_spec c sep) as [->|Hc].
  - destruct (split_char sep s) as [|f fs] eqn:E; [done|]. rewrite join_cons, IH. done.
  - destruct (split_char sep s) as [|f [|g fs]] eqn:E; [done| |].
    + simpl in *. by rewrite IH.
    + rewrite join_cons in IH. rewrite join_cons. simpl. f_equal. apply IH.
Qed.

Lemma split_char_fields sep s f : f ∈ split_char sep s → sep ∉ f.
Proof.
  revert f. induction s as [|c s IH]; intros f; simpl.
  - rewrite list_elem_of_singleton. intros ->. apply not_elem_of_nil.
  - destruct (Z.eqb_spec c sep) as [->|Hc].
    + intros [->|?]%elem_of_cons; [apply not_elem_of_nil|auto].
    + pose proof (split_char_nonempty sep s).
      destruct (split_char sep s) as [|g gs] eqn:E; [done|].
      intros [->|Hf]%elem_of_cons.
      * rewrite not_elem_of_cons. split; [done|]. apply IH. left.
      * apply IH. by right.
Qed.

Lemma split_char_none sep s : sep ∉ s → split_char sep s = [s].
Proof.
  induction s as [|c s IH]; [done|]. intros [Hc Hs]%not_elem_of_cons. simpl.
  rewrite (IH Hs). by destruct (Z.eqb_spec c sep).
Qed.

Lemma split_char_app sep a b :
  sep ∉ a → split_char sep (a ++ sep :: b) = a :: split_char sep b.
Proof.
  induction a as [|c a IH]; simpl.
  - intros _. by rewrite Z.eqb_refl.
  - intros [Hc Ha]%not_elem_of_cons. rewrite (IH Ha). by destruct (Z.eqb_spec c sep).
Qed.

Lemma split_join sep fs :
  fs ≠ [] → Forall (λ f, sep ∉ f) fs → split_char sep (join [sep] fs) = fs.
Proof.
  induction fs as [|f fs IH]; [done|]. intros _ [Hf Hfs]%Forall_cons.
  destruct fs as [|g fs]; [by apply split_char_none|].
  rewrite join_cons. simpl app. rewrite split_char_app by done. f_equal. by apply IH.
Qed.

Lemma has_char_spec c s : has_char c s = true ↔ c ∈ s.
Proof.
  unfold has_char. rewrite existsb_exists. setoid_rewrite Z.eqb_eq.
  setoid_rewrite <-list_elem_of_In. naive_solver.
Qed.

(** Decimal printing and parsing are inverse. *)
Lemma int_of_digits_app s c : int_of_digits (s ++ [c]) = int_of_digits s * 10 + (c - 48).
Proof. unfold int_of_digits. by rewrite foldl_app. Qed.

Lemma digits_fuel_spec fuel n :
  0 ≤ n < 2 ^ Z.of_nat fuel →
  int_of_digits (digits_fuel fuel n) = n ∧ forallb is_digit (digits_fuel fuel n) = true.
Proof.
  revert n. induction fuel as [|fuel IH]; intros n Hn.
  - assert (n = 0) as -> by (simpl in Hn; lia). done.
  - simpl. destruct (Z.ltb_spec n 10) as [Hlt|Hge].
    + unfold int_of_digits, is_digit. simpl. lia.
    + destruct (IH (n / 10)) as [IH1 IH2].
      { rewrite Nat2Z.inj_succ, Z.pow_succ_r in Hn by lia.
        split; [apply Z.div_pos; lia|]. apply Z.div_lt_upper_bound; lia. }
      rewrite int_of_digits_app, IH1. split.
      * pose proof (Z.div_mod n 10). lia.
      * rewrite forallb_app, IH2. unfold is_digit. simpl.
        pose proof (Z.mod_pos_bound n 10). lia.
Qed.

Lemma digits_spec n : 0 ≤ n → int_of_digits (digits n) = n ∧ forallb is_digit (digits n) = true.
Proof.
  intros Hn. apply digits_fuel_spec. split; [done|].
  rewrite Nat2Z.inj_succ, Z2Nat.id by apply Z.log2_nonneg.
  destruct (decide (n = 0)) as [->|]; [done|]. apply Z.log2_spec. lia.
Qed.

Lemma digits_inj n m : 0 ≤ n → 0 ≤ m → digits n = digits m → n = m.
Proof.
  intros Hn Hm Heq. destruct (digits_spec n Hn) as [<- _], (digits_spec m Hm) as [<- _].
  by rewrite Heq.
Qed.

Lemma digits_fuel_length fuel n : (0 < fuel)%nat → (0 < length (digits_fuel fuel n))%nat.
Proof. destruct fuel; [lia|]. simpl. case_match; simpl; [lia|]. rewrite length_app. simpl. lia. Qed.

Lemma length_hex bs : length (hex bs) = (2 * length bs)%nat.
Proof. unfold hex. induction bs as [|b bs IH]; [done|]; csimpl. unfold hex_of_byte in *. simpl. lia. Qed.

Lemma hex_digit_range n : 0 ≤ n < 16 → is_hex_lower (hex_digit n) = true.
Proof. unfold hex_digit, is_hex_lower, is_digit. intros. destruct (Z.ltb_spec n 10); lia. Qed.

Lemma hex_is_hex bs : Forall (λ b, 0 ≤ b < 256) bs → forallb is_hex_lower (hex bs) = true.
Proof.
  unfold hex. induction 1 as [|b bs Hb _ IH]; [done|]; csimpl.
  rewrite !hex_digit_range; [done| |].
  - apply Z.mod_pos_bound. lia.
  - split; [apply Z.div_pos; lia|apply Z.div_lt_upper_bound; lia].
Qed.

#[export] Hint Rewrite @zlen_app @zlen_cons @zlen_fmap zlen_lower : text.
#[export] Hint Resolve zlen_nonneg str_eqb_refl lower_idemp : text.

Lemma join_elem sep fs x : x ∈ join sep fs → x ∈ sep ∨ ∃ f, f ∈ fs ∧ x ∈ f.
Proof.
  induction fs as [|f [|g fs] IH]; intros Hx.
  - by apply not_elem_of_nil in Hx.
  - right. exists f. split; [left|done].
  - rewrite join_cons, !elem_of_app in Hx. destruct Hx as [Hx|[Hx|Hx]].
    + right. exists f. split; [left|done].
    + by left.
    + destruct (IH Hx) as [|(h & Hh & Hxh)]; [by left|]. right. exists h. split; [by right|done].
Qed.

(** ** [bytes.decode('utf-8')], strictly

    The decoder rejects overlong forms, surrogates, values beyond U+10FFFF and
    truncated or stray continuation bytes; it inverts the encoder. *)

Definition is_cont (b : Z) : bool := (128 <=? b) && (b <? 192).

Fixpoint utf8_decode (s : list Z) : option (list Z) :=
  match s with
  | [] => Some []
  | a :: r =>
      if (0 <=? a) && (a <? 128) then cons a <$> utf8_decode r
      else match r with
      | [] => None
      | b :: r =>
          if negb (is_cont b) then None
          else if (194 <=? a) && (a <? 224)
          then cons ((a - 192) * 64 + (b - 128)) <$> utf8_decode r
          else match r with
          | [] => None
          | c :: r =>
              if negb (is_cont c) then None
              else if (224 <=? a) && (a <? 240) then
                let v := ((a - 224) * 64 + (b - 128)) * 64 + (c - 128) in
                if (v <? 2048) || ((55296 <=? v) && (v <=? 57343)) then None
                else cons v <$> utf8_decode r
              else match r with
              | [] => None
              | d :: r =>
                  if negb (is_cont d) then None
                  else if (240 <=? a) && (a <? 245) then
                    let v := (((a - 240) * 64 + (b - 128)) * 64 + (c - 128)) * 64 + (d - 128) in
                    if (v <? 65536) || (1114112 <=? v) then None else cons v <$> utf8_decode r
                  else None
              end
          end
      end
  end.

Lemma cont_mod n : is_cont (128 + n mod 64) = true.
Proof. unfold is_cont. pose proof (Z.mod_pos_bound n 64). lia. Qed.

Lemma utf8_decode_char c b r :
  utf8_char c = Some b → utf8_decode (b ++ r) = cons c <$> utf8_decode r.
Proof.
  unfold utf8_char. destruct ((c <? 0) || (1114112 <=? c)) eqn:E0; [done|].
  destruct (Z.ltb_spec c 128); [intros [= <-]; cbn [app utf8_decode];
    by replace ((0 <=? c) && (c <? 128)) with true by lia|].
  pose proof (Z.div_mod c 64 ltac:(lia)) as H64. pose proof (Z.mod_pos_bound c 64 ltac:(lia)).
  destruct (Z.ltb_spec c 2048).
  { intros [= <-]. cbn [app utf8_decode]. rewrite !cont_mod. cbn [negb].
    assert (2 ≤ c / 64 < 32)
      by (split; [apply Z.div_le_lower_bound; lia|apply Z.div_lt_upper_bound; lia]).
    replace ((0 <=? 192 + c / 64) && (192 + c / 64 <? 128)) with false by lia.
    replace ((194 <=? 192 + c / 64) && (192 + c / 64 <? 224)) with true by lia.
    do 2 f_equal. lia. }
  destruct ((55296 <=? c) && (c <=? 57343)) eqn:Es; [done|].
  pose proof (Z.div_mod (c / 64) 64 ltac:(lia)) as H4096.
  pose proof (Z.mod_pos_bound (c / 64) 64 ltac:(lia)). rewrite Z.div_div in H4096 by lia.
  change (64 * 64) with 4096 in H4096.
  destruct (Z.ltb_spec c 65536).
  { intros [= <-]. cbn [app utf8_decode]. rewrite !cont_mod. cbn [negb].
    assert (0 ≤ c / 4096 < 16)
      by (split; [apply Z.div_pos; lia|apply Z.div_lt_upper_bound; lia]).
    replace ((0 <=? 224 + c / 4096) && (224 + c / 4096 <? 128)) with false by lia.
    replace ((194 <=? 224 + c / 4096) && (224 + c / 4096 <? 224)) with false by lia.
    replace ((224 <=? 224 + c / 4096) && (224 + c / 4096 <? 240)) with true by lia.
    replace (((224 + c / 4096 - 224) * 64 + (128 + (c / 64) mod 64 - 128)) * 64 +
             (128 + c mod 64 - 128)) with c by lia.
    by replace ((c <? 2048) || ((55296 <=? c) && (c <=? 57343))) with false by lia. }
  pose proof (Z.div_mod (c / 4096) 64 ltac:(lia)) as H18.
  pose proof (Z.mod_pos_bound (c / 4096) 64 ltac:(lia)). rewrite Z.div_div in H18 by lia.
  change (4096 * 64) with 262144 in H18.
  intros [= <-]. cbn [app utf8_decode]. rewrite !cont_mod. cbn [negb].
  assert (0 ≤ c / 262144 < 5)
    by (split; [apply Z.div_pos; lia|apply Z.div_lt_upper_bound; lia]).
  replace ((0 <=? 240 + c / 262144) && (240 + c / 262144 <? 128)) with false by lia.
  replace ((194 <=? 240 + c / 262144) && (240 + c / 262144 <? 224)) with false by lia.
  replace ((224 <=? 240 + c / 262144) && (240 + c / 262144 <? 240)) with false by lia.
  replace ((240 <=? 240 + c / 262144) && (240 + c / 262144 <? 245)) with true by lia.
  replace ((((240 + c / 262144 - 240) * 64 + (128 + (c / 4096) mod 64 - 128)) * 64 +
     (128 + (c / 64) mod 64 - 128)) * 64 + (128 + c mod 64 - 128)) with c by lia.
  by replace ((c <? 65536) || (1114112 <=? c)) with false by lia.
Qed.

Lemma utf8_roundtrip s b : utf8_encode s = Some b → utf8_decode b = Some s.
Proof.
  revert b. induction s as [|c s IH]; intros b; simpl; [by intros [= <-]|].
  destruct (utf8_char c) as [x|] eqn:Ec; [|done]. destruct (utf8_encode s) as [y|]; [|done].
  intros [= <-]. rewrite (utf8_decode_char c x y Ec), (IH y eq_refl). done.
Qed.
