(* ===== verification/Errors.v ===== *)
(** * Exceptions of the package

    One constructor per exception class the modelled code raises; messages are
    not modelled, the data a caller reads off an exception is. [catches]
    is the [except] clause test: an exception is caught by its own class and by
    the base classes of [src/src/maddyweb] and of the Python built-ins. *)

From S2P Require Import Prelude.

Inductive exc : Type :=
| ValueError
| TypeError
| RuntimeError
| LookupError
| EOFError
| StructError
| TimeoutError
| UnicodeError
| UnicodeEncodeError
| UnicodeDecodeError
| JSONDecodeError
| RecursionError
| IntegrityError
(* auth.py *)
| AuthenticationError
| DatabaseSecurityError
| MasterKeyError
| AccountExistsError
| AccountNotFoundError
| EnrollmentStateError
| InvalidChallengeError
| InvalidSecondFactorError
| InvalidPasskeyError
| StepUpRequiredError
| InvalidSessionError
| AuthenticationDataError
| LoginRateLimitedError (retry_after : Z)
| PasskeyLimitError
| MailRuleLimitError
| MailRuleNotFoundError
| MailRuleConflictError
(* the webauthn package *)
| WebAuthnException
(* rules.py *)
| RuleError
| RuleValidationError
| RuleMessageError
| RuleMessageLimitError
(* protocol.py *)
| ProtocolError
| FrameTooLarge
| ConnectionClosed
| StreamError
| StreamTooLarge
| StreamTruncated
(* rule_snapshots.py, filter bridge *)
| RuleSnapshotError
| FilterBridgeError
| FilterClientError
| FileNotFoundError
| FileExistsError
| PermissionError
| NotADirectoryError
| OSError
| KeyError
| IndexError
| AttributeError
| OverflowError
(* aiohttp's HTTP exceptions, with what the code reads off them *)
| HTTPException (status : Z) (reason text : option (list Z)) (headers : list (list Z * list Z))
(* config.py, mail.py, maddy.py, gateway.py, helper.py *)
| ConfigError
| MailError
| MailLimitError
| MailValidationError (public_message : list Z)
| DeliveryRejected
| DeliveryUncertain
| MaddyError
| StaleMessageCursor
| VersionParseError
| UnsupportedVersion
| UnsupportedCapability
| CapabilityFingerprintError
| LegacyLDAPUnsafe
| RuntimeConfigUnsafe
| InvalidMaddyArgument
| CommandLaunchError
| CommandTimeout
| CommandOutputLimit
| CommandInputError
| CommandFailed (reported_failure : bool)
| PartialOperationError
| HelperCallError (code : list Z)
| SMTPError
| SMTPRejected (code : Z) (stage : list Z)
| SMTPOutcomeUnknown
| SMTPTransportError
| AuthorizationDenied
| InvalidCredentials
| PasswordChangeRequired
| StepUpRequired
| RuleMailboxConflict
| CertificateError
| UnknownCertificate
| CertificateValidationError
| CertificateCommandError
(* a loop of the model ran out of its fuel; never raised by the code *)
| OutOfFuel.

#[export] Instance exc_eq_dec : EqDecision exc.
Proof. solve_decision. Defined.

(** The direct base class, following the [class] statements. *)
Definition base_of (e : exc) : option exc :=
  match e with
  | UnicodeEncodeError | UnicodeDecodeError => Some UnicodeError
  | UnicodeError | JSONDecodeError => Some ValueError
  | TimeoutError => Some OSError
  | RecursionError => Some RuntimeError
  | AuthenticationError => Some RuntimeError
  | DatabaseSecurityError | MasterKeyError | AccountExistsError | AccountNotFoundError
  | EnrollmentStateError | InvalidChallengeError | InvalidSecondFactorError
  | InvalidSessionError | AuthenticationDataError | LoginRateLimitedError _
  | PasskeyLimitError | MailRuleLimitError | MailRuleNotFoundError
  | MailRuleConflictError => Some AuthenticationError
  | InvalidPasskeyError | StepUpRequiredError => Some InvalidSecondFactorError
  | RuleValidationError | RuleMessageError => Some RuleError
  | RuleError => Some ValueError
  | RuleMessageLimitError => Some RuleMessageError
  | ProtocolError => Some ValueError
  | ConnectionClosed => Some EOFError
  | FrameTooLarge | StreamError => Some ProtocolError
  | StreamTooLarge | StreamTruncated => Some StreamError
  | RuleSnapshotError | FilterBridgeError | FilterClientError => Some RuntimeError
  | FileNotFoundError | FileExistsError | PermissionError | NotADirectoryError => Some OSError
  | KeyError | IndexError => Some LookupError
  | ConfigError | MailError | InvalidMaddyArgument | RuleMailboxConflict => Some ValueError
  | MailLimitError | MailValidationError _ => Some MailError
  | DeliveryRejected | DeliveryUncertain | MaddyError | HelperCallError _ | SMTPError
  | AuthorizationDenied | InvalidCredentials | CertificateError => Some RuntimeError
  | StaleMessageCursor | VersionParseError | UnsupportedVersion | UnsupportedCapability
  | CapabilityFingerprintError | LegacyLDAPUnsafe | RuntimeConfigUnsafe | CommandLaunchError
  | CommandTimeout | CommandOutputLimit | CommandInputError | CommandFailed _
  | PartialOperationError => Some MaddyError
  | SMTPRejected _ _ | SMTPOutcomeUnknown | SMTPTransportError => Some SMTPError
  | PasswordChangeRequired | StepUpRequired => Some AuthorizationDenied
  | UnknownCertificate | CertificateValidationError | CertificateCommandError =>
      Some CertificateError
  | _ => None
  end.

Fixpoint subclass_fuel (n : nat) (e c : exc) : bool :=
  bool_decide (e = c) ||
  match n, base_of e with
  | S n, Some b => subclass_fuel n b c
  | _, _ => false
  end.

(** The class hierarchy has at most four levels. *)
Definition catches (classes : list exc) (e : exc) : bool :=
  existsb (subclass_fuel 4 e) classes.
