(* ===== verification/Sql.v ===== *)
(** * SQL tables as lists of rows

    A table is the list of its rows in rowid order (an INSERT without an
    explicit rowid takes [max(rowid) + 1], so it appends).  The definitions are
    the fragment of SQLite the authentication store uses: SELECT / COUNT /
    DELETE / UPDATE with a WHERE predicate, ORDER BY, LIMIT, INSERT under
    uniqueness and CHECK constraints, and row-by-row UPDATE of a unique column.
    The lemmas are what every table invariant of the store is proved from. *)

From S2P Require Import Prelude.

Section Table.
Context {R : Type}.

Definition select_where (P : R → Prop) `{!∀ r, Decision (P r)} (t : list R) : list R :=
  filter P t.

Definition fetchone (t : list R) : option R := head t.

Definition lookup_where (P : R → Prop) `{!∀ r, Decision (P r)} (t : list R) : option R :=
  fetchone (select_where P t).

Definition count_where (P : R → Prop) `{!∀ r, Decision (P r)} (t : list R) : Z :=
  zlen (select_where P t).

Definition delete_where (P : R → Prop) `{!∀ r, Decision (P r)} (t : list R) : list R :=
  filter (λ r, ¬ P r) t.

Definition update_where (P : R → Prop) `{!∀ r, Decision (P r)} (f : R → R) (t : list R)
  : list R := (λ r, if decide (P r) then f r else r) <$> t.

(** ORDER BY the columns [key] ascending, descending, and LIMIT. *)
Definition order_by (key : R → list Z) (t : list R) : list R :=
  merge_sort (λ a b, zlist_le (key a) (key b)) t.

Definition order_by_desc (key : R → list Z) (t : list R) : list R :=
  merge_sort (λ a b, zlist_le (key b) (key a)) t.

Definition limit (n : Z) (t : list R) : list R := take (Z.to_nat n) t.
Definition offset (n : Z) (t : list R) : list R := drop (Z.to_nat n) t.

(** INSERT: [conflict r r'] when a PRIMARY KEY or UNIQUE column agrees,
    [check] the CHECK constraints of the table; [None] is IntegrityError. *)
Definition insert_row (check : R → bool) (conflict : R → R → bool) (r : R) (t : list R)
  : option (list R) :=
  if check r && negb (existsb (conflict r) t) then Some (t ++ [r]) else None.

(** UPDATE of a table with a uniqueness constraint: SQLite checks the
    constraint row by row, each rewritten row against the current contents of
    the other rows.  [before] holds the rows already visited. *)
Fixpoint update_unique (P : R → Prop) `{!∀ r, Decision (P r)} (f : R → R)
    (conflict : R → R → bool) (before rest : list R) : option (list R) :=
  match rest with
  | [] => Some before
  | r :: rest =>
      let r' := if decide (P r) then f r else r in
      if decide (P r) then
        if existsb (conflict r') (before ++ rest) then None
        else update_unique P f conflict (before ++ [r']) rest
      else update_unique P f conflict (before ++ [r']) rest
  end.
End Table.

Create HintDb sql discriminated.

Section TableFacts.
Context {R : Type} (P Q : R → Prop) `{!∀ r, Decision (P r), !∀ r, Decision (Q r)}.
Implicit Types (t : list R) (f : R → R).

Lemma elem_of_select t r : r ∈ select_where P t ↔ P r ∧ r ∈ t.
Proof. unfold select_where. by rewrite list_elem_of_filter. Qed.

Lemma elem_of_delete t r : r ∈ delete_where P t ↔ ¬ P r ∧ r ∈ t.
Proof. unfold delete_where. by rewrite list_elem_of_filter. Qed.

Lemma elem_of_update f t r :
  r ∈ update_where P f t ↔ ∃ r0, r0 ∈ t ∧ r = (if decide (P r0) then f r0 else r0).
Proof. unfold update_where. rewrite list_elem_of_fmap.
  split; intros (r0 & ? & ?); eauto. Qed.

Lemma lookup_where_Some t r : lookup_where P t = Some r → P r ∧ r ∈ t.
Proof.
  unfold lookup_where, fetchone. intros Hh. apply head_Some_elem_of in Hh.
  by apply elem_of_select in Hh.
Qed.

Lemma lookup_where_None t : lookup_where P t = None ↔ ∀ r, r ∈ t → ¬ P r.
Proof.
  unfold lookup_where, fetchone. rewrite head_None. split.
  - intros Hn r Hr HP.
    assert (r ∈ select_where P t) as Hin by (by apply elem_of_select).
    rewrite Hn in Hin. by apply not_elem_of_nil in Hin.
  - intros Hn. destruct (select_where P t) as [|r l] eqn:E; [done|].
    assert (r ∈ select_where P t) as [? ?]%elem_of_select by (rewrite E; left).
    exfalso. naive_solver.
Qed.

Lemma Forall_delete (I : R → Prop) t : Forall I t → Forall I (delete_where P t).
Proof.
  rewrite !Forall_forall. intros HI r [_ Hr]%elem_of_delete. auto.
Qed.

Lemma Forall_update (I : R → Prop) f t :
  Forall I t → (∀ r, r ∈ t → I r → P r → I (f r)) → Forall I (update_where P f t).
Proof.
  rewrite !Forall_forall. intros HI Hf r (r0 & Hr & ->)%elem_of_update.
  case_decide; auto.
Qed.

Lemma update_where_nomatch f t : (∀ r, r ∈ t → ¬ P r) → update_where P f t = t.
Proof.
  unfold update_where. intros Hn. induction t as [|r t IH]; [done|]; csimpl.
  rewrite decide_False by (apply Hn; left). f_equal. apply IH.
  intros r' ?. apply Hn. by right.
Qed.

Lemma delete_where_nomatch t : (∀ r, r ∈ t → ¬ P r) → delete_where P t = t.
Proof.
  unfold delete_where. intros Hn. induction t as [|r t IH]; [done|].
  rewrite filter_cons_True by (apply Hn; left). f_equal. apply IH.
  intros r' ?. apply Hn. by right.
Qed.

Lemma count_nonneg t : 0 ≤ count_where P t.
Proof. unfold count_where, zlen. lia. Qed.

Lemma count_app t1 t2 : count_where P (t1 ++ t2) = count_where P t1 + count_where P t2.
Proof. unfold count_where, select_where, zlen. rewrite filter_app, length_app. lia. Qed.

Lemma count_singleton r : count_where P [r] = if decide (P r) then 1 else 0.
Proof.
  unfold count_where, select_where, zlen. rewrite filter_cons, filter_nil.
  by destruct (decide (P r)).
Qed.

Lemma count_delete t : count_where P (delete_where Q t) ≤ count_where P t.
Proof.
  unfold count_where, select_where, delete_where, zlen. induction t as [|r t IH]; [done|].
  rewrite !filter_cons. repeat (case_decide; rewrite ?filter_cons); simpl; lia.
Qed.

Lemma count_delete_same t : count_where P (delete_where P t) = 0.
Proof.
  unfold count_where, select_where, delete_where. induction t as [|r t IH]; [done|].
  rewrite !filter_cons. repeat (case_decide; rewrite ?filter_cons); simpl; try done.
Qed.

Lemma count_update f t :
  (∀ r, r ∈ t → Q r → P (f r) ↔ P r) → count_where P (update_where Q f t) = count_where P t.
Proof.
  unfold count_where, select_where, update_where, zlen. intros Hf.
  induction t as [|r t IH]; [done|]; csimpl.
  rewrite !filter_cons. assert (Hr : P (if decide (Q r) then f r else r) ↔ P r).
  { destruct (decide (Q r)) as [HQ|]; [|done]. apply Hf; [left|done]. }
  rewrite (decide_ext _ _ _ _ Hr).
  specialize (IH (λ r' Hr', Hf r' (list_elem_of_further _ _ _ Hr'))).
  destruct (decide (P r)); simpl; lia.
Qed.

Lemma count_pos_elem t r : r ∈ t → P r → 1 ≤ count_where P t.
Proof.
  intros Hr HP. unfold count_where, zlen.
  assert (r ∈ select_where P t) as Hin by (by apply elem_of_select).
  destruct (select_where P t); [by apply not_elem_of_nil in Hin|simpl; lia].
Qed.

Lemma count_zero t : count_where P t = 0 ↔ ∀ r, r ∈ t → ¬ P r.
Proof.
  split.
  - intros Hc r Hr HP. pose proof (count_pos_elem t r Hr HP). lia.
  - intros Hn. unfold count_where, select_where.
    destruct (filter P t) as [|r l] eqn:E; [done|].
    assert (r ∈ filter P t) as [? ?]%list_elem_of_filter by (rewrite E; left).
    exfalso. naive_solver.
Qed.

Lemma count_exists t : count_where P t ≠ 0 → ∃ r, r ∈ t ∧ P r.
Proof.
  unfold count_where, select_where. intros Hc. destruct (filter P t) as [|r l] eqn:E; [done|].
  assert (r ∈ filter P t) as [? ?]%list_elem_of_filter by (rewrite E; left). eauto.
Qed.
End TableFacts.

(** Equality of counts and of WHERE results under equivalent predicates. *)
Lemma count_where_ext {R} (P P' : R → Prop) `{!∀ r, Decision (P r), !∀ r, Decision (P' r)} t :
  (∀ r, r ∈ t → P r ↔ P' r) → count_where P t = count_where P' t.
Proof.
  unfold count_where, select_where. intros HPP'. f_equal.
  induction t as [|r t IH]; [done|]. rewrite !filter_cons.
  rewrite (decide_ext _ _ _ _ (HPP' r (list_elem_of_here _ _))).
  rewrite IH; [done|]. intros r' ?. apply HPP'. by right.
Qed.

Section KeyFacts.
Context {R K : Type} `{!EqDecision K} (key : R → K).
Context (P Q : R → Prop) `{!∀ r, Decision (P r), !∀ r, Decision (Q r)}.
Implicit Types (t : list R) (f : R → R).

Lemma NoDup_key_filter t : NoDup (key <$> t) → NoDup (key <$> filter P t).
Proof.
  induction t as [|r t IH]; csimpl; [done|]. rewrite NoDup_cons. intros [Hn Hd].
  rewrite filter_cons. case_decide; csimpl; [|auto]. rewrite NoDup_cons. split; [|auto].
  intros Hin. apply Hn. apply list_elem_of_fmap in Hin as (r' & -> & [_ Hr']%list_elem_of_filter).
  by apply list_elem_of_fmap_2.
Qed.

Lemma NoDup_key_app r t : NoDup (key <$> t) → key r ∉ (key <$> t) → NoDup (key <$> t ++ [r]).
Proof.
  intros Hd Hn. rewrite fmap_app. apply NoDup_app. split; [done|]. split.
  - intros k Hk Hk'. apply list_elem_of_singleton in Hk'. by subst.
  - apply NoDup_singleton.
Qed.

Lemma key_update f t : (∀ r, P r → key (f r) = key r) →
  key <$> update_where P f t = key <$> t.
Proof.
  intros Hf. unfold update_where. rewrite <-list_fmap_compose.
  apply list_fmap_ext. intros i r _. simpl. case_decide; auto.
Qed.

Lemma NoDup_key_eq t r1 r2 :
  NoDup (key <$> t) → r1 ∈ t → r2 ∈ t → key r1 = key r2 → r1 = r2.
Proof.
  intros Hd (i & Hi)%list_elem_of_lookup_1 (j & Hj)%list_elem_of_lookup_1 Hk.
  assert (i = j) as ->; [|congruence].
  eapply (NoDup_lookup (key <$> t)); [done| |].
  - by rewrite list_lookup_fmap, Hi.
  - rewrite list_lookup_fmap, Hj. simpl. by rewrite Hk.
Qed.

Lemma lookup_where_key t r k :
  NoDup (key <$> t) → r ∈ t → key r = k →
  lookup_where (λ r, key r = k) t = Some r.
Proof.
  intros Hd Hr Hk. destruct (lookup_where _ t) as [r'|] eqn:E.
  - apply lookup_where_Some in E as [Hk' Hr']. f_equal.
    eapply NoDup_key_eq; eauto. congruence.
  - rewrite lookup_where_None in E. exfalso. by eapply E.
Qed.

Lemma count_key_le t k : NoDup (key <$> t) → count_where (λ r, key r = k) t ≤ 1.
Proof.
  unfold count_where, select_where. intros Hd.
  destruct (filter (λ r, key r = k) t) as [|r1 [|r2 l]] eqn:E; simpl; try (unfold zlen; simpl; lia).
  assert (Hd' : NoDup (key <$> filter (λ r, key r = k) t)) by
    (clear -Hd; induction t as [|r t IH]; csimpl in *; [done|];
     apply NoDup_cons in Hd as [Hn Hd]; rewrite filter_cons; case_decide; csimpl; [|auto];
     rewrite NoDup_cons; split; [|auto]; intros (r' & Hk & [_ Hr']%list_elem_of_filter)%list_elem_of_fmap;
     apply Hn; rewrite Hk; by apply list_elem_of_fmap_2).
  rewrite E in Hd'. csimpl in Hd'.
  assert (r1 ∈ filter (λ r, key r = k) t) as [H1 _]%list_elem_of_filter by (rewrite E; left).
  assert (r2 ∈ filter (λ r, key r = k) t) as [H2 _]%list_elem_of_filter by (rewrite E; right; left).
  rewrite NoDup_cons in Hd'. destruct Hd' as [Hd' _]. exfalso. apply Hd'. rewrite H1, H2. left.
Qed.

Lemma count_key_one t k :
  NoDup (key <$> t) → count_where (λ r, key r = k) t = 1 ↔ ∃ r, r ∈ t ∧ key r = k.
Proof.
  intros Hd. pose proof (count_key_le t k Hd) as Hle. split.
  - intros Hone. destruct (lookup_where (λ r, key r = k) t) as [r|] eqn:E.
    + apply lookup_where_Some in E as [??]. eauto.
    + rewrite lookup_where_None in E.
      assert (count_where (λ r, key r = k) t = 0) by (apply count_zero; eauto). lia.
  - intros (r & Hr & Hk). pose proof (count_pos_elem (λ r, key r = k) t r Hr Hk). lia.
Qed.
End KeyFacts.

(** DELETE ... WHERE key IN (SELECT key ... ORDER BY ... LIMIT n). *)
Section Evict.
Context {R K : Type} `{!EqDecision K} (key : R → K) (ord : R → list Z).
Context (P Q : R → Prop) `{!∀ r, Decision (P r), !∀ r, Decision (Q r)}.

Definition evict (n : Z) (t : list R) : list R :=
  let doomed := key <$> limit n (order_by ord (select_where Q t)) in
  delete_where (λ r, key r ∈ doomed) t.

Lemma elem_of_order_by (t : list R) r : r ∈ order_by ord t ↔ r ∈ t.
Proof. unfold order_by. by rewrite merge_sort_Permutation. Qed.

Lemma length_order_by (t : list R) : length (order_by ord t) = length t.
Proof. unfold order_by. by rewrite merge_sort_Permutation. Qed.

Lemma elem_of_limit n (t : list R) r : r ∈ limit n t → r ∈ t.
Proof.
  intros Hr. rewrite <-(take_drop (Z.to_nat n) t), elem_of_app. by left.
Qed.

Lemma count_victims (v t : list R) :
  NoDup (key <$> t) → NoDup v → (∀ r, r ∈ v → P r ∧ r ∈ t) →
  count_where P (delete_where (λ r, key r ∈ key <$> v) t) = count_where P t - zlen v.
Proof.
  clear ord Q H0. intros Hd Hdv Hv.
  assert (Hvic : ∀ r, r ∈ t → key r ∈ (key <$> v) ↔ r ∈ v).
  { intros r Hr. split; [|apply list_elem_of_fmap_2].
    intros (r' & Hk & Hr')%list_elem_of_fmap.
    rewrite (NoDup_key_eq key t r r'); auto. by apply Hv. }
  assert (Hdt : NoDup t) by (by apply (NoDup_fmap_1 key)).
  assert (Hperm : filter (λ r, key r ∈ (key <$> v)) (filter P t) ≡ₚ v).
  { apply NoDup_Permutation; [by do 2 apply NoDup_filter|done|].
    intros r. rewrite !list_elem_of_filter. split.
    - intros (Hk & _ & Hr). by apply Hvic.
    - intros Hr. destruct (Hv r Hr) as [??]. split; [by apply list_elem_of_fmap_2|]. auto. }
  unfold count_where, select_where, delete_where.
  pose proof (filter_app_complement (λ r, key r ∈ (key <$> v)) (filter P t)) as Hc.
  apply Permutation_length in Hc. rewrite length_app, Hperm in Hc.
  rewrite !list_filter_filter in Hc |- *. unfold zlen in *.
  rewrite (list_filter_iff _ (λ x, ¬ (key x ∈ (key <$> v)) ∧ P x)); [lia|].
  intros x; tauto.
Qed.

Lemma count_evict n t :
  NoDup (key <$> t) → (∀ r, Q r → P r) → 0 ≤ n ≤ count_where Q t →
  count_where P (evict n t) = count_where P t - n.
Proof.
  intros Hd HQP Hn. unfold evict. rewrite count_victims; [|done| |].
  - f_equal. unfold limit, zlen. rewrite length_take, length_order_by.
    unfold count_where, zlen in Hn. lia.
  - unfold limit. apply (sublist_NoDup _ (order_by ord (select_where Q t))).
    + unfold order_by. rewrite merge_sort_Permutation. apply NoDup_filter.
      by eapply NoDup_fmap_1.
    + apply sublist_take.
  - intros r Hr%elem_of_limit. rewrite elem_of_order_by, elem_of_select in Hr. split; [apply HQP|]; tauto.
Qed.
End Evict.

#[export] Hint Resolve Forall_delete Forall_update NoDup_key_filter NoDup_key_app : sql.

(** ** Table integrity

    The rows satisfy the CHECK constraints (foreign keys included) and no two of
    them agree on a PRIMARY KEY or UNIQUE column. *)

Section Integrity.
Context {R : Type}.
Implicit Types (t : list R) (check : R → bool) (conflict : R → R → bool).

Fixpoint unique_rows conflict t : Prop :=
  match t with
  | [] => True
  | r :: t => Forall (λ r', conflict r r' = false) t ∧ unique_rows conflict t
  end.

Definition table_ok check conflict t : Prop :=
  Forall (λ r, check r = true) t ∧ unique_rows conflict t.

Definition sym_conflict conflict : Prop := ∀ r r', conflict r r' = conflict r' r.

Lemma unique_rows_app conflict t1 t2 :
  unique_rows conflict (t1 ++ t2) ↔
  unique_rows conflict t1 ∧ unique_rows conflict t2 ∧
  (∀ x y, x ∈ t1 → y ∈ t2 → conflict x y = false).
Proof.
  induction t1 as [|r t1 IH]; simpl.
  - split; [intros H; repeat split; auto; intros x y Hx; by apply not_elem_of_nil in Hx|tauto].
  - rewrite IH, Forall_app, !Forall_forall. split.
    + intros [[Ha Hb] (H1 & H2 & H3)]. repeat split; auto.
      intros x y [->|Hx]%elem_of_cons Hy; auto.
    + intros ((Ha & H1) & H2 & H3). repeat split; auto.
      * intros y Hy. apply H3; [left|done].
      * intros x y Hx. apply H3. by right.
Qed.

Lemma unique_rows_singleton conflict r : unique_rows conflict [r].
Proof. split; [constructor|done]. Qed.

Lemma unique_rows_filter (P : R → Prop) `{!∀ r, Decision (P r)} conflict t :
  unique_rows conflict t → unique_rows conflict (filter P t).
Proof.
  induction t as [|r t IH]; [done|]. intros [Hr Ht]. rewrite filter_cons.
  case_decide; [|auto]. split; [|auto].
  rewrite Forall_forall in *. intros r' [_ Hr']%list_elem_of_filter. auto.
Qed.

Lemma unique_rows_fmap (g : R → R) conflict t :
  (∀ r r', conflict (g r) (g r') = conflict r r') →
  unique_rows conflict t → unique_rows conflict (g <$> t).
Proof.
  intros Hg. induction t as [|r t IH]; [done|]. intros [Hr Ht]. csimpl. split; [|auto].
  rewrite Forall_fmap. eapply Forall_impl; [done|]. intros r' Hr'. simpl. by rewrite Hg.
Qed.

Lemma unique_rows_key {K} (key : R → K) conflict t :
  (∀ r r', key r = key r' → conflict r r' = true) →
  unique_rows conflict t → NoDup (key <$> t).
Proof.
  intros Hk. induction t as [|r t IH]; [constructor|]. intros [Hr Ht]. csimpl. constructor; [|auto].
  intros (r' & Heq & Hr')%list_elem_of_fmap. rewrite Forall_forall in Hr.
  specialize (Hr r' Hr'). simpl in Hr. by rewrite Hk in Hr.
Qed.

Lemma table_ok_nil check conflict : table_ok check conflict [].
Proof. split; [constructor|done]. Qed.

Lemma table_ok_app_one check conflict r t :
  sym_conflict conflict → check r = true → (∀ r', r' ∈ t → conflict r r' = false) →
  table_ok check conflict t → table_ok check conflict (t ++ [r]).
Proof.
  intros Hsym Hc Hn [Hf Hu]. split.
  - apply Forall_app. auto.
  - apply unique_rows_app. split; [done|]. split; [apply unique_rows_singleton|].
    intros x y Hx ->%list_elem_of_singleton. rewrite Hsym. auto.
Qed.

Lemma insert_row_Some check conflict r t t' :
  insert_row check conflict r t = Some t' →
  t' = t ++ [r] ∧ check r = true ∧ ∀ r', r' ∈ t → conflict r r' = false.
Proof.
  unfold insert_row. destruct (check r) eqn:Hc; [|done]. simpl.
  destruct (existsb (conflict r) t) eqn:He; simpl; [done|]. intros [= <-].
  split; [done|]. split; [done|]. intros r' Hr'.
  destruct (conflict r r') eqn:E; [|done].
  rewrite <-He. symmetry. apply existsb_exists. exists r'. by rewrite <-list_elem_of_In.
Qed.

Lemma table_ok_insert check conflict r t t' :
  sym_conflict conflict → insert_row check conflict r t = Some t' →
  table_ok check conflict t → table_ok check conflict t'.
Proof. intros Hsym (-> & ? & ?)%insert_row_Some. by apply table_ok_app_one. Qed.

Lemma table_ok_filter (P : R → Prop) `{!∀ r, Decision (P r)} check conflict t :
  table_ok check conflict t → table_ok check conflict (filter P t).
Proof.
  intros [Hf Hu]. split; [|by apply unique_rows_filter].
  rewrite Forall_forall in *. intros r [_ Hr]%list_elem_of_filter. auto.
Qed.

Lemma table_ok_delete (P : R → Prop) `{!∀ r, Decision (P r)} check conflict t :
  table_ok check conflict t → table_ok check conflict (delete_where P t).
Proof. apply table_ok_filter. Qed.

Lemma table_ok_mono check check' conflict t :
  (∀ r, r ∈ t → check r = true → check' r = true) →
  table_ok check conflict t → table_ok check' conflict t.
Proof.
  intros Hm [Hf Hu]. split; [|done]. rewrite Forall_forall in *. auto.
Qed.

Lemma table_ok_fmap (g : R → R) check check' conflict t :
  (∀ r, r ∈ t → check r = true → check' (g r) = true) →
  (∀ r r', conflict (g r) (g r') = conflict r r') →
  table_ok check conflict t → table_ok check' conflict (g <$> t).
Proof.
  intros Hc Hg [Hf Hu]. split; [|by apply unique_rows_fmap].
  rewrite Forall_fmap, Forall_forall in *. simpl. auto.
Qed.

Lemma table_ok_update (P : R → Prop) `{!∀ r, Decision (P r)} (f : R → R) check conflict t :
  (∀ r, r ∈ t → P r → check r = true → check (f r) = true) →
  (∀ r r', conflict (f r) r' = conflict r r' ∧ conflict r (f r') = conflict r r') →
  table_ok check conflict t → table_ok check conflict (update_where P f t).
Proof.
  intros Hc Hg. apply table_ok_fmap.
  - intros r Hr Hok. case_decide; auto.
  - intros r r'. destruct (decide (P r)), (decide (P r')); auto.
    + destruct (Hg r (f r')) as [-> _]. apply Hg.
    + apply Hg.
    + apply Hg.
Qed.

Lemma update_unique_ok (P : R → Prop) `{!∀ r, Decision (P r)} (f : R → R) conflict before rest t' :
  sym_conflict conflict →
  update_unique P f conflict before rest = Some t' →
  unique_rows conflict (before ++ rest) →
  t' = before ++ update_where P f rest ∧ unique_rows conflict t'.
Proof.
  intros Hsym. revert before. induction rest as [|r rest IH]; intros before; simpl.
  - intros [= <-]. rewrite !app_nil_r. auto.
  - unfold update_where. csimpl. case_decide as HP.
    + destruct (existsb _ _) eqn:He; [done|]. intros Hu Huniq.
      assert (Hn : ∀ x, x ∈ before ++ rest → conflict (f r) x = false).
      { intros x Hx. destruct (conflict (f r) x) eqn:E; [|done].
        rewrite <-He. symmetry. apply existsb_exists. exists x. by rewrite <-list_elem_of_In. }
      apply IH in Hu as [-> Hu2].
      * split; [by rewrite <-app_assoc|done].
      * rewrite <-app_assoc. simpl. apply unique_rows_app in Huniq as (H1 & [Hr H2] & H3).
        apply unique_rows_app. split; [done|]. split.
        -- split; [|done]. rewrite Forall_forall. intros x Hx. apply Hn. apply elem_of_app; auto.
        -- intros x y Hx [->|Hy]%elem_of_cons.
           ++ rewrite Hsym. apply Hn, elem_of_app; auto.
           ++ apply H3; [done|]. by right.
    + intros Hu Huniq. apply IH in Hu as [-> Hu2].
      * split; [by rewrite <-app_assoc|done].
      * by rewrite <-app_assoc.
Qed.
End Integrity.
