(* ===== verification/Json.v ===== *)
(** * JSON as the code uses it

    Values, [json.dumps(..., ensure_ascii=False, separators=(",", ":"))] with and
    without [sort_keys], and [json.loads] with the hooks the code installs
    ([object_pairs_hook], [parse_int], [parse_float], [parse_constant]).

    A finite Python float is identified with its [repr] text; [float(text)] is
    the parameter [py_float] of the scanner.  A Python [dict] with string keys
    is the association list of its items in insertion order. *)

From S2P Require Import Prelude Text.

Inductive pyfloat : Type :=
| FFinite (repr : list Z)
| FNan
| FInf (negative : bool).

Inductive json : Type :=
| JNull
| JBool (b : bool)
| JInt (z : Z)
| JFloat (f : pyfloat)
| JStr (s : list Z)
| JArr (l : list json)
| JObj (kvs : list (list Z * json)).

(** Induction through arrays and objects. *)
Section JsonInd.
Context (P : json → Prop).
Context (Hnull : P JNull) (Hbool : ∀ b, P (JBool b)) (Hint : ∀ z, P (JInt z))
  (Hfloat : ∀ f, P (JFloat f)) (Hstr : ∀ s, P (JStr s))
  (Harr : ∀ l, Forall P l → P (JArr l))
  (Hobj : ∀ kvs, Forall (λ kv, P kv.2) kvs → P (JObj kvs)).

Fixpoint json_ind' (j : json) : P j :=
  match j with
  | JNull => Hnull
  | JBool b => Hbool b
  | JInt z => Hint z
  | JFloat f => Hfloat f
  | JStr s => Hstr s
  | JArr l =>
      Harr l ((fix go (l : list json) : Forall P l :=
                 match l with
                 | [] => Forall_nil_2 P
                 | x :: l => Forall_cons_2 P x l (json_ind' x) (go l)
                 end) l)
  | JObj kvs =>
      Hobj kvs ((fix go (kvs : list (list Z * json)) : Forall (λ kv, P kv.2) kvs :=
                   match kvs with
                   | [] => Forall_nil_2 _
                   | kv :: kvs => Forall_cons_2 (λ kv, P kv.2) kv kvs (json_ind' kv.2) (go kvs)
                   end) kvs)
  end.
End JsonInd.

#[export] Instance pyfloat_eq_dec : EqDecision pyfloat.
Proof. solve_decision. Defined.

#[export] Instance json_eq_dec : EqDecision json.
Proof.
  refine (fix go (a b : json) : Decision (a = b) :=
    match a, b with
    | JNull, JNull => left _
    | JBool x, JBool y => cast_if (decide (x = y))
    | JInt x, JInt y => cast_if (decide (x = y))
    | JFloat x, JFloat y => cast_if (decide (x = y))
    | JStr x, JStr y => cast_if (decide (x = y))
    | JArr x, JArr y => cast_if (@list_eq_dec _ go x y)
    | JObj x, JObj y =>
        cast_if (@list_eq_dec _ (@prod_eq_dec _ _ _ go) x y)
    | _, _ => right _
    end); try congruence; try clear go; abstract intuition congruence.
Defined.

Fixpoint obj_get (k : list Z) (kvs : list (list Z * json)) : option json :=
  match kvs with
  | [] => None
  | (k', v) :: kvs => if str_eqb k' k then Some v else obj_get k kvs
  end.

Definition obj_keys (kvs : list (list Z * json)) : list (list Z) := kvs.*1.

(** [result[key] = value] on a dict: in place, or appended. *)
Fixpoint obj_set (k : list Z) (v : json) (kvs : list (list Z * json)) : list (list Z * json) :=
  match kvs with
  | [] => [(k, v)]
  | (k', v') :: kvs => if str_eqb k' k then (k', v) :: kvs else (k', v') :: obj_set k v kvs
  end.

Definition dict_of_pairs (pairs : list (list Z * json)) : list (list Z * json) :=
  foldl (λ d kv, obj_set kv.1 kv.2 d) [] pairs.

(** ** dumps *)

Definition escape_char (c : Z) : list Z :=
  if c =? 34 then [92; 34]
  else if c =? 92 then [92; 92]
  else if c =? 10 then [92; 110]
  else if c =? 13 then [92; 114]
  else if c =? 9 then [92; 116]
  else if c =? 12 then [92; 102]
  else if c =? 8 then [92; 98]
  else if c <? 32 then [92; 117; 48; 48; hex_digit (c / 16); hex_digit (c mod 16)]
  else [c].

Definition dump_string (s : list Z) : list Z := [34] ++ mjoin (escape_char <$> s) ++ [34].

Definition sort_items (kvs : list (list Z * json)) : list (list Z * json) :=
  merge_sort (λ a b, zlist_le a.1 b.1) kvs.

Fixpoint comma_join (parts : list (list Z)) : list Z :=
  match parts with
  | [] => []
  | [p] => p
  | p :: parts => p ++ [44] ++ comma_join parts
  end.

(** The interpreter's limit on decimal conversions of integers. *)
Definition MAX_INT_DIGITS : Z := 4300.

Definition dump_int (z : Z) : option (list Z) :=
  if MAX_INT_DIGITS <? zlen (digits (Z.abs z)) then None else Some (str_of_int z).

(** [None] is ValueError: a float that is not finite, under [allow_nan=False],
    or an integer above the limit.
    Sorting the items of an object by key and then rendering them is rendering
    the values first and sorting the (key, text) pairs: only keys are compared,
    and the keys of a dict are distinct. *)
Fixpoint dumps (sort_keys : bool) (j : json) : option (list Z) :=
  match j with
  | JNull => Some (u "null")
  | JBool true => Some (u "true")
  | JBool false => Some (u "false")
  | JInt z => dump_int z
  | JFloat (FFinite r) => Some r
  | JFloat _ => None
  | JStr s => Some (dump_string s)
  | JArr l =>
      parts ← (fix go (l : list json) : option (list (list Z)) :=
                 match l with
                 | [] => Some []
                 | x :: l => match dumps sort_keys x, go l with
                             | Some p, Some ps => Some (p :: ps)
                             | _, _ => None
                             end
                 end) l;
      Some ([91] ++ comma_join parts ++ [93])
  | JObj kvs =>
      parts ← (fix go (kvs : list (list Z * json)) : option (list (list Z * list Z)) :=
                 match kvs with
                 | [] => Some []
                 | (k, v) :: kvs => match dumps sort_keys v, go kvs with
                                    | Some p, Some ps => Some ((k, p) :: ps)
                                    | _, _ => None
                                    end
                 end) kvs;
      let parts := if sort_keys then merge_sort (λ a b, zlist_le a.1 b.1) parts else parts in
      Some ([123] ++ comma_join ((λ kp, dump_string kp.1 ++ [58] ++ kp.2) <$> parts) ++ [125])
  end.

(** ** loads *)

Definition hex_value (c : Z) : option Z :=
  if is_digit c then Some (c - 48)
  else if (97 <=? c) && (c <=? 102) then Some (c - 87)
  else if (65 <=? c) && (c <=? 70) then Some (c - 55)
  else None.

Definition hex4 (a b c d : Z) : option Z :=
  a ← hex_value a; b ← hex_value b; c ← hex_value c; d ← hex_value d;
  Some (((a * 16 + b) * 16 + c) * 16 + d).

Definition simple_escape (c : Z) : option Z :=
  if c =? 34 then Some 34 else if c =? 92 then Some 92 else if c =? 47 then Some 47
  else if c =? 98 then Some 8 else if c =? 102 then Some 12 else if c =? 110 then Some 10
  else if c =? 114 then Some 13 else if c =? 116 then Some 9 else None.

Definition is_high (c : Z) : bool := (55296 <=? c) && (c <=? 56319).
Definition is_low (c : Z) : bool := (56320 <=? c) && (c <=? 57343).
Definition join_surrogates (hi lo : Z) : Z := 65536 + (hi - 55296) * 1024 + (lo - 56320).

Definition cons_fst {A B} (x : A) (r : option (list A * B)) : option (list A * B) :=
  match r with Some (l, b) => Some (x :: l, b) | None => None end.

(** The text of a string after its opening quote (strict mode). *)
Fixpoint scan_string (s : list Z) : option (list Z * list Z) :=
  match s with
  | [] => None
  | c :: r =>
      if c =? 34 then Some ([], r)
      else if c =? 92 then
        match r with
        | [] => None
        | e :: r1 =>
            if e =? 117 then
              match r1 with
              | a :: b :: c :: d :: r2 =>
                  match hex4 a b c d with
                  | None => None
                  | Some hi =>
                      if is_high hi then
                        match r2 with
                        | x :: y :: a' :: b' :: c' :: d' :: r3 =>
                            if (x =? 92) && (y =? 117) then
                              match hex4 a' b' c' d' with
                              | None => None
                              | Some lo =>
                                  if is_low lo then cons_fst (join_surrogates hi lo) (scan_string r3)
                                  else cons_fst hi (scan_string r2)
                              end
                            else cons_fst hi (scan_string r2)
                        | _ => cons_fst hi (scan_string r2)
                        end
                      else cons_fst hi (scan_string r2)
                  end
              | _ => None
              end
            else match simple_escape e with
                 | None => None
                 | Some x => cons_fst x (scan_string r1)
                 end
        end
      else if c <? 32 then None
      else cons_fst c (scan_string r)
  end.

Definition is_ws (c : Z) : bool := (c =? 32) || (c =? 9) || (c =? 10) || (c =? 13).
Definition skip_ws (s : list Z) : list Z := lstrip_by is_ws s.

Fixpoint span (p : Z → bool) (s : list Z) : list Z * list Z :=
  match s with
  | [] => ([], [])
  | c :: r => if p c then let '(a, b) := span p r in (c :: a, b) else ([], s)
  end.

(** Integer, fraction and exponent of a number token. *)
Definition scan_frac (s : list Z) : list Z * list Z :=
  match s with
  | 46 :: r => let '(ds, r') := span is_digit r in
               match ds with [] => ([], s) | _ => (46 :: ds, r') end
  | _ => ([], s)
  end.

Definition scan_exp (s : list Z) : list Z * list Z :=
  match s with
  | e :: r =>
      if (e =? 101) || (e =? 69) then
        let '(sign, r1) := match r with
                           | g :: r1 => if (g =? 43) || (g =? 45) then ([g], r1) else ([], r)
                           | [] => ([], r)
                           end in
        let '(ds, r2) := span is_digit r1 in
        match ds with [] => ([], s) | _ => (e :: sign ++ ds, r2) end
      else ([], s)
  | [] => ([], s)
  end.

Definition scan_int (s : list Z) : option (list Z * list Z) :=
  let '(sign, r) := match s with
                    | c :: r => if c =? 45 then ([45], r) else ([], s)
                    | [] => ([], s)
                    end in
  match r with
  | c :: r' =>
      if c =? 48 then Some (sign ++ [48], r')
      else if is_digit c then let '(ds, r2) := span is_digit r in Some (sign ++ ds, r2)
      else None
  | [] => None
  end.

Record hooks := Hooks {
  parse_int : list Z → option json;
  parse_float : list Z → option json;
  parse_constant : list Z → option json;
  object_pairs_hook : list (list Z * json) → option json;
}.

Definition scan_number (h : hooks) (s : list Z) : option (json * list Z) :=
  '(i, r) ← scan_int s;
  let '(f, r1) := scan_frac r in
  let '(e, r2) := scan_exp r1 in
  v ← match f ++ e with [] => parse_int h i | fe => parse_float h (i ++ fe) end;
  Some (v, r2).

Definition strip_prefix (p s : list Z) : option (list Z) :=
  if starts_with p s then Some (drop (length p) s) else None.

(** The literals and constants, in the order the scanner tries them. *)
Definition scan_literal (h : hooks) (s : list Z) : option (json * list Z) :=
  match strip_prefix (u "null") s with
  | Some r => Some (JNull, r)
  | None =>
  match strip_prefix (u "true") s with
  | Some r => Some (JBool true, r)
  | None =>
  match strip_prefix (u "false") s with
  | Some r => Some (JBool false, r)
  | None =>
  match strip_prefix (u "NaN") s with
  | Some r => v ← parse_constant h (u "NaN"); Some (v, r)
  | None =>
  match strip_prefix (u "Infinity") s with
  | Some r => v ← parse_constant h (u "Infinity"); Some (v, r)
  | None =>
  match strip_prefix (u "-Infinity") s with
  | Some r => v ← parse_constant h (u "-Infinity"); Some (v, r)
  | None => scan_number h s
  end end end end end end.

Definition expect (c : Z) (s : list Z) : option (list Z) :=
  match s with x :: r => if x =? c then Some r else None | [] => None end.

Section Scan.
Context (h : hooks).

(** [scan_once]; [scan_items] and [scan_members] continue an array and an
    object after their first element.  Every recursive call consumes at least
    one character, so fuel above the length of the text never runs out. *)
Fixpoint scan_once (fuel : nat) (s : list Z) : option (json * list Z) :=
  match fuel with
  | O => None
  | S fuel =>
      match s with
      | [] => None
      | c :: r =>
          if c =? 34 then '(t, r') ← scan_string r; Some (JStr t, r')
          else if c =? 91 then
            let r1 := skip_ws r in
            match expect 93 r1 with
            | Some r2 => Some (JArr [], r2)
            | None => '(x, r2) ← scan_once fuel r1;
                      '(xs, r3) ← scan_items fuel (skip_ws r2);
                      Some (JArr (x :: xs), r3)
            end
          else if c =? 123 then
            let r1 := skip_ws r in
            match expect 125 r1 with
            | Some r2 => v ← object_pairs_hook h []; Some (v, r2)
            | None => '(kv, r2) ← scan_member fuel r1;
                      '(kvs, r3) ← scan_members fuel (skip_ws r2);
                      v ← object_pairs_hook h (kv :: kvs); Some (v, r3)
            end
          else scan_literal h s
      end
  end
with scan_items (fuel : nat) (s : list Z) : option (list json * list Z) :=
  match fuel with
  | O => None
  | S fuel =>
      match expect 93 s with
      | Some r => Some ([], r)
      | None => r ← expect 44 s;
                '(x, r1) ← scan_once fuel (skip_ws r);
                '(xs, r2) ← scan_items fuel (skip_ws r1);
                Some (x :: xs, r2)
      end
  end
with scan_member (fuel : nat) (s : list Z) : option ((list Z * json) * list Z) :=
  match fuel with
  | O => None
  | S fuel =>
      r ← expect 34 s;
      '(k, r1) ← scan_string r;
      r2 ← expect 58 (skip_ws r1);
      '(v, r3) ← scan_once fuel (skip_ws r2);
      Some ((k, v), r3)
  end
with scan_members (fuel : nat) (s : list Z) : option (list (list Z * json) * list Z) :=
  match fuel with
  | O => None
  | S fuel =>
      match expect 125 s with
      | Some r => Some ([], r)
      | None => r ← expect 44 s;
                '(kv, r1) ← scan_member fuel (skip_ws r);
                '(kvs, r2) ← scan_members fuel (skip_ws r1);
                Some (kv :: kvs, r2)
      end
  end.

(** [json.loads] of text; [None] is JSONDecodeError or an exception of a hook
    (every caller turns both into the same exception of its own). *)
Definition loads (s : list Z) : option json :=
  if starts_with [65279] s then None
  else
    '(v, r) ← scan_once (S (S (length s))) (skip_ws s);
    match skip_ws r with [] => Some v | _ => None end.
End Scan.

(** ** The hooks of the standard decoder *)

Definition default_int (s : list Z) : option json :=
  let ds := match s with 45 :: ds => ds | _ => s end in
  if MAX_INT_DIGITS <? zlen ds then None
  else Some (JInt (match s with 45 :: ds => - int_of_digits ds | _ => int_of_digits s end)).

Definition default_constant (s : list Z) : option json :=
  Some (JFloat (if str_eqb s (u "NaN") then FNan else FInf (str_eqb s (u "-Infinity")))).

Definition unique_pairs (pairs : list (list Z * json)) : option json :=
  if decide (NoDup pairs.*1) then Some (JObj pairs) else None.

Definition default_hooks (py_float : list Z → pyfloat) : hooks :=
  Hooks default_int (λ s, Some (JFloat (py_float s))) default_constant
    (λ pairs, Some (JObj (dict_of_pairs pairs))).

(** ** Updated objects *)

Lemma str_eqb_ne a b : a ≠ b → str_eqb a b = false.
Proof. intros Hne. apply not_true_iff_false. by rewrite str_eqb_true. Qed.

Lemma obj_get_set_same k v (d : list (list Z * json)) : obj_get k (obj_set k v d) = Some v.
Proof.
  induction d as [|[k' w] d IH]; cbn [obj_get obj_set]; [by rewrite str_eqb_refl|].
  destruct (str_eqb k' k) eqn:E; cbn [obj_get]; by rewrite E.
Qed.

Lemma obj_get_set_other k k' v (d : list (list Z * json)) : k ≠ k' → obj_get k (obj_set k' v d) = obj_get k d.
Proof.
  intros Hne. assert (Hk : str_eqb k' k = false) by (by apply str_eqb_ne).
  induction d as [|[k2 w] d IH]; cbn [obj_get obj_set]; [by rewrite Hk|].
  destruct (str_eqb k2 k') eqn:E; cbn [obj_get].
  - apply str_eqb_true in E as ->. by rewrite Hk.
  - by destruct (str_eqb k2 k).
Qed.
