(* ===== verification/Identity.v ===== *)
(** * Canonical mailbox identity: [identity.py]

    [canonicalize_email] is the one function every other component uses to turn
    a user-supplied address into the identity it stores and compares. *)

From S2P Require Import Prelude Text Errors.

Definition is_local_char (c : Z) : bool :=
  is_alnum c || in_chars (u "!#$%&'*+/=?^_`{|}~.-") c.
Definition EMAIL_LOCAL_PATTERN (s : list Z) : bool := match_plus is_local_char s.

Definition is_label_char (c : Z) : bool := is_alnum c || (c =? 45).
Definition DOMAIN_LABEL_PATTERN (s : list Z) : bool := match_plus is_label_char s.

Definition AT : Z := 64.
Definition DOT : Z := 46.
Definition HYPHEN : Z := 45.

Definition local_part_invalid (local : list Z) : bool :=
  bool_decide (local = []) || (64 <? zlen local)
  || starts_with [DOT] local || ends_with [DOT] local
  || contains [DOT; DOT] local || negb (EMAIL_LOCAL_PATTERN local).

Definition domain_label_invalid (label : list Z) : bool :=
  bool_decide (label = []) || (63 <? zlen label)
  || starts_with [HYPHEN] label || ends_with [HYPHEN] label
  || negb (DOMAIN_LABEL_PATTERN label).

(** [local, domain = normalized.rsplit("@", 1)]: with exactly one at sign the
    first and the last separator coincide. *)
Definition canonicalize_email (value : list Z) : result exc (list Z) :=
  let normalized := strip value in
  if bool_decide (normalized = []) || (254 <? zlen normalized) || negb (is_ascii normalized)
  then Err ValueError
  else if negb (count_char AT normalized =? 1) then Err ValueError
  else match partition_char AT normalized with
       | None => Err ValueError
       | Some (local, domain) =>
           if local_part_invalid local then Err ValueError
           else if bool_decide (domain = []) || (253 <? zlen domain)
                   || starts_with [DOT] domain || ends_with [DOT] domain
           then Err ValueError
           else if existsb domain_label_invalid (split_char DOT domain) then Err ValueError
           else Ok (lower local ++ [AT] ++ lower domain)
       end.

(** ** Facts about lower-casing and the validity tests *)

Lemma lower_char_fix c x : is_upper x = false → is_lower x = false →
  (lower_char c =? x) = (c =? x).
Proof.
  unfold lower_char, is_upper, is_lower. intros Hu Hl.
  destruct ((65 <=? c) && (c <=? 90)) eqn:E; [|done].
  destruct (Z.eqb_spec (c + 32) x), (Z.eqb_spec c x); lia.
Qed.

Lemma in_chars_lower cs c :
  forallb (λ x, negb (is_upper x) && negb (is_lower x)) cs = true →
  in_chars cs (lower_char c) = in_chars cs c.
Proof.
  unfold in_chars, has_char. induction cs as [|x cs IH]; [done|]. simpl.
  rewrite andb_true_iff, andb_true_iff, !negb_true_iff. intros [[??] ?].
  by rewrite IH, lower_char_fix.
Qed.

Lemma is_alnum_lower c : is_alnum (lower_char c) = is_alnum c.
Proof.
  unfold lower_char, is_alnum, is_digit, is_lower, is_upper.
  destruct ((65 <=? c) && (c <=? 90)) eqn:E; lia.
Qed.

Lemma is_local_char_lower c : is_local_char (lower_char c) = is_local_char c.
Proof. unfold is_local_char. by rewrite is_alnum_lower, in_chars_lower. Qed.

Lemma is_label_char_lower c : is_label_char (lower_char c) = is_label_char c.
Proof. unfold is_label_char. by rewrite is_alnum_lower, lower_char_fix. Qed.

Lemma lower_nil_iff s : lower s = [] ↔ s = [].
Proof. destruct s; simpl; split; done. Qed.

Lemma match_plus_lower p s :
  (∀ c, p (lower_char c) = p c) → match_plus p (lower s) = match_plus p s.
Proof.
  intros Hp. unfold match_plus. rewrite forallb_lower by done. f_equal. f_equal.
  apply bool_decide_ext, lower_nil_iff.
Qed.

Lemma starts_with_lower p s :
  forallb (λ x, negb (is_upper x) && negb (is_lower x)) p = true →
  starts_with p (lower s) = starts_with p s.
Proof.
  revert s. induction p as [|x p IH]; intros [|c s] Hp; try done. simpl in *.
  rewrite !andb_true_iff, !negb_true_iff in Hp. destruct Hp as [[??] ?].
  rewrite (Z.eqb_sym x), lower_char_fix, (Z.eqb_sym c) by done. by rewrite IH.
Qed.

Lemma lower_reverse s : lower (reverse s) = reverse (lower s).
Proof. unfold lower. by rewrite fmap_reverse. Qed.

Lemma ends_with_lower p s :
  forallb (λ x, negb (is_upper x) && negb (is_lower x)) p = true →
  ends_with p (lower s) = ends_with p s.
Proof.
  intros Hp. unfold ends_with. rewrite <-lower_reverse. apply starts_with_lower.
  apply forallb_forall. intros x Hx. rewrite forallb_forall in Hp. apply Hp.
  by rewrite <-list_elem_of_In, elem_of_reverse, list_elem_of_In in Hx.
Qed.

Lemma contains_lower p s :
  forallb (λ x, negb (is_upper x) && negb (is_lower x)) p = true →
  contains p (lower s) = contains p s.
Proof.
  intros Hp. induction s as [|c s IH]; [done|].
  change (contains p (lower (c :: s)))
    with (starts_with p (lower (c :: s)) || contains p (lower s)).
  change (contains p (c :: s)) with (starts_with p (c :: s) || contains p s).
  by rewrite IH, starts_with_lower.
Qed.

Lemma local_part_invalid_lower s : local_part_invalid (lower s) = local_part_invalid s.
Proof.
  unfold local_part_invalid, EMAIL_LOCAL_PATTERN.
  rewrite zlen_lower, starts_with_lower, ends_with_lower, contains_lower,
    match_plus_lower by (done || apply is_local_char_lower).
  by rewrite (bool_decide_ext _ _ (lower_nil_iff s)).
Qed.

Lemma domain_label_invalid_lower s : domain_label_invalid (lower s) = domain_label_invalid s.
Proof.
  unfold domain_label_invalid, DOMAIN_LABEL_PATTERN.
  rewrite zlen_lower, starts_with_lower, ends_with_lower,
    match_plus_lower by (done || apply is_label_char_lower).
  by rewrite (bool_decide_ext _ _ (lower_nil_iff s)).
Qed.

Lemma split_char_lower sep s :
  is_upper sep = false → is_lower sep = false →
  split_char sep (lower s) = lower <$> split_char sep s.
Proof.
  intros Hu Hl. induction s as [|c s IH]; [done|]. csimpl.
  rewrite lower_char_fix by done. fold (lower s). rewrite IH.
  destruct (c =? sep); [done|]. by destruct (split_char sep s).
Qed.

Lemma existsb_fmap {A} (p : A → bool) (f : A → A) l :
  (∀ x, p (f x) = p x) → existsb p (f <$> l) = existsb p l.
Proof. intros Hf. induction l as [|x l IH]; [done|]; csimpl. by rewrite Hf, IH. Qed.

Lemma partition_char_app sep a b :
  sep ∉ a → partition_char sep (a ++ sep :: b) = Some (a, b).
Proof.
  induction a as [|c a IH]; simpl; [by rewrite Z.eqb_refl|].
  intros [? Ha]%not_elem_of_cons. rewrite (IH Ha). by destruct (Z.eqb_spec c sep).
Qed.

Lemma partition_char_Some sep s a b :
  partition_char sep s = Some (a, b) ↔ s = a ++ sep :: b ∧ sep ∉ a.
Proof.
  split; [|intros [-> ?]; by apply partition_char_app].
  revert a. induction s as [|c s IH]; intros a; simpl; [done|].
  destruct (Z.eqb_spec c sep) as [->|Hc].
  - intros [= <- <-]. split; [done|apply not_elem_of_nil].
  - destruct (partition_char sep s) as [[a' b']|]; [|done]. intros [= <- ->].
    destruct (IH a') as [-> Hn]; [done|]. split; [done|]. by apply not_elem_of_cons.
Qed.

Lemma count_char_none c s : count_char c s = 0 ↔ c ∉ s.
Proof.
  unfold count_char, zlen. split.
  - intros Hc Hin. assert (c ∈ filter (λ x, x = c) s) by (by apply list_elem_of_filter).
    destruct (filter (λ x, x = c) s); [by eapply not_elem_of_nil|simpl in *; lia].
  - intros Hn. replace (filter (λ x, x = c) s) with (@nil Z); [done|].
    induction s as [|y s IH]; [done|]. apply not_elem_of_cons in Hn as [??].
    rewrite filter_cons_False by congruence. auto.
Qed.

Lemma count_char_app c s t : count_char c (s ++ t) = count_char c s + count_char c t.
Proof. unfold count_char. by rewrite filter_app, zlen_app. Qed.

Lemma count_char_cons_eq c s : count_char c (c :: s) = 1 + count_char c s.
Proof. unfold count_char. by rewrite filter_cons_True, zlen_cons. Qed.

(** What a character of a valid local part or domain label cannot be. *)
Lemma is_local_char_sane c :
  is_local_char c = true → is_space c = false ∧ c ≠ AT ∧ c <? 128 = true.
Proof.
  unfold is_local_char, in_chars, has_char, is_space, AT, is_alnum, is_digit, is_lower, is_upper.
  match goal with |- context [existsb _ (u ?x)] =>
    let l := eval vm_compute in (u x) in change (u x) with l end.
  cbn [existsb]. lia.
Qed.

Lemma is_label_char_sane c :
  is_label_char c = true → is_space c = false ∧ c ≠ AT ∧ c <? 128 = true.
Proof.
  unfold is_label_char, is_space, AT, is_alnum, is_digit, is_lower, is_upper. lia.
Qed.

Definition sane (s : list Z) : Prop :=
  Forall (λ c, is_space c = false ∧ c ≠ AT ∧ c <? 128 = true) s.

Lemma sane_elem s c : sane s → c ∈ s → is_space c = false ∧ c ≠ AT ∧ c <? 128 = true.
Proof. unfold sane. rewrite Forall_forall. auto. Qed.

Lemma sane_strip s : Forall (λ c, is_space c = false) s → strip s = s.
Proof.
  intros Hs. apply strip_none, forallb_forall. intros c Hc.
  rewrite <-list_elem_of_In in Hc. rewrite Forall_forall in Hs. by rewrite Hs.
Qed.

Lemma local_sane local : local_part_invalid local = false → sane local.
Proof.
  unfold local_part_invalid, EMAIL_LOCAL_PATTERN, match_plus. intros Hl.
  rewrite !orb_false_iff, negb_false_iff, andb_true_iff in Hl.
  destruct Hl as [_ [_ Hf]]. apply Forall_forall. intros c Hc.
  apply is_local_char_sane. rewrite forallb_forall in Hf. by apply Hf, list_elem_of_In.
Qed.

Lemma domain_sane domain :
  existsb domain_label_invalid (split_char DOT domain) = false → sane domain.
Proof.
  intros He. apply Forall_forall. intros c Hc.
  rewrite <-(join_split DOT domain) in Hc. revert He Hc.
  generalize (split_char DOT domain) as fs. intros fs.
  induction fs as [|f fs IH]; simpl; [intros _ ?%not_elem_of_nil; done|].
  rewrite orb_false_iff. intros [Hf He] Hc.
  assert (Hlab : c ∈ f → is_space c = false ∧ c ≠ AT ∧ c <? 128 = true).
  { intros Hcf. apply is_label_char_sane.
    unfold domain_label_invalid, DOMAIN_LABEL_PATTERN, match_plus in Hf.
    rewrite !orb_false_iff, negb_false_iff, andb_true_iff in Hf.
    destruct Hf as [_ [_ Hf]]. rewrite forallb_forall in Hf. by apply Hf, list_elem_of_In. }
  destruct fs as [|g fs]; [auto|].
  apply elem_of_app in Hc as [?|[Hc|Hc]%elem_of_cons]; [auto| |auto].
  by subst.
Qed.

Lemma sane_lower s : sane s → sane (lower s).
Proof.
  unfold sane, lower. rewrite Forall_fmap. intros Hs. eapply Forall_impl; [exact Hs|].
  clear. intros c (Hs & Ha & H8). simpl.
  unfold lower_char, is_space, AT in *. destruct ((65 <=? c) && (c <=? 90)) eqn:E; [|done].
  lia.
Qed.

(** The cases in which an address is accepted. *)
Lemma canonicalize_email_Ok v e :
  canonicalize_email v = Ok e ↔
  ∃ local domain,
    strip v = local ++ AT :: domain ∧ zlen (strip v) <= 254 ∧
    local_part_invalid local = false ∧
    domain ≠ [] ∧ zlen domain <= 253 ∧
    starts_with [DOT] domain = false ∧ ends_with [DOT] domain = false ∧
    existsb domain_label_invalid (split_char DOT domain) = false ∧
    e = lower local ++ AT :: lower domain.
Proof.
  unfold canonicalize_email. split.
  - intros Hc. repeat case_match; try discriminate.
    rewrite !orb_false_iff in *.
    match goal with H : partition_char _ _ = Some _ |- _ =>
      apply partition_char_Some in H as [Hs Hn] end.
    eexists _, _. split; [exact Hs|]. destruct_and?.
    split_and!; try assumption; try (by injection Hc as <-).
    + by apply Z.ltb_ge.
    + by eapply bool_decide_eq_false_1.
    + by apply Z.ltb_ge.
  - intros (local & domain & Hs & Hlen & Hl & Hd & Hdl & Hd1 & Hd2 & Hlab & ->).
    pose proof (local_sane _ Hl) as Hsl. pose proof (domain_sane _ Hlab) as Hsd.
    assert (Hat : ∀ s, sane s → AT ∉ s).
    { intros s Hss Hin. by destruct (sane_elem _ _ Hss Hin) as (_ & ? & _). }
    assert (Hasc : is_ascii (strip v) = true).
    { rewrite Hs. unfold is_ascii. rewrite forallb_app. simpl.
      assert (Ha : ∀ s, sane s → forallb (λ c, c <? 128) s = true).
      { intros s Hss. apply forallb_forall. intros c Hc%list_elem_of_In.
        by destruct (sane_elem _ _ Hss Hc) as (_ & _ & ?). }
      by rewrite !Ha. }
    rewrite Hasc, bool_decide_eq_false_2 by (rewrite Hs; by destruct local).
    destruct (Z.ltb_spec 254 (zlen (strip v))); [lia|]. cbn [negb orb].
    rewrite Hs, count_char_app, count_char_cons_eq.
    rewrite (proj2 (count_char_none AT local)), (proj2 (count_char_none AT domain)) by auto.
    change (0 + (1 + 0) =? 1) with true. cbn [negb].
    rewrite partition_char_app by auto. rewrite Hl, Hd1, Hd2, Hlab.
    rewrite bool_decide_eq_false_2 by done.
    destruct (Z.ltb_spec 253 (zlen domain)); [lia|]. done.
Qed.

Lemma canonicalize_email_err v e : canonicalize_email v = Err e → e = ValueError.
Proof. unfold canonicalize_email. intros H. repeat case_match; congruence. Qed.

(** A canonical address is one printable ASCII word. *)
Lemma canonical_text v e : canonicalize_email v = Ok e →
  zlen e ≤ 254 ∧ Forall (λ c, is_space c = false ∧ c <? 128 = true) e.
Proof.
  rewrite canonicalize_email_Ok. intros (local & domain & Hs & Hlen & Hl & _ & _ & _ & _ & Hlab & ->).
  rewrite Hs in Hlen. autorewrite with text in *. split; [lia|].
  pose proof (sane_lower _ (local_sane _ Hl)) as Hsl. pose proof (sane_lower _ (domain_sane _ Hlab)) as Hsd.
  apply Forall_app. split; [|constructor; [done|]]; eapply Forall_impl; eauto; simpl; tauto.
Qed.

Lemma canonical_fixed v e :
  canonicalize_email v = Ok e → canonicalize_email e = Ok e.
Proof.
  rewrite !canonicalize_email_Ok.
  intros (local & domain & Hs & Hlen & Hl & Hd & Hdl & Hd1 & Hd2 & Hlab & ->).
  pose proof (sane_lower _ (local_sane _ Hl)) as Hsl.
  pose proof (sane_lower _ (domain_sane _ Hlab)) as Hsd.
  exists (lower local), (lower domain).
  rewrite sane_strip.
  2:{ apply Forall_app. split; [|constructor; [done|]];
        eapply Forall_impl; eauto; simpl; tauto. }
  rewrite Hs in Hlen. autorewrite with text in *.
  rewrite local_part_invalid_lower, lower_nil_iff, starts_with_lower, ends_with_lower by done.
  rewrite split_char_lower, existsb_fmap by (done || apply domain_label_invalid_lower).
  rewrite !lower_idemp. repeat split; auto; lia.
Qed.

(** A canonical identity is a fixed point of canonicalization. *)
Theorem canonicalize_email_idempotent v e :
  canonicalize_email v = Ok e → canonicalize_email e = Ok e.
Proof. apply canonical_fixed. Qed.

Lemma canonicalize_email_idempotent_witness :
  canonicalize_email (u "user@example.org") = Ok (u "user@example.org").
Proof.
  apply (canonicalize_email_idempotent (u " User@Example.ORG ")). reflexivity.
Defined.
