(* ===== verification/Totp.v ===== *)
(** * SHA-1, SHA-256 and HMAC

    The two hash functions and the keyed construction the code takes from
    Python's [hashlib] and [hmac] (FIPS 180-4, RFC 2104), executable on byte
    lists, with published test vectors. *)

From S2P Require Import Prelude.

Definition w32 (x : Z) : Z := Z.land x 4294967295.
Definition add32 (x y : Z) : Z := w32 (x + y).
Definition rotl32 (n x : Z) : Z := w32 (Z.lor (Z.shiftl x n) (Z.shiftr x (32 - n))).
Definition rotr32 (n x : Z) : Z := rotl32 (32 - n) x.
Definition not32 (x : Z) : Z := Z.lxor x 4294967295.

(** Big-endian words. *)
Fixpoint be_split (n : nat) (x : Z) : list Z :=
  match n with
  | O => []
  | S n => be_split n (Z.shiftr x 8) ++ [Z.land x 255]
  end.

Definition be_combine (bs : list Z) : Z := foldl (λ acc b, acc * 256 + b) 0 bs.

Fixpoint chunks (fuel n : nat) (l : list Z) : list (list Z) :=
  match fuel, l with
  | O, _ | _, [] => []
  | S fuel, _ => take n l :: chunks fuel n (drop n l)
  end.

Definition words_of (block : list Z) : list Z := be_combine <$> chunks 16 4 block.

(** Padding of a message to whole 64-byte blocks. *)
Definition pad_message (m : list Z) : list Z :=
  let zeros := Z.to_nat ((55 - zlen m) mod 64) in
  m ++ [128] ++ replicate zeros 0 ++ be_split 8 (8 * zlen m).

Definition blocks_of (m : list Z) : list (list Z) :=
  let p := pad_message m in chunks (S (length p / 64)) 64 p.

Definition nth0 (l : list Z) (n : nat) : Z := default 0 (l !! n).

(** ** SHA-1 *)

(** The schedule is kept newest word first: [W t] is [3, 8, 14, 16] back. *)
Fixpoint sha1_schedule (n : nat) (ws : list Z) : list Z :=
  match n with
  | O => ws
  | S n =>
      let w := rotl32 1 (Z.lxor (Z.lxor (nth0 ws 2) (nth0 ws 7)) (Z.lxor (nth0 ws 13) (nth0 ws 15))) in
      sha1_schedule n (w :: ws)
  end.

Definition sha1_fk (t : Z) (b c d : Z) : Z * Z :=
  if t <? 20 then (Z.lor (Z.land b c) (Z.land (not32 b) d), 1518500249)
  else if t <? 40 then (Z.lxor b (Z.lxor c d), 1859775393)
  else if t <? 60 then (Z.lor (Z.land b c) (Z.lor (Z.land b d) (Z.land c d)), 2400959708)
  else (Z.lxor b (Z.lxor c d), 3395469782).

Fixpoint sha1_rounds (t : Z) (ws : list Z) (h : Z * Z * Z * Z * Z) : Z * Z * Z * Z * Z :=
  match ws with
  | [] => h
  | w :: ws =>
      let '(a, b, c, d, e) := h in
      let '(f, k) := sha1_fk t b c d in
      let a' := w32 (rotl32 5 a + f + e + k + w) in
      sha1_rounds (t + 1) ws (a', a, rotl32 30 b, c, d)
  end.

Definition sha1_block (h : Z * Z * Z * Z * Z) (block : list Z) : Z * Z * Z * Z * Z :=
  let ws := reverse (sha1_schedule 64 (reverse (words_of block))) in
  let '(a, b, c, d, e) := h in
  let '(a', b', c', d', e') := sha1_rounds 0 ws h in
  (add32 a a', add32 b b', add32 c c', add32 d d', add32 e e').

Definition sha1 (m : list Z) : list Z :=
  let '(a, b, c, d, e) :=
    foldl sha1_block (1732584193, 4023233417, 2562383102, 271733878, 3285377520) (blocks_of m) in
  mjoin (be_split 4 <$> [a; b; c; d; e]).

(** ** SHA-256 *)

Definition sha256_k : list Z :=
  [1116352408; 1899447441; 3049323471; 3921009573; 961987163; 1508970993; 2453635748; 2870763221;
   3624381080; 310598401; 607225278; 1426881987; 1925078388; 2162078206; 2614888103; 3248222580;
   3835390401; 4022224774; 264347078; 604807628; 770255983; 1249150122; 1555081692; 1996064986;
   2554220882; 2821834349; 2952996808; 3210313671; 3336571891; 3584528711; 113926993; 338241895;
   666307205; 773529912; 1294757372; 1396182291; 1695183700; 1986661051; 2177026350; 2456956037;
   2730485921; 2820302411; 3259730800; 3345764771; 3516065817; 3600352804; 4094571909; 275423344;
   430227734; 506948616; 659060556; 883997877; 958139571; 1322822218; 1537002063; 1747873779;
   1955562222; 2024104815; 2227730452; 2361852424; 2428436474; 2756734187; 3204031479; 3329325298].

Definition small_sigma0 (x : Z) : Z := Z.lxor (rotr32 7 x) (Z.lxor (rotr32 18 x) (Z.shiftr x 3)).
Definition small_sigma1 (x : Z) : Z := Z.lxor (rotr32 17 x) (Z.lxor (rotr32 19 x) (Z.shiftr x 10)).
Definition big_sigma0 (x : Z) : Z := Z.lxor (rotr32 2 x) (Z.lxor (rotr32 13 x) (rotr32 22 x)).
Definition big_sigma1 (x : Z) : Z := Z.lxor (rotr32 6 x) (Z.lxor (rotr32 11 x) (rotr32 25 x)).

Fixpoint sha256_schedule (n : nat) (ws : list Z) : list Z :=
  match n with
  | O => ws
  | S n =>
      let w := w32 (small_sigma1 (nth0 ws 1) + nth0 ws 6 + small_sigma0 (nth0 ws 14) + nth0 ws 15) in
      sha256_schedule n (w :: ws)
  end.

Definition sha256_state : Type := Z * Z * Z * Z * Z * Z * Z * Z.

Fixpoint sha256_rounds (kws : list (Z * Z)) (s : sha256_state) : sha256_state :=
  match kws with
  | [] => s
  | (k, w) :: kws =>
      let '(a, b, c, d, e, f, g, h) := s in
      let ch := Z.lxor (Z.land e f) (Z.land (not32 e) g) in
      let maj := Z.lxor (Z.land a b) (Z.lxor (Z.land a c) (Z.land b c)) in
      let t1 := h + big_sigma1 e + ch + k + w in
      let t2 := big_sigma0 a + maj in
      sha256_rounds kws (w32 (t1 + t2), a, b, c, w32 (d + t1), e, f, g)
  end.

Definition sha256_block (s : sha256_state) (block : list Z) : sha256_state :=
  let ws := reverse (sha256_schedule 48 (reverse (words_of block))) in
  let '(a, b, c, d, e, f, g, h) := s in
  let '(a', b', c', d', e', f', g', h') := sha256_rounds (zip sha256_k ws) s in
  (add32 a a', add32 b b', add32 c c', add32 d d', add32 e e', add32 f f', add32 g g', add32 h h').

Definition sha256 (m : list Z) : list Z :=
  let '(a, b, c, d, e, f, g, h) :=
    foldl sha256_block
      (1779033703, 3144134277, 1013904242, 2773480762, 1359893119, 2600822924, 528734635, 1541459225)
      (blocks_of m) in
  mjoin (be_split 4 <$> [a; b; c; d; e; f; g; h]).

(** ** HMAC over a hash with 64-byte blocks *)

Definition hmac_with (hash : list Z → list Z) (key msg : list Z) : list Z :=
  let key := if 64 <? zlen key then hash key else key in
  let key := key ++ replicate (64 - length key) 0 in
  hash ((Z.lxor 92 <$> key) ++ hash ((Z.lxor 54 <$> key) ++ msg)).

Definition hmac_sha1 : list Z → list Z → list Z := hmac_with sha1.
Definition hmac_sha256 : list Z → list Z → list Z := hmac_with sha256.

(** ** Lengths and ranges *)

Lemma length_be_split n x : length (be_split n x) = n.
Proof. revert x. induction n as [|n IH]; intros x; [done|]. simpl. rewrite length_app, IH. apply Nat.add_1_r. Qed.

Lemma be_split_range n x : Forall (λ b, 0 ≤ b < 256) (be_split n x).
Proof.
  revert x. induction n as [|n IH]; intros x; simpl; [constructor|].
  apply Forall_app. split; [apply IH|]. constructor; [|constructor].
  change 255 with (Z.ones 8). rewrite Z.land_ones by lia. apply Z.mod_pos_bound. lia.
Qed.

Lemma be_combine_app bs b : be_combine (bs ++ [b]) = be_combine bs * 256 + b.
Proof. unfold be_combine. by rewrite foldl_app. Qed.

Lemma be_combine_split n x : 0 ≤ x < 256 ^ Z.of_nat n → be_combine (be_split n x) = x.
Proof.
  revert x. induction n as [|n IH]; intros x Hx.
  - change (256 ^ Z.of_nat 0) with 1 in Hx. unfold be_combine. simpl. lia.
  - simpl be_split. rewrite be_combine_app, Z.shiftr_div_pow2 by lia.
    change 255 with (Z.ones 8). rewrite Z.land_ones by lia. change (2 ^ 8) with 256.
    rewrite Nat2Z.inj_succ, Z.pow_succ_r in Hx by lia. rewrite IH.
    + pose proof (Z.div_mod x 256). lia.
    + split; [apply Z.div_pos; lia|apply Z.div_lt_upper_bound; lia].
Qed.

Lemma be_split_combine bs :
  Forall (λ b, 0 ≤ b < 256) bs → be_split (length bs) (be_combine bs) = bs.
Proof.
  induction bs as [|b bs IH] using rev_ind; [done|].
  intros [Hbs Hb]%Forall_app. apply Forall_cons in Hb as [Hb _].
  rewrite length_app, Nat.add_comm. simpl. rewrite be_combine_app.
  rewrite Z.shiftr_div_pow2 by lia. change 255 with (Z.ones 8). rewrite Z.land_ones by lia.
  change (2 ^ 8) with 256. rewrite Z.div_add_l, (Z.div_small b 256), Z.add_0_r by lia.
  rewrite IH by done. f_equal. f_equal. rewrite Z.add_comm, Z_mod_plus_full. by apply Z.mod_small.
Qed.

Lemma be_combine_range bs :
  Forall (λ b, 0 ≤ b < 256) bs → 0 ≤ be_combine bs < 256 ^ zlen bs.
Proof.
  induction bs as [|b bs IH] using rev_ind; [unfold zlen; simpl; unfold be_combine; simpl; lia|].
  intros [Hbs Hb]%Forall_app. apply Forall_cons in Hb as [Hb _]. specialize (IH Hbs).
  rewrite be_combine_app. unfold zlen in *. rewrite length_app, Nat.add_comm.
  rewrite Nat2Z.inj_add. simpl (Z.of_nat _). rewrite Z.pow_add_r by lia. lia.
Qed.

Lemma length_hmac_sha1 k m : length (hmac_sha1 k m) = 20%nat.
Proof.
  unfold hmac_sha1, hmac_with, sha1. by repeat case_match.
Qed.

Lemma length_hmac_sha256 k m : length (hmac_sha256 k m) = 32%nat.
Proof.
  unfold hmac_sha256, hmac_with, sha256. by repeat case_match.
Qed.

Lemma hmac_sha1_range k m : Forall (λ b, 0 ≤ b < 256) (hmac_sha1 k m).
Proof.
  unfold hmac_sha1, hmac_with, sha1. repeat case_match;
    apply Forall_join, Forall_fmap, Forall_forall; intros x _; apply be_split_range.
Qed.

(** RFC 3174 and FIPS 180 vectors for "abc". *)
Example sha1_abc :
  sha1 (u "abc") = be_split 20 968236873715988614170569073515315707566766479517.
Proof. vm_compute. reflexivity. Qed.

Example sha256_abc :
  be_split 4 (be_combine (take 4 (sha256 (u "abc")))) = [186; 120; 22; 191].
Proof. vm_compute. reflexivity. Qed.

#[global] Opaque hmac_sha1 hmac_sha256.

(** * Time-based one-time passwords: the TOTP functions of [auth.py]

    Base32 secrets, the RFC 6238 code of a counter (HMAC-SHA1, dynamic
    truncation, six digits) and the acceptance window. *)

From S2P Require Import Prelude Text Errors.

Definition TOTP_PERIOD_SECONDS : Z := 30.
Definition TOTP_WINDOW : Z := 1.
Definition TOTP_SECRET_BYTES : Z := 20.

(** A numeric clock reading or timestamp ([int | float]). *)
Inductive number : Type :=
| Finite (num : Z) (den : positive)
| NotFinite.

(** [str.upper]: the letters, and the code points whose upper-casing is ASCII.
    Every other code point above 127 upper-cases to a string that is not ASCII,
    which [isascii] rejects whatever it is, so it stands for itself here. *)
Definition upper_unicode (c : Z) : list Z :=
  if c <? 128 then [upper_char c]
  else if c =? 223 then u "SS"
  else if c =? 305 then u "I"
  else if c =? 383 then u "S"
  else if c =? 64256 then u "FF"
  else if c =? 64257 then u "FI"
  else if c =? 64258 then u "FL"
  else if c =? 64259 then u "FFI"
  else if c =? 64260 then u "FFL"
  else if (c =? 64261) || (c =? 64262) then u "ST"
  else [c].

(** [base64.b32decode] and [base64.b32encode] on five-bit digits; the decoder
    is used on 32 digits without padding only ([None] is binascii.Error; a
    padded text of that length decodes to fewer than 20 bytes, the same
    ValueError for the caller). *)
Definition base32_digit (c : Z) : option Z :=
  if is_upper c then Some (c - 65)
  else if (50 <=? c) && (c <=? 55) then Some (c - 24)
  else None.

Definition base32_char (d : Z) : Z := if d <? 26 then d + 65 else d + 24.

Definition base32_value (ds : list Z) : Z := foldl (λ acc d, acc * 32 + d) 0 ds.

Fixpoint base32_split (n : nat) (x : Z) : list Z :=
  match n with
  | O => []
  | S n => base32_split n (x / 32) ++ [x mod 32]
  end.

Definition b32decode_quantum (s : list Z) : option (list Z) :=
  ds ← mapM base32_digit s; mret (be_split 5 (base32_value ds)).

Definition b32encode_quantum (bs : list Z) : list Z :=
  base32_char <$> base32_split 8 (be_combine bs).

Definition b32decode (s : list Z) : option (list Z) :=
  qs ← mapM b32decode_quantum (chunks (length s) 8 s); mret (mjoin qs).

Definition _encode_totp_secret (value : list Z) : list Z :=
  mjoin (b32encode_quantum <$> chunks (length value) 5 value).

Definition decode_totp_secret (value : list Z) : result exc (list Z) :=
  if bool_decide (value = []) then Err ValueError
  else
    let normalized := filter (λ c, is_space c = false) (mjoin (upper_unicode <$> value)) in
    if negb (is_ascii normalized) || negb (zlen normalized =? 32) then Err ValueError
    else match b32decode normalized with
         | None => Err ValueError
         | Some decoded =>
             if negb (zlen decoded =? TOTP_SECRET_BYTES) then Err ValueError else Ok decoded
         end.

(** [struct.pack(">Q", counter)], HMAC-SHA1, dynamic truncation (RFC 4226). *)
Definition _totp_for_counter (secret : list Z) (counter : Z) : list Z :=
  let digest := hmac_sha1 secret (be_split 8 counter) in
  let offset := Z.land (default 0 (last digest)) 15 in
  let binary := Z.land (be_combine (take 4 (drop (Z.to_nat offset) digest))) 2147483647 in
  zero_pad 6 (digits (binary mod 1000000)).

(** [totp_code] with the secret as text or as raw bytes. *)
Definition totp_code (secret : list Z + list Z) (timestamp : number) : result exc (list Z) :=
  key ← match secret with
        | inl text => decode_totp_secret text
        | inr key => Ok key
        end;
  if negb (zlen key =? TOTP_SECRET_BYTES) then Err ValueError
  else match timestamp with
       | NotFinite => Err ValueError
       | Finite num den =>
           if num <? 0 then Err ValueError
           else Ok (_totp_for_counter key (num / (Zpos den * TOTP_PERIOD_SECONDS)))
       end.

(** The loop of [_matching_totp_counter] over its candidates: the last
    candidate whose code agrees wins. *)
Fixpoint match_candidates (secret bounded : list Z) (candidates : list Z) (matching : option Z)
  : option Z :=
  match candidates with
  | [] => matching
  | candidate :: candidates =>
      let matching :=
        if str_eqb (_totp_for_counter secret candidate) bounded then Some candidate else matching in
      match_candidates secret bounded candidates matching
  end.

Definition totp_candidates (now : Z) : list Z :=
  let current := now / TOTP_PERIOD_SECONDS in
  let start := Z.max 0 (current - TOTP_WINDOW) in
  (λ i, start + Z.of_nat i) <$> seq 0 (Z.to_nat (current + TOTP_WINDOW + 1 - start)).

Definition _matching_totp_counter (secret code : list Z) (now : Z) : option Z :=
  let bounded := if (zlen code =? 6) && is_ascii code then code else [] in
  match_candidates secret bounded (totp_candidates now) None.

(** ** Properties *)

Lemma length_totp secret counter :
  length (_totp_for_counter secret counter) = 6%nat ∧
  forallb is_digit (_totp_for_counter secret counter) = true.
Proof.
  unfold _totp_for_counter.
  set (b := Z.land _ 2147483647). pose proof (Z.mod_pos_bound b 1000000 ltac:(lia)) as Hb.
  destruct (digits_spec (b mod 1000000)) as [Hv Hd]; [lia|].
  assert (Hlen : (length (digits (b mod 1000000)) <= 6)%nat).
  { revert Hb. generalize (b mod 1000000). intros n Hn. unfold digits.
    assert (Hgen : ∀ (fuel k : nat) m, 0 ≤ m < 10 ^ Z.of_nat (S k) →
      (length (digits_fuel fuel m) <= S k)%nat).
    { intros fuel. induction fuel as [|fuel IH]; intros k m Hm; simpl; [lia|].
      destruct (Z.ltb_spec m 10); simpl; [lia|].
      rewrite length_app. simpl. destruct k as [|k].
      - change (10 ^ Z.of_nat 1) with 10 in Hm. lia.
      - rewrite Nat2Z.inj_succ, Z.pow_succ_r in Hm by lia.
        assert (length (digits_fuel fuel (m / 10)) <= S k)%nat; [|lia]. apply IH.
        split; [apply Z.div_pos; lia|apply Z.div_lt_upper_bound; lia]. }
    apply (Hgen _ 5%nat). change (10 ^ Z.of_nat 6) with 1000000. lia. }
  unfold zero_pad. split.
  - rewrite length_app, length_replicate. lia.
  - rewrite forallb_app, Hd, andb_true_r. by induction (6 - _)%nat.
Qed.

Lemma totp_nonempty secret counter : _totp_for_counter secret counter ≠ [].
Proof. destruct (length_totp secret counter) as [Hl _]. intros Hn. by rewrite Hn in Hl. Qed.

Lemma match_candidates_Some secret bounded cs m c :
  match_candidates secret bounded cs m = Some c →
  (c ∈ cs ∧ _totp_for_counter secret c = bounded) ∨ m = Some c.
Proof.
  revert m. induction cs as [|x cs IH]; intros m; simpl; [auto|].
  intros [[Hc Ht]|Hm]%IH.
  - left. split; [by right|done].
  - destruct (str_eqb (_totp_for_counter secret x) bounded) eqn:E; [|auto].
    apply str_eqb_true in E. simplify_eq. left. split; [left|done].
Qed.

Lemma match_candidates_None secret bounded cs m :
  match_candidates secret bounded cs m = None ↔
  m = None ∧ ∀ c, c ∈ cs → _totp_for_counter secret c ≠ bounded.
Proof.
  revert m. induction cs as [|x cs IH]; intros m; simpl.
  - split; [|tauto]. intros ->. split; [done|]. intros c Hc. by apply not_elem_of_nil in Hc.
  - rewrite IH. destruct (str_eqb (_totp_for_counter secret x) bounded) eqn:E.
    + split; [by intros [[=] _]|]. intros [_ Hn]. exfalso. apply (Hn x); [left|].
      by apply str_eqb_true.
    + assert (_totp_for_counter secret x ≠ bounded) by (intros ?%str_eqb_true; congruence).
      split; intros [-> Hn]; split; try done.
      * by intros c [->|Hc]%elem_of_cons; auto.
      * intros c Hc. apply Hn. by right.
Qed.

Lemma totp_candidates_spec now c :
  0 ≤ now → c ∈ totp_candidates now ↔
  0 ≤ c ∧ now / 30 - 1 ≤ c ≤ now / 30 + 1.
Proof.
  intros Hnow. unfold totp_candidates, TOTP_PERIOD_SECONDS, TOTP_WINDOW.
  assert (0 ≤ now / 30) by (apply Z.div_pos; lia).
  rewrite list_elem_of_fmap. split.
  - intros (i & -> & Hi%elem_of_seq). lia.
  - intros Hc. exists (Z.to_nat (c - Z.max 0 (now / 30 - 1))).
    split; [lia|]. apply elem_of_seq. lia.
Qed.

(** An accepted code is the code of a counter at most one step away from
    the clock; a rejected one is the code of none of them. *)
Theorem matching_totp_counter_window secret code now :
  0 ≤ now →
  match _matching_totp_counter secret code now with
  | Some c => 0 ≤ c ∧ now / 30 - 1 ≤ c ≤ now / 30 + 1 ∧ _totp_for_counter secret c = code
  | None => ∀ c, 0 ≤ c → now / 30 - 1 ≤ c ≤ now / 30 + 1 → _totp_for_counter secret c ≠ code
  end.
Proof.
  intros Hnow. unfold _matching_totp_counter.
  set (bounded := if (zlen code =? 6) && is_ascii code then code else []).
  assert (Hb : ∀ c, _totp_for_counter secret c = bounded ↔ _totp_for_counter secret c = code).
  { intros c. unfold bounded. destruct (_ && _) eqn:E; [done|].
    pose proof (totp_nonempty secret c). split; [done|]. intros Hc. exfalso.
    destruct (length_totp secret c) as [Hl Hd]. rewrite Hc in Hl, Hd.
    rewrite andb_false_iff in E. destruct E as [E|E]; [unfold zlen in E; lia|].
    unfold is_ascii in E. rewrite <-not_true_iff_false in E. apply E.
    eapply forallb_impl; [|exact Hd]. unfold is_digit. intros. lia. }
  destruct (match_candidates _ _ _ None) as [c|] eqn:E.
  - apply match_candidates_Some in E as [[Hc Ht]|[=]].
    apply totp_candidates_spec in Hc; [|done]. rewrite Hb in Ht. tauto.
  - apply match_candidates_None in E as [_ Hn]. intros c Hc0 Hc Ht.
    eapply Hn; [by apply totp_candidates_spec|]. by apply Hb.
Qed.

(** RFC 6238, appendix B: the SHA-1 secret at 59 s and at 1111111109 s (the last
    six of the eight published digits). *)
Example rfc6238_vectors :
  totp_code (inr (u "12345678901234567890")) (Finite 59 1) = Ok (u "287082") ∧
  totp_code (inr (u "12345678901234567890")) (Finite 1111111109 1) = Ok (u "081804").
Proof. split; vm_compute; reflexivity. Qed.

(** ** Base32 *)

Lemma base32_value_app ds d : base32_value (ds ++ [d]) = base32_value ds * 32 + d.
Proof. unfold base32_value. by rewrite foldl_app. Qed.

Lemma base32_value_split n x : 0 ≤ x < 32 ^ Z.of_nat n → base32_value (base32_split n x) = x.
Proof.
  revert x. induction n as [|n IH]; intros x Hx.
  - change (32 ^ Z.of_nat 0) with 1 in Hx. unfold base32_value. simpl. lia.
  - simpl base32_split. rewrite base32_value_app.
    rewrite Nat2Z.inj_succ, Z.pow_succ_r in Hx by lia. rewrite IH.
    + pose proof (Z.div_mod x 32). lia.
    + split; [apply Z.div_pos; lia|apply Z.div_lt_upper_bound; lia].
Qed.

Lemma base32_split_range n x : Forall (λ d, 0 ≤ d < 32) (base32_split n x).
Proof.
  revert x. induction n as [|n IH]; intros x; simpl; [constructor|].
  apply Forall_app. split; [apply IH|]. constructor; [|constructor].
  apply Z.mod_pos_bound. lia.
Qed.

Lemma base32_char_facts d : 0 ≤ d < 32 →
  base32_digit (base32_char d) = Some d ∧ base32_char d <? 128 = true ∧
  is_space (base32_char d) = false ∧ upper_unicode (base32_char d) = [base32_char d].
Proof.
  intros Hd. unfold upper_unicode, upper_char, base32_digit, base32_char, is_upper, is_space.
  destruct (Z.ltb_spec d 26).
  - rewrite (proj2 (Z.ltb_lt (d + 65) 128)) by lia.
    destruct ((97 <=? d + 65) && (d + 65 <=? 122)) eqn:E; [lia|].
    destruct ((65 <=? d + 65) && (d + 65 <=? 90)) eqn:E'; [|lia].
    split_and!; try done; [f_equal; lia|lia].
  - rewrite (proj2 (Z.ltb_lt (d + 24) 128)) by lia.
    destruct ((97 <=? d + 24) && (d + 24 <=? 122)) eqn:E; [lia|].
    destruct ((65 <=? d + 24) && (d + 24 <=? 90)) eqn:E'; [lia|].
    destruct ((50 <=? d + 24) && (d + 24 <=? 55)) eqn:E''; [|lia].
    split_and!; try done; [f_equal; lia|lia].
Qed.

Lemma b32_quantum_roundtrip bs :
  length bs = 5%nat → Forall (λ b, 0 ≤ b < 256) bs →
  b32decode_quantum (b32encode_quantum bs) = Some bs.
Proof.
  intros Hl Hb. unfold b32decode_quantum, b32encode_quantum.
  pose proof (be_combine_range bs Hb) as Hr. unfold zlen in Hr. rewrite Hl in Hr.
  assert (mapM base32_digit (base32_char <$> base32_split 8 (be_combine bs))
          = Some (base32_split 8 (be_combine bs))) as ->.
  { apply mapM_fmap_Forall_Some. eapply Forall_impl; [apply base32_split_range|].
    intros d Hd. by destruct (base32_char_facts d Hd) as [? _]. }
  cbn [mbind option_bind mret option_ret]. rewrite base32_value_split by (change (32 ^ Z.of_nat 8) with (256 ^ Z.of_nat 5); lia).
  f_equal. rewrite <-Hl at 1. by apply be_split_combine.
Qed.

Definition b32_clean (c : Z) : Prop :=
  c <? 128 = true ∧ is_space c = false ∧ upper_unicode c = [c].

Lemma b32encode_clean bs : Forall b32_clean (b32encode_quantum bs).
Proof.
  unfold b32encode_quantum. apply Forall_fmap. eapply Forall_impl; [apply base32_split_range|].
  intros d Hd. by destruct (base32_char_facts d Hd) as (_ & ? & ? & ?).
Qed.

Lemma length_b32encode_quantum bs : length (b32encode_quantum bs) = 8%nat.
Proof. unfold b32encode_quantum. rewrite length_fmap. done. Qed.

Lemma b32_clean_normal s :
  Forall b32_clean s →
  filter (λ c, is_space c = false) (mjoin (upper_unicode <$> s)) = s ∧ is_ascii s = true.
Proof.
  induction 1 as [|c s (H1 & H2 & H3) _ [IH1 IH2]]; [done|]; csimpl.
  rewrite H3, H1. simpl. rewrite filter_cons_True by done. by rewrite IH1, IH2.
Qed.

Lemma matching_totp_counter_window_witness :
  0 ≤ 59 ∧
  match _matching_totp_counter (u "12345678901234567890") (u "287082") 59 with
  | Some c => 0 ≤ c ∧ 59 / 30 - 1 ≤ c ≤ 59 / 30 + 1
              ∧ _totp_for_counter (u "12345678901234567890") c = u "287082"
  | None => ∀ c, 0 ≤ c → 59 / 30 - 1 ≤ c ≤ 59 / 30 + 1 →
                 _totp_for_counter (u "12345678901234567890") c ≠ u "287082"
  end.
Proof. split; [lia|]. apply matching_totp_counter_window. lia. Defined.

(** An encoded 20-byte secret decodes to itself. *)
Theorem totp_secret_roundtrip bs :
  length bs = 20%nat → Forall (λ b, 0 ≤ b < 256) bs →
  decode_totp_secret (_encode_totp_secret bs) = Ok bs.
Proof.
  intros Hl Hb. unfold _encode_totp_secret. rewrite Hl.
  set (q i := take 5 (drop (5 * i) bs)).
  assert (Hq : ∀ i, (i < 4)%nat → length (q i) = 5%nat ∧ Forall (λ b, 0 ≤ b < 256) (q i)).
  { intros i Hi. unfold q. rewrite length_take, length_drop. split; [lia|].
    by apply Forall_take, Forall_drop. }
  assert (Hsplit : bs = q 0%nat ++ q 1%nat ++ q 2%nat ++ q 3%nat).
  { unfold q. by do 20 (destruct bs as [|? bs]; [done|]); destruct bs. }
  assert (Hch : chunks 20 5 bs = [q 0%nat; q 1%nat; q 2%nat; q 3%nat]).
  { unfold q. by do 20 (destruct bs as [|? bs]; [done|]); destruct bs. }
  rewrite Hch. set (e i := b32encode_quantum (q i)).
  change (mjoin (b32encode_quantum <$> [q 0%nat; q 1%nat; q 2%nat; q 3%nat]))
    with (e 0%nat ++ e 1%nat ++ e 2%nat ++ e 3%nat ++ []). rewrite app_nil_r.
  assert (He : ∀ i, length (e i) = 8%nat) by (intros; apply length_b32encode_quantum).
  assert (Hd : ∀ i, (i < 4)%nat → b32decode_quantum (e i) = Some (q i)).
  { intros i Hi. by apply b32_quantum_roundtrip; apply Hq. }
  set (s := e 0%nat ++ e 1%nat ++ e 2%nat ++ e 3%nat).
  assert (Hs : length s = 32%nat) by (unfold s; rewrite !length_app, !He; done).
  assert (Hc : Forall b32_clean s).
  { unfold s. repeat (apply Forall_app; split); apply b32encode_clean. }
  assert (Hchs : chunks 32 8 s = [e 0%nat; e 1%nat; e 2%nat; e 3%nat]).
  { unfold s. generalize (He 0%nat), (He 1%nat), (He 2%nat), (He 3%nat).
    generalize (e 0%nat), (e 1%nat), (e 2%nat), (e 3%nat). clear. intros a b c d ????.
    do 8 (destruct a as [|? a]; [done|]); destruct a; [|done].
    do 8 (destruct b as [|? b]; [done|]); destruct b; [|done].
    do 8 (destruct c as [|? c]; [done|]); destruct c; [|done].
    by do 8 (destruct d as [|? d]; [done|]); destruct d. }
  unfold decode_totp_secret. destruct (b32_clean_normal s Hc) as [-> ->].
  rewrite bool_decide_eq_false_2 by (intros Hn; by rewrite Hn in Hs).
  unfold zlen at 1. rewrite Hs. cbn [negb orb Z.eqb Z.of_nat Pos.of_succ_nat Pos.succ Pos.eqb].
  assert (b32decode s = Some bs) as ->.
  { unfold b32decode. rewrite Hs, Hchs.
    rewrite (mapM_Some_2 _ _ [q 0%nat; q 1%nat; q 2%nat; q 3%nat]).
    - cbn [mbind option_bind mret option_ret]. f_equal. etrans; [|symmetry; exact Hsplit].
      change (mjoin [q 0%nat; q 1%nat; q 2%nat; q 3%nat])
        with (q 0%nat ++ q 1%nat ++ q 2%nat ++ q 3%nat ++ []). by rewrite app_nil_r.
    - repeat constructor; apply Hd; lia. }
  unfold zlen. by rewrite Hl.
Qed.

Lemma totp_secret_roundtrip_witness :
  decode_totp_secret (_encode_totp_secret (u "12345678901234567890"))
  = Ok (u "12345678901234567890").
Proof.
  apply totp_secret_roundtrip; [reflexivity|].
  repeat (constructor; [vm_compute; split; congruence|]). constructor.
Defined.
