(* ===== verification/AuthDb.v ===== *)
(** * The authentication database of [auth.py]

    The tables of [_SCHEMA], [_PASSKEY_SCHEMA] and [_MAIL_RULE_SCHEMA] as row
    records, their constraints, the statements the store executes on them (with
    the foreign-key cascades SQLite performs under [PRAGMA foreign_keys = ON]),
    and the effect every store method runs in: the database, the positions in
    the clock and random-number sources, and whether the store is closed. *)

From S2P Require Import Prelude Text Errors Sql Totp.

(** ** Rows *)

Inductive Role : Type := ADMIN | USER.

Inductive EnrollmentState : Type := REQUIRED | PENDING | ACTIVE.

#[export] Instance Role_eq_dec : EqDecision Role.
Proof. solve_decision. Defined.
#[export] Instance EnrollmentState_eq_dec : EqDecision EnrollmentState.
Proof. solve_decision. Defined.

Record account_row := AccountRow {
  a_id : list Z;
  a_email : list Z;
  a_role : Role;
  a_pw_required : bool;
  a_state : EnrollmentState;
  a_nonce : option (list Z);
  a_cipher : option (list Z);
  a_owner : option (list Z);       (* enrollment_challenge_digest *)
  a_counter : Z;                   (* totp_last_counter *)
  a_created : Z;
  a_updated : Z;
}.

Record recovery_row := RecoveryRow {
  rc_account : list Z;
  rc_digest : list Z;
  rc_created : Z;
}.

Record challenge_row := ChallengeRow {
  c_digest : list Z;
  c_account : list Z;
  c_created : Z;
  c_expires : Z;
  c_failures : Z;
}.

Record session_row := SessionRow {
  s_digest : list Z;
  s_account : list Z;
  s_created : Z;
  s_last_seen : Z;
  s_absolute : Z;
  s_step_up : Z;
  s_id : option (list Z);
  s_ip : option (list Z);
  s_agent : option (list Z);
}.

Inductive RateScope : Type := GLOBAL | IP | ACCOUNT | PAIR.

#[export] Instance RateScope_eq_dec : EqDecision RateScope.
Proof. solve_decision. Defined.

Record rate_row := RateRow {
  l_scope : RateScope;
  l_identity : list Z;
  l_account : option (list Z);
  l_account_identity : option (list Z);
  l_started : Z;
  l_count : Z;
}.

Inductive DeviceType : Type := SINGLE_DEVICE | MULTI_DEVICE | OTHER_DEVICE.

#[export] Instance DeviceType_eq_dec : EqDecision DeviceType.
Proof. solve_decision. Defined.

Record passkey_row := PasskeyRow {
  p_credential : list Z;
  p_public_id : list Z;
  p_account : list Z;
  p_public_key : list Z;
  p_sign_count : Z;
  p_name : list Z;
  p_device : DeviceType;
  p_backed_up : bool;
  p_transports : option (list Z);
  p_created : Z;
  p_last_used : option Z;
}.

Inductive Purpose : Type := REGISTRATION | LOGIN | STEP_UP.

#[export] Instance Purpose_eq_dec : EqDecision Purpose.
Proof. solve_decision. Defined.

Record passkey_challenge_row := PasskeyChallengeRow {
  k_digest : list Z;
  k_purpose : Purpose;
  k_account : option (list Z);
  k_session : option (list Z);
  k_created : Z;
  k_expires : Z;
  k_failures : Z;
}.

Record rule_row := RuleRow {
  mr_id : list Z;
  mr_account : list Z;
  mr_name : list Z;
  mr_enabled : bool;
  mr_position : Z;
  mr_expression : list Z;
  mr_target : list Z;
  mr_stop : bool;
  mr_revision : Z;
  mr_created : Z;
  mr_updated : Z;
}.

Inductive RunStatus : Type := QUEUED | RUNNING | COMPLETED | FAILED | CANCELLED.

#[export] Instance RunStatus_eq_dec : EqDecision RunStatus.
Proof. solve_decision. Defined.

Record run_row := RunRow {
  ru_id : list Z;
  ru_account : list Z;
  ru_rule : option (list Z);
  ru_revision : Z;
  ru_snapshot : list Z;
  ru_state : list Z;
  ru_status : RunStatus;
  ru_scanned : Z;
  ru_matched : Z;
  ru_moved : Z;
  ru_failed : Z;
  ru_created : Z;
  ru_started : option Z;
  ru_updated : Z;
  ru_finished : option Z;
  ru_error : option (list Z);
}.

Record db := Db {
  metadata : list (list Z * list Z);
  accounts : list account_row;
  recovery_codes : list recovery_row;
  challenges : list challenge_row;
  sessions : list session_row;
  rate_limits : list rate_row;
  passkeys : list passkey_row;
  passkey_challenges : list passkey_challenge_row;
  mail_rules : list rule_row;
  mail_runs : list run_row;
}.

Definition empty_db : db := Db [] [] [] [] [] [] [] [] [] [].

(** ** Constraints of the schema *)

Definition opt_len_ok (n : Z) (o : option (list Z)) : bool :=
  match o with None => true | Some b => zlen b =? n end.

Definition is_none {A} (o : option A) : bool := match o with None => true | Some _ => false end.

Definition len_is (n : Z) (o : option (list Z)) : bool :=
  match o with None => false | Some b => zlen b =? n end.

Definition account_check (r : account_row) : bool :=
  (zlen (a_id r) =? 32) && opt_len_ok 32 (a_owner r) && (-1 <=? a_counter r) &&
  match a_state r with
  | REQUIRED => is_none (a_nonce r) && is_none (a_cipher r) && is_none (a_owner r)
                && (a_counter r =? -1)
  | PENDING => len_is 12 (a_nonce r) && negb (is_none (a_cipher r)) && len_is 32 (a_owner r)
  | ACTIVE => len_is 12 (a_nonce r) && negb (is_none (a_cipher r)) && is_none (a_owner r)
  end.

Definition account_conflict (r r' : account_row) : bool :=
  str_eqb (a_id r) (a_id r') || str_eqb (a_email r) (a_email r').

(** Foreign keys: the parent row exists. *)
Definition account_exists (d : db) (id : list Z) : bool := bool_decide (id ∈ a_id <$> accounts d).
Definition session_exists (d : db) (dg : list Z) : bool := bool_decide (dg ∈ s_digest <$> sessions d).
Definition rule_exists (d : db) (id : list Z) : bool := bool_decide (id ∈ mr_id <$> mail_rules d).

Definition recovery_check (d : db) (r : recovery_row) : bool :=
  (zlen (rc_digest r) =? 32) && account_exists d (rc_account r).
Definition recovery_conflict (r r' : recovery_row) : bool :=
  str_eqb (rc_account r) (rc_account r') && str_eqb (rc_digest r) (rc_digest r').

Definition failures_ok (n : Z) : bool := (0 <=? n) && (n <=? 5).

Definition challenge_check (d : db) (r : challenge_row) : bool :=
  (zlen (c_digest r) =? 32) && account_exists d (c_account r) && failures_ok (c_failures r).
Definition challenge_conflict (r r' : challenge_row) : bool := str_eqb (c_digest r) (c_digest r').

Definition session_check (d : db) (r : session_row) : bool :=
  (zlen (s_digest r) =? 32) && account_exists d (s_account r) && opt_len_ok 32 (s_id r)
  && match s_agent r with None => true | Some a => zlen a <=? 512 end.
Definition session_conflict (r r' : session_row) : bool :=
  str_eqb (s_digest r) (s_digest r')
  || match s_id r, s_id r' with Some i, Some i' => str_eqb i i' | _, _ => false end.

Definition rate_check (d : db) (r : rate_row) : bool :=
  (zlen (l_identity r) =? 32) && opt_len_ok 32 (l_account_identity r) && (0 <? l_count r)
  && match l_account r with None => true | Some a => account_exists d a end.
Definition rate_key_eqb (scope : RateScope) (identity : list Z) (r : rate_row) : bool :=
  bool_decide (l_scope r = scope) && str_eqb (l_identity r) identity.

Definition passkey_check (d : db) (r : passkey_row) : bool :=
  (1 <=? zlen (p_credential r)) && (zlen (p_credential r) <=? 1024)
  && (zlen (p_public_id r) =? 32) && account_exists d (p_account r)
  && (0 <? zlen (p_public_key r)) && (0 <=? p_sign_count r)
  && (1 <=? zlen (p_name r)) && (zlen (p_name r) <=? 100)
  && bool_decide (p_device r ≠ OTHER_DEVICE).
Definition passkey_conflict (r r' : passkey_row) : bool :=
  str_eqb (p_credential r) (p_credential r') || str_eqb (p_public_id r) (p_public_id r').

Definition passkey_challenge_check (d : db) (r : passkey_challenge_row) : bool :=
  (zlen (k_digest r) =? 32) && failures_ok (k_failures r)
  && match k_account r with None => true | Some a => account_exists d a end
  && match k_session r with None => true | Some s => session_exists d s end
  && match k_purpose r with
     | LOGIN => is_none (k_account r) && is_none (k_session r)
     | _ => negb (is_none (k_account r)) && negb (is_none (k_session r))
     end.
Definition passkey_challenge_conflict (r r' : passkey_challenge_row) : bool :=
  str_eqb (k_digest r) (k_digest r').

Definition len_between (lo hi : Z) (s : list Z) : bool := (lo <=? zlen s) && (zlen s <=? hi).

Definition rule_check (d : db) (r : rule_row) : bool :=
  (zlen (mr_id r) =? 32) && account_exists d (mr_account r) && len_between 1 128 (mr_name r)
  && (0 <=? mr_position r) && len_between 2 32768 (mr_expression r)
  && len_between 1 255 (mr_target r) && (1 <=? mr_revision r).
Definition rule_conflict (r r' : rule_row) : bool :=
  str_eqb (mr_id r) (mr_id r')
  || (str_eqb (mr_account r) (mr_account r') && (mr_position r =? mr_position r')).

Definition run_active (r : run_row) : bool :=
  match ru_status r with QUEUED | RUNNING => true | _ => false end.

Definition run_check (d : db) (r : run_row) : bool :=
  (zlen (ru_id r) =? 32) && account_exists d (ru_account r)
  && match ru_rule r with None => true | Some i => rule_exists d i end
  && (1 <=? ru_revision r) && len_between 2 65536 (ru_snapshot r) && len_between 2 65536 (ru_state r)
  && (0 <=? ru_scanned r) && (0 <=? ru_matched r) && (0 <=? ru_moved r) && (0 <=? ru_failed r)
  && match ru_error r with None => true | Some e => len_between 1 64 e end.
(** PRIMARY KEY, and the partial unique index of one active run per account. *)
Definition run_conflict (r r' : run_row) : bool :=
  str_eqb (ru_id r) (ru_id r')
  || (str_eqb (ru_account r) (ru_account r') && run_active r && run_active r').

(** ** The store's world *)

Record world := World {
  w_db : db;
  w_clock : nat;       (* readings taken from the clock so far *)
  w_random : nat;      (* draws taken from the random source so far *)
  w_closed : bool;
}.

Definition with_db (d : db) (w : world) : world := World d (w_clock w) (w_random w) (w_closed w).

Definition M : Type → Type := eff world exc.

Definition query {A} (f : db → A) : M A := gets (λ w, f (w_db w)).
Definition exec (f : db → db) : M unit := modify (λ w, with_db (f (w_db w)) w).

(** An INSERT or UPDATE that may violate a constraint. *)
Definition exec_checked (f : db → option db) : M unit :=
  λ w, match f (w_db w) with
       | Some d => (Ok tt, with_db d w)
       | None => (Err IntegrityError, w)
       end.

Definition _require_open : M unit := λ w, if w_closed w then (Err RuntimeError, w) else (Ok tt, w).

(** [with self._transaction()]: BEGIN IMMEDIATE, then COMMIT or, on any
    exception, ROLLBACK.  Clock readings and random draws are not undone. *)
Definition _transaction {A} (body : M A) : M A :=
  λ w, if w_closed w then (Err RuntimeError, w)
       else match body w with
            | (Ok a, w') => (Ok a, w')
            | (Err e, w') => (Err e, with_db (w_db w) w')
            end.

(** [with self._lock: self._require_open(); ...] of the read-only methods. *)
Definition locked {A} (body : M A) : M A := _require_open ≫= λ _, body.

(** ** Field updates *)

Definition set_accounts t d := Db (metadata d) t (recovery_codes d) (challenges d) (sessions d)
  (rate_limits d) (passkeys d) (passkey_challenges d) (mail_rules d) (mail_runs d).
Definition set_recovery_codes t d := Db (metadata d) (accounts d) t (challenges d) (sessions d)
  (rate_limits d) (passkeys d) (passkey_challenges d) (mail_rules d) (mail_runs d).
Definition set_challenges t d := Db (metadata d) (accounts d) (recovery_codes d) t (sessions d)
  (rate_limits d) (passkeys d) (passkey_challenges d) (mail_rules d) (mail_runs d).
Definition set_sessions t d := Db (metadata d) (accounts d) (recovery_codes d) (challenges d) t
  (rate_limits d) (passkeys d) (passkey_challenges d) (mail_rules d) (mail_runs d).
Definition set_rate_limits t d := Db (metadata d) (accounts d) (recovery_codes d) (challenges d)
  (sessions d) t (passkeys d) (passkey_challenges d) (mail_rules d) (mail_runs d).
Definition set_passkeys t d := Db (metadata d) (accounts d) (recovery_codes d) (challenges d)
  (sessions d) (rate_limits d) t (passkey_challenges d) (mail_rules d) (mail_runs d).
Definition set_passkey_challenges t d := Db (metadata d) (accounts d) (recovery_codes d)
  (challenges d) (sessions d) (rate_limits d) (passkeys d) t (mail_rules d) (mail_runs d).
Definition set_mail_rules t d := Db (metadata d) (accounts d) (recovery_codes d) (challenges d)
  (sessions d) (rate_limits d) (passkeys d) (passkey_challenges d) t (mail_runs d).
Definition set_mail_runs t d := Db (metadata d) (accounts d) (recovery_codes d) (challenges d)
  (sessions d) (rate_limits d) (passkeys d) (passkey_challenges d) (mail_rules d) t.
Definition set_metadata t d := Db t (accounts d) (recovery_codes d) (challenges d)
  (sessions d) (rate_limits d) (passkeys d) (passkey_challenges d) (mail_rules d) (mail_runs d).

(** ** Statements *)

Definition insert_account (r : account_row) (d : db) : option db :=
  t ← insert_row account_check account_conflict r (accounts d); Some (set_accounts t d).
Definition insert_recovery (r : recovery_row) (d : db) : option db :=
  t ← insert_row (recovery_check d) recovery_conflict r (recovery_codes d);
  Some (set_recovery_codes t d).
Definition insert_challenge (r : challenge_row) (d : db) : option db :=
  t ← insert_row (challenge_check d) challenge_conflict r (challenges d);
  Some (set_challenges t d).
Definition insert_session (r : session_row) (d : db) : option db :=
  t ← insert_row (session_check d) session_conflict r (sessions d); Some (set_sessions t d).
Definition insert_passkey (r : passkey_row) (d : db) : option db :=
  t ← insert_row (passkey_check d) passkey_conflict r (passkeys d); Some (set_passkeys t d).
Definition insert_passkey_challenge (r : passkey_challenge_row) (d : db) : option db :=
  t ← insert_row (passkey_challenge_check d) passkey_challenge_conflict r (passkey_challenges d);
  Some (set_passkey_challenges t d).
Definition insert_rule (r : rule_row) (d : db) : option db :=
  t ← insert_row (rule_check d) rule_conflict r (mail_rules d); Some (set_mail_rules t d).
Definition insert_run (r : run_row) (d : db) : option db :=
  t ← insert_row (run_check d) run_conflict r (mail_runs d); Some (set_mail_runs t d).

(** UPDATE under CHECK constraints: a violated one is IntegrityError. *)
Definition update_checked {R} (check : R → bool) (P : R → Prop) `{!∀ r, Decision (P r)}
    (f : R → R) (t : list R) : option (list R) :=
  if forallb (λ r, check (f r)) (select_where P t) then Some (update_where P f t) else None.

Definition update_accounts (P : account_row → Prop) `{!∀ r, Decision (P r)}
    (f : account_row → account_row) (d : db) : option db :=
  t ← update_checked account_check P f (accounts d); Some (set_accounts t d).
Definition update_challenges (P : challenge_row → Prop) `{!∀ r, Decision (P r)}
    (f : challenge_row → challenge_row) (d : db) : option db :=
  t ← update_checked (challenge_check d) P f (challenges d); Some (set_challenges t d).
Definition update_sessions (P : session_row → Prop) `{!∀ r, Decision (P r)}
    (f : session_row → session_row) (d : db) : option db :=
  t ← update_checked (session_check d) P f (sessions d); Some (set_sessions t d).
Definition update_passkeys (P : passkey_row → Prop) `{!∀ r, Decision (P r)}
    (f : passkey_row → passkey_row) (d : db) : option db :=
  t ← update_checked (passkey_check d) P f (passkeys d); Some (set_passkeys t d).
Definition update_passkey_challenges (P : passkey_challenge_row → Prop) `{!∀ r, Decision (P r)}
    (f : passkey_challenge_row → passkey_challenge_row) (d : db) : option db :=
  t ← update_checked (passkey_challenge_check d) P f (passkey_challenges d);
  Some (set_passkey_challenges t d).

(** UPDATE of [mail_rules] and [mail_rule_runs]: their unique columns are
    checked row by row. *)
Definition update_rules (P : rule_row → Prop) `{!∀ r, Decision (P r)}
    (f : rule_row → rule_row) (d : db) : option db :=
  if forallb (λ r, rule_check d (f r)) (select_where P (mail_rules d))
  then t ← update_unique P f rule_conflict [] (mail_rules d); Some (set_mail_rules t d)
  else None.
Definition update_runs (P : run_row → Prop) `{!∀ r, Decision (P r)}
    (f : run_row → run_row) (d : db) : option db :=
  if forallb (λ r, run_check d (f r)) (select_where P (mail_runs d))
  then t ← update_unique P f run_conflict [] (mail_runs d); Some (set_mail_runs t d)
  else None.

(** DELETE, with ON DELETE CASCADE / SET NULL of the child tables. *)
Definition delete_recovery (P : recovery_row → Prop) `{!∀ r, Decision (P r)} (d : db) : db :=
  set_recovery_codes (delete_where P (recovery_codes d)) d.
Definition delete_challenges (P : challenge_row → Prop) `{!∀ r, Decision (P r)} (d : db) : db :=
  set_challenges (delete_where P (challenges d)) d.
Definition delete_rate (P : rate_row → Prop) `{!∀ r, Decision (P r)} (d : db) : db :=
  set_rate_limits (delete_where P (rate_limits d)) d.
Definition delete_passkeys (P : passkey_row → Prop) `{!∀ r, Decision (P r)} (d : db) : db :=
  set_passkeys (delete_where P (passkeys d)) d.
Definition delete_passkey_challenges (P : passkey_challenge_row → Prop) `{!∀ r, Decision (P r)}
    (d : db) : db :=
  set_passkey_challenges (delete_where P (passkey_challenges d)) d.
Definition delete_runs (P : run_row → Prop) `{!∀ r, Decision (P r)} (d : db) : db :=
  set_mail_runs (delete_where P (mail_runs d)) d.

Definition session_gone (gone : list (list Z)) (r : passkey_challenge_row) : Prop :=
  match k_session r with None => False | Some s => s ∈ gone end.
#[export] Instance session_gone_dec gone r : Decision (session_gone gone r).
Proof. unfold session_gone. destruct (k_session r); apply _. Defined.

Definition delete_sessions (P : session_row → Prop) `{!∀ r, Decision (P r)} (d : db) : db :=
  let gone := s_digest <$> select_where P (sessions d) in
  set_sessions (delete_where P (sessions d))
    (delete_passkey_challenges (session_gone gone) d).

Definition orphan_run (gone : list (list Z)) (r : run_row) : run_row :=
  match ru_rule r with
  | Some i => if decide (i ∈ gone)
              then RunRow (ru_id r) (ru_account r) None (ru_revision r) (ru_snapshot r)
                     (ru_state r) (ru_status r) (ru_scanned r) (ru_matched r) (ru_moved r)
                     (ru_failed r) (ru_created r) (ru_started r) (ru_updated r) (ru_finished r)
                     (ru_error r)
              else r
  | None => r
  end.

Definition delete_rules (P : rule_row → Prop) `{!∀ r, Decision (P r)} (d : db) : db :=
  let gone := mr_id <$> select_where P (mail_rules d) in
  set_mail_rules (delete_where P (mail_rules d))
    (set_mail_runs (orphan_run gone <$> mail_runs d) d).

Definition opt_in (o : option (list Z)) (ids : list (list Z)) : Prop :=
  match o with None => False | Some i => i ∈ ids end.
#[export] Instance opt_in_dec o ids : Decision (opt_in o ids).
Proof. destruct o; simpl; apply _. Defined.

Definition delete_accounts (P : account_row → Prop) `{!∀ r, Decision (P r)} (d : db) : db :=
  let gone := a_id <$> select_where P (accounts d) in
  let d := delete_recovery (λ r, rc_account r ∈ gone) d in
  let d := delete_challenges (λ r, c_account r ∈ gone) d in
  let d := delete_sessions (λ r, s_account r ∈ gone) d in
  let d := delete_rate (λ r, opt_in (l_account r) gone) d in
  let d := delete_passkeys (λ r, p_account r ∈ gone) d in
  let d := delete_passkey_challenges (λ r, opt_in (k_account r) gone) d in
  let d := delete_rules (λ r, mr_account r ∈ gone) d in
  let d := delete_runs (λ r, ru_account r ∈ gone) d in
  set_accounts (delete_where P (accounts d)) d.
