(* ===== verification/AuthCore.v ===== *)
(** * The shared internals of [AuthStore]

    Configuration, clock and randomness, identifier and token allocation, keyed
    digests, TOTP secret encryption, challenge and session primitives: the
    [_..._locked] helpers and module functions of [auth.py] every public method
    is built from. *)

From S2P Require Import Prelude Text Errors Sql Totp Identity Json AuthDb.

Definition RECOVERY_CODE_COUNT : Z := 10.
Definition CHALLENGE_LIFETIME_SECONDS : Z := 5 * 60.
Definition CHALLENGE_FAILURE_LIMIT : Z := 5.
Definition SESSION_IDLE_SECONDS : Z := 72 * 60 * 60.
Definition SESSION_ABSOLUTE_SECONDS : Z := 30 * 24 * 60 * 60.
Definition STEP_UP_SECONDS : Z := 5 * 60.
Definition _LEGACY_SESSION_IDLE_SECONDS : Z := 30 * 60.
Definition MAX_SESSIONS_PER_ACCOUNT : Z := 5.
Definition MAX_PASSKEYS_PER_ACCOUNT : Z := 10.
Definition _TOKEN_BYTES : Z := 32.
Definition _ACCOUNT_ID_BYTES : Z := 16.
Definition _SESSION_ID_BYTES : Z := 16.
Definition _AES_GCM_NONCE_BYTES : Z := 12.
Definition _MAX_CHALLENGES_PER_ACCOUNT : Z := 5.
Definition _MAX_PASSKEY_CHALLENGES_PER_ACCOUNT : Z := 5.
Definition _MAX_ANONYMOUS_PASSKEY_LOGIN_CHALLENGES : Z := 256.
Definition _MAX_RATE_LIMIT_ROWS : Z := 1024.
Definition _MAX_CREDENTIAL_ID_BYTES : Z := 1024.
Definition _MAX_PASSKEY_NAME_LENGTH : Z := 100.
Definition _MAX_USER_AGENT_LENGTH : Z := 512.
Definition _MAX_MAIL_RULES_PER_ACCOUNT : Z := 100.
Definition _MAX_MAIL_RULE_RUNS_PER_ACCOUNT : Z := 100.
Definition _MAX_MAIL_RULE_EXPRESSION_BYTES : Z := 32 * 1024.
Definition _MAX_MAIL_RULE_STATE_BYTES : Z := 64 * 1024.

(** ** The store object

    [clock] and [random_source] are the [clock] and [random_bytes] callables of
    the constructor, as the sequence of values their calls return.  AES-GCM (the
    cryptography package), [ipaddress.ip_address], [float(text)] and the Unicode
    table behind [str.isalnum] are parameters. *)
Record store := Store {
  issuer : list Z;
  webauthn_rp_id : option (list Z);
  webauthn_origin : option (list Z);
  master_key : list Z;
  clock : nat → number;
  random_source : nat → Z → list Z;
  aesgcm_encrypt : list Z → list Z → list Z → list Z → list Z;
  aesgcm_decrypt : list Z → list Z → list Z → list Z → option (list Z);
  ip_address : list Z → option (list Z);
  py_float : list Z → pyfloat;
  unicode_isalnum : Z → bool;
}.

Definition _derive_key (master label : list Z) : list Z :=
  hmac_sha256 master (u "maddyweb-auth-v1" ++ [0] ++ label).

Section Core.
Context (self : store).

Definition _encryption_key : list Z := _derive_key (master_key self) (u "totp-encryption").
Definition _challenge_digest_key : list Z := _derive_key (master_key self) (u "challenge-digest").
Definition _passkey_challenge_digest_key : list Z :=
  _derive_key (master_key self) (u "passkey-challenge-digest").
Definition _session_digest_key : list Z := _derive_key (master_key self) (u "session-digest").
Definition _recovery_digest_key : list Z := _derive_key (master_key self) (u "recovery-digest").
Definition _rate_digest_key : list Z := _derive_key (master_key self) (u "rate-digest").
Definition _key_verifier : list Z := _derive_key (master_key self) (u "master-verifier").

(** ** Clock and randomness *)

Definition _now : M Z :=
  λ w, let w' := World (w_db w) (S (w_clock w)) (w_random w) (w_closed w) in
       match clock self (w_clock w) with
       | NotFinite => (Err ValueError, w')
       | Finite num den => if num <? 0 then (Err ValueError, w') else (Ok (num / Zpos den), w')
       end.

Definition _random_bytes (len : Z) : M (list Z) :=
  λ w, let value := random_source self (w_random w) len in
       let w' := World (w_db w) (w_clock w) (S (w_random w)) (w_closed w) in
       if zlen value =? len then (Ok value, w') else (Err ValueError, w').

(** [for _ in range(8)] around a draw: the first identifier not [taken]. *)
Fixpoint allocate_id (attempts : nat) (len : Z) (taken : db → list Z → bool) : M (list Z) :=
  match attempts with
  | O => throw AuthenticationError
  | S attempts =>
      raw ← _random_bytes len;
      exists_ ← query (λ d, taken d (hex raw));
      if (exists_ : bool) then allocate_id attempts len taken else mret (hex raw)
  end.

Definition _new_account_id_locked : M (list Z) :=
  allocate_id 8 _ACCOUNT_ID_BYTES account_exists.
Definition _new_session_id_locked : M (list Z) :=
  allocate_id 8 _SESSION_ID_BYTES (λ d i, bool_decide (Some i ∈ s_id <$> sessions d)).
Definition _new_passkey_public_id_locked : M (list Z) :=
  allocate_id 8 _SESSION_ID_BYTES (λ d i, bool_decide (i ∈ p_public_id <$> passkeys d)).
Definition _new_mail_rule_id_locked : M (list Z) :=
  allocate_id 8 _ACCOUNT_ID_BYTES rule_exists.
Definition _new_mail_rule_run_id_locked : M (list Z) :=
  allocate_id 8 _ACCOUNT_ID_BYTES (λ d i, bool_decide (i ∈ ru_id <$> mail_runs d)).

(** ** Opaque tokens *)

(** URL-safe base64 digits. *)
Definition b64_char (d : Z) : Z :=
  if d <? 26 then d + 65 else if d <? 52 then d + 71 else if d <? 62 then d - 4
  else if d =? 62 then 45 else 95.
Definition b64_digit (c : Z) : Z :=
  if is_upper c then c - 65 else if is_lower c then c - 71 else if is_digit c then c + 4
  else if c =? 45 then 62 else 63.
Definition is_b64 (c : Z) : bool := is_alnum c || (c =? 45) || (c =? 95).

Fixpoint b64_split (n : nat) (x : Z) : list Z :=
  match n with O => [] | S n => b64_split n (x / 64) ++ [x mod 64] end.
Definition b64_value (ds : list Z) : Z := foldl (λ acc d, acc * 64 + d) 0 ds.

(** 32 bytes are 256 bits: 43 digits carry them followed by two zero bits, and
    the padding character is stripped. *)
Definition _encode_opaque_token (value : list Z) : list Z :=
  b64_char <$> b64_split 43 (be_combine value * 4).

Definition _OPAQUE_TOKEN_PATTERN (s : list Z) : bool := match_exact is_b64 43 s.

(** The decoder drops the two low bits of the last digit. *)
Definition _decode_opaque_token (value : list Z) : option (list Z) :=
  if _OPAQUE_TOKEN_PATTERN value
  then Some (be_split 32 (b64_value (b64_digit <$> value) / 4))
  else None.

Definition _opaque_digest (key token : list Z) : list Z :=
  hmac_sha256 key (if _OPAQUE_TOKEN_PATTERN token then token else []).

Fixpoint allocate_token (attempts : nat) (key : list Z) (taken : db → list Z → bool)
  : M (list Z * list Z) :=
  match attempts with
  | O => throw AuthenticationError
  | S attempts =>
      raw ← _random_bytes _TOKEN_BYTES;
      let token := _encode_opaque_token raw in
      let digest := _opaque_digest key token in
      exists_ ← query (λ d, taken d digest);
      if (exists_ : bool) then allocate_token attempts key taken else mret (token, digest)
  end.

(** [_new_unique_token_locked] for its two tables. *)
Definition _new_unique_challenge_token_locked : M (list Z * list Z) :=
  allocate_token 8 _challenge_digest_key (λ d dg, bool_decide (dg ∈ c_digest <$> challenges d)).
Definition _new_unique_session_token_locked : M (list Z * list Z) :=
  allocate_token 8 _session_digest_key session_exists.

(** ** Accounts *)

Definition _account_row_by_email_locked (canonical : list Z) : M (option account_row) :=
  query (λ d, lookup_where (λ r, a_email r = canonical) (accounts d)).
Definition _account_row_by_id_locked (account_id : list Z) : M (option account_row) :=
  query (λ d, lookup_where (λ r, a_id r = account_id) (accounts d)).

Definition _required_row {A} (value : option A) : M A :=
  match value with Some r => mret r | None => throw AuthenticationDataError end.

Definition _require_account_by_id_locked (account_id : list Z) : M account_row :=
  row ← _account_row_by_id_locked account_id;
  match row with Some r => mret r | None => throw AccountNotFoundError end.

Definition is_hex32 (s : list Z) : bool := match_exact is_hex_lower 32 s.
Definition _validate_hex32 (value : list Z) : M (list Z) :=
  if is_hex32 value then mret value else throw ValueError.
Definition _validate_account_id := _validate_hex32.
Definition _validate_session_id := _validate_hex32.
Definition _validate_passkey_public_id := _validate_hex32.
Definition _validate_mail_rule_id := _validate_hex32.
Definition _validate_mail_rule_run_id := _validate_hex32.

(** ** Session metadata *)

Definition _canonical_ip (value : list Z) : result exc (list Z) :=
  match ip_address self (strip value) with Some t => Ok t | None => Err ValueError end.

Definition has_line_break (s : list Z) : bool := existsb (in_chars [13; 10; 0]) s.

Definition _normalize_session_metadata (client_ip user_agent : option (list Z))
  : result exc (option (list Z) * option (list Z)) :=
  ip ← match client_ip with
       | None => Ok None
       | Some v => t ← _canonical_ip v; Ok (Some t)
       end;
  match user_agent with
  | None => Ok (ip, None)
  | Some agent =>
      let agent := strip agent in
      if bool_decide (agent = []) then Ok (ip, None)
      else if (_MAX_USER_AGENT_LENGTH <? zlen agent) || has_line_break agent then Err ValueError
      else Ok (ip, Some agent)
  end.

(** ** Provisioning URI *)

(** [urllib.parse.quote(s, safe="")] and [quote_plus] of ASCII text. *)
Definition hex_upper (n : Z) : Z := if n <? 10 then 48 + n else 55 + n.
Definition quote_char (c : Z) : list Z :=
  if is_alnum c || in_chars (u "_.-~") c then [c] else [37; hex_upper (c / 16); hex_upper (c mod 16)].
Definition quote (s : list Z) : list Z := mjoin (quote_char <$> s).
Definition quote_plus (s : list Z) : list Z :=
  mjoin ((λ c, if c =? 32 then [43] else quote_char c) <$> s).

Definition is_control (c : Z) : bool := (c <? 32) || (c =? 127).

Definition _validate_issuer (value : list Z) : result exc (list Z) :=
  let issuer := strip value in
  if bool_decide (issuer = []) || (64 <? zlen issuer) || negb (is_ascii issuer)
     || has_char 58 issuer || existsb is_control issuer
  then Err ValueError else Ok issuer.

Definition totp_provisioning_uri (issuer email secret : list Z) : result exc (list Z) :=
  normalized_issuer ← _validate_issuer issuer;
  canonical ← canonicalize_email email;
  key ← decode_totp_secret secret;
  let label := quote (normalized_issuer ++ [58] ++ canonical) in
  Ok (u "otpauth://totp/" ++ label ++ u "?secret=" ++ quote_plus (_encode_totp_secret key)
      ++ u "&issuer=" ++ quote_plus normalized_issuer
      ++ u "&algorithm=SHA1&digits=6&period=" ++ digits TOTP_PERIOD_SECONDS).

Definition _enrollment (canonical secret : list Z) : M (list Z * list Z) :=
  uri ← lift (totp_provisioning_uri (issuer self) canonical secret);
  mret (secret, uri).

(** ** TOTP secrets at rest *)

Definition _totp_aad (account_id canonical : list Z) : list Z :=
  u "maddyweb-totp-seed-v1" ++ [0] ++ account_id ++ [0] ++ canonical.

Definition _encrypt_totp (account_id canonical secret : list Z) : M (list Z * list Z) :=
  nonce ← _random_bytes _AES_GCM_NONCE_BYTES;
  mret (nonce, aesgcm_encrypt self _encryption_key nonce secret (_totp_aad account_id canonical)).

Definition _decrypt_totp (row : account_row) : M (list Z) :=
  match a_nonce row, a_cipher row with
  | Some nonce, Some ciphertext =>
      match aesgcm_decrypt self _encryption_key nonce ciphertext
              (_totp_aad (a_id row) (a_email row)) with
      | Some secret =>
          if zlen secret =? TOTP_SECRET_BYTES then mret secret else throw AuthenticationDataError
      | None => throw AuthenticationDataError
      end
  | _, _ => throw AuthenticationDataError
  end.

(** ** Recovery codes *)

Definition _RECOVERY_CODE_PATTERN : list Z → bool := is_hex32.

(** ASCII lower-casing is enough: no other code point lower-cases to text made
    of hexadecimal digits and hyphens. *)
Definition _normalize_recovery_code (value : list Z) : result exc (list Z) :=
  let normalized := replace_char 45 [] (lower (strip value)) in
  if _RECOVERY_CODE_PATTERN normalized then Ok normalized else Err ValueError.

Definition _validate_recovery_code_set (values : list (list Z)) : result exc (list (list Z)) :=
  if negb (zlen values =? RECOVERY_CODE_COUNT) then Err ValueError
  else
    normalized ← result_map _normalize_recovery_code values;
    if decide (NoDup normalized) then Ok normalized else Err ValueError.

Definition _recovery_digest (account_id normalized_code : list Z) : list Z :=
  hmac_sha256 _recovery_digest_key (account_id ++ [0] ++ normalized_code).

Definition dash_groups (raw : list Z) : list Z := join [45] (chunks (length raw) 4 raw).

(** [while len(codes) < RECOVERY_CODE_COUNT]: one draw per round; [fuel] bounds
    the rounds (a source that keeps repeating itself would never end it). *)
Fixpoint generate_codes (fuel : nat) (codes seen : list (list Z)) : M (list (list Z)) :=
  if RECOVERY_CODE_COUNT <=? zlen codes then mret codes
  else match fuel with
       | O => throw OutOfFuel
       | S fuel =>
           bytes_ ← _random_bytes 16;
           let raw := hex bytes_ in
           if decide (raw ∈ seen) then generate_codes fuel codes seen
           else generate_codes fuel (codes ++ [dash_groups raw]) (raw :: seen)
       end.

Definition RECOVERY_FUEL : nat := 64.

Definition _generate_recovery_codes : M (list (list Z)) := generate_codes RECOVERY_FUEL [] [].

Definition _store_recovery_codes_locked (account_id : list Z) (codes : list (list Z)) (now : Z)
  : M unit :=
  eff_iter (λ code,
    normalized ← lift (_normalize_recovery_code code);
    exec_checked (insert_recovery (RecoveryRow account_id (_recovery_digest account_id normalized) now)))
    codes.

(** ** Pending challenges *)

Definition reset_enrollment (now : Z) (r : account_row) : account_row :=
  AccountRow (a_id r) (a_email r) (a_role r) (a_pw_required r) REQUIRED None None None (-1)
    (a_created r) now.

Definition _challenge_row_locked (digest : list Z) (now : Z) : M (challenge_row * account_row) :=
  row ← query (λ d,
    match lookup_where (λ c, c_digest c = digest) (challenges d) with
    | Some c => match lookup_where (λ a, a_id a = c_account c) (accounts d) with
                | Some a => Some (c, a)
                | None => None
                end
    | None => None
    end);
  match row with
  | None => throw InvalidChallengeError
  | Some (c, a) => if c_expires c <=? now then throw InvalidChallengeError else mret (c, a)
  end.

Definition _release_pending_enrollment_locked (digest : list Z) (now : Z) : M unit :=
  exec_checked (update_accounts (λ a, a_state a = PENDING ∧ a_owner a = Some digest)
                  (reset_enrollment now)).

Definition set_failures (n : Z) (c : challenge_row) : challenge_row :=
  ChallengeRow (c_digest c) (c_account c) (c_created c) (c_expires c) n.

Definition _record_challenge_failure_locked (digest : list Z) (failure_count : Z) : M unit :=
  let next_count := failure_count + 1 in
  if CHALLENGE_FAILURE_LIMIT <=? next_count then
    now ← _now;
    _release_pending_enrollment_locked digest now ;;
    exec (delete_challenges (λ c, c_digest c = digest))
  else exec_checked (update_challenges (λ c, c_digest c = digest) (set_failures next_count)).

Definition expired_digests (now : Z) (d : db) : list (list Z) :=
  c_digest <$> select_where (λ c, c_expires c ≤ now) (challenges d).

Definition owner_in (ds : list (list Z)) (a : account_row) : Prop :=
  a_state a = PENDING ∧ opt_in (a_owner a) ds.
#[export] Instance owner_in_dec ds a : Decision (owner_in ds a).
Proof. unfold owner_in. apply _. Defined.

Definition _delete_expired_challenges_locked (now : Z) : M unit :=
  exec_checked (λ d, update_accounts (owner_in (expired_digests now d)) (reset_enrollment now) d) ;;
  exec (delete_challenges (λ c, c_expires c ≤ now)).

Definition _revoke_pending_challenges_locked (account_id : list Z) : M unit :=
  now ← _now;
  exec_checked (update_accounts (λ a, a_id a = account_id ∧ a_state a = PENDING)
                  (reset_enrollment now)) ;;
  exec (delete_challenges (λ c, c_account c = account_id)) ;;
  exec (delete_passkey_challenges (λ k, k_account k = Some account_id)).

Definition _revoke_account_authentication_locked (account_id : list Z) : M Z :=
  _revoke_pending_challenges_locked account_id ;;
  rowcount ← query (λ d, count_where (λ s, s_account s = account_id) (sessions d));
  exec (delete_sessions (λ s, s_account s = account_id)) ;;
  mret (Z.max 0 rowcount).

(** ** TOTP consumption *)

Definition set_counter (counter now : Z) (r : account_row) : account_row :=
  AccountRow (a_id r) (a_email r) (a_role r) (a_pw_required r) (a_state r) (a_nonce r)
    (a_cipher r) (a_owner r) counter (a_created r) now.

(** The counter that authenticates [code] now and was not used before. *)
Definition fresh_counter (secret code : list Z) (now last_counter : Z) : option Z :=
  match _matching_totp_counter secret code now with
  | Some c => if c <=? last_counter then None else Some c
  | None => None
  end.

Definition advance_counter_guard (account_id : list Z) (counter : Z) (a : account_row) : Prop :=
  a_id a = account_id ∧ a_state a = ACTIVE ∧ a_counter a < counter.
#[export] Instance advance_counter_guard_dec i n a : Decision (advance_counter_guard i n a).
Proof. unfold advance_counter_guard. apply _. Defined.

Definition _consume_totp_locked (row : account_row) (code : list Z) (now : Z) : M bool :=
  if negb (bool_decide (a_state row = ACTIVE)) then throw EnrollmentStateError
  else
    secret ← _decrypt_totp row;
    match fresh_counter secret code now (a_counter row) with
    | None => mret false
    | Some counter =>
        rowcount ← query (λ d, count_where (advance_counter_guard (a_id row) counter) (accounts d));
        exec_checked (update_accounts (advance_counter_guard (a_id row) counter)
                        (set_counter counter now)) ;;
        mret (rowcount =? 1)
    end.

(** ** Sessions *)

Record principal := Principal {
  pr_account : list Z;
  pr_email : list Z;
  pr_role : Role;
  pr_pw_required : bool;
  pr_state : EnrollmentState;
  pr_created : Z;
  pr_idle_expires : Z;
  pr_absolute_expires : Z;
  pr_step_up_until : Z;
  pr_session_id : option (list Z);
  pr_ip : option (list Z);
  pr_agent : option (list Z);
}.

Definition set_last_seen (t : Z) (s : session_row) : session_row :=
  SessionRow (s_digest s) (s_account s) (s_created s) t (s_absolute s) (s_step_up s) (s_id s)
    (s_ip s) (s_agent s).

Definition set_step_up (t : Z) (s : session_row) : session_row :=
  SessionRow (s_digest s) (s_account s) (s_created s) (s_last_seen s) (s_absolute s) t (s_id s)
    (s_ip s) (s_agent s).

Definition session_live (now : Z) (s : session_row) : bool :=
  negb ((s_absolute s <=? now) || (SESSION_IDLE_SECONDS <=? now - s_last_seen s)).

(** The joined row (as read, before the touch) and the effective last use. *)
Definition _valid_session_row_locked (digest : list Z) (now : Z) (touch : bool)
  : M (option (session_row * account_row * Z)) :=
  row ← query (λ d,
    match lookup_where (λ s, s_digest s = digest) (sessions d) with
    | Some s => match lookup_where (λ a, a_id a = s_account s) (accounts d) with
                | Some a => Some (s, a)
                | None => None
                end
    | None => None
    end);
  match row with
  | None => mret None
  | Some (s, a) =>
      if negb (session_live now s) then
        exec (delete_sessions (λ s, s_digest s = digest)) ;; mret None
      else
        let effective := if touch then Z.max (s_last_seen s) now else s_last_seen s in
        when (touch && negb (effective =? s_last_seen s))
          (exec_checked (update_sessions (λ s, s_digest s = digest) (set_last_seen effective))) ;;
        mret (Some (s, a, effective))
  end.

Definition session_expired (now : Z) (s : session_row) : Prop :=
  s_absolute s ≤ now ∨ s_last_seen s + SESSION_IDLE_SECONDS ≤ now.
#[export] Instance session_expired_dec now s : Decision (session_expired now s).
Proof. unfold session_expired. apply _. Defined.

Definition _delete_expired_sessions_locked (now : Z) : M unit :=
  exec (delete_sessions (session_expired now)).

Definition _principal_from_session_row (s : session_row) (a : account_row) (last_seen : Z)
    (step_up_until : option Z) : principal :=
  Principal (a_id a) (a_email a) (a_role a) (a_pw_required a) (a_state a) (s_created s)
    (Z.min (last_seen + SESSION_IDLE_SECONDS) (s_absolute s)) (s_absolute s)
    (default (s_step_up s) step_up_until) (s_id s) (s_ip s) (s_agent s).

Definition session_age_key (s : session_row) : list Z :=
  s_last_seen s :: s_created s :: s_digest s.

(** DELETE ... WHERE session_digest IN (SELECT ... ORDER BY ... LIMIT n). *)
Definition evict_oldest_sessions (account_id : list Z) (n : Z) (d : db) : db :=
  let doomed := s_digest <$> limit n (order_by session_age_key
                  (select_where (λ s, s_account s = account_id) (sessions d))) in
  delete_sessions (λ s, s_digest s ∈ doomed) d.

Definition _issue_session_locked (account : account_row) (now : Z)
    (client_ip user_agent : option (list Z)) : M (list Z * principal) :=
  let account_id := a_id account in
  '(ip, agent) ← lift (_normalize_session_metadata client_ip user_agent);
  _delete_expired_sessions_locked now ;;
  session_count ← query (λ d, count_where (λ s, s_account s = account_id) (sessions d));
  when (MAX_SESSIONS_PER_ACCOUNT <=? session_count)
    (exec (evict_oldest_sessions account_id (session_count - MAX_SESSIONS_PER_ACCOUNT + 1))) ;;
  '(token, digest) ← _new_unique_session_token_locked;
  session_id ← _new_session_id_locked;
  let absolute_expires := now + SESSION_ABSOLUTE_SECONDS in
  exec_checked (insert_session
    (SessionRow digest account_id now now absolute_expires 0 (Some session_id) ip agent)) ;;
  mret (token,
    Principal account_id (a_email account) (a_role account) (a_pw_required account)
      (a_state account) now (Z.min (now + SESSION_IDLE_SECONDS) absolute_expires)
      absolute_expires 0 (Some session_id) ip agent).
End Core.
