(* ===== verification/AuthStore.v ===== *)
(** * [AuthStore]: accounts, enrollment, second factors, sessions

    One definition per public method, in the order of [auth.py].  A method that
    raises after its transaction has committed (a counted failure) does so here
    too: the [failure] flag of the code is the value its transaction returns. *)

From S2P Require Import Prelude Text Errors Sql Totp Identity Json AuthDb AuthCore.

Section Store.
Context (self : store).

(** [close]: idempotent; every later method finds the store closed. *)
Definition close : M unit := λ w, (Ok tt, World (w_db w) (w_clock w) (w_random w) true).

(** ** Accounts *)

Definition required_account_row (account_id canonical : list Z) (role : Role) (required : bool)
    (now : Z) : account_row :=
  AccountRow account_id canonical role required REQUIRED None None None (-1) now now.

Definition create_account (email : list Z) (role : Role) (password_change_required : bool)
  : M account_row :=
  canonical ← lift (canonicalize_email email);
  now ← _now self;
  row ← _transaction (
    existing ← _account_row_by_email_locked canonical;
    match existing with
    | Some _ => throw AccountExistsError
    | None =>
        account_id ← _new_account_id_locked self;
        exec_checked (insert_account
          (required_account_row account_id canonical role password_change_required now)) ;;
        _account_row_by_id_locked account_id
    end);
  _required_row row.

Definition get_account (email : list Z) : M (option account_row) :=
  canonical ← lift (canonicalize_email email);
  locked (_account_row_by_email_locked canonical).

Definition resolve_account_id (account_id : list Z) : M account_row :=
  normalized ← _validate_account_id account_id;
  row ← locked (_account_row_by_id_locked normalized);
  match row with Some r => mret r | None => throw AccountNotFoundError end.

Definition list_accounts : M (list account_row) :=
  locked (query (λ d, order_by a_email (accounts d))).

(** [sorted({canonicalize_email(email) for email in emails})]. *)
Definition sorted_set (l : list (list Z)) : list (list Z) :=
  merge_sort zlist_le (remove_dups l).

Definition sync_one (role : Role) (required : bool) (now : Z) (canonical : list Z)
  : M account_row :=
  row ← _account_row_by_email_locked canonical;
  row ← match row with
        | Some r => mret (Some r)
        | None =>
            account_id ← _new_account_id_locked self;
            exec_checked (insert_account
              (required_account_row account_id canonical role required now)) ;;
            _account_row_by_id_locked account_id
        end;
  _required_row row.

Definition sync_accounts (emails : list (list Z)) (default_role : Role)
    (password_change_required : bool) : M (list account_row) :=
  canonical_emails ← lift (result_map canonicalize_email emails);
  now ← _now self;
  _transaction (eff_map (sync_one default_role password_change_required now)
                  (sorted_set canonical_emails)).

Definition set_account_role (role : Role) (now : Z) (r : account_row) : account_row :=
  AccountRow (a_id r) (a_email r) role (a_pw_required r) (a_state r) (a_nonce r) (a_cipher r)
    (a_owner r) (a_counter r) (a_created r) now.

Definition set_account_pw (required : bool) (now : Z) (r : account_row) : account_row :=
  AccountRow (a_id r) (a_email r) (a_role r) required (a_state r) (a_nonce r) (a_cipher r)
    (a_owner r) (a_counter r) (a_created r) now.

Definition revoke_after_change (account_id : list Z) (revoke_sessions : bool) : M unit :=
  if revoke_sessions then _revoke_account_authentication_locked self account_id ;; mret tt
  else _revoke_pending_challenges_locked self account_id.

Definition set_role (account_id : list Z) (role : Role) (revoke_sessions : bool)
  : M account_row :=
  normalized_id ← _validate_account_id account_id;
  now ← _now self;
  row ← _transaction (
    _require_account_by_id_locked normalized_id ;;
    exec_checked (update_accounts (λ a, a_id a = normalized_id) (set_account_role role now)) ;;
    revoke_after_change normalized_id revoke_sessions ;;
    _account_row_by_id_locked normalized_id);
  _required_row row.

Definition set_password_change_required (account_id : list Z) (required revoke_sessions : bool)
  : M account_row :=
  normalized_id ← _validate_account_id account_id;
  now ← _now self;
  row ← _transaction (
    _require_account_by_id_locked normalized_id ;;
    exec_checked (update_accounts (λ a, a_id a = normalized_id) (set_account_pw required now)) ;;
    revoke_after_change normalized_id revoke_sessions ;;
    _account_row_by_id_locked normalized_id);
  _required_row row.

(** The deletes that follow a change of factors. *)
Definition delete_account_authentication (account_id : list Z) : M unit :=
  exec (delete_challenges (λ c, c_account c = account_id)) ;;
  exec (delete_passkey_challenges (λ k, k_account k = Some account_id)) ;;
  exec (delete_sessions (λ s, s_account s = account_id)).

Definition reset_totp (account_id : list Z) : M account_row :=
  normalized_id ← _validate_account_id account_id;
  now ← _now self;
  row ← _transaction (
    _require_account_by_id_locked normalized_id ;;
    exec_checked (update_accounts (λ a, a_id a = normalized_id) (reset_enrollment now)) ;;
    exec (delete_recovery (λ r, rc_account r = normalized_id)) ;;
    delete_account_authentication normalized_id ;;
    _account_row_by_id_locked normalized_id);
  _required_row row.

Definition set_active (nonce ciphertext : list Z) (now : Z) (r : account_row) : account_row :=
  AccountRow (a_id r) (a_email r) (a_role r) (a_pw_required r) ACTIVE (Some nonce)
    (Some ciphertext) None (-1) (a_created r) now.

Definition rotate_totp (account_id : list Z) : M ((list Z * list Z) * list (list Z)) :=
  normalized_id ← _validate_account_id account_id;
  now ← _now self;
  '(canonical, secret, recovery_codes) ← _transaction (
    row ← _require_account_by_id_locked normalized_id;
    let canonical := a_email row in
    secret_bytes ← _random_bytes self TOTP_SECRET_BYTES;
    let secret := _encode_totp_secret secret_bytes in
    '(nonce, ciphertext) ← _encrypt_totp self normalized_id canonical secret_bytes;
    recovery_codes ← _generate_recovery_codes self;
    exec_checked (update_accounts (λ a, a_id a = normalized_id) (set_active nonce ciphertext now)) ;;
    exec (delete_recovery (λ r, rc_account r = normalized_id)) ;;
    _store_recovery_codes_locked self normalized_id recovery_codes now ;;
    delete_account_authentication normalized_id ;;
    mret (canonical, secret, recovery_codes));
  enrollment ← _enrollment self canonical secret;
  mret (enrollment, recovery_codes).

Definition regenerate_recovery_codes (account_id code : list Z) : M (list (list Z)) :=
  normalized_id ← _validate_account_id account_id;
  now ← _now self;
  _transaction (
    row ← _require_account_by_id_locked normalized_id;
    consumed ← _consume_totp_locked self row code now;
    require consumed InvalidSecondFactorError ;;
    recovery_codes ← _generate_recovery_codes self;
    exec (delete_recovery (λ r, rc_account r = normalized_id)) ;;
    _store_recovery_codes_locked self normalized_id recovery_codes now ;;
    delete_account_authentication normalized_id ;;
    mret recovery_codes).

Definition recovery_code_count (account_id : list Z) : M Z :=
  normalized_id ← _validate_account_id account_id;
  locked (
    _require_account_by_id_locked normalized_id ;;
    query (λ d, count_where (λ r, rc_account r = normalized_id) (recovery_codes d))).

Definition verify_totp (account_id code : list Z) : M unit :=
  normalized_id ← _validate_account_id account_id;
  now ← _now self;
  _transaction (
    row ← _require_account_by_id_locked normalized_id;
    consumed ← _consume_totp_locked self row code now;
    require consumed InvalidSecondFactorError).

Definition _rate_digest (scope value : list Z) : list Z :=
  hmac_sha256 (_rate_digest_key self) (u "maddyweb-login-rate-v1" ++ [0] ++ scope ++ [0] ++ value).

Definition rate_of_account (account_id digest : list Z) (r : rate_row) : Prop :=
  l_account r = Some account_id ∨ l_account_identity r = Some digest.
#[export] Instance rate_of_account_dec i d r : Decision (rate_of_account i d r).
Proof. unfold rate_of_account. apply _. Defined.

Definition delete_account (account_id : list Z) : M unit :=
  normalized_id ← _validate_account_id account_id;
  _transaction (
    row ← _require_account_by_id_locked normalized_id;
    let account_digest := _rate_digest (u "account") (a_email row) in
    exec (delete_rate (rate_of_account normalized_id account_digest)) ;;
    deleted ← query (λ d, count_where (λ a, a_id a = normalized_id) (accounts d));
    exec (delete_accounts (λ a, a_id a = normalized_id)) ;;
    require (deleted =? 1) AccountNotFoundError).

Definition active_account_row (account_id canonical : list Z) (role : Role) (required : bool)
    (nonce ciphertext : list Z) (created now : Z) : account_row :=
  AccountRow account_id canonical role required ACTIVE (Some nonce) (Some ciphertext) None (-1)
    created now.

Definition provision_active_account (email : list Z) (role : Role)
    (password_change_required : bool) : M (account_row * (list Z * list Z) * list (list Z)) :=
  canonical ← lift (canonicalize_email email);
  now ← _now self;
  '(row, secret, recovery_codes) ← _transaction (
    existing ← _account_row_by_email_locked canonical;
    match existing with
    | Some _ => throw AccountExistsError
    | None =>
        account_id ← _new_account_id_locked self;
        secret_bytes ← _random_bytes self TOTP_SECRET_BYTES;
        let secret := _encode_totp_secret secret_bytes in
        '(nonce, ciphertext) ← _encrypt_totp self account_id canonical secret_bytes;
        recovery_codes ← _generate_recovery_codes self;
        exec_checked (insert_account (active_account_row account_id canonical role
          password_change_required nonce ciphertext now now)) ;;
        _store_recovery_codes_locked self account_id recovery_codes now ;;
        row ← _account_row_by_id_locked account_id;
        mret (row, secret, recovery_codes)
    end);
  account ← _required_row row;
  enrollment ← _enrollment self canonical secret;
  mret (account, enrollment, recovery_codes).

(** ** Bootstrap import *)

Record AccountBootstrap := Bootstrap {
  b_email : list Z;
  b_role : Role;
  b_totp_secret : list Z;
  b_recovery_codes : list (list Z);
  b_pw_required : bool;
}.

Record prepared := Prepared {
  q_canonical : list Z;
  q_role : Role;
  q_secret : list Z;
  q_codes : list (list Z);
  q_required : bool;
}.

Fixpoint prepare_bootstrap (records : list AccountBootstrap) (seen : list (list Z))
  : result exc (list prepared) :=
  match records with
  | [] => Ok []
  | record :: records =>
      canonical ← canonicalize_email (b_email record);
      if decide (canonical ∈ seen) then Err ValueError
      else
        secret ← decode_totp_secret (b_totp_secret record);
        codes ← _validate_recovery_code_set (b_recovery_codes record);
        rest ← prepare_bootstrap records (canonical :: seen);
        Ok (Prepared canonical (b_role record) secret codes (b_pw_required record) :: rest)
  end.

(** INSERT ... ON CONFLICT(canonical_email) DO UPDATE. *)
Definition upsert_bootstrap (r : account_row) (d : db) : option db :=
  match lookup_where (λ a, a_email a = a_email r) (accounts d) with
  | None => insert_account r d
  | Some _ =>
      update_accounts (λ a, a_email a = a_email r)
        (λ a, AccountRow (a_id a) (a_email a) (a_role r) (a_pw_required r) ACTIVE (a_nonce r)
                (a_cipher r) None (-1) (a_created a) (a_updated r)) d
  end.

Definition bootstrap_one (now : Z) (p : prepared) : M account_row :=
  let canonical := q_canonical p in
  existing ← _account_row_by_email_locked canonical;
  '(account_id, created_at) ←
    match existing with
    | None => id ← _new_account_id_locked self; mret (id, now)
    | Some row => mret (a_id row, a_created row)
    end;
  '(nonce, ciphertext) ← _encrypt_totp self account_id canonical (q_secret p);
  exec_checked (upsert_bootstrap (active_account_row account_id canonical (q_role p)
    (q_required p) nonce ciphertext created_at now)) ;;
  exec (delete_recovery (λ r, rc_account r = account_id)) ;;
  _store_recovery_codes_locked self account_id (q_codes p) now ;;
  delete_account_authentication account_id ;;
  row ← _account_row_by_id_locked account_id;
  _required_row row.

Definition bootstrap_active_accounts (records : list AccountBootstrap) : M (list account_row) :=
  prepared ← lift (prepare_bootstrap records []);
  require (negb (bool_decide (records = []))) ValueError ;;
  now ← _now self;
  _transaction (eff_map (bootstrap_one now) prepared).

Definition bootstrap_active_account (email : list Z) (role : Role) (totp_secret : list Z)
    (recovery_codes : list (list Z)) (password_change_required : bool) : M account_row :=
  imported ← bootstrap_active_accounts
    [Bootstrap email role totp_secret recovery_codes password_change_required];
  _required_row (head imported).

(** ** Login challenges and enrollment *)

Definition challenge_age_key (c : challenge_row) : list Z := c_created c :: c_digest c.

(** The challenges of the account that do not own its pending enrollment. *)
Definition removable_challenge (account_id : list Z) (d : db) (c : challenge_row) : Prop :=
  c_account c = account_id ∧
  ¬ Exists (λ a, a_id a = account_id ∧ a_state a = PENDING ∧ a_owner a = Some (c_digest c))
      (accounts d).
#[export] Instance removable_challenge_dec i d c : Decision (removable_challenge i d c).
Proof. unfold removable_challenge. apply _. Defined.

Definition evict_oldest_challenges (account_id : list Z) (n : Z) (d : db) : db :=
  let doomed := c_digest <$> limit n (order_by challenge_age_key
                  (select_where (removable_challenge account_id d) (challenges d))) in
  delete_challenges (λ c, c_digest c ∈ doomed) d.

Definition create_pending_challenge (email : list Z) : M (list Z) :=
  canonical ← lift (canonicalize_email email);
  now ← _now self;
  _transaction (
    row ← _account_row_by_email_locked canonical;
    match row with
    | None => throw AccountNotFoundError
    | Some row =>
        let account_id := a_id row in
        _delete_expired_challenges_locked now ;;
        challenge_count ← query (λ d, count_where (λ c, c_account c = account_id) (challenges d));
        when (_MAX_CHALLENGES_PER_ACCOUNT <=? challenge_count)
          (exec (evict_oldest_challenges account_id
                   (challenge_count - _MAX_CHALLENGES_PER_ACCOUNT + 1))) ;;
        '(token, digest) ← _new_unique_challenge_token_locked self;
        exec_checked (insert_challenge
          (ChallengeRow digest account_id now (now + CHALLENGE_LIFETIME_SECONDS) 0)) ;;
        mret token
    end).

Definition set_pending (nonce ciphertext digest : list Z) (now : Z) (r : account_row)
  : account_row :=
  AccountRow (a_id r) (a_email r) (a_role r) (a_pw_required r) PENDING (Some nonce)
    (Some ciphertext) (Some digest) (-1) (a_created r) now.

Definition challenge_digest_of (token : list Z) : list Z :=
  _opaque_digest (_challenge_digest_key self) token.
Definition session_digest_of (token : list Z) : list Z :=
  _opaque_digest (_session_digest_key self) token.

Definition begin_totp_enrollment (challenge_token : list Z) : M (list Z * list Z) :=
  let digest := challenge_digest_of challenge_token in
  now ← _now self;
  '(canonical, secret) ← _transaction (
    '(challenge, account) ← _challenge_row_locked digest now;
    let account_id := a_id account in
    let canonical := a_email account in
    secret_bytes ←
      match a_state account with
      | ACTIVE => throw EnrollmentStateError
      | PENDING =>
          match a_owner account with
          | None => throw AuthenticationDataError
          | Some owner =>
              if negb (zlen owner =? 32) then throw AuthenticationDataError
              else if negb (str_eqb owner digest) then throw EnrollmentStateError
              else _decrypt_totp self account
          end
      | REQUIRED =>
          secret_bytes ← _random_bytes self TOTP_SECRET_BYTES;
          '(nonce, ciphertext) ← _encrypt_totp self account_id canonical secret_bytes;
          rowcount ← query (λ d, count_where (λ a, a_id a = account_id ∧ a_state a = REQUIRED)
                                   (accounts d));
          exec_checked (update_accounts (λ a, a_id a = account_id ∧ a_state a = REQUIRED)
                          (set_pending nonce ciphertext digest now)) ;;
          require (rowcount =? 1) EnrollmentStateError ;;
          exec (delete_recovery (λ r, rc_account r = account_id)) ;;
          exec (delete_passkey_challenges (λ k, k_account k = Some account_id)) ;;
          exec (delete_sessions (λ s, s_account s = account_id)) ;;
          mret secret_bytes
      end;
    mret (canonical, _encode_totp_secret secret_bytes));
  _enrollment self canonical secret.

Definition confirm_guard (account_id digest : list Z) (counter : Z) (a : account_row) : Prop :=
  a_id a = account_id ∧ a_state a = PENDING ∧ a_owner a = Some digest ∧ a_counter a < counter.
#[export] Instance confirm_guard_dec i d n a : Decision (confirm_guard i d n a).
Proof. unfold confirm_guard. apply _. Defined.

Definition set_confirmed (counter now : Z) (r : account_row) : account_row :=
  AccountRow (a_id r) (a_email r) (a_role r) (a_pw_required r) ACTIVE (a_nonce r) (a_cipher r)
    None counter (a_created r) now.

Definition confirm_totp_enrollment (challenge_token code : list Z)
    (client_ip user_agent : option (list Z)) : M ((list Z * principal) * list (list Z)) :=
  let digest := challenge_digest_of challenge_token in
  now ← _now self;
  result ← _transaction (
    '(challenge, account) ← _challenge_row_locked digest now;
    if negb (bool_decide (a_state account = PENDING)) then throw EnrollmentStateError
    else if negb (len_is 32 (a_owner account) && bool_decide (a_owner account = Some digest))
    then throw EnrollmentStateError
    else
      let account_id := a_id account in
      secret ← _decrypt_totp self account;
      match fresh_counter secret code now (a_counter account) with
      | None => _record_challenge_failure_locked self digest (c_failures challenge) ;; mret None
      | Some counter =>
          rowcount ← query (λ d, count_where (confirm_guard account_id digest counter) (accounts d));
          exec_checked (update_accounts (confirm_guard account_id digest counter)
                          (set_confirmed counter now)) ;;
          if negb (rowcount =? 1) then
            _record_challenge_failure_locked self digest (c_failures challenge) ;; mret None
          else
            recovery_codes ← _generate_recovery_codes self;
            _store_recovery_codes_locked self account_id recovery_codes now ;;
            exec (delete_challenges (λ c, c_account c = account_id)) ;;
            account_row_ ← _account_row_by_id_locked account_id;
            account_row_ ← _required_row account_row_;
            session ← _issue_session_locked self account_row_ now client_ip user_agent;
            mret (Some (session, recovery_codes))
      end);
  match result with
  | None => throw InvalidSecondFactorError
  | Some r => mret r
  end.

Definition complete_totp_challenge (challenge_token code : list Z)
    (client_ip user_agent : option (list Z)) : M (list Z * principal) :=
  let digest := challenge_digest_of challenge_token in
  now ← _now self;
  issued ← _transaction (
    '(challenge, account) ← _challenge_row_locked digest now;
    if negb (bool_decide (a_state account = ACTIVE)) then throw EnrollmentStateError
    else
      secret ← _decrypt_totp self account;
      match fresh_counter secret code now (a_counter account) with
      | None => _record_challenge_failure_locked self digest (c_failures challenge) ;; mret None
      | Some counter =>
          let account_id := a_id account in
          rowcount ← query (λ d, count_where (advance_counter_guard account_id counter) (accounts d));
          exec_checked (update_accounts (advance_counter_guard account_id counter)
                          (set_counter counter now)) ;;
          if negb (rowcount =? 1) then
            _record_challenge_failure_locked self digest (c_failures challenge) ;; mret None
          else
            exec (delete_challenges (λ c, c_digest c = digest)) ;;
            account_row_ ← _account_row_by_id_locked account_id;
            account_row_ ← _required_row account_row_;
            session ← _issue_session_locked self account_row_ now client_ip user_agent;
            mret (Some session)
      end);
  match issued with
  | None => throw InvalidSecondFactorError
  | Some s => mret s
  end.

Definition complete_recovery_challenge (challenge_token recovery_code : list Z)
    (client_ip user_agent : option (list Z)) : M (list Z * principal) :=
  let digest := challenge_digest_of challenge_token in
  normalized_code ← lift (_normalize_recovery_code recovery_code);
  now ← _now self;
  issued ← _transaction (
    '(challenge, account) ← _challenge_row_locked digest now;
    if negb (bool_decide (a_state account = ACTIVE)) then throw EnrollmentStateError
    else
      let account_id := a_id account in
      let code_digest := _recovery_digest self account_id normalized_code in
      consumed ← query (λ d, count_where
        (λ r, rc_account r = account_id ∧ rc_digest r = code_digest) (recovery_codes d));
      exec (delete_recovery (λ r, rc_account r = account_id ∧ rc_digest r = code_digest)) ;;
      if negb (consumed =? 1) then
        _record_challenge_failure_locked self digest (c_failures challenge) ;; mret None
      else
        delete_account_authentication account_id ;;
        account_row_ ← _account_row_by_id_locked account_id;
        account_row_ ← _required_row account_row_;
        session ← _issue_session_locked self account_row_ now client_ip user_agent;
        mret (Some session));
  match issued with
  | None => throw InvalidSecondFactorError
  | Some s => mret s
  end.

(** ** Sessions *)

Definition authenticate_session (token : list Z) (touch : bool) : M principal :=
  let digest := session_digest_of token in
  now ← _now self;
  loaded ← _transaction (_valid_session_row_locked digest now touch);
  match loaded with
  | None => throw InvalidSessionError
  | Some (s, a, effective) => mret (_principal_from_session_row s a effective None)
  end.

Definition step_up_limit (now : Z) (s : session_row) : Z :=
  Z.min (now + STEP_UP_SECONDS) (s_absolute s).

Definition mark_step_up (session_token : list Z) : M principal :=
  let digest := session_digest_of session_token in
  now ← _now self;
  p ← _transaction (
    loaded ← _valid_session_row_locked digest now true;
    match loaded with
    | None => mret None
    | Some (s, a, effective) =>
        let step_up_until := step_up_limit now s in
        exec_checked (update_sessions (λ s, s_digest s = digest) (set_step_up step_up_until)) ;;
        mret (Some (_principal_from_session_row s a effective (Some step_up_until)))
    end);
  match p with None => throw InvalidSessionError | Some p => mret p end.

(** [inl true]: the session is valid but its step-up is missing. *)
Definition require_step_up (session_token : list Z) : M principal :=
  let digest := session_digest_of session_token in
  now ← _now self;
  outcome ← _transaction (
    loaded ← _valid_session_row_locked digest now true;
    match loaded with
    | None => mret (inl false)
    | Some (s, a, effective) =>
        if s_step_up s <=? now then mret (inl true)
        else mret (inr (_principal_from_session_row s a effective None))
    end);
  match outcome with
  | inr p => mret p
  | inl true => throw StepUpRequiredError
  | inl false => throw InvalidSessionError
  end.

Definition revoke_session (token : list Z) : M bool :=
  let digest := session_digest_of token in
  deleted ← _transaction (
    n ← query (λ d, count_where (λ s, s_digest s = digest) (sessions d));
    exec (delete_sessions (λ s, s_digest s = digest)) ;;
    mret n);
  mret (deleted =? 1).

Record SessionInfo := MkSessionInfo {
  si_session_id : list Z;
  si_account : list Z;
  si_created : Z;
  si_last_seen : Z;
  si_idle_expires : Z;
  si_absolute_expires : Z;
  si_step_up_until : Z;
  si_ip : option (list Z);
  si_agent : option (list Z);
  si_current : bool;
}.

Definition _session_info_from_row (current_digest : option (list Z)) (s : session_row)
  : result exc SessionInfo :=
  match s_id s with
  | None => Err AuthenticationDataError
  | Some id =>
      if negb (is_hex32 id) then Err AuthenticationDataError
      else Ok (MkSessionInfo id (s_account s) (s_created s) (s_last_seen s)
                 (Z.min (s_last_seen s + SESSION_IDLE_SECONDS) (s_absolute s)) (s_absolute s)
                 (s_step_up s) (s_ip s) (s_agent s)
                 (bool_decide (current_digest = Some (s_digest s))))
  end.

(** ORDER BY last_seen_at DESC, created_at DESC, session_id. *)
Definition session_recency_key (s : session_row) : list Z :=
  - s_last_seen s :: - s_created s :: default [] (s_id s).

Definition list_sessions (account_id : list Z) (current_session_token : option (list Z))
  : M (list SessionInfo) :=
  normalized_id ← _validate_account_id account_id;
  let current_digest := session_digest_of <$> current_session_token in
  now ← _now self;
  rows ← _transaction (
    _require_account_by_id_locked normalized_id ;;
    _delete_expired_sessions_locked now ;;
    query (λ d, order_by session_recency_key
                  (select_where (λ s, s_account s = normalized_id) (sessions d))));
  lift (result_map (_session_info_from_row current_digest) rows).

Definition revoke_session_by_id (account_id session_id : list Z) : M bool :=
  normalized_account_id ← _validate_account_id account_id;
  normalized_session_id ← _validate_session_id session_id;
  deleted ← _transaction (
    _require_account_by_id_locked normalized_account_id ;;
    n ← query (λ d, count_where (λ s, s_account s = normalized_account_id
                                      ∧ s_id s = Some normalized_session_id) (sessions d));
    exec (delete_sessions (λ s, s_account s = normalized_account_id
                                ∧ s_id s = Some normalized_session_id)) ;;
    mret n);
  mret (deleted =? 1).

Definition revoke_sessions (account_id : list Z) : M Z :=
  normalized_id ← _validate_account_id account_id;
  _transaction (
    _require_account_by_id_locked normalized_id ;;
    _revoke_account_authentication_locked self normalized_id).
End Store.
