(* ===== verification/AuthPasskey.v ===== *)
(** * [AuthStore]: passkeys

    The WebAuthn ceremonies of [auth.py].  The [webauthn] package (option
    generation, parsing and verification of credentials) is the record of
    functions [webauthn]; everything the store does around them is modelled. *)

From S2P Require Import Prelude Text Errors Sql Totp Identity Json AuthDb AuthCore.

(** ** The webauthn package *)

Record registration_credential := RegistrationCredential {
  rg_raw_id : list Z;
  rg_transports : option (list (list Z));
}.

Record authentication_credential := AuthenticationCredential {
  au_raw_id : list Z;
  au_user_handle : option (list Z);
}.

Record VerifiedRegistration := MkVerifiedRegistration {
  vr_credential_id : list Z;
  vr_public_key : list Z;
  vr_sign_count : Z;
  vr_device : DeviceType;
  vr_backed_up : bool;
  vr_user_verified : bool;
}.

Record VerifiedAuthentication := MkVerifiedAuthentication {
  va_credential_id : list Z;
  va_new_sign_count : Z;
  va_device : DeviceType;
  va_backed_up : bool;
  va_user_verified : bool;
}.

(** A credential argument: already parsed, a JSON text or dict, or neither. *)
Inductive credential_arg (C : Type) : Type :=
| Parsed (c : C)
| Payload (j : json)
| Neither.
Arguments Parsed {C} c.
Arguments Payload {C} j.
Arguments Neither {C}.

Record registration_options := RegistrationOptions {
  ro_rp_id : list Z;
  ro_rp_name : list Z;
  ro_user_id : list Z;
  ro_user_name : list Z;
  ro_challenge : list Z;
  ro_timeout : Z;
  ro_exclude : list (list Z);
}.

Record authentication_options := AuthenticationOptions {
  ao_rp_id : list Z;
  ao_challenge : list Z;
  ao_timeout : Z;
  ao_allow : list (list Z);
}.

Record webauthn := WebAuthn {
  registration_to_json : registration_options → result exc json;
  authentication_to_json : authentication_options → result exc json;
  parse_registration_credential_json : json → result exc registration_credential;
  parse_authentication_credential_json : json → result exc authentication_credential;
  (* credential, expected challenge, RP ID, origin *)
  verify_registration_response :
    registration_credential → list Z → list Z → list Z → result exc VerifiedRegistration;
  (* credential, expected challenge, RP ID, origin, public key, current sign count *)
  verify_authentication_response :
    authentication_credential → list Z → list Z → list Z → list Z → Z →
    result exc VerifiedAuthentication;
}.

(** [bytes.fromhex]: pairs of hexadecimal digits, ASCII whitespace between. *)
Fixpoint fromhex_fuel (fuel : nat) (s : list Z) : option (list Z) :=
  match fuel with
  | O => None
  | S fuel =>
      match lstrip_by (in_chars [32; 9; 10; 11; 12; 13]) s with
      | [] => Some []
      | [_] => None
      | a :: b :: rest =>
          x ← hex_value a; y ← hex_value b; bs ← fromhex_fuel fuel rest; Some (x * 16 + y :: bs)
      end
  end.

Definition bytes_fromhex (s : list Z) : result exc (list Z) :=
  match fromhex_fuel (S (length s)) s with Some b => Ok b | None => Err ValueError end.

Definition passkey_failure_classes : list exc :=
  [TypeError; ValueError; WebAuthnException; InvalidPasskeyError].

Record PasskeyCeremony := MkPasskeyCeremony {
  pc_challenge_token : list Z;
  pc_options : json;
}.

Record PasskeyCredential := MkPasskeyCredential {
  pk_public_id : list Z;
  pk_account : list Z;
  pk_name : list Z;
  pk_sign_count : Z;
  pk_device : DeviceType;
  pk_backed_up : bool;
  pk_transports : list (list Z);
  pk_created : Z;
  pk_last_used : option Z;
}.

Record VerifiedPasskeyIdentity := MkVerifiedPasskeyIdentity {
  vi_account_id : list Z;
  vi_email : list Z;
}.

Section Passkey.
Context (self : store) (wa : webauthn).

Definition _require_passkey_configuration : M (list Z * list Z) :=
  match webauthn_rp_id self, webauthn_origin self with
  | Some rp_id, Some origin => mret (rp_id, origin)
  | _, _ => throw AuthenticationError
  end.

Definition _normalize_passkey_name (value : list Z) : result exc (list Z) :=
  let normalized := strip value in
  if bool_decide (normalized = []) || (_MAX_PASSKEY_NAME_LENGTH <? zlen normalized)
     || has_line_break normalized
  then Err ValueError else Ok normalized.

Definition _passkey_challenge_digest (challenge : list Z) : list Z :=
  hmac_sha256 (_passkey_challenge_digest_key self) challenge.

Definition json_object {A} (r : result exc json) (k : json → M A) : M A :=
  payload ← lift r;
  match payload with JObj _ => k payload | _ => throw AuthenticationDataError end.

Definition _parse_registration_credential (value : credential_arg registration_credential)
  : result exc registration_credential :=
  match value with
  | Parsed c => Ok c
  | Payload j => parse_registration_credential_json wa j
  | Neither => Err ValueError
  end.

Definition _parse_authentication_credential (value : credential_arg authentication_credential)
  : result exc authentication_credential :=
  match value with
  | Parsed c => Ok c
  | Payload j => parse_authentication_credential_json wa j
  | Neither => Err ValueError
  end.

(** ** Challenges *)

Definition _delete_expired_passkey_challenges_locked (now : Z) : M unit :=
  exec (delete_passkey_challenges (λ k, k_expires k ≤ now)).

Definition passkey_challenge_age_key (k : passkey_challenge_row) : list Z :=
  k_created k :: k_digest k.

Definition evict_oldest_passkey_challenges (P : passkey_challenge_row → Prop)
    `{!∀ k, Decision (P k)} (n : Z) (d : db) : db :=
  let doomed := k_digest <$> limit n (order_by passkey_challenge_age_key
                  (select_where P (passkey_challenges d))) in
  delete_passkey_challenges (λ k, k_digest k ∈ doomed) d.

Definition bound_to (account_id : list Z) (k : passkey_challenge_row) : Prop :=
  k_purpose k ≠ LOGIN ∧ k_account k = Some account_id.
#[export] Instance bound_to_dec i k : Decision (bound_to i k).
Proof. unfold bound_to. apply _. Defined.

Fixpoint allocate_passkey_challenge (attempts : nat) (purpose : Purpose)
    (account_id session_digest : option (list Z)) (now : Z) : M (list Z * list Z) :=
  match attempts with
  | O => throw AuthenticationError
  | S attempts =>
      challenge ← _random_bytes self _TOKEN_BYTES;
      let digest := _passkey_challenge_digest challenge in
      exists_ ← query (λ d, bool_decide (digest ∈ k_digest <$> passkey_challenges d));
      if (exists_ : bool)
      then allocate_passkey_challenge attempts purpose account_id session_digest now
      else
        exec_checked (insert_passkey_challenge (PasskeyChallengeRow digest purpose account_id
          session_digest now (now + CHALLENGE_LIFETIME_SECONDS) 0)) ;;
        mret (challenge, _encode_opaque_token challenge)
  end.

Definition _create_passkey_challenge_locked (purpose : Purpose)
    (account_id session_digest : option (list Z)) (now : Z) : M (list Z * list Z) :=
  _delete_expired_passkey_challenges_locked now ;;
  match purpose with
  | LOGIN =>
      require (is_none account_id && is_none session_digest) ValueError ;;
      n ← query (λ d, count_where (λ k, k_purpose k = LOGIN) (passkey_challenges d));
      when (_MAX_ANONYMOUS_PASSKEY_LOGIN_CHALLENGES <=? n)
        (exec (evict_oldest_passkey_challenges (λ k, k_purpose k = LOGIN)
                 (n - _MAX_ANONYMOUS_PASSKEY_LOGIN_CHALLENGES + 1)))
  | _ =>
      match account_id, session_digest with
      | Some account_id, Some _ =>
          n ← query (λ d, count_where (bound_to account_id) (passkey_challenges d));
          when (_MAX_PASSKEY_CHALLENGES_PER_ACCOUNT <=? n)
            (exec (evict_oldest_passkey_challenges (bound_to account_id)
                     (n - _MAX_PASSKEY_CHALLENGES_PER_ACCOUNT + 1)))
      | _, _ => throw ValueError
      end
  end ;;
  allocate_passkey_challenge 8 purpose account_id session_digest now.

Definition _passkey_challenge_row_locked (digest : list Z) (now : Z) (purpose : Purpose)
    (account_id session_digest : option (list Z)) : M passkey_challenge_row :=
  row ← query (λ d, lookup_where (λ k, k_digest k = digest) (passkey_challenges d));
  match row with
  | None => throw InvalidChallengeError
  | Some k =>
      if k_expires k <=? now then throw InvalidChallengeError
      else if negb (bool_decide (k_purpose k = purpose)) then throw InvalidChallengeError
      else if negb (bool_decide (k_account k = account_id)) then throw InvalidChallengeError
      else if negb (bool_decide (k_session k = session_digest)) then throw InvalidChallengeError
      else mret k
  end.

Definition set_passkey_failures (n : Z) (k : passkey_challenge_row) : passkey_challenge_row :=
  PasskeyChallengeRow (k_digest k) (k_purpose k) (k_account k) (k_session k) (k_created k)
    (k_expires k) n.

Definition _record_passkey_challenge_failure_locked (digest : list Z) (failure_count : Z)
  : M unit :=
  let next_count := failure_count + 1 in
  if CHALLENGE_FAILURE_LIMIT <=? next_count
  then exec (delete_passkey_challenges (λ k, k_digest k = digest))
  else exec_checked (update_passkey_challenges (λ k, k_digest k = digest)
                       (set_passkey_failures next_count)).

(** ** Credentials *)

Definition _passkey_credential_row_locked (credential_id account_id : list Z)
  : M (option passkey_row) :=
  query (λ d, lookup_where (λ p, p_credential p = credential_id ∧ p_account p = account_id)
                (passkeys d)).

Definition _passkey_credential_row_by_id_locked (credential_id : list Z)
  : M (option passkey_row) :=
  query (λ d, lookup_where (λ p, p_credential p = credential_id) (passkeys d)).

Definition json_strings (l : list json) : option (list (list Z)) :=
  mapM (λ j, match j with JStr s => Some s | _ => None end) l.

Definition _passkey_credential_from_row (p : passkey_row) : result exc PasskeyCredential :=
  raw_transports ←
    match p_transports p with
    | None | Some [] => Ok (JArr [])
    | Some t => match loads (default_hooks (py_float self)) t with
                | Some j => Ok j
                | None => Err AuthenticationDataError
                end
    end;
  transports ←
    match raw_transports with
    | JArr l => match json_strings l with
                | Some ts => Ok ts
                | None => Err AuthenticationDataError
                end
    | _ => Err AuthenticationDataError
    end;
  if negb (is_hex32 (p_public_id p)) then Err AuthenticationDataError
  else Ok (MkPasskeyCredential (p_public_id p) (p_account p) (p_name p) (p_sign_count p)
             (p_device p) (p_backed_up p) transports (p_created p) (p_last_used p)).

Definition known_device (d : DeviceType) : bool :=
  match d with OTHER_DEVICE => false | _ => true end.

Definition credential_id_ok (id : list Z) : bool :=
  (1 <=? zlen id) && (zlen id <=? _MAX_CREDENTIAL_ID_BYTES).

Definition _validate_registration_result (credential : registration_credential)
    (verified : VerifiedRegistration) : result exc unit :=
  if negb (vr_user_verified verified)
     || negb (str_eqb (rg_raw_id credential) (vr_credential_id verified))
     || negb (credential_id_ok (vr_credential_id verified))
     || bool_decide (vr_public_key verified = [])
     || (vr_sign_count verified <? 0)
     || negb (known_device (vr_device verified))
  then Err InvalidPasskeyError else Ok tt.

Definition bad_sign_count (new current : Z) : bool :=
  (new <? 0) || (((0 <? new) || (0 <? current)) && (new <=? current)).

Definition assertion_guard (credential_id account_id : list Z) (current : Z) (p : passkey_row)
  : Prop := p_credential p = credential_id ∧ p_account p = account_id ∧ p_sign_count p = current.
#[export] Instance assertion_guard_dec c i n p : Decision (assertion_guard c i n p).
Proof. unfold assertion_guard. apply _. Defined.

Definition set_assertion (verified : VerifiedAuthentication) (now : Z) (p : passkey_row)
  : passkey_row :=
  PasskeyRow (p_credential p) (p_public_id p) (p_account p) (p_public_key p)
    (va_new_sign_count verified) (p_name p) (va_device verified) (va_backed_up verified)
    (p_transports p) (p_created p) (Some now).

Definition _verify_passkey_assertion_locked
    (credential : credential_arg authentication_credential) (challenge account_id rp_id origin
    : list Z) (now : Z) : M VerifiedAuthentication :=
  parsed ← lift (_parse_authentication_credential credential);
  let credential_id := au_raw_id parsed in
  require (credential_id_ok credential_id) InvalidPasskeyError ;;
  row ← _passkey_credential_row_locked credential_id account_id;
  match row with
  | None => throw InvalidPasskeyError
  | Some p =>
      match au_user_handle parsed with
      | None => mret tt
      | Some handle => expected ← lift (bytes_fromhex account_id);
                       require (str_eqb handle expected) InvalidPasskeyError
      end ;;
      let current := p_sign_count p in
      verified ← lift (verify_authentication_response wa parsed challenge rp_id origin
                         (p_public_key p) current);
      require (negb (negb (va_user_verified verified)
                     || negb (str_eqb (va_credential_id verified) credential_id)
                     || bad_sign_count (va_new_sign_count verified) current
                     || negb (known_device (va_device verified)))) InvalidPasskeyError ;;
      rowcount ← query (λ d, count_where (assertion_guard credential_id account_id current)
                               (passkeys d));
      exec_checked (update_passkeys (assertion_guard credential_id account_id current)
                      (set_assertion verified now)) ;;
      require (rowcount =? 1) InvalidPasskeyError ;;
      mret verified
  end.

(** ** Ceremonies

    Each method's transaction returns its outcome; a failure that has to be
    committed (a counted attempt, an expired session removed) is raised after
    the transaction, as the code does with its flags. *)

Inductive outcome (A : Type) : Type :=
| Done (a : A)
| InvalidSession
| StepUpMissing
| VerificationFailed.
Arguments Done {A} a.
Arguments InvalidSession {A}.
Arguments StepUpMissing {A}.
Arguments VerificationFailed {A}.

Definition finish {A} (o : outcome A) : M A :=
  match o with
  | Done a => mret a
  | InvalidSession => throw InvalidSessionError
  | StepUpMissing => throw StepUpRequiredError
  | VerificationFailed => throw InvalidPasskeyError
  end.

Definition session_digest_key_of (token : list Z) : list Z :=
  _opaque_digest (_session_digest_key self) token.

Definition passkey_age_key (p : passkey_row) : list Z := p_created p :: p_credential p.

Definition account_passkeys (account_id : list Z) (d : db) : list passkey_row :=
  order_by passkey_age_key (select_where (λ p, p_account p = account_id) (passkeys d)).

Definition TIMEOUT_MS : Z := CHALLENGE_LIFETIME_SECONDS * 1000.

Definition begin_passkey_registration (session_token : list Z) : M PasskeyCeremony :=
  '(rp_id, _) ← _require_passkey_configuration;
  let session_digest := session_digest_key_of session_token in
  now ← _now self;
  o ← _transaction (
    loaded ← _valid_session_row_locked session_digest now true;
    match loaded with
    | None => mret InvalidSession
    | Some (s, a, _) =>
        if s_step_up s <=? now then mret StepUpMissing
        else
          let account_id := a_id a in
          credentials ← query (account_passkeys account_id);
          require (zlen credentials <? MAX_PASSKEYS_PER_ACCOUNT) PasskeyLimitError ;;
          '(challenge, challenge_token) ← _create_passkey_challenge_locked REGISTRATION
            (Some account_id) (Some session_digest) now;
          user_id ← lift (bytes_fromhex account_id);
          json_object (registration_to_json wa
            (RegistrationOptions rp_id (issuer self) user_id (a_email a) challenge TIMEOUT_MS
               (p_credential <$> credentials)))
            (λ options, mret (Done (MkPasskeyCeremony challenge_token options)))
    end);
  finish o.

Definition verify_registration (credential : credential_arg registration_credential)
    (challenge rp_id origin : list Z)
  : result exc (registration_credential * VerifiedRegistration) :=
  parsed ← _parse_registration_credential credential;
  verified ← verify_registration_response wa parsed challenge rp_id origin;
  _validate_registration_result parsed verified ;;
  Ok (parsed, verified).

(** [json.dumps(transports, separators=(",", ":"))] of ASCII transport names. *)
Definition dump_transports (parsed : registration_credential) : option (list Z) :=
  dumps false (JArr (JStr <$> default [] (rg_transports parsed))).

Definition complete_passkey_registration (session_token challenge_token : list Z)
    (credential : credential_arg registration_credential) (name : list Z)
  : M PasskeyCredential :=
  '(rp_id, origin) ← _require_passkey_configuration;
  normalized_name ← lift (_normalize_passkey_name name);
  match _decode_opaque_token challenge_token with
  | None => throw InvalidChallengeError
  | Some challenge =>
      let challenge_digest := _passkey_challenge_digest challenge in
      let session_digest := session_digest_key_of session_token in
      now ← _now self;
      o ← _transaction (
        loaded ← _valid_session_row_locked session_digest now true;
        match loaded with
        | None => mret InvalidSession
        | Some (s, a, _) =>
            if s_step_up s <=? now then mret StepUpMissing
            else
              let account_id := a_id a in
              challenge_row ← _passkey_challenge_row_locked challenge_digest now REGISTRATION
                (Some account_id) (Some session_digest);
              credential_count ← query (λ d,
                count_where (λ p, p_account p = account_id) (passkeys d));
              require (credential_count <? MAX_PASSKEYS_PER_ACCOUNT) PasskeyLimitError ;;
              checked ← attempt (catches passkey_failure_classes)
                (lift (verify_registration credential challenge rp_id origin));
              match checked with
              | None =>
                  _record_passkey_challenge_failure_locked challenge_digest
                    (k_failures challenge_row) ;;
                  mret VerificationFailed
              | Some (parsed, verified) =>
                  inserted ← attempt (catches [IntegrityError]) (
                    public_id ← _new_passkey_public_id_locked self;
                    exec_checked (insert_passkey (PasskeyRow (vr_credential_id verified) public_id
                      account_id (vr_public_key verified) (vr_sign_count verified)
                      normalized_name (vr_device verified) (vr_backed_up verified)
                      (dump_transports parsed) now None)));
                  match inserted with
                  | None =>
                      _record_passkey_challenge_failure_locked challenge_digest
                        (k_failures challenge_row) ;;
                      mret VerificationFailed
                  | Some _ =>
                      exec (delete_passkey_challenges (λ k, k_digest k = challenge_digest)) ;;
                      stored ← _passkey_credential_row_locked (vr_credential_id verified)
                        account_id;
                      row ← _required_row stored;
                      credential ← lift (_passkey_credential_from_row row);
                      mret (Done credential)
                  end
              end
        end);
      finish o
  end.

Definition list_passkeys (account_id : list Z) : M (list PasskeyCredential) :=
  normalized_id ← _validate_account_id account_id;
  rows ← _transaction (
    _require_account_by_id_locked normalized_id ;;
    query (account_passkeys normalized_id));
  lift (result_map _passkey_credential_from_row rows).

Definition delete_passkey (account_id public_id : list Z) : M bool :=
  normalized_account_id ← _validate_account_id account_id;
  normalized_public_id ← _validate_passkey_public_id public_id;
  deleted ← _transaction (
    _require_account_by_id_locked normalized_account_id ;;
    n ← query (λ d, count_where (λ p, p_account p = normalized_account_id
                                      ∧ p_public_id p = normalized_public_id) (passkeys d));
    exec (delete_passkeys (λ p, p_account p = normalized_account_id
                                ∧ p_public_id p = normalized_public_id)) ;;
    mret n);
  mret (deleted =? 1).

Definition begin_passkey_login : M PasskeyCeremony :=
  '(rp_id, _) ← _require_passkey_configuration;
  now ← _now self;
  '(challenge, challenge_token) ← _transaction (
    _create_passkey_challenge_locked LOGIN None None now);
  json_object (authentication_to_json wa (AuthenticationOptions rp_id challenge TIMEOUT_MS []))
    (λ options, mret (MkPasskeyCeremony challenge_token options)).

Definition login_assertion (credential : credential_arg authentication_credential)
    (challenge rp_id origin : list Z) (now : Z) : M (list Z) :=
  parsed ← lift (_parse_authentication_credential credential);
  require (credential_id_ok (au_raw_id parsed)) InvalidPasskeyError ;;
  row ← _passkey_credential_row_by_id_locked (au_raw_id parsed);
  match row with
  | None => throw InvalidPasskeyError
  | Some p =>
      let account_id := p_account p in
      match au_user_handle parsed with
      | None => throw InvalidPasskeyError
      | Some handle =>
          expected ← lift (bytes_fromhex account_id);
          require (str_eqb handle expected) InvalidPasskeyError
      end ;;
      _verify_passkey_assertion_locked (Parsed parsed) challenge account_id rp_id origin now ;;
      mret account_id
  end.

Definition verify_passkey_login (challenge_token : list Z)
    (credential : credential_arg authentication_credential) : M VerifiedPasskeyIdentity :=
  '(rp_id, origin) ← _require_passkey_configuration;
  match _decode_opaque_token challenge_token with
  | None => throw InvalidChallengeError
  | Some challenge =>
      let challenge_digest := _passkey_challenge_digest challenge in
      now ← _now self;
      o ← _transaction (
        challenge_row ← _passkey_challenge_row_locked challenge_digest now LOGIN None None;
        checked ← attempt (catches passkey_failure_classes)
          (login_assertion credential challenge rp_id origin now);
        match checked with
        | None =>
            _record_passkey_challenge_failure_locked challenge_digest (k_failures challenge_row) ;;
            mret VerificationFailed
        | Some account_id =>
            exec (delete_passkey_challenges (λ k, k_digest k = challenge_digest)) ;;
            row ← _account_row_by_id_locked account_id;
            row ← _required_row row;
            mret (Done (MkVerifiedPasskeyIdentity account_id (a_email row)))
        end);
      finish o
  end.

Definition issue_verified_passkey_session (identity : VerifiedPasskeyIdentity)
    (client_ip user_agent : option (list Z)) : M (list Z * principal) :=
  account_id ← _validate_account_id (vi_account_id identity);
  email ← lift (canonicalize_email (vi_email identity));
  now ← _now self;
  _transaction (
    row ← _account_row_by_id_locked account_id;
    match row with
    | None => throw AccountNotFoundError
    | Some a =>
        if negb (str_eqb (a_email a) email) then throw AccountNotFoundError
        else _issue_session_locked self a now client_ip user_agent
    end).

Definition complete_passkey_login (challenge_token : list Z)
    (credential : credential_arg authentication_credential)
    (client_ip user_agent : option (list Z)) : M (list Z * principal) :=
  identity ← verify_passkey_login challenge_token credential;
  issue_verified_passkey_session identity client_ip user_agent.

Definition begin_passkey_step_up (session_token : list Z) : M PasskeyCeremony :=
  '(rp_id, _) ← _require_passkey_configuration;
  let session_digest := session_digest_key_of session_token in
  now ← _now self;
  o ← _transaction (
    loaded ← _valid_session_row_locked session_digest now true;
    match loaded with
    | None => mret InvalidSession
    | Some (_, a, _) =>
        let account_id := a_id a in
        credentials ← query (account_passkeys account_id);
        require (negb (bool_decide (credentials = []))) InvalidPasskeyError ;;
        '(challenge, challenge_token) ← _create_passkey_challenge_locked STEP_UP
          (Some account_id) (Some session_digest) now;
        json_object (authentication_to_json wa
          (AuthenticationOptions rp_id challenge TIMEOUT_MS (p_credential <$> credentials)))
          (λ options, mret (Done (MkPasskeyCeremony challenge_token options)))
    end);
  finish o.

Definition complete_passkey_step_up (session_token challenge_token : list Z)
    (credential : credential_arg authentication_credential) : M principal :=
  '(rp_id, origin) ← _require_passkey_configuration;
  match _decode_opaque_token challenge_token with
  | None => throw InvalidChallengeError
  | Some challenge =>
      let challenge_digest := _passkey_challenge_digest challenge in
      let session_digest := session_digest_key_of session_token in
      now ← _now self;
      o ← _transaction (
        loaded ← _valid_session_row_locked session_digest now true;
        match loaded with
        | None => mret InvalidSession
        | Some (s, a, effective) =>
            let account_id := a_id a in
            challenge_row ← _passkey_challenge_row_locked challenge_digest now STEP_UP
              (Some account_id) (Some session_digest);
            checked ← attempt (catches passkey_failure_classes)
              (_verify_passkey_assertion_locked credential challenge account_id rp_id origin now);
            match checked with
            | None =>
                _record_passkey_challenge_failure_locked challenge_digest
                  (k_failures challenge_row) ;;
                mret VerificationFailed
            | Some _ =>
                let step_up_until := Z.min (now + STEP_UP_SECONDS) (s_absolute s) in
                exec_checked (update_sessions (λ s, s_digest s = session_digest)
                                (set_step_up step_up_until)) ;;
                exec (delete_passkey_challenges (λ k, k_digest k = challenge_digest)) ;;
                mret (Done (_principal_from_session_row s a effective (Some step_up_until)))
            end
        end);
      finish o
  end.
End Passkey.
