(* ===== verification/AuthRate.v ===== *)
(** * [AuthStore]: login rate limits

    [check_login_rate], [record_login_result] and their passkey variants.  The
    two check methods run the same statements for their list of policies; they
    are instances of [reserve_attempt]. *)

From S2P Require Import Prelude Text Errors Sql Totp Identity Json AuthDb AuthCore AuthStore.

Record policy := Policy {
  po_scope : RateScope;
  po_limit : Z;
  po_window : Z;
}.

Definition _RATE_POLICIES : list policy :=
  [Policy GLOBAL 120 (5 * 60); Policy IP 30 (5 * 60);
   Policy ACCOUNT 15 (15 * 60); Policy PAIR 10 (15 * 60)].

Definition _PASSKEY_LOGIN_RATE_POLICIES : list policy :=
  [Policy GLOBAL 120 (5 * 60); Policy IP 30 (5 * 60)].

Definition max_window (policies : list policy) : Z := foldr (λ p m, Z.max (po_window p) m) 0 policies.

Definition window_over (scope : RateScope) (cutoff : Z) (r : rate_row) : Prop :=
  l_scope r = scope ∧ l_started r ≤ cutoff.
#[export] Instance window_over_dec s c r : Decision (window_over s c r).
Proof. unfold window_over. apply _. Defined.

Definition delete_finished_windows (policies : list policy) (now : Z) : M unit :=
  eff_iter (λ p, exec (delete_rate (window_over (po_scope p) (now - po_window p)))) policies.

Definition rate_key (r : rate_row) : RateScope * list Z := (l_scope r, l_identity r).

(** ORDER BY (scope = 'global'), window_started_at, rowid. *)
Definition rate_evict_key (ir : Z * rate_row) : list Z :=
  [if bool_decide (l_scope ir.2 = GLOBAL) then 1 else 0; l_started ir.2; ir.1].

Definition with_rowid (t : list rate_row) : list (Z * rate_row) :=
  imap (λ i r, (Z.of_nat i, r)) t.

Definition evict_rate_rows (n : Z) (d : db) : db :=
  let doomed := (λ ir, rate_key ir.2) <$> limit n (order_by rate_evict_key (with_rowid (rate_limits d))) in
  delete_rate (λ r, rate_key r ∈ doomed) d.

Definition rate_row_at (scope : RateScope) (identity : list Z) (t : list rate_row)
  : option rate_row := lookup_where (λ r, l_scope r = scope ∧ l_identity r = identity) t.

Definition coalesce {A} (a b : option A) : option A := match a with Some _ => a | None => b end.

(** INSERT ... ON CONFLICT(scope, identity_digest) DO UPDATE. *)
Definition upsert_rate (r : rate_row) (d : db) : option db :=
  match rate_row_at (l_scope r) (l_identity r) (rate_limits d) with
  | None =>
      if rate_check d r then Some (set_rate_limits (rate_limits d ++ [r]) d) else None
  | Some _ =>
      t ← update_checked (rate_check d) (λ r', l_scope r' = l_scope r ∧ l_identity r' = l_identity r)
            (λ r', RateRow (l_scope r') (l_identity r') (coalesce (l_account r) (l_account r'))
                     (coalesce (l_account_identity r) (l_account_identity r')) (l_started r')
                     (l_count r' + 1)) (rate_limits d);
      Some (set_rate_limits t d)
  end.

(** The delay the existing windows impose. *)
Definition window_delay (now : Z) (p : policy) (row : option rate_row) : Z :=
  match row with
  | None => 0
  | Some r => let elapsed := Z.max 0 (now - l_started r) in
              if po_limit p <=? l_count r then po_window p - elapsed else 0
  end.

Section Reserve.
Context (policies : list policy) (identity : RateScope → list Z).
(* the account columns a scope's row is linked to *)
Context (link : RateScope → option (list Z) * option (list Z)).

(** The body of the transaction: the value is [retry_after]. *)
Definition reserve_attempt (now : Z) : M Z :=
  delete_finished_windows policies now ;;
  retained_rows ← query (λ d, zlen (rate_limits d));
  retry_after ←
    (if _MAX_RATE_LIMIT_ROWS <? retained_rows
     then exec (evict_rate_rows (retained_rows - _MAX_RATE_LIMIT_ROWS)) ;;
          mret (max_window policies)
     else mret 0);
  rows_by_scope ← query (λ d,
    (λ p, (p, rate_row_at (po_scope p) (identity (po_scope p)) (rate_limits d))) <$> policies);
  let retry_after :=
    foldl (λ acc '(p, row), Z.max acc (window_delay now p row)) retry_after rows_by_scope in
  retry_after ←
    (if retry_after =? 0 then
       current_rows ← query (λ d, zlen (rate_limits d));
       let new_rows := zlen (filter (λ pr, is_none pr.2 = true) rows_by_scope) in
       mret (if _MAX_RATE_LIMIT_ROWS <? current_rows + new_rows
             then max_window policies else retry_after)
     else mret retry_after);
  when (retry_after =? 0)
    (eff_iter (λ p,
       let '(account, account_identity) := link (po_scope p) in
       exec_checked (upsert_rate (RateRow (po_scope p) (identity (po_scope p)) account
         account_identity now 1))) policies) ;;
  mret retry_after.
End Reserve.

Section Rate.
Context (self : store).

Definition ascii_bytes (s : list Z) : result exc (list Z) :=
  if is_ascii s then Ok s else Err UnicodeEncodeError.

Definition _rate_identities (canonical_email normalized_ip : list Z)
  : result exc (RateScope → list Z) :=
  email_bytes ← ascii_bytes canonical_email;
  ip_bytes ← ascii_bytes normalized_ip;
  Ok (λ scope, match scope with
               | GLOBAL => _rate_digest self (u "global") (u "all")
               | IP => _rate_digest self (u "ip") ip_bytes
               | ACCOUNT => _rate_digest self (u "account") email_bytes
               | PAIR => _rate_digest self (u "pair") (email_bytes ++ [0] ++ ip_bytes)
               end).

(** Only the scopes of [_PASSKEY_LOGIN_RATE_POLICIES] are keys of the
    passkey dictionary; [None] is a missing key. *)
Definition _passkey_login_rate_identities (normalized_ip : list Z)
  : result exc (RateScope → option (list Z)) :=
  ip_bytes ← ascii_bytes normalized_ip;
  Ok (λ scope, match scope with
               | GLOBAL => Some (_rate_digest self (u "passkey-global") (u "all"))
               | IP => Some (_rate_digest self (u "passkey-ip") ip_bytes)
               | _ => None
               end).

Definition account_scope (scope : RateScope) : bool :=
  match scope with ACCOUNT | PAIR => true | _ => false end.

Definition login_link (account_id : option (list Z)) (account_identity : list Z)
    (scope : RateScope) : option (list Z) * option (list Z) :=
  if account_scope scope then (account_id, Some account_identity) else (None, None).

(** [if retry_after: raise LoginRateLimitedError(retry_after)]; the constructor
    stores at least one second. *)
Definition raise_if_limited (retry_after : Z) : M unit :=
  if retry_after =? 0 then mret tt else throw (LoginRateLimitedError (Z.max 1 retry_after)).

Definition check_login_rate (email client_ip : list Z) : M unit :=
  canonical ← lift (canonicalize_email email);
  normalized_ip ← lift (_canonical_ip self client_ip);
  now ← _now self;
  identities ← lift (_rate_identities canonical normalized_ip);
  retry_after ← _transaction (
    account_row ← _account_row_by_email_locked canonical;
    let account_id := a_id <$> account_row in
    reserve_attempt _RATE_POLICIES identities (login_link account_id (identities ACCOUNT)) now);
  raise_if_limited retry_after.

Definition record_login_result (email client_ip : list Z) (success : bool) : M unit :=
  canonical ← lift (canonicalize_email email);
  normalized_ip ← lift (_canonical_ip self client_ip);
  if negb success then mret tt
  else
    identities ← lift (_rate_identities canonical normalized_ip);
    _transaction (exec (delete_rate (λ r, l_scope r = PAIR ∧ l_identity r = identities PAIR))).

Definition check_passkey_login_rate (client_ip : list Z) : M unit :=
  normalized_ip ← lift (_canonical_ip self client_ip);
  now ← _now self;
  identities ← lift (_passkey_login_rate_identities normalized_ip);
  retry_after ← _transaction (
    reserve_attempt _PASSKEY_LOGIN_RATE_POLICIES (λ s, default [] (identities s))
      (λ _, (None, None)) now);
  raise_if_limited retry_after.

Definition record_passkey_login_result (client_ip : list Z) (success : bool) : M unit :=
  normalized_ip ← lift (_canonical_ip self client_ip);
  if negb success then mret tt
  else
    identities ← lift (_passkey_login_rate_identities normalized_ip);
    _transaction (exec (delete_rate
      (λ r, l_scope r = IP ∧ l_identity r = default [] (identities IP)))).
End Rate.
