(* ===== verification/AuthRules.v ===== *)
(** * [AuthStore]: mail rules and existing-mail rule runs

    The tables [mail_rules] and [mail_rule_runs] and every public method of
    [auth.py] over them. *)

From S2P Require Import Prelude Text Errors Sql Totp Identity Json AuthDb AuthCore AuthStore.

Record MailRuleRecord := MkMailRuleRecord {
  rule_id : list Z;
  rule_account_id : list Z;
  rule_name : list Z;
  rule_enabled : bool;
  rule_position : Z;
  rule_expression : json;
  rule_target_mailbox : list Z;
  rule_stop_processing : bool;
  rule_revision : Z;
  rule_created_at : Z;
  rule_updated_at : Z;
}.

Record MailRuleRun := MkMailRuleRun {
  run_id : list Z;
  run_account_id : list Z;
  run_rule_id : option (list Z);
  run_rule_revision : Z;
  run_rule_snapshot : json;
  run_state : json;
  run_status : RunStatus;
  run_scanned : Z;
  run_matched : Z;
  run_moved : Z;
  run_failed : Z;
  run_created_at : Z;
  run_started_at : option Z;
  run_updated_at : Z;
  run_finished_at : option Z;
  run_error_code : option (list Z);
}.

Definition final_status (s : RunStatus) : bool :=
  match s with COMPLETED | FAILED | CANCELLED => true | _ => false end.

Definition _normalize_mail_rule_name (value : list Z) : result exc (list Z) :=
  let normalized := strip value in
  if negb (len_between 1 128 normalized) || existsb is_control normalized
  then Err ValueError else Ok normalized.

Definition _normalize_mailbox_metadata (value : list Z) : result exc (list Z) :=
  if negb (len_between 1 255 value) || negb (str_eqb value (strip value)) || existsb is_control value
  then Err ValueError else Ok value.

(** The size test encodes outside the [try]: a lone surrogate is
    UnicodeEncodeError, which is a ValueError too. *)
Definition _canonical_json_object (value : json) (maximum_bytes : Z) : result exc (list Z) :=
  match value with
  | JObj _ =>
      match dumps true value with
      | None => Err ValueError
      | Some encoded =>
          match utf8_encode encoded with
          | None => Err UnicodeEncodeError
          | Some bytes_ => if len_between 2 maximum_bytes bytes_ then Ok encoded else Err ValueError
          end
      end
  | _ => Err ValueError
  end.

Section Rules.
Context (self : store).

Definition strict_hooks : hooks :=
  Hooks default_int (λ s, Some (JFloat (py_float self s))) default_constant unique_pairs.

Definition _json_object_from_database (value : list Z) : result exc json :=
  match loads strict_hooks value with
  | Some (JObj kvs) => Ok (JObj kvs)
  | _ => Err AuthenticationDataError
  end.

Definition validate_hex32 (value : list Z) : result exc (list Z) :=
  if is_hex32 value then Ok value else Err ValueError.

Definition _mail_rule_from_row (r : rule_row) : result exc MailRuleRecord :=
  rid ← validate_hex32 (mr_id r);
  account ← validate_hex32 (mr_account r);
  name ← _normalize_mail_rule_name (mr_name r);
  expression ← _json_object_from_database (mr_expression r);
  target ← _normalize_mailbox_metadata (mr_target r);
  Ok (MkMailRuleRecord rid account name (mr_enabled r) (mr_position r) expression target
        (mr_stop r) (mr_revision r) (mr_created r) (mr_updated r)).

Definition _mail_rule_run_from_row (r : run_row) : result exc MailRuleRun :=
  rid ← validate_hex32 (ru_id r);
  account ← validate_hex32 (ru_account r);
  rule ← match ru_rule r with
         | None => Ok None
         | Some i => i ← validate_hex32 i; Ok (Some i)
         end;
  snapshot ← _json_object_from_database (ru_snapshot r);
  state ← _json_object_from_database (ru_state r);
  Ok (MkMailRuleRun rid account rule (ru_revision r) snapshot state (ru_status r) (ru_scanned r)
        (ru_matched r) (ru_moved r) (ru_failed r) (ru_created r) (ru_started r) (ru_updated r)
        (ru_finished r) (ru_error r)).

(** ** Rules *)

(** ORDER BY position, rule_id. *)
Definition rule_position_key (r : rule_row) : list Z := mr_position r :: mr_id r.

Definition account_rules (account_id : list Z) (d : db) : list rule_row :=
  order_by rule_position_key (select_where (λ r, mr_account r = account_id) (mail_rules d)).

Definition rule_at (account_id rid : list Z) (r : rule_row) : Prop :=
  mr_account r = account_id ∧ mr_id r = rid.
#[export] Instance rule_at_dec a i r : Decision (rule_at a i r).
Proof. unfold rule_at. apply _. Defined.

Definition list_mail_rules (account_id : list Z) : M (list MailRuleRecord) :=
  normalized_id ← _validate_account_id account_id;
  rows ← locked (_require_account_by_id_locked normalized_id ;; query (account_rules normalized_id));
  lift (result_map _mail_rule_from_row rows).

Definition get_mail_rule (account_id rid : list Z) : M MailRuleRecord :=
  normalized_id ← _validate_account_id account_id;
  normalized_rule ← _validate_mail_rule_id rid;
  row ← locked (query (λ d, lookup_where (rule_at normalized_id normalized_rule) (mail_rules d)));
  match row with
  | None => throw MailRuleNotFoundError
  | Some r => lift (_mail_rule_from_row r)
  end.

(** COALESCE(MAX(position), -1) + 1. *)
Definition next_position (account_id : list Z) (d : db) : Z :=
  foldr Z.max (-1) (mr_position <$> select_where (λ r, mr_account r = account_id) (mail_rules d)) + 1.

(** The statements [create_mail_rule] and [create_mail_rule_with_run] share. *)
Definition insert_mail_rule_locked (account_id name : list Z) (enabled : bool)
    (expression target : list Z) (stop : bool) (now : Z) : M MailRuleRecord :=
  _require_account_by_id_locked account_id ;;
  count ← query (λ d, count_where (λ r, mr_account r = account_id) (mail_rules d));
  require (count <? _MAX_MAIL_RULES_PER_ACCOUNT) MailRuleLimitError ;;
  position ← query (next_position account_id);
  rid ← _new_mail_rule_id_locked self;
  exec_checked (insert_rule
    (RuleRow rid account_id name enabled position expression target stop 1 now now)) ;;
  row ← query (λ d, lookup_where (λ r, mr_id r = rid) (mail_rules d));
  row ← _required_row row;
  lift (_mail_rule_from_row row).

(** In [create_mail_rule] the row is converted after the commit. *)
Definition create_mail_rule (account_id name : list Z) (enabled : bool) (expression : json)
    (target_mailbox : list Z) (stop_processing : bool) : M MailRuleRecord :=
  normalized_id ← _validate_account_id account_id;
  normalized_name ← lift (_normalize_mail_rule_name name);
  normalized_expression ← lift (_canonical_json_object expression _MAX_MAIL_RULE_EXPRESSION_BYTES);
  normalized_target ← lift (_normalize_mailbox_metadata target_mailbox);
  now ← _now self;
  row ← _transaction (
    _require_account_by_id_locked normalized_id ;;
    count ← query (λ d, count_where (λ r, mr_account r = normalized_id) (mail_rules d));
    require (count <? _MAX_MAIL_RULES_PER_ACCOUNT) MailRuleLimitError ;;
    position ← query (next_position normalized_id);
    rid ← _new_mail_rule_id_locked self;
    exec_checked (insert_rule (RuleRow rid normalized_id normalized_name enabled position
      normalized_expression normalized_target stop_processing 1 now now)) ;;
    query (λ d, lookup_where (λ r, mr_id r = rid) (mail_rules d)));
  row ← _required_row row;
  lift (_mail_rule_from_row row).

Definition set_rule (name : list Z) (enabled : bool) (expression target : list Z) (stop : bool)
    (now : Z) (r : rule_row) : rule_row :=
  RuleRow (mr_id r) (mr_account r) name enabled (mr_position r) expression target stop
    (mr_revision r + 1) (mr_created r) now.

Definition rule_at_revision (account_id rid : list Z) (revision : Z) (r : rule_row) : Prop :=
  mr_account r = account_id ∧ mr_id r = rid ∧ mr_revision r = revision.
#[export] Instance rule_at_revision_dec a i n r : Decision (rule_at_revision a i n r).
Proof. unfold rule_at_revision. apply _. Defined.

Definition update_mail_rule (account_id rid : list Z) (expected_revision : Z) (name : list Z)
    (enabled : bool) (expression : json) (target_mailbox : list Z) (stop_processing : bool)
  : M MailRuleRecord :=
  normalized_id ← _validate_account_id account_id;
  normalized_rule ← _validate_mail_rule_id rid;
  require (1 <=? expected_revision) ValueError ;;
  normalized_name ← lift (_normalize_mail_rule_name name);
  normalized_expression ← lift (_canonical_json_object expression _MAX_MAIL_RULE_EXPRESSION_BYTES);
  normalized_target ← lift (_normalize_mailbox_metadata target_mailbox);
  now ← _now self;
  row ← _transaction (
    changed ← query (λ d, count_where
      (rule_at_revision normalized_id normalized_rule expected_revision) (mail_rules d));
    exec_checked (update_rules (rule_at_revision normalized_id normalized_rule expected_revision)
      (set_rule normalized_name enabled normalized_expression normalized_target stop_processing
         now)) ;;
    (if negb (changed =? 1) then
       exists_ ← query (λ d, lookup_where (rule_at normalized_id normalized_rule) (mail_rules d));
       match exists_ with
       | None => throw MailRuleNotFoundError
       | Some _ => throw MailRuleConflictError
       end
     else mret tt) ;;
    query (λ d, lookup_where (λ r, mr_id r = normalized_rule) (mail_rules d)));
  row ← _required_row row;
  lift (_mail_rule_from_row row).

Definition set_position (p : Z) (r : rule_row) : rule_row :=
  RuleRow (mr_id r) (mr_account r) (mr_name r) (mr_enabled r) p (mr_expression r) (mr_target r)
    (mr_stop r) (mr_revision r) (mr_created r) (mr_updated r).

Definition set_position_at (p now : Z) (r : rule_row) : rule_row :=
  RuleRow (mr_id r) (mr_account r) (mr_name r) (mr_enabled r) p (mr_expression r) (mr_target r)
    (mr_stop r) (mr_revision r) (mr_created r) now.

Definition POSITION_SHIFT : Z := 1000.

(** UPDATE mail_rules SET position = position + 1000 WHERE account_id = ?. *)
Definition shift_positions (account_id : list Z) : M unit :=
  exec_checked (update_rules (λ r, mr_account r = account_id)
    (λ r, set_position (mr_position r + POSITION_SHIFT) r)).

Definition enumerate {A} (l : list A) : list (Z * A) := imap (λ i x, (Z.of_nat i, x)) l.

Definition _compact_mail_rule_positions_locked (account_id : list Z) : M unit :=
  rows ← query (account_rules account_id);
  shift_positions account_id ;;
  eff_iter (λ '(position, row),
    exec_checked (update_rules (λ r, mr_id r = mr_id row) (set_position position)))
    (enumerate rows).

Definition delete_mail_rule (account_id rid : list Z) : M unit :=
  normalized_id ← _validate_account_id account_id;
  normalized_rule ← _validate_mail_rule_id rid;
  _transaction (
    deleted ← query (λ d, count_where (rule_at normalized_id normalized_rule) (mail_rules d));
    exec (delete_rules (rule_at normalized_id normalized_rule)) ;;
    require (deleted =? 1) MailRuleNotFoundError ;;
    _compact_mail_rule_positions_locked normalized_id).

Definition same_set (a b : list (list Z)) : bool :=
  forallb (λ x, bool_decide (x ∈ b)) a && forallb (λ x, bool_decide (x ∈ a)) b.

Definition reorder_mail_rules (account_id : list Z) (rule_ids : list (list Z)) : M unit :=
  normalized_id ← _validate_account_id account_id;
  normalized_rules ← eff_map _validate_mail_rule_id rule_ids;
  require (bool_decide (NoDup normalized_rules)) ValueError ;;
  _transaction (
    current ← query (λ d, mr_id <$> select_where (λ r, mr_account r = normalized_id) (mail_rules d));
    require (same_set normalized_rules current) ValueError ;;
    shift_positions normalized_id ;;
    now ← _now self;
    eff_iter (λ '(position, normalized_rule),
      exec_checked (update_rules (rule_at normalized_id normalized_rule)
                      (set_position_at position now)))
      (enumerate normalized_rules)).

Definition mailbox_rule_reference_count (account_id mailbox : list Z) : M Z :=
  normalized_id ← _validate_account_id account_id;
  normalized_mailbox ← lift (_normalize_mailbox_metadata mailbox);
  locked (query (λ d, count_where
    (λ r, mr_account r = normalized_id ∧ mr_target r = normalized_mailbox) (mail_rules d))).

(** ** Runs *)

Definition account_active_run (account_id : list Z) (r : run_row) : Prop :=
  ru_account r = account_id ∧ run_active r = true.
#[export] Instance account_active_run_dec a r : Decision (account_active_run a r).
Proof. unfold account_active_run. apply _. Defined.

Definition account_final_run (account_id : list Z) (r : run_row) : Prop :=
  ru_account r = account_id ∧ final_status (ru_status r) = true.
#[export] Instance account_final_run_dec a r : Decision (account_final_run a r).
Proof. unfold account_final_run. apply _. Defined.

Definition run_at (account_id rid : list Z) (r : run_row) : Prop :=
  ru_account r = account_id ∧ ru_id r = rid.
#[export] Instance run_at_dec a i r : Decision (run_at a i r).
Proof. unfold run_at. apply _. Defined.

Definition run_age_key (r : run_row) : list Z := ru_created r :: ru_id r.

(** DELETE ... WHERE run_id IN (SELECT ... ORDER BY created_at DESC, run_id
    DESC LIMIT -1 OFFSET n): everything past the [n] most recent final runs. *)
Definition prune_runs (account_id : list Z) (d : db) : db :=
  let doomed := ru_id <$> offset (_MAX_MAIL_RULE_RUNS_PER_ACCOUNT - 1)
                  (order_by_desc run_age_key
                     (select_where (account_final_run account_id) (mail_runs d))) in
  delete_runs (λ r, ru_id r ∈ doomed) d.

Definition new_run (rid account_id rule : list Z) (revision : Z) (snapshot state : list Z)
    (status : RunStatus) (now : Z) (finished : option Z) : run_row :=
  RunRow rid account_id (Some rule) revision snapshot state status 0 0 0 0 now None now finished
    None.

(** The statements that start a run, shared by the two methods. *)
Definition start_run_locked (account_id rule : list Z) (revision : Z) (snapshot state : list Z)
    (status : RunStatus) (now : Z) (finished : option Z) : M (option run_row) :=
  active ← query (λ d, lookup_where (account_active_run account_id) (mail_runs d));
  match active with
  | Some _ => throw MailRuleConflictError
  | None =>
      exec (prune_runs account_id) ;;
      rid ← _new_mail_rule_run_id_locked self;
      exec_checked (insert_run (new_run rid account_id rule revision snapshot state status now
                                  finished)) ;;
      query (λ d, lookup_where (λ r, ru_id r = rid) (mail_runs d))
  end.

Definition rule_snapshot_object (rule : MailRuleRecord) : json :=
  JObj [(u "rule_id", JStr (rule_id rule)); (u "rule_name", JStr (rule_name rule));
        (u "condition", rule_expression rule);
        (u "target_mailbox", JStr (rule_target_mailbox rule));
        (u "revision", JInt (rule_revision rule))].

Definition create_mail_rule_with_run (account_id name : list Z) (enabled : bool)
    (expression : json) (target_mailbox : list Z) (stop_processing : bool) (run_state : json)
    (run_completed : bool) : M (MailRuleRecord * MailRuleRun) :=
  normalized_id ← _validate_account_id account_id;
  normalized_name ← lift (_normalize_mail_rule_name name);
  normalized_expression ← lift (_canonical_json_object expression _MAX_MAIL_RULE_EXPRESSION_BYTES);
  normalized_target ← lift (_normalize_mailbox_metadata target_mailbox);
  state_json ← lift (_canonical_json_object run_state _MAX_MAIL_RULE_STATE_BYTES);
  now ← _now self;
  _transaction (
    rule ← insert_mail_rule_locked normalized_id normalized_name enabled normalized_expression
      normalized_target stop_processing now;
    snapshot_json ← lift (_canonical_json_object (rule_snapshot_object rule)
      _MAX_MAIL_RULE_STATE_BYTES);
    run_row_ ← start_run_locked normalized_id (rule_id rule) (rule_revision rule) snapshot_json
      state_json (if run_completed then COMPLETED else QUEUED) now
      (if run_completed then Some now else None);
    run_row_ ← _required_row run_row_;
    run ← lift (_mail_rule_run_from_row run_row_);
    mret (rule, run)).

Definition create_mail_rule_run (account_id rid : list Z) (rule_snapshot state : json)
  : M MailRuleRun :=
  normalized_id ← _validate_account_id account_id;
  normalized_rule ← _validate_mail_rule_id rid;
  snapshot_json ← lift (_canonical_json_object rule_snapshot _MAX_MAIL_RULE_STATE_BYTES);
  state_json ← lift (_canonical_json_object state _MAX_MAIL_RULE_STATE_BYTES);
  now ← _now self;
  row ← _transaction (
    rule_row_ ← query (λ d, lookup_where (rule_at normalized_id normalized_rule) (mail_rules d));
    match rule_row_ with
    | None => throw MailRuleNotFoundError
    | Some r => start_run_locked normalized_id normalized_rule (mr_revision r) snapshot_json
                  state_json QUEUED now None
    end);
  row ← _required_row row;
  lift (_mail_rule_run_from_row row).

Definition get_active_mail_rule_run (account_id : list Z) : M (option MailRuleRun) :=
  normalized_id ← _validate_account_id account_id;
  row ← locked (
    _require_account_by_id_locked normalized_id ;;
    query (λ d, head (order_by_desc run_age_key
                  (select_where (account_active_run normalized_id) (mail_runs d)))));
  match row with
  | None => mret None
  | Some r => run ← lift (_mail_rule_run_from_row r); mret (Some run)
  end.

Definition get_mail_rule_run (account_id rid : list Z) : M MailRuleRun :=
  normalized_id ← _validate_account_id account_id;
  normalized_run ← _validate_mail_rule_run_id rid;
  row ← locked (query (λ d, lookup_where (run_at normalized_id normalized_run) (mail_runs d)));
  match row with
  | None => throw MailRuleNotFoundError
  | Some r => lift (_mail_rule_run_from_row r)
  end.

Definition error_code_ok (e : list Z) : bool :=
  let bare := replace_char 95 [] e in
  len_between 1 64 e && negb (bool_decide (bare = [])) && forallb (unicode_isalnum self) bare.

Definition set_run (state : list Z) (status : RunStatus) (scanned matched moved failed : Z)
    (started : option Z) (now : Z) (finished : option Z) (error : option (list Z)) (r : run_row)
  : run_row :=
  RunRow (ru_id r) (ru_account r) (ru_rule r) (ru_revision r) (ru_snapshot r) state status
    scanned matched moved failed (ru_created r) started now finished error.

Definition update_mail_rule_run (account_id rid : list Z) (state : json) (status : RunStatus)
    (scanned matched moved failed : Z) (error_code : option (list Z)) : M MailRuleRun :=
  normalized_id ← _validate_account_id account_id;
  normalized_run ← _validate_mail_rule_run_id rid;
  require ((0 <=? scanned) && (0 <=? matched) && (0 <=? moved) && (0 <=? failed)) ValueError ;;
  require (match error_code with None => true | Some e => error_code_ok e end) ValueError ;;
  state_json ← lift (_canonical_json_object state _MAX_MAIL_RULE_STATE_BYTES);
  now ← _now self;
  row ← _transaction (
    current ← query (λ d, lookup_where (run_at normalized_id normalized_run) (mail_runs d));
    match current with
    | None => throw MailRuleNotFoundError
    | Some r =>
        if final_status (ru_status r) then throw MailRuleConflictError
        else
          let started := match status, ru_started r with
                         | RUNNING, None => Some now
                         | _, started => started
                         end in
          let finished := if final_status status then Some now else None in
          exec_checked (update_runs (run_at normalized_id normalized_run)
            (set_run state_json status scanned matched moved failed started now finished
               error_code)) ;;
          query (λ d, lookup_where (λ r, ru_id r = normalized_run) (mail_runs d))
    end);
  row ← _required_row row;
  lift (_mail_rule_run_from_row row).

Definition cancel_mail_rule_run (account_id rid : list Z) : M MailRuleRun :=
  current ← get_mail_rule_run account_id rid;
  update_mail_rule_run account_id rid (run_state current) CANCELLED (run_scanned current)
    (run_matched current) (run_moved current) (run_failed current) None.
End Rules.
