(* ===== verification/AuthDemo.v ===== *)
(** * A concrete store

    The instance the witnesses run on: a clock that advances one second per
    reading, a random source whose n-th draw repeats the byte n, ciphertexts
    equal to their plaintexts, and a [webauthn] package that accepts everything.
    [demo_n] are the worlds after a registration, an enrollment and a login. *)

From S2P Require Import Prelude Text Errors Sql Totp Identity Json AuthDb AuthCore AuthStore AuthPasskey AuthRate AuthRules.

Definition demo_store : store :=
  Store (u "MaddyWeb") (Some (u "mail.example.org")) (Some (u "https://mail.example.org"))
    (replicate 32 7) (λ n, Finite (1700000000 + Z.of_nat n) 1)
    (λ n len, replicate (Z.to_nat len) (Z.of_nat n mod 256))
    (λ _ _ plain _, plain) (λ _ _ cipher _, Some cipher) Some (λ s, FFinite s) is_alnum.

Definition demo_credential : list Z := [1; 2; 3].

Definition demo_webauthn : webauthn :=
  WebAuthn (λ _, Ok (JObj [])) (λ _, Ok (JObj []))
    (λ _, Ok (RegistrationCredential demo_credential None))
    (λ _, Ok (AuthenticationCredential demo_credential None))
    (λ c _ _ _, Ok (MkVerifiedRegistration (rg_raw_id c) [9] 0 SINGLE_DEVICE false true))
    (λ c _ _ _ _ n, Ok (MkVerifiedAuthentication (au_raw_id c) (n + 1) SINGLE_DEVICE false true)).

Definition value_of {A} (default_ : A) (r : result exc A) : A :=
  match r with Ok a => a | Err _ => default_ end.

Definition demo_email : list Z := u "user@example.org".

Definition demo_0 : world := World empty_db 0 0 false.

Definition demo_create : M account_row := create_account demo_store demo_email USER true.
Definition demo_1 : world := (demo_create demo_0).2.
Definition demo_account : list Z := hex (replicate 16 0).

Definition demo_challenge : M (list Z) := create_pending_challenge demo_store demo_email.
Definition demo_2 : world := (demo_challenge demo_1).2.
Definition demo_token : list Z := value_of [] (demo_challenge demo_1).1.

Definition demo_begin : M (list Z * list Z) := begin_totp_enrollment demo_store demo_token.
Definition demo_3 : world := (demo_begin demo_2).2.
Definition demo_secret : list Z := replicate 20 2.

(** The code of the current step at the reading the next call takes. *)
Definition demo_code (w : world) : list Z :=
  _totp_for_counter demo_secret ((1700000000 + Z.of_nat (w_clock w)) / 30).

Definition demo_confirm : M ((list Z * principal) * list (list Z)) :=
  confirm_totp_enrollment demo_store demo_token (demo_code demo_3) None None.
Definition demo_4 : world := (demo_confirm demo_3).2.

Definition session_token (r : result exc ((list Z * principal) * list (list Z))) : list Z :=
  match r with Ok (s, _) => s.1 | Err _ => [] end.
Definition recovery_of (r : result exc ((list Z * principal) * list (list Z))) : list (list Z) :=
  match r with Ok (_, codes) => codes | Err _ => [] end.

Definition demo_session : list Z := session_token (demo_confirm demo_3).1.
Definition demo_recovery : list (list Z) := recovery_of (demo_confirm demo_3).1.

(** Later calls: a step-up and an authentication of the session, a second login
    by TOTP (the code of the next step, still inside the window), by a recovery
    code and with a wrong code, and two verifications thirty seconds apart. *)
Definition demo_next_code (w : world) : list Z :=
  _totp_for_counter demo_secret ((1700000000 + Z.of_nat (w_clock w)) / 30 + 1).

Definition later (n : nat) (w : world) : world :=
  World (w_db w) (w_clock w + n) (w_random w) (w_closed w).

Notation demo_step_up :=
  (mark_step_up demo_store demo_session) (only parsing).
Notation demo_auth :=
  (authenticate_session demo_store demo_session true) (only parsing).

Definition demo_5 : world := (demo_challenge demo_4).2.
Definition demo_token2 : list Z := value_of [] (demo_challenge demo_4).1.
Notation demo_totp :=
  (complete_totp_challenge demo_store demo_token2 (demo_next_code demo_5) None None) (only parsing).
Notation demo_wrong :=
  (complete_totp_challenge demo_store demo_token2 (u "000000") None None) (only parsing).
Notation demo_by_code :=
  (complete_recovery_challenge demo_store demo_token2 (default [] (head demo_recovery)) None None) (only parsing).

Notation demo_verify :=
  (verify_totp demo_store demo_account (demo_next_code demo_4)) (only parsing).
Definition demo_6 : world := later 30 (demo_verify demo_4).2.
Notation demo_verify2 :=
  (verify_totp demo_store demo_account (demo_next_code demo_6)) (only parsing).

Definition second_factor_error {A} (r : result exc A) : bool :=
  match r with Err InvalidSecondFactorError => true | _ => false end.

Example demo_runs :
  ([is_ok (demo_create demo_0).1; is_ok (demo_challenge demo_1).1; is_ok (demo_begin demo_2).1;
    is_ok (demo_confirm demo_3).1],
   (zlen (sessions (w_db demo_4)), zlen (recovery_codes (w_db demo_4)), zlen demo_session))
  = ([true; true; true; true], (1, 10, 43)).
Proof. vm_compute. reflexivity. Qed.

Example demo_outcomes :
  is_ok (demo_step_up demo_4).1 = true ∧ is_ok (demo_auth demo_4).1 = true
  ∧ is_ok (demo_totp demo_5).1 = true ∧ second_factor_error (demo_wrong demo_5).1 = true
  ∧ is_ok (demo_by_code demo_5).1 = true ∧ is_ok (demo_verify demo_4).1 = true
  ∧ is_ok (demo_verify2 demo_6).1 = true ∧ w_closed demo_4 = false.
Proof. vm_compute. repeat split. Qed.

(** Reading an outcome back as a run. *)
Lemma ok_run {A} (m : M A) w : is_ok (m w).1 = true → ∃ a, m w = (Ok a, (m w).2).
Proof. destruct (m w) as [[a|e] w']; [eauto|done]. Qed.

Lemma second_factor_run {A} (m : M A) w :
  second_factor_error (m w).1 = true → m w = (Err InvalidSecondFactorError, (m w).2).
Proof. by destruct (m w) as [[a|[]] w']. Qed.
