(* ===== verification/AuthWp.v ===== *)
(** * Program logic for the store monad

    [wp m Q X d]: run from any world whose database is [d], if [m] returns [a]
    leaving the database [d'] then [Q a d'], and if it raises [e] leaving [d']
    then [X e d'].  The clock, the random source and the open flag are
    quantified away, so a fact proved through [wp] holds of every schedule of
    clock readings and random draws. *)

From S2P Require Import Prelude Text Errors Sql AuthDb.

Definition wp {A} (m : M A) (Q : A → db → Prop) (X : exc → db → Prop) (d : db) : Prop :=
  ∀ w r w', w_db w = d → m w = (r, w') →
    match r with Ok a => Q a (w_db w') | Err e => X e (w_db w') end.

(** Code that never touches the database. *)
Definition readonly {A} (m : M A) : Prop := ∀ w r w', m w = (r, w') → w_db w' = w_db w.

Section Rules.
Context {A B : Type}.
Implicit Types (Q : A → db → Prop) (X : exc → db → Prop) (d : db).

Lemma wp_mono (m : M A) Q Q' X X' d :
  wp m Q X d → (∀ a d', Q a d' → Q' a d') → (∀ e d', X e d' → X' e d') → wp m Q' X' d.
Proof. intros Hm HQ HX w r w' Hw Hr. specialize (Hm w r w' Hw Hr). destruct r; auto. Qed.

Lemma wp_and (m : M A) Q Q' X X' d :
  wp m Q X d → wp m Q' X' d → wp m (λ a d, Q a d ∧ Q' a d) (λ e d, X e d ∧ X' e d) d.
Proof.
  intros H1 H2 w r w' Hw Hr. specialize (H1 w r w' Hw Hr). specialize (H2 w r w' Hw Hr).
  destruct r; auto.
Qed.

Lemma wp_ret (a : A) Q X d : Q a d → wp (mret a) Q X d.
Proof. intros HQ w r w' <- [= <- <-]. done. Qed.

Lemma wp_throw e Q X d : X e d → wp (throw e : M A) Q X d.
Proof. intros HX w r w' <- [= <- <-]. done. Qed.

Lemma wp_bind (m : M A) (f : A → M B) (Q : B → db → Prop) X d :
  wp m (λ a, wp (f a) Q X) X d → wp (m ≫= f) Q X d.
Proof.
  intros Hm w r w' Hw. unfold mbind, eff_mbind, eff_bind.
  destruct (m w) as [[a|e] w1] eqn:Em; intros Hr.
  - specialize (Hm w (Ok a) w1 Hw Em). simpl in Hm. by eapply Hm.
  - injection Hr as <- <-. by specialize (Hm w (Err e) w1 Hw Em).
Qed.

Lemma wp_query (f : db → A) Q X d : Q (f d) d → wp (query f) Q X d.
Proof. intros HQ w r w' <- [= <- <-]. done. Qed.

Lemma wp_lift (r : result exc A) Q X d :
  (∀ a, r = Ok a → Q a d) → (∀ e, r = Err e → X e d) → wp (lift r) Q X d.
Proof. intros HQ HX w r' w' <- [= <- <-]. destruct r; auto. Qed.

Lemma wp_readonly (m : M A) Q X d :
  readonly m → (∀ a, Q a d) → (∀ e, X e d) → wp m Q X d.
Proof. intros Hm HQ HX w r w' <- Hr. rewrite (Hm _ _ _ Hr). destruct r; auto. Qed.

Lemma wp_attempt (classes : exc → bool) (m : M A) (Q : option A → db → Prop) X d :
  wp m (λ a, Q (Some a)) (λ e d', if classes e then Q None d' else X e d') d →
  wp (attempt classes m) Q X d.
Proof.
  intros Hm w r w' Hw. unfold attempt. destruct (m w) as [[a|e] w1] eqn:Em.
  - intros [= <- <-]. by specialize (Hm w _ w1 Hw Em).
  - specialize (Hm w _ w1 Hw Em). simpl in Hm.
    destruct (classes e); by intros [= <- <-].
Qed.

(** A rolled-back transaction leaves the database it started from. *)
Lemma wp_transaction (m : M A) Q X d :
  wp m Q (λ e _, X e d) d → X RuntimeError d → wp (_transaction m) Q X d.
Proof.
  intros Hm HX w r w' Hw. unfold _transaction.
  destruct (w_closed w); [intros [= <- <-]; by rewrite Hw|].
  destruct (m w) as [[a|e] w1] eqn:Em; intros [= <- <-].
  - by specialize (Hm w _ w1 Hw Em).
  - specialize (Hm w _ w1 Hw Em). simpl in *. by rewrite Hw.
Qed.

Lemma readonly_ret (a : A) : readonly (mret a).
Proof. by intros w r w' [= <- <-]. Qed.

Lemma readonly_throw e : readonly (throw e : M A).
Proof. by intros w r w' [= <- <-]. Qed.

Lemma readonly_query (f : db → A) : readonly (query f).
Proof. by intros w r w' [= <- <-]. Qed.

Lemma readonly_lift (r : result exc A) : readonly (lift r).
Proof. by intros w r' w' [= <- <-]. Qed.

Lemma readonly_bind (m : M A) (f : A → M B) :
  readonly m → (∀ a, readonly (f a)) → readonly (m ≫= f).
Proof.
  intros Hm Hf w r w'. unfold mbind, eff_mbind, eff_bind.
  destruct (m w) as [[a|e] w1] eqn:Em; intros Hr.
  - rewrite (Hf _ _ _ _ Hr). eauto.
  - injection Hr as <- <-. eauto.
Qed.

Lemma readonly_require b e : readonly (require b e : M unit).
Proof. unfold require. destruct b; [by intros w r w' [= <- <-]|by intros w r w' [= <- <-]]. Qed.

Lemma readonly_open : readonly _require_open.
Proof. intros w r w'. unfold _require_open. destruct (w_closed w); by intros [= <- <-]. Qed.
End Rules.

Lemma wp_exec f (Q : unit → db → Prop) X d : Q tt (f d) → wp (exec f) Q X d.
Proof. intros HQ w r w' <- [= <- <-]. done. Qed.

Lemma wp_exec_checked f (Q : unit → db → Prop) X d :
  (∀ d', f d = Some d' → Q tt d') → (f d = None → X IntegrityError d) →
  wp (exec_checked f) Q X d.
Proof.
  intros HQ HX w r w' <-. unfold exec_checked.
  destruct (f (w_db w)) eqn:E; intros [= <- <-]; auto.
Qed.

Lemma wp_require b e (Q : unit → db → Prop) X d :
  (b = true → Q tt d) → (b = false → X e d) → wp (require b e) Q X d.
Proof. destruct b; intros HQ HX; [apply wp_ret|apply wp_throw]; auto. Qed.

Lemma wp_when b (m : M unit) (Q : unit → db → Prop) X d :
  (b = true → wp m Q X d) → (b = false → Q tt d) → wp (when b m) Q X d.
Proof. destruct b; intros Hm HQ; [by apply Hm|apply wp_ret; auto]. Qed.

(** Loops: an invariant of the database. *)
Lemma wp_iter {A} (I : db → Prop) (f : A → M unit) l X d :
  I d → (∀ x d, x ∈ l → I d → wp (f x) (λ _, I) X d) →
  wp (eff_iter f l) (λ _, I) X d.
Proof.
  revert d. induction l as [|x l IH]; intros d Hd Hf; simpl; [by apply wp_ret|].
  apply wp_bind. eapply wp_mono; [apply Hf; [left|done]| |done].
  intros ? d' Hd'. apply IH; [done|]. intros y d2 Hy. apply Hf. by right.
Qed.

Lemma wp_map {A B} (I : db → Prop) (f : A → M B) l X d :
  I d → (∀ x d, x ∈ l → I d → wp (f x) (λ _, I) X d) →
  wp (eff_map f l) (λ _, I) X d.
Proof.
  revert d. induction l as [|x l IH]; intros d Hd Hf; simpl; [by apply wp_ret|].
  apply wp_bind. eapply wp_mono; [apply Hf; [left|done]| |done].
  intros y d' Hd'. apply wp_bind. eapply wp_mono; [apply IH; [done|]| |done].
  - intros z d2 Hz. apply Hf. by right.
  - intros ys d2 Hd2. by apply wp_ret.
Qed.

Create HintDb readonly discriminated.
#[export] Hint Resolve readonly_ret readonly_throw readonly_query readonly_lift readonly_bind
  readonly_require readonly_open : readonly.

Lemma readonly_iter {A} (f : A → M unit) l : (∀ x, readonly (f x)) → readonly (eff_iter f l).
Proof. intros Hf. induction l; simpl; auto with readonly. Qed.

Lemma readonly_map {A B} (f : A → M B) l : (∀ x, readonly (f x)) → readonly (eff_map f l).
Proof. intros Hf. induction l; simpl; auto 10 with readonly. Qed.
#[export] Hint Resolve readonly_iter readonly_map : readonly.

(** Solve [readonly m] by following the program text. *)
Ltac solve_readonly :=
  repeat first
    [ solve [auto with readonly nocore]
    | progress intros
    | progress autounfold with readonly
    | apply readonly_bind
    | apply readonly_map
    | apply readonly_iter
    | match goal with |- readonly (match ?x with _ => _ end) => destruct x end
    | match goal with |- readonly (if ?x then _ else _) => destruct x end
    | match goal with |- readonly (let '_ := ?x in _) => destruct x end ].

(** Symbolic execution: one step of the program at the head of a [wp] goal. *)
Ltac wp_step :=
  lazymatch goal with
  | |- wp (_ ≫= _) _ _ _ => apply wp_bind
  | |- wp (mret _) _ _ _ => apply wp_ret
  | |- wp (throw _) _ _ _ => apply wp_throw
  | |- wp (query _) _ _ _ => apply wp_query
  | |- wp (exec _) _ _ _ => apply wp_exec
  | |- wp (exec_checked _) _ _ _ =>
      apply wp_exec_checked; [intros ? ?|intros ?]
  | |- wp (lift _) _ _ _ => apply wp_lift; [intros ? ?|intros ? ?]
  | |- wp (require _ _) _ _ _ => apply wp_require; intros ?
  | |- wp (when _ _) _ _ _ => apply wp_when; intros ?
  | |- wp (_transaction _) _ _ _ => apply wp_transaction
  | |- wp (attempt _ _) _ _ _ => apply wp_attempt
  | |- wp (match ?x with _ => _ end) _ _ _ => destruct x eqn:?
  | |- wp (let _ := _ in _) _ _ _ => cbv zeta
  | |- _ → _ => intros ?
  | |- ∀ _, _ => intros ?
  end.
Ltac wp_steps := repeat (wp_step; cbv beta).
