(* ===== verification/AuthInv.v ===== *)
(** * The integrity invariant of the authentication database

    [wf d]: every CHECK, PRIMARY KEY, UNIQUE and FOREIGN KEY constraint of the
    schema, and what the schema cannot say: the per-account and global caps, the
    failure counters below their limit, the lifetime of sessions, and that a
    pending enrollment is owned by a live challenge of the same account.  One
    preservation lemma per statement of [AuthDb]. *)

From S2P Require Import Prelude Text Errors Sql AuthDb AuthCore AuthPasskey AuthRate AuthRules.

#[local] Set Default Proof Using "Type*".

(** ** Uniqueness constraints *)

Lemma str_eqb_sym a b : str_eqb a b = str_eqb b a.
Proof. unfold str_eqb. apply bool_decide_ext. split; congruence. Qed.

Definition rate_conflict (r r' : rate_row) : bool := rate_key_eqb (l_scope r') (l_identity r') r.

Lemma account_conflict_sym : sym_conflict account_conflict.
Proof.
  intros r r'. unfold account_conflict.
  by rewrite (str_eqb_sym (a_id r)), (str_eqb_sym (a_email r)).
Qed.

Lemma recovery_conflict_sym : sym_conflict recovery_conflict.
Proof.
  intros r r'. unfold recovery_conflict.
  by rewrite (str_eqb_sym (rc_account r)), (str_eqb_sym (rc_digest r)).
Qed.

Lemma challenge_conflict_sym : sym_conflict challenge_conflict.
Proof. intros r r'. apply str_eqb_sym. Qed.

Lemma session_conflict_sym : sym_conflict session_conflict.
Proof.
  intros r r'. unfold session_conflict. rewrite (str_eqb_sym (s_digest r)).
  destruct (s_id r), (s_id r'); try done. f_equal. apply str_eqb_sym.
Qed.

Lemma rate_conflict_sym : sym_conflict rate_conflict.
Proof.
  intros r r'. unfold rate_conflict, rate_key_eqb. rewrite str_eqb_sym.
  f_equal. apply bool_decide_ext. split; congruence.
Qed.

Lemma passkey_conflict_sym : sym_conflict passkey_conflict.
Proof.
  intros r r'. unfold passkey_conflict.
  by rewrite (str_eqb_sym (p_credential r)), (str_eqb_sym (p_public_id r)).
Qed.

Lemma passkey_challenge_conflict_sym : sym_conflict passkey_challenge_conflict.
Proof. intros r r'. apply str_eqb_sym. Qed.

Lemma rule_conflict_sym : sym_conflict rule_conflict.
Proof.
  intros r r'. unfold rule_conflict.
  by rewrite (str_eqb_sym (mr_id r)), (str_eqb_sym (mr_account r)), (Z.eqb_sym (mr_position r)).
Qed.

Lemma run_conflict_sym : sym_conflict run_conflict.
Proof.
  intros r r'. unfold run_conflict. rewrite (str_eqb_sym (ru_id r)), (str_eqb_sym (ru_account r)).
  f_equal. rewrite <-!andb_assoc. f_equal. apply andb_comm.
Qed.

(** ** The invariant *)

Definition of_account (id : list Z) (s : session_row) : Prop := s_account s = id.

Definition session_times (s : session_row) : Prop :=
  s_created s ≤ s_last_seen s ∧
  s_absolute s = s_created s + SESSION_ABSOLUTE_SECONDS ∧
  s_step_up s ≤ s_absolute s.

(** A pending enrollment has a live owner. *)
Definition owned (d : db) (a : account_row) : Prop :=
  a_state a = PENDING →
  ∃ c, c ∈ challenges d ∧ c_account c = a_id a ∧ a_owner a = Some (c_digest c).

Record wf (d : db) : Prop := {
  wf_accounts : table_ok account_check account_conflict (accounts d);
  wf_recovery : table_ok (recovery_check d) recovery_conflict (recovery_codes d);
  wf_challenges : table_ok (challenge_check d) challenge_conflict (challenges d);
  wf_sessions : table_ok (session_check d) session_conflict (sessions d);
  wf_rates : table_ok (rate_check d) rate_conflict (rate_limits d);
  wf_passkeys : table_ok (passkey_check d) passkey_conflict (passkeys d);
  wf_passkey_challenges :
    table_ok (passkey_challenge_check d) passkey_challenge_conflict (passkey_challenges d);
  wf_rules : table_ok (rule_check d) rule_conflict (mail_rules d);
  wf_runs : table_ok (run_check d) run_conflict (mail_runs d);
  wf_owner : ∀ a, a ∈ accounts d → owned d a;
  wf_failures : Forall (λ c, c_failures c < CHALLENGE_FAILURE_LIMIT) (challenges d);
  wf_passkey_failures :
    Forall (λ k, k_failures k < CHALLENGE_FAILURE_LIMIT) (passkey_challenges d);
  wf_session_times : Forall session_times (sessions d);
  wf_challenge_cap : ∀ id,
    count_where (λ c, c_account c = id) (challenges d) ≤ _MAX_CHALLENGES_PER_ACCOUNT;
  wf_session_cap : ∀ id,
    count_where (λ s, s_account s = id) (sessions d) ≤ MAX_SESSIONS_PER_ACCOUNT;
  wf_passkey_cap : ∀ id,
    count_where (λ p, p_account p = id) (passkeys d) ≤ MAX_PASSKEYS_PER_ACCOUNT;
  wf_bound_cap : ∀ id,
    count_where (bound_to id) (passkey_challenges d) ≤ _MAX_PASSKEY_CHALLENGES_PER_ACCOUNT;
  wf_login_cap :
    count_where (λ k, k_purpose k = LOGIN) (passkey_challenges d)
    ≤ _MAX_ANONYMOUS_PASSKEY_LOGIN_CHALLENGES;
  wf_rate_cap : zlen (rate_limits d) ≤ _MAX_RATE_LIMIT_ROWS;
  wf_rule_cap : ∀ id,
    count_where (λ r, mr_account r = id) (mail_rules d) ≤ _MAX_MAIL_RULES_PER_ACCOUNT;
  wf_run_cap : ∀ id,
    count_where (λ r, ru_account r = id) (mail_runs d) ≤ _MAX_MAIL_RULE_RUNS_PER_ACCOUNT;
}.

(** Positions of one account's rules are [0 .. n - 1]. *)
Definition dense (t : list rule_row) : Prop :=
  ∀ id, (mr_position <$> select_where (λ r, mr_account r = id) t)
        ≡ₚ seqZ 0 (count_where (λ r, mr_account r = id) t).

Definition inv (d : db) : Prop := wf d ∧ dense (mail_rules d).

Lemma table_ok_empty {R} (check : R → bool) conflict : table_ok check conflict [].
Proof. apply table_ok_nil. Qed.

Lemma inv_empty : inv empty_db.
Proof.
  split; [|by intros id].
  constructor; try apply table_ok_nil; try (by constructor); try (intros; vm_compute; congruence).
  intros a Ha. by apply not_elem_of_nil in Ha.
Qed.

(** Facts read off the invariant. *)
Section Facts.
Context (d : db) (H : wf d).

Lemma wf_account_ids : NoDup (a_id <$> accounts d).
Proof.
  eapply unique_rows_key; [|apply (wf_accounts d H)].
  intros r r' E. unfold account_conflict. rewrite E, str_eqb_refl. done.
Qed.

Lemma wf_account_emails : NoDup (a_email <$> accounts d).
Proof.
  eapply unique_rows_key; [|apply (wf_accounts d H)].
  intros r r' E. unfold account_conflict. rewrite E, str_eqb_refl. apply orb_true_r.
Qed.

Lemma wf_challenge_digests : NoDup (c_digest <$> challenges d).
Proof.
  eapply unique_rows_key; [|apply (wf_challenges d H)].
  intros r r' E. unfold challenge_conflict. by rewrite E, str_eqb_refl.
Qed.

Lemma wf_session_digests : NoDup (s_digest <$> sessions d).
Proof.
  eapply unique_rows_key; [|apply (wf_sessions d H)].
  intros r r' E. unfold session_conflict. by rewrite E, str_eqb_refl.
Qed.

Lemma wf_passkey_challenge_digests : NoDup (k_digest <$> passkey_challenges d).
Proof.
  eapply unique_rows_key; [|apply (wf_passkey_challenges d H)].
  intros r r' E. unfold passkey_challenge_conflict. by rewrite E, str_eqb_refl.
Qed.

Lemma wf_credentials : NoDup (p_credential <$> passkeys d).
Proof.
  eapply unique_rows_key; [|apply (wf_passkeys d H)].
  intros r r' E. unfold passkey_conflict. by rewrite E, str_eqb_refl.
Qed.

Lemma wf_rate_keys : NoDup (rate_key <$> rate_limits d).
Proof.
  eapply unique_rows_key; [|apply (wf_rates d H)].
  intros r r' [= E1 E2]. unfold rate_conflict, rate_key_eqb. rewrite E2, str_eqb_refl.
  by rewrite bool_decide_eq_true_2.
Qed.

Lemma wf_rule_ids : NoDup (mr_id <$> mail_rules d).
Proof.
  eapply unique_rows_key; [|apply (wf_rules d H)].
  intros r r' E. unfold rule_conflict. by rewrite E, str_eqb_refl.
Qed.

Lemma wf_run_ids : NoDup (ru_id <$> mail_runs d).
Proof.
  eapply unique_rows_key; [|apply (wf_runs d H)].
  intros r r' E. unfold run_conflict. by rewrite E, str_eqb_refl.
Qed.
End Facts.

(** ** Deletes *)

Lemma Forall_delete_where {R} (P : R → Prop) `{!∀ r, Decision (P r)} (I : R → Prop) t :
  Forall I t → Forall I (delete_where P t).
Proof. apply Forall_delete. Qed.

Lemma zlen_delete {R} (P : R → Prop) `{!∀ r, Decision (P r)} t : zlen (delete_where P t) ≤ zlen t.
Proof.
  unfold zlen, delete_where. pose proof (length_filter (λ r, ¬ P r) t). lia.
Qed.

(** The shape shared by the table deletes: one table shrinks. *)
Ltac shrink :=
  constructor; simpl; try assumption;
  try (apply table_ok_delete; assumption); try (apply Forall_delete; assumption);
  try (intros; etrans; [apply count_delete|auto]);
  try (etrans; [apply count_delete|assumption]);
  try (etrans; [apply zlen_delete|assumption]).

Section Deletes.
Context (d : db) (H : wf d).

Lemma wf_delete_recovery (P : recovery_row → Prop) `{!∀ r, Decision (P r)} :
  wf (delete_recovery P d).
Proof. destruct H. shrink. Qed.

Lemma wf_delete_rate (P : rate_row → Prop) `{!∀ r, Decision (P r)} : wf (delete_rate P d).
Proof. destruct H. shrink. Qed.

Lemma wf_delete_passkeys (P : passkey_row → Prop) `{!∀ r, Decision (P r)} :
  wf (delete_passkeys P d).
Proof. destruct H. shrink. Qed.

Lemma wf_delete_passkey_challenges (P : passkey_challenge_row → Prop) `{!∀ r, Decision (P r)} :
  wf (delete_passkey_challenges P d).
Proof. destruct H. shrink. Qed.

Lemma wf_delete_runs (P : run_row → Prop) `{!∀ r, Decision (P r)} : wf (delete_runs P d).
Proof. destruct H. shrink. Qed.

(** Deleting challenges none of which owns a pending enrollment. *)
Lemma wf_delete_challenges (P : challenge_row → Prop) `{!∀ r, Decision (P r)} :
  (∀ a c, a ∈ accounts d → a_state a = PENDING → c ∈ challenges d → c_account c = a_id a →
    a_owner a = Some (c_digest c) → ¬ P c) →
  wf (delete_challenges P d).
Proof.
  intros HP. destruct H. shrink.
  intros a Ha Hp. destruct (wf_owner0 a Ha Hp) as (c & Hc & Hca & Ho).
  exists c. split; [|done]. apply elem_of_delete. eauto.
Qed.
End Deletes.

Lemma session_exists_spec d i : session_exists d i = true ↔ i ∈ s_digest <$> sessions d.
Proof. unfold session_exists. apply bool_decide_eq_true. Qed.

Lemma account_exists_spec d i : account_exists d i = true ↔ i ∈ a_id <$> accounts d.
Proof. unfold account_exists. apply bool_decide_eq_true. Qed.

Lemma rule_exists_spec d i : rule_exists d i = true ↔ i ∈ mr_id <$> mail_rules d.
Proof. unfold rule_exists. apply bool_decide_eq_true. Qed.

Lemma key_survives {R} (key : R → list Z) (P : R → Prop) `{!∀ r, Decision (P r)} t i :
  i ∈ key <$> t → i ∉ key <$> select_where P t → i ∈ key <$> delete_where P t.
Proof.
  intros (r & -> & Hr)%list_elem_of_fmap Hn. apply list_elem_of_fmap_2, elem_of_delete.
  split; [|done]. intros HP. apply Hn, list_elem_of_fmap_2, elem_of_select. done.
Qed.

Lemma wf_delete_sessions d (P : session_row → Prop) `{!∀ r, Decision (P r)} :
  wf d → wf (delete_sessions P d).
Proof.
  intros Hw. unfold delete_sessions.
  set (gone := s_digest <$> select_where P (sessions d)).
  pose proof (wf_delete_passkey_challenges d Hw (session_gone gone)) as H1.
  destruct H1. shrink.
  eapply table_ok_mono; [|eassumption]. simpl. intros k [Hk Hin]%elem_of_delete.
  unfold passkey_challenge_check. rewrite !andb_true_iff.
  intros [[[[Hd Hf] Ha] Hs] Hp]. repeat split; try assumption.
  unfold session_gone in Hk. destruct (k_session k) as [s|]; [|done].
  apply session_exists_spec in Hs. apply session_exists_spec. simpl in *.
  by apply key_survives.
Qed.

Lemma wf_delete_rules d (P : rule_row → Prop) `{!∀ r, Decision (P r)} :
  wf d → wf (delete_rules P d).
Proof.
  intros Hw. unfold delete_rules.
  set (gone := mr_id <$> select_where P (mail_rules d)).
  assert (Hor : ∀ r, ru_id (orphan_run gone r) = ru_id r
    ∧ ru_account (orphan_run gone r) = ru_account r
    ∧ run_active (orphan_run gone r) = run_active r).
  { intros r. unfold orphan_run. destruct (ru_rule r) as [i|] eqn:E; [|done]. case_decide; done. }
  destruct Hw. shrink.
  - eapply table_ok_fmap; [| |exact wf_runs0].
    + intros r Hr. pose proof (Hor r) as (E1 & E2 & _). unfold run_check. simpl.
      rewrite E1, E2, !andb_true_iff. intros Hc. revert E1 E2.
      unfold orphan_run. destruct (ru_rule r) as [i|] eqn:E; [|by rewrite E].
      case_decide as Hg; simpl; [intuition|]. rewrite E. intuition.
      match goal with Hx : rule_exists _ _ = true |- _ =>
        apply rule_exists_spec in Hx; apply rule_exists_spec; simpl in * end.
      by apply key_survives.
    + intros r r'. unfold run_conflict. destruct (Hor r) as (-> & -> & ->).
      by destruct (Hor r') as (-> & -> & ->).
  - intros id. etrans; [|apply (wf_run_cap0 id)]. unfold count_where, select_where, zlen.
    assert (Hf : ∀ t, length (filter (λ r, ru_account r = id) (orphan_run gone <$> t))
                 = length (filter (λ r, ru_account r = id) t)); [|by rewrite Hf].
    induction t as [|r t IH]; [done|]; csimpl. rewrite !filter_cons.
    destruct (Hor r) as (_ & -> & _). case_decide; simpl; lia.
Qed.

(** ** Account deletion and its cascades *)

Lemma account_exists_ext d d' :
  a_id <$> accounts d = a_id <$> accounts d' → account_exists d = account_exists d'.
Proof. unfold account_exists. by intros ->. Qed.

Definition no_children (gone : list (list Z)) (d : db) : Prop :=
  Forall (λ r, rc_account r ∉ gone) (recovery_codes d) ∧
  Forall (λ r, c_account r ∉ gone) (challenges d) ∧
  Forall (λ r, s_account r ∉ gone) (sessions d) ∧
  Forall (λ r, ¬ opt_in (l_account r) gone) (rate_limits d) ∧
  Forall (λ r, p_account r ∉ gone) (passkeys d) ∧
  Forall (λ r, ¬ opt_in (k_account r) gone) (passkey_challenges d) ∧
  Forall (λ r, mr_account r ∉ gone) (mail_rules d) ∧
  Forall (λ r, ru_account r ∉ gone) (mail_runs d).

Ltac keep_fk Hk Hko :=
  rewrite !andb_true_iff; intuition (first [apply Hk | apply Hko | idtac]; eauto).

Lemma wf_drop_accounts d (P : account_row → Prop) `{!∀ r, Decision (P r)} :
  wf d → no_children (a_id <$> select_where P (accounts d)) d →
  wf (set_accounts (delete_where P (accounts d)) d).
Proof.
  intros Hw (N1 & N2 & N3 & N4 & N5 & N6 & N7 & N8).
  set (gone := a_id <$> select_where P (accounts d)) in *.
  assert (Hk : ∀ i, i ∉ gone → account_exists d i = true →
    account_exists (set_accounts (delete_where P (accounts d)) d) i = true).
  { intros i Hi. rewrite !account_exists_spec. simpl. intros. by apply key_survives. }
  assert (Hko : ∀ o, ¬ opt_in o gone →
    match o with None => true | Some a => account_exists d a end = true →
    match o with None => true | Some a =>
      account_exists (set_accounts (delete_where P (accounts d)) d) a end = true).
  { intros [i|]; simpl; auto. }
  rewrite Forall_forall in N1. rewrite Forall_forall in N2. rewrite Forall_forall in N3.
  rewrite Forall_forall in N4. rewrite Forall_forall in N5. rewrite Forall_forall in N6.
  rewrite Forall_forall in N7. rewrite Forall_forall in N8.
  destruct Hw. constructor; simpl; try assumption; try (by apply table_ok_delete);
    try (eapply table_ok_mono; [|eassumption]; intros r Hr).
  - unfold recovery_check. keep_fk Hk Hko.
  - unfold challenge_check. keep_fk Hk Hko.
  - unfold session_check. keep_fk Hk Hko.
  - unfold rate_check. keep_fk Hk Hko.
  - unfold passkey_check. keep_fk Hk Hko.
  - unfold passkey_challenge_check. keep_fk Hk Hko.
  - unfold rule_check. keep_fk Hk Hko.
  - unfold run_check. keep_fk Hk Hko.
  - intros a [_ Ha]%elem_of_delete. by apply wf_owner0.
Qed.


(** ** Updates *)

Lemma update_checked_Some {R} (check : R → bool) (P : R → Prop) `{!∀ r, Decision (P r)} f t t' :
  update_checked check P f t = Some t' →
  t' = update_where P f t ∧ ∀ r, r ∈ t → P r → check (f r) = true.
Proof.
  unfold update_checked. destruct (forallb _ _) eqn:Hf; [|done]. intros [= <-]. split; [done|].
  intros r Hr HP. rewrite forallb_forall in Hf. apply Hf. rewrite <-list_elem_of_In.
  by apply elem_of_select.
Qed.

(** The account an update leaves in place of [a]. *)
Definition keeps_identity (f : account_row → account_row) : Prop :=
  ∀ a, a_id (f a) = a_id a ∧ a_email (f a) = a_email a.

Lemma wf_update_accounts d (P : account_row → Prop) `{!∀ r, Decision (P r)} f d' :
  wf d → keeps_identity f →
  (∀ a, a ∈ accounts d → P a → a_state (f a) = PENDING →
    ∃ c, c ∈ challenges d ∧ c_account c = a_id a ∧ a_owner (f a) = Some (c_digest c)) →
  update_accounts P f d = Some d' → wf d'.
Proof.
  intros Hw Hid Hown. unfold update_accounts.
  destruct (update_checked _ _ _ _) as [t|] eqn:Hu; [|done]. intros [= <-].
  apply update_checked_Some in Hu as [-> Hc].
  assert (Hids : a_id <$> update_where P f (accounts d) = a_id <$> accounts d).
  { apply key_update. intros a _. apply Hid. }
  assert (He : account_exists (set_accounts (update_where P f (accounts d)) d) = account_exists d).
  { apply account_exists_ext. done. }
  destruct Hw. constructor; simpl; try assumption;
    try (eapply table_ok_mono; [|eassumption]; intros r Hr;
         (unfold recovery_check, challenge_check, session_check, rate_check, passkey_check,
            passkey_challenge_check, rule_check, run_check); rewrite He; done).
  - apply table_ok_update; [intros r Hr HP _; exact (Hc r Hr HP)| |done].
    intros r r'. unfold account_conflict. destruct (Hid r) as [-> ->]. by destruct (Hid r') as [-> ->].
  - intros a (a0 & Ha0 & ->)%elem_of_update. unfold owned. simpl. case_decide as HP.
    + intros Hp. destruct (Hown a0 Ha0 HP Hp) as (c & ? & ? & ?). exists c.
      destruct (Hid a0) as [-> _]. done.
    + by apply wf_owner0.
Qed.

Lemma wf_update_challenges d (P : challenge_row → Prop) `{!∀ r, Decision (P r)} f d' :
  wf d → (∀ c, c_digest (f c) = c_digest c ∧ c_account (f c) = c_account c) →
  (∀ c, c ∈ challenges d → P c → c_failures (f c) < CHALLENGE_FAILURE_LIMIT) →
  update_challenges P f d = Some d' → wf d'.
Proof.
  intros Hw Hid Hfail. unfold update_challenges.
  destruct (update_checked _ _ _ _) as [t|] eqn:Hu; [|done]. intros [= <-].
  apply update_checked_Some in Hu as [-> Hc].
  destruct Hw. constructor; simpl; try assumption.
  - apply table_ok_update; [intros r Hr HP _; exact (Hc r Hr HP)| |done].
    intros r r'. unfold challenge_conflict. destruct (Hid r) as [-> _]. by destruct (Hid r') as [-> _].
  - intros a Ha Hp. destruct (wf_owner0 a Ha Hp) as (c & Hcin & Hca & Ho).
    exists (if decide (P c) then f c else c). destruct (Hid c) as [Hd Ha'].
    repeat split; [apply elem_of_update; eauto| |]; case_decide; congruence.
  - apply Forall_update; auto.
  - intros id. rewrite count_update; [done|]. intros c _ _. by destruct (Hid c) as [_ ->].
Qed.

Lemma wf_update_sessions d (P : session_row → Prop) `{!∀ r, Decision (P r)} f d' :
  wf d →
  (∀ s, s_digest (f s) = s_digest s ∧ s_account (f s) = s_account s ∧ s_id (f s) = s_id s) →
  (∀ s, s ∈ sessions d → P s → session_times s → session_times (f s)) →
  update_sessions P f d = Some d' → wf d'.
Proof.
  intros Hw Hid Htimes. unfold update_sessions.
  destruct (update_checked _ _ _ _) as [t|] eqn:Hu; [|done]. intros [= <-].
  apply update_checked_Some in Hu as [-> Hc].
  destruct Hw. constructor; simpl; try assumption.
  - apply table_ok_update; [intros r Hr HP _; exact (Hc r Hr HP)| |done].
    intros r r'. unfold session_conflict. destruct (Hid r) as (-> & _ & ->).
    by destruct (Hid r') as (-> & _ & ->).
  - eapply table_ok_mono; [|eassumption]. intros k Hk. unfold passkey_challenge_check.
    assert (session_exists (set_sessions (update_where P f (sessions d)) d) = session_exists d) as ->;
      [|done].
    unfold session_exists. simpl. rewrite key_update; [done|]. intros s _. apply Hid.
  - apply Forall_update; auto.
  - intros id. rewrite count_update; [done|]. intros s _ _. by destruct (Hid s) as (_ & -> & _).
Qed.

Lemma wf_update_passkeys d (P : passkey_row → Prop) `{!∀ r, Decision (P r)} f d' :
  wf d →
  (∀ p, p_credential (f p) = p_credential p ∧ p_public_id (f p) = p_public_id p
        ∧ p_account (f p) = p_account p) →
  update_passkeys P f d = Some d' → wf d'.
Proof.
  intros Hw Hid. unfold update_passkeys.
  destruct (update_checked _ _ _ _) as [t|] eqn:Hu; [|done]. intros [= <-].
  apply update_checked_Some in Hu as [-> Hc].
  destruct Hw. constructor; simpl; try assumption.
  - apply table_ok_update; [intros r Hr HP _; exact (Hc r Hr HP)| |done].
    intros r r'. unfold passkey_conflict. destruct (Hid r) as (-> & -> & _).
    by destruct (Hid r') as (-> & -> & _).
  - intros id. rewrite count_update; [done|]. intros p _ _. by destruct (Hid p) as (_ & _ & ->).
Qed.

Lemma wf_update_passkey_challenges d (P : passkey_challenge_row → Prop) `{!∀ r, Decision (P r)}
    f d' :
  wf d →
  (∀ k, k_digest (f k) = k_digest k ∧ k_purpose (f k) = k_purpose k ∧ k_account (f k) = k_account k) →
  (∀ k, k ∈ passkey_challenges d → P k → k_failures (f k) < CHALLENGE_FAILURE_LIMIT) →
  update_passkey_challenges P f d = Some d' → wf d'.
Proof.
  intros Hw Hid Hfail. unfold update_passkey_challenges.
  destruct (update_checked _ _ _ _) as [t|] eqn:Hu; [|done]. intros [= <-].
  apply update_checked_Some in Hu as [-> Hc].
  destruct Hw. constructor; simpl; try assumption.
  - apply table_ok_update; [intros r Hr HP _; exact (Hc r Hr HP)| |done].
    intros r r'. unfold passkey_challenge_conflict. destruct (Hid r) as (-> & _).
    by destruct (Hid r') as (-> & _).
  - apply Forall_update; auto.
  - intros id. rewrite count_update; [done|]. intros k _ _. unfold bound_to.
    by destruct (Hid k) as (_ & -> & ->).
  - rewrite count_update; [done|]. intros k _ _. by destruct (Hid k) as (_ & -> & _).
Qed.

Lemma update_rules_Some d (P : rule_row → Prop) `{!∀ r, Decision (P r)} f d' :
  wf d → update_rules P f d = Some d' →
  d' = set_mail_rules (update_where P f (mail_rules d)) d ∧
  (∀ r, r ∈ mail_rules d → P r → rule_check d (f r) = true) ∧
  unique_rows rule_conflict (update_where P f (mail_rules d)).
Proof.
  intros Hw. unfold update_rules. destruct (forallb _ _) eqn:Hf; [|done].
  destruct (update_unique _ _ _ _ _) as [t|] eqn:Hu; [|done]. intros [= <-].
  apply update_unique_ok in Hu as [-> Huq]; [|apply rule_conflict_sym|apply (wf_rules d Hw)].
  split; [done|]. split; [|done]. intros r Hr HP. rewrite forallb_forall in Hf.
  apply Hf. rewrite <-list_elem_of_In. by apply elem_of_select.
Qed.

Lemma wf_update_rules d (P : rule_row → Prop) `{!∀ r, Decision (P r)} f d' :
  wf d → (∀ r, mr_id (f r) = mr_id r ∧ mr_account (f r) = mr_account r) →
  update_rules P f d = Some d' → wf d'.
Proof.
  intros Hw Hid Hu. apply update_rules_Some in Hu as (-> & Hc & Huq); [|done].
  destruct Hw. constructor; simpl; try assumption.
  - split; [|done]. destruct wf_rules0 as [Hf _]. apply Forall_update; [done|].
    intros r Hr _ HP. exact (Hc r Hr HP).
  - eapply table_ok_mono; [|eassumption]. intros r Hr. unfold run_check.
    assert (rule_exists (set_mail_rules (update_where P f (mail_rules d)) d) = rule_exists d) as ->;
      [|done].
    unfold rule_exists. simpl. rewrite key_update; [done|]. intros s _. apply Hid.
  - intros id. rewrite count_update; [done|]. intros r _ _. by destruct (Hid r) as (_ & ->).
Qed.

Lemma wf_update_runs d (P : run_row → Prop) `{!∀ r, Decision (P r)} f d' :
  wf d → (∀ r, ru_account (f r) = ru_account r) →
  update_runs P f d = Some d' → wf d'.
Proof.
  intros Hw Hid. unfold update_runs. destruct (forallb _ _) eqn:Hf; [|done].
  destruct (update_unique _ _ _ _ _) as [t|] eqn:Hu; [|done]. intros [= <-].
  apply update_unique_ok in Hu as [-> Huq]; [|apply run_conflict_sym|apply (wf_runs d Hw)].
  assert (Hc : ∀ r, r ∈ mail_runs d → P r → run_check d (f r) = true).
  { intros r Hr HP. rewrite forallb_forall in Hf. apply Hf. rewrite <-list_elem_of_In.
    by apply elem_of_select. }
  destruct Hw. constructor; simpl; try assumption.
  - split; [|done]. destruct wf_runs0 as [Hf2 _]. apply Forall_update; [done|].
    intros r Hr _ HP. exact (Hc r Hr HP).
  - intros id. rewrite count_update; [done|]. intros r _ _. by rewrite Hid.
Qed.

(** ** Inserts *)

Lemma account_exists_insert d r i :
  account_exists d i = true → account_exists (set_accounts (accounts d ++ [r]) d) i = true.
Proof.
  rewrite !account_exists_spec. simpl. rewrite fmap_app, elem_of_app. auto.
Qed.

Lemma wf_insert_account d r d' :
  wf d → a_state r ≠ PENDING → insert_account r d = Some d' → wf d'.
Proof.
  intros Hw Hst. unfold insert_account.
  destruct (insert_row _ _ _ _) as [t|] eqn:Hi; [|done]. intros [= <-].
  pose proof (insert_row_Some _ _ _ _ _ Hi) as (-> & _).
  assert (Hk : ∀ i, account_exists d i = true →
    account_exists (set_accounts (accounts d ++ [r]) d) i = true).
  { intros i. apply account_exists_insert. }
  assert (Hko : ∀ o, match o with None => true | Some a => account_exists d a end = true →
    match o with None => true | Some a =>
      account_exists (set_accounts (accounts d ++ [r]) d) a end = true).
  { intros [i|]; auto. }
  destruct Hw. constructor; simpl; try assumption;
    try (eapply table_ok_mono; [|eassumption]; intros x Hx;
         (unfold recovery_check, challenge_check, session_check, rate_check, passkey_check,
            passkey_challenge_check, rule_check, run_check); rewrite !andb_true_iff;
         intuition auto; fail).
  - by eapply table_ok_insert; [apply account_conflict_sym| |].
  - intros a [Ha| ->%list_elem_of_singleton]%elem_of_app; [by apply wf_owner0|by intros Hp].
Qed.

Lemma wf_insert_recovery d r d' : wf d → insert_recovery r d = Some d' → wf d'.
Proof.
  intros Hw. unfold insert_recovery.
  destruct (insert_row _ _ _ _) as [t|] eqn:Hi; [|done]. intros [= <-].
  destruct Hw. constructor; simpl; try assumption.
  eapply table_ok_insert; [apply recovery_conflict_sym|exact Hi|done].
Qed.

(** One more row of the group [key r] stays under a cap the group is below. *)
Lemma count_insert {R K} `{!EqDecision K} (key : R → K) (t : list R) r cap :
  (∀ k, count_where (λ r, key r = k) t ≤ cap) → count_where (λ x, key x = key r) t < cap →
  ∀ k, count_where (λ r, key r = k) (t ++ [r]) ≤ cap.
Proof.
  intros Hcap Hr k. rewrite count_app, count_singleton. specialize (Hcap k).
  case_decide as Hk; [|lia]. subst. lia.
Qed.

Lemma wf_insert_challenge d r d' :
  wf d → c_failures r < CHALLENGE_FAILURE_LIMIT →
  count_where (λ c, c_account c = c_account r) (challenges d) < _MAX_CHALLENGES_PER_ACCOUNT →
  insert_challenge r d = Some d' → wf d'.
Proof.
  intros Hw Hf Hn. unfold insert_challenge.
  destruct (insert_row _ _ _ _) as [t|] eqn:Hi; [|done]. intros [= <-].
  pose proof (insert_row_Some _ _ _ _ _ Hi) as (-> & _).
  destruct Hw. constructor; simpl; try assumption.
  - eapply table_ok_insert; [apply challenge_conflict_sym|exact Hi|done].
  - intros a Ha Hp. destruct (wf_owner0 a Ha Hp) as (c & Hc & ?). exists c.
    split; [|done]. apply elem_of_app. by left.
  - apply Forall_app. split; [done|by constructor].
  - by apply (count_insert c_account).
Qed.

Lemma wf_insert_session d r d' :
  wf d → session_times r →
  count_where (λ s, s_account s = s_account r) (sessions d) < MAX_SESSIONS_PER_ACCOUNT →
  insert_session r d = Some d' → wf d'.
Proof.
  intros Hw Hf Hn. unfold insert_session.
  destruct (insert_row _ _ _ _) as [t|] eqn:Hi; [|done]. intros [= <-].
  pose proof (insert_row_Some _ _ _ _ _ Hi) as (-> & _).
  destruct Hw. constructor; simpl; try assumption.
  - eapply table_ok_insert; [apply session_conflict_sym|exact Hi|done].
  - eapply table_ok_mono; [|eassumption]. intros k Hk. unfold passkey_challenge_check.
    rewrite !andb_true_iff. intuition. destruct (k_session k); [|done].
    rewrite session_exists_spec in *. simpl. rewrite fmap_app, elem_of_app. by left.
  - apply Forall_app. split; [done|by constructor].
  - by apply (count_insert s_account).
Qed.

Lemma wf_insert_passkey d r d' :
  wf d →
  count_where (λ p, p_account p = p_account r) (passkeys d) < MAX_PASSKEYS_PER_ACCOUNT →
  insert_passkey r d = Some d' → wf d'.
Proof.
  intros Hw Hn. unfold insert_passkey.
  destruct (insert_row _ _ _ _) as [t|] eqn:Hi; [|done]. intros [= <-].
  pose proof (insert_row_Some _ _ _ _ _ Hi) as (-> & _).
  destruct Hw. constructor; simpl; try assumption.
  - eapply table_ok_insert; [apply passkey_conflict_sym|exact Hi|done].
  - by apply (count_insert p_account).
Qed.

(** The room a new passkey challenge needs. *)
Definition passkey_challenge_room (purpose : Purpose) (account : option (list Z)) (d : db) : Prop :=
  match purpose with
  | LOGIN => count_where (λ k, k_purpose k = LOGIN) (passkey_challenges d)
             < _MAX_ANONYMOUS_PASSKEY_LOGIN_CHALLENGES
  | _ => ∀ id, account = Some id →
           count_where (bound_to id) (passkey_challenges d) < _MAX_PASSKEY_CHALLENGES_PER_ACCOUNT
  end.

Lemma wf_insert_passkey_challenge d r d' :
  wf d → k_failures r < CHALLENGE_FAILURE_LIMIT →
  passkey_challenge_room (k_purpose r) (k_account r) d →
  insert_passkey_challenge r d = Some d' → wf d'.
Proof.
  intros Hw Hf Hn. unfold insert_passkey_challenge.
  destruct (insert_row _ _ _ _) as [t|] eqn:Hi; [|done]. intros [= <-].
  pose proof (insert_row_Some _ _ _ _ _ Hi) as (-> & _).
  destruct Hw. constructor; simpl; try assumption.
  - eapply table_ok_insert; [apply passkey_challenge_conflict_sym|exact Hi|done].
  - apply Forall_app. split; [done|by constructor].
  - intros id. rewrite count_app, count_singleton. specialize (wf_bound_cap0 id).
    case_decide as Hb; [|lia]. destruct Hb as [Hp Ha]. unfold passkey_challenge_room in Hn.
    destruct (k_purpose r); try done; specialize (Hn id Ha); lia.
  - rewrite count_app, count_singleton. unfold passkey_challenge_room in Hn.
    case_decide as Hb; [|lia]. rewrite Hb in Hn. lia.
Qed.

Lemma wf_insert_rule d r d' :
  wf d →
  count_where (λ x, mr_account x = mr_account r) (mail_rules d) < _MAX_MAIL_RULES_PER_ACCOUNT →
  insert_rule r d = Some d' → wf d'.
Proof.
  intros Hw Hn. unfold insert_rule.
  destruct (insert_row _ _ _ _) as [t|] eqn:Hi; [|done]. intros [= <-].
  pose proof (insert_row_Some _ _ _ _ _ Hi) as (-> & _).
  destruct Hw. constructor; simpl; try assumption.
  - eapply table_ok_insert; [apply rule_conflict_sym|exact Hi|done].
  - eapply table_ok_mono; [|eassumption]. intros k Hk. unfold run_check.
    rewrite !andb_true_iff. intuition. destruct (ru_rule k); [|done].
    rewrite rule_exists_spec in *. simpl. rewrite fmap_app, elem_of_app. by left.
  - by apply (count_insert mr_account).
Qed.

Lemma wf_insert_run d r d' :
  wf d →
  count_where (λ x, ru_account x = ru_account r) (mail_runs d) < _MAX_MAIL_RULE_RUNS_PER_ACCOUNT →
  insert_run r d = Some d' → wf d'.
Proof.
  intros Hw Hn. unfold insert_run.
  destruct (insert_row _ _ _ _) as [t|] eqn:Hi; [|done]. intros [= <-].
  pose proof (insert_row_Some _ _ _ _ _ Hi) as (-> & _).
  destruct Hw. constructor; simpl; try assumption.
  - eapply table_ok_insert; [apply run_conflict_sym|exact Hi|done].
  - by apply (count_insert ru_account).
Qed.

Lemma rate_row_at_None scope identity t :
  rate_row_at scope identity t = None →
  ∀ r, r ∈ t → ¬ (l_scope r = scope ∧ l_identity r = identity).
Proof. unfold rate_row_at. rewrite lookup_where_None. auto. Qed.

(** An upsert needs room only when the row is new. *)
Lemma wf_upsert_rate d r d' :
  wf d →
  (rate_row_at (l_scope r) (l_identity r) (rate_limits d) = None →
   zlen (rate_limits d) < _MAX_RATE_LIMIT_ROWS) →
  upsert_rate r d = Some d' → wf d'.
Proof.
  intros Hw Hroom. unfold upsert_rate.
  destruct (rate_row_at _ _ _) as [old|] eqn:Hrow.
  - destruct (update_checked _ _ _ _) as [t|] eqn:Hu; [|done]. intros [= <-].
    apply update_checked_Some in Hu as [-> Hc].
    destruct Hw. constructor; simpl; try assumption.
    + apply table_ok_update; [intros x Hx HP _; exact (Hc x Hx HP)| |done]. done.
    + unfold update_where, zlen. by rewrite length_fmap.
  - specialize (Hroom eq_refl). destruct (rate_check d r) eqn:Hc; [|done]. intros [= <-].
    destruct Hw. constructor; simpl; try assumption.
    + apply table_ok_app_one; [apply rate_conflict_sym|done| |done].
      intros x Hx. unfold rate_conflict, rate_key_eqb.
      pose proof (rate_row_at_None _ _ _ Hrow x Hx) as Hn.
      destruct (bool_decide _) eqn:Hs; [|done]. apply bool_decide_eq_true in Hs. simpl.
      unfold str_eqb. apply bool_decide_eq_false. intros Hi. apply Hn. split; congruence.
    + unfold zlen in *. rewrite length_app. simpl. lia.
Qed.

(** ** Account deletion *)

Definition forget (a : account_row) : account_row :=
  AccountRow (a_id a) (a_email a) (a_role a) (a_pw_required a) REQUIRED None None None (-1)
    (a_created a) (a_updated a).

Lemma wf_forget d id :
  wf d → wf (set_accounts (update_where (λ a, a_id a = id) forget (accounts d)) d).
Proof.
  intros Hw. eapply (wf_update_accounts d (λ a, a_id a = id) forget); [done|done|done|].
  unfold update_accounts, update_checked.
  assert (forallb (λ r, account_check (forget r))
            (select_where (λ a, a_id a = id) (accounts d)) = true) as ->; [|done].
  apply forallb_forall. intros r Hr%list_elem_of_In. apply elem_of_select in Hr as [_ Hr].
  destruct (wf_accounts d Hw) as [Hc _]. rewrite Forall_forall in Hc. specialize (Hc r Hr).
  simpl in Hc. unfold account_check in *. simpl. rewrite !andb_true_iff in Hc.
  destruct Hc as [[[-> _] _] _]. done.
Qed.

Lemma select_forget id t :
  a_id <$> select_where (λ a, a_id a = id) (update_where (λ a, a_id a = id) forget t)
  = a_id <$> select_where (λ a, a_id a = id) t.
Proof.
  unfold select_where, update_where. induction t as [|a t IH]; [done|]; csimpl.
  rewrite !filter_cons. destruct (decide (a_id a = id)) as [E|E]; simpl.
  - rewrite decide_True by done. csimpl. by f_equal.
  - rewrite decide_False by done. done.
Qed.

Lemma delete_forget id t :
  delete_where (λ a, a_id a = id) (update_where (λ a, a_id a = id) forget t)
  = delete_where (λ a, a_id a = id) t.
Proof.
  unfold delete_where, update_where. induction t as [|a t IH]; [done|]; csimpl.
  rewrite !filter_cons. destruct (decide (a_id a = id)) as [E|E]; simpl.
  - rewrite decide_False by (simpl; tauto). rewrite decide_False by tauto. done.
  - repeat case_decide; try done. by f_equal.
Qed.

Lemma dense_nil : dense [].
Proof. by intros id. Qed.

Lemma wf_delete_account d id : wf d → wf (delete_accounts (λ a, a_id a = id) d).
Proof.
  intros Hw. unfold delete_accounts.
  set (gone := a_id <$> select_where (λ a, a_id a = id) (accounts d)).
  set (d0 := set_accounts (update_where (λ a, a_id a = id) forget (accounts d)) d).
  assert (Hg : a_id <$> select_where (λ a, a_id a = id) (accounts d0) = gone)
    by apply select_forget.
  assert (Hgone : ∀ i, i ∈ gone → i = id).
  { intros i (a & -> & [Ha _]%elem_of_select)%list_elem_of_fmap. done. }
  set (d1 := delete_runs (λ r, ru_account r ∈ gone) (delete_rules (λ r, mr_account r ∈ gone)
    (delete_passkey_challenges (λ r, opt_in (k_account r) gone)
    (delete_passkeys (λ r, p_account r ∈ gone) (delete_rate (λ r, opt_in (l_account r) gone)
    (delete_sessions (λ r, s_account r ∈ gone) (delete_challenges (λ r, c_account r ∈ gone)
    (delete_recovery (λ r, rc_account r ∈ gone) d0)))))))).
  assert (Hw1 : wf d1).
  { unfold d1. apply wf_delete_runs, wf_delete_rules, wf_delete_passkey_challenges,
      wf_delete_passkeys, wf_delete_rate, wf_delete_sessions, wf_delete_challenges.
    - by apply wf_delete_recovery, wf_forget.
    - simpl. intros a c Ha Hp _ Hca _ Hin. apply Hgone in Hin.
      apply elem_of_update in Ha as (a0 & _ & ->). rewrite Hin in Hca.
      destruct (decide (a_id a0 = id)); [done|congruence]. }
  assert (Hf : ∀ {R} (P : R → Prop) `{!∀ r, Decision (P r)} t, Forall (λ r, ¬ P r) (delete_where P t)).
  { intros R P ? t. apply Forall_forall. by intros r [? _]%elem_of_delete. }
  pose proof (wf_drop_accounts d1 (λ a, a_id a = id) Hw1) as Hd.
  change (accounts d1) with (accounts d0) in Hd. rewrite Hg in Hd.
  change (accounts d0) with (update_where (λ a, a_id a = id) forget (accounts d)) in Hd.
  rewrite delete_forget in Hd. apply Hd.
  repeat split; simpl; auto.
Qed.

(** Rule positions under the deletes of an account. *)
Lemma dense_ext t t' :
  (∀ id, select_where (λ r, mr_account r = id) t = select_where (λ r, mr_account r = id) t') →
  dense t → dense t'.
Proof. intros He Hd id. specialize (Hd id). unfold count_where in *. by rewrite <-!He. Qed.

Lemma dense_delete_accounts (gone : list (list Z)) t : dense t → dense (delete_where (λ r, mr_account r ∈ gone) t).
Proof.
  intros Hd id. destruct (decide (id ∈ gone)) as [Hin|Hout].
  - unfold count_where. assert (select_where (λ r, mr_account r = id)
      (delete_where (λ r, mr_account r ∈ gone) t) = []) as ->; [|done].
    unfold select_where, delete_where. rewrite list_filter_filter. clear Hd.
    induction t as [|r t IH]; [done|]. rewrite filter_cons.
    case_decide as Hx; [destruct Hx; congruence|done].
  - specialize (Hd id). unfold count_where in *.
    assert (select_where (λ r, mr_account r = id) (delete_where (λ r, mr_account r ∈ gone) t)
      = select_where (λ r, mr_account r = id) t) as ->; [|done].
    unfold select_where, delete_where. rewrite list_filter_filter.
    apply list_filter_iff. intros r. split; [tauto|]. intros <-. auto.
Qed.

(** ** The same lemmas for [inv] *)

Create HintDb inv discriminated.

Ltac lift_inv lem := intros [? ?]; split; [eapply lem; eauto|done].

Section Inv.
Context (d : db).

Lemma inv_delete_recovery (P : recovery_row → Prop) `{!∀ r, Decision (P r)} :
  inv d → inv (delete_recovery P d).
Proof. lift_inv @wf_delete_recovery. Qed.
Lemma inv_delete_rate (P : rate_row → Prop) `{!∀ r, Decision (P r)} :
  inv d → inv (delete_rate P d).
Proof. lift_inv @wf_delete_rate. Qed.
Lemma inv_delete_passkeys (P : passkey_row → Prop) `{!∀ r, Decision (P r)} :
  inv d → inv (delete_passkeys P d).
Proof. lift_inv @wf_delete_passkeys. Qed.
Lemma inv_delete_passkey_challenges (P : passkey_challenge_row → Prop) `{!∀ r, Decision (P r)} :
  inv d → inv (delete_passkey_challenges P d).
Proof. lift_inv @wf_delete_passkey_challenges. Qed.
Lemma inv_delete_runs (P : run_row → Prop) `{!∀ r, Decision (P r)} :
  inv d → inv (delete_runs P d).
Proof. lift_inv @wf_delete_runs. Qed.
Lemma inv_delete_sessions (P : session_row → Prop) `{!∀ r, Decision (P r)} :
  inv d → inv (delete_sessions P d).
Proof. lift_inv @wf_delete_sessions. Qed.
Lemma inv_delete_challenges (P : challenge_row → Prop) `{!∀ r, Decision (P r)} :
  (∀ a c, a ∈ accounts d → a_state a = PENDING → c ∈ challenges d → c_account c = a_id a →
    a_owner a = Some (c_digest c) → ¬ P c) →
  inv d → inv (delete_challenges P d).
Proof. intros HP. lift_inv @wf_delete_challenges. Qed.
Lemma inv_delete_account id : inv d → inv (delete_accounts (λ a, a_id a = id) d).
Proof.
  intros [Hw Hd]. split; [by apply wf_delete_account|]. apply dense_delete_accounts, Hd.
Qed.

Lemma update_accounts_Some (P : account_row → Prop) `{!∀ r, Decision (P r)} f d' :
  update_accounts P f d = Some d' → d' = set_accounts (update_where P f (accounts d)) d.
Proof.
  unfold update_accounts. destruct (update_checked _ _ _ _) as [t|] eqn:Hu; [|done].
  intros [= <-]. by apply update_checked_Some in Hu as [-> _].
Qed.

Lemma inv_update_accounts (P : account_row → Prop) `{!∀ r, Decision (P r)} f d' :
  update_accounts P f d = Some d' → keeps_identity f →
  (∀ a, a ∈ accounts d → P a → a_state (f a) = PENDING →
    ∃ c, c ∈ challenges d ∧ c_account c = a_id a ∧ a_owner (f a) = Some (c_digest c)) →
  inv d → inv d'.
Proof.
  intros Hu Hk Ho [Hw Hd]. split; [by eapply wf_update_accounts|].
  by apply update_accounts_Some in Hu as ->.
Qed.

(** Updates that never make an account pending. *)
Lemma inv_update_accounts' (P : account_row → Prop) `{!∀ r, Decision (P r)} f d' :
  update_accounts P f d = Some d' → keeps_identity f →
  (∀ a, a_state (f a) = PENDING → a_state a = PENDING ∧ a_owner (f a) = a_owner a) →
  inv d → inv d'.
Proof.
  intros Hu Hk Ho Hi. eapply inv_update_accounts; [done|done| |done].
  intros a Ha _ Hp. destruct (Ho a Hp) as [Hpa ->]. destruct Hi as [Hw _].
  by apply (wf_owner d Hw).
Qed.

Lemma inv_update_sessions (P : session_row → Prop) `{!∀ r, Decision (P r)} f d' :
  update_sessions P f d = Some d' →
  (∀ s, s_digest (f s) = s_digest s ∧ s_account (f s) = s_account s ∧ s_id (f s) = s_id s) →
  (∀ s, s ∈ sessions d → P s → session_times s → session_times (f s)) →
  inv d → inv d'.
Proof.
  intros Hu Hk Ht [Hw Hd]. split; [by eapply wf_update_sessions|].
  unfold update_sessions in Hu. destruct (update_checked _ _ _ _); [|done]. by injection Hu as <-.
Qed.

Lemma inv_update_challenges (P : challenge_row → Prop) `{!∀ r, Decision (P r)} f d' :
  update_challenges P f d = Some d' →
  (∀ c, c_digest (f c) = c_digest c ∧ c_account (f c) = c_account c) →
  (∀ c, c ∈ challenges d → P c → c_failures (f c) < CHALLENGE_FAILURE_LIMIT) →
  inv d → inv d'.
Proof.
  intros Hu Hk Ht [Hw Hd]. split; [by eapply wf_update_challenges|].
  unfold update_challenges in Hu. destruct (update_checked _ _ _ _); [|done]. by injection Hu as <-.
Qed.

Lemma inv_update_passkeys (P : passkey_row → Prop) `{!∀ r, Decision (P r)} f d' :
  update_passkeys P f d = Some d' →
  (∀ p, p_credential (f p) = p_credential p ∧ p_public_id (f p) = p_public_id p
        ∧ p_account (f p) = p_account p) →
  inv d → inv d'.
Proof.
  intros Hu Hk [Hw Hd]. split; [by eapply wf_update_passkeys|].
  unfold update_passkeys in Hu. destruct (update_checked _ _ _ _); [|done]. by injection Hu as <-.
Qed.

Lemma inv_update_passkey_challenges (P : passkey_challenge_row → Prop) `{!∀ r, Decision (P r)}
    f d' :
  update_passkey_challenges P f d = Some d' →
  (∀ k, k_digest (f k) = k_digest k ∧ k_purpose (f k) = k_purpose k ∧ k_account (f k) = k_account k) →
  (∀ k, k ∈ passkey_challenges d → P k → k_failures (f k) < CHALLENGE_FAILURE_LIMIT) →
  inv d → inv d'.
Proof.
  intros Hu Hk Ht [Hw Hd]. split; [by eapply wf_update_passkey_challenges|].
  unfold update_passkey_challenges in Hu.
  destruct (update_checked _ _ _ _); [|done]. by injection Hu as <-.
Qed.

Lemma inv_update_runs (P : run_row → Prop) `{!∀ r, Decision (P r)} f d' :
  update_runs P f d = Some d' → (∀ r, ru_account (f r) = ru_account r) → inv d → inv d'.
Proof.
  intros Hu Hk [Hw Hd]. split; [by eapply wf_update_runs|].
  unfold update_runs in Hu. destruct (forallb _ _); [|done].
  destruct (update_unique _ _ _ _ _); [|done]. by injection Hu as <-.
Qed.

Lemma insert_account_Some r d' :
  insert_account r d = Some d' → d' = set_accounts (accounts d ++ [r]) d.
Proof.
  unfold insert_account. destruct (insert_row _ _ _ _) eqn:Hi; [|done]. intros [= <-].
  by apply insert_row_Some in Hi as [-> _].
Qed.

Lemma inv_insert_account r d' :
  insert_account r d = Some d' → a_state r ≠ PENDING → inv d → inv d'.
Proof.
  intros Hi Hs [Hw Hd]. split; [by eapply wf_insert_account|]. by apply insert_account_Some in Hi as ->.
Qed.

Lemma inv_insert_recovery r d' : insert_recovery r d = Some d' → inv d → inv d'.
Proof.
  intros Hi [Hw Hd]. split; [by eapply wf_insert_recovery|].
  unfold insert_recovery in Hi. destruct (insert_row _ _ _ _); [|done]. by injection Hi as <-.
Qed.

Lemma inv_insert_challenge r d' :
  insert_challenge r d = Some d' → c_failures r < CHALLENGE_FAILURE_LIMIT →
  count_where (λ c, c_account c = c_account r) (challenges d) < _MAX_CHALLENGES_PER_ACCOUNT →
  inv d → inv d'.
Proof.
  intros Hi Hf Hn [Hw Hd]. split; [by eapply wf_insert_challenge|].
  unfold insert_challenge in Hi. destruct (insert_row _ _ _ _); [|done]. by injection Hi as <-.
Qed.

Lemma inv_insert_session r d' :
  insert_session r d = Some d' → session_times r →
  count_where (λ s, s_account s = s_account r) (sessions d) < MAX_SESSIONS_PER_ACCOUNT →
  inv d → inv d'.
Proof.
  intros Hi Hf Hn [Hw Hd]. split; [by eapply wf_insert_session|].
  unfold insert_session in Hi. destruct (insert_row _ _ _ _); [|done]. by injection Hi as <-.
Qed.

Lemma inv_insert_passkey r d' :
  insert_passkey r d = Some d' →
  count_where (λ p, p_account p = p_account r) (passkeys d) < MAX_PASSKEYS_PER_ACCOUNT →
  inv d → inv d'.
Proof.
  intros Hi Hn [Hw Hd]. split; [by eapply wf_insert_passkey|].
  unfold insert_passkey in Hi. destruct (insert_row _ _ _ _); [|done]. by injection Hi as <-.
Qed.

Lemma inv_insert_passkey_challenge r d' :
  insert_passkey_challenge r d = Some d' → k_failures r < CHALLENGE_FAILURE_LIMIT →
  passkey_challenge_room (k_purpose r) (k_account r) d →
  inv d → inv d'.
Proof.
  intros Hi Hf Hn [Hw Hd]. split; [by eapply wf_insert_passkey_challenge|].
  unfold insert_passkey_challenge in Hi. destruct (insert_row _ _ _ _); [|done]. by injection Hi as <-.
Qed.

Lemma inv_insert_run r d' :
  insert_run r d = Some d' →
  count_where (λ x, ru_account x = ru_account r) (mail_runs d) < _MAX_MAIL_RULE_RUNS_PER_ACCOUNT →
  inv d → inv d'.
Proof.
  intros Hi Hn [Hw Hd]. split; [by eapply wf_insert_run|].
  unfold insert_run in Hi. destruct (insert_row _ _ _ _); [|done]. by injection Hi as <-.
Qed.

Lemma inv_upsert_rate r d' :
  upsert_rate r d = Some d' →
  (rate_row_at (l_scope r) (l_identity r) (rate_limits d) = None →
   zlen (rate_limits d) < _MAX_RATE_LIMIT_ROWS) →
  inv d → inv d'.
Proof.
  intros Hi Hn [Hw Hd]. split; [by eapply wf_upsert_rate|].
  unfold upsert_rate in Hi. destruct (rate_row_at _ _ _).
  - destruct (update_checked _ _ _ _); [|done]. by injection Hi as <-.
  - destruct (rate_check _ _); [|done]. by injection Hi as <-.
Qed.
End Inv.
#[export] Hint Resolve inv_delete_recovery inv_delete_rate inv_delete_passkeys
  inv_delete_passkey_challenges inv_delete_runs inv_delete_sessions inv_delete_account : inv.
