(* ===== verification/AuthSafe.v ===== *)
(** * Every operation of the store keeps the invariant

    [keeps m]: from a database satisfying [inv], [m] leaves one satisfying
    [inv], whether it returns or raises, for every behaviour of the clock, the
    random source and the external functions. *)

From S2P Require Import Prelude Text Errors Sql Totp Identity Json AuthDb AuthCore AuthStore AuthPasskey AuthRate AuthRules AuthWp AuthInv.

#[local] Set Default Proof Using "Type*".

Definition keeps {A} (m : M A) : Prop := ∀ d, inv d → wp m (λ _, inv) (λ _, inv) d.

(** ** Code that does not touch the database *)

Section Readonly.
Context (self : store).

Lemma readonly_now : readonly (_now self).
Proof.
  intros w r w'. unfold _now. destruct (clock self _) as [num den|]; [|by intros [= <- <-]].
  destruct (num <? 0); by intros [= <- <-].
Qed.

Lemma readonly_random n : readonly (_random_bytes self n).
Proof. intros w r w'. unfold _random_bytes. destruct (zlen _ =? n); by intros [= <- <-]. Qed.
Hint Resolve readonly_now readonly_random : readonly.

Lemma readonly_allocate_id n len taken : readonly (allocate_id self n len taken).
Proof. induction n; simpl; solve_readonly. Qed.

Lemma readonly_allocate_token n key taken : readonly (allocate_token self n key taken).
Proof. induction n; simpl; solve_readonly. Qed.
Hint Resolve readonly_allocate_id readonly_allocate_token : readonly.

Lemma readonly_generate_codes n codes seen : readonly (generate_codes self n codes seen).
Proof. revert codes seen. induction n; intros; simpl; solve_readonly. Qed.

Lemma readonly_required {A} (o : option A) : readonly (_required_row o).
Proof. unfold _required_row. solve_readonly. Qed.

Lemma readonly_hex32 v : readonly (_validate_hex32 v).
Proof. unfold _validate_hex32. solve_readonly. Qed.
Hint Resolve readonly_generate_codes readonly_required readonly_hex32 : readonly.

Lemma readonly_encrypt i c s : readonly (_encrypt_totp self i c s).
Proof. unfold _encrypt_totp. solve_readonly. Qed.

Lemma readonly_decrypt r : readonly (_decrypt_totp self r).
Proof. unfold _decrypt_totp. solve_readonly. Qed.

Lemma readonly_enrollment c s : readonly (_enrollment self c s).
Proof. unfold _enrollment. solve_readonly. Qed.
End Readonly.

#[export] Hint Resolve readonly_now readonly_random readonly_allocate_id readonly_allocate_token
  readonly_generate_codes readonly_required readonly_hex32 readonly_encrypt readonly_decrypt
  readonly_enrollment : readonly.

#[export] Hint Unfold _new_account_id_locked _new_session_id_locked _new_passkey_public_id_locked
  _new_mail_rule_id_locked _new_mail_rule_run_id_locked _new_unique_challenge_token_locked
  _new_unique_session_token_locked _account_row_by_email_locked _account_row_by_id_locked
  _validate_account_id _validate_session_id _validate_passkey_public_id _validate_mail_rule_id
  _validate_mail_rule_run_id _generate_recovery_codes _passkey_credential_row_locked
  _passkey_credential_row_by_id_locked : readonly.

(** ** Composition *)

(** An exception may leave anything behind: the postcondition inside a
    transaction, whose rollback forgets it. *)
Definition lax (X : exc → db → Prop) : Prop := ∀ e d, X e d.

Lemma keeps_readonly {A} (m : M A) : readonly m → keeps m.
Proof. intros Hm d Hd. by apply wp_readonly. Qed.

Lemma keeps_bind {A B} (m : M A) (f : A → M B) :
  keeps m → (∀ a, keeps (f a)) → keeps (m ≫= f).
Proof.
  intros Hm Hf d Hd. apply wp_bind. eapply wp_mono; [by apply Hm| |done].
  intros a d' Hd'. by apply Hf.
Qed.

Lemma keeps_transaction {A} (body : M A) :
  (∀ d X, inv d → lax X → wp body (λ _, inv) X d) → keeps (_transaction body).
Proof.
  intros Hb d Hd. apply wp_transaction; [|done].
  eapply wp_mono; [apply (Hb d (λ _ _, True))|done|done]; done.
Qed.

(** Continuation form: after code that leaves the database alone. *)
Lemma wp_read_bind {A B} (m : M A) (f : A → M B) Q X d :
  readonly m → lax X → (∀ a, wp (f a) Q X d) → wp (m ≫= f) Q X d.
Proof. intros Hm HX Hf. apply wp_bind, wp_readonly; auto. Qed.

(** After code that keeps [I] of the database. *)
Lemma wp_seq {A B} (m : M A) (f : A → M B) (I : A → db → Prop) Q X d :
  wp m I X d → (∀ a d', I a d' → wp (f a) Q X d') → wp (m ≫= f) Q X d.
Proof. intros Hm Hf. apply wp_bind. by eapply wp_mono. Qed.

Ltac ro := solve_readonly.

(** One step of a transaction body that may raise at will. *)
Ltac tx_step :=
  lazymatch goal with
  | |- lax _ => assumption
  | |- wp (_ ≫= _) _ _ _ => first [apply wp_read_bind; [solve [ro]|assumption|intros ?] | apply wp_bind]
  | |- wp (match ?x with _ => _ end) _ _ _ => destruct x eqn:?
  | |- wp (mret _) _ _ _ => apply wp_ret
  | |- wp (throw _) _ _ _ => apply wp_throw; match goal with H : lax _ |- _ => apply H end
  | |- wp (query _) _ _ _ => apply wp_query
  | |- wp (exec _) _ _ _ => apply wp_exec
  | |- wp (exec_checked _) _ _ _ =>
      apply wp_exec_checked; [intros ? ?|intros _; match goal with H : lax _ |- _ => apply H end]
  | |- wp (lift _) _ _ _ =>
      apply wp_lift; [intros ? ?|intros ? _; match goal with H : lax _ |- _ => apply H end]
  | |- wp (require _ _) _ _ _ =>
      apply wp_require; [intros ?|intros _; match goal with H : lax _ |- _ => apply H end]
  | |- wp (when _ _) _ _ _ => apply wp_when; intros ?
  | |- wp (let _ := _ in _) _ _ _ => cbv zeta
  | |- wp _ _ _ _ =>
      apply wp_readonly; [solve [ro]|intros ?|intros ?; match goal with H : lax _ |- _ => apply H end]
  end.
Ltac tx := repeat (tx_step; cbv beta).

(** ** The shared helpers *)

Section Helpers.
Context (self : store).

Lemma keeps_now_bind {A} (f : Z → M A) :
  (∀ now, 0 ≤ now → keeps (f now)) → keeps (_now self ≫= f).
Proof.
  intros Hf d Hd. apply wp_bind. intros w r w' Hw. unfold _now.
  destruct (clock self (w_clock w)) as [num den|]; [|by intros [= <- <-]; subst].
  destruct (Z.ltb_spec num 0); intros [= <- <-]; simpl; [by subst|].
  rewrite Hw. apply Hf; [|done]. apply Z.div_pos; lia.
Qed.

(** Room for one more row of a capped group. *)
Lemma count_evict_room {R} (key ord : R → list Z) (P : R → Prop) `{!∀ r, Decision (P r)} t cap :
  NoDup (key <$> t) → 1 ≤ cap → cap ≤ count_where P t →
  count_where P (evict key ord P (count_where P t - cap + 1) t) < cap.
Proof. intros Hd Hc Hn. rewrite count_evict; [lia|done|done|lia]. Qed.

Lemma wp_make_room (cap : Z) (evicted : db → db) (n : Z) (G : db → Z) X d :
  (cap ≤ n → inv (evicted d) ∧ G (evicted d) < cap) → n = G d → inv d →
  wp (when (cap <=? n) (exec evicted)) (λ _ d, inv d ∧ G d < cap) X d.
Proof.
  intros He Hn Hd. apply wp_when.
  - intros Hc. apply wp_exec, He. lia.
  - intros Hc. split; [done|]. lia.
Qed.

Lemma wp_issue_session a now ip ua d X :
  0 ≤ now → inv d → lax X → wp (_issue_session_locked self a now ip ua) (λ _, inv) X d.
Proof.
  intros Hnow Hd HX. unfold _issue_session_locked, _delete_expired_sessions_locked.
  apply wp_read_bind; [ro|done|intros [ip' agent]].
  eapply (wp_seq _ _ (λ _, inv)); [apply wp_exec; by apply inv_delete_sessions|].
  clear d Hd. intros ? d Hd. apply wp_bind, wp_query.
  eapply wp_seq.
  { apply (wp_make_room _ _ _ (λ d, count_where (λ s, s_account s = a_id a) (sessions d)));
      [|done|done].
    intros Hn. split; [by apply inv_delete_sessions|].
    apply (count_evict_room s_digest session_age_key (λ s, s_account s = a_id a)); [|done|done].
    apply wf_session_digests, Hd. }
  clear d Hd. intros _ d [Hd Hroom]. tx.
  eapply inv_insert_session; eauto. simpl. unfold session_times, SESSION_ABSOLUTE_SECONDS. simpl. lia.
Qed.

(** A session row kept by an update of its times. *)
Lemma wp_valid_session digest now touch d X :
  inv d → lax X →
  wp (_valid_session_row_locked digest now touch)
    (λ o d', inv d' ∧ ∀ s a e, o = Some (s, a, e) →
       s_digest s = digest ∧ session_live now s = true ∧
       (∀ x, x ∈ sessions d' → s_digest x = digest →
          s_created x = s_created s ∧ s_absolute x = s_absolute s)) X d.
Proof.
  intros Hd HX. unfold _valid_session_row_locked. apply wp_bind, wp_query.
  destruct (lookup_where _ (sessions d)) as [s|] eqn:Hs; [|by apply wp_ret].
  apply lookup_where_Some in Hs as [Hsd Hs].
  destruct (lookup_where _ (accounts d)) as [a|] eqn:Ha; [|by apply wp_ret].
  destruct (session_live now s) eqn:Hl; simpl.
  2:{ apply wp_bind, wp_exec, wp_ret. split; [by apply inv_delete_sessions|done]. }
  assert (Hu : ∀ x, x ∈ sessions d → s_digest x = digest → x = s).
  { intros x Hx Hxd. eapply (NoDup_key_eq s_digest); eauto; [apply wf_session_digests, Hd|congruence]. }
  eapply (wp_seq _ _ (λ _ d', inv d' ∧ ∀ x, x ∈ sessions d' → s_digest x = digest →
    s_created x = s_created s ∧ s_absolute x = s_absolute s)).
  - apply wp_when; [|intros _; split; [done|]; intros x Hx Hxd; by rewrite (Hu x)].
    intros _. apply wp_exec_checked; [|intros _; apply HX]. intros d' Hd'. split.
    + eapply inv_update_sessions; [exact Hd'|done| |done].
      intros x Hx Hxd (Ht1 & Ht2 & Ht3). rewrite (Hu x Hx Hxd) in *. unfold session_times; simpl.
      destruct touch; lia.
    + unfold update_sessions in Hd'. destruct (update_checked _ _ _ _) as [t|] eqn:Hc; [|done].
      injection Hd' as <-. apply update_checked_Some in Hc as [-> _]. simpl.
      intros x (x0 & Hx0 & ->)%elem_of_update Hxd.
      assert (s_digest x0 = digest) as Hx0d by (by case_decide).
      case_decide; simpl; by rewrite (Hu x0 Hx0 Hx0d).
  - intros _ d' [Hd' Hx]. apply wp_ret. split; [done|]. intros s' a' e [= <- <- <-]. auto.
Qed.

Lemma wp_store_codes account codes now d X :
  inv d → lax X → wp (_store_recovery_codes_locked self account codes now) (λ _, inv) X d.
Proof.
  intros Hd HX. unfold _store_recovery_codes_locked. apply (wp_iter inv); [done|].
  clear d Hd. intros code d _ Hd. tx. by eapply inv_insert_recovery.
Qed.

Lemma wp_read_challenge digest now d X :
  inv d → lax X →
  wp (_challenge_row_locked digest now)
    (λ ca d', d' = d ∧ ca.1 ∈ challenges d ∧ c_digest ca.1 = digest
              ∧ ca.2 ∈ accounts d ∧ a_id ca.2 = c_account ca.1 ∧ now < c_expires ca.1) X d.
Proof.
  intros Hd HX. unfold _challenge_row_locked. apply wp_bind, wp_query.
  destruct (lookup_where _ (challenges d)) as [c|] eqn:Hc; [|apply wp_throw, HX].
  destruct (lookup_where _ (accounts d)) as [a|] eqn:Ha; [|apply wp_throw, HX].
  apply lookup_where_Some in Hc as [??], Ha as [??].
  destruct (Z.leb_spec (c_expires c) now); [apply wp_throw, HX|]. apply wp_ret. simpl. auto 10.
Qed.

(** After the reset no pending account is owned by [digest]. *)
Lemma wp_record_failure digest n d X :
  0 ≤ n → inv d → lax X → wp (_record_challenge_failure_locked self digest n) (λ _, inv) X d.
Proof.
  intros Hn Hd HX. unfold _record_challenge_failure_locked.
  destruct (Z.leb_spec CHALLENGE_FAILURE_LIMIT (n + 1)).
  - apply wp_read_bind; [ro|done|intros now]. unfold _release_pending_enrollment_locked. tx.
    apply inv_delete_challenges.
    + pose proof (update_accounts_Some _ _ _ _ H0) as ->. simpl.
      intros a c (a0 & Ha0 & ->)%elem_of_update Hp _ _ Ho Hdg. rewrite Hdg in Ho.
      destruct (decide (a_state a0 = PENDING ∧ a_owner a0 = Some digest)) as [|Hno]; [done|].
      by apply Hno.
    + by eapply inv_update_accounts'.
  - apply wp_exec_checked; [|intros _; apply HX]. intros d' Hd'.
    eapply inv_update_challenges; [exact Hd'|done| |done]. intros c Hc Hdg. simpl. lia.
Qed.

Lemma wp_revoke_pending account d X :
  inv d → lax X →
  wp (_revoke_pending_challenges_locked self account) (λ _, inv) X d.
Proof.
  intros Hd HX. unfold _revoke_pending_challenges_locked. tx.
  apply inv_delete_passkey_challenges, inv_delete_challenges.
  - pose proof (update_accounts_Some _ _ _ _ H) as ->. simpl.
    intros a' c (a0 & Ha0 & ->)%elem_of_update Hp _ Hca Ho Hid.
    case_decide as Hd0; [done|]. apply Hd0. split; [congruence|done].
  - by eapply inv_update_accounts'.
Qed.

Lemma wp_revoke_account account d X :
  inv d → lax X →
  wp (_revoke_account_authentication_locked self account) (λ _, inv) X d.
Proof.
  intros Hd HX. unfold _revoke_account_authentication_locked.
  eapply wp_seq; [by apply wp_revoke_pending|]. clear d Hd. intros ? d Hd. tx.
  by apply inv_delete_sessions.
Qed.

Definition not_pending (account : list Z) (d : db) : Prop :=
  ∀ a, a ∈ accounts d → a_id a = account → a_state a ≠ PENDING.

Lemma inv_delete_account_challenges account d :
  not_pending account d → inv d → inv (delete_challenges (λ c, c_account c = account) d).
Proof.
  intros Hn. apply inv_delete_challenges. intros a c Ha Hp _ Hca _ Hc. eapply Hn; eauto. congruence.
Qed.

Lemma wp_delete_authentication account d X :
  not_pending account d → inv d → lax X →
  wp (delete_account_authentication account) (λ _, inv) X d.
Proof.
  intros Hn Hd HX. unfold delete_account_authentication. tx.
  by apply inv_delete_sessions, inv_delete_passkey_challenges, inv_delete_account_challenges.
Qed.

Lemma wp_store_codes_np account account' codes now d X :
  not_pending account d → inv d → lax X →
  wp (_store_recovery_codes_locked self account' codes now)
    (λ _ d', inv d' ∧ not_pending account d') X d.
Proof.
  intros Hn Hd HX. unfold _store_recovery_codes_locked.
  apply (wp_iter (λ d', inv d' ∧ not_pending account d')); [done|].
  clear d Hd Hn. intros code d _ [Hd Hn]. tx. split; [by eapply inv_insert_recovery|].
  unfold insert_recovery in *. destruct (insert_row _ _ _ _); [|done]. by simplify_option_eq.
Qed.

(** The account of [consume_totp] is active before and after. *)
Lemma wp_consume_totp row code now d X :
  row ∈ accounts d → inv d → lax X →
  wp (_consume_totp_locked self row code now) (λ _ d', inv d' ∧ not_pending (a_id row) d') X d.
Proof.
  intros Hrow Hd HX. unfold _consume_totp_locked.
  destruct (bool_decide (a_state row = ACTIVE)) eqn:Hs; simpl; [|apply wp_throw, HX].
  apply bool_decide_eq_true in Hs.
  assert (Hn : not_pending (a_id row) d).
  { intros a Ha Hid. rewrite (NoDup_key_eq a_id (accounts d) a row); eauto;
      [congruence|apply wf_account_ids, Hd]. }
  apply wp_read_bind; [ro|done|intros secret].
  destruct (fresh_counter _ _ _ _) as [counter|]; [|by apply wp_ret]. tx. split.
  - eapply inv_update_accounts'; eauto; done.
  - pose proof (update_accounts_Some _ _ _ _ H) as ->. simpl.
    intros b (a0 & Ha0 & ->)%elem_of_update Hid.
    case_decide as Hg; simpl in *; [|by apply Hn]. by destruct Hg as (_ & -> & _).
Qed.
End Helpers.

(** * Accounts, enrollment, second factors and sessions keep the invariant

    One lemma [<method>_keeps] per method of [AuthStore]. *)

From S2P Require Import Prelude Text Errors Sql Totp Identity Json AuthDb AuthCore AuthStore AuthPasskey AuthRate AuthRules AuthWp AuthInv.

#[local] Set Default Proof Using "Type*".

(** The steps around a transaction: validation and conversion read nothing, the
    clock reading is non-negative. *)
Ltac outside :=
  repeat lazymatch goal with
  | |- keeps (_now _ ≫= _) => apply keeps_now_bind; intros ? ?
  | |- keeps (_transaction _ ≫= _) => apply keeps_bind; [apply keeps_transaction; intros ? ? ? ?|intros ?]
  | |- keeps (_transaction _) => apply keeps_transaction; intros ? ? ? ?
  | |- keeps (_ ≫= _) => apply keeps_bind; [apply keeps_readonly; solve [ro]|intros ?]
  | |- keeps (match ?x with _ => _ end) => destruct x eqn:?
  | |- keeps _ => apply keeps_readonly; solve [ro]
  end.

Lemma readonly_locked {A} (m : M A) : readonly m → readonly (locked m).
Proof. intros Hm. unfold locked. apply readonly_bind; [apply readonly_open|auto]. Qed.
#[export] Hint Resolve readonly_locked : readonly.

Section Ops.
Context (self : store).

Lemma readonly_require_account i : readonly (_require_account_by_id_locked i).
Proof. unfold _require_account_by_id_locked. ro. Qed.
Hint Resolve readonly_require_account : readonly.

Lemma wp_require_account i d X :
  lax X → wp (_require_account_by_id_locked i) (λ a d', d' = d ∧ a ∈ accounts d ∧ a_id a = i) X d.
Proof.
  intros HX. unfold _require_account_by_id_locked, _account_row_by_id_locked.
  apply wp_bind, wp_query. destruct (lookup_where _ _) as [a|] eqn:Ha; [|apply wp_throw, HX].
  apply lookup_where_Some in Ha as [??]. by apply wp_ret.
Qed.

(** An account row that is not pending, inserted or looked up. *)
Lemma create_account_keeps email role required : keeps (create_account self email role required).
Proof.
  unfold create_account. outside. unfold _new_account_id_locked. tx.
  by eapply inv_insert_account.
Qed.

Lemma sync_accounts_keeps emails role required : keeps (sync_accounts self emails role required).
Proof.
  unfold sync_accounts. outside. apply (wp_map inv); [done|].
  clear d H0. intros email d _ Hd. unfold sync_one. tx; [done|].
  by eapply inv_insert_account.
Qed.

Lemma wp_revoke_after i b d X :
  inv d → lax X → wp (revoke_after_change self i b) (λ _, inv) X d.
Proof.
  intros Hd HX. unfold revoke_after_change. destruct b; [|by apply wp_revoke_pending].
  eapply wp_seq; [by apply wp_revoke_account|]. intros ? d' Hd'. by apply wp_ret.
Qed.

Lemma set_role_keeps i role b : keeps (set_role self i role b).
Proof.
  unfold set_role. outside. tx.
  eapply wp_mono; [apply wp_revoke_after; [|done]| |done]; [by eapply inv_update_accounts'|].
  intros. by tx.
Qed.

Lemma set_password_change_required_keeps i required b :
  keeps (set_password_change_required self i required b).
Proof.
  unfold set_password_change_required. outside. tx.
  eapply wp_mono; [apply wp_revoke_after; [|done]| |done]; [by eapply inv_update_accounts'|].
  intros. by tx.
Qed.

(** Updating every account [i] to a state other than pending. *)
Lemma not_pending_update i f (d d' : db) :
  update_accounts (λ a, a_id a = i) f d = Some d' → keeps_identity f →
  (∀ a, a_state (f a) ≠ PENDING) → not_pending i d'.
Proof.
  intros Hu Hk Hf. apply update_accounts_Some in Hu as ->.
  intros a (a0 & Ha0 & ->)%elem_of_update Hid. simpl in *. case_decide; [apply Hf|done].
Qed.

Ltac not_pending :=
  match goal with H : update_accounts _ _ _ = Some _ |- _ =>
    exact (not_pending_update _ _ _ _ H ltac:(done) ltac:(done)) end.

Lemma reset_totp_keeps i : keeps (reset_totp self i).
Proof.
  unfold reset_totp. outside. tx.
  eapply wp_mono; [apply wp_delete_authentication; [| |done]| |done].
  - not_pending.
  - apply inv_delete_recovery. by eapply inv_update_accounts'.
  - intros. by tx.
Qed.

Lemma rotate_totp_keeps i : keeps (rotate_totp self i).
Proof.
  unfold rotate_totp. outside. tx.
  eapply wp_mono; [apply (wp_store_codes_np self a)| |]; [| |done| |done].
  - not_pending.
  - apply inv_delete_recovery. by eapply inv_update_accounts'.
  - intros ? ? [? ?]. eapply wp_seq; [by apply wp_delete_authentication|]. intros. by tx.
Qed.

Lemma regenerate_recovery_codes_keeps i code : keeps (regenerate_recovery_codes self i code).
Proof.
  unfold regenerate_recovery_codes. outside.
  eapply wp_seq; [by apply wp_require_account|]. intros row d' (-> & Hrow & Hid).
  eapply wp_seq; [by apply wp_consume_totp|]. intros consumed d' [Hd' Hn]. tx.
  eapply wp_mono; [apply (wp_store_codes_np self a); [|by apply inv_delete_recovery|done]| |done].
  - by rewrite <-Hid.
  - intros ? ? [? ?]. eapply wp_seq; [by apply wp_delete_authentication|]. intros. by tx.
Qed.

Lemma verify_totp_keeps i code : keeps (verify_totp self i code).
Proof.
  unfold verify_totp. outside.
  eapply wp_seq; [by apply wp_require_account|]. intros row d' (-> & Hrow & Hid).
  eapply wp_seq; [by apply wp_consume_totp|]. intros consumed d' [Hd' Hn]. by tx.
Qed.

Lemma delete_account_keeps i : keeps (delete_account self i).
Proof.
  unfold delete_account. outside. tx. by apply inv_delete_account, inv_delete_rate.
Qed.

Lemma provision_active_account_keeps email role required :
  keeps (provision_active_account self email role required).
Proof.
  unfold provision_active_account. outside. tx.
  eapply wp_mono; [apply wp_store_codes; [|done]| |done]; [by eapply inv_insert_account|].
  intros. by tx.
Qed.
(** ** Bootstrap import *)

Lemma not_pending_ext i d d' : accounts d' = accounts d → not_pending i d → not_pending i d'.
Proof. unfold not_pending. by intros ->. Qed.

Lemma wp_upsert_bootstrap r d X :
  a_state r = ACTIVE → inv d → lax X →
  (∀ a, a ∈ accounts d → a_email a = a_email r → a_id a = a_id r) →
  wp (exec_checked (upsert_bootstrap r)) (λ _ d', inv d' ∧ not_pending (a_id r) d') X d.
Proof.
  intros Hs Hd HX Hids. apply wp_exec_checked; [|intros _; apply HX]. intros d'.
  unfold upsert_bootstrap. destruct (lookup_where _ _) as [a|] eqn:Ha.
  - intros Hu. apply lookup_where_Some in Ha as [Hae Ha]. split.
    + eapply inv_update_accounts'; [exact Hu|done| |done]. done.
    + apply update_accounts_Some in Hu as ->. intros b (b0 & Hb0 & ->)%elem_of_update Hid. simpl in *.
      case_decide as He; [done|]. exfalso. apply He.
      rewrite (NoDup_key_eq a_id (accounts d) b0 a); auto; [apply wf_account_ids, Hd|].
      rewrite Hid. symmetry. auto.
  - intros Hi. split; [eapply inv_insert_account; [exact Hi|congruence|done]|].
    unfold insert_account in Hi. destruct (insert_row _ _ _ _) as [t|] eqn:Hr; [|done].
    injection Hi as <-. apply insert_row_Some in Hr as (-> & _ & Hn).
    intros b [Hb| ->%list_elem_of_singleton]%elem_of_app Hid; [|congruence].
    specialize (Hn b Hb). unfold account_conflict in Hn. by rewrite Hid, str_eqb_refl in Hn.
Qed.

Lemma bootstrap_one_safe now p d X :
  inv d → lax X → wp (bootstrap_one self now p) (λ _, inv) X d.
Proof.
  intros Hd HX. unfold bootstrap_one, _account_row_by_email_locked. apply wp_bind, wp_query.
  eapply (wp_seq _ _ (λ ic d', d' = d ∧
    ∀ a, a ∈ accounts d → a_email a = q_canonical p → a_id a = ic.1)).
  { destruct (lookup_where _ _) as [row|] eqn:Hl.
    - apply wp_ret. split; [done|]. apply lookup_where_Some in Hl as [Hre Hrow]. simpl.
      intros a Ha Hae. f_equal. eapply (NoDup_key_eq a_email); eauto;
        [apply wf_account_emails, Hd|congruence].
    - rewrite lookup_where_None in Hl. apply wp_read_bind; [ro|done|intros id]. apply wp_ret.
      split; [done|]. intros a Ha Hae. by destruct (Hl a Ha). }
  intros [id created] d' [-> Hids]. simpl in Hids.
  apply wp_read_bind; [ro|done|intros [nonce cipher]].
  eapply wp_seq; [by apply wp_upsert_bootstrap|]. simpl. clear d Hd Hids. intros ? d [Hd Hn].
  apply wp_bind, wp_exec.
  eapply wp_seq; [apply (wp_store_codes_np self id); [exact Hn|by apply inv_delete_recovery|done]|].
  intros ? d1 [Hd1 Hn1]. eapply wp_seq; [by apply wp_delete_authentication|]. intros. by tx.
Qed.

Lemma bootstrap_active_accounts_keeps records : keeps (bootstrap_active_accounts self records).
Proof.
  unfold bootstrap_active_accounts. outside. apply (wp_map inv); [done|].
  intros. by apply bootstrap_one_safe.
Qed.

Lemma bootstrap_active_account_keeps email role secret codes required :
  keeps (bootstrap_active_account self email role secret codes required).
Proof.
  unfold bootstrap_active_account. apply keeps_bind; [apply bootstrap_active_accounts_keeps|].
  intros. outside.
Qed.
End Ops.

(** * Login challenges, enrollment and sessions keep the invariant *)

From S2P Require Import Prelude Text Errors Sql Totp Identity Json AuthDb AuthCore AuthStore AuthPasskey AuthRate AuthRules AuthWp AuthInv.

#[local] Set Default Proof Using "Type*".

(** All the rows of [P] outside [Q] share one key: at most one of them. *)
Lemma count_except {R K} `{!EqDecision K} (key : R → K) (P Q : R → Prop)
    `{!∀ r, Decision (P r), !∀ r, Decision (Q r)} t k :
  NoDup (key <$> t) → (∀ r, r ∈ t → P r → ¬ Q r → key r = k) →
  count_where P t ≤ count_where Q t + 1.
Proof.
  intros Hd Hk. pose proof (count_key_le key t k Hd) as Hc.
  assert (count_where P t ≤ count_where Q t + count_where (λ r, key r = k) t); [|lia].
  clear Hd Hc. unfold count_where, select_where, zlen. induction t as [|r t IH]; [done|].
  rewrite !filter_cons.
  assert (Hr : P r → ¬ Q r → key r = k) by (apply Hk; left).
  assert (IH' := IH (λ r' Hr', Hk r' (list_elem_of_further _ _ _ Hr'))).
  repeat case_decide; simpl; try lia. exfalso. auto.
Qed.

Section Login.
Context (self : store).

(** ** Challenges *)

Lemma wp_delete_expired_challenges now d X :
  inv d → lax X → wp (_delete_expired_challenges_locked now) (λ _, inv) X d.
Proof.
  intros Hd HX. unfold _delete_expired_challenges_locked. tx.
  match goal with H : update_accounts _ _ _ = Some _ |- _ => rename H into Hu end.
  apply inv_delete_challenges; [|by eapply inv_update_accounts'].
  apply update_accounts_Some in Hu as ->. simpl.
  intros b c (b0 & Hb0 & ->)%elem_of_update Hp Hc _ Ho Hexp.
  case_decide as Hin; [done|]. apply Hin. split; [done|]. rewrite Ho. simpl.
  unfold expired_digests. apply list_elem_of_fmap_2. by apply elem_of_select.
Qed.

Lemma inv_evict_challenges account d n :
  inv d → inv (evict_oldest_challenges account n d).
Proof.
  intros Hd. apply inv_delete_challenges; [|done].
  intros a c Ha Hp Hc Hca Ho (c' & Hdg & Hc')%list_elem_of_fmap.
  apply elem_of_limit in Hc'. rewrite elem_of_order_by, elem_of_select in Hc'.
  destruct Hc' as [[Hacc Hno] Hin].
  assert (c = c') as <- by (eapply (NoDup_key_eq c_digest); eauto; apply wf_challenge_digests, Hd).
  apply Hno, Exists_exists. exists a. repeat split; auto. congruence.
Qed.

Lemma evict_challenges_room account d :
  inv d → let n := count_where (λ c, c_account c = account) (challenges d) in
  _MAX_CHALLENGES_PER_ACCOUNT ≤ n →
  count_where (λ c, c_account c = account)
    (challenges (evict_oldest_challenges account (n - _MAX_CHALLENGES_PER_ACCOUNT + 1) d))
  < _MAX_CHALLENGES_PER_ACCOUNT.
Proof.
  intros Hd n Hn. pose proof (wf_challenge_cap d (proj1 Hd) account) as Hcap.
  pose proof (wf_challenge_digests d (proj1 Hd)) as Hnd.
  assert (Hq : n ≤ count_where (removable_challenge account d) (challenges d) + 1).
  { destruct (lookup_where (λ a, a_id a = account) (accounts d)) as [a|] eqn:Ha.
    - apply lookup_where_Some in Ha as [Hid Ha].
      apply (count_except c_digest) with (k := default [] (a_owner a)); [done|].
      intros c Hc Hca Hr. unfold removable_challenge in Hr.
      destruct (decide (Exists (λ a0, a_id a0 = account ∧ a_state a0 = PENDING
        ∧ a_owner a0 = Some (c_digest c)) (accounts d))) as [Hex|]; [|tauto].
      apply Exists_exists in Hex as (b & Hb & Hbid & _ & Hbo).
      assert (b = a) as -> by (eapply (NoDup_key_eq a_id); eauto; [apply wf_account_ids, Hd|congruence]).
      by rewrite Hbo.
    - rewrite lookup_where_None in Ha. apply (count_except c_digest) with (k := []); [done|].
      intros c Hc Hca Hr. exfalso. apply Hr. split; [done|].
      intros (b & Hb & Hbid & _)%Exists_exists. by eapply Ha. }
  unfold evict_oldest_challenges, delete_challenges. simpl.
  pose proof (count_evict c_digest challenge_age_key (λ c, c_account c = account)
    (removable_challenge account d) (n - _MAX_CHALLENGES_PER_ACCOUNT + 1) (challenges d) Hnd) as He.
  unfold evict in He. rewrite He; [fold n; lia|by intros c [? _]|].
  unfold _MAX_CHALLENGES_PER_ACCOUNT in *. fold n in Hcap. lia.
Qed.

Lemma create_pending_challenge_keeps email : keeps (create_pending_challenge self email).
Proof.
  unfold create_pending_challenge. outside.
  apply wp_read_bind; [ro|done|intros [row|]]; [|by tx].
  eapply wp_seq; [by apply wp_delete_expired_challenges|].
  intros ? d1 Hd1. apply wp_bind, wp_query.
  eapply wp_seq.
  { apply (wp_make_room _ _ _ (λ d, count_where (λ c, c_account c = a_id row) (challenges d)));
      [|done|done].
    intros Hn. split; [by apply inv_evict_challenges|]. by apply evict_challenges_room. }
  intros ? d2 [Hd2 Hroom]. tx. by eapply inv_insert_challenge.
Qed.

(** ** Enrollment *)

Lemma begin_totp_enrollment_keeps token : keeps (begin_totp_enrollment self token).
Proof.
  unfold begin_totp_enrollment. outside.
  eapply wp_seq; [by apply wp_read_challenge|]. intros [c acc] d' (-> & Hc & Hcd & Ha & Hac & Hexp).
  simpl in *. apply wp_bind.
  eapply (wp_mono _ (λ _, inv) _ X X); [|intros ? ? ?; by apply wp_ret|done].
  destruct (a_state acc) eqn:Hs.
  - tx. apply inv_delete_sessions, inv_delete_passkey_challenges, inv_delete_recovery.
    eapply inv_update_accounts; [eassumption|done| |done].
    intros b Hb [Hbid _] _. exists c. rewrite Hbid. simpl. by rewrite Hcd.
  - tx; done.
  - tx.
Qed.

Lemma failures_nonneg d c : inv d → c ∈ challenges d → 0 ≤ c_failures c.
Proof.
  intros [Hw _] Hc. destruct (wf_challenges d Hw) as [Hf _]. rewrite Forall_forall in Hf.
  specialize (Hf c Hc). simpl in Hf. unfold challenge_check, failures_ok in Hf. lia.
Qed.

(** An update of one account, known to have matched it. *)
Lemma not_pending_matched acc (P : account_row → Prop) `{!∀ r, Decision (P r)} f (d d' : db) :
  inv d → acc ∈ accounts d → update_accounts P f d = Some d' → keeps_identity f →
  (∀ a, a_state (f a) ≠ PENDING) → (∀ a, P a → a_id a = a_id acc) →
  count_where P (accounts d) = 1 → not_pending (a_id acc) d'.
Proof.
  intros Hd Hacc Hu Hk Hf HP Hn. apply update_accounts_Some in Hu as ->.
  intros b (b0 & Hb0 & ->)%elem_of_update Hid. simpl in *.
  assert (a_id b0 = a_id acc) as Hb0id by (case_decide; [by destruct (Hk b0) as [<- _]|done]).
  assert (b0 = acc) as -> by (eapply (NoDup_key_eq a_id); eauto; apply wf_account_ids, Hd).
  case_decide as HPa; [apply Hf|]. exfalso.
  assert (count_where P (accounts d) = 0); [|lia].
  apply count_zero. intros x Hx HPx. apply HPa.
  assert (x = acc) as <-; [|done].
  eapply (NoDup_key_eq a_id); eauto. apply wf_account_ids, Hd.
Qed.

Lemma wp_failed digest c d X {A} (Q : option A → db → Prop) :
  inv d → 0 ≤ c_failures c → lax X → (∀ d', inv d' → Q None d') →
  wp (_record_challenge_failure_locked self digest (c_failures c) ;; mret None) Q X d.
Proof.
  intros Hd Hc HX HQ. eapply wp_seq; [by apply wp_record_failure|]. intros ? d' Hd'.
  apply wp_ret. auto.
Qed.

Lemma confirm_totp_enrollment_keeps token code ip ua :
  keeps (confirm_totp_enrollment self token code ip ua).
Proof.
  unfold confirm_totp_enrollment. outside.
  eapply wp_seq; [by apply wp_read_challenge|]. intros [c acc] d' (-> & Hc & Hcd & Ha & Hac & Hexp).
  simpl in *. destruct (negb _); [by tx|]. destruct (negb _); [by tx|]. cbv zeta.
  pose proof (failures_nonneg d c H0 Hc) as Hnn.
  apply wp_read_bind; [ro|done|intros secret].
  destruct (fresh_counter _ _ _ _) as [counter|]; [|by apply wp_failed].
  apply wp_bind, wp_query, wp_bind, wp_exec_checked; [intros d1 Hu|intros _; apply H1].
  assert (Hd1 : inv d1) by (by eapply inv_update_accounts').
  destruct (Z.eqb_spec (count_where (confirm_guard (a_id acc) (challenge_digest_of self token) counter)
    (accounts d)) 1) as [Hn|]; simpl; [|by apply wp_failed].
  assert (Hnp : not_pending (a_id acc) d1).
  { eapply not_pending_matched; try exact Hu; eauto; try done. by intros ? [? _]. }
  apply wp_read_bind; [ro|done|intros codes].
  eapply wp_seq; [by apply (wp_store_codes_np self (a_id acc))|]. intros ? d2 [Hd2 Hnp2].
  apply wp_bind, wp_exec.
  pose proof (inv_delete_account_challenges _ _ Hnp2 Hd2) as Hd3.
  apply wp_read_bind; [ro|done|intros row]. apply wp_read_bind; [ro|done|intros row'].
  eapply wp_seq; [by apply wp_issue_session|]. intros. by apply wp_ret.
Qed.

(** Deleting the challenge a finished login consumed. *)
Lemma inv_delete_used_challenge c digest acc d d1 :
  inv d1 → challenges d1 = challenges d → NoDup (c_digest <$> challenges d) →
  c ∈ challenges d → c_digest c = digest → a_id acc = c_account c →
  not_pending (a_id acc) d1 → inv (delete_challenges (λ c, c_digest c = digest) d1).
Proof.
  intros Hd1 Hch Hnd Hc Hcd Hac Hnp. apply inv_delete_challenges; [|done].
  rewrite Hch. intros b c' Hb Hp Hc' Hca _ Hdg.
  assert (c' = c) as -> by (eapply (NoDup_key_eq c_digest); eauto; congruence).
  eapply Hnp; [exact Hb| |done]. congruence.
Qed.

Lemma complete_totp_challenge_keeps token code ip ua :
  keeps (complete_totp_challenge self token code ip ua).
Proof.
  unfold complete_totp_challenge. outside.
  eapply wp_seq; [by apply wp_read_challenge|]. intros [c acc] d' (-> & Hc & Hcd & Ha & Hac & Hexp).
  simpl in *. destruct (negb _); [by tx|]. cbv zeta.
  pose proof (failures_nonneg d c H0 Hc) as Hnn.
  apply wp_read_bind; [ro|done|intros secret].
  destruct (fresh_counter _ _ _ _) as [counter|]; [|by apply wp_failed].
  apply wp_bind, wp_query, wp_bind, wp_exec_checked; [intros d1 Hu|intros _; apply H1].
  assert (Hd1 : inv d1) by (by eapply inv_update_accounts').
  destruct (Z.eqb_spec (count_where (advance_counter_guard (a_id acc) counter) (accounts d)) 1)
    as [Hn|]; simpl; [|by apply wp_failed].
  assert (Hnp : not_pending (a_id acc) d1).
  { apply update_accounts_Some in Hu as ->. intros b (b0 & Hb0 & ->)%elem_of_update Hid. simpl in *.
    assert (a_id b0 = a_id acc) as Hb by (by case_decide).
    assert (b0 = acc) as -> by (eapply (NoDup_key_eq a_id); eauto; apply wf_account_ids, H0).
    case_decide as Hg; [simpl; by destruct Hg as (_ & -> & _)|]. exfalso.
    assert (count_where (advance_counter_guard (a_id acc) counter) (accounts d) = 0); [|lia].
    apply count_zero. intros x Hx HPx. apply Hg.
    assert (x = acc) as <-; [|done].
    eapply (NoDup_key_eq a_id); eauto; [apply wf_account_ids, H0|apply HPx]. }
  apply wp_bind, wp_exec.
  assert (Hd2 : inv (delete_challenges (λ c, c_digest c = challenge_digest_of self token) d1)).
  { apply (inv_delete_used_challenge c _ acc d d1); try done; [|apply wf_challenge_digests, H0].
    by apply update_accounts_Some in Hu as ->. }
  apply wp_read_bind; [ro|done|intros row]. apply wp_read_bind; [ro|done|intros row'].
  eapply wp_seq; [by apply wp_issue_session|]. intros. by apply wp_ret.
Qed.

Lemma complete_recovery_challenge_keeps token code ip ua :
  keeps (complete_recovery_challenge self token code ip ua).
Proof.
  unfold complete_recovery_challenge. outside.
  eapply wp_seq; [by apply wp_read_challenge|]. intros [c acc] d' (-> & Hc & Hcd & Ha & Hac & Hexp).
  simpl in *. destruct (bool_decide (a_state acc = ACTIVE)) eqn:Hs; simpl; [|by tx]. cbv zeta.
  apply bool_decide_eq_true in Hs.
  pose proof (failures_nonneg d c H0 Hc) as Hnn.
  apply wp_bind, wp_query, wp_bind, wp_exec.
  set (d1 := delete_recovery _ d). assert (Hd1 : inv d1) by (by apply inv_delete_recovery).
  destruct (_ =? 1); simpl; [|by apply wp_failed].
  eapply wp_seq; [apply wp_delete_authentication; [|done|done]|].
  { intros b Hb Hid. simpl in Hb. rewrite (NoDup_key_eq a_id (accounts d) b acc); eauto;
      [congruence|apply wf_account_ids, H0]. }
  intros ? d2 Hd2. apply wp_read_bind; [ro|done|intros row]. apply wp_read_bind; [ro|done|intros row'].
  eapply wp_seq; [by apply wp_issue_session|]. intros. by apply wp_ret.
Qed.

(** ** Sessions *)

Lemma wp_valid_session_inv digest now touch d X :
  inv d → lax X → wp (_valid_session_row_locked digest now touch) (λ _, inv) X d.
Proof.
  intros Hd HX. eapply wp_mono; [by apply wp_valid_session| |done]. by intros ? ? [? _].
Qed.

Lemma authenticate_session_keeps token touch : keeps (authenticate_session self token touch).
Proof. unfold authenticate_session. outside. by apply wp_valid_session_inv. Qed.

(** Granting step-up never outlives the session. *)
Lemma inv_grant_step_up digest s until d d' :
  inv d → (∀ x, x ∈ sessions d → s_digest x = digest → s_absolute x = s_absolute s) →
  until ≤ s_absolute s →
  update_sessions (λ s, s_digest s = digest) (set_step_up until) d = Some d' → inv d'.
Proof.
  intros Hd Hx Hu Hup. eapply inv_update_sessions; [exact Hup|done| |done].
  intros x Hin Hdg (?&?&?). unfold session_times. simpl. rewrite (Hx x Hin Hdg) in *. lia.
Qed.

Lemma mark_step_up_keeps token : keeps (mark_step_up self token).
Proof.
  unfold mark_step_up. outside.
  eapply wp_seq; [by apply wp_valid_session|]. intros [[[s acc] e]|] d' [Hd' Hs]; [|by tx].
  destruct (Hs s acc e eq_refl) as (_ & _ & Hx). tx.
  eapply inv_grant_step_up; [exact Hd'| | |eassumption]; [by intros; apply Hx|].
  unfold step_up_limit. lia.
Qed.

Lemma require_step_up_keeps token : keeps (require_step_up self token).
Proof.
  unfold require_step_up. outside.
  eapply wp_seq; [by apply wp_valid_session_inv|]. intros [[[s acc] e]|] d' Hd'; by tx.
Qed.

Lemma revoke_session_keeps token : keeps (revoke_session self token).
Proof. unfold revoke_session. outside. tx. by apply inv_delete_sessions. Qed.

Lemma list_sessions_keeps i token : keeps (list_sessions self i token).
Proof.
  unfold list_sessions, _delete_expired_sessions_locked. outside.
  eapply wp_seq; [by apply wp_require_account|]. intros row d' (-> & _ & _). tx.
  by apply inv_delete_sessions.
Qed.

Lemma revoke_session_by_id_keeps i sid : keeps (revoke_session_by_id i sid).
Proof.
  unfold revoke_session_by_id. outside.
  eapply wp_seq; [by apply wp_require_account|]. intros row d' (-> & _ & _). tx.
  by apply inv_delete_sessions.
Qed.

Lemma revoke_sessions_keeps i : keeps (revoke_sessions self i).
Proof.
  unfold revoke_sessions. outside.
  eapply wp_seq; [by apply wp_require_account|]. intros row d' (-> & _ & _).
  by apply wp_revoke_account.
Qed.
End Login.

(** * The passkey ceremonies keep the invariant *)

From S2P Require Import Prelude Text Errors Sql Totp Identity Json AuthDb AuthCore AuthStore AuthPasskey AuthRate AuthRules AuthWp AuthInv.

#[local] Set Default Proof Using "Type*".

Section Passkey.
Context (self : store) (wa : webauthn).

(** ** Helpers *)

Lemma wp_attempt_keeps {A} classes (m : M A) (Q : option A → db → Prop) X d :
  keeps m → inv d → lax X → (∀ o d', inv d' → Q o d') → wp (attempt classes m) Q X d.
Proof.
  intros Hm Hd HX HQ. apply wp_attempt. eapply wp_mono; [by apply Hm|auto|].
  intros e d' Hd'. destruct (classes e); auto.
Qed.

Lemma wp_allocate_passkey_challenge n purpose account session now d X :
  inv d → lax X → passkey_challenge_room purpose account d →
  wp (allocate_passkey_challenge self n purpose account session now) (λ _, inv) X d.
Proof.
  intros Hd HX Hroom. induction n as [|n IH]; simpl; [apply wp_throw, HX|].
  apply wp_read_bind; [ro|done|intros challenge]. apply wp_bind, wp_query.
  destruct (bool_decide _); [done|]. tx. by eapply inv_insert_passkey_challenge.
Qed.

Lemma wp_create_passkey_challenge purpose account session now d X :
  inv d → lax X →
  wp (_create_passkey_challenge_locked self purpose account session now) (λ _, inv) X d.
Proof.
  intros Hd HX. unfold _create_passkey_challenge_locked, _delete_expired_passkey_challenges_locked.
  apply wp_bind, wp_exec.
  assert (Hd1 : inv (delete_passkey_challenges (λ k, k_expires k ≤ now) d)) by auto with inv.
  revert Hd1. generalize (delete_passkey_challenges (λ k, k_expires k ≤ now) d). clear d Hd.
  intros d Hd.
  assert (Hroom : ∀ (P : passkey_challenge_row → Prop) `{!∀ k, Decision (P k)} cap, 1 ≤ cap →
    let n := count_where P (passkey_challenges d) in
    wp (when (cap <=? n) (exec (evict_oldest_passkey_challenges P (n - cap + 1))))
      (λ _ d', inv d' ∧ count_where P (passkey_challenges d') < cap) X d).
  { intros P ? cap Hcap n.
    apply (wp_make_room _ _ _ (λ d, count_where P (passkey_challenges d))); [|done|done].
    intros Hn. split; [by apply inv_delete_passkey_challenges|].
    apply (count_evict_room k_digest passkey_challenge_age_key P); [|done|done].
    apply wf_passkey_challenge_digests, Hd. }
  eapply (wp_seq _ _ (λ _ d', inv d' ∧ passkey_challenge_room purpose account d')).
  - assert (Hbound : ∀ i, account = Some i → purpose ≠ LOGIN →
      wp (n ← query (λ d, count_where (bound_to i) (passkey_challenges d));
          when (_MAX_PASSKEY_CHALLENGES_PER_ACCOUNT <=? n)
            (exec (evict_oldest_passkey_challenges (bound_to i)
                     (n - _MAX_PASSKEY_CHALLENGES_PER_ACCOUNT + 1))))
        (λ _ d', inv d' ∧ passkey_challenge_room purpose account d') X d).
    { intros i -> Hp. apply wp_bind, wp_query. eapply wp_mono; [by apply Hroom| |done].
      intros _ d' [Hd' Hc]. split; [done|]. unfold passkey_challenge_room.
      destruct purpose; try done; by intros ? [= <-]. }
    destruct purpose.
    + destruct account as [i|], session; try (apply wp_throw, HX). by apply Hbound.
    + apply wp_bind, wp_require; [intros _|intros _; apply HX]. apply wp_bind, wp_query.
      eapply wp_mono; [by apply Hroom|done|done].
    + destruct account as [i|], session; try (apply wp_throw, HX). by apply Hbound.
  - intros ? d' [Hd' Hr]. by apply wp_allocate_passkey_challenge.
Qed.

(** The row read by a challenge lookup. *)
Lemma wp_passkey_challenge_row digest now purpose account session d X :
  lax X →
  wp (_passkey_challenge_row_locked digest now purpose account session)
    (λ k d', d' = d ∧ k ∈ passkey_challenges d ∧ k_digest k = digest) X d.
Proof.
  intros HX. unfold _passkey_challenge_row_locked. apply wp_bind, wp_query.
  destruct (lookup_where _ _) as [k|] eqn:Hk; [|apply wp_throw, HX].
  apply lookup_where_Some in Hk as [??]. tx. done.
Qed.

Lemma wp_record_passkey_failure digest n d X :
  inv d → lax X →
  wp (_record_passkey_challenge_failure_locked digest n) (λ _, inv) X d.
Proof.
  intros Hd HX. unfold _record_passkey_challenge_failure_locked.
  destruct (Z.leb_spec CHALLENGE_FAILURE_LIMIT (n + 1)); tx.
  - by apply inv_delete_passkey_challenges.
  - eapply inv_update_passkey_challenges; [eassumption|done| |done]. intros k _ _. simpl. lia.
Qed.

Lemma keeps_update_passkeys P `{!∀ r, Decision (P r)} verified now :
  keeps (exec_checked (update_passkeys P (set_assertion verified now))).
Proof. intros d Hd. apply wp_exec_checked; [|done]. intros d' Hu. by eapply inv_update_passkeys. Qed.

Lemma keeps_assertion credential challenge account rp origin now :
  keeps (_verify_passkey_assertion_locked wa credential challenge account rp origin now).
Proof.
  unfold _verify_passkey_assertion_locked.
  apply keeps_bind; [apply keeps_readonly; ro|intros parsed].
  apply keeps_bind; [apply keeps_readonly; ro|intros _].
  apply keeps_bind; [apply keeps_readonly; ro|intros [p|]]; [|apply keeps_readonly; ro].
  apply keeps_bind; [apply keeps_readonly; ro|intros _].
  apply keeps_bind; [apply keeps_readonly; ro|intros verified].
  apply keeps_bind; [apply keeps_readonly; ro|intros _].
  apply keeps_bind; [apply keeps_readonly; ro|intros n].
  apply keeps_bind; [apply keeps_update_passkeys|intros _]. apply keeps_readonly. ro.
Qed.

Lemma keeps_login_assertion credential challenge rp origin now :
  keeps (login_assertion wa credential challenge rp origin now).
Proof.
  unfold login_assertion.
  apply keeps_bind; [apply keeps_readonly; ro|intros parsed].
  apply keeps_bind; [apply keeps_readonly; ro|intros _].
  apply keeps_bind; [apply keeps_readonly; ro|intros [p|]]; [|apply keeps_readonly; ro].
  apply keeps_bind; [apply keeps_readonly; ro|intros _].
  apply keeps_bind; [apply keeps_assertion|intros _]. apply keeps_readonly. ro.
Qed.

Lemma readonly_configuration : readonly (_require_passkey_configuration self).
Proof. unfold _require_passkey_configuration. ro. Qed.

Lemma readonly_finish {A} (o : outcome A) : readonly (finish o).
Proof. unfold finish. ro. Qed.

Lemma readonly_json {A} r (k : json → M A) : (∀ j, readonly (k j)) → readonly (json_object r k).
Proof. intros Hk. unfold json_object. ro. Qed.
Hint Resolve readonly_configuration readonly_finish readonly_json : readonly.

(** ** The methods *)

Lemma begin_passkey_registration_keeps token : keeps (begin_passkey_registration self wa token).
Proof.
  unfold begin_passkey_registration. outside.
  eapply wp_seq; [by apply wp_valid_session_inv|]. intros [[[s acc] e]|] d' Hd'; [|by tx].
  destruct (_ <=? _); [by tx|]. cbv zeta. apply wp_bind, wp_query.
  apply wp_read_bind; [ro|done|intros _].
  eapply wp_seq; [by apply wp_create_passkey_challenge|]. intros [ch tok] d2 Hd2. by tx.
Qed.

Lemma wp_failed_passkey {A} digest n (d : db) X :
  inv d → lax X →
  wp (_record_passkey_challenge_failure_locked digest n ;; mret (@VerificationFailed A))
    (λ _, inv) X d.
Proof.
  intros Hd HX. eapply wp_seq; [by apply wp_record_passkey_failure|]. intros ? d' Hd'.
  by apply wp_ret.
Qed.

Lemma wp_attempt_lift {A} classes (r : result exc A) (Q : option A → db → Prop) X d :
  lax X → (∀ o, Q o d) → wp (attempt classes (lift r)) Q X d.
Proof.
  intros HX HQ. apply wp_attempt, wp_lift; [auto|]. intros e _. destruct (classes e); auto.
Qed.

Lemma complete_passkey_registration_keeps token ctoken credential name :
  keeps (complete_passkey_registration self wa token ctoken credential name).
Proof.
  unfold complete_passkey_registration. outside.
  eapply wp_seq; [by apply wp_valid_session_inv|]. intros [[[s acc] e]|] d' Hd'; [|by tx].
  destruct (_ <=? _); [by tx|]. cbv zeta.
  eapply wp_seq; [by apply wp_passkey_challenge_row|]. intros k d2 (-> & Hk & Hkd).
  apply wp_bind, wp_query, wp_bind, wp_require; [intros Hn|intros _; apply H1].
  apply wp_bind, wp_attempt_lift; [done|]. intros [[parsed verified]|]; [|by apply wp_failed_passkey].
  apply wp_bind, wp_attempt.
  eapply wp_mono with (Q := λ _, inv) (X := λ _, inv).
  - apply wp_bind, wp_readonly; [ro|intros pid|done].
    apply wp_exec_checked; [|done]. intros d2 Hi. eapply inv_insert_passkey; [exact Hi| |done].
    simpl. lia.
  - intros ? d2 Hd2. apply wp_bind, wp_exec. cbv beta.
    tx; by apply inv_delete_passkey_challenges.
  - intros ex d2 Hd2. destruct (catches _ _); [by apply wp_failed_passkey|apply H1].
Qed.

Lemma list_passkeys_keeps i : keeps (list_passkeys self i).
Proof.
  unfold list_passkeys. outside. eapply wp_seq; [by apply wp_require_account|].
  intros row d' (-> & _ & _). by tx.
Qed.

Lemma delete_passkey_keeps i pid : keeps (delete_passkey i pid).
Proof.
  unfold delete_passkey. outside. eapply wp_seq; [by apply wp_require_account|].
  intros row d' (-> & _ & _). tx. by apply inv_delete_passkeys.
Qed.

Lemma begin_passkey_login_keeps : keeps (begin_passkey_login self wa).
Proof. unfold begin_passkey_login. outside. by apply wp_create_passkey_challenge. Qed.

Lemma verify_passkey_login_keeps ctoken credential :
  keeps (verify_passkey_login self wa ctoken credential).
Proof.
  unfold verify_passkey_login. outside.
  eapply wp_seq; [by apply wp_passkey_challenge_row|]. intros k d2 (-> & Hk & Hkd).
  apply wp_bind, wp_attempt_keeps; [apply keeps_login_assertion|done|done|].
  intros [i|] d2 Hd2; [|by apply wp_failed_passkey]. tx; by apply inv_delete_passkey_challenges.
Qed.

Lemma issue_verified_passkey_session_keeps identity ip ua :
  keeps (issue_verified_passkey_session self identity ip ua).
Proof.
  unfold issue_verified_passkey_session. outside.
  apply wp_read_bind; [ro|done|intros [row|]]; [|by tx].
  destruct (negb _); [by tx|]. by apply wp_issue_session.
Qed.

Lemma complete_passkey_login_keeps ctoken credential ip ua :
  keeps (complete_passkey_login self wa ctoken credential ip ua).
Proof.
  unfold complete_passkey_login. apply keeps_bind; [apply verify_passkey_login_keeps|].
  intros. apply issue_verified_passkey_session_keeps.
Qed.

Lemma begin_passkey_step_up_keeps token : keeps (begin_passkey_step_up self wa token).
Proof.
  unfold begin_passkey_step_up. outside.
  eapply wp_seq; [by apply wp_valid_session_inv|]. intros [[[s acc] e]|] d' Hd'; [|by tx].
  cbv zeta. apply wp_bind, wp_query. apply wp_read_bind; [ro|done|intros _].
  eapply wp_seq; [by apply wp_create_passkey_challenge|]. intros [ch tok] d2 Hd2. by tx.
Qed.

Lemma passkey_assertion_sessions d credential challenge account rp origin now :
  wp (_verify_passkey_assertion_locked wa credential challenge account rp origin now)
    (λ _ d', sessions d' = sessions d) (λ _ d', sessions d' = sessions d) d.
Proof.
  unfold _verify_passkey_assertion_locked.
  repeat first
    [ apply wp_bind, wp_readonly; [solve [ro]|intros ?|done]
    | match goal with |- wp (match ?x with _ => _ end) _ _ _ => destruct x end
    | apply wp_readonly; [solve [ro]|done|done] ].
  apply wp_bind, wp_exec_checked; [|done]. intros d' Hu.
  apply wp_bind, wp_readonly; [ro|intros _|]; [|intros _];
    unfold update_passkeys in Hu; destruct (update_checked _ _ _ _); simplify_eq/=; try done.
  by apply wp_ret.
Qed.
Lemma complete_passkey_step_up_keeps token ctoken credential :
  keeps (complete_passkey_step_up self wa token ctoken credential).
Proof.
  unfold complete_passkey_step_up. outside.
  eapply wp_seq; [by apply wp_valid_session|]. intros [[[s acc] e]|] d' [Hd' Hs]; [|by tx].
  destruct (Hs s acc e eq_refl) as (_ & _ & Hx). cbv zeta.
  eapply wp_seq; [by apply wp_passkey_challenge_row|]. intros k d2 (-> & Hk & Hkd).
  apply wp_bind, wp_attempt.
  eapply wp_mono; [apply wp_and; [by apply keeps_assertion|apply passkey_assertion_sessions]| |].
  - intros ? d2 [Hd2 Hsess]. apply wp_bind, wp_exec_checked; [intros d3 Hu|intros _; apply H1].
    assert (Hd3 : inv d3).
    { apply (inv_grant_step_up _ s _ d2 d3 Hd2) in Hu; [done| |lia].
      rewrite Hsess. intros; by apply Hx. }
    tx. by apply inv_delete_passkey_challenges.
  - intros ex d2 [Hd2 _]. destruct (catches _ _); [by apply wp_failed_passkey|apply H1].
Qed.
End Passkey.

(** * The rate limiter keeps the invariant *)

From S2P Require Import Prelude Text Errors Sql Totp Identity Json AuthDb AuthCore AuthStore AuthPasskey AuthRate AuthRules AuthWp AuthInv.

#[local] Set Default Proof Using "Type*".

Section Reserve.
Context (identity : RateScope → list Z).
Context (link : RateScope → option (list Z) * option (list Z)).

(** The policies whose row does not exist yet. *)
Definition missing (t : list rate_row) (policies : list policy) : list policy :=
  filter (λ p, rate_row_at (po_scope p) (identity (po_scope p)) t = None) policies.

Lemma missing_mono t t' policies :
  (∀ s i, rate_row_at s i t' = None → rate_row_at s i t = None) →
  (length (missing t' policies) ≤ length (missing t policies))%nat.
Proof.
  intros Hm. unfold missing. induction policies as [|p ps IH]; [done|].
  rewrite !filter_cons. repeat case_decide; simpl; try lia.
  exfalso. match goal with Hn : ¬ _ |- _ => apply Hn end. by apply Hm.
Qed.

Lemma upsert_rate_rows r d d' :
  upsert_rate r d = Some d' →
  (zlen (rate_limits d') = zlen (rate_limits d)
     + (if decide (rate_row_at (l_scope r) (l_identity r) (rate_limits d) = None) then 1 else 0)) ∧
  (∀ s i, rate_row_at s i (rate_limits d') = None → rate_row_at s i (rate_limits d) = None).
Proof.
  unfold upsert_rate. destruct (rate_row_at _ _ _) as [old|] eqn:Hrow.
  - destruct (update_checked _ _ _ _) as [t|] eqn:Hu; [|done]. intros [= <-].
    apply update_checked_Some in Hu as [-> _]. simpl. split.
    + unfold update_where, zlen. rewrite length_fmap. repeat case_decide; try done; lia.
    + intros s i. unfold rate_row_at. rewrite !lookup_where_None. intros Hn x Hx Hk.
      eapply Hn; [by apply elem_of_update; eexists|]. by case_decide.
  - destruct (rate_check d r); [|done]. intros [= <-]. simpl. split.
    + unfold zlen. rewrite length_app. simpl. repeat case_decide; try done; lia.
    + intros s i. unfold rate_row_at. rewrite !lookup_where_None. intros Hn x Hx.
      apply Hn, elem_of_app. by left.
Qed.

Lemma wp_upserts policies now d X :
  inv d → lax X →
  zlen (rate_limits d) + zlen (missing (rate_limits d) policies) ≤ _MAX_RATE_LIMIT_ROWS →
  wp (eff_iter (λ p,
        let '(account, account_identity) := link (po_scope p) in
        exec_checked (upsert_rate (RateRow (po_scope p) (identity (po_scope p)) account
          account_identity now 1))) policies) (λ _, inv) X d.
Proof.
  intros Hd HX. revert d Hd. induction policies as [|p ps IH]; intros d Hd Hroom; simpl;
    [by apply wp_ret|].
  apply wp_bind. destruct (link (po_scope p)) as [acc aid].
  apply wp_exec_checked; [|intros _; apply HX]. intros d' Hu.
  destruct (upsert_rate_rows _ _ _ Hu) as [Hlen Hmono]. simpl in Hlen.
  pose proof (missing_mono _ _ ps Hmono) as Hm.
  assert (Hcons : zlen (missing (rate_limits d) (p :: ps)) =
    (if decide (rate_row_at (po_scope p) (identity (po_scope p)) (rate_limits d) = None)
     then 1 else 0) + zlen (missing (rate_limits d) ps)).
  { unfold missing, zlen. rewrite filter_cons. case_decide; simpl; lia. }
  apply IH.
  - eapply inv_upsert_rate; [exact Hu| |exact Hd]. simpl. intros Hn.
    rewrite decide_True in Hcons by done. unfold zlen in *. lia.
  - unfold zlen in *. case_decide; lia.
Qed.

Lemma wp_reserve policies now d X :
  0 < max_window policies → inv d → lax X → wp (reserve_attempt policies identity link now) (λ _, inv) X d.
Proof.
  intros Hwin Hd HX. unfold reserve_attempt, delete_finished_windows.
  eapply (wp_seq _ _ (λ _, inv)).
  { apply (wp_iter inv); [done|]. intros p d' _ Hd'. apply wp_exec. by apply inv_delete_rate. }
  clear d Hd. intros _ d Hd. apply wp_bind, wp_query.
  eapply (wp_seq _ _ (λ _, inv)).
  { destruct (_ <? _); [|by apply wp_ret]. apply wp_bind, wp_exec, wp_ret. by apply inv_delete_rate. }
  clear d Hd. intros retry d Hd. apply wp_bind, wp_query. cbv zeta.
  set (rows := (λ p, (p, rate_row_at (po_scope p) (identity (po_scope p)) (rate_limits d))) <$> policies).
  set (retry2 := foldl _ retry rows).
  assert (Hrows : zlen (filter (λ pr, is_none pr.2 = true) rows)
    = zlen (missing (rate_limits d) policies)).
  { unfold rows, missing, zlen. clear. induction policies as [|p ps IH]; [done|]. csimpl.
    rewrite !filter_cons. simpl. destruct (rate_row_at _ _ _); simpl; repeat case_decide;
      simpl in *; try done; lia. }
  eapply (wp_seq _ _ (λ r d', d' = d ∧ (r = 0 →
    zlen (rate_limits d) + zlen (missing (rate_limits d) policies) ≤ _MAX_RATE_LIMIT_ROWS))).
  { destruct (Z.eqb_spec retry2 0) as [->|Hne]; [|by apply wp_ret].
    apply wp_bind, wp_query, wp_ret. split; [done|]. rewrite Hrows.
    destruct (Z.ltb_spec _MAX_RATE_LIMIT_ROWS
      (zlen (rate_limits d) + zlen (missing (rate_limits d) policies))); lia. }
  intros r d' [-> Hr]. eapply (wp_seq _ _ (λ _, inv)); [|intros; by apply wp_ret].
  apply wp_when; [|done]. intros Hz%Z.eqb_eq. apply wp_upserts; auto.
Qed.
End Reserve.

Section Rate.
Context (self : store).

Lemma check_login_rate_keeps email ip : keeps (check_login_rate self email ip).
Proof.
  unfold check_login_rate, raise_if_limited. outside.
  apply wp_read_bind; [ro|done|intros row]. by apply wp_reserve.
Qed.

Lemma check_passkey_login_rate_keeps ip : keeps (check_passkey_login_rate self ip).
Proof. unfold check_passkey_login_rate, raise_if_limited. outside. by apply wp_reserve. Qed.

Lemma record_login_result_keeps email ip success : keeps (record_login_result self email ip success).
Proof. unfold record_login_result. outside. tx. by apply inv_delete_rate. Qed.

Lemma record_passkey_login_result_keeps ip success :
  keeps (record_passkey_login_result self ip success).
Proof. unfold record_passkey_login_result. outside. tx. by apply inv_delete_rate. Qed.
End Rate.
