(* ===== verification/AuthSafeRules.v ===== *)
(** * Rule positions

    Reordering and compaction rewrite the [position] column under
    UNIQUE(account_id, position), which SQLite checks row by row: first every
    position of the account is moved up by 1000, then each rule is given its
    final position.  [reposition_ok]: with all positions below 1000 no step
    violates the constraint, and the result is the intended numbering. *)

From S2P Require Import Prelude Text Errors Sql AuthDb AuthCore AuthRules AuthWp AuthInv.

#[local] Set Default Proof Using "Type*".

(** ** When a row-by-row update cannot fail *)

(** A successful update is the plain one; it succeeds when the rewritten rows
    clash neither with the old rows nor with each other. *)
Lemma update_unique_total {R} (P : R → Prop) `{!∀ r, Decision (P r)} f conflict before rest :
  (∀ x y, x ∈ rest → P x → y ∈ before → conflict (f x) y = false) →
  unique_rows (λ x y, (bool_decide (P x) && conflict (f x) y)
                      || (bool_decide (P y) && conflict (f y) (if decide (P x) then f x else x)))
    rest →
  is_Some (update_unique P f conflict before rest).
Proof.
  revert before. induction rest as [|r rest IH]; intros before Hb Hr; simpl; [by eexists|].
  destruct Hr as [Hr Hrest]. rewrite Forall_forall in Hr.
  assert (Hnext : ∀ x y, x ∈ rest → P x → y ∈ before ++ [if decide (P r) then f r else r] →
    conflict (f x) y = false).
  { intros x y Hx HP [Hy| ->%list_elem_of_singleton]%elem_of_app; [apply Hb; auto; by right|].
    specialize (Hr x Hx). simpl in Hr. apply orb_false_iff in Hr as [_ Hr].
    by rewrite bool_decide_eq_true_2 in Hr. }
  case_decide as HP; [|by apply IH].
  destruct (existsb _ _) eqn:He; [|by apply IH].
  apply existsb_exists in He as (y & Hy & Hc). exfalso. rewrite <-list_elem_of_In in Hy.
  apply elem_of_app in Hy as [Hy|Hy].
  - rewrite Hb in Hc; [done|left|done|done].
  - specialize (Hr y Hy). simpl in Hr. apply orb_false_iff in Hr as [Hr _].
    rewrite bool_decide_eq_true_2 in Hr by done. by rewrite Hc in Hr.
Qed.

Lemma unique_rows_pairs {R} (conflict : R → R → bool) t :
  NoDup t → (∀ x y, x ∈ t → y ∈ t → x ≠ y → conflict x y = false) → unique_rows conflict t.
Proof.
  induction t as [|r t IH]; [done|]. rewrite NoDup_cons. intros [Hr Hd] Hp. split.
  - apply Forall_forall. intros y Hy. apply Hp; [left|by right|]. by intros ->.
  - apply IH; [done|]. intros x y Hx Hy. apply Hp; by right.
Qed.

Lemma update_rules_total d (P : rule_row → Prop) `{!∀ r, Decision (P r)} f :
  wf d →
  (∀ r, r ∈ mail_rules d → P r → rule_check d (f r) = true) →
  (∀ x y, x ∈ mail_rules d → y ∈ mail_rules d → x ≠ y → P x →
    rule_conflict (f x) y = false ∧ (P y → rule_conflict (f x) (f y) = false)) →
  update_rules P f d = Some (set_mail_rules (update_where P f (mail_rules d)) d).
Proof.
  intros Hw Hc Hx. destruct (update_rules P f d) as [d'|] eqn:Hu.
  - by apply update_rules_Some in Hu as (-> & _); [|done].
  - exfalso. unfold update_rules in Hu.
    assert (forallb (λ r, rule_check d (f r)) (select_where P (mail_rules d)) = true) as Hf.
    { apply forallb_forall. intros r Hr%list_elem_of_In. apply elem_of_select in Hr as [??]. auto. }
    rewrite Hf in Hu.
    destruct (update_unique_total P f rule_conflict [] (mail_rules d)) as [t Ht].
    + intros ???? Hn. by apply not_elem_of_nil in Hn.
    + apply unique_rows_pairs.
      { eapply NoDup_fmap_1, (wf_rule_ids d Hw). }
      intros x y Hx1 Hy1 Hne. apply orb_false_iff. split.
      * destruct (bool_decide (P x)) eqn:HP; [|done]. apply bool_decide_eq_true in HP. simpl.
        by apply Hx.
      * destruct (bool_decide (P y)) eqn:HP; [|done]. apply bool_decide_eq_true in HP. simpl.
        destruct (Hx y x Hy1 Hx1) as [H1 H2]; [congruence|done|]. case_decide; auto.
    + by rewrite Ht in Hu.
Qed.

Lemma sorted_seqZ m n : Sorted Z.le (seqZ m (zlen (A := list Z) n)).
Proof.
  unfold zlen. revert m. induction n as [|x n IH]; intros m; [constructor|].
  simpl length. rewrite seqZ_cons by lia. rewrite Nat2Z.inj_succ, Z.pred_succ.
  constructor; [apply IH|]. destruct n as [|y n]; [constructor|].
  simpl length. rewrite seqZ_cons by lia. constructor. lia.
Qed.

(** ** Numbering a list of identifiers *)

Fixpoint index_from (k : Z) (i : list Z) (ids : list (list Z)) : option Z :=
  match ids with
  | [] => None
  | x :: ids => if decide (x = i) then Some k else index_from (k + 1) i ids
  end.

Lemma index_from_None k i ids : i ∉ ids → index_from k i ids = None.
Proof.
  revert k. induction ids as [|x ids IH]; intros k; [done|].
  rewrite not_elem_of_cons. intros [Hx Hi]. simpl. rewrite decide_False by congruence. auto.
Qed.

Lemma index_from_map k ids : NoDup ids →
  (λ i, index_from k i ids) <$> ids = Some <$> seqZ k (zlen ids).
Proof.
  revert k. induction ids as [|x ids IH]; intros k; [done|].
  rewrite NoDup_cons. intros [Hx Hd].
  assert (zlen (x :: ids) = Z.succ (zlen ids)) as -> by (unfold zlen; simpl; lia).
  rewrite seqZ_cons by (unfold zlen; lia). rewrite Z.pred_succ, !fmap_cons.
  simpl. rewrite decide_True by done. change (Z.succ k) with (k + 1).
  f_equal. rewrite <-(IH (k + 1)) by done.
  apply list_fmap_ext. intros j y Hy. rewrite decide_False; [done|].
  intros ->. apply Hx. by eapply list_elem_of_lookup_2.
Qed.

Lemma index_from_range k i ids p : index_from k i ids = Some p → k ≤ p < k + zlen ids ∧ i ∈ ids.
Proof.
  revert k. induction ids as [|x ids IH]; intros k; simpl; [done|].
  unfold zlen in *. simpl. case_decide as Hx.
  - intros [= <-]. subst. split; [lia|left].
  - intros Hi. apply IH in Hi as [? ?]. split; [lia|by right].
Qed.

Lemma index_from_inj k i j ids :
  index_from k i ids = index_from k j ids → i ∈ ids → j ∈ ids → i = j.
Proof.
  revert k. induction ids as [|x ids IH]; intros k He Hi Hj; [by apply not_elem_of_nil in Hi|].
  simpl in He. rewrite elem_of_cons in Hi, Hj. repeat case_decide; try congruence.
  - destruct Hj as [->|Hj]; [done|]. symmetry in He. apply index_from_range in He as [? _]. lia.
  - destruct Hi as [->|Hi]; [done|]. apply index_from_range in He as [? _]. lia.
  - destruct Hi as [->|Hi], Hj as [->|Hj]; try done. by eapply IH.
Qed.

(** ** The loop *)

Record repositioner (acc : list Z) (f : Z → rule_row → rule_row) (P : list Z → rule_row → Prop)
  : Prop := {
  rp_id : ∀ p r, mr_id (f p r) = mr_id r;
  rp_account : ∀ p r, mr_account (f p r) = mr_account r;
  rp_position : ∀ p r, mr_position (f p r) = p;
  rp_check : ∀ d p r, 0 ≤ p → rule_check d r = true → rule_check d (f p r) = true;
  rp_match : ∀ i r, P i r → mr_id r = i;
  rp_own : ∀ i r, mr_account r = acc → mr_id r = i → P i r;
}.

Section Loop.
Context (acc : list Z) (f : Z → rule_row → rule_row) (P : list Z → rule_row → Prop).
Context `{!∀ i r, Decision (P i r)} (HR : repositioner acc f P).

Definition assign (k : Z) (ids : list (list Z)) (r : rule_row) : rule_row :=
  match index_from k (mr_id r) ids with Some p => f p r | None => r end.

Definition loop (l : list (Z * list Z)) : M unit :=
  eff_iter (λ '(p, x), exec_checked (update_rules (P x) (f p))) l.

Lemma wp_loop rest k d Q X :
  wf d → 0 ≤ k → NoDup rest → k + zlen rest ≤ POSITION_SHIFT →
  (∀ r, r ∈ mail_rules d → mr_id r ∈ rest → mr_account r = acc ∧ POSITION_SHIFT ≤ mr_position r) →
  (∀ r, r ∈ mail_rules d → mr_account r = acc → mr_id r ∉ rest → mr_position r < k) →
  (let d' := set_mail_rules (assign k rest <$> mail_rules d) d in wf d' → Q tt d') →
  wp (loop (imap (λ j x, (k + Z.of_nat j, x)) rest)) Q X d.
Proof.
  revert k d. induction rest as [|i rest IH]; intros k d Hw Hk Hnd Hlen Hin Hout HQ.
  - apply wp_ret. simpl in HQ.
    assert (set_mail_rules (assign k [] <$> mail_rules d) d = d) as He.
    { assert (assign k [] <$> mail_rules d = mail_rules d) as -> by apply list_fmap_id.
      by destruct d. }
    rewrite He in HQ. auto.
  - apply NoDup_cons in Hnd as [Hi Hnd].
    assert (HP : ∀ r, r ∈ mail_rules d → P i r → mr_id r = i ∧ mr_account r = acc).
    { intros r Hr HPr. pose proof (rp_match _ _ _ HR i r HPr) as Hid. split; [done|].
      apply (Hin r Hr). rewrite Hid. left. }
    assert (Hlen' : zlen (i :: rest) = zlen rest + 1) by (unfold zlen; simpl; lia).
    assert (Hz : 0 ≤ zlen rest) by (unfold zlen; lia).
    rewrite imap_cons. simpl. unfold loop. simpl. apply wp_bind.
    rewrite Z.add_0_r. apply wp_exec_checked; cycle 1.
    { rewrite update_rules_total; [done|done| |].
      - intros r Hr HPr. apply (rp_check _ _ _ HR); [done|].
        destruct (wf_rules d Hw) as [Hc _]. rewrite Forall_forall in Hc. by apply Hc.
      - intros x y Hx Hy Hne HPx. destruct (HP x Hx HPx) as [Hxi Hxa].
        assert (Hyi : mr_id y ≠ i).
        { intros Hyi. apply Hne. eapply (NoDup_key_eq mr_id); eauto; [by apply wf_rule_ids|congruence]. }
        split; [|intros HPy; by destruct (HP y Hy HPy)].
        unfold rule_conflict. rewrite (rp_id _ _ _ HR), (rp_account _ _ _ HR), (rp_position _ _ _ HR).
        unfold str_eqb. rewrite Hxi, Hxa, bool_decide_eq_false_2 by congruence. simpl.
        destruct (bool_decide (acc = mr_account y)) eqn:Ha; [|done].
        apply bool_decide_eq_true in Ha. simpl. apply Z.eqb_neq. intros Hp.
        destruct (decide (mr_id y ∈ i :: rest)) as [Hyin|Hyout].
        + destruct (Hin y Hy Hyin) as [_ ?]. unfold POSITION_SHIFT in *. lia.
        + specialize (Hout y Hy (eq_sym Ha) Hyout). lia. }
    intros d1 Hu. pose proof (wf_update_rules d _ _ _ Hw
      (λ r, conj (rp_id _ _ _ HR k r) (rp_account _ _ _ HR k r)) Hu) as Hw1.
    apply update_rules_Some in Hu as (-> & _ & _); [|done].
    rewrite (imap_ext _ (λ j x, (k + 1 + Z.of_nat j, x))) by (intros; simpl; f_equal; lia).
    apply (IH (k + 1)); [done|lia|done|lia| | |]; simpl.
    + intros r (r0 & Hr0 & ->)%elem_of_update Hid. case_decide as HPr.
      * rewrite (rp_id _ _ _ HR) in Hid. by destruct (HP r0 Hr0 HPr) as [<- _].
      * apply Hin; [done|by right].
    + intros r (r0 & Hr0 & ->)%elem_of_update Ha Hid. case_decide as HPr.
      * rewrite (rp_position _ _ _ HR). lia.
      * assert (mr_id r0 ≠ i) as Hne.
        { intros Hr0i. apply HPr, (rp_own _ _ _ HR); [|done].
          apply (Hin r0 Hr0). rewrite Hr0i. left. }
        specialize (Hout r0 Hr0 Ha). rewrite not_elem_of_cons in Hout. specialize (Hout (conj Hne Hid)). lia.
    + simpl in HQ. assert (assign (k + 1) rest <$> update_where (P i) (f k) (mail_rules d)
        = assign k (i :: rest) <$> mail_rules d) as ->; [|exact HQ].
      unfold update_where. rewrite <-list_fmap_compose.
      apply Forall_fmap_ext_1, Forall_forall. intros r Hr. simpl. unfold assign. simpl.
      case_decide as HPr.
      * destruct (HP r Hr HPr) as [Hid _]. rewrite (rp_id _ _ _ HR), Hid.
        rewrite index_from_None by done. by rewrite decide_True by done.
      * rewrite decide_False; [done|]. intros Hir. apply HPr, (rp_own _ _ _ HR); [|done].
        apply (Hin r Hr). rewrite <-Hir. left.
Qed.
End Loop.

(** ** Moving the positions out of the way *)

Definition shift_row (r : rule_row) : rule_row := set_position (mr_position r + POSITION_SHIFT) r.

Definition shifted (acc : list Z) (t : list rule_row) : list rule_row :=
  update_where (λ r, mr_account r = acc) shift_row t.

Definition below (acc : list Z) (d : db) : Prop :=
  ∀ r, r ∈ mail_rules d → mr_account r = acc → mr_position r < POSITION_SHIFT.

Lemma wf_rule_check d r : wf d → r ∈ mail_rules d → rule_check d r = true.
Proof. intros Hw. destruct (wf_rules d Hw) as [Hc _]. rewrite Forall_forall in Hc. apply Hc. Qed.

Lemma rule_position_nonneg d r : wf d → r ∈ mail_rules d → 0 ≤ mr_position r.
Proof.
  intros Hw Hr. pose proof (wf_rule_check d r Hw Hr) as Hc. unfold rule_check in Hc. lia.
Qed.

Lemma wp_shift acc d Q X :
  wf d → below acc d →
  (let d' := set_mail_rules (shifted acc (mail_rules d)) d in wf d' → Q tt d') →
  wp (shift_positions acc) Q X d.
Proof.
  intros Hw Hb HQ. unfold shift_positions. apply wp_exec_checked.
  - intros d' Hu.
    assert (Hw' : wf d') by (eapply wf_update_rules; [exact Hw| |exact Hu]; done).
    apply update_rules_Some in Hu as (-> & _ & _); [|done]. by apply HQ.
  - intros Hu. exfalso. rewrite update_rules_total in Hu; [done|done| |].
    + intros r Hr _. pose proof (wf_rule_check d r Hw Hr) as Hc. unfold rule_check in *.
      unfold POSITION_SHIFT. simpl. rewrite !andb_true_iff in *. intuition lia.
    + intros x y Hx Hy Hne Hxa.
      assert (Hid : mr_id x ≠ mr_id y).
      { intros He. apply Hne. eapply (NoDup_key_eq mr_id); eauto. by apply wf_rule_ids. }
      pose proof (rule_position_nonneg d x Hw Hx). pose proof (rule_position_nonneg d y Hw Hy).
      unfold rule_conflict, str_eqb. simpl. rewrite !bool_decide_eq_false_2 by done. simpl.
      split.
      * destruct (bool_decide _) eqn:Ha; [|done]. apply bool_decide_eq_true in Ha. simpl.
        specialize (Hb y Hy). apply Z.eqb_neq. unfold POSITION_SHIFT in *. intros.
        assert (mr_position y < 1000) by (apply Hb; congruence). lia.
      * intros Hya. destruct (wf_rules d Hw) as [_ Hu2].
        assert (Hpos : mr_position x ≠ mr_position y).
        { intros He. apply Hne.
          apply (NoDup_key_eq (λ r, (mr_account r, mr_position r)) (mail_rules d)); auto;
            [|congruence].
          eapply unique_rows_key; [|exact Hu2]. intros r r' [= E1 E2]. unfold rule_conflict.
          by rewrite E1, E2, str_eqb_refl, Z.eqb_refl, orb_true_r. }
        rewrite Hxa, Hya. rewrite bool_decide_eq_true_2 by done. simpl. apply Z.eqb_neq. lia.
Qed.

(** ** The result of a renumbering *)

Section Result.
Context (acc : list Z) (f : Z → rule_row → rule_row) (P : list Z → rule_row → Prop).
Context (HR : repositioner acc f P).
Context (ids : list (list Z)) (t : list rule_row).
Context (Hids : NoDup ids) (Hrows : NoDup (mr_id <$> t)).
Context (Hin : ∀ r, r ∈ t → mr_account r = acc ↔ mr_id r ∈ ids).
Context (Hall : ∀ i, i ∈ ids → i ∈ mr_id <$> t).

Definition renumber (r : rule_row) : rule_row :=
  assign f 0 ids (if decide (mr_account r = acc) then shift_row r else r).

Definition renumbered : list rule_row := assign f 0 ids <$> shifted acc t.

Lemma renumbered_map : renumbered = renumber <$> t.
Proof using Type. unfold renumbered, shifted, update_where. by rewrite <-list_fmap_compose. Qed.

Lemma renumber_id r : mr_id (renumber r) = mr_id r ∧ mr_account (renumber r) = mr_account r.
Proof using HR.
  unfold renumber, assign. destruct (index_from _ _ _) as [p|].
  - rewrite (rp_id _ _ _ HR), (rp_account _ _ _ HR). by case_decide.
  - by case_decide.
Qed.

Lemma renumber_other r : r ∈ t → mr_account r ≠ acc → renumber r = r.
Proof using Hin.
  intros Hr Ha. unfold renumber, assign. rewrite decide_False by done.
  rewrite index_from_None; [done|]. rewrite <-Hin; done.
Qed.

Lemma renumber_position r : r ∈ t → mr_account r = acc →
  index_from 0 (mr_id r) ids = Some (mr_position (renumber r)).
Proof.
  intros Hr Ha. unfold renumber, assign. rewrite decide_True by done. simpl.
  destruct (index_from 0 (mr_id r) ids) as [p|] eqn:He; [by rewrite (rp_position _ _ _ HR)|].
  exfalso. apply Hin in Ha; [|done]. revert He. generalize 0.
  clear -Ha. induction ids as [|x ids' IH]; intros k; [by apply not_elem_of_nil in Ha|].
  simpl. case_decide as Hx; [done|]. apply IH. by apply elem_of_cons in Ha as [<-|].
Qed.

Lemma select_renumbered id :
  select_where (λ r, mr_account r = id) (renumber <$> t)
  = renumber <$> select_where (λ r, mr_account r = id) t.
Proof using HR.
  unfold select_where. clear -HR. induction t as [|r t' IH]; [done|]. csimpl. rewrite !filter_cons.
  destruct (renumber_id r) as [_ Ha].
  destruct (decide (mr_account (renumber r) = id)), (decide (mr_account r = id)); csimpl;
    congruence || by rewrite IH.
Qed.

(** The account's rows, as the identifiers they carry. *)
Lemma account_ids_perm : mr_id <$> select_where (λ r, mr_account r = acc) t ≡ₚ ids.
Proof using Hids Hrows Hin Hall.
  apply NoDup_Permutation; [by apply NoDup_key_filter|done|]. intros i. split.
  - intros (r & -> & [Ha Hr]%elem_of_select)%list_elem_of_fmap. by apply Hin.
  - intros Hi. apply Hall in Hi as Hr. apply list_elem_of_fmap in Hr as (r & -> & Hr).
    apply list_elem_of_fmap_2, elem_of_select. split; [|done]. by apply Hin.
Qed.

Lemma account_positions_perm :
  mr_position <$> select_where (λ r, mr_account r = acc) renumbered ≡ₚ seqZ 0 (zlen ids).
Proof.
  rewrite renumbered_map, select_renumbered, <-list_fmap_compose.
  set (pos i := default 0 (index_from 0 i ids)).
  assert (mr_position ∘ renumber <$> select_where (λ r, mr_account r = acc) t
    = pos <$> (mr_id <$> select_where (λ r, mr_account r = acc) t)) as ->.
  { rewrite <-list_fmap_compose. apply Forall_fmap_ext_1, Forall_forall.
    intros r [Ha Hr]%elem_of_select. simpl. unfold pos. by rewrite (renumber_position r Hr Ha). }
  rewrite account_ids_perm. unfold pos.
  assert ((λ i, default 0 (index_from 0 i ids)) <$> ids
    = default 0 <$> ((λ i, index_from 0 i ids) <$> ids)) as -> by (by rewrite <-list_fmap_compose).
  rewrite index_from_map by done. rewrite <-list_fmap_compose. by rewrite list_fmap_id.
Qed.

Lemma dense_renumbered :
  (∀ id, id ≠ acc → mr_position <$> select_where (λ r, mr_account r = id) t
    ≡ₚ seqZ 0 (count_where (λ r, mr_account r = id) t)) →
  dense renumbered.
Proof.
  intros Hother id. destruct (decide (id = acc)) as [->|Hne].
  - rewrite account_positions_perm. unfold count_where.
    rewrite renumbered_map, select_renumbered. unfold zlen. rewrite length_fmap.
    pose proof account_ids_perm as Hp. apply Permutation_length in Hp. rewrite length_fmap in Hp.
    by rewrite Hp.
  - unfold count_where. rewrite renumbered_map, select_renumbered.
    assert (renumber <$> select_where (λ r, mr_account r = id) t
      = select_where (λ r, mr_account r = id) t) as ->; [|by apply Hother].
    etrans; [|apply list_fmap_id]. apply Forall_fmap_ext_1, Forall_forall.
    intros r [Ha Hr]%elem_of_select. apply (renumber_other r); [done|congruence].
Qed.

(** Listing the account's rules by position gives back the identifiers. *)
Lemma renumbered_order :
  mr_id <$> order_by rule_position_key (select_where (λ r, mr_account r = acc) renumbered) = ids.
Proof.
  set (l := order_by _ _).
  assert (Hl : l ≡ₚ select_where (λ r, mr_account r = acc) renumbered) by apply merge_sort_Permutation.
  assert (Hpos : mr_position <$> l = seqZ 0 (zlen ids)).
  { apply (Sorted_unique Z.le); [| |by rewrite Hl, account_positions_perm].
    - assert (Hs : Sorted (λ a b, zlist_le (rule_position_key a) (rule_position_key b)) l).
      { apply Sorted_merge_sort. intros a b. apply zlist_le_total. }
      revert Hs. clear. induction 1 as [|x l Hs IH Hh]; [constructor|]. csimpl. constructor; [done|].
      destruct Hh as [|y l' Hxy]; [constructor|]. constructor.
      unfold zlist_le, rule_position_key in Hxy. simpl in Hxy.
      destruct (Z.ltb_spec (mr_position x) (mr_position y)); [lia|].
      destruct (Z.eqb_spec (mr_position x) (mr_position y)); [lia|done].
    - apply sorted_seqZ. }
  assert (Hidx : ∀ r, r ∈ l → index_from 0 (mr_id r) ids = Some (mr_position r)).
  { intros r Hr. rewrite Hl, renumbered_map, select_renumbered in Hr.
    apply list_elem_of_fmap in Hr as (r0 & -> & [Ha Hr0]%elem_of_select).
    destruct (renumber_id r0) as [-> _]. by apply renumber_position. }
  assert (Hmap : (λ i, index_from 0 i ids) <$> (mr_id <$> l) = (λ i, index_from 0 i ids) <$> ids).
  { rewrite index_from_map, <-Hpos by done. rewrite <-!list_fmap_compose.
    apply Forall_fmap_ext_1, Forall_forall. intros r Hr. by apply Hidx. }
  assert (Hmem : Forall (λ i, i ∈ ids) (mr_id <$> l)).
  { apply Forall_fmap, Forall_forall. intros r Hr. simpl.
    by apply (index_from_range 0 _ _ (mr_position r)), Hidx. }
  revert Hmap Hmem. generalize (mr_id <$> l). clear -Hids. intros xs Hmap Hmem.
  apply list_eq. intros j. pose proof (f_equal (lookup j) Hmap) as Hj. rewrite !list_lookup_fmap in Hj.
  destruct (xs !! j) as [x|] eqn:Hx, (ids !! j) as [y|] eqn:Hy; simpl in Hj; try done. f_equal.
  injection Hj as Hj. rewrite Forall_forall in Hmem.
  pose proof (Hmem x (list_elem_of_lookup_2 _ _ _ Hx)) as Hxin.
  eapply index_from_inj; eauto. by eapply list_elem_of_lookup_2.
Qed.
End Result.

(** * Mail rules and runs keep the invariant *)

From S2P Require Import Prelude Text Errors Sql Totp Identity Json AuthDb AuthCore AuthStore AuthPasskey AuthRate AuthRules AuthWp AuthInv AuthSafe.

#[local] Set Default Proof Using "Type*".

(** ** Positions of a dense account *)

Lemma dense_position t acc r :
  dense t → r ∈ t → mr_account r = acc →
  0 ≤ mr_position r < count_where (λ r, mr_account r = acc) t.
Proof.
  intros Hd Hr Ha. pose proof (Hd acc) as Hp.
  assert (Hin : mr_position r ∈ mr_position <$> select_where (λ r, mr_account r = acc) t).
  { apply list_elem_of_fmap_2, elem_of_select. done. }
  rewrite Hp in Hin. apply elem_of_seqZ in Hin. lia.
Qed.

Lemma inv_below acc d : inv d → below acc d.
Proof.
  intros [Hw Hd] r Hr Ha. pose proof (dense_position _ _ _ Hd Hr Ha).
  pose proof (wf_rule_cap d Hw acc). unfold _MAX_MAIL_RULES_PER_ACCOUNT, POSITION_SHIFT in *. lia.
Qed.

Lemma foldr_max_le l m : -1 ≤ m → (∀ x, x ∈ l → x ≤ m) → foldr Z.max (-1) l ≤ m.
Proof.
  intros Hm. induction l as [|x l IH]; intros Hl; simpl; [done|].
  assert (x ≤ m) by (apply Hl; left). assert (foldr Z.max (-1) l ≤ m); [|lia].
  apply IH. intros y Hy. apply Hl. by right.
Qed.

Lemma foldr_max_ge l x : x ∈ l → x ≤ foldr Z.max (-1) l.
Proof.
  induction l as [|y l IH]; [intros Hx; by apply not_elem_of_nil in Hx|]. simpl.
  intros [->|Hx]%elem_of_cons; [lia|]. specialize (IH Hx). lia.
Qed.

Lemma next_position_dense acc d :
  dense (mail_rules d) →
  next_position acc d = count_where (λ r, mr_account r = acc) (mail_rules d).
Proof.
  intros Hd. unfold next_position. specialize (Hd acc).
  set (l := mr_position <$> _) in *. set (n := count_where _ _) in *.
  assert (Hn : 0 ≤ n) by apply count_nonneg.
  assert (Hmem : ∀ x, x ∈ l ↔ 0 ≤ x < n).
  { intros x. rewrite Hd, elem_of_seqZ. lia. }
  assert (foldr Z.max (-1) l ≤ n - 1) by (apply foldr_max_le; [lia|]; intros x Hx%Hmem; lia).
  destruct (decide (n = 0)) as [Hz|Hnz].
  - destruct l as [|x l']; [by rewrite Hz|]. assert (x ∈ x :: l') as Hx%Hmem by left. lia.
  - assert (n - 1 ≤ foldr Z.max (-1) l); [|lia]. apply foldr_max_ge, Hmem. lia.
Qed.

Lemma dense_insert d r :
  dense (mail_rules d) → mr_position r = next_position (mr_account r) d →
  dense (mail_rules d ++ [r]).
Proof.
  intros Hd Hp id. rewrite count_app, count_singleton. unfold select_where. rewrite filter_app.
  rewrite fmap_app, filter_cons, filter_nil. specialize (Hd id) as Hdi. unfold select_where in Hdi.
  rewrite Hdi. case_decide as Ha.
  - pose proof (count_nonneg (λ r, mr_account r = id) (mail_rules d)) as Hn.
    rewrite seqZ_app by lia. csimpl. by rewrite Hp, next_position_dense, Ha.
  - simpl. by rewrite app_nil_r, Z.add_0_r.
Qed.

Lemma inv_insert_rule d r d' :
  insert_rule r d = Some d' → inv d → mr_position r = next_position (mr_account r) d →
  count_where (λ x, mr_account x = mr_account r) (mail_rules d) < _MAX_MAIL_RULES_PER_ACCOUNT →
  inv d'.
Proof.
  intros Hi [Hw Hd] Hp Hn. split; [by eapply wf_insert_rule|].
  unfold insert_rule in Hi. destruct (insert_row _ _ _ _) as [t|] eqn:Hr; [|done].
  injection Hi as <-. apply insert_row_Some in Hr as (-> & _). by apply dense_insert.
Qed.

(** Updates that leave the positions alone. *)
Lemma inv_update_rules d (P : rule_row → Prop) `{!∀ r, Decision (P r)} f d' :
  update_rules P f d = Some d' → inv d →
  (∀ r, mr_id (f r) = mr_id r ∧ mr_account (f r) = mr_account r ∧ mr_position (f r) = mr_position r) →
  inv d'.
Proof.
  intros Hu [Hw Hd] Hk. split.
  - eapply wf_update_rules; [exact Hw| |exact Hu]. intros r. by destruct (Hk r) as (-> & -> & _).
  - apply update_rules_Some in Hu as (-> & _ & _); [|done]. simpl. intros id. specialize (Hd id).
    rewrite count_update by (intros r _ _; by destruct (Hk r) as (_ & -> & _)).
    assert (mr_position <$> select_where (λ r, mr_account r = id) (update_where P f (mail_rules d))
      = mr_position <$> select_where (λ r, mr_account r = id) (mail_rules d)) as ->; [|done].
    unfold select_where, update_where. generalize (mail_rules d). clear -Hk.
    induction l as [|r t IH]; [done|]. csimpl. rewrite !filter_cons.
    assert (Hr : mr_account (if decide (P r) then f r else r) = mr_account r
      ∧ mr_position (if decide (P r) then f r else r) = mr_position r).
    { destruct (Hk r) as (_ & ? & ?). by case_decide. }
    destruct Hr as [Hra Hrp]. repeat case_decide; csimpl; try congruence.
Qed.

(** ** Compaction and reordering cannot fail *)

Definition has_id (i : list Z) (r : rule_row) : Prop := mr_id r = i.
#[export] Instance has_id_dec i r : Decision (has_id i r) := decide (mr_id r = i).

Lemma compact_repositioner acc : repositioner acc set_position has_id.
Proof.
  constructor; try done. intros d p r Hp. unfold rule_check. simpl.
  rewrite !andb_true_iff. intuition lia.
Qed.

Lemma reorder_repositioner acc now :
  repositioner acc (λ p, set_position_at p now) (rule_at acc).
Proof.
  constructor; try done.
  - intros d p r Hp. unfold rule_check. simpl. rewrite !andb_true_iff. intuition lia.
  - by intros i r [_ ?].
Qed.

Lemma iter_enumerate {A B} (F : Z * A → M unit) (G : Z * B → M unit) (g : A → B) (h : nat → Z) l :
  (∀ p x, F (p, x) = G (p, g x)) →
  eff_iter F (imap (λ i x, (h i, x)) l) = eff_iter G (imap (λ i x, (h i, x)) (g <$> l)).
Proof.
  intros HFG. revert h. induction l as [|x l IH]; intros h; [done|].
  rewrite fmap_cons, !imap_cons. simpl. rewrite HFG. f_equal.
  specialize (IH (h ∘ S)). simpl in IH. unfold compose in *. by rewrite IH.
Qed.

(** The account's rules are exactly the rows whose identifier is listed. *)
Definition lists_account (acc : list Z) (ids : list (list Z)) (t : list rule_row) : Prop :=
  NoDup ids ∧ (∀ r, r ∈ t → mr_account r = acc ↔ mr_id r ∈ ids) ∧
  (∀ i, i ∈ ids → i ∈ mr_id <$> t).

Lemma lists_length acc ids d :
  wf d → lists_account acc ids (mail_rules d) → zlen ids ≤ POSITION_SHIFT.
Proof.
  intros Hw (Hnd & Hin & Hall). pose proof (wf_rule_cap d Hw acc) as Hc.
  pose proof (account_ids_perm acc ids (mail_rules d) Hnd (wf_rule_ids d Hw) Hin Hall) as Hp.
  apply Permutation_length in Hp. rewrite length_fmap in Hp.
  unfold count_where, zlen, _MAX_MAIL_RULES_PER_ACCOUNT, POSITION_SHIFT in *. lia.
Qed.

Section Renumber.
Context (acc : list Z) (f : Z → rule_row → rule_row) (P : list Z → rule_row → Prop).
Context `{!∀ i r, Decision (P i r)} (HR : repositioner acc f P).

Lemma wp_renumber ids d d0 Q X :
  wf d0 → lists_account acc ids (mail_rules d0) →
  d = set_mail_rules (shifted acc (mail_rules d0)) d0 → wf d →
  (let d' := set_mail_rules (renumbered acc f ids (mail_rules d0)) d0 in wf d' → Q tt d') →
  wp (loop f P (imap (λ j x, (0 + Z.of_nat j, x)) ids)) Q X d.
Proof.
  intros Hw0 Hl -> Hw HQ. pose proof (lists_length acc ids d0 Hw0 Hl) as Hlen.
  destruct Hl as (Hnd & Hin & Hall).
  apply (wp_loop acc f P HR); [done|done|done|lia| | |]; simpl.
  - intros r (r0 & Hr0 & ->)%elem_of_update Hid. case_decide as Ha.
    + pose proof (rule_position_nonneg d0 r0 Hw0 Hr0). simpl. split; [done|lia].
    + exfalso. by apply Ha, Hin.
  - intros r (r0 & Hr0 & ->)%elem_of_update Ha Hid. exfalso. apply Hid.
    case_decide; simpl in *; by apply Hin.
  - done.
Qed.

Lemma inv_renumbered ids d :
  wf d → lists_account acc ids (mail_rules d) →
  (∀ id, id ≠ acc → mr_position <$> select_where (λ r, mr_account r = id) (mail_rules d)
    ≡ₚ seqZ 0 (count_where (λ r, mr_account r = id) (mail_rules d))) →
  wf (set_mail_rules (renumbered acc f ids (mail_rules d)) d) →
  inv (set_mail_rules (renumbered acc f ids (mail_rules d)) d).
Proof.
  intros Hw (Hnd & Hin & Hall) Hother Hw'. split; [done|]. simpl.
  eapply dense_renumbered; eauto. by apply wf_rule_ids.
Qed.
End Renumber.

Lemma account_rules_list acc d :
  wf d → lists_account acc (mr_id <$> account_rules acc d) (mail_rules d).
Proof.
  intros Hw. assert (Hp : mr_id <$> account_rules acc d
    ≡ₚ mr_id <$> select_where (λ r, mr_account r = acc) (mail_rules d)).
  { apply fmap_Permutation, merge_sort_Permutation. }
  split; [|split].
  - rewrite Hp. apply NoDup_key_filter. by apply wf_rule_ids.
  - intros r Hr. rewrite Hp. split.
    + intros Ha. by apply list_elem_of_fmap_2, elem_of_select.
    + intros (r' & Hid & [Ha Hr']%elem_of_select)%list_elem_of_fmap.
      rewrite (NoDup_key_eq mr_id (mail_rules d) r r'); auto. by apply wf_rule_ids.
  - intros i. rewrite Hp. intros (r & -> & [_ Hr]%elem_of_select)%list_elem_of_fmap.
    by apply list_elem_of_fmap_2.
Qed.

Lemma wp_compact acc d Q X :
  wf d → below acc d →
  (let d' := set_mail_rules (renumbered acc set_position (mr_id <$> account_rules acc d)
                               (mail_rules d)) d in wf d' → Q tt d') →
  wp (_compact_mail_rule_positions_locked acc) Q X d.
Proof.
  intros Hw Hb HQ. unfold _compact_mail_rule_positions_locked. apply wp_bind, wp_query, wp_bind.
  apply wp_shift; [done|done|]. intros d1 Hw1.
  pose proof (account_rules_list acc d Hw) as Hl.
  unfold enumerate. rewrite (iter_enumerate _ (λ '(p, x), exec_checked (update_rules (has_id x)
    (set_position p))) mr_id) by done.
  eapply (wp_renumber acc set_position has_id (compact_repositioner acc) _ d1 d); done.
Qed.

(** ** The methods *)

Section Rules.
Context (self : store).

Lemma delete_rules_other acc rid d id :
  id ≠ acc → select_where (λ r, mr_account r = id) (mail_rules (delete_rules (rule_at acc rid) d))
    = select_where (λ r, mr_account r = id) (mail_rules d).
Proof.
  intros Hne. unfold delete_rules, select_where, delete_where. simpl. rewrite list_filter_filter.
  apply list_filter_iff. intros r. unfold rule_at. split; [tauto|]. intros Ha. split; [done|].
  intros [? _]. congruence.
Qed.

Lemma delete_mail_rule_keeps acc rid : keeps (delete_mail_rule acc rid).
Proof.
  unfold delete_mail_rule. outside. tx.
  set (d1 := delete_rules (rule_at a a0) d).
  assert (Hw1 : wf d1) by (apply wf_delete_rules, H).
  apply wp_compact; [done| |].
  - intros r [_ Hr]%elem_of_delete. by apply (inv_below a d H).
  - intros d' Hw'. apply (inv_renumbered a set_position has_id (compact_repositioner a)); [done| | |done].
    + by apply account_rules_list.
    + intros id Hid. unfold count_where. unfold d1. rewrite delete_rules_other by done. apply H.
Qed.

Lemma same_set_spec a b : same_set a b = true ↔ ∀ x, x ∈ a ↔ x ∈ b.
Proof.
  unfold same_set. rewrite andb_true_iff, !forallb_forall. split.
  - intros [H1 H2] x. rewrite !list_elem_of_In.
    split; intros Hx; [apply H1 in Hx|apply H2 in Hx]; by rewrite bool_decide_eq_true, list_elem_of_In in Hx.
  - intros H. split; intros x Hx; rewrite bool_decide_eq_true; apply H; by rewrite list_elem_of_In.
Qed.

Lemma reorder_lists acc ids d :
  wf d → NoDup ids →
  same_set ids (mr_id <$> select_where (λ r, mr_account r = acc) (mail_rules d)) = true →
  lists_account acc ids (mail_rules d).
Proof.
  intros Hw Hnd Hs. rewrite same_set_spec in Hs. split; [done|]. split.
  - intros r Hr. rewrite Hs. split.
    + intros Ha. by apply list_elem_of_fmap_2, elem_of_select.
    + intros (r' & Hid & [Ha Hr']%elem_of_select)%list_elem_of_fmap.
      rewrite (NoDup_key_eq mr_id (mail_rules d) r r'); auto. by apply wf_rule_ids.
  - intros i Hi. apply Hs in Hi. apply list_elem_of_fmap in Hi as (r & -> & [_ Hr]%elem_of_select).
    by apply list_elem_of_fmap_2.
Qed.

(** [reorder_mail_rules] after its checks, in continuation form. *)
Lemma wp_reorder acc ids d Q X :
  inv d → lists_account acc ids (mail_rules d) → (∀ e, X e (set_mail_rules (shifted acc (mail_rules d)) d)) →
  (∀ now, let d' := set_mail_rules (renumbered acc (λ p, set_position_at p now) ids (mail_rules d)) d
     in inv d' → Q tt d') →
  wp (shift_positions acc ;;
      now ← _now self;
      eff_iter (λ '(position, normalized_rule),
        exec_checked (update_rules (rule_at acc normalized_rule) (set_position_at position now)))
        (enumerate ids)) Q X d.
Proof.
  intros Hd Hl HX HQ. apply wp_bind, wp_shift; [apply Hd|by apply inv_below|].
  intros d1 Hw1. apply wp_bind, wp_readonly; [ro| |done]. intros now.
  unfold enumerate. rewrite (iter_enumerate _ (λ '(p, x), exec_checked (update_rules (rule_at acc x)
    (set_position_at p now))) id) by done. rewrite list_fmap_id.
  eapply (wp_renumber acc (λ p, set_position_at p now) (rule_at acc) (reorder_repositioner acc now)
    ids d1 d); [apply Hd|done|done|done|].
  intros d' Hw'. apply HQ. eapply (inv_renumbered acc _ (rule_at acc) (reorder_repositioner acc now));
    [apply Hd|done| |done]. intros id _. apply Hd.
Qed.

Lemma readonly_map_validate l : readonly (eff_map _validate_mail_rule_id l).
Proof. apply readonly_map. intros x. ro. Qed.
Hint Resolve readonly_map_validate : readonly.

Lemma wp_validate_ids l d Q X :
  (∀ ids, ids = l → Q ids d) → (∀ e, X e d) → wp (eff_map _validate_mail_rule_id l) Q X d.
Proof.
  intros HQ HX.
  assert (H : ∀ l (Q : list (list Z) → db → Prop), (Q l d) →
    wp (eff_map _validate_mail_rule_id l) Q X d); [|by apply H, HQ].
  clear l Q HQ. intros l. induction l as [|x l IH]; intros Q HQ; simpl; [by apply wp_ret|].
  apply wp_bind. unfold _validate_mail_rule_id at 1, _validate_hex32.
  destruct (is_hex32 x); [|by apply wp_throw]. apply wp_ret, wp_bind. apply IH. by apply wp_ret.
Qed.

Lemma reorder_mail_rules_keeps acc ids : keeps (reorder_mail_rules self acc ids).
Proof.
  unfold reorder_mail_rules. apply keeps_bind; [apply keeps_readonly; ro|intros a].
  apply keeps_bind; [apply keeps_readonly; ro|intros rules].
  intros d Hd. apply wp_bind, wp_require; [intros Hnd%bool_decide_eq_true|done].
  apply wp_transaction; [|done].
  apply wp_bind, wp_query, wp_bind, wp_require; [intros Hs|done].
  apply wp_reorder; [done|by apply reorder_lists; [apply Hd| |]|done|]. done.
Qed.

Lemma readonly_rule r : readonly (lift (_mail_rule_from_row self r)).
Proof. ro. Qed.

Lemma wp_insert_mail_rule acc name enabled expression target stop now d X :
  inv d → lax X →
  wp (insert_mail_rule_locked self acc name enabled expression target stop now) (λ _, inv) X d.
Proof.
  intros Hd HX. unfold insert_mail_rule_locked.
  eapply wp_seq; [by apply wp_require_account|]. intros row d' (-> & _ & _).
  apply wp_bind, wp_query, wp_bind, wp_require; [intros Hn|intros _; apply HX].
  apply wp_bind, wp_query. apply wp_read_bind; [ro|done|intros rid].
  apply wp_bind, wp_exec_checked; [intros d' Hi|intros _; apply HX].
  assert (Hd' : inv d') by (eapply inv_insert_rule; [exact Hi|done|done|simpl; lia]).
  by tx.
Qed.

Lemma create_mail_rule_keeps acc name enabled expression target stop :
  keeps (create_mail_rule self acc name enabled expression target stop).
Proof.
  unfold create_mail_rule. outside.
  eapply wp_seq; [by apply wp_require_account|]. intros row d' (-> & _ & _).
  apply wp_bind, wp_query, wp_bind, wp_require; [intros Hn|intros _; apply H1].
  apply wp_bind, wp_query. apply wp_read_bind; [ro|done|intros rid].
  apply wp_bind, wp_exec_checked; [intros d' Hi|intros _; apply H1].
  assert (Hd' : inv d') by (eapply inv_insert_rule; [exact Hi|done|done|simpl; lia]).
  by tx.
Qed.

Lemma update_mail_rule_keeps acc rid revision name enabled expression target stop :
  keeps (update_mail_rule self acc rid revision name enabled expression target stop).
Proof.
  unfold update_mail_rule. outside.
  apply wp_bind, wp_query, wp_bind, wp_exec_checked; [intros d' Hu|intros _; apply H1].
  assert (Hd' : inv d') by (by eapply inv_update_rules).
  apply wp_read_bind; [ro|done|intros _]. by tx.
Qed.

(** ** Runs *)

Lemma prune_room acc d :
  wf d → lookup_where (account_active_run acc) (mail_runs d) = None →
  count_where (λ r, ru_account r = acc) (mail_runs (prune_runs acc d))
  < _MAX_MAIL_RULE_RUNS_PER_ACCOUNT.
Proof.
  intros Hw Hno. rewrite lookup_where_None in Hno. unfold prune_runs, delete_runs. simpl.
  set (sorted := order_by_desc run_age_key (select_where (account_final_run acc) (mail_runs d))).
  set (n := _MAX_MAIL_RULE_RUNS_PER_ACCOUNT - 1).
  assert (Hperm : sorted ≡ₚ select_where (account_final_run acc) (mail_runs d))
    by apply merge_sort_Permutation.
  pose proof (NoDup_fmap_1 ru_id _ (wf_run_ids d Hw)) as Hnd.
  assert (Hsub : offset n sorted `sublist_of` sorted) by apply sublist_drop.
  rewrite (count_victims ru_id); [|by apply wf_run_ids| |].
  - assert (Hcount : count_where (λ r, ru_account r = acc) (mail_runs d) = zlen sorted).
    { rewrite (count_where_ext _ (account_final_run acc)).
      - unfold count_where, zlen. by rewrite Hperm.
      - intros r Hr. unfold account_final_run. split; [|tauto]. intros Ha. split; [done|].
        specialize (Hno r Hr). unfold account_active_run, run_active in Hno.
        destruct (ru_status r); try done; exfalso; by apply Hno. }
    rewrite Hcount. unfold offset, zlen. rewrite length_drop. unfold n, _MAX_MAIL_RULE_RUNS_PER_ACCOUNT. lia.
  - eapply sublist_NoDup; [|exact Hsub]. rewrite Hperm. by apply NoDup_filter.
  - intros r Hr. assert (Hr' : r ∈ sorted).
    { rewrite <-(take_drop (Z.to_nat n) sorted), elem_of_app. by right. }
    rewrite Hperm, elem_of_select in Hr'. unfold account_final_run in Hr'. tauto.
Qed.

Lemma wp_start_run acc rule revision snapshot state status now finished d X :
  inv d → lax X →
  wp (start_run_locked self acc rule revision snapshot state status now finished) (λ _, inv) X d.
Proof.
  intros Hd HX. unfold start_run_locked. apply wp_bind, wp_query.
  destruct (lookup_where _ _) as [r|] eqn:Hr; [apply wp_throw, HX|].
  apply wp_bind, wp_exec.
  assert (Hd1 : inv (prune_runs acc d)) by (by apply inv_delete_runs).
  pose proof (prune_room acc d (proj1 Hd) Hr) as Hroom.
  apply wp_read_bind; [ro|done|intros rid].
  apply wp_bind, wp_exec_checked; [intros d2 Hi|intros _; apply HX].
  assert (Hd2 : inv d2) by (by eapply inv_insert_run). by tx.
Qed.

Lemma create_mail_rule_with_run_keeps acc name enabled expression target stop state completed :
  keeps (create_mail_rule_with_run self acc name enabled expression target stop state completed).
Proof.
  unfold create_mail_rule_with_run. outside.
  eapply wp_seq; [by apply wp_insert_mail_rule|]. intros rule d1 Hd1.
  apply wp_read_bind; [ro|done|intros snapshot].
  eapply wp_seq; [by apply wp_start_run|]. intros row d2 Hd2. by tx.
Qed.

Lemma create_mail_rule_run_keeps acc rid snapshot state :
  keeps (create_mail_rule_run self acc rid snapshot state).
Proof.
  unfold create_mail_rule_run. outside. apply wp_bind, wp_query.
  destruct (lookup_where _ _) as [r|]; [by apply wp_start_run|apply wp_throw, H1].
Qed.

Lemma update_mail_rule_run_keeps acc rid state status scanned matched moved failed error :
  keeps (update_mail_rule_run self acc rid state status scanned matched moved failed error).
Proof.
  unfold update_mail_rule_run. outside. apply wp_bind, wp_query.
  destruct (lookup_where _ _) as [r|]; [|apply wp_throw, H1].
  destruct (final_status (ru_status r)); [apply wp_throw, H1|]. cbv zeta.
  apply wp_bind, wp_exec_checked; [intros d' Hu|intros _; apply H1].
  assert (Hd' : inv d') by (by eapply inv_update_runs). by tx.
Qed.

Lemma readonly_get_run acc rid : readonly (get_mail_rule_run self acc rid).
Proof. unfold get_mail_rule_run. ro. Qed.

Lemma cancel_mail_rule_run_keeps acc rid : keeps (cancel_mail_rule_run self acc rid).
Proof.
  unfold cancel_mail_rule_run. apply keeps_bind; [apply keeps_readonly, readonly_get_run|].
  intros. apply update_mail_rule_run_keeps.
Qed.
End Rules.
