(* ===== verification/AuthReach.v ===== *)
(** * The store as a transition system

    [method]: the public methods of [AuthStore] that can write, with any
    arguments.  [reachable]: the worlds a process gets to from an empty database
    by calling them in any order, whether a call returns or raises.  The clock,
    the random source and the external functions are arbitrary. *)

From S2P Require Import Prelude Text Errors Sql Totp Identity Json AuthDb AuthCore AuthStore AuthPasskey AuthRate AuthRules AuthWp AuthInv AuthSafe AuthSafeRules AuthDemo.

Section System.
Context (self : store) (wa : webauthn).

Inductive method : ∀ {A}, M A → Prop :=
| m_create_account e r b : method (create_account self e r b)
| m_sync_accounts es r b : method (sync_accounts self es r b)
| m_set_role i r b : method (set_role self i r b)
| m_set_password_change_required i r b : method (set_password_change_required self i r b)
| m_reset_totp i : method (reset_totp self i)
| m_rotate_totp i : method (rotate_totp self i)
| m_regenerate_recovery_codes i c : method (regenerate_recovery_codes self i c)
| m_verify_totp i c : method (verify_totp self i c)
| m_delete_account i : method (delete_account self i)
| m_provision_active_account e r b : method (provision_active_account self e r b)
| m_bootstrap_active_accounts rs : method (bootstrap_active_accounts self rs)
| m_bootstrap_active_account e r s cs b : method (bootstrap_active_account self e r s cs b)
| m_create_pending_challenge e : method (create_pending_challenge self e)
| m_begin_totp_enrollment t : method (begin_totp_enrollment self t)
| m_confirm_totp_enrollment t c ip ua : method (confirm_totp_enrollment self t c ip ua)
| m_complete_totp_challenge t c ip ua : method (complete_totp_challenge self t c ip ua)
| m_complete_recovery_challenge t c ip ua : method (complete_recovery_challenge self t c ip ua)
| m_authenticate_session t b : method (authenticate_session self t b)
| m_mark_step_up t : method (mark_step_up self t)
| m_require_step_up t : method (require_step_up self t)
| m_revoke_session t : method (revoke_session self t)
| m_list_sessions i t : method (list_sessions self i t)
| m_revoke_session_by_id i s : method (revoke_session_by_id i s)
| m_revoke_sessions i : method (revoke_sessions self i)
| m_begin_passkey_registration t : method (begin_passkey_registration self wa t)
| m_complete_passkey_registration t ct c n :
    method (complete_passkey_registration self wa t ct c n)
| m_list_passkeys i : method (list_passkeys self i)
| m_delete_passkey i p : method (delete_passkey i p)
| m_begin_passkey_login : method (begin_passkey_login self wa)
| m_verify_passkey_login ct c : method (verify_passkey_login self wa ct c)
| m_issue_verified_passkey_session i ip ua :
    method (issue_verified_passkey_session self i ip ua)
| m_complete_passkey_login ct c ip ua : method (complete_passkey_login self wa ct c ip ua)
| m_begin_passkey_step_up t : method (begin_passkey_step_up self wa t)
| m_complete_passkey_step_up t ct c : method (complete_passkey_step_up self wa t ct c)
| m_check_login_rate e ip : method (check_login_rate self e ip)
| m_record_login_result e ip b : method (record_login_result self e ip b)
| m_check_passkey_login_rate ip : method (check_passkey_login_rate self ip)
| m_record_passkey_login_result ip b : method (record_passkey_login_result self ip b)
| m_create_mail_rule i n b e t s : method (create_mail_rule self i n b e t s)
| m_create_mail_rule_with_run i n b e t s st c :
    method (create_mail_rule_with_run self i n b e t s st c)
| m_update_mail_rule i r v n b e t s : method (update_mail_rule self i r v n b e t s)
| m_delete_mail_rule i r : method (delete_mail_rule i r)
| m_reorder_mail_rules i rs : method (reorder_mail_rules self i rs)
| m_create_mail_rule_run i r sn st : method (create_mail_rule_run self i r sn st)
| m_update_mail_rule_run i r st s a b c d e :
    method (update_mail_rule_run self i r st s a b c d e)
| m_cancel_mail_rule_run i r : method (cancel_mail_rule_run self i r).

Lemma method_keeps {A} (m : M A) : method m → keeps m.
Proof.
  destruct 1; eauto using create_account_keeps, sync_accounts_keeps, set_role_keeps,
    set_password_change_required_keeps, reset_totp_keeps, rotate_totp_keeps,
    regenerate_recovery_codes_keeps, verify_totp_keeps, delete_account_keeps,
    provision_active_account_keeps, bootstrap_active_accounts_keeps, bootstrap_active_account_keeps,
    create_pending_challenge_keeps, begin_totp_enrollment_keeps, confirm_totp_enrollment_keeps,
    complete_totp_challenge_keeps, complete_recovery_challenge_keeps, authenticate_session_keeps,
    mark_step_up_keeps, require_step_up_keeps, revoke_session_keeps, list_sessions_keeps,
    revoke_session_by_id_keeps, revoke_sessions_keeps, begin_passkey_registration_keeps,
    complete_passkey_registration_keeps, list_passkeys_keeps, delete_passkey_keeps,
    begin_passkey_login_keeps, verify_passkey_login_keeps, issue_verified_passkey_session_keeps,
    complete_passkey_login_keeps, begin_passkey_step_up_keeps, complete_passkey_step_up_keeps,
    check_login_rate_keeps, record_login_result_keeps, check_passkey_login_rate_keeps,
    record_passkey_login_result_keeps, create_mail_rule_keeps, create_mail_rule_with_run_keeps,
    update_mail_rule_keeps, delete_mail_rule_keeps, reorder_mail_rules_keeps,
    create_mail_rule_run_keeps, update_mail_rule_run_keeps, cancel_mail_rule_run_keeps.
Qed.

(** A new database: no rows but those of [auth_metadata]. *)
Definition fresh_db (m : list (list Z * list Z)) : db := set_metadata m empty_db.

Inductive reachable : world → Prop :=
| reach_fresh m clock_ random_ closed : reachable (World (fresh_db m) clock_ random_ closed)
| reach_call {A} (m : M A) w r w' : reachable w → method m → m w = (r, w') → reachable w'
| reach_close w : reachable w → reachable (close w).2.

Lemma reachable_inv w : reachable w → inv (w_db w).
Proof.
  induction 1 as [m c r o|A m w r w' _ IH Hm Hr|w _ IH]; [| |done].
  - destruct inv_empty as [[] Hd]. split; [|exact Hd]. by constructor.
  - pose proof (method_keeps m Hm _ IH w r w' eq_refl Hr) as H. by destruct r.
Qed.
End System.

(** ** What holds of every reachable database *)

Section Invariants.
Context (self : store) (wa : webauthn).


(** C29: in every reachable database an account has at most five sessions,
    five login challenges, ten passkeys, five bound passkey challenges, a hundred
    rules and a hundred runs; there are at most 256 anonymous passkey challenges
    and 1024 rate-limit rows; no stored challenge has five failures. *)
Theorem reachable_caps w :
  reachable self wa w →
  let d := w_db w in
  (∀ id, count_where (λ s, s_account s = id) (sessions d) ≤ 5 ∧
         count_where (λ c, c_account c = id) (challenges d) ≤ 5 ∧
         count_where (λ p, p_account p = id) (passkeys d) ≤ 10 ∧
         count_where (bound_to id) (passkey_challenges d) ≤ 5 ∧
         count_where (λ r, mr_account r = id) (mail_rules d) ≤ 100 ∧
         count_where (λ r, ru_account r = id) (mail_runs d) ≤ 100) ∧
  count_where (λ k, k_purpose k = LOGIN) (passkey_challenges d) ≤ 256 ∧
  zlen (rate_limits d) ≤ 1024 ∧
  (∀ c, c ∈ challenges d → 0 ≤ c_failures c < 5).
Proof.
  intros Hr d. pose proof (reachable_inv _ _ _ Hr) as Hi. destruct Hi as [Hw Hd]. fold d in Hw, Hd.
  split; [|split; [|split]].
  - intros id. refine (conj _ (conj _ (conj _ (conj _ (conj _ _))))); [apply wf_session_cap|
      apply wf_challenge_cap|apply wf_passkey_cap|apply wf_bound_cap|apply wf_rule_cap|apply wf_run_cap];
      done.
  - apply wf_login_cap, Hw.
  - apply wf_rate_cap, Hw.
  - intros c Hc. split; [by apply (failures_nonneg d)|].
    pose proof (wf_failures d Hw) as Hf. rewrite Forall_forall in Hf. by apply Hf.
Qed.

(** In every reachable database an account's columns agree with its
    enrollment state, and a pending enrollment is owned by a stored login
    challenge of the same account, so it can always be confirmed or released. *)
Theorem reachable_enrollment w a :
  reachable self wa w → a ∈ accounts (w_db w) →
  match a_state a with
  | REQUIRED => a_nonce a = None ∧ a_cipher a = None ∧ a_owner a = None ∧ a_counter a = -1
  | PENDING => ∃ nonce cipher c, a_nonce a = Some nonce ∧ zlen nonce = 12 ∧
      a_cipher a = Some cipher ∧ c ∈ challenges (w_db w) ∧ c_account c = a_id a ∧
      a_owner a = Some (c_digest c)
  | ACTIVE => ∃ nonce cipher, a_nonce a = Some nonce ∧ zlen nonce = 12 ∧
      a_cipher a = Some cipher ∧ a_owner a = None
  end.
Proof.
  intros Hr Ha. pose proof (reachable_inv _ _ _ Hr) as [Hw _].
  pose proof (wf_owner _ Hw a Ha) as Ho.
  destruct (wf_accounts _ Hw) as [Hc _]. rewrite Forall_forall in Hc. specialize (Hc a Ha).
  simpl in Hc. unfold account_check in Hc. rewrite !andb_true_iff in Hc. destruct Hc as [_ Hc].
  unfold owned in Ho. destruct (a_state a); rewrite !andb_true_iff in Hc; unfold is_none, len_is in Hc.
  - destruct (a_nonce a), (a_cipher a), (a_owner a); try (exfalso; intuition done).
    repeat split; try done. lia.
  - destruct (Ho eq_refl) as (c & Hcin & Hca & Hco).
    destruct (a_nonce a) as [nonce|], (a_cipher a) as [cipher|]; try (exfalso; intuition done).
    exists nonce, cipher, c. repeat split; try done. lia.
  - destruct (a_nonce a) as [nonce|], (a_cipher a) as [cipher|], (a_owner a);
      try (exfalso; intuition done).
    exists nonce, cipher. repeat split; try done. lia.
Qed.

(** In every reachable database a session was last used after its
    creation, its absolute expiry is thirty days after it, and a step-up grant
    never outlives that expiry. *)
Theorem reachable_session_times w s :
  reachable self wa w → s ∈ sessions (w_db w) →
  s_created s ≤ s_last_seen s ∧ s_absolute s = s_created s + 2592000 ∧ s_step_up s ≤ s_absolute s.
Proof.
  intros Hr Hs. pose proof (reachable_inv _ _ _ Hr) as [Hw _].
  pose proof (wf_session_times _ Hw) as Ht. rewrite Forall_forall in Ht. by apply Ht.
Qed.

(** C30: in every reachable database the positions of an account's rules are
    exactly [0 .. n - 1], and at most one of its runs is queued or running. *)
Theorem reachable_rules w :
  reachable self wa w →
  let d := w_db w in
  (∀ id, mr_position <$> select_where (λ r, mr_account r = id) (mail_rules d)
     ≡ₚ seqZ 0 (count_where (λ r, mr_account r = id) (mail_rules d))) ∧
  (∀ id, count_where (account_active_run id) (mail_runs d) ≤ 1).
Proof.
  intros Hr d. pose proof (reachable_inv _ _ _ Hr) as [Hw Hd]. split; [apply Hd|].
  intros id. destruct (wf_runs _ Hw) as [_ Hu]. fold d in Hu.
  unfold count_where, select_where.
  apply (unique_rows_filter (account_active_run id)) in Hu.
  destruct (filter _ _) as [|r1 [|r2 l]] eqn:E; [done|done|]. exfalso.
  assert (Hin : ∀ r, r ∈ [r1; r2] → account_active_run id r).
  { intros r Hin. assert (r ∈ filter (account_active_run id) (mail_runs d)) as [? _]%list_elem_of_filter;
      [|done]. rewrite E. set_unfold. tauto. }
  destruct (Hin r1 ltac:(left)) as [H1 H1']. destruct (Hin r2 ltac:(right; left)) as [H2 H2'].
  destruct Hu as [Hf _]. apply Forall_cons in Hf as [Hf _]. unfold run_conflict in Hf.
  by rewrite H1, H2, H1', H2', str_eqb_refl, orb_true_r in Hf.
Qed.
End Invariants.

(** ** Witnesses: the worlds of the demonstration run *)

Lemma reach_step self wa {A} (m : M A) w :
  reachable self wa w → method self wa m → reachable self wa (m w).2.
Proof. intros Hr Hm. eapply reach_call; [exact Hr|exact Hm|]. apply surjective_pairing. Qed.

Lemma demo_reachable_0 : reachable demo_store demo_webauthn demo_0.
Proof. apply (reach_fresh _ _ [] 0 0 false). Qed.

Lemma demo_reachable_1 : reachable demo_store demo_webauthn demo_1.
Proof. exact (reach_step _ _ demo_create demo_0 demo_reachable_0 (m_create_account _ _ _ _ _)). Qed.

Lemma demo_reachable_4 : reachable demo_store demo_webauthn demo_4.
Proof.
  exact (reach_step _ _ demo_confirm demo_3
    (reach_step _ _ demo_begin demo_2
      (reach_step _ _ demo_challenge demo_1 demo_reachable_1 (m_create_pending_challenge _ _ _))
      (m_begin_totp_enrollment _ _ _))
    (m_confirm_totp_enrollment _ _ _ _ _ _)).
Qed.

Definition demo_account_row : account_row :=
  AccountRow demo_account demo_email USER true REQUIRED None None None (-1) 1700000000 1700000000.

Lemma demo_account_in : demo_account_row ∈ accounts (w_db demo_1).
Proof.
  assert (accounts (w_db demo_1) = [demo_account_row]) as -> by (vm_compute; reflexivity). left.
Qed.


Lemma reachable_caps_witness : zlen (rate_limits (w_db demo_4)) ≤ 1024.
Proof.
  exact (proj1 (proj2 (proj2 (reachable_caps demo_store demo_webauthn demo_4 demo_reachable_4)))).
Defined.

Lemma reachable_enrollment_witness :
  a_nonce demo_account_row = None ∧ a_cipher demo_account_row = None
  ∧ a_owner demo_account_row = None ∧ a_counter demo_account_row = -1.
Proof.
  exact (reachable_enrollment demo_store demo_webauthn demo_1 demo_account_row demo_reachable_1
    demo_account_in).
Defined.

Lemma reachable_rules_witness :
  count_where (account_active_run demo_account) (mail_runs (w_db demo_4)) ≤ 1.
Proof.
  exact (proj2 (reachable_rules demo_store demo_webauthn demo_4 demo_reachable_4) demo_account).
Defined.

Lemma zlen_one_elem {A} (l : list A) : zlen l = 1 → ∃ x, x ∈ l.
Proof. destruct l as [|x l]; [done|]. intros _. exists x. left. Qed.

Lemma pair_mid {A B C D} (a a' : A) (b b' : B) (c c' : C) (d d' : D) :
  (a, (b, c, d)) = (a', (b', c', d')) → b = b'.
Proof. congruence. Qed.

Lemma demo_session_exists : ∃ s, s ∈ sessions (w_db demo_4).
Proof. exact (zlen_one_elem _ (pair_mid _ _ _ _ _ _ _ _ demo_runs)). Qed.

Lemma reachable_session_times_witness :
  ∃ s, s ∈ sessions (w_db demo_4) ∧ s_absolute s = s_created s + 2592000.
Proof.
  destruct demo_session_exists as [s Hs]. exists s. split; [exact Hs|].
  exact (proj1 (proj2 (reachable_session_times demo_store demo_webauthn demo_4 s
    demo_reachable_4 Hs))).
Defined.
