(* ===== verification/AuthRun.v ===== *)
(** * Running store methods on a given world

    Equations for exact results: what a method returns and the database it
    leaves when the clock reads a given second. *)

From S2P Require Import Prelude Text Errors Sql Totp Identity Json AuthDb AuthCore AuthStore AuthPasskey AuthRate AuthRules AuthWp AuthInv AuthSafe.

Definition ticked (w : world) : world :=
  World (w_db w) (S (w_clock w)) (w_random w) (w_closed w).

(** The next clock reading is the second [now]. *)
Definition reads (self : store) (w : world) (now : Z) : Prop :=
  ∃ num den, clock self (w_clock w) = Finite num den ∧ 0 ≤ num ∧ now = num / Zpos den.

Lemma run_now self w now : reads self w now → _now self w = (Ok now, ticked w).
Proof.
  intros (num & den & Hc & Hn & ->). unfold _now. rewrite Hc.
  destruct (Z.ltb_spec num 0); [lia|done].
Qed.

Lemma reads_nonneg self w now : reads self w now → 0 ≤ now.
Proof. intros (num & den & _ & Hn & ->). apply Z.div_pos; lia. Qed.

Section Run.
Context {A B : Type}.

Lemma run_bind (m : M A) (f : A → M B) w :
  (m ≫= f) w = match m w with (Ok a, w') => f a w' | (Err e, w') => (Err e, w') end.
Proof. reflexivity. Qed.

Lemma run_bind_ok (m : M A) (f : A → M B) w a w' : m w = (Ok a, w') → (m ≫= f) w = f a w'.
Proof. intros Hm. rewrite run_bind, Hm. done. Qed.

Lemma run_bind_err (m : M A) (f : A → M B) w e w' :
  m w = (Err e, w') → (m ≫= f) w = (Err e, w').
Proof. intros Hm. rewrite run_bind, Hm. done. Qed.

(** How a bind can return, or raise. *)
Lemma bind_inv_ok (m : M A) (f : A → M B) w b w' :
  (m ≫= f) w = (Ok b, w') → ∃ a w1, m w = (Ok a, w1) ∧ f a w1 = (Ok b, w').
Proof. rewrite run_bind. destruct (m w) as [[a|e] w1]; [eauto|done]. Qed.

Lemma transaction_inv_ok (m : M A) w a w' :
  _transaction m w = (Ok a, w') → w_closed w = false ∧ m w = (Ok a, w').
Proof.
  unfold _transaction. destruct (w_closed w); [done|]. by destruct (m w) as [[?|?] ?].
Qed.

Lemma transaction_err_db (m : M A) w e w' : _transaction m w = (Err e, w') → w_db w' = w_db w.
Proof.
  unfold _transaction. destruct (w_closed w); [by intros [= _ <-]|].
  destruct (m w) as [[?|?] ?]; [done|]. by intros [= _ <-].
Qed.

Lemma transaction_inv_err (m : M A) w e w' :
  _transaction m w = (Err e, w') → e = RuntimeError ∨ ∃ w1, m w = (Err e, w1).
Proof.
  unfold _transaction. destruct (w_closed w); [by intros [= <- _]; left|].
  destruct (m w) as [[?|?] ?]; [done|]. intros [= <- _]. eauto.
Qed.

Lemma run_transaction (m : M A) w :
  w_closed w = false →
  _transaction m w = match m w with (Ok a, w') => (Ok a, w') | (Err e, w') => (Err e, with_db (w_db w) w') end.
Proof. unfold _transaction. by intros ->. Qed.

Lemma bind_inv_err (m : M A) (f : A → M B) w e w' :
  (m ≫= f) w = (Err e, w') →
  m w = (Err e, w') ∨ ∃ a w1, m w = (Ok a, w1) ∧ f a w1 = (Err e, w').
Proof. rewrite run_bind. destruct (m w) as [[a|e'] w1]; [eauto|]. intros [= -> ->]. by left. Qed.

Lemma require_inv_ok b e (w w' : world) u_ : (require b e : M unit) w = (Ok u_, w') → b = true ∧ w' = w.
Proof. destruct b; [|done]. by intros [= <- <-]. Qed.

Lemma lift_inv_ok (r : result exc A) (w : world) a w' :
  (lift r : M A) w = (Ok a, w') → r = Ok a ∧ w' = w.
Proof. by intros [= -> ->]. Qed.

Lemma exec_checked_inv_ok f w u_ w' :
  exec_checked f w = (Ok u_, w') → ∃ d, f (w_db w) = Some d ∧ w' = with_db d w.
Proof. unfold exec_checked. destruct (f (w_db w)); [|done]. intros [= <- <-]. eauto. Qed.

Lemma now_inv_ok self w t w' : _now self w = (Ok t, w') → 0 ≤ t ∧ reads self w t ∧ w' = ticked w.
Proof.
  unfold _now, reads. destruct (clock self (w_clock w)) as [num den|]; [|done].
  destruct (Z.ltb_spec num 0); [done|]. intros [= <- <-]. split; [apply Z.div_pos; lia|].
  split; [|done]. eauto 10.
Qed.

Lemma hex32_inv_ok v (w : world) a w' : _validate_hex32 v w = (Ok a, w') → is_hex32 v = true ∧ a = v ∧ w' = w.
Proof. unfold _validate_hex32. destruct (is_hex32 v); [|done]. by intros [= <- <-]. Qed.

Lemma query_inv_ok (f : db → A) w a w' : query f w = (Ok a, w') → a = f (w_db w) ∧ w' = w.
Proof. by intros [= <- <-]. Qed.

Lemma exec_inv_ok f w u_ w' : exec f w = (Ok u_, w') → w' = with_db (f (w_db w)) w.
Proof. by intros [= <- <-]. Qed.

Lemma ret_inv_ok (a b : A) (w w' : world) : (mret a : M A) w = (Ok b, w') → a = b ∧ w' = w.
Proof. by intros [= <- <-]. Qed.

Lemma throw_inv_ok e (b : A) (w w' : world) : (throw e : M A) w = (Ok b, w') → False.
Proof. done. Qed.
End Run.

(** A read-only step that returned leaves the same database. *)
Lemma readonly_inv_ok {A} (m : M A) w a w' : readonly m → m w = (Ok a, w') → w_db w' = w_db w.
Proof. intros Hm Hr. eauto. Qed.

(** Follow a successful run backwards: [H : m w = (Ok a, w')]. *)
Ltac run_inv H :=
  lazymatch type of H with
  | (_ ≫= _) _ = (Ok _, _) =>
      let a := fresh "a" in let w := fresh "w" in let H1 := fresh "Hrun" in let H2 := fresh "Hrun" in
      apply bind_inv_ok in H as (a & w & H1 & H2); run_inv H1; cbv beta iota in H2; run_inv H2
  | _transaction _ _ = (Ok _, _) => apply transaction_inv_ok in H as [? H]; run_inv H
  | (require _ _) _ = (Ok _, _) => apply require_inv_ok in H as [? ?]; subst
  | (lift _) _ = (Ok _, _) => apply lift_inv_ok in H as [? ?]; subst
  | exec_checked _ _ = (Ok _, _) =>
      let d := fresh "d" in apply exec_checked_inv_ok in H as (d & ? & ?); subst
  | exec _ _ = (Ok _, _) => apply exec_inv_ok in H; subst
  | query _ _ = (Ok _, _) => apply query_inv_ok in H as [? ?]; subst
  | (mret _) _ = (Ok _, _) => apply ret_inv_ok in H as [? ?]; subst
  | (throw _) _ = (Ok _, _) => destruct (throw_inv_ok _ _ _ _ H)
  | _now _ _ = (Ok _, _) => apply now_inv_ok in H as (? & ? & ?); subst
  | _ => idtac
  end.

(** ** Exceptions a step cannot raise *)

(** [m] never raises [x]. *)
Definition quiet (x : exc) {A} (m : M A) : Prop := ∀ w e w', m w = (Err e, w') → e ≠ x.

Section Quiet.
Context (x : exc) {A B : Type}.

Lemma quiet_ret (a : A) : quiet x (mret a).
Proof. by intros w e w'. Qed.
Lemma quiet_query (f : db → A) : quiet x (query f).
Proof. by intros w e w'. Qed.
Lemma quiet_exec f : quiet x (exec f).
Proof. by intros w e w'. Qed.
Lemma quiet_exec_checked f : IntegrityError ≠ x → quiet x (exec_checked f).
Proof. intros Hx w e w'. unfold exec_checked. destruct (f _); [done|]. by intros [= <- _]. Qed.
Lemma quiet_throw e : e ≠ x → quiet x (throw e : M A).
Proof. by intros He w e' w' [= <- _]. Qed.
Lemma quiet_require b e : e ≠ x → quiet x (require b e).
Proof. intros He w e' w'. destruct b; [done|]. by intros [= <- _]. Qed.
Lemma quiet_bind (m : M A) (f : A → M B) : quiet x m → (∀ a, quiet x (f a)) → quiet x (m ≫= f).
Proof. intros Hm Hf w e w' [H|(a & w1 & _ & H)]%bind_inv_err; [by eapply Hm|by eapply Hf]. Qed.
Lemma quiet_transaction (m : M A) : RuntimeError ≠ x → quiet x m → quiet x (_transaction m).
Proof.
  intros Hx Hm w e w'. unfold _transaction. destruct (w_closed w); [by intros [= <- _]|].
  destruct (m w) as [[a|e'] w1] eqn:E; [done|]. intros [= <- _]. by eapply Hm.
Qed.
Lemma quiet_locked (m : M A) : RuntimeError ≠ x → quiet x m → quiet x (locked m).
Proof.
  intros Hx Hm w e w' [H|(a & w1 & _ & H)]%bind_inv_err; [|by eapply Hm].
  revert H. unfold _require_open. destruct (w_closed w); [|done]. by intros [= <- _].
Qed.
Lemma quiet_lift (r : result exc A) : (∀ e, r = Err e → e ≠ x) → quiet x (lift r).
Proof. intros Hr w e w' [= ? _]. by apply Hr. Qed.
Lemma quiet_now self : ValueError ≠ x → quiet x (_now self).
Proof.
  intros Hx w e w'. unfold _now. destruct (clock self _) as [n d|]; [|by intros [= <- _]].
  destruct (n <? 0); [by intros [= <- _]|done].
Qed.
Lemma quiet_random self n : ValueError ≠ x → quiet x (_random_bytes self n).
Proof.
  intros Hx w e w'. unfold _random_bytes. destruct (_ =? _); [done|by intros [= <- _]].
Qed.
Lemma quiet_required (o : option A) : AuthenticationDataError ≠ x → quiet x (_required_row o).
Proof. intros Hx. destruct o; [apply quiet_ret|by apply quiet_throw]. Qed.
Lemma quiet_hex32 v : ValueError ≠ x → quiet x (_validate_hex32 v).
Proof. intros Hx w e w'. unfold _validate_hex32. destruct (is_hex32 v); [done|by intros [= <- _]]. Qed.
Lemma quiet_account id : quiet x (_account_row_by_id_locked id).
Proof. by intros w e w'. Qed.
Lemma quiet_email e : quiet x (_account_row_by_email_locked e).
Proof. by intros w e' w'. Qed.
End Quiet.

Create HintDb quiet discriminated.
#[export] Hint Resolve quiet_ret quiet_query quiet_exec quiet_exec_checked quiet_bind quiet_now
  quiet_random quiet_required quiet_transaction quiet_locked quiet_throw quiet_require quiet_hex32
  quiet_account quiet_email : quiet.
#[export] Hint Extern 1 (_ ≠ _) => discriminate : quiet.

Lemma quiet_iter {A} x (f : A → M unit) l : (∀ a, quiet x (f a)) → quiet x (eff_iter f l).
Proof. intros Hf. induction l; simpl; auto with quiet. Qed.
Lemma quiet_when x b m : quiet x m → quiet x (when b m).
Proof. destruct b; [done|]. intros _. apply quiet_ret. Qed.
#[export] Hint Resolve quiet_iter quiet_when : quiet.

Ltac solve_quiet :=
  repeat first
    [ solve [auto with quiet nocore]
    | progress intros
    | apply quiet_transaction; [discriminate|]
    | apply quiet_bind
    | apply quiet_when
    | apply quiet_iter
    | match goal with |- quiet _ (match ?y with _ => _ end) => destruct y end
    | match goal with |- quiet _ (if ?y then _ else _) => destruct y end
    | match goal with |- quiet _ (let '_ := ?y in _) => destruct y end ].

Notation silent := (quiet InvalidSecondFactorError).

Lemma quiet_allocate_id self n len taken : silent (allocate_id self n len taken).
Proof. induction n; simpl; solve_quiet. Qed.
Lemma quiet_allocate_token self n key taken : silent (allocate_token self n key taken).
Proof. induction n; simpl; solve_quiet. Qed.
Lemma quiet_decrypt self a : silent (_decrypt_totp self a).
Proof. unfold _decrypt_totp. solve_quiet. Qed.
Lemma quiet_challenge digest now : silent (_challenge_row_locked digest now).
Proof. unfold _challenge_row_locked. solve_quiet. Qed.
#[export] Hint Resolve quiet_allocate_id quiet_allocate_token quiet_decrypt quiet_challenge : quiet.

Lemma quiet_record_failure self digest n : silent (_record_challenge_failure_locked self digest n).
Proof.
  unfold _record_challenge_failure_locked, _release_pending_enrollment_locked. cbv zeta. solve_quiet.
Qed.

Lemma quiet_issue self a now ip ua : silent (_issue_session_locked self a now ip ua).
Proof.
  unfold _issue_session_locked, _delete_expired_sessions_locked, _new_unique_session_token_locked,
    _new_session_id_locked. apply quiet_bind; [|solve_quiet].
  apply quiet_lift. intros e. unfold _normalize_session_metadata, _canonical_ip.
  destruct ip as [ip|]; simpl; [destruct (ip_address _ _); simpl; [|by intros [= <-]]|];
    (destruct ua as [ua|]; [|done]; case_bool_decide; [done|]; destruct (_ || _); [by intros [= <-]|done]).
Qed.
#[export] Hint Resolve quiet_record_failure quiet_issue : quiet.

(** A step whose failures are ruled out by the program logic returns. *)
Lemma total_run {A} (m : M A) (Q : A → db → Prop) w :
  wp m Q (λ _ _, False) (w_db w) → ∃ a w', m w = (Ok a, w') ∧ Q a (w_db w').
Proof.
  intros Hm. destruct (m w) as [[a|e] w'] eqn:E; [|by specialize (Hm w _ w' eq_refl E)].
  exists a, w'. split; [done|]. by specialize (Hm w _ w' eq_refl E).
Qed.
