(* ===== verification/AuthLogin.v ===== *)
(** * Sessions: what authentication and step-up do

    Exact behaviour of [authenticate_session], [mark_step_up], [require_step_up]
    and the revocation methods, from a database satisfying the invariant. *)

From S2P Require Import Prelude Text Errors Sql Totp Identity Json AuthDb AuthCore AuthStore AuthPasskey AuthRate AuthRules AuthDemo AuthWp AuthInv AuthSafe AuthReach AuthRun.

#[local] Set Default Proof Using "Type*".

Section Sessions.
Context (self : store).

(** ** Lookups under the invariant *)

Lemma session_account d s : wf d → s ∈ sessions d →
  ∃ a, lookup_where (λ a, a_id a = s_account s) (accounts d) = Some a ∧ a ∈ accounts d
       ∧ a_id a = s_account s.
Proof.
  intros Hw Hs. destruct (wf_sessions d Hw) as [Hc _]. rewrite Forall_forall in Hc.
  specialize (Hc s Hs). simpl in Hc. unfold session_check in Hc. rewrite !andb_true_iff in Hc.
  destruct Hc as [[[_ Ha] _] _]. apply account_exists_spec in Ha.
  apply list_elem_of_fmap in Ha as (a & Hid & Ha). exists a. split; [|done].
  apply lookup_where_key; [by apply wf_account_ids|done|done].
Qed.

Lemma update_sessions_total d (P : session_row → Prop) `{!∀ r, Decision (P r)} f :
  wf d → (∀ s, session_check d (f s) = session_check d s) →
  update_sessions P f d = Some (set_sessions (update_where P f (sessions d)) d).
Proof.
  intros Hw Hf. unfold update_sessions, update_checked.
  assert (forallb (λ r, session_check d (f r)) (select_where P (sessions d)) = true) as ->; [|done].
  apply forallb_forall. intros s Hs%list_elem_of_In. apply elem_of_select in Hs as [_ Hs].
  rewrite Hf. destruct (wf_sessions d Hw) as [Hc _]. rewrite Forall_forall in Hc. by apply Hc.
Qed.

Lemma find_session d s : wf d → s ∈ sessions d →
  lookup_where (λ x, s_digest x = s_digest s) (sessions d) = Some s.
Proof. intros Hw Hs. apply lookup_where_key; [by apply wf_session_digests|done|done]. Qed.

(** The last use recorded for a session that is found valid. *)
Definition effective_last_seen (touch : bool) (now : Z) (s : session_row) : Z :=
  if touch then Z.max (s_last_seen s) now else s_last_seen s.

Definition touch_session (digest : list Z) (seen : Z) (d : db) : db :=
  set_sessions (update_where (λ x, s_digest x = digest) (set_last_seen seen) (sessions d)) d.

Lemma touch_same d s :
  wf d → s ∈ sessions d → touch_session (s_digest s) (s_last_seen s) d = d.
Proof.
  intros Hw Hs. unfold touch_session.
  assert (update_where (λ x, s_digest x = s_digest s) (set_last_seen (s_last_seen s)) (sessions d)
    = sessions d) as ->; [|by destruct d].
  unfold update_where. etrans; [|apply list_fmap_id]. apply Forall_fmap_ext_1, Forall_forall.
  intros x Hx. case_decide as Hd; [|done].
  assert (x = s) as -> by (eapply (NoDup_key_eq s_digest); eauto; by apply wf_session_digests).
  by destruct s.
Qed.

Lemma run_valid_session w now touch digest :
  inv (w_db w) →
  match lookup_where (λ x, s_digest x = digest) (sessions (w_db w)) with
  | None => _valid_session_row_locked digest now touch w = (Ok None, w)
  | Some s =>
      if session_live now s
      then ∃ a, a ∈ accounts (w_db w) ∧ a_id a = s_account s ∧
        let seen := effective_last_seen touch now s in
        _valid_session_row_locked digest now touch w
        = (Ok (Some (s, a, seen)), with_db (touch_session digest seen (w_db w)) w)
      else _valid_session_row_locked digest now touch w
        = (Ok None, with_db (delete_sessions (λ x, s_digest x = digest) (w_db w)) w)
  end.
Proof.
  intros [Hw _]. destruct (lookup_where _ _) as [s|] eqn:Hs.
  - pose proof (lookup_where_Some _ _ _ Hs) as [Hd Hin].
    destruct (session_account _ _ Hw Hin) as (a & Ha & Hain & Hid).
    unfold _valid_session_row_locked. rewrite run_bind. unfold query, gets. rewrite Hs, Ha. cbv beta iota.
    destruct (session_live now s) eqn:Hl; simpl; [|done].
    exists a. split; [done|]. split; [done|]. fold (effective_last_seen touch now s).
    rewrite run_bind. unfold when.
    destruct (touch && negb (effective_last_seen touch now s =? s_last_seen s)) eqn:Ht.
    + unfold exec_checked. rewrite update_sessions_total by done. done.
    + assert (effective_last_seen touch now s = s_last_seen s) as ->.
      { unfold effective_last_seen in *. destruct touch; [|done]. simpl in Ht. lia. }
      rewrite <-Hd, touch_same by done. by destruct w.
  - unfold _valid_session_row_locked. rewrite run_bind. unfold query, gets. by rewrite Hs.
Qed.

Lemma session_live_spec now s :
  session_live now s = true ↔ now < s_absolute s ∧ now < s_last_seen s + 259200.
Proof. unfold session_live, SESSION_IDLE_SECONDS. lia. Qed.

(** The session and the account behind an accepted token. *)
Lemma authenticated_session w now token touch p w' :
  inv (w_db w) → w_closed w = false → reads self w now →
  authenticate_session self token touch w = (Ok p, w') →
  ∃ s a, s ∈ sessions (w_db w) ∧ s_digest s = session_digest_of self token ∧
    a ∈ accounts (w_db w) ∧ a_id a = s_account s ∧
    now < s_absolute s ∧ now < s_last_seen s + 259200 ∧
    let seen := effective_last_seen touch now s in
    p = Principal (a_id a) (a_email a) (a_role a) (a_pw_required a) (a_state a) (s_created s)
          (Z.min (seen + 259200) (s_absolute s)) (s_absolute s) (s_step_up s) (s_id s) (s_ip s)
          (s_agent s) ∧
    w_db w' = touch_session (session_digest_of self token) seen (w_db w).
Proof.
  intros Hi Ho Hn Hrun.
  unfold authenticate_session in Hrun. rewrite (run_bind_ok _ _ _ _ _ (run_now _ _ _ Hn)) in Hrun.
  rewrite run_bind, run_transaction in Hrun by done.
  pose proof (run_valid_session (ticked w) now touch (session_digest_of self token) Hi) as Hv.
  simpl in Hv. destruct (lookup_where _ _) as [s|] eqn:Hs; [|by rewrite Hv in Hrun].
  pose proof (lookup_where_Some _ _ _ Hs) as [Hd Hin].
  destruct (session_live now s) eqn:Hl; [|by rewrite Hv in Hrun].
  destruct Hv as (a & Ha & Hid & Hv). rewrite Hv in Hrun. injection Hrun as <- <-.
  apply session_live_spec in Hl. exists s, a. split_and!; try done; tauto.
Qed.

(** C14: [authenticate_session] returns exactly for the digest of a stored
    session that was used within the last 72 hours and has not reached its
    30-day expiry; the principal carries the account of that session and the
    remaining lifetime, and the recorded last use moves to the present only when
    asked to.  Otherwise it raises InvalidSessionError and no session with that
    token remains. *)
Theorem authenticate_session_spec w now token touch r w' :
  inv (w_db w) → w_closed w = false → reads self w now →
  authenticate_session self token touch w = (r, w') →
  let digest := session_digest_of self token in
  match r with
  | Ok p => ∃ s a, s ∈ sessions (w_db w) ∧ s_digest s = digest ∧
      a ∈ accounts (w_db w) ∧ a_id a = s_account s ∧
      now < s_absolute s ∧ now < s_last_seen s + 259200 ∧
      let seen := effective_last_seen touch now s in
      p = Principal (a_id a) (a_email a) (a_role a) (a_pw_required a) (a_state a) (s_created s)
            (Z.min (seen + 259200) (s_absolute s)) (s_absolute s) (s_step_up s) (s_id s) (s_ip s)
            (s_agent s) ∧
      w_db w' = touch_session digest seen (w_db w)
  | Err e => e = InvalidSessionError ∧
      (∀ s, s ∈ sessions (w_db w) → s_digest s = digest →
         s_absolute s ≤ now ∨ s_last_seen s + 259200 ≤ now) ∧
      (∀ s, s ∈ sessions (w_db w') → s_digest s ≠ digest)
  end.
Proof.
  intros Hi Ho Hn Hrun digest. destruct r as [p|e].
  { by apply (authenticated_session w now token touch p w' Hi Ho Hn). }
  unfold authenticate_session in Hrun. rewrite (run_bind_ok _ _ _ _ _ (run_now _ _ _ Hn)) in Hrun.
  rewrite run_bind, run_transaction in Hrun by done. fold digest in Hrun.
  pose proof (run_valid_session (ticked w) now touch digest Hi) as Hv. simpl in Hv.
  destruct (lookup_where _ _) as [s|] eqn:Hs.
  - pose proof (lookup_where_Some _ _ _ Hs) as [Hd Hin].
    assert (Hu : ∀ x, x ∈ sessions (w_db w) → s_digest x = digest → x = s).
    { intros x Hx Hxd. eapply (NoDup_key_eq s_digest); eauto; [apply wf_session_digests, Hi|congruence]. }
    destruct (session_live now s) eqn:Hl.
    + destruct Hv as (a & Ha & Hid & Hv). by rewrite Hv in Hrun.
    + rewrite Hv in Hrun. injection Hrun as <- <-. split; [done|]. split.
      * intros x Hx Hxd. rewrite (Hu x Hx Hxd).
        destruct (decide (s_absolute s ≤ now)); [by left|].
        destruct (decide (s_last_seen s + 259200 ≤ now)); [by right|].
        assert (session_live now s = true) by (apply session_live_spec; lia). congruence.
      * simpl. by intros x [Hx _]%elem_of_delete.
  - rewrite Hv in Hrun. injection Hrun as <- <-. rewrite lookup_where_None in Hs.
    split; [done|]. split; [intros x Hx Hxd; by destruct (Hs x Hx)|]. simpl. auto.
Qed.

(** ** Step-up *)

Definition grant_step_up (digest : list Z) (until : Z) (d : db) : db :=
  set_sessions (update_where (λ x, s_digest x = digest) (set_step_up until) (sessions d)) d.

Lemma run_mark_step_up w now token p w' :
  inv (w_db w) → reads self w now → mark_step_up self token w = (Ok p, w') →
  ∃ s, s ∈ sessions (w_db w) ∧ s_digest s = session_digest_of self token ∧
    session_live now s = true ∧
    let d1 := touch_session (s_digest s) (Z.max (s_last_seen s) now) (w_db w) in
    w_db w' = grant_step_up (s_digest s) (step_up_limit now s) d1 ∧ w_closed w = false.
Proof.
  intros Hi Hn Hrun. unfold mark_step_up in Hrun.
  rewrite (run_bind_ok _ _ _ _ _ (run_now _ _ _ Hn)) in Hrun.
  apply bind_inv_ok in Hrun as (o & w1 & Ht & Hrun).
  apply transaction_inv_ok in Ht as [Hopen Ht].
  destruct o as [p'|]; [|done]. injection Hrun as <- <-.
  set (digest := session_digest_of self token) in *.
  rewrite run_bind in Ht. pose proof (run_valid_session (ticked w) now true digest Hi) as Hv. simpl in Hv.
  destruct (lookup_where _ _) as [s|] eqn:Hs; [|by rewrite Hv in Ht].
  pose proof (lookup_where_Some _ _ _ Hs) as [Hd Hin].
  destruct (session_live now s) eqn:Hl; [|by rewrite Hv in Ht].
  destruct Hv as (a & Ha & Hid & Hv). rewrite Hv in Ht. cbv beta iota in Ht.
  apply bind_inv_ok in Ht as (u_ & w2 & Hx & Hr). apply exec_checked_inv_ok in Hx as (d' & Hu & ->).
  injection Hr as <- <-. exists s. split; [done|]. split; [done|]. split; [done|]. cbv zeta.
  split; [|done]. simpl in *. unfold effective_last_seen in Hu. rewrite Hd.
  unfold update_sessions in Hu. destruct (update_checked _ _ _ _) as [t|] eqn:Hc; [|done].
  injection Hu as <-. apply update_checked_Some in Hc as [-> _]. done.
Qed.

(** An accepted token carries a step-up that has not run out. *)
Lemma stepped_up_session w token p w' :
  inv (w_db w) → require_step_up self token w = (Ok p, w') →
  ∃ now s, reads self w now ∧ s ∈ sessions (w_db w) ∧ s_digest s = session_digest_of self token ∧
    now < s_step_up s.
Proof.
  intros Hi Hrun. unfold require_step_up in Hrun.
  apply bind_inv_ok in Hrun as (now & w1 & Hn & Hrun). apply now_inv_ok in Hn as (_ & Hn & ->).
  apply bind_inv_ok in Hrun as (o & w2 & Ht & Hrun). apply transaction_inv_ok in Ht as [_ Ht].
  rewrite run_bind in Ht.
  pose proof (run_valid_session (ticked w) now true (session_digest_of self token) Hi) as Hv.
  simpl in Hv. destruct (lookup_where _ _) as [s|] eqn:Hs.
  2:{ rewrite Hv in Ht. injection Ht as <- <-. done. }
  pose proof (lookup_where_Some _ _ _ Hs) as [Hd Hin].
  destruct (session_live now s).
  2:{ rewrite Hv in Ht. injection Ht as <- <-. done. }
  destruct Hv as (a & _ & _ & Hv). rewrite Hv in Ht. cbv beta iota in Ht.
  destruct (Z.leb_spec (s_step_up s) now); [by injection Ht as <- <-|]. exists now, s. by split_and!.
Qed.

(** The session after the grant. *)
Lemma granted_session d s now until :
  wf d → s ∈ sessions d →
  set_step_up until (set_last_seen (Z.max (s_last_seen s) now) s)
    ∈ sessions (grant_step_up (s_digest s) until (touch_session (s_digest s) (Z.max (s_last_seen s) now) d)).
Proof.
  intros Hw Hs. simpl. apply elem_of_update.
  exists (set_last_seen (Z.max (s_last_seen s) now) s). split.
  - apply elem_of_update. exists s. split; [done|]. by rewrite decide_True.
  - by rewrite decide_True.
Qed.

(** After [mark_step_up] at second [now], [require_step_up] accepts the
    same token exactly until five minutes later or the session's absolute
    expiry, whichever comes first. *)
Theorem step_up_window w now token p w1 w2 now2 :
  inv (w_db w) → reads self w now → mark_step_up self token w = (Ok p, w1) →
  w_db w2 = w_db w1 → w_closed w2 = false → reads self w2 now2 → now ≤ now2 →
  is_ok (require_step_up self token w2).1 = true ↔ now2 < Z.min (now + 300) (pr_absolute_expires p).
Proof.
  intros Hi Hn Hm Hdb Hopen Hn2 Hle.
  assert (Hi1 : inv (w_db w1)).
  { by apply (mark_step_up_keeps self token (w_db w) Hi w (Ok p) w1 eq_refl). }
  destruct (run_mark_step_up _ _ _ _ _ Hi Hn Hm) as (s & Hs & Hd & Hl & Hdb1 & _).
  assert (Hp : pr_absolute_expires p = s_absolute s).
  { unfold mark_step_up in Hm. rewrite (run_bind_ok _ _ _ _ _ (run_now _ _ _ Hn)) in Hm.
    apply bind_inv_ok in Hm as (o & w3 & Ht & Hr). apply transaction_inv_ok in Ht as [_ Ht].
    destruct o as [p'|]; [|done]. injection Hr as -> _. rewrite run_bind in Ht.
    pose proof (run_valid_session (ticked w) now true (session_digest_of self token) Hi) as Hv.
    simpl in Hv. rewrite <-Hd, (find_session _ s) in Hv by (done || apply Hi). rewrite Hl in Hv.
    destruct Hv as (a & _ & _ & Hv). rewrite Hd in Hv. rewrite Hv in Ht. cbv beta iota in Ht.
    apply bind_inv_ok in Ht as (u_ & w4 & Hx & Hr). by injection Hr as <- _. }
  set (s2 := set_step_up (step_up_limit now s) (set_last_seen (Z.max (s_last_seen s) now) s)).
  assert (Hs2 : s2 ∈ sessions (w_db w2)).
  { rewrite Hdb, Hdb1. apply granted_session; [apply Hi|done]. }
  rewrite <-Hdb in Hi1. unfold require_step_up.
  rewrite (run_bind_ok _ _ _ _ _ (run_now _ _ _ Hn2)), run_bind, run_transaction by done.
  rewrite run_bind. pose proof (run_valid_session (ticked w2) now2 true (session_digest_of self token) Hi1) as Hv.
  simpl in Hv. rewrite <-Hd in Hv. change (s_digest s) with (s_digest s2) in Hv.
  rewrite find_session in Hv by (done || apply Hi1).
  change (s_digest s2) with (s_digest s) in Hv. rewrite Hd in Hv. rewrite Hp.
  destruct (session_live now2 s2) eqn:Hl2.
  - destruct Hv as (a & _ & _ & Hv). rewrite Hv. cbv beta iota. apply session_live_spec in Hl2.
    assert (Hu : s_step_up s2 = Z.min (now + 300) (s_absolute s)) by done.
    destruct (Z.leb_spec (s_step_up s2) now2) as [Hle2|Hlt2].
    + split; [done|intros Hlt; lia].
    + split; [intros _; lia|done].
  - rewrite Hv. simpl. split; [done|]. intros Hlt.
    assert (session_live now2 s2 = true); [|congruence]. apply session_live_spec. simpl. lia.
Qed.

(** ** Revocation *)

Lemma rejected_without_row w now token touch :
  inv (w_db w) → w_closed w = false → reads self w now →
  (∀ s, s ∈ sessions (w_db w) → s_digest s ≠ session_digest_of self token) →
  (authenticate_session self token touch w).1 = Err InvalidSessionError.
Proof.
  intros Hi Ho Hn Hno. unfold authenticate_session.
  rewrite (run_bind_ok _ _ _ _ _ (run_now _ _ _ Hn)), run_bind, run_transaction by done.
  pose proof (run_valid_session (ticked w) now touch (session_digest_of self token) Hi) as Hv.
  simpl in Hv. destruct (lookup_where _ _) as [s|] eqn:Hs; [|by rewrite Hv].
  apply lookup_where_Some in Hs as [Hd Hin]. by destruct (Hno s Hin).
Qed.

(** [revoke_session] reports whether the token named a session, and from
    then on [authenticate_session] rejects it. *)
Theorem revoked_session_rejected w token b w1 w2 now touch :
  inv (w_db w) → revoke_session self token w = (Ok b, w1) →
  w_db w2 = w_db w1 → w_closed w2 = false → reads self w2 now →
  (b = true ↔ ∃ s, s ∈ sessions (w_db w) ∧ s_digest s = session_digest_of self token) ∧
  (authenticate_session self token touch w2).1 = Err InvalidSessionError.
Proof.
  intros Hi Hr Hdb Ho Hn.
  assert (Hi1 : inv (w_db w1)) by exact (revoke_session_keeps self token _ Hi w (Ok b) w1 eq_refl Hr).
  unfold revoke_session in Hr. run_inv Hr. split.
  - rewrite Z.eqb_eq. apply (count_key_one s_digest), wf_session_digests, Hi.
  - apply (rejected_without_row w2 now); [by rewrite Hdb|done|done|].
    rewrite Hdb. simpl. by intros s [Hs _]%elem_of_delete.
Qed.

Lemma run_revoke_session w token : w_closed w = false →
  ∃ b, revoke_session self token w = (Ok b, (revoke_session self token w).2).
Proof. intros Ho. unfold revoke_session. rewrite run_bind, run_transaction by done. eexists. reflexivity. Qed.
End Sessions.

(** ** Witnesses *)

Lemma demo_reads w : reads demo_store w (1700000000 + Z.of_nat (w_clock w)).
Proof.
  exists (1700000000 + Z.of_nat (w_clock w)), 1%positive. split; [done|]. split; [lia|].
  by rewrite Z.div_1_r.
Qed.

Lemma demo_inv_4 : inv (w_db demo_4).
Proof. exact (reachable_inv _ _ _ demo_reachable_4). Qed.

Lemma demo_open_4 : w_closed demo_4 = false.
Proof. destruct demo_outcomes as (_ & _ & _ & _ & _ & _ & _ & H). exact H. Qed.

Lemma demo_auth_run : ∃ p, demo_auth demo_4 = (Ok p, (demo_auth demo_4).2).
Proof. destruct demo_outcomes as (_ & H & _). exact (ok_run demo_auth demo_4 H). Qed.

Lemma demo_step_up_run : ∃ p, demo_step_up demo_4 = (Ok p, (demo_step_up demo_4).2).
Proof. destruct demo_outcomes as (H & _). exact (ok_run demo_step_up demo_4 H). Qed.

Lemma authenticate_session_spec_witness :
  ∃ p s, s ∈ sessions (w_db demo_4) ∧ s_digest s = session_digest_of demo_store demo_session ∧
    pr_created p = s_created s ∧ demo_auth demo_4 = (Ok p, (demo_auth demo_4).2).
Proof.
  destruct demo_auth_run as [p Hp]. exists p.
  destruct (authenticate_session_spec demo_store demo_4 _ demo_session true (Ok p) _ demo_inv_4
    demo_open_4 (demo_reads demo_4) Hp) as (s & a & Hs & Hd & _ & _ & _ & _ & -> & _).
  exists s. split; [exact Hs|]. split; [exact Hd|]. split; [reflexivity|exact Hp].
Defined.

Lemma later_reading (n m : nat) : (n ≤ m)%nat → 1700000000 + Z.of_nat n ≤ 1700000000 + Z.of_nat m.
Proof. lia. Qed.

Lemma step_up_window_witness :
  ∃ p, ∀ w2, w_db w2 = w_db (demo_step_up demo_4).2 → w_closed w2 = false →
    (w_clock demo_4 ≤ w_clock w2)%nat →
    is_ok (require_step_up demo_store demo_session w2).1 = true ↔
    1700000000 + Z.of_nat (w_clock w2)
      < Z.min (1700000000 + Z.of_nat (w_clock demo_4) + 300) (pr_absolute_expires p).
Proof.
  destruct demo_step_up_run as [p Hp]. exists p. intros w2 Hdb Ho Hle.
  exact (step_up_window demo_store demo_4 _ demo_session p _ w2 _ demo_inv_4 (demo_reads demo_4) Hp
    Hdb Ho (demo_reads w2) (later_reading _ _ Hle)).
Defined.

Lemma revoked_session_rejected_witness :
  ∃ b, (revoke_session demo_store demo_session demo_4).1 = Ok b ∧
  ∀ w2, w_db w2 = w_db (revoke_session demo_store demo_session demo_4).2 → w_closed w2 = false →
    (authenticate_session demo_store demo_session true w2).1 = Err InvalidSessionError.
Proof.
  destruct (run_revoke_session demo_store demo_4 demo_session demo_open_4) as [b Hb].
  exists b. split; [exact (f_equal fst Hb)|]. intros w2 Hdb Ho.
  exact (proj2 (revoked_session_rejected demo_store demo_4 demo_session b _ w2 _ true demo_inv_4 Hb
    Hdb Ho (demo_reads w2))).
Defined.

(** * Second factors: what a login does

    Exact outcomes of the challenge and TOTP methods: which rows a successful
    login consumes and creates, what a wrong code costs, and that no TOTP step
    and no recovery code is accepted twice. *)

From S2P Require Import Prelude Text Errors Sql Totp Identity Json AuthDb AuthCore AuthStore AuthPasskey AuthRate AuthRules AuthDemo AuthWp AuthInv AuthSafe AuthReach AuthRun.

#[local] Set Default Proof Using "Type*".

Section Login.
Context (self : store).

(** ** The pieces of a login *)

(** The TOTP seed the store decrypts for an account. *)
Definition seed_of (a : account_row) : option (list Z) :=
  match a_nonce a, a_cipher a with
  | Some nonce, Some ciphertext =>
      match aesgcm_decrypt self (_encryption_key self) nonce ciphertext
              (_totp_aad (a_id a) (a_email a)) with
      | Some secret => if zlen secret =? TOTP_SECRET_BYTES then Some secret else None
      | None => None
      end
  | _, _ => None
  end.

Lemma run_decrypt a w :
  _decrypt_totp self a w
  = (match seed_of a with Some s => Ok s | None => Err AuthenticationDataError end, w).
Proof.
  unfold _decrypt_totp, seed_of. destruct (a_nonce a), (a_cipher a); try done.
  destruct (aesgcm_decrypt _ _ _ _ _); [|done]. by destruct (_ =? _).
Qed.

Lemma decrypt_inv_ok a w s w' : _decrypt_totp self a w = (Ok s, w') → seed_of a = Some s ∧ w' = w.
Proof. rewrite run_decrypt. destruct (seed_of a); [|done]. by intros [= -> <-]. Qed.

Lemma allocate_token_inv n key taken w t dg w' :
  allocate_token self n key taken w = (Ok (t, dg), w') →
  w_db w' = w_db w ∧ dg = _opaque_digest key t ∧ taken (w_db w) dg = false.
Proof.
  revert w. induction n as [|n IH]; intros w H; simpl in H; [done|].
  run_inv H. pose proof (readonly_inv_ok _ _ _ _ (readonly_random self _) Hrun) as Hdb.
  destruct (taken _ _) eqn:E.
  - rewrite <-Hdb. by apply IH.
  - apply ret_inv_ok in Hrun2 as [[= <- <-] ->]. by rewrite <-Hdb.
Qed.

Lemma read_challenge_inv digest now w c a w' :
  inv (w_db w) → _challenge_row_locked digest now w = (Ok (c, a), w') →
  w' = w ∧ c ∈ challenges (w_db w) ∧ c_digest c = digest ∧ a ∈ accounts (w_db w)
  ∧ a_id a = c_account c ∧ now < c_expires c.
Proof.
  intros Hi H. pose proof (wp_read_challenge digest now (w_db w) (λ _ _, True) Hi
    ltac:(done) w _ w' eq_refl H) as Hp. simpl in Hp.
  unfold _challenge_row_locked in H. run_inv H. destruct (lookup_where _ _); [|by run_inv Hrun0].
  destruct (lookup_where _ _); [|by run_inv Hrun0].
  destruct (_ <=? _); [by run_inv Hrun0|]. run_inv Hrun0. tauto.
Qed.

(** The session a login issues. *)
Definition fresh_session (digest account_id : list Z) (now : Z) (s : session_row) : Prop :=
  s_digest s = digest ∧ s_account s = account_id ∧ s_created s = now ∧ s_last_seen s = now ∧
  s_absolute s = now + 2592000 ∧ s_step_up s = 0.

Lemma run_issue a now ip ua w t p w' :
  _issue_session_locked self a now ip ua w = (Ok (t, p), w') →
  (∃ s, s ∈ sessions (w_db w') ∧ fresh_session (session_digest_of self t) (a_id a) now s ∧
    ∀ s', s' ∈ sessions (w_db w') → s' = s ∨ s' ∈ sessions (w_db w)) ∧
  accounts (w_db w') = accounts (w_db w) ∧ challenges (w_db w') = challenges (w_db w) ∧
  recovery_codes (w_db w') = recovery_codes (w_db w) ∧
  pr_account p = a_id a ∧ pr_created p = now ∧ pr_absolute_expires p = now + 2592000.
Proof.
  unfold _issue_session_locked. intros H. apply bind_inv_ok in H as ([ip' agent] & w1 & H1 & H).
  apply lift_inv_ok in H1 as [_ ->]. cbv beta iota in H.
  apply bind_inv_ok in H as (? & w2 & H2 & H). apply exec_inv_ok in H2 as ->.
  apply bind_inv_ok in H as (n & w3 & H3 & H). apply query_inv_ok in H3 as [-> ->].
  apply bind_inv_ok in H as (? & w4 & H4 & H).
  assert (Hw4 : accounts (w_db w4) = accounts (w_db w) ∧ challenges (w_db w4) = challenges (w_db w)
    ∧ recovery_codes (w_db w4) = recovery_codes (w_db w)
    ∧ ∀ s, s ∈ sessions (w_db w4) → s ∈ sessions (w_db w)).
  { unfold when in H4. destruct (_ <=? _).
    - apply exec_inv_ok in H4 as ->. split_and!; try done. simpl.
      by intros s [_ [_ Hs]%elem_of_delete]%elem_of_delete.
    - apply ret_inv_ok in H4 as [_ ->]. split_and!; try done. simpl.
      by intros s [_ Hs]%elem_of_delete. }
  apply bind_inv_ok in H as ([t' dg] & w5 & H5 & H).
  apply allocate_token_inv in H5 as (Hdb5 & Hdg & _).
  apply bind_inv_ok in H as (sid & w6 & H6 & H). cbv zeta in H.
  apply readonly_inv_ok in H6; [|apply readonly_allocate_id].
  apply bind_inv_ok in H as (? & w7 & H7 & H). apply exec_checked_inv_ok in H7 as (d & Hd & ->).
  apply ret_inv_ok in H as [Hp ->]. injection Hp as -> <-. simpl.
  unfold insert_session in Hd. destruct (insert_row _ _ _ _) as [tb|] eqn:Hr; [|done].
  injection Hd as <-. apply insert_row_Some in Hr as (-> & _). simpl.
  rewrite H6, Hdb5. destruct Hw4 as (-> & -> & -> & Hsub).
  split_and!; try done. eexists. split; [apply elem_of_app; right; by left|]. split; [by rewrite Hdg|].
  intros s' [Hs'|Hs']%elem_of_app; [right; by apply Hsub|left; by apply list_elem_of_singleton].
Qed.

(** The end of every login: reload the account and issue its session. *)
Lemma run_finish {B} id now ip ua (k : list Z * principal → B) w b w' :
  (row ← _account_row_by_id_locked id; row ← _required_row row;
   session ← _issue_session_locked self row now ip ua; mret (k session)) w = (Ok b, w') →
  ∃ t p, b = k (t, p) ∧
  (∃ s, s ∈ sessions (w_db w') ∧ fresh_session (session_digest_of self t) id now s ∧
    ∀ s', s' ∈ sessions (w_db w') → s' = s ∨ s' ∈ sessions (w_db w)) ∧
  accounts (w_db w') = accounts (w_db w) ∧ challenges (w_db w') = challenges (w_db w) ∧
  recovery_codes (w_db w') = recovery_codes (w_db w) ∧ pr_account p = id ∧ pr_created p = now.
Proof.
  intros H. apply bind_inv_ok in H as (o & w1 & [-> ->]%query_inv_ok & H).
  apply bind_inv_ok in H as (a & w2 & Ha & H).
  destruct (lookup_where _ _) as [a'|] eqn:Hl; [|done]. apply ret_inv_ok in Ha as [<- ->].
  apply lookup_where_Some in Hl as [<- _].
  apply bind_inv_ok in H as ([t p] & w3 & Hi & [<- ->]%ret_inv_ok).
  apply run_issue in Hi as (? & ? & ? & ? & ? & ? & _). exists t, p. by split_and!.
Qed.

Lemma fresh_counter_lt secret code now last n :
  fresh_counter secret code now last = Some n → last < n.
Proof.
  unfold fresh_counter. destruct (_matching_totp_counter _ _ _) as [m|]; [|done].
  destruct (Z.leb_spec m last); [done|]. intros [= <-]. lia.
Qed.

(** ** TOTP logins *)

(** The guards every code submitted at second [now] passes first. *)
Definition offered (w : world) (now : Z) (digest : list Z) (c : challenge_row) (a : account_row)
    (secret : list Z) : Prop :=
  reads self w now ∧ c ∈ challenges (w_db w) ∧ c_digest c = digest ∧ now < c_expires c ∧
  a ∈ accounts (w_db w) ∧ a_id a = c_account c ∧ a_state a = ACTIVE ∧ seed_of a = Some secret.

(** What a wrong code does to the challenges: the failure is counted, and the
    fifth one destroys the challenge. *)
Definition counted_failure (c : challenge_row) (cs : list challenge_row) : list challenge_row :=
  if 5 <=? c_failures c + 1 then delete_where (λ x, c_digest x = c_digest c) cs
  else update_where (λ x, c_digest x = c_digest c) (set_failures (c_failures c + 1)) cs.

Lemma no_pending_owner d c a : inv d → c ∈ challenges d → a ∈ accounts d →
  a_id a = c_account c → a_state a = ACTIVE →
  ∀ x, x ∈ accounts d → ¬ (a_state x = PENDING ∧ a_owner x = Some (c_digest c)).
Proof.
  intros [Hw _] Hc Ha Hid Hs x Hx [Hp Ho].
  destruct (wf_owner _ Hw x Hx Hp) as (c' & Hc' & Hca & Hco).
  assert (c' = c) as ->.
  { eapply (NoDup_key_eq c_digest); eauto; [by apply wf_challenge_digests|congruence]. }
  assert (x = a) as ->; [|congruence].
  eapply (NoDup_key_eq a_id); eauto; [by apply wf_account_ids|congruence].
Qed.

Lemma run_failure w c n w' :
  (∀ x, x ∈ accounts (w_db w) → ¬ (a_state x = PENDING ∧ a_owner x = Some (c_digest c))) →
  n = c_failures c →
  _record_challenge_failure_locked self (c_digest c) n w = (Ok tt, w') →
  accounts (w_db w') = accounts (w_db w) ∧ sessions (w_db w') = sessions (w_db w) ∧
  recovery_codes (w_db w') = recovery_codes (w_db w) ∧
  challenges (w_db w') = counted_failure c (challenges (w_db w)).
Proof.
  intros Hno -> H. unfold _record_challenge_failure_locked, counted_failure in *.
  change CHALLENGE_FAILURE_LIMIT with 5 in H. destruct (5 <=? _).
  - apply bind_inv_ok in H as (now & w1 & [_ [_ ->]]%now_inv_ok & H).
    apply bind_inv_ok in H as (? & w2 & (d & Hd & ->)%exec_checked_inv_ok & ->%exec_inv_ok).
    apply update_accounts_Some in Hd as ->. simpl. rewrite update_where_nomatch by done. done.
  - apply exec_checked_inv_ok in H as (d & Hd & ->). unfold update_challenges in Hd.
    destruct (update_checked _ _ _ _) as [t|] eqn:Ht; [|done]. injection Hd as <-.
    by apply update_checked_Some in Ht as [-> _].
Qed.

Lemma guard_iff d a n : inv d → a ∈ accounts d → a_state a = ACTIVE → a_counter a < n →
  ∀ x, x ∈ accounts d → advance_counter_guard (a_id a) n x ↔ a_id x = a_id a.
Proof.
  intros [Hw _] Ha Hs Hlt x Hx. split; [by intros []|]. intros Hid.
  assert (x = a) as -> by (eapply (NoDup_key_eq a_id); eauto; by apply wf_account_ids).
  by split_and!.
Qed.

Lemma consume_guard d a n : inv d → a ∈ accounts d → a_state a = ACTIVE →
  count_where (advance_counter_guard (a_id a) n) (accounts d) = 1 ↔ a_counter a < n.
Proof.
  intros Hi Ha Hs. split.
  - intros Hone. destruct (decide (a_counter a < n)) as [|Hn]; [done|].
    assert (count_where (advance_counter_guard (a_id a) n) (accounts d) = 0); [|lia].
    apply count_zero. intros x Hx (Hid & _ & Hlt). apply Hn.
    assert (x = a) as <-; [|done]. eapply (NoDup_key_eq a_id); eauto. by apply wf_account_ids, Hi.
  - intros Hlt. rewrite (count_where_ext _ (λ x, a_id x = a_id a)) by (by apply guard_iff).
    apply (count_key_one a_id); [by apply wf_account_ids, Hi|eauto].
Qed.

Lemma update_guard d a n now : inv d → a ∈ accounts d → a_state a = ACTIVE → a_counter a < n →
  update_where (advance_counter_guard (a_id a) n) (set_counter n now) (accounts d)
  = update_where (λ x, a_id x = a_id a) (set_counter n now) (accounts d).
Proof.
  intros Hi Ha Hs Hlt. unfold update_where. apply Forall_fmap_ext_1, Forall_forall.
  intros x Hx. by rewrite (decide_ext _ _ _ _ (guard_iff _ _ _ Hi Ha Hs Hlt x Hx)).
Qed.

Definition consumed (now : Z) (a : account_row) (n : Z) (t : list Z) (d d' : db) : Prop :=
  accounts d' = update_where (λ x, a_id x = a_id a) (set_counter n now) (accounts d) ∧
  recovery_codes d' = recovery_codes d ∧
  ∃ s, s ∈ sessions d' ∧ fresh_session (session_digest_of self t) (a_id a) now s ∧
    ∀ s', s' ∈ sessions d' → s' = s ∨ s' ∈ sessions d.

Definition only_counted (c : challenge_row) (d d' : db) : Prop :=
  accounts d' = accounts d ∧ sessions d' = sessions d ∧ recovery_codes d' = recovery_codes d ∧
  challenges d' = counted_failure c (challenges d).

Lemma complete_totp_split token code ip ua w r w' :
  inv (w_db w) → complete_totp_challenge self token code ip ua w = (r, w') →
  match r with
  | Ok (t, p) => ∃ now c a secret n,
      offered w now (challenge_digest_of self token) c a secret ∧
      fresh_counter secret code now (a_counter a) = Some n ∧ a_counter a < n ∧
      consumed now a n t (w_db w) (w_db w') ∧ pr_account p = a_id a ∧ pr_created p = now ∧
      challenges (w_db w') = delete_where (λ x, c_digest x = c_digest c) (challenges (w_db w))
  | Err InvalidSecondFactorError => ∃ now c a secret,
      offered w now (challenge_digest_of self token) c a secret ∧
      fresh_counter secret code now (a_counter a) = None ∧
      only_counted c (w_db w) (w_db w')
  | _ => True
  end.
Proof.
  intros Hi H. unfold complete_totp_challenge in H. destruct r as [[t p]|e].
  - apply bind_inv_ok in H as (now & w1 & [_ [Hn ->]]%now_inv_ok & H).
    apply bind_inv_ok in H as (o & w2 & Ht & H). destruct o as [tp|]; [|done].
    apply ret_inv_ok in H as [-> ->]. apply transaction_inv_ok in Ht as [_ Ht].
    apply bind_inv_ok in Ht as ([c a] & w3 & Hc & Ht).
    apply read_challenge_inv in Hc as (-> & Hc & Hd & Ha & Hid & Hx); [|done].
    case_bool_decide as Hs; simpl in Ht; [|done].
    apply bind_inv_ok in Ht as (secret & w4 & [Hsec ->]%decrypt_inv_ok & Ht).
    destruct (fresh_counter _ _ _ _) as [n|] eqn:Hf; cycle 1.
    { by apply bind_inv_ok in Ht as (? & ? & _ & [? _]%ret_inv_ok). }
    pose proof (fresh_counter_lt _ _ _ _ _ Hf) as Hlt.
    apply bind_inv_ok in Ht as (k & w5 & [-> ->]%query_inv_ok & Ht).
    apply bind_inv_ok in Ht as (? & w6 & (d & Hu & ->)%exec_checked_inv_ok & Ht).
    change (w_db (ticked w)) with (w_db w) in *.
    rewrite (proj2 (consume_guard _ a n Hi Ha Hs) Hlt) in Ht. simpl in Ht.
    apply bind_inv_ok in Ht as (? & w7 & ->%exec_inv_ok & Ht).
    apply update_accounts_Some in Hu as ->.
    apply (run_finish _ _ _ _ Some) in Ht as (t' & p' & [= <- <-] & Hss & Hacc & Hch & Hrc & Hp & Hpc).
    exists now, c, a, secret, n. unfold consumed. simpl in *.
    rewrite Hacc, Hch, Hrc, update_guard by done.
    refine (conj _ (conj Hf (conj Hlt (conj (conj eq_refl (conj eq_refl Hss)) (conj Hp (conj Hpc _)))))).
    + by split_and!.
    + by rewrite Hd.
  - destruct e; try exact I.
    apply bind_inv_err in H as [H|(now & w1 & [_ [Hn ->]]%now_inv_ok & H)].
    { by eapply quiet_now in H. }
    apply bind_inv_err in H as [H|(o & w2 & Ht & H)].
    { exfalso. refine (quiet_transaction InvalidSecondFactorError _ _ _ _ _ _ H eq_refl); [done|].
      solve_quiet. }
    destruct o; [done|]. injection H as ->. apply transaction_inv_ok in Ht as [_ Ht].
    apply bind_inv_ok in Ht as ([c a] & w3 & Hc & Ht).
    apply read_challenge_inv in Hc as (-> & Hc & Hd & Ha & Hid & Hx); [|done].
    case_bool_decide as Hs; simpl in Ht; [|done].
    apply bind_inv_ok in Ht as (secret & w4 & [Hsec ->]%decrypt_inv_ok & Ht).
    exists now, c, a, secret. split; [by split_and!|].
    destruct (fresh_counter _ _ _ _) as [n|] eqn:Hf.
    + pose proof (fresh_counter_lt _ _ _ _ _ Hf) as Hlt.
      apply bind_inv_ok in Ht as (k & w5 & [-> ->]%query_inv_ok & Ht).
      apply bind_inv_ok in Ht as (? & w6 & (d & Hu & ->)%exec_checked_inv_ok & Ht).
      change (w_db (ticked w)) with (w_db w) in *.
    rewrite (proj2 (consume_guard _ a n Hi Ha Hs) Hlt) in Ht. simpl in Ht.
      apply bind_inv_ok in Ht as (? & w7 & ->%exec_inv_ok & Ht).
      by apply (run_finish _ _ _ _ Some) in Ht as (t' & p' & ? & _).
    + split; [done|]. apply bind_inv_ok in Ht as ([] & w5 & Hr & [_ ->]%ret_inv_ok).
      rewrite <-Hd in Hr. apply run_failure in Hr; [exact Hr| |done].
      by eapply no_pending_owner.
Qed.

(** When [complete_totp_challenge] returns, the token named a stored
    challenge that had not expired, its account was ACTIVE, and the code belongs
    to a time step later than every step used before.  The step is recorded on
    that account alone, the challenge is gone, the recovery codes are untouched,
    and the returned token names a session created now; no other session
    appeared. *)
Theorem totp_login_success w token code ip ua t p w' :
  inv (w_db w) → complete_totp_challenge self token code ip ua w = (Ok (t, p), w') →
  ∃ now c a secret n,
    offered w now (challenge_digest_of self token) c a secret ∧
    _matching_totp_counter secret code now = Some n ∧ a_counter a < n ∧
    consumed now a n t (w_db w) (w_db w') ∧ pr_account p = a_id a ∧ pr_created p = now ∧
    challenges (w_db w') = delete_where (λ x, c_digest x = c_digest c) (challenges (w_db w)).
Proof.
  intros Hi H. destruct (complete_totp_split _ _ _ _ _ _ _ Hi H)
    as (now & c & a & secret & n & Ho & Hf & Hlt & Hrest).
  exists now, c, a, secret, n. split; [done|]. split; [|done].
  revert Hf. unfold fresh_counter. destruct (_matching_totp_counter _ _ _) as [m|]; [|done].
  by destruct (m <=? _); [|intros [= <-]].
Qed.

(** [complete_totp_challenge] reports a wrong second factor only when
    the code matches no time step of the window or one already used; it then
    counts the failure on the challenge, destroys it at the fifth, and changes
    no account, session or recovery code. *)
Theorem totp_login_failure w token code ip ua w' :
  inv (w_db w) →
  complete_totp_challenge self token code ip ua w = (Err InvalidSecondFactorError, w') →
  ∃ now c a secret,
    offered w now (challenge_digest_of self token) c a secret ∧
    (∀ n, _matching_totp_counter secret code now = Some n → n ≤ a_counter a) ∧
    only_counted c (w_db w) (w_db w').
Proof.
  intros Hi H. destruct (complete_totp_split _ _ _ _ _ _ _ Hi H) as (now & c & a & secret & Ho & Hf & Hc).
  exists now, c, a, secret. split; [done|]. split; [|done]. intros n Hm. revert Hf.
  unfold fresh_counter. rewrite Hm. destruct (Z.leb_spec n (a_counter a)); [lia|done].
Qed.

(** The token a TOTP login returns authenticates its account until 72
    hours later. *)
Theorem login_then_authenticate w token code ip ua t p w1 w2 now2 touch :
  inv (w_db w) → complete_totp_challenge self token code ip ua w = (Ok (t, p), w1) →
  w_db w2 = w_db w1 → w_closed w2 = false → reads self w2 now2 →
  pr_created p ≤ now2 < pr_created p + 259200 →
  ∃ p2 w3, authenticate_session self t touch w2 = (Ok p2, w3) ∧ pr_account p2 = pr_account p ∧
    pr_created p2 = pr_created p.
Proof.
  intros Hi H Hdb Ho Hn Hle.
  pose proof (complete_totp_challenge_keeps self token code ip ua _ Hi w _ w1 eq_refl H) as Hi1.
  destruct (complete_totp_split _ _ _ _ _ _ _ Hi H)
    as (now & c & a & secret & n & _ & _ & _ & (_ & _ & s & Hs & Hf & _) & Hp & Hpc & _).
  simpl in Hi1. rewrite <-Hdb in Hi1, Hs. destruct Hf as (Hd & Hsa & Hcr & Hls & Hab & _).
  unfold authenticate_session.
  rewrite (run_bind_ok _ _ _ _ _ (run_now _ _ _ Hn)), run_bind, run_transaction by done.
  pose proof (run_valid_session (ticked w2) now2 touch (s_digest s) Hi1) as Hv. simpl in Hv.
  rewrite find_session in Hv by (done || apply Hi1). rewrite Hd in Hv.
  assert (session_live now2 s = true) as Hl by (apply session_live_spec; lia). rewrite Hl in Hv.
  destruct Hv as (a2 & _ & Hid & Hv). rewrite Hv. eexists _, _. split; [reflexivity|].
  simpl. split; congruence.
Qed.

(** ** No TOTP step is accepted twice *)

Lemma verify_totp_inv w id code w' :
  inv (w_db w) → verify_totp self id code w = (Ok tt, w') →
  ∃ now a secret n, reads self w now ∧ a ∈ accounts (w_db w) ∧ a_id a = id ∧ a_state a = ACTIVE ∧
    seed_of a = Some secret ∧ _matching_totp_counter secret code now = Some n ∧ a_counter a < n ∧
    w_db w' = set_accounts (update_where (λ x, a_id x = a_id a) (set_counter n now)
                (accounts (w_db w))) (w_db w).
Proof.
  intros Hi H. unfold verify_totp in H.
  apply bind_inv_ok in H as (nid & w1 & (_ & -> & ->)%hex32_inv_ok & H).
  apply bind_inv_ok in H as (now & w2 & [_ [Hn ->]]%now_inv_ok & H).
  apply transaction_inv_ok in H as [_ H].
  apply bind_inv_ok in H as (a & w3 & Ha & H).
  apply bind_inv_ok in Ha as (o & w4 & [-> ->]%query_inv_ok & Ha).
  destruct (lookup_where _ _) as [a'|] eqn:Hl; [|done]. apply ret_inv_ok in Ha as [<- ->].
  apply lookup_where_Some in Hl as [Hid Ha].
  apply bind_inv_ok in H as (b & w5 & Hc & [Hb ->]%require_inv_ok). subst b.
  change (w_db (ticked w)) with (w_db w) in Ha.
  unfold _consume_totp_locked in Hc. case_bool_decide as Hs; simpl in Hc; [|done].
  apply bind_inv_ok in Hc as (secret & w6 & [Hsec ->]%decrypt_inv_ok & Hc).
  destruct (fresh_counter _ _ _ _) as [n|] eqn:Hf; [|by apply ret_inv_ok in Hc as [? _]].
  apply bind_inv_ok in Hc as (k & w7 & [-> ->]%query_inv_ok & Hc).
  apply bind_inv_ok in Hc as (? & w8 & (d & Hu & ->)%exec_checked_inv_ok & [_ ->]%ret_inv_ok).
  pose proof (fresh_counter_lt _ _ _ _ _ Hf) as Hlt. apply update_accounts_Some in Hu as ->.
  exists now, a', secret, n. split_and!; try done.
  - revert Hf. unfold fresh_counter. destruct (_matching_totp_counter _ _ _) as [m|]; [|done].
    by destruct (m <=? _); [|intros [= <-]].
  - simpl. by rewrite update_guard.
Qed.

Lemma seed_counter a n now : seed_of (set_counter n now a) = seed_of a.
Proof. done. Qed.


(** ** Recovery codes *)

(** When [complete_recovery_challenge] returns, the code's digest was
    stored for the challenge's ACTIVE account and no longer is, so the code never
    works again; every other session and every challenge of the account is gone,
    and the returned token names its only session. *)
Theorem recovery_login_success w token code ip ua t p w' :
  inv (w_db w) → complete_recovery_challenge self token code ip ua w = (Ok (t, p), w') →
  ∃ now c a normalized,
    reads self w now ∧ c ∈ challenges (w_db w) ∧
    c_digest c = challenge_digest_of self token ∧ now < c_expires c ∧
    a ∈ accounts (w_db w) ∧ a_id a = c_account c ∧ a_state a = ACTIVE ∧
    _normalize_recovery_code code = Ok normalized ∧
    let spent (r : recovery_row) :=
      rc_account r = a_id a ∧ rc_digest r = _recovery_digest self (a_id a) normalized in
    (∃ r, r ∈ recovery_codes (w_db w) ∧ spent r) ∧
    recovery_codes (w_db w') = delete_where spent (recovery_codes (w_db w)) ∧
    (∀ x, x ∈ challenges (w_db w') → c_account x ≠ a_id a) ∧
    accounts (w_db w') = accounts (w_db w) ∧ pr_account p = a_id a ∧
    ∃ s, s ∈ sessions (w_db w') ∧ fresh_session (session_digest_of self t) (a_id a) now s ∧
      ∀ s', s' ∈ sessions (w_db w') → s_account s' = a_id a → s' = s.
Proof.
  intros Hi H. unfold complete_recovery_challenge in H.
  apply bind_inv_ok in H as (norm & w0 & [Hnorm ->]%lift_inv_ok & H).
  apply bind_inv_ok in H as (now & w1 & [_ [Hn ->]]%now_inv_ok & H).
  apply bind_inv_ok in H as (o & w2 & Ht & H). destruct o as [tp|]; [|done].
  apply ret_inv_ok in H as [-> ->]. apply transaction_inv_ok in Ht as [_ Ht].
  apply bind_inv_ok in Ht as ([c a] & w3 & Hc & Ht).
  apply read_challenge_inv in Hc as (-> & Hc & Hd & Ha & Hid & Hx); [|done].
  case_bool_decide as Hs; simpl in Ht; [|done].
  apply bind_inv_ok in Ht as (k & w4 & [-> ->]%query_inv_ok & Ht).
  apply bind_inv_ok in Ht as (? & w5 & ->%exec_inv_ok & Ht).
  destruct (Z.eqb_spec (count_where (λ r, rc_account r = a_id a ∧ rc_digest r = _recovery_digest self (a_id a) norm)
    (recovery_codes (w_db (ticked w)))) 1) as [Hone|]; simpl in Ht; cycle 1.
  { by apply bind_inv_ok in Ht as (? & ? & _ & [? _]%ret_inv_ok). }
  apply bind_inv_ok in Ht as (? & w6 & Hdel & Ht). unfold delete_account_authentication in Hdel.
  apply bind_inv_ok in Hdel as (? & w7 & ->%exec_inv_ok & Hdel).
  apply bind_inv_ok in Hdel as (? & w8 & ->%exec_inv_ok & ->%exec_inv_ok).
  apply (run_finish _ _ _ _ Some) in Ht as (t' & p' & [= <- <-] & (s & Hin & Hf & Hold) & Hacc & Hch & Hrc & Hp & _).
  exists now, c, a, norm. simpl in *. rewrite Hrc, Hch, Hacc. split_and!; try done.
  - eapply count_exists. erewrite Hone. done.
  - by intros y [Hy _]%elem_of_delete.
  - exists s. split; [done|]. split; [done|]. intros s' Hs' Hsa.
    destruct (Hold s' Hs') as [|Hs'']; [done|]. by apply elem_of_delete in Hs'' as [? _].
Qed.

End Login.

(** ** Witnesses *)

Lemma demo_reachable_5 : reachable demo_store demo_webauthn demo_5.
Proof.
  exact (reach_step _ _ demo_challenge demo_4 demo_reachable_4 (m_create_pending_challenge _ _ _)).
Qed.

Lemma demo_inv_5 : inv (w_db demo_5).
Proof. exact (reachable_inv _ _ _ demo_reachable_5). Qed.

Lemma demo_totp_run : ∃ a, demo_totp demo_5 = (Ok a, (demo_totp demo_5).2).
Proof. destruct demo_outcomes as (_ & _ & H & _). exact (ok_run demo_totp demo_5 H). Qed.
Lemma demo_by_code_run : ∃ a, demo_by_code demo_5 = (Ok a, (demo_by_code demo_5).2).
Proof. destruct demo_outcomes as (_ & _ & _ & _ & H & _). exact (ok_run demo_by_code demo_5 H). Qed.
Lemma demo_verify_run : ∃ a, demo_verify demo_4 = (Ok a, (demo_verify demo_4).2).
Proof. destruct demo_outcomes as (_ & _ & _ & _ & _ & H & _). exact (ok_run demo_verify demo_4 H). Qed.
Lemma demo_verify2_run : ∃ a, demo_verify2 demo_6 = (Ok a, (demo_verify2 demo_6).2).
Proof. destruct demo_outcomes as (_ & _ & _ & _ & _ & _ & H & _). exact (ok_run demo_verify2 demo_6 H). Qed.
Lemma demo_wrong_run : demo_wrong demo_5 = (Err InvalidSecondFactorError, (demo_wrong demo_5).2).
Proof. destruct demo_outcomes as (_ & _ & _ & H & _). exact (second_factor_run demo_wrong demo_5 H). Qed.

Lemma totp_login_success_witness :
  ∃ t p now a n, demo_totp demo_5 = (Ok (t, p), (demo_totp demo_5).2) ∧
    a ∈ accounts (w_db demo_5) ∧ a_counter a < n ∧
    consumed demo_store now a n t (w_db demo_5) (w_db (demo_totp demo_5).2).
Proof.
  destruct demo_totp_run as [[t p] Hp].
  destruct (totp_login_success demo_store demo_5 demo_token2 _ None None t p _ demo_inv_5 Hp)
    as (now & c & a & secret & n & (_ & _ & _ & _ & Ha & _) & _ & Hlt & Hc & _).
  exists t, p, now, a, n. split; [exact Hp|]. split; [exact Ha|]. split; [exact Hlt|exact Hc].
Defined.

Lemma totp_login_failure_witness :
  ∃ c, c ∈ challenges (w_db demo_5) ∧ only_counted c (w_db demo_5) (w_db (demo_wrong demo_5).2).
Proof.
  destruct (totp_login_failure demo_store demo_5 demo_token2 (u "000000") None None _ demo_inv_5
    demo_wrong_run) as (now & c & a & secret & (_ & Hc & _) & _ & Ho).
  exists c. split; [exact Hc|exact Ho].
Defined.

Lemma login_then_authenticate_witness :
  ∃ t p, ∀ w2, w_db w2 = w_db (demo_totp demo_5).2 → w_closed w2 = false →
    pr_created p ≤ 1700000000 + Z.of_nat (w_clock w2) < pr_created p + 259200 →
    ∃ p2 w3, authenticate_session demo_store t true w2 = (Ok p2, w3) ∧ pr_account p2 = pr_account p.
Proof.
  destruct demo_totp_run as [[t p] Hp]. exists t, p. intros w2 Hdb Ho Hn.
  destruct (login_then_authenticate demo_store demo_5 demo_token2 _ None None t p _ w2 _ true
    demo_inv_5 Hp Hdb Ho (demo_reads w2) Hn) as (p2 & w3 & Ha & Hid & _).
  exists p2, w3. split; [exact Ha|exact Hid].
Defined.

Lemma later_db n w : w_db (later n w) = w_db w.
Proof. reflexivity. Qed.

Lemma demo_6_db : w_db demo_6 = w_db (demo_verify demo_4).2.
Proof. unfold demo_6. exact (later_db 30 _). Qed.


Lemma recovery_login_success_witness :
  ∃ t p a s, demo_by_code demo_5 = (Ok (t, p), (demo_by_code demo_5).2) ∧
    s ∈ sessions (w_db (demo_by_code demo_5).2) ∧
    ∀ s', s' ∈ sessions (w_db (demo_by_code demo_5).2) → s_account s' = a_id a → s' = s.
Proof.
  destruct demo_by_code_run as [[t p] Hp].
  destruct (recovery_login_success demo_store demo_5 demo_token2 _ None None t p _ demo_inv_5 Hp)
    as (now & c & a & norm & _ & _ & _ & _ & _ & _ & _ & _ & _ & _ & _ & _ & _ & s & Hs & _ & Hu).
  exists t, p, a, s. split; [exact Hp|]. split; [exact Hs|exact Hu].
Defined.

(** * Account administration: exact effects

    What registering, resetting, revoking and deleting an account do to every
    table: the rows that appear, the rows that go, and that nothing of another
    account changes. *)

From S2P Require Import Prelude Text Errors Sql Totp Identity Json AuthDb AuthCore AuthStore AuthPasskey AuthRate AuthRules AuthDemo AuthWp AuthInv AuthSafe AuthReach AuthRun.

#[local] Set Default Proof Using "Type*".

Section Admin.
Context (self : store).

Lemma allocate_id_inv n len taken w i w' :
  allocate_id self n len taken w = (Ok i, w') → w_db w' = w_db w ∧ taken (w_db w) i = false.
Proof.
  revert w. induction n as [|n IH]; intros w H; simpl in H; [done|].
  apply bind_inv_ok in H as (raw & w1 & Hr & H).
  pose proof (readonly_inv_ok _ _ _ _ (readonly_random self _) Hr) as Hdb.
  apply bind_inv_ok in H as (b & w2 & [-> ->]%query_inv_ok & H).
  destruct (taken _ _) eqn:E.
  - rewrite <-Hdb. by apply IH.
  - apply ret_inv_ok in H as [<- ->]. by rewrite <-Hdb.
Qed.

Lemma require_account_inv id w a w' :
  _require_account_by_id_locked id w = (Ok a, w') → a ∈ accounts (w_db w) ∧ a_id a = id ∧ w' = w.
Proof.
  unfold _require_account_by_id_locked. intros H.
  apply bind_inv_ok in H as (o & w1 & [-> ->]%query_inv_ok & H).
  destruct (lookup_where _ _) as [a'|] eqn:Hl; [|done]. apply ret_inv_ok in H as [<- ->].
  by apply lookup_where_Some in Hl as [??].
Qed.

Lemma allocate_id_err n len taken w e w' :
  allocate_id self n len taken w = (Err e, w') → e = ValueError ∨ e = AuthenticationError.
Proof.
  revert w. induction n as [|n IH]; intros w H; simpl in H.
  - injection H as <- _. by right.
  - apply bind_inv_err in H as [H|(raw & w1 & _ & H)].
    + revert H. unfold _random_bytes. destruct (_ =? _); [done|]. intros [= <- _]. by left.
    + apply bind_inv_err in H as [?|(b & w2 & _ & H)]; [done|]. destruct b; [by eapply IH|done].
Qed.

Lemma now_err w e w' : _now self w = (Err e, w') → e = ValueError ∧ w_db w' = w_db w.
Proof.
  unfold _now. destruct (clock self _) as [n d|]; [destruct (n <? 0); [|done]|]; by intros [= <- <-].
Qed.

(** ** Registration *)

Lemma lookup_inserted id r t :
  (∀ x, x ∈ t → a_id x ≠ id) → a_id r = id → lookup_where (λ x, a_id x = id) (t ++ [r]) = Some r.
Proof.
  intros Hn Hid. induction t as [|x t IH]; unfold lookup_where; simpl.
  - by rewrite decide_True.
  - rewrite decide_False by (apply Hn; left). apply IH. intros y Hy. apply Hn. by right.
Qed.

Lemma register_inv canonical role required now w o w' :
  (existing ← _account_row_by_email_locked canonical;
   match existing with
   | Some _ => throw AccountExistsError
   | None =>
       account_id ← _new_account_id_locked self;
       exec_checked (insert_account
         (required_account_row account_id canonical role required now)) ;;
       _account_row_by_id_locked account_id
   end) w = (Ok o, w') →
  (∀ b, b ∈ accounts (w_db w) → a_email b ≠ canonical) ∧
  ∃ id, (∀ b, b ∈ accounts (w_db w) → a_id b ≠ id) ∧
    o = Some (required_account_row id canonical role required now) ∧
    w_db w' = set_accounts (accounts (w_db w) ++ [required_account_row id canonical role required now])
                (w_db w).
Proof.
  intros H. apply bind_inv_ok in H as (x & w1 & [-> ->]%query_inv_ok & H).
  destruct (lookup_where _ _) eqn:Hno; [done|]. rewrite lookup_where_None in Hno. split; [done|].
  apply bind_inv_ok in H as (id & w2 & [Hdb Htk]%allocate_id_inv & H). exists id.
  assert (Hfresh : ∀ b, b ∈ accounts (w_db w) → a_id b ≠ id).
  { intros b Hb Heq. apply bool_decide_eq_false in Htk. apply Htk.
    rewrite <-Heq. by apply list_elem_of_fmap_2. }
  split; [done|].
  apply bind_inv_ok in H as (? & w3 & (d & Hi & ->)%exec_checked_inv_ok & [-> ->]%query_inv_ok).
  unfold insert_account in Hi. destruct (insert_row _ _ _ _) as [t|] eqn:Ht; [|done].
  injection Hi as <-. apply insert_row_Some in Ht as (-> & _ & _). rewrite Hdb. simpl.
  by rewrite lookup_inserted.
Qed.

(** [create_account] registers an address exactly once: it returns the
    new account, in state REQUIRED under an identifier no account has, appended
    to the table and nothing else changed; and it reports that the account
    exists only when the canonical address is registered, changing nothing. *)
Theorem create_account_spec w email role required r w' :
  create_account self email role required w = (r, w') →
  match r with
  | Ok a => ∃ now canonical, reads self w now ∧ canonicalize_email email = Ok canonical ∧
      (∀ b, b ∈ accounts (w_db w) → a_email b ≠ canonical ∧ a_id b ≠ a_id a) ∧
      a = required_account_row (a_id a) canonical role required now ∧
      w_db w' = set_accounts (accounts (w_db w) ++ [a]) (w_db w)
  | Err e => w_db w' = w_db w ∧ (e = AccountExistsError →
      ∃ b, b ∈ accounts (w_db w) ∧ canonicalize_email email = Ok (a_email b))
  end.
Proof.
  intros H. unfold create_account in H. destruct r as [a|e].
  - apply bind_inv_ok in H as (canonical & w1 & [Hc ->]%lift_inv_ok & H).
    apply bind_inv_ok in H as (now & w2 & [_ [Hn ->]]%now_inv_ok & H).
    apply bind_inv_ok in H as (o & w3 & Ht & H). apply transaction_inv_ok in Ht as [_ Ht].
    apply register_inv in Ht as (Hno & id & Hid & -> & Hdb). apply ret_inv_ok in H as [<- ->].
    exists now, canonical. split_and!; try done; auto.
  - apply bind_inv_err in H as [H|(canonical & w1 & [Hc ->]%lift_inv_ok & H)].
    { injection H as H <-. by apply canonicalize_email_err in H as ->. }
    apply bind_inv_err in H as [[-> ->]%now_err|(now & w2 & [_ [Hn ->]]%now_inv_ok & H)]; [done|].
    apply bind_inv_err in H as [H|(o & w3 & Ht & H)].
    + split; [by eapply transaction_err_db in H|]. intros ->.
      apply transaction_inv_err in H as [?|[w3 H]]; [done|].
      apply bind_inv_err in H as [H|(o & w4 & [-> ->]%query_inv_ok & H)]; [done|].
      destruct (lookup_where _ _) as [b|] eqn:Hb; [apply lookup_where_Some in Hb as [<- Hb]; eauto|].
      exfalso. apply bind_inv_err in H as [[?|?]%allocate_id_err|(id & w5 & _ & H)]; [done|done|].
      apply bind_inv_err in H as [H|(? & w6 & _ & H)]; [|done].
      revert H. unfold exec_checked. by destruct (insert_account _ _).
    + apply transaction_inv_ok in Ht as [_ Ht]. by apply register_inv in Ht as (_ & id & _ & -> & _).
Qed.

(** ** Deletion *)

(** No row of [d] belongs to the account [id]. *)
Definition erased (id : list Z) (d : db) : Prop :=
  (∀ r, r ∈ accounts d → a_id r ≠ id) ∧ (∀ r, r ∈ recovery_codes d → rc_account r ≠ id) ∧
  (∀ r, r ∈ challenges d → c_account r ≠ id) ∧ (∀ r, r ∈ sessions d → s_account r ≠ id) ∧
  (∀ r, r ∈ rate_limits d → l_account r ≠ Some id) ∧ (∀ r, r ∈ passkeys d → p_account r ≠ id) ∧
  (∀ r, r ∈ passkey_challenges d → k_account r ≠ Some id) ∧
  (∀ r, r ∈ mail_rules d → mr_account r ≠ id) ∧ (∀ r, r ∈ mail_runs d → ru_account r ≠ id).

(** The rows of every other account are the same in [d] and [d']. *)
Definition others_kept (id : list Z) (d d' : db) : Prop :=
  select_where (λ r, a_id r ≠ id) (accounts d') = select_where (λ r, a_id r ≠ id) (accounts d) ∧
  select_where (λ r, rc_account r ≠ id) (recovery_codes d')
    = select_where (λ r, rc_account r ≠ id) (recovery_codes d) ∧
  select_where (λ r, c_account r ≠ id) (challenges d') = select_where (λ r, c_account r ≠ id) (challenges d) ∧
  select_where (λ r, s_account r ≠ id) (sessions d') = select_where (λ r, s_account r ≠ id) (sessions d) ∧
  select_where (λ r, p_account r ≠ id) (passkeys d') = select_where (λ r, p_account r ≠ id) (passkeys d) ∧
  select_where (λ r, mr_account r ≠ id) (mail_rules d')
    = select_where (λ r, mr_account r ≠ id) (mail_rules d).

Lemma select_delete {R} (P Q : R → Prop) `{!∀ r, Decision (P r), !∀ r, Decision (Q r)} t :
  (∀ r, P r → ¬ Q r) → select_where P (delete_where Q t) = select_where P t.
Proof.
  intros Hd. unfold select_where, delete_where. induction t as [|r t IH]; [done|].
  rewrite !filter_cons. repeat case_decide; rewrite ?filter_cons; repeat case_decide; naive_solver congruence.
Qed.

(** [delete_account] succeeds only for a stored account, and then no
    row of any table belongs to it any more, while the accounts, recovery codes,
    challenges, sessions, passkeys and rules of every other account are the same
    rows in the same order. *)
Theorem delete_account_erases w id w' :
  inv (w_db w) → delete_account self id w = (Ok tt, w') →
  (∃ a, a ∈ accounts (w_db w) ∧ a_id a = id) ∧ erased id (w_db w')
  ∧ others_kept id (w_db w) (w_db w').
Proof.
  intros [Hw _] H. unfold delete_account in H.
  apply bind_inv_ok in H as (nid & w1 & (_ & -> & ->)%hex32_inv_ok & H).
  apply transaction_inv_ok in H as [_ H].
  apply bind_inv_ok in H as (a & w2 & (Ha & Hid & ->)%require_account_inv & H).
  apply bind_inv_ok in H as (? & w3 & ->%exec_inv_ok & H).
  apply bind_inv_ok in H as (n & w4 & [-> ->]%query_inv_ok & H).
  apply bind_inv_ok in H as (? & w5 & ->%exec_inv_ok & [_ ->]%require_inv_ok).
  split; [eauto|]. unfold delete_accounts. simpl.
  set (gone := a_id <$> select_where (λ a, a_id a = id) (accounts (w_db w))).
  assert (Hg : ∀ i, i ∈ gone ↔ i = id).
  { intros i. split; [by intros (r & -> & [<- _]%elem_of_select)%list_elem_of_fmap|].
    intros ->. apply list_elem_of_fmap. exists a. split; [done|]. by apply elem_of_select. }
  assert (Hgo : ∀ o, opt_in o gone ↔ o = Some id).
  { intros [i|]; simpl; [rewrite Hg; naive_solver congruence|done]. }
  split; unfold erased, others_kept; simpl; split_and!;
    first [apply select_delete; intros r; rewrite ?Hg; tauto
          |by intros r [Hr _]%elem_of_delete
          |by intros r [Hr _]%elem_of_delete; rewrite <-?Hg, <-?Hgo].
Qed.

(** ** Revocation and reset *)

(** The account [id] is signed out of [d]: no session, login challenge or passkey
    ceremony of it is left. *)
Definition signed_out (id : list Z) (d : db) : Prop :=
  (∀ r, r ∈ sessions d → s_account r ≠ id) ∧ (∀ r, r ∈ challenges d → c_account r ≠ id) ∧
  (∀ r, r ∈ passkey_challenges d → k_account r ≠ Some id).

Lemma select_update {R} (P Q : R → Prop) `{!∀ r, Decision (P r), !∀ r, Decision (Q r)} f t :
  (∀ r, P r → ¬ Q r) → (∀ r, ¬ P r → Q r → ¬ P (f r)) →
  select_where P (update_where Q f t) = select_where P t.
Proof.
  intros Hd Hf. unfold select_where, update_where. induction t as [|r t IH]; [done|]. csimpl.
  rewrite !filter_cons. repeat case_decide; rewrite ?IH; naive_solver congruence.
Qed.

Lemma revoke_authentication_inv id w n w' :
  _revoke_account_authentication_locked self id w = (Ok n, w') →
  n = count_where (λ s, s_account s = id) (sessions (w_db w)) ∧ ∃ now,
  w_db w' = delete_sessions (λ s, s_account s = id)
    (delete_passkey_challenges (λ k, k_account k = Some id)
      (delete_challenges (λ c, c_account c = id)
        (set_accounts (update_where (λ a, a_id a = id ∧ a_state a = PENDING) (reset_enrollment now)
          (accounts (w_db w))) (w_db w)))).
Proof.
  unfold _revoke_account_authentication_locked, _revoke_pending_challenges_locked. intros H.
  apply bind_inv_ok in H as (? & w1 & Hp & H).
  apply bind_inv_ok in Hp as (now & w2 & [_ [_ ->]]%now_inv_ok & Hp).
  apply bind_inv_ok in Hp as (? & w3 & (d & Hu & ->)%exec_checked_inv_ok & Hp).
  apply bind_inv_ok in Hp as (? & w4 & ->%exec_inv_ok & ->%exec_inv_ok).
  apply update_accounts_Some in Hu as ->.
  apply bind_inv_ok in H as (k & w5 & [-> ->]%query_inv_ok & H).
  apply bind_inv_ok in H as (? & w6 & ->%exec_inv_ok & [<- ->]%ret_inv_ok). simpl.
  split; [|by exists now]. pose proof (count_nonneg (λ s, s_account s = id) (sessions (w_db w))). lia.
Qed.

(** [revoke_sessions] returns the number of sessions the account had,
    leaves it signed out, returns a half-finished enrollment to REQUIRED, and
    changes nothing of another account. *)
Theorem revoke_sessions_spec w id n w' :
  revoke_sessions self id w = (Ok n, w') →
  n = count_where (λ s, s_account s = id) (sessions (w_db w)) ∧ signed_out id (w_db w') ∧
  (∀ a, a ∈ accounts (w_db w') → a_id a = id → a_state a ≠ PENDING) ∧
  recovery_codes (w_db w') = recovery_codes (w_db w) ∧ others_kept id (w_db w) (w_db w').
Proof.
  intros H. unfold revoke_sessions in H.
  apply bind_inv_ok in H as (nid & w1 & (_ & -> & ->)%hex32_inv_ok & H).
  apply transaction_inv_ok in H as [_ H].
  apply bind_inv_ok in H as (a & w2 & (_ & _ & ->)%require_account_inv & H).
  apply revoke_authentication_inv in H as (-> & now & ->). split; [done|].
  unfold signed_out, others_kept. simpl. split_and!; try done.
  - by intros r [Hr _]%elem_of_delete.
  - by intros r [Hr _]%elem_of_delete.
  - by intros r [_ [Hr _]%elem_of_delete]%elem_of_delete.
  - intros b (b0 & Hb0 & ->)%elem_of_update. case_decide as Hd; [done|]. intros Hid Hp. tauto.
  - apply select_update; [naive_solver|]. intros r Hr [Hid _]. by simpl.
  - apply select_delete. tauto.
  - apply select_delete. tauto.
Qed.

(** [reset_totp] returns the account in state REQUIRED with no TOTP
    secret and no used step, leaves it signed out and without recovery codes, and
    changes nothing of another account. *)
Theorem reset_totp_spec w id a' w' :
  inv (w_db w) → reset_totp self id w = (Ok a', w') →
  ∃ now a, reads self w now ∧ a ∈ accounts (w_db w) ∧ a_id a = id ∧ a' = reset_enrollment now a ∧
    (∀ b, b ∈ accounts (w_db w') → a_id b = id → b = a') ∧
    (∀ r, r ∈ recovery_codes (w_db w') → rc_account r ≠ id) ∧
    signed_out id (w_db w') ∧ others_kept id (w_db w) (w_db w').
Proof.
  intros Hi H. unfold reset_totp in H.
  apply bind_inv_ok in H as (nid & w1 & (_ & -> & ->)%hex32_inv_ok & H).
  apply bind_inv_ok in H as (now & w2 & [_ [Hn ->]]%now_inv_ok & H).
  apply bind_inv_ok in H as (o & w3 & Ht & H). destruct o as [b|]; [|done].
  apply ret_inv_ok in H as [<- ->]. apply transaction_inv_ok in Ht as [_ H].
  apply bind_inv_ok in H as (a & w4 & (Ha & Hid & ->)%require_account_inv & H).
  apply bind_inv_ok in H as (? & w5 & (d & Hu & ->)%exec_checked_inv_ok & H).
  apply update_accounts_Some in Hu as ->.
  apply bind_inv_ok in H as (? & w6 & ->%exec_inv_ok & H).
  apply bind_inv_ok in H as (? & w7 & Hd & [Hb ->]%query_inv_ok).
  unfold delete_account_authentication in Hd.
  apply bind_inv_ok in Hd as (? & w8 & ->%exec_inv_ok & Hd).
  apply bind_inv_ok in Hd as (? & w9 & ->%exec_inv_ok & ->%exec_inv_ok). simpl in *.
  assert (Hall : ∀ c, c ∈ update_where (λ x, a_id x = id) (reset_enrollment now) (accounts (w_db w)) →
    a_id c = id → c = reset_enrollment now a).
  { intros c (c0 & Hc0 & ->)%elem_of_update. case_decide as Hc; [|done]. intros _. f_equal.
    eapply (NoDup_key_eq a_id); [apply wf_account_ids, Hi|done|done|congruence]. }
  symmetry in Hb. apply lookup_where_Some in Hb as [Hbid Hb]. pose proof (Hall b Hb Hbid) as ->.
  exists now, a. unfold signed_out, others_kept. simpl. split_and!; try done.
  - by intros r [Hr _]%elem_of_delete.
  - by intros r [Hr _]%elem_of_delete.
  - by intros r [Hr _]%elem_of_delete.
  - by intros r [_ [Hr _]%elem_of_delete]%elem_of_delete.
  - by apply select_update.
  - apply select_delete. tauto.
  - apply select_delete. tauto.
  - apply select_delete. tauto.
Qed.
End Admin.

(** ** Witnesses *)

Notation demo_register := (create_account demo_store demo_email USER true) (only parsing).
Notation demo_delete := (delete_account demo_store demo_account) (only parsing).
Notation demo_sign_out := (revoke_sessions demo_store demo_account) (only parsing).
Notation demo_reset := (reset_totp demo_store demo_account) (only parsing).

Example demo_admin_outcomes :
  is_ok (demo_register demo_0).1 = true ∧ is_ok (demo_delete demo_1).1 = true
  ∧ is_ok (demo_sign_out demo_1).1 = true ∧ is_ok (demo_reset demo_1).1 = true.
Proof. vm_compute. repeat split. Qed.

Lemma demo_inv_1 : inv (w_db demo_1).
Proof. exact (reachable_inv _ _ _ demo_reachable_1). Qed.

Lemma demo_register_run : ∃ a, demo_register demo_0 = (Ok a, (demo_register demo_0).2).
Proof. destruct demo_admin_outcomes as (H & _). exact (ok_run _ _ H). Qed.
Lemma demo_delete_run : ∃ a, demo_delete demo_1 = (Ok a, (demo_delete demo_1).2).
Proof. destruct demo_admin_outcomes as (_ & H & _). exact (ok_run _ _ H). Qed.
Lemma demo_sign_out_run : ∃ a, demo_sign_out demo_1 = (Ok a, (demo_sign_out demo_1).2).
Proof. destruct demo_admin_outcomes as (_ & _ & H & _). exact (ok_run _ _ H). Qed.
Lemma demo_reset_run : ∃ a, demo_reset demo_1 = (Ok a, (demo_reset demo_1).2).
Proof. destruct demo_admin_outcomes as (_ & _ & _ & H). exact (ok_run _ _ H). Qed.

Lemma create_account_spec_witness :
  ∃ a, w_db (demo_register demo_0).2 = set_accounts (accounts (w_db demo_0) ++ [a]) (w_db demo_0).
Proof.
  destruct demo_register_run as [a Ha].
  destruct (create_account_spec demo_store demo_0 demo_email USER true (Ok a) _ Ha)
    as (now & canonical & _ & _ & _ & _ & Hdb).
  exists a. exact Hdb.
Defined.

Lemma delete_account_erases_witness : erased demo_account (w_db (demo_delete demo_1).2).
Proof.
  destruct demo_delete_run as [[] H].
  exact (proj1 (proj2 (delete_account_erases demo_store demo_1 demo_account _ demo_inv_1 H))).
Defined.

Lemma revoke_sessions_spec_witness : signed_out demo_account (w_db (demo_sign_out demo_1).2).
Proof.
  destruct demo_sign_out_run as [n H].
  exact (proj1 (proj2 (revoke_sessions_spec demo_store demo_1 demo_account n _ H))).
Defined.

Lemma reset_totp_spec_witness : ∃ a now, a ∈ accounts (w_db demo_1) ∧
  ∀ b, b ∈ accounts (w_db (demo_reset demo_1).2) → a_id b = demo_account → b = reset_enrollment now a.
Proof.
  destruct demo_reset_run as [a' H].
  destruct (reset_totp_spec demo_store demo_1 demo_account a' _ demo_inv_1 H)
    as (now & a & _ & Ha & _ & -> & Hb & _).
  exists a, now. split; [exact Ha|exact Hb].
Defined.
