(* ===== verification/AuthRuleSpecs.v ===== *)
(** * Mail rules: exact effects

    Reordering, deleting and updating the rules of an account, and the life
    cycle of a run over existing mail. *)

From S2P Require Import Prelude Text Errors Sql Totp Identity Json AuthDb AuthCore AuthStore AuthPasskey AuthRate AuthRules AuthDemo AuthWp AuthInv AuthSafe AuthSafeRules AuthReach AuthRun AuthLogin.

#[local] Set Default Proof Using "Type*".

(** ** Ordering *)

Lemma order_by_perm {R} (key : R → list Z) t : order_by key t ≡ₚ t.
Proof. apply merge_sort_Permutation. Qed.

Lemma order_by_sorted {R} (key : R → list Z) t :
  StronglySorted (λ a b, zlist_le (key a) (key b)) (order_by key t).
Proof.
  apply Sorted_StronglySorted; [intros a b c; apply zlist_le_trans|].
  apply Sorted_merge_sort. intros a b. apply zlist_le_total.
Qed.

Lemma StronglySorted_filter {R} (le : R → R → Prop) (P : R → Prop) `{!∀ r, Decision (P r)} l :
  StronglySorted le l → StronglySorted le (filter P l).
Proof.
  induction 1 as [|x l Hl IH Hx]; [constructor|]. rewrite filter_cons. case_decide; [|done].
  constructor; [done|]. rewrite Forall_forall in Hx. apply Forall_forall.
  intros y [_ Hy]%list_elem_of_filter. by apply Hx.
Qed.

(** Filtering rows commutes with ORDER BY when the key is unique. *)
Lemma order_by_filter {R} (key : R → list Z) (P : R → Prop) `{!∀ r, Decision (P r)} t :
  (∀ x y, x ∈ t → y ∈ t → key x = key y → x = y) →
  order_by key (filter P t) = filter P (order_by key t).
Proof.
  intros Hk. apply (StronglySorted_unique_strong (λ a b, zlist_le (key a) (key b))).
  - intros x y Hx Hy Hxy Hyx. rewrite order_by_perm in Hx.
    apply list_elem_of_filter in Hx as [_ Hx]. apply list_elem_of_filter in Hy as [_ Hy].
    rewrite order_by_perm in Hy. apply Hk; [done|done|]. by apply (anti_symm zlist_le).
  - apply order_by_sorted.
  - apply StronglySorted_filter, order_by_sorted.
  - by rewrite !order_by_perm.
Qed.

Section RuleSpecs.
Context (self : store).

Lemma rules_key_unique d x y :
  wf d → x ∈ mail_rules d → y ∈ mail_rules d → rule_position_key x = rule_position_key y → x = y.
Proof.
  intros Hw Hx Hy Hk. eapply (NoDup_key_eq mr_id); [by apply wf_rule_ids|done|done|].
  unfold rule_position_key in Hk. by injection Hk.
Qed.

(** The identifiers of an account's rules in their processing order. *)
Definition rule_order (acc : list Z) (d : db) : list (list Z) := mr_id <$> account_rules acc d.

Definition other_rules (acc : list Z) (d : db) : list rule_row :=
  select_where (λ r, mr_account r ≠ acc) (mail_rules d).

Lemma other_rules_renumbered acc f P ids d :
  repositioner acc f P → lists_account acc ids (mail_rules d) →
  other_rules acc (set_mail_rules (renumbered acc f ids (mail_rules d)) d) = other_rules acc d.
Proof.
  intros HR (_ & Hin & _). unfold other_rules, select_where. simpl.
  rewrite renumbered_map.
  assert (Hid : ∀ r, r ∈ mail_rules d → mr_account r ≠ acc → renumber acc f ids r = r).
  { intros r Hr Ha. eapply renumber_other; eauto. }
  assert (Hacc : ∀ r, mr_account (renumber acc f ids r) = mr_account r) by (intros r; by eapply renumber_id).
  revert Hid. clear -Hacc. induction (mail_rules d) as [|r t IH]; intros Hid; [done|]. csimpl.
  rewrite !filter_cons, Hacc. rewrite IH by (intros; apply Hid; [by right|done]).
  case_decide; [|done]. f_equal. apply Hid; [left|done].
Qed.

Lemma run_reorder w acc ids now :
  inv (w_db w) → reads self w now → lists_account acc ids (mail_rules (w_db w)) →
  ∃ w', (shift_positions acc ;;
    now ← _now self;
    eff_iter (λ '(position, normalized_rule),
      exec_checked (update_rules (rule_at acc normalized_rule) (set_position_at position now)))
      (enumerate ids)) w = (Ok tt, w') ∧
    w_db w' = set_mail_rules (renumbered acc (λ p, set_position_at p now) ids (mail_rules (w_db w)))
                (w_db w).
Proof.
  intros [Hw Hd] Hn Hl.
  destruct (total_run (shift_positions acc)
    (λ _ d', wf d' ∧ d' = set_mail_rules (shifted acc (mail_rules (w_db w))) (w_db w)) w)
    as ([] & w1 & Hs & Hw1 & Hd1); [apply wp_shift; [done|by apply inv_below|done]|].
  rewrite (run_bind_ok _ _ _ _ _ Hs). apply exec_checked_inv_ok in Hs as (d1 & _ & ->).
  rewrite (run_bind_ok _ _ _ _ _ (run_now self (with_db d1 w) now Hn)). simpl in Hd1.
  unfold enumerate. rewrite (iter_enumerate _ (λ '(p, x), exec_checked (update_rules (rule_at acc x)
    (set_position_at p now))) id) by done. rewrite list_fmap_id.
  match goal with |- ∃ w', ?m ?v = _ ∧ ?D w' = ?d => destruct (total_run m (λ _ d', d' = d) v)
    as ([] & w2 & Hr & Hq); [|by exists w2] end.
  eapply (wp_renumber acc (λ p, set_position_at p now) (rule_at acc) (reorder_repositioner acc now)
    ids d1 (w_db w)); [done|done|done|by subst|done].
Qed.

Lemma validate_ids_run ids w :
  Forall (λ i, is_hex32 i = true) ids → eff_map _validate_mail_rule_id ids w = (Ok ids, w).
Proof.
  induction 1 as [|i ids Hi Hids IH]; [done|]. simpl.
  assert (_validate_mail_rule_id i w = (Ok i, w)) as Hv
    by (unfold _validate_mail_rule_id, _validate_hex32; by rewrite Hi).
  rewrite (run_bind_ok _ _ _ _ _ Hv). by rewrite run_bind, IH.
Qed.

Lemma rule_order_perm acc d : rule_order acc d ≡ₚ mr_id <$> select_where (λ r, mr_account r = acc) (mail_rules d).
Proof. unfold rule_order, account_rules. by rewrite order_by_perm. Qed.

(** [reorder_mail_rules] succeeds exactly when the identifiers are a
    permutation of the account's rules; then they are processed in the given
    order and no other account's rule changes.  Otherwise nothing changes. *)
Theorem reorder_mail_rules_spec w acc ids now :
  inv (w_db w) → w_closed w = false → reads self w now → is_hex32 acc = true →
  Forall (λ i, is_hex32 i = true) ids →
  let '(r, w') := reorder_mail_rules self acc ids w in
  (r = Ok tt ∧ ids ≡ₚ rule_order acc (w_db w) ∧ rule_order acc (w_db w') = ids ∧
     other_rules acc (w_db w') = other_rules acc (w_db w)) ∨
  (r = Err ValueError ∧ ¬ ids ≡ₚ rule_order acc (w_db w) ∧ w_db w' = w_db w).
Proof.
  intros Hi Ho Hn Ha Hids. unfold reorder_mail_rules, _validate_account_id, _validate_hex32.
  rewrite run_bind, Ha. simpl. rewrite run_bind, validate_ids_run by done. rewrite run_bind.
  unfold require at 1. case_bool_decide as Hnd; simpl; cycle 1.
  { right. split_and!; try done. rewrite rule_order_perm. intros Hp. apply Hnd. rewrite Hp.
    apply NoDup_key_filter. by apply wf_rule_ids, Hi. }
  rewrite run_transaction, run_bind by done. simpl. rewrite run_bind. unfold require.
  destruct (same_set ids _) eqn:Hs; simpl.
  - pose proof (reorder_lists acc ids _ (proj1 Hi) Hnd Hs) as Hl.
    destruct (run_reorder w acc ids now Hi Hn Hl) as (w' & Hr & Hdb). rewrite Hr. left.
    rewrite Hdb. pose proof Hl as (_ & Hin & Hall). split; [done|]. split.
    + rewrite rule_order_perm. symmetry. apply account_ids_perm; try done. by apply wf_rule_ids, Hi.
    + split; [|by apply (other_rules_renumbered _ _ _ _ _ (reorder_repositioner acc now))].
      apply (renumbered_order acc _ _ (reorder_repositioner acc now)); try done. by apply wf_rule_ids, Hi.
  - right. split; [done|]. split; [|done]. rewrite rule_order_perm. intros Hp.
    assert (same_set ids (mr_id <$> select_where (λ r, mr_account r = acc) (mail_rules (w_db w))) = true);
      [|congruence]. apply same_set_spec. intros x. by rewrite Hp.
Qed.

Lemma rule_order_elem acc rid d :
  rid ∈ rule_order acc d ↔ ∃ r, r ∈ mail_rules d ∧ rule_at acc rid r.
Proof.
  rewrite rule_order_perm, list_elem_of_fmap. split.
  - intros (r & -> & [Ha Hr]%elem_of_select). by exists r.
  - intros (r & Hr & Ha & <-). exists r. split; [done|]. by apply elem_of_select.
Qed.

Lemma rule_at_count acc rid d :
  wf d → count_where (rule_at acc rid) (mail_rules d) = 1 ↔ rid ∈ rule_order acc d.
Proof.
  intros Hw. rewrite rule_order_elem. split.
  - intros Hone. apply (count_exists (rule_at acc rid)). lia.
  - intros (r & Hr & Ha). pose proof (count_pos_elem (rule_at acc rid) _ r Hr Ha).
    pose proof (count_except mr_id (rule_at acc rid) (λ _, False) (mail_rules d) rid (wf_rule_ids d Hw)
      ltac:(by intros x _ [])) as Hle.
    rewrite (proj2 (count_zero (λ _, False) (mail_rules d))) in Hle by auto. lia.
Qed.

Lemma rule_order_delete acc rid d :
  wf d → rule_order acc (delete_rules (rule_at acc rid) d)
    = filter (λ i, i ≠ rid) (rule_order acc d).
Proof.
  intros Hw. unfold rule_order, account_rules, delete_rules, select_where. simpl.
  assert (filter (λ r, mr_account r = acc) (delete_where (rule_at acc rid) (mail_rules d))
    = filter (λ r, mr_id r ≠ rid) (filter (λ r, mr_account r = acc) (mail_rules d))) as ->.
  { unfold delete_where. rewrite !list_filter_filter. apply list_filter_iff.
    intros r. unfold rule_at. tauto. }
  rewrite order_by_filter.
  - generalize (order_by rule_position_key (filter (λ r, mr_account r = acc) (mail_rules d))).
    intros l. induction l as [|r l IH]; [done|]. rewrite fmap_cons, !filter_cons, <-IH.
    by destruct (decide (mr_id r ≠ rid)).
  - intros x y [_ Hx]%list_elem_of_filter [_ Hy]%list_elem_of_filter. by apply (rules_key_unique d).
Qed.

(** [delete_mail_rule] succeeds exactly when the account has the rule;
    the account's other rules keep their processing order and no other account's
    rule changes.  The renumbering that follows the deletion never fails. *)
Theorem delete_mail_rule_spec w acc rid :
  inv (w_db w) → w_closed w = false → is_hex32 acc = true → is_hex32 rid = true →
  let '(r, w') := delete_mail_rule acc rid w in
  (r = Ok tt ∧ rid ∈ rule_order acc (w_db w) ∧
     rule_order acc (w_db w') = filter (λ i, i ≠ rid) (rule_order acc (w_db w)) ∧
     other_rules acc (w_db w') = other_rules acc (w_db w)) ∨
  (r = Err MailRuleNotFoundError ∧ rid ∉ rule_order acc (w_db w) ∧ w_db w' = w_db w).
Proof.
  intros Hi Ho Ha Hr. unfold delete_mail_rule, _validate_account_id, _validate_mail_rule_id, _validate_hex32.
  rewrite run_bind, Ha. simpl. rewrite run_bind, Hr. simpl.
  rewrite run_transaction, run_bind by done. simpl. rewrite run_bind. simpl. rewrite run_bind.
  unfold require. destruct (Z.eqb_spec (count_where (rule_at acc rid) (mail_rules (w_db w))) 1) as [Hc|Hc];
    rewrite (rule_at_count _ _ _ (proj1 Hi)) in Hc; simpl; [|by right].
  set (d1 := delete_rules (rule_at acc rid) (w_db w)).
  assert (Hw1 : wf d1) by (apply wf_delete_rules, Hi).
  destruct (total_run (_compact_mail_rule_positions_locked acc) (λ _ d', d' = set_mail_rules
    (renumbered acc set_position (rule_order acc d1) (mail_rules d1)) d1) (with_db d1 w))
    as ([] & w' & Hrun & Hdb).
  { apply wp_compact; [done| |done]. intros x [_ Hx]%elem_of_delete. by apply (inv_below acc _ Hi). }
  rewrite Hrun. left. pose proof (account_rules_list acc d1 Hw1) as Hl. pose proof Hl as (Hnd & Hin & Hall).
  rewrite Hdb. split; [done|]. split; [done|]. rewrite <-rule_order_delete by apply Hi. split.
  - apply (renumbered_order acc _ _ (compact_repositioner acc)); try done. by apply wf_rule_ids.
  - rewrite (other_rules_renumbered _ _ _ _ _ (compact_repositioner acc)) by done.
    apply select_delete. by intros x Hx [? _].
Qed.

(** ** Updating a rule *)

(** Exceptions of argument checks and row conversions. *)
Definition plain_error (e : exc) : bool :=
  match e with ValueError | UnicodeEncodeError | AuthenticationDataError => true | _ => false end.

Lemma rule_name_err v e : _normalize_mail_rule_name v = Err e → plain_error e = true.
Proof. unfold _normalize_mail_rule_name. case_match; by intros [= <-]. Qed.
Lemma mailbox_err v e : _normalize_mailbox_metadata v = Err e → plain_error e = true.
Proof. unfold _normalize_mailbox_metadata. case_match; by intros [= <-]. Qed.
Lemma canonical_json_err v n e : _canonical_json_object v n = Err e → plain_error e = true.
Proof. unfold _canonical_json_object. repeat case_match; by intros [= <-]. Qed.
Lemma json_database_err v e : _json_object_from_database self v = Err e → plain_error e = true.
Proof. unfold _json_object_from_database. repeat case_match; by intros [= <-]. Qed.
Lemma hex32_err v e : validate_hex32 v = Err e → plain_error e = true.
Proof. unfold validate_hex32. case_match; by intros [= <-]. Qed.

Lemma rule_from_row_err r e : _mail_rule_from_row self r = Err e → plain_error e = true.
Proof.
  unfold _mail_rule_from_row. intros H.
  repeat (apply result_bind_err in H as [H|(? & _ & H)];
    [eauto using hex32_err, rule_name_err, json_database_err, mailbox_err|]). done.
Qed.

(** [m] fails only with such an exception. *)
Definition plain {A} (m : M A) : Prop := ∀ w e w', m w = (Err e, w') → plain_error e = true ∧ w_db w' = w_db w.

Lemma plain_lift {A} (r : result exc A) : (∀ e, r = Err e → plain_error e = true) → plain (lift r).
Proof. intros Hr w e w' [= ? <-]. auto. Qed.
Lemma plain_hex v : plain (_validate_hex32 v).
Proof. intros w e w'. unfold _validate_hex32. destruct (is_hex32 v); [done|]. by intros [= <- <-]. Qed.
Lemma plain_now : plain (_now self).
Proof. intros w e w' [-> ->]%now_err. done. Qed.
Lemma plain_require b : plain (require b ValueError).
Proof. intros w e w'. destruct b; [done|]. by intros [= <- <-]. Qed.

(** Peel a first step that only fails plainly. *)
Lemma plain_bind_err {A B} (m : M A) (f : A → M B) w e w' :
  plain m → (m ≫= f) w = (Err e, w') → plain_error e = false →
  ∃ a w1, m w = (Ok a, w1) ∧ f a w1 = (Err e, w').
Proof.
  intros Hm [H|H]%bind_inv_err He; [|done]. apply Hm in H as [H _]. congruence.
Qed.

Definition rule_edit (name : list Z) (enabled : bool) (expression : json) (target : list Z)
    (stop : bool) (now : Z) (f : rule_row → rule_row) : Prop :=
  ∃ n x t, _normalize_mail_rule_name name = Ok n ∧
    _canonical_json_object expression _MAX_MAIL_RULE_EXPRESSION_BYTES = Ok x ∧
    _normalize_mailbox_metadata target = Ok t ∧ f = set_rule n enabled x t stop now.

Lemma update_rules_at_revision d acc rid n f d' :
  wf d → update_rules (rule_at_revision acc rid n) f d = Some d' →
  d' = set_mail_rules (update_where (rule_at_revision acc rid n) f (mail_rules d)) d.
Proof. intros Hw Hu. by apply update_rules_Some in Hu as [-> _]. Qed.

Lemma rule_from_row_ok row rule :
  _mail_rule_from_row self row = Ok rule →
  rule_id rule = mr_id row ∧ rule_revision rule = mr_revision row ∧ rule_position rule = mr_position row.
Proof.
  unfold _mail_rule_from_row. intros H.
  apply result_bind_ok in H as (i & Hi & H). apply result_bind_ok in H as (acc & _ & H).
  apply result_bind_ok in H as (nm & _ & H). apply result_bind_ok in H as (x & _ & H).
  apply result_bind_ok in H as (t & _ & H). injection H as <-. simpl.
  revert Hi. unfold validate_hex32. destruct (is_hex32 _); [|done]. by intros [= ->].
Qed.

Lemma rule_at_revision_count acc rid n d :
  wf d → count_where (rule_at_revision acc rid n) (mail_rules d) = 1 ↔
    ∃ r, r ∈ mail_rules d ∧ rule_at_revision acc rid n r.
Proof.
  intros Hw. split; [intros Hone; apply (count_exists (rule_at_revision acc rid n)); lia|].
  intros (r & Hr & Ha). pose proof (count_pos_elem (rule_at_revision acc rid n) _ r Hr Ha).
  pose proof (count_except mr_id (rule_at_revision acc rid n) (λ _, False) (mail_rules d) rid
    (wf_rule_ids d Hw) ltac:(by intros x _ (_ & ? & _))) as Hle.
  rewrite (proj2 (count_zero (λ _, False) (mail_rules d))) in Hle by auto. lia.
Qed.

(** The transaction of [update_mail_rule]. *)
Definition edit_body (acc rid : list Z) (n : Z) (f : rule_row → rule_row) : M (option rule_row) :=
  changed ← query (λ d, count_where (rule_at_revision acc rid n) (mail_rules d));
  exec_checked (update_rules (rule_at_revision acc rid n) f) ;;
  (if negb (changed =? 1) then
     exists_ ← query (λ d, lookup_where (rule_at acc rid) (mail_rules d));
     match exists_ with
     | None => throw MailRuleNotFoundError
     | Some _ => throw MailRuleConflictError
     end
   else mret tt) ;;
  query (λ d, lookup_where (λ r, mr_id r = rid) (mail_rules d)).

Lemma edit_body_ok acc rid n f w o w' :
  inv (w_db w) → (∀ r, mr_id (f r) = mr_id r) → edit_body acc rid n f w = (Ok o, w') →
  ∃ row, row ∈ mail_rules (w_db w) ∧ rule_at_revision acc rid n row ∧ o = Some (f row) ∧
    w_db w' = set_mail_rules (update_where (rule_at_revision acc rid n) f (mail_rules (w_db w))) (w_db w).
Proof.
  intros [Hw _] Hid H. unfold edit_body in H.
  apply bind_inv_ok in H as (c & w1 & [-> ->]%query_inv_ok & H).
  apply bind_inv_ok in H as (? & w2 & (d & Hu & ->)%exec_checked_inv_ok & H).
  apply update_rules_at_revision in Hu as ->; [|done].
  apply bind_inv_ok in H as (? & w3 & Hc & [-> ->]%query_inv_ok).
  destruct (Z.eqb_spec (count_where (rule_at_revision acc rid n) (mail_rules (w_db w))) 1) as [Hone|];
    simpl in Hc; cycle 1.
  { apply bind_inv_ok in Hc as (o & w4 & _ & Hc). by destruct o. }
  apply ret_inv_ok in Hc as [_ ->]. apply rule_at_revision_count in Hone as (row & Hrow & Hat); [|done].
  exists row. split; [done|]. split; [done|]. split; [|done]. simpl.
  destruct Hat as (Ha & Hi & Hn). rewrite <-Hi, <-(Hid row).
  apply lookup_where_key.
  - rewrite (key_update mr_id) by auto. by apply wf_rule_ids.
  - apply elem_of_update. exists row. split; [done|]. by rewrite decide_True.
  - done.
Qed.

Lemma edit_body_err acc rid n f w e w' :
  wf (w_db w) → edit_body acc rid n f w = (Err e, w') → e ≠ IntegrityError →
  e = MailRuleNotFoundError ∧ rid ∉ rule_order acc (w_db w) ∨
  e = MailRuleConflictError ∧
    ∃ row, row ∈ mail_rules (w_db w) ∧ rule_at acc rid row ∧ mr_revision row ≠ n.
Proof.
  intros Hw H He. unfold edit_body in H.
  apply bind_inv_err in H as [H|(c & w1 & [-> ->]%query_inv_ok & H)]; [done|].
  apply bind_inv_err in H as [H|(? & w2 & (d & Hu & ->)%exec_checked_inv_ok & H)].
  { revert H. unfold exec_checked. destruct (update_rules _ _ _); [done|]. by intros [= <- _]. }
  apply bind_inv_err in H as [H|(? & w3 & _ & H)]; [|done].
  destruct (Z.eqb_spec (count_where (rule_at_revision acc rid n) (mail_rules (w_db w))) 1) as [|Hne];
    [done|]. rewrite (rule_at_revision_count _ _ _ _ Hw) in Hne. simpl in H.
  apply update_rules_at_revision in Hu as ->; [|done].
  apply bind_inv_err in H as [H|(o & w4 & [-> ->]%query_inv_ok & H)]; [done|]. simpl in H.
  rewrite update_where_nomatch in H by (intros r Hr Hat; apply Hne; eauto).
  destruct (lookup_where _ _) as [row|] eqn:Hl; injection H as <- _.
  - right. split; [done|]. apply lookup_where_Some in Hl as [Hat Hrow]. exists row. split_and!; try apply Hat; [done|].
    intros Hn. apply Hne. exists row. split; [done|]. destruct Hat. by split_and!.
  - left. split; [done|]. rewrite lookup_where_None in Hl. rewrite rule_order_elem.
    intros (r & Hr & Hat). by eapply Hl.
Qed.

(** [update_mail_rule] is an optimistic write.  It returns only if the
    account's rule was at the expected revision; the rule then has the new
    contents at the next revision and keeps its position, and no other rule
    changes.  A conflict means the rule exists at another revision, and changes
    nothing; not-found means the account has no such rule. *)
Theorem update_mail_rule_spec w acc rid n name enabled expression target stop r w' :
  inv (w_db w) →
  update_mail_rule self acc rid n name enabled expression target stop w = (r, w') →
  match r with
  | Ok rule => ∃ now row f, row ∈ mail_rules (w_db w) ∧ rule_at_revision acc rid n row ∧
      rule_edit name enabled expression target stop now f ∧
      w_db w' = set_mail_rules (update_where (rule_at_revision acc rid n) f (mail_rules (w_db w))) (w_db w) ∧
      rule_revision rule = n + 1 ∧ rule_position rule = mr_position row ∧ rule_id rule = rid
  | Err MailRuleConflictError => w_db w' = w_db w ∧
      ∃ row, row ∈ mail_rules (w_db w) ∧ rule_at acc rid row ∧ mr_revision row ≠ n
  | Err MailRuleNotFoundError => w_db w' = w_db w ∧ rid ∉ rule_order acc (w_db w)
  | Err _ => True
  end.
Proof.
  intros Hi H. unfold update_mail_rule in H. destruct r as [rule|e].
  - apply bind_inv_ok in H as (? & w1 & (_ & -> & ->)%hex32_inv_ok & H).
    apply bind_inv_ok in H as (? & w2 & (_ & -> & ->)%hex32_inv_ok & H).
    apply bind_inv_ok in H as (? & w3 & [_ ->]%require_inv_ok & H).
    apply bind_inv_ok in H as (nm & w4 & [Hnm ->]%lift_inv_ok & H).
    apply bind_inv_ok in H as (ex & w5 & [Hx ->]%lift_inv_ok & H).
    apply bind_inv_ok in H as (t & w6 & [Ht ->]%lift_inv_ok & H).
    apply bind_inv_ok in H as (now & w7 & [_ [_ ->]]%now_inv_ok & H).
    apply bind_inv_ok in H as (o & w8 & Hb & H). apply transaction_inv_ok in Hb as [_ Hb].
    apply (edit_body_ok _ _ _ (set_rule nm enabled ex t stop now)) in Hb as (row & Hrow & Hat & -> & Hdb);
      [|done|done].
    simpl in H. apply bind_inv_ok in H as (? & w9 & [<- ->]%ret_inv_ok & [Hr ->]%lift_inv_ok).
    apply rule_from_row_ok in Hr as (Hrid & Hrev & Hpos). exists now, row, (set_rule nm enabled ex t stop now).
    split; [done|]. split; [done|]. split; [by exists nm, ex, t|]. split; [done|]. simpl in *.
    destruct Hat as (_ & Hid & Hn). split; [lia|]. split; congruence.
  - assert (Hcase : plain_error e = false → e ≠ IntegrityError → e ≠ RuntimeError →
      w_db w' = w_db w ∧ (e = MailRuleNotFoundError ∧ rid ∉ rule_order acc (w_db w) ∨
      e = MailRuleConflictError ∧
      ∃ row, row ∈ mail_rules (w_db w) ∧ rule_at acc rid row ∧ mr_revision row ≠ n)).
    { intros He Hie Hre.
      apply plain_bind_err in H as (? & w1 & (_ & -> & ->)%hex32_inv_ok & H); [|apply plain_hex|done].
      apply plain_bind_err in H as (? & w2 & (_ & -> & ->)%hex32_inv_ok & H); [|apply plain_hex|done].
      apply plain_bind_err in H as (? & w3 & [_ ->]%require_inv_ok & H); [|apply plain_require|done].
      apply plain_bind_err in H as (nm & w4 & [_ ->]%lift_inv_ok & H); [|apply plain_lift, rule_name_err|done].
      apply plain_bind_err in H as (ex & w5 & [_ ->]%lift_inv_ok & H); [|apply plain_lift, canonical_json_err|done].
      apply plain_bind_err in H as (t & w6 & [_ ->]%lift_inv_ok & H); [|apply plain_lift, mailbox_err|done].
      apply plain_bind_err in H as (now & w7 & [_ [_ ->]]%now_inv_ok & H); [|apply plain_now|done].
      apply bind_inv_err in H as [H|(o & w8 & _ & H)].
      - split; [by apply transaction_err_db in H|]. apply transaction_inv_err in H as [?|[w9 H]]; [done|].
        by apply (edit_body_err _ _ _ (set_rule nm enabled ex t stop now)) in H; [|apply Hi|].
      - exfalso. apply plain_bind_err in H as (row & w9 & _ & H);
          [|by intros v e' v'; destruct o; intros [= <- <-]|done].
        apply (plain_lift _ (rule_from_row_err row)) in H as [? _]. congruence. }
    destruct e; try done; destruct Hcase as [Hdb [[? ?]|[? ?]]]; done || by split.
Qed.

End RuleSpecs.

(** ** Witnesses: two rules of the demonstration account *)

Notation demo_rule name :=
  (create_mail_rule demo_store demo_account name true (JObj []) (u "Archive") false) (only parsing).

Definition demo_r1 : world := (demo_rule (u "first") demo_1).2.
Definition demo_r2 : world := (demo_rule (u "second") demo_r1).2.
Definition demo_ids : list (list Z) := rule_order demo_account (w_db demo_r2).
Definition demo_rule_id : list Z := default [] (head demo_ids).

Notation demo_edit n := (update_mail_rule demo_store demo_account demo_rule_id n (u "renamed") false
  (JObj []) (u "Junk") true) (only parsing).

Example demo_rule_outcomes :
  w_closed demo_r2 = false ∧ is_hex32 demo_account = true ∧ is_hex32 demo_rule_id = true ∧
  forallb is_hex32 (reverse demo_ids) = true ∧ zlen demo_ids = 2 ∧
  is_ok (demo_edit 1 demo_r2).1 = true.
Proof. vm_compute. repeat split. Qed.

Lemma demo_reachable_r2 : reachable demo_store demo_webauthn demo_r2.
Proof.
  exact (reach_step _ _ (demo_rule (u "second")) demo_r1
    (reach_step _ _ (demo_rule (u "first")) demo_1 demo_reachable_1 (m_create_mail_rule _ _ _ _ _ _ _ _))
    (m_create_mail_rule _ _ _ _ _ _ _ _)).
Qed.

Lemma demo_inv_r2 : inv (w_db demo_r2).
Proof. exact (reachable_inv _ _ _ demo_reachable_r2). Qed.

Lemma forallb_Forall_1 {A} (p : A → bool) l : forallb p l = true → Forall (λ x, p x = true) l.
Proof.
  rewrite forallb_forall. intros H. apply Forall_forall. intros x Hx. by apply H, list_elem_of_In.
Qed.

Lemma demo_hex_ids : Forall (λ i, is_hex32 i = true) (reverse demo_ids).
Proof. destruct demo_rule_outcomes as (_ & _ & _ & H & _). exact (forallb_Forall_1 _ _ H). Qed.

Lemma demo_edit_run : ∃ rule, demo_edit 1 demo_r2 = (Ok rule, (demo_edit 1 demo_r2).2).
Proof. destruct demo_rule_outcomes as (_ & _ & _ & _ & _ & H). exact (ok_run _ _ H). Qed.

(** Reversing the order of two rules. *)
Lemma reorder_mail_rules_spec_witness :
  (reorder_mail_rules demo_store demo_account (reverse demo_ids) demo_r2).1 = Ok tt ∧
  rule_order demo_account
    (w_db (reorder_mail_rules demo_store demo_account (reverse demo_ids) demo_r2).2) = reverse demo_ids.
Proof.
  destruct demo_rule_outcomes as (Ho & Ha & _).
  pose proof (reorder_mail_rules_spec demo_store demo_r2 demo_account (reverse demo_ids) _ demo_inv_r2
    Ho (demo_reads demo_r2) Ha demo_hex_ids) as H.
  destruct (reorder_mail_rules demo_store demo_account (reverse demo_ids) demo_r2) as [r w'].
  destruct H as [(Hr & _ & Hids & _)|(_ & Hn & _)]; [split; [exact Hr|exact Hids]|].
  destruct Hn. apply reverse_Permutation.
Defined.

Lemma delete_mail_rule_spec_witness :
  rule_order demo_account (w_db (delete_mail_rule demo_account demo_rule_id demo_r2).2)
  = filter (λ i, i ≠ demo_rule_id) demo_ids.
Proof.
  destruct demo_rule_outcomes as (Ho & Ha & Hr & _ & Hl & _).
  pose proof (delete_mail_rule_spec demo_r2 demo_account demo_rule_id demo_inv_r2 Ho Ha Hr) as H.
  destruct (delete_mail_rule demo_account demo_rule_id demo_r2) as [r w'].
  destruct H as [(_ & _ & Hids & _)|(_ & Hn & _)]; [exact Hids|].
  destruct Hn. unfold demo_rule_id. fold demo_ids. destruct demo_ids as [|i l]; [done|]. left.
Defined.

Lemma update_mail_rule_spec_witness :
  ∃ rule, demo_edit 1 demo_r2 = (Ok rule, (demo_edit 1 demo_r2).2) ∧ rule_revision rule = 2.
Proof.
  destruct demo_edit_run as [rule H]. exists rule.
  destruct (update_mail_rule_spec demo_store demo_r2 demo_account demo_rule_id 1 _ _ _ _ _ (Ok rule) _
    demo_inv_r2 H) as (now & row & f & _ & _ & _ & _ & Hrev & _).
  split; [exact H|exact Hrev].
Defined.

(** * Existing-mail runs: the life cycle of a run

    A run is QUEUED or RUNNING until [update_mail_rule_run] gives it one of the
    final statuses; from then on the method refuses it. *)

From S2P Require Import Prelude Text Errors Sql Totp Identity Json AuthDb AuthCore AuthStore AuthPasskey AuthRate AuthRules AuthDemo AuthWp AuthInv AuthSafe AuthSafeRules AuthReach AuthRun AuthLogin.

#[local] Set Default Proof Using "Type*".

Section RunSpecs.
Context (self : store).

(** What an accepted update writes. *)
Definition started_after (status : RunStatus) (now : Z) (row : run_row) : option Z :=
  match status, ru_started row with RUNNING, None => Some now | _, s => s end.

Definition finished_after (status : RunStatus) (now : Z) : option Z :=
  if final_status status then Some now else None.

Lemma update_runs_Some d (P : run_row → Prop) `{!∀ r, Decision (P r)} f d' :
  wf d → update_runs P f d = Some d' → d' = set_mail_runs (update_where P f (mail_runs d)) d.
Proof.
  intros Hw. unfold update_runs. destruct (forallb _ _); [|done].
  destruct (update_unique _ _ _ _ _) as [t|] eqn:Hu; [|done]. intros [= <-].
  by apply update_unique_ok in Hu as [-> _]; [|apply run_conflict_sym|apply (wf_runs d Hw)].
Qed.

(** The transaction of [update_mail_rule_run]. *)
Definition run_body (acc rid state : list Z) (status : RunStatus) (scanned matched moved failed : Z)
    (error : option (list Z)) (now : Z) : M (option run_row) :=
  current ← query (λ d, lookup_where (run_at acc rid) (mail_runs d));
  match current with
  | None => throw MailRuleNotFoundError
  | Some r =>
      if final_status (ru_status r) then throw MailRuleConflictError
      else
        let started := match status, ru_started r with
                       | RUNNING, None => Some now
                       | _, started => started
                       end in
        let finished := if final_status status then Some now else None in
        exec_checked (update_runs (run_at acc rid)
          (set_run state status scanned matched moved failed started now finished error)) ;;
        query (λ d, lookup_where (λ r, ru_id r = rid) (mail_runs d))
  end.

Lemma run_row_unique d acc rid r :
  wf d → r ∈ mail_runs d → run_at acc rid r → lookup_where (run_at acc rid) (mail_runs d) = Some r.
Proof.
  intros Hw Hr Hat. destruct (lookup_where _ _) as [r'|] eqn:Hl.
  - apply lookup_where_Some in Hl as [[_ Hid] Hr']. f_equal.
    eapply (NoDup_key_eq ru_id); [by apply wf_run_ids|done|done|]. destruct Hat. congruence.
  - rewrite lookup_where_None in Hl. by apply Hl in Hr.
Qed.

Lemma run_body_ok acc rid state status s m v f error now w o w' :
  wf (w_db w) → run_body acc rid state status s m v f error now w = (Ok o, w') →
  ∃ row, row ∈ mail_runs (w_db w) ∧ run_at acc rid row ∧ final_status (ru_status row) = false ∧
    let g := set_run state status s m v f (started_after status now row) now
               (finished_after status now) error in
    o = Some (g row) ∧ w_db w' = set_mail_runs (update_where (run_at acc rid) g (mail_runs (w_db w))) (w_db w).
Proof.
  intros Hw H. unfold run_body in H.
  apply bind_inv_ok in H as (c & w1 & [-> ->]%query_inv_ok & H).
  destruct (lookup_where _ _) as [row|] eqn:Hl; [|done].
  apply lookup_where_Some in Hl as [Hat Hrow].
  destruct (final_status (ru_status row)) eqn:Hf; [done|].
  apply bind_inv_ok in H as (? & w2 & (d & Hu & ->)%exec_checked_inv_ok & [-> ->]%query_inv_ok).
  apply update_runs_Some in Hu as ->; [|done].
  exists row. split; [done|]. split; [done|]. split; [done|]. split; [|done]. simpl.
  destruct Hat as [Ha Hid]. rewrite <-Hid. apply (lookup_where_key ru_id).
  - rewrite (key_update ru_id) by done. by apply wf_run_ids.
  - apply elem_of_update. exists row. split; [done|]. by rewrite decide_True.
  - done.
Qed.

Lemma run_from_row_ok row run :
  _mail_rule_run_from_row self row = Ok run →
  run_status run = ru_status row ∧ run_started_at run = ru_started row ∧
  run_finished_at run = ru_finished row.
Proof.
  unfold _mail_rule_run_from_row. intros H.
  apply result_bind_ok in H as (? & _ & H). apply result_bind_ok in H as (? & _ & H).
  apply result_bind_ok in H as (? & _ & H). apply result_bind_ok in H as (? & _ & H).
  apply result_bind_ok in H as (? & _ & H). by injection H as <-.
Qed.

Lemma run_from_row_err row e : _mail_rule_run_from_row self row = Err e → plain_error e = true.
Proof.
  unfold _mail_rule_run_from_row. intros H.
  apply result_bind_err in H as [H|(? & _ & H)]; [by eapply hex32_err|].
  apply result_bind_err in H as [H|(? & _ & H)]; [by eapply hex32_err|].
  apply result_bind_err in H as [H|(? & _ & H)].
  { destruct (ru_rule row) as [i|]; [|done].
    apply result_bind_err in H as [H|(? & _ & H)]; [by eapply hex32_err|done]. }
  apply result_bind_err in H as [H|(? & _ & H)]; [by eapply json_database_err|].
  apply result_bind_err in H as [H|(? & _ & H)]; [by eapply json_database_err|done].
Qed.

(** [update_mail_rule_run] returns only for a run of the account that is not
    final; the run gets the new state, status and counters, its start time is set
    when it first becomes RUNNING, its finish time exactly when the new status is
    final, and no other run changes.  A conflict means the run is final, and
    changes nothing. *)
Theorem update_mail_rule_run_spec w acc rid state status s m v f error r w' :
  inv (w_db w) →
  update_mail_rule_run self acc rid state status s m v f error w = (r, w') →
  match r with
  | Ok run => ∃ now row text, row ∈ mail_runs (w_db w) ∧ run_at acc rid row ∧
      final_status (ru_status row) = false ∧
      _canonical_json_object state _MAX_MAIL_RULE_STATE_BYTES = Ok text ∧
      0 ≤ s ∧ 0 ≤ m ∧ 0 ≤ v ∧ 0 ≤ f ∧ run_status run = status ∧
      run_finished_at run = finished_after status now ∧ run_started_at run = started_after status now row ∧
      w_db w' = set_mail_runs (update_where (run_at acc rid)
        (set_run text status s m v f (started_after status now row) now (finished_after status now) error)
        (mail_runs (w_db w))) (w_db w)
  | Err MailRuleConflictError => w_db w' = w_db w ∧
      ∃ row, row ∈ mail_runs (w_db w) ∧ run_at acc rid row ∧ final_status (ru_status row) = true
  | Err MailRuleNotFoundError => w_db w' = w_db w ∧
      ∀ row, row ∈ mail_runs (w_db w) → ¬ run_at acc rid row
  | Err _ => True
  end.
Proof.
  intros Hi H. unfold update_mail_rule_run in H. destruct r as [run|e].
  - apply bind_inv_ok in H as (? & w1 & (_ & -> & ->)%hex32_inv_ok & H).
    apply bind_inv_ok in H as (? & w2 & (_ & -> & ->)%hex32_inv_ok & H).
    apply bind_inv_ok in H as (? & w3 & [Hc ->]%require_inv_ok & H).
    apply bind_inv_ok in H as (? & w4 & [_ ->]%require_inv_ok & H).
    apply bind_inv_ok in H as (text & w5 & [Ht ->]%lift_inv_ok & H).
    apply bind_inv_ok in H as (now & w6 & [_ [_ ->]]%now_inv_ok & H).
    apply bind_inv_ok in H as (o & w7 & Hb & H). apply transaction_inv_ok in Hb as [_ Hb].
    apply run_body_ok in Hb as (row & Hrow & Hat & Hf & -> & Hdb); [|apply Hi].
    apply bind_inv_ok in H as (? & w8 & [<- ->]%ret_inv_ok & [Hr ->]%lift_inv_ok).
    apply run_from_row_ok in Hr as (Hst & Hsd & Hfd). exists now, row, text.
    split; [done|]. split; [done|]. split; [done|]. split; [done|].
    do 4 (split; [lia|]). by split_and!.
  - assert (Hcase : plain_error e = false → e ≠ IntegrityError → e ≠ RuntimeError →
      w_db w' = w_db w ∧ match lookup_where (run_at acc rid) (mail_runs (w_db w)) with
        | None => e = MailRuleNotFoundError
        | Some row => e = MailRuleConflictError ∧ final_status (ru_status row) = true
        end).
    { intros He Hie Hre.
      apply plain_bind_err in H as (? & w1 & (_ & -> & ->)%hex32_inv_ok & H); [|apply plain_hex|done].
      apply plain_bind_err in H as (? & w2 & (_ & -> & ->)%hex32_inv_ok & H); [|apply plain_hex|done].
      apply plain_bind_err in H as (? & w3 & [_ ->]%require_inv_ok & H); [|apply plain_require|done].
      apply plain_bind_err in H as (? & w4 & [_ ->]%require_inv_ok & H); [|apply plain_require|done].
      apply plain_bind_err in H as (t & w5 & [_ ->]%lift_inv_ok & H); [|apply plain_lift, canonical_json_err|done].
      apply plain_bind_err in H as (now & w6 & [_ [_ ->]]%now_inv_ok & H); [|apply plain_now|done].
      apply bind_inv_err in H as [H|(o & w8 & _ & H)].
      - split; [by apply transaction_err_db in H|]. apply transaction_inv_err in H as [?|[w9 H]]; [done|].
        apply bind_inv_err in H as [H|(c & w10 & [-> ->]%query_inv_ok & H)]; [done|]. simpl in H.
        destruct (lookup_where _ _) as [row|] eqn:Hl; [|by injection H as <- _].
        destruct (final_status (ru_status row)) eqn:Hf; [by injection H as <- _|].
        apply bind_inv_err in H as [H|(? & w11 & _ & H)]; [|done].
        revert H. unfold exec_checked. destruct (update_runs _ _ _); [done|]. by intros [= <- _].
      - exfalso. apply plain_bind_err in H as (row & w9 & _ & H);
          [|by intros u e' u'; destruct o; intros [= <- <-]|done].
        apply (plain_lift _ (run_from_row_err row)) in H as [? _]. congruence. }
    destruct (lookup_where _ _) as [row|] eqn:Hl.
    + destruct e; try done; destruct Hcase as [Hdb [? Hf]]; try done.
      split; [done|]. apply lookup_where_Some in Hl as [??]. by exists row.
    + destruct e; try done; destruct Hcase as [Hdb ?]; try done.
      split; [done|]. by rewrite lookup_where_None in Hl.
Qed.

Lemma final_run_body w acc rid row state status s m v f error now o w' :
  wf (w_db w) → row ∈ mail_runs (w_db w) → run_at acc rid row → final_status (ru_status row) = true →
  run_body acc rid state status s m v f error now w ≠ (Ok o, w').
Proof.
  intros Hw Hrow Hat Hf H. apply run_body_ok in H as (row' & Hrow' & Hat' & Hf' & _); [|done].
  pose proof (run_row_unique _ _ _ _ Hw Hrow Hat) as H1.
  pose proof (run_row_unique _ _ _ _ Hw Hrow' Hat') as H2. congruence.
Qed.

Lemma update_final_run w acc rid row state status s m v f error r w' :
  inv (w_db w) → row ∈ mail_runs (w_db w) → run_at acc rid row → final_status (ru_status row) = true →
  update_mail_rule_run self acc rid state status s m v f error w = (r, w') →
  is_ok r = false ∧ w_db w' = w_db w.
Proof.
  intros [Hw _] Hrow Hat Hf H. unfold update_mail_rule_run in H. destruct r as [run|e]; [exfalso|split; [done|]].
  - apply bind_inv_ok in H as (? & w1 & (_ & -> & ->)%hex32_inv_ok & H).
    apply bind_inv_ok in H as (? & w2 & (_ & -> & ->)%hex32_inv_ok & H).
    apply bind_inv_ok in H as (? & w3 & [_ ->]%require_inv_ok & H).
    apply bind_inv_ok in H as (? & w4 & [_ ->]%require_inv_ok & H).
    apply bind_inv_ok in H as (text & w5 & [_ ->]%lift_inv_ok & H).
    apply bind_inv_ok in H as (now & w6 & [_ [_ ->]]%now_inv_ok & H).
    apply bind_inv_ok in H as (o & w7 & Hb & _). apply transaction_inv_ok in Hb as [_ Hb].
    by eapply final_run_body in Hb.
  - apply bind_inv_err in H as [[_ H]%plain_hex|(? & w1 & (_ & -> & ->)%hex32_inv_ok & H)]; [done|].
    apply bind_inv_err in H as [[_ H]%plain_hex|(? & w2 & (_ & -> & ->)%hex32_inv_ok & H)]; [done|].
    apply bind_inv_err in H as [[_ H]%plain_require|(? & w3 & [_ ->]%require_inv_ok & H)]; [done|].
    apply bind_inv_err in H as [[_ H]%plain_require|(? & w4 & [_ ->]%require_inv_ok & H)]; [done|].
    apply bind_inv_err in H as [[_ H]%(plain_lift _ (canonical_json_err _ _))|(t & w5 & [_ ->]%lift_inv_ok & H)]; [done|].
    apply bind_inv_err in H as [[_ H]%plain_now|(now & w6 & [_ [_ ->]]%now_inv_ok & H)]; [done|].
    apply bind_inv_err in H as [H|(o & w8 & Hb & _)]; [by apply transaction_err_db in H|].
    apply transaction_inv_ok in Hb as [_ Hb]. by eapply final_run_body in Hb.
Qed.

(** A final run is immutable: [update_mail_rule_run] and
    [cancel_mail_rule_run] on it raise, and leave the database as it was. *)
Theorem final_run_immutable w acc rid row :
  inv (w_db w) → row ∈ mail_runs (w_db w) → run_at acc rid row → final_status (ru_status row) = true →
  (∀ state status s m v f error r w',
     update_mail_rule_run self acc rid state status s m v f error w = (r, w') →
     is_ok r = false ∧ w_db w' = w_db w) ∧
  (∀ r w', cancel_mail_rule_run self acc rid w = (r, w') → is_ok r = false ∧ w_db w' = w_db w).
Proof.
  intros Hi Hrow Hat Hf. split.
  - intros. by eapply update_final_run.
  - intros r w' H. assert (Hro : readonly (get_mail_rule_run self acc rid)) by
      (unfold get_mail_rule_run, _validate_account_id, _validate_mail_rule_run_id, locked; ro).
    unfold cancel_mail_rule_run in H. rewrite run_bind in H.
    destruct (get_mail_rule_run self acc rid w) as [[run|e] w1] eqn:Hg; apply Hro in Hg.
    + rewrite <-Hg. eapply update_final_run; [by rewrite Hg|by rewrite Hg|exact Hat|exact Hf|exact H].
    + injection H as <- <-. done.
Qed.
End RunSpecs.

(** ** Witnesses: a run of the first demonstration rule *)

Notation demo_start :=
  (create_mail_rule_run demo_store demo_account demo_rule_id (JObj []) (JObj [])) (only parsing).
Definition demo_queued : world := (demo_start demo_r2).2.
Definition demo_run_row : run_row :=
  default (new_run [] [] [] 0 [] [] QUEUED 0 None) (head (mail_runs (w_db demo_queued))).
Notation demo_complete := (update_mail_rule_run demo_store demo_account (ru_id demo_run_row) (JObj [])
  COMPLETED 3 2 1 0 None) (only parsing).
Definition demo_done : world := (demo_complete demo_queued).2.
Definition demo_done_row : run_row :=
  default (new_run [] [] [] 0 [] [] QUEUED 0 None) (head (mail_runs (w_db demo_done))).

Example demo_run_outcomes :
  is_ok (demo_complete demo_queued).1 = true ∧
  (zlen (mail_runs (w_db demo_done)) = 1 ∧ ru_account demo_done_row = demo_account ∧
   ru_id demo_done_row = ru_id demo_run_row ∧ final_status (ru_status demo_done_row) = true).
Proof. vm_compute. repeat split. Qed.

Lemma demo_reachable_queued : reachable demo_store demo_webauthn demo_queued.
Proof. exact (reach_step _ _ demo_start demo_r2 demo_reachable_r2 (m_create_mail_rule_run _ _ _ _ _ _)). Qed.
Lemma demo_reachable_done : reachable demo_store demo_webauthn demo_done.
Proof.
  exact (reach_step _ _ demo_complete demo_queued demo_reachable_queued
    (m_update_mail_rule_run _ _ _ _ _ _ _ _ _ _ _)).
Qed.

Lemma demo_complete_run : ∃ run, demo_complete demo_queued = (Ok run, (demo_complete demo_queued).2).
Proof. destruct demo_run_outcomes as [H _]. exact (ok_run _ _ H). Qed.

Lemma update_mail_rule_run_spec_witness :
  ∃ run now, demo_complete demo_queued = (Ok run, (demo_complete demo_queued).2) ∧
    run_status run = COMPLETED ∧ run_finished_at run = Some now.
Proof.
  destruct demo_complete_run as [run H].
  destruct (update_mail_rule_run_spec demo_store demo_queued demo_account (ru_id demo_run_row) (JObj [])
    COMPLETED 3 2 1 0 None (Ok run) _ (reachable_inv _ _ _ demo_reachable_queued) H)
    as (now & row & text & _ & _ & _ & _ & _ & _ & _ & _ & Hst & Hfin & _).
  exists run, now. split; [exact H|]. split; [exact Hst|exact Hfin].
Defined.

Lemma head_in {A} (x : A) l : zlen l = 1 → default x (head l) ∈ l.
Proof. destruct l as [|y l]; [done|]. intros _. left. Qed.

Lemma final_run_immutable_witness :
  (cancel_mail_rule_run demo_store demo_account (ru_id demo_run_row) demo_done).2.(w_db) = w_db demo_done.
Proof.
  destruct demo_run_outcomes as (_ & Hl & Ha & Hid & Hf).
  refine (proj2 (proj2 (final_run_immutable demo_store demo_done demo_account (ru_id demo_run_row)
    demo_done_row (reachable_inv _ _ _ demo_reachable_done) (head_in _ _ Hl) (conj Ha Hid) Hf) _ _ _)).
  apply surjective_pairing.
Defined.
