(* ===== verification/AuthRateSpecs.v ===== *)
(** * The rate limiter: no window exceeds its limit

    Exact effect of one reservation: which attempts it admits, that an admitted
    attempt stays within every limit, and the delay a refused one is told. *)

From S2P Require Import Prelude Text Errors Sql Totp Identity Json AuthDb AuthCore AuthStore AuthPasskey AuthRate AuthRules AuthDemo AuthWp AuthInv AuthSafe AuthReach AuthRun AuthLogin.

#[local] Set Default Proof Using "Type*".

Section Reserve.
Context (policies : list policy) (identity : RateScope → list Z).
Context (link : RateScope → option (list Z) * option (list Z)).

(** Every window of a limited scope is within its limit. *)
Definition within_limits (d : db) : Prop :=
  ∀ p r, p ∈ policies → r ∈ rate_limits d → l_scope r = po_scope p → l_count r ≤ po_limit p.

(** The caller's own window of the policy admits one more attempt. *)
Definition admits (d : db) (p : policy) : Prop :=
  ∀ r, r ∈ rate_limits d → l_scope r = po_scope p → l_identity r = identity (po_scope p) →
    l_count r < po_limit p.

Definition running (now : Z) (d : db) : Prop :=
  ∀ p r, p ∈ policies → r ∈ rate_limits d → l_scope r = po_scope p → now - po_window p < l_started r.

Definition sane_policies : Prop :=
  NoDup (po_scope <$> policies) ∧ ∀ p, p ∈ policies → 1 ≤ po_limit p ∧ 1 ≤ po_window p.

Lemma sub_within d d' : rate_limits d' ⊆ rate_limits d → within_limits d → within_limits d'.
Proof. intros Hs Hw p r Hp Hr. apply Hw; [done|]. by apply Hs. Qed.

(** The windows are keyed by scope and identity. *)
Definition keyed (d : db) : Prop := NoDup (rate_key <$> rate_limits d).

Lemma run_finished_windows now w w' :
  delete_finished_windows policies now w = (Ok tt, w') →
  rate_limits (w_db w') ⊆ rate_limits (w_db w) ∧ (keyed (w_db w) → keyed (w_db w')) ∧
  running now (w_db w') ∧
  ∀ r, r ∈ rate_limits (w_db w) →
    (∀ p, p ∈ policies → ¬ window_over (po_scope p) (now - po_window p) r) → r ∈ rate_limits (w_db w').
Proof.
  intros H. unfold delete_finished_windows in H.
  assert (Hgen : ∀ ps w, eff_iter (λ p, exec (delete_rate (window_over (po_scope p) (now - po_window p)))) ps w
      = (Ok tt, w') →
    rate_limits (w_db w') ⊆ rate_limits (w_db w) ∧ (keyed (w_db w) → keyed (w_db w')) ∧
    (∀ p r, p ∈ ps → r ∈ rate_limits (w_db w') → l_scope r = po_scope p → now - po_window p < l_started r) ∧
    (∀ r, r ∈ rate_limits (w_db w) →
       (∀ p, p ∈ ps → ¬ window_over (po_scope p) (now - po_window p) r) → r ∈ rate_limits (w_db w'))).
  { clear H w. induction ps as [|p ps IH]; intros w H; simpl in H.
    - injection H as <-. split; [done|]. split; [done|]. split; [|auto].
      intros p r Hp. by apply not_elem_of_nil in Hp.
    - apply bind_inv_ok in H as (? & w1 & ->%exec_inv_ok & H). apply IH in H as (Hs & Hk & Hr & Hkeep). split; [|split; [|split]].
      + intros r Hin%Hs. simpl in Hin. by apply elem_of_delete in Hin as [_ ?].
      + intros Hkw. apply Hk. by apply NoDup_key_filter.
      + intros q r [->|Hq]%elem_of_cons Hin Hsc; [|by eapply Hr].
        apply Hs in Hin. simpl in Hin. apply elem_of_delete in Hin as [Hn _].
        destruct (Z_lt_le_dec (now - po_window p) (l_started r)); [done|]. by destruct Hn.
      + intros r Hin Hno. apply Hkeep; [|intros q Hq; apply Hno; by right].
        simpl. apply elem_of_delete. split; [apply Hno; left|done]. }
  by apply Hgen.
Qed.

Lemma rate_row_at_Some s i t r :
  rate_row_at s i t = Some r → l_scope r = s ∧ l_identity r = i ∧ r ∈ t.
Proof. unfold rate_row_at. intros [[??] ?]%lookup_where_Some. done. Qed.

Lemma upsert_rows p now acc aid d d' :
  upsert_rate (RateRow (po_scope p) (identity (po_scope p)) acc aid now 1) d = Some d' →
  ∀ r, r ∈ rate_limits d' →
    (r ∈ rate_limits d ∧ (l_scope r = po_scope p → l_identity r ≠ identity (po_scope p))) ∨
    (l_scope r = po_scope p ∧ l_identity r = identity (po_scope p) ∧
      (l_count r = 1 ∨ ∃ r0, r0 ∈ rate_limits d ∧ l_scope r0 = po_scope p ∧
         l_identity r0 = identity (po_scope p) ∧ l_count r = l_count r0 + 1)).
Proof.
  unfold upsert_rate. simpl. destruct (rate_row_at _ _ _) as [old|] eqn:Hrow.
  - destruct (update_checked _ _ _ _) as [t|] eqn:Hu; [|done]. intros [= <-].
    apply update_checked_Some in Hu as [-> _]. simpl. intros r (r0 & Hr0 & ->)%elem_of_update.
    case_decide as Hd.
    + right. simpl. destruct Hd. split_and!; try done. right. by exists r0.
    + left. split; [done|]. intros Hs Hi. by apply Hd.
  - destruct (rate_check d _); [|done]. intros [= <-]. simpl. intros r [Hr|Hr]%elem_of_app.
    + left. split; [done|]. intros Hs Hi. unfold rate_row_at in Hrow. rewrite lookup_where_None in Hrow.
      by apply (Hrow r Hr).
    + apply list_elem_of_singleton in Hr as ->. right. simpl. split_and!; try done. by left.
Qed.

Lemma run_upserts ps now w w' :
  NoDup (po_scope <$> ps) → ps ⊆ policies → (∀ p, p ∈ ps → 1 ≤ po_limit p) →
  within_limits (w_db w) → (∀ p, p ∈ ps → admits (w_db w) p) →
  eff_iter (λ p, let '(account, account_identity) := link (po_scope p) in
    exec_checked (upsert_rate (RateRow (po_scope p) (identity (po_scope p)) account
      account_identity now 1))) ps w = (Ok tt, w') →
  NoDup (po_scope <$> policies) → within_limits (w_db w').
Proof.
  intros Hnd Hsub Hlim Hw Hadm H Huniq. revert w Hw Hadm H.
  induction ps as [|p ps IH]; intros w Hw Hadm H; simpl in H; [by injection H as <-|].
  apply bind_inv_ok in H as (? & w1 & H1 & H). destruct (link (po_scope p)) as [acc aid].
  apply exec_checked_inv_ok in H1 as (d & Hu & ->).
  pose proof (upsert_rows _ _ _ _ _ _ Hu) as Hrows. rewrite fmap_cons, NoDup_cons in Hnd.
  destruct Hnd as [Hnp Hnd]. eapply IH; [done|set_solver|set_solver| | |exact H]; simpl.
  - intros q r Hq Hr Hsc. destruct (Hrows r Hr) as [[Hr0 _]|(Hs & Hi & Hc)]; [by eapply Hw|].
    assert (q = p) as -> by (eapply (NoDup_key_eq po_scope policies); [done|done|apply Hsub; left|congruence]).
    destruct Hc as [->|(r0 & Hr0 & Hs0 & Hi0 & ->)]; [apply Hlim; left|].
    specialize (Hadm p ltac:(left) r0 Hr0 Hs0 Hi0). lia.
  - intros q Hq r Hr Hsc Hid. destruct (Hrows r Hr) as [[Hr0 _]|(Hs & _)].
    + by apply (Hadm q (list_elem_of_further _ _ _ Hq) r).
    + exfalso. apply Hnp. rewrite <-Hs, Hsc. by apply list_elem_of_fmap_2.
Qed.

Lemma fold_delay now (rows : list (policy * option rate_row)) z0 :
  let z := foldl (λ acc '(p, row), Z.max acc (window_delay now p row)) z0 rows in
  z0 ≤ z ∧ (∀ p row, (p, row) ∈ rows → window_delay now p row ≤ z) ∧
  (∀ b, z0 ≤ b → (∀ p row, (p, row) ∈ rows → window_delay now p row ≤ b) → z ≤ b).
Proof.
  revert z0. induction rows as [|[q ro] rows IH]; intros z0; simpl.
  - split; [lia|]. split; [|auto]. intros p row Hp. by apply not_elem_of_nil in Hp.
  - destruct (IH (Z.max z0 (window_delay now q ro))) as (H1 & H2 & H3). split; [lia|]. split.
    + intros p row [[= -> ->]|Hp]%elem_of_cons; [lia|by apply H2].
    + intros b Hb Hall. apply H3.
      * pose proof (Hall q ro ltac:(left)). lia.
      * intros p row Hp. apply Hall. by right.
Qed.

Lemma window_delay_range now p row :
  1 ≤ po_window p → window_delay now p row ≤ po_window p.
Proof. intros Hp. unfold window_delay. destruct row; [|lia]. destruct (_ <=? _); lia. Qed.

Lemma window_delay_admits now p d :
  running now d → keyed d → p ∈ policies → 1 ≤ po_window p →
  window_delay now p (rate_row_at (po_scope p) (identity (po_scope p)) (rate_limits d)) ≤ 0 →
  admits d p.
Proof.
  intros Hrun Hk Hp Hw Hdelay r Hr Hs Hi. unfold window_delay in Hdelay.
  destruct (rate_row_at _ _ _) as [r'|] eqn:Hrow.
  - apply rate_row_at_Some in Hrow as (Hs' & Hi' & Hr').
    assert (r' = r) as ->.
    { apply (NoDup_key_eq rate_key (rate_limits d)); [done|done|done|]. unfold rate_key. congruence. }
    destruct (Z.leb_spec (po_limit p) (l_count r)); [|done]. specialize (Hrun p r Hp Hr Hs). lia.
  - unfold rate_row_at in Hrow. rewrite lookup_where_None in Hrow.
    by destruct (Hrow r Hr).
Qed.

Lemma max_window_ge p ps : p ∈ ps → po_window p ≤ max_window ps.
Proof.
  unfold max_window. induction ps as [|q ps IH]; [intros Hp; by apply not_elem_of_nil in Hp|].
  simpl. intros [->|Hp]%elem_of_cons; [lia|]. specialize (IH Hp). lia.
Qed.

Lemma run_reserve now w z w' :
  sane_policies → policies ≠ [] → keyed (w_db w) → within_limits (w_db w) →
  reserve_attempt policies identity link now w = (Ok z, w') →
  within_limits (w_db w') ∧ 0 ≤ z ≤ max_window policies ∧
  (z ≠ 0 → rate_limits (w_db w') ⊆ rate_limits (w_db w)) ∧
  (z = 0 → ∀ p r, p ∈ policies → r ∈ rate_limits (w_db w) → l_scope r = po_scope p →
     l_identity r = identity (po_scope p) → now - po_window p < l_started r → l_count r < po_limit p).
Proof.
  intros [Huniq Hpos] Hne Hk Hw H. unfold reserve_attempt in H.
  apply bind_inv_ok in H as ([] & w1 & (Hs1 & Hk1 & Hrun & Hkeep)%run_finished_windows & H). specialize (Hk1 Hk).
  apply bind_inv_ok in H as (n & w2 & [-> ->]%query_inv_ok & H).
  apply bind_inv_ok in H as (z0 & w3 & Hev & H).
  assert (Hw3 : rate_limits (w_db w3) ⊆ rate_limits (w_db w1) ∧ keyed (w_db w3) ∧
    ((z0 = 0 ∧ w3 = w1) ∨ z0 = max_window policies)).
  { destruct (_ <? _).
    - apply bind_inv_ok in Hev as (? & w4 & ->%exec_inv_ok & [<- ->]%ret_inv_ok). split; [|split].
      + simpl. by intros r [_ ?]%elem_of_delete.
      + by apply NoDup_key_filter.
      + by right.
    - apply ret_inv_ok in Hev as [<- ->]. split; [done|]. split; [done|by left]. }
  destruct Hw3 as (Hs3 & Hk3 & Hz0).
  assert (Hrun3 : running now (w_db w3)) by (intros p r Hp Hr%Hs3; by apply Hrun).
  apply bind_inv_ok in H as (rows & w4 & [-> ->]%query_inv_ok & H). cbv zeta in H.
  set (rows := (λ p, (p, rate_row_at (po_scope p) (identity (po_scope p)) (rate_limits (w_db w3))))
    <$> policies) in *.
  set (z1 := foldl _ z0 rows) in *.
  destruct (fold_delay now rows z0) as (Hge & Hall & Hle). fold z1 in Hge, Hall, Hle.
  assert (Hmw : 1 ≤ max_window policies).
  { destruct policies as [|p ps]; [done|]. destruct (Hpos p ltac:(left)).
    pose proof (max_window_ge p (p :: ps) ltac:(left)). lia. }
  assert (Hz1 : 0 ≤ z1 ≤ max_window policies).
  { split; [lia|]. apply Hle; [lia|]. intros p row Hp. unfold rows in Hp.
    apply list_elem_of_fmap in Hp as (q & [= -> ->] & Hq). destruct (Hpos q Hq).
    etrans; [by apply window_delay_range|]. by apply max_window_ge. }
  apply bind_inv_ok in H as (z2 & w5 & Hz & H).
  assert (Hz2 : w5 = w3 ∧ 0 ≤ z2 ≤ max_window policies ∧ (z2 = 0 → z1 = 0)).
  { destruct (Z.eqb_spec z1 0) as [Hz10|].
    - apply bind_inv_ok in Hz as (m & w6 & [-> ->]%query_inv_ok & [<- ->]%ret_inv_ok).
      split; [done|]. case_match; lia.
    - apply ret_inv_ok in Hz as [<- ->]. done. }
  destruct Hz2 as (-> & Hzr & Hz21).
  apply bind_inv_ok in H as ([] & w6 & Hup & [<- ->]%ret_inv_ok).
  assert (Hw3 : within_limits (w_db w3)) by (eapply sub_within; [|exact Hw]; set_solver).
  unfold when in Hup. destruct (Z.eqb_spec z2 0) as [Hz20|].
  - assert (Hadm : ∀ p, p ∈ policies → admits (w_db w3) p).
    { intros p Hp. apply (window_delay_admits now); try done; [by apply Hpos|].
      rewrite Hz21 in Hall by done. eapply Hall. unfold rows. apply list_elem_of_fmap. by exists p. }
    split; [|split; [done|split; [done|]]].
    + eapply (run_upserts policies); try done. intros p Hp. by apply Hpos.
    + intros _ p r Hp Hr Hsc Hid Hst. apply (Hadm p Hp r); [|done|done].
      destruct Hz0 as [[_ ->]| ->]; [|lia]. apply Hkeep; [done|]. intros q Hq [Hqs Hqw].
      assert (q = p) as -> by (eapply (NoDup_key_eq po_scope policies); [done|done|done|congruence]). lia.
  - apply ret_inv_ok in Hup as [_ ->]. split; [done|]. split; [done|]. split; [|done]. intros _. set_solver.
Qed.
End Reserve.

Lemma login_policies_sane : sane_policies _RATE_POLICIES.
Proof.
  split; [vm_compute; repeat constructor; set_solver|].
  assert (H : Forall (λ p, 1 ≤ po_limit p ∧ 1 ≤ po_window p) _RATE_POLICIES) by (repeat constructor; simpl; lia).
  by rewrite Forall_forall in H.
Qed.

Section Rate.
Context (self : store).

(** [check_login_rate] keeps every window within its limit (120 attempts
    globally, 30 per address, 15 per account, 10 per pair).  It admits an
    attempt only when none of the caller's running windows is full; a refusal
    counts nothing and tells a delay of at most 15 minutes. *)
Theorem check_login_rate_spec w email ip r w' :
  inv (w_db w) → within_limits _RATE_POLICIES (w_db w) →
  check_login_rate self email ip w = (r, w') →
  within_limits _RATE_POLICIES (w_db w') ∧
  match r with
  | Ok _ => ∃ now canonical address identities, reads self w now ∧
      canonicalize_email email = Ok canonical ∧ _canonical_ip self ip = Ok address ∧
      _rate_identities self canonical address = Ok identities ∧
      ∀ p x, p ∈ _RATE_POLICIES → x ∈ rate_limits (w_db w) → l_scope x = po_scope p →
        l_identity x = identities (po_scope p) → now - po_window p < l_started x → l_count x < po_limit p
  | Err (LoginRateLimitedError n) => 1 ≤ n ≤ 900 ∧ rate_limits (w_db w') ⊆ rate_limits (w_db w)
  | Err _ => w_db w' = w_db w
  end.
Proof.
  intros [Hi _] Hw H. unfold check_login_rate in H.
  assert (Hk : keyed (w_db w)) by apply wf_rate_keys, Hi.
  destruct r as [[]|e].
  - apply bind_inv_ok in H as (canonical & w1 & [Hc ->]%lift_inv_ok & H).
    apply bind_inv_ok in H as (address & w2 & [Ha ->]%lift_inv_ok & H).
    apply bind_inv_ok in H as (now & w3 & [_ [Hn ->]]%now_inv_ok & H).
    apply bind_inv_ok in H as (ids & w4 & [Hid ->]%lift_inv_ok & H).
    apply bind_inv_ok in H as (z & w5 & Ht & H). apply transaction_inv_ok in Ht as [_ Ht].
    apply bind_inv_ok in Ht as (row & w6 & [-> ->]%query_inv_ok & Ht).
    apply run_reserve in Ht as (Hlim & _ & _ & Hadm); [|apply login_policies_sane|done|done|done].
    unfold raise_if_limited in H. destruct (Z.eqb_spec z 0) as [->|]; [|done].
    apply ret_inv_ok in H as [_ ->]. split; [done|]. exists now, canonical, address, ids.
    split; [done|]. split; [done|]. split; [done|]. split; [done|]. by apply Hadm.
  - assert (Hsame : w_db w' = w_db w → (∀ n, e ≠ LoginRateLimitedError n) →
      within_limits _RATE_POLICIES (w_db w') ∧ match e with
      | LoginRateLimitedError n => 1 ≤ n ≤ 900 ∧ rate_limits (w_db w') ⊆ rate_limits (w_db w)
      | _ => w_db w' = w_db w end).
    { intros -> He. split; [done|]. destruct e; try done. by destruct (He retry_after). }
    apply bind_inv_err in H as [H|(canonical & w1 & [Hc ->]%lift_inv_ok & H)].
    { injection H as H ->. apply canonicalize_email_err in H as ->. by apply Hsame. }
    apply bind_inv_err in H as [H|(address & w2 & [Ha ->]%lift_inv_ok & H)].
    { injection H as H ->. unfold _canonical_ip in H. destruct (ip_address _ _); [done|].
      injection H as <-. by apply Hsame. }
    apply bind_inv_err in H as [[-> Hdb]%now_err|(now & w3 & [_ [Hn ->]]%now_inv_ok & H)]; [by apply Hsame|].
    apply bind_inv_err in H as [H|(ids & w4 & [Hid ->]%lift_inv_ok & H)].
    { injection H as H <-. unfold _rate_identities, ascii_bytes in H.
      destruct (is_ascii canonical); [|by injection H as <-; apply Hsame].
      simpl in H. destruct (is_ascii address); [done|]. by injection H as <-; apply Hsame. }
    apply bind_inv_err in H as [H|(z & w5 & Ht & H)].
    { apply Hsame; [by apply transaction_err_db in H|]. intros n. eapply quiet_transaction; [done| |exact H].
      unfold reserve_attempt, delete_finished_windows. cbv zeta. solve_quiet. }
    apply transaction_inv_ok in Ht as [_ Ht].
    apply bind_inv_ok in Ht as (row & w6 & [-> ->]%query_inv_ok & Ht).
    apply run_reserve in Ht as (Hlim & Hz & Hsub & _); [|apply login_policies_sane|done|done|done].
    unfold raise_if_limited in H. destruct (Z.eqb_spec z 0) as [|Hne]; [done|]. injection H as <- <-.
    split; [done|]. change (max_window _RATE_POLICIES) with 900 in Hz. split; [lia|by apply Hsub].
Qed.
End Rate.

(** ** Witness *)

Notation demo_attempt := (check_login_rate demo_store demo_email (u "192.0.2.1")) (only parsing).

Lemma within_limits_empty w : rate_limits (w_db w) = [] → within_limits _RATE_POLICIES (w_db w).
Proof. intros He p r _ Hr. rewrite He in Hr. by apply not_elem_of_nil in Hr. Qed.

Example demo_attempt_admitted : is_ok (demo_attempt demo_0).1 = true.
Proof. vm_compute. reflexivity. Qed.

(** The first attempt is admitted and leaves every window within its limit. *)
Lemma check_login_rate_spec_witness :
  is_ok (demo_attempt demo_0).1 = true ∧ within_limits _RATE_POLICIES (w_db (demo_attempt demo_0).2).
Proof.
  split; [exact demo_attempt_admitted|].
  destruct (ok_run _ _ demo_attempt_admitted) as [[] H].
  exact (proj1 (check_login_rate_spec demo_store demo_0 demo_email (u "192.0.2.1") _ _
    (reachable_inv _ _ _ demo_reachable_0) (within_limits_empty demo_0 eq_refl) H)).
Defined.
