(* ===== verification/AuthPasskeySpecs.v ===== *)
(** * Passkeys: what a verified assertion establishes

    The exact effect of [verify_passkey_login]: the challenge is consumed, the
    signature counter moves forward, the identity is the credential's account. *)

From S2P Require Import Prelude Text Errors Sql Totp Identity Json AuthDb AuthCore AuthStore AuthPasskey AuthRate AuthRules AuthDemo AuthWp AuthInv AuthSafe AuthReach AuthRun AuthLogin.

#[local] Set Default Proof Using "Type*".

Section PasskeySpecs.
Context (self : store) (wa : webauthn).

Lemma attempt_inv {A} classes (m : M A) w a w' :
  attempt classes m w = (Ok (Some a), w') → m w = (Ok a, w').
Proof.
  unfold attempt. destruct (m w) as [[b|e] w1]; [by intros [= <- <-]|]. by destruct (classes e).
Qed.

(** The counter rule: a counter that is used at all strictly grows. *)
Definition counter_advances (old new : Z) : Prop := old < new ∨ (old = 0 ∧ new = 0).

Lemma bad_sign_count_spec new current :
  0 ≤ current → bad_sign_count new current = false ↔ counter_advances current new.
Proof. unfold bad_sign_count, counter_advances. lia. Qed.

Lemma update_passkeys_Some d P `{!∀ r, Decision (P r)} f d' :
  update_passkeys P f d = Some d' → d' = set_passkeys (update_where P f (passkeys d)) d.
Proof.
  unfold update_passkeys. destruct (update_checked _ _ _ _) as [t|] eqn:Hu; [|done]. intros [= <-].
  by apply update_checked_Some in Hu as [-> _].
Qed.

Lemma passkey_count_nonneg d p : wf d → p ∈ passkeys d → 0 ≤ p_sign_count p.
Proof.
  intros Hw Hp. destruct (wf_passkeys d Hw) as [Hc _]. rewrite Forall_forall in Hc.
  specialize (Hc p Hp). simpl in Hc. unfold passkey_check in Hc. lia.
Qed.

Lemma verify_assertion_inv cred challenge account rp origin now w v w' :
  wf (w_db w) →
  _verify_passkey_assertion_locked wa cred challenge account rp origin now w = (Ok v, w') →
  ∃ parsed p, _parse_authentication_credential wa cred = Ok parsed ∧
    p ∈ passkeys (w_db w) ∧ p_account p = account ∧ p_credential p = au_raw_id parsed ∧
    verify_authentication_response wa parsed challenge rp origin (p_public_key p) (p_sign_count p) = Ok v ∧
    va_user_verified v = true ∧ va_credential_id v = p_credential p ∧
    counter_advances (p_sign_count p) (va_new_sign_count v) ∧
    w_db w' = set_passkeys (update_where (assertion_guard (p_credential p) account (p_sign_count p))
                (set_assertion v now) (passkeys (w_db w))) (w_db w).
Proof.
  intros Hw H. unfold _verify_passkey_assertion_locked in H.
  apply bind_inv_ok in H as (parsed & w1 & [Hpar ->]%lift_inv_ok & H). cbv zeta in H.
  apply bind_inv_ok in H as (? & w2 & [_ ->]%require_inv_ok & H).
  apply bind_inv_ok in H as (row & w3 & [-> ->]%query_inv_ok & H).
  destruct (lookup_where _ _) as [p|] eqn:Hl; [|done]. apply lookup_where_Some in Hl as [[Hcr Hac] Hp].
  apply bind_inv_ok in H as (? & w4 & Hh & H).
  assert (w4 = w) as ->.
  { destruct (au_user_handle parsed); [|by apply ret_inv_ok in Hh as [_ ->]].
    apply bind_inv_ok in Hh as (? & w5 & [_ ->]%lift_inv_ok & [_ ->]%require_inv_ok). done. }
  apply bind_inv_ok in H as (v' & w5 & [Hv ->]%lift_inv_ok & H).
  apply bind_inv_ok in H as (? & w6 & [Hok ->]%require_inv_ok & H).
  apply bind_inv_ok in H as (n & w7 & [-> ->]%query_inv_ok & H).
  apply bind_inv_ok in H as (? & w8 & (d & Hu & ->)%exec_checked_inv_ok & H).
  apply bind_inv_ok in H as (? & w9 & [_ ->]%require_inv_ok & [<- ->]%ret_inv_ok).
  apply update_passkeys_Some in Hu as ->.
  rewrite negb_true_iff, !orb_false_iff, !negb_false_iff in Hok.
  destruct Hok as [[[Huv Hcid] Hsc] _]. apply str_eqb_true in Hcid.
  rewrite bad_sign_count_spec in Hsc by (by eapply passkey_count_nonneg).
  exists parsed, p. rewrite Hcr. by split_and!.
Qed.

(** C31: when [verify_passkey_login] returns, the token named a stored LOGIN
    challenge that had not expired and no longer exists; the webauthn package
    verified the assertion of a registered passkey of the returned account with
    user verification; and the stored signature counter of that passkey alone
    moved strictly forward, or is unused and stays zero. *)
Theorem verify_passkey_login_spec w ctoken cred identity w' :
  inv (w_db w) → verify_passkey_login self wa ctoken cred w = (Ok identity, w') →
  ∃ now challenge k p v, reads self w now ∧ _decode_opaque_token ctoken = Some challenge ∧
    k ∈ passkey_challenges (w_db w) ∧ k_digest k = _passkey_challenge_digest self challenge ∧
    now < k_expires k ∧ k_purpose k = LOGIN ∧
    p ∈ passkeys (w_db w) ∧ p_account p = vi_account_id identity ∧ va_user_verified v = true ∧
    counter_advances (p_sign_count p) (va_new_sign_count v) ∧
    passkeys (w_db w') = update_where (λ x, p_credential x = p_credential p) (set_assertion v now)
                           (passkeys (w_db w)) ∧
    (∀ k', k' ∈ passkey_challenges (w_db w') → k_digest k' ≠ _passkey_challenge_digest self challenge).
Proof.
  intros Hi H. unfold verify_passkey_login in H.
  apply bind_inv_ok in H as ([rp origin] & w1 & Hcfg & H).
  assert (w1 = w) as ->.
  { unfold _require_passkey_configuration in Hcfg. destruct (webauthn_rp_id self), (webauthn_origin self);
      try done. by apply ret_inv_ok in Hcfg as [_ ->]. }
  destruct (_decode_opaque_token ctoken) as [challenge|] eqn:Hdec; [|done]. cbv zeta in H.
  apply bind_inv_ok in H as (now & w2 & [_ [Hn ->]]%now_inv_ok & H).
  apply bind_inv_ok in H as (o & w3 & Ht & H). apply transaction_inv_ok in Ht as [_ Ht].
  apply bind_inv_ok in Ht as (k & w4 & Hk & Ht).
  assert (w4 = ticked w ∧ k ∈ passkey_challenges (w_db w) ∧
    k_digest k = _passkey_challenge_digest self challenge ∧ now < k_expires k ∧ k_purpose k = LOGIN)
    as (-> & Hkin & Hkd & Hkx & Hkp).
  { unfold _passkey_challenge_row_locked in Hk. apply bind_inv_ok in Hk as (row & w5 & [-> ->]%query_inv_ok & Hk).
    destruct (lookup_where _ _) as [k'|] eqn:Hl; [|done]. apply lookup_where_Some in Hl as [??].
    destruct (Z.leb_spec (k_expires k') now); [done|].
    repeat (case_bool_decide; simpl in Hk; [|done]). by apply ret_inv_ok in Hk as [<- ->]. }
  apply bind_inv_ok in Ht as (c & w5 & Hc & Ht). destruct c as [account|]; cycle 1.
  { apply bind_inv_ok in Ht as (? & w6 & _ & [<- ->]%ret_inv_ok). done. }
  apply attempt_inv in Hc. unfold login_assertion in Hc.
  apply bind_inv_ok in Hc as (parsed & w6 & [Hpar ->]%lift_inv_ok & Hc).
  apply bind_inv_ok in Hc as (? & w7 & [_ ->]%require_inv_ok & Hc).
  apply bind_inv_ok in Hc as (row & w8 & [-> ->]%query_inv_ok & Hc).
  destruct (lookup_where _ _) as [q|] eqn:Hl; [|done].
  apply bind_inv_ok in Hc as (? & w9 & Hh & Hc).
  assert (w9 = ticked w) as ->.
  { destruct (au_user_handle parsed); [|done].
    apply bind_inv_ok in Hh as (? & w10 & [_ ->]%lift_inv_ok & [_ ->]%require_inv_ok). done. }
  apply bind_inv_ok in Hc as (v & w10 & Hv & [<- ->]%ret_inv_ok).
  apply verify_assertion_inv in Hv as (parsed' & p & _ & Hp & Hpa & _ & _ & Huv & _ & Hadv & Hdb); [|apply Hi].
  apply bind_inv_ok in Ht as (? & w11 & ->%exec_inv_ok & Ht).
  apply bind_inv_ok in Ht as (row & w12 & [-> ->]%query_inv_ok & Ht).
  apply bind_inv_ok in Ht as (a & w13 & Ha & [<- ->]%ret_inv_ok).
  destruct (lookup_where _ (accounts _)) as [a'|]; [|done]. apply ret_inv_ok in Ha as [<- ->].
  apply ret_inv_ok in H as [<- ->].
  exists now, challenge, k, p, v. simpl. rewrite Hdb. simpl. split_and!; try done.
  - unfold update_where. apply Forall_fmap_ext_1, Forall_forall. intros y Hy.
    assert (assertion_guard (p_credential p) (p_account q) (p_sign_count p) y ↔ p_credential y = p_credential p)
      as Hiff; [|by rewrite (decide_ext _ _ _ _ Hiff)].
    split; [by intros []|]. intros Hcy. assert (y = p) as ->; [|by split_and!].
    eapply (NoDup_key_eq p_credential); [by apply wf_credentials, Hi|done|done|done].
  - by intros k' [? _]%elem_of_delete.
Qed.
End PasskeySpecs.

(** ** Witness: a passkey registered after a step-up, then used to sign in *)

Notation demo_begin_key := (begin_passkey_registration demo_store demo_webauthn demo_session) (only parsing).
Definition demo_k1 : world := (mark_step_up demo_store demo_session demo_4).2.
Definition ceremony_token (r : result exc PasskeyCeremony) : list Z :=
  match r with Ok c => pc_challenge_token c | Err _ => [] end.
Definition demo_k2 : world := (demo_begin_key demo_k1).2.
Definition demo_key_token : list Z := ceremony_token (demo_begin_key demo_k1).1.
Notation demo_finish_key := (complete_passkey_registration demo_store demo_webauthn demo_session
  demo_key_token (Parsed (RegistrationCredential demo_credential None)) (u "laptop")) (only parsing).
Definition demo_k3 : world := (demo_finish_key demo_k2).2.
Notation demo_begin_login := (begin_passkey_login demo_store demo_webauthn) (only parsing).
Definition demo_k4 : world := (demo_begin_login demo_k3).2.
Definition demo_login_token : list Z := ceremony_token (demo_begin_login demo_k3).1.
Notation demo_key_login := (verify_passkey_login demo_store demo_webauthn demo_login_token
  (Parsed (AuthenticationCredential demo_credential (Some (replicate 16 0))))) (only parsing).

Example demo_key_outcome : is_ok (demo_key_login demo_k4).1 = true.
Proof. vm_compute. reflexivity. Qed.

Lemma demo_reachable_k4 : reachable demo_store demo_webauthn demo_k4.
Proof.
  exact (reach_step _ _ demo_begin_login demo_k3
    (reach_step _ _ demo_finish_key demo_k2
      (reach_step _ _ demo_begin_key demo_k1
        (reach_step _ _ (mark_step_up demo_store demo_session) demo_4 demo_reachable_4
          (m_mark_step_up _ _ _))
        (m_begin_passkey_registration _ _ _))
      (m_complete_passkey_registration _ _ _ _ _ _))
    (m_begin_passkey_login _ _)).
Qed.

Lemma verify_passkey_login_spec_witness :
  ∃ identity p v now, demo_key_login demo_k4 = (Ok identity, (demo_key_login demo_k4).2) ∧
    p ∈ passkeys (w_db demo_k4) ∧ counter_advances (p_sign_count p) (va_new_sign_count v) ∧
    passkeys (w_db (demo_key_login demo_k4).2)
    = update_where (λ x, p_credential x = p_credential p) (set_assertion v now) (passkeys (w_db demo_k4)).
Proof.
  destruct (ok_run _ _ demo_key_outcome) as [identity H].
  destruct (verify_passkey_login_spec demo_store demo_webauthn demo_k4 _ _ identity _
    (reachable_inv _ _ _ demo_reachable_k4) H)
    as (now & ch & k & p & v & _ & _ & _ & _ & _ & _ & Hp & _ & _ & Hadv & Hks & _).
  exists identity, p, v, now. split; [exact H|]. split; [exact Hp|]. split; [exact Hadv|exact Hks].
Defined.
