(* ===== verification/AuthTokens.v ===== *)
(** * Opaque tokens and recovery codes

    The URL-safe encoding of a 32-byte token decodes to the bytes it came from,
    and the recovery codes an account is given are ten distinct codes that the
    store accepts back in the form it printed them. *)

From S2P Require Import Prelude Text Errors Sql Totp Identity Json AuthDb AuthCore AuthStore AuthPasskey AuthRate AuthRules AuthDemo AuthWp AuthInv AuthSafe AuthReach AuthRun.

#[local] Set Default Proof Using "Type*".

(** ** Base 64 *)

Lemma b64_digit_char d : 0 ≤ d < 64 → b64_digit (b64_char d) = d ∧ is_b64 (b64_char d) = true.
Proof.
  intros Hd.
  assert (H : forallb (λ d, (b64_digit (b64_char d) =? d) && is_b64 (b64_char d)) (seqZ 0 64) = true)
    by (vm_compute; reflexivity).
  rewrite forallb_forall in H. specialize (H d). rewrite andb_true_iff, Z.eqb_eq in H.
  apply H, list_elem_of_In, elem_of_seqZ. lia.
Qed.

Lemma length_b64_split n x : length (b64_split n x) = n.
Proof. revert x. induction n as [|n IH]; intros x; [done|]. simpl. rewrite length_app, IH. simpl. lia. Qed.

Lemma b64_split_range n x : Forall (λ d, 0 ≤ d < 64) (b64_split n x).
Proof.
  revert x. induction n as [|n IH]; intros x; simpl; [constructor|]. apply Forall_app. split; [done|].
  constructor; [|constructor]. by apply Z.mod_pos_bound.
Qed.

Lemma b64_value_split n x : 0 ≤ x < 64 ^ Z.of_nat n → b64_value (b64_split n x) = x.
Proof.
  revert x. induction n as [|n IH]; intros x Hx.
  - change (64 ^ Z.of_nat 0) with 1 in Hx. unfold b64_value. simpl. lia.
  - simpl b64_split. unfold b64_value. rewrite foldl_app. fold (b64_value (b64_split n (x / 64))).
    rewrite Nat2Z.inj_succ, Z.pow_succ_r in Hx by lia. rewrite IH.
    + simpl. pose proof (Z.div_mod x 64). lia.
    + split; [apply Z.div_pos; lia|]. apply Z.div_lt_upper_bound; lia.
Qed.

(** A token encodes its 32 bytes without loss: it has the form the store
    accepts and decodes to them. *)
Theorem opaque_token_roundtrip bs :
  length bs = 32%nat → Forall (λ b, 0 ≤ b < 256) bs →
  _OPAQUE_TOKEN_PATTERN (_encode_opaque_token bs) = true ∧
  _decode_opaque_token (_encode_opaque_token bs) = Some bs.
Proof.
  intros Hl Hb. set (x := be_combine bs * 4).
  assert (Hx : 0 ≤ be_combine bs < 2 ^ 256).
  { pose proof (be_combine_range bs Hb) as Hr. unfold zlen in Hr. rewrite Hl in Hr.
    by change (256 ^ Z.of_nat 32) with (2 ^ 256) in Hr. }
  assert (Hpat : _OPAQUE_TOKEN_PATTERN (_encode_opaque_token bs) = true).
  { unfold _OPAQUE_TOKEN_PATTERN, match_exact, _encode_opaque_token, zlen.
    rewrite length_fmap, length_b64_split. apply forallb_forall. intros c Hc%list_elem_of_In.
    apply list_elem_of_fmap in Hc as (d & -> & Hd).
    pose proof (b64_split_range 43 x) as Hr. rewrite Forall_forall in Hr. by apply b64_digit_char, Hr. }
  split; [done|]. unfold _decode_opaque_token. rewrite Hpat. f_equal.
  unfold _encode_opaque_token. rewrite <-list_fmap_compose. fold x.
  rewrite (Forall_fmap_ext_1 (b64_digit ∘ b64_char) id), list_fmap_id.
  - rewrite b64_value_split.
    + unfold x. rewrite Z.div_mul by done. rewrite <-Hl. by apply be_split_combine.
    + unfold x. change (64 ^ Z.of_nat 43) with (2 ^ 256 * 4). lia.
  - apply Forall_forall. intros d Hd. pose proof (b64_split_range 43 x) as Hr.
    rewrite Forall_forall in Hr. by apply b64_digit_char, Hr.
Qed.

Lemma opaque_token_roundtrip_witness :
  _decode_opaque_token (_encode_opaque_token (replicate 32 255)) = Some (replicate 32 255).
Proof.
  apply opaque_token_roundtrip; [reflexivity|].
  apply Forall_replicate. split; [discriminate|reflexivity].
Defined.

(** ** Recovery codes *)

Lemma replace_join c fs : (∀ f, f ∈ fs → c ∉ f) → replace_char c [] (join [c] fs) = mjoin fs.
Proof.
  assert (Happ : ∀ a b, replace_char c [] (a ++ b) = replace_char c [] a ++ replace_char c [] b).
  { intros a b. unfold replace_char. by rewrite fmap_app, join_app. }
  assert (Hid : ∀ f, c ∉ f → replace_char c [] f = f).
  { unfold replace_char. induction f as [|x f IH]; [done|]. rewrite not_elem_of_cons. intros [Hx Hf].
    csimpl. rewrite IH by done. by destruct (Z.eqb_spec x c). }
  induction fs as [|f [|g fs] IH]; intros Hn.
  - done.
  - simpl. rewrite Hid, app_nil_r; [done|]. apply Hn. left.
  - rewrite join_cons, !Happ, IH by (intros; apply Hn; by right). rewrite Hid by (apply Hn; left).
    unfold replace_char at 1. csimpl. by rewrite Z.eqb_refl.
Qed.

Lemma chunks_concat fuel n l : (length l ≤ fuel)%nat → (0 < n)%nat → mjoin (chunks fuel n l) = l.
Proof.
  revert l. induction fuel as [|fuel IH]; intros l Hl Hn.
  - destruct l; [done|simpl in Hl; lia].
  - destruct l as [|x l]; [done|].
    change (chunks (S fuel) n (x :: l)) with (take n (x :: l) :: chunks fuel n (drop n (x :: l))).
    change (mjoin (?a :: ?b)) with (a ++ mjoin b).
    rewrite IH; [apply take_drop| |done]. rewrite length_drop. simpl in *. lia.
Qed.

Lemma chunks_elem fuel n l f x : f ∈ chunks fuel n l → x ∈ f → x ∈ l.
Proof.
  revert l. induction fuel as [|fuel IH]; intros l Hf Hx; [by apply not_elem_of_nil in Hf|].
  destruct l as [|y l]; [by apply not_elem_of_nil in Hf|].
  change (chunks (S fuel) n (y :: l)) with (take n (y :: l) :: chunks fuel n (drop n (y :: l))) in Hf.
  rewrite <-(take_drop n (y :: l)). apply elem_of_app.
  apply elem_of_cons in Hf as [->|Hf]; [by left|right; eauto].
Qed.

(** A printed code is read back as the digits it was made of. *)
Lemma normalize_dash_groups raw :
  is_hex32 raw = true → _normalize_recovery_code (dash_groups raw) = Ok raw.
Proof.
  intros Hr. pose proof Hr as Hh. unfold is_hex32, match_exact in Hh. apply andb_true_iff in Hh as [_ Hh].
  rewrite forallb_forall in Hh.
  assert (Hch : ∀ x, x ∈ raw → is_hex_lower x = true) by (intros x Hx; by apply Hh, list_elem_of_In).
  assert (Hd : ∀ x, x ∈ dash_groups raw → x = 45 ∨ is_hex_lower x = true).
  { intros x Hx. unfold dash_groups in Hx.
    apply join_elem in Hx as [Hx|(f & Hf & Hx)]; [left; by apply list_elem_of_singleton in Hx|right].
    eapply Hch, chunks_elem; eauto. }
  unfold _normalize_recovery_code. rewrite strip_none.
  - assert (lower (dash_groups raw) = dash_groups raw) as ->.
    { unfold lower. etrans; [|apply list_fmap_id]. apply Forall_fmap_ext_1, Forall_forall.
      intros x Hx. destruct (Hd x Hx) as [->|Hc]; [done|]. unfold lower_char, is_hex_lower, is_digit in *.
      destruct ((65 <=? x) && (x <=? 90)) eqn:E; [lia|done]. }
    unfold dash_groups. rewrite replace_join.
    + rewrite chunks_concat by lia. unfold _RECOVERY_CODE_PATTERN. by rewrite Hr.
    + intros f Hf Hin. assert (Hc := Hch 45 (chunks_elem _ _ _ _ _ Hf Hin)). done.
  - apply forallb_forall. intros x Hx%list_elem_of_In. destruct (Hd x Hx) as [->|Hc]; [done|].
    unfold is_hex_lower, is_digit, is_space in *. lia.
Qed.

Section Codes.
Context (self : store).
Hypothesis random_bytes_range : ∀ n len, Forall (λ b, 0 ≤ b < 256) (random_source self n len).

Lemma codes_complete codes seen :
  (∀ r, r ∈ seen → is_hex32 r = true) → NoDup seen → codes = reverse (dash_groups <$> seen) →
  zlen codes = 10 →
  ∃ raws, NoDup raws ∧ (∀ r, r ∈ raws → is_hex32 r = true) ∧ codes = dash_groups <$> raws ∧ zlen codes = 10.
Proof.
  intros Hh Hnd Hc Hlen. exists (reverse seen). split; [by rewrite reverse_Permutation|].
  split; [|by rewrite fmap_reverse]. intros r Hr. apply Hh. by rewrite reverse_Permutation in Hr.
Qed.

Lemma generate_codes_inv fuel codes seen w out w' :
  (∀ r, r ∈ seen → is_hex32 r = true) → NoDup seen → codes = reverse (dash_groups <$> seen) →
  zlen codes ≤ 10 →
  generate_codes self fuel codes seen w = (Ok out, w') →
  w_db w' = w_db w ∧ ∃ raws, NoDup raws ∧ (∀ r, r ∈ raws → is_hex32 r = true) ∧
    out = dash_groups <$> raws ∧ zlen out = 10.
Proof.
  revert codes seen w. induction fuel as [|fuel IH]; intros codes seen w Hh Hnd Hc Hlen H; simpl in H.
  all: destruct (Z.leb_spec RECOVERY_CODE_COUNT (zlen codes)) as [Hle|]; unfold RECOVERY_CODE_COUNT in *.
  - apply ret_inv_ok in H as [<- ->]. split; [done|]. apply (codes_complete codes seen); try done. lia.
  - done.
  - apply ret_inv_ok in H as [<- ->]. split; [done|]. apply (codes_complete codes seen); try done. lia.
  - apply bind_inv_ok in H as (bs & w1 & Hr & H). cbv zeta in H.
    assert (Hbs : zlen bs = 16 ∧ Forall (λ b, 0 ≤ b < 256) bs ∧ w_db w1 = w_db w).
    { unfold _random_bytes in Hr. destruct (_ =? _) eqn:E; [|done]. injection Hr as <- <-. split_and!; [lia|apply random_bytes_range|done]. }
    destruct Hbs as (Hl & Hrange & Hdb).
    assert (Hhex : is_hex32 (hex bs) = true).
    { unfold is_hex32, match_exact. rewrite hex_is_hex by done. unfold zlen in *. rewrite length_hex, andb_true_r. apply Z.eqb_eq. lia. }
    destruct (decide (hex bs ∈ seen)) as [|Hnew].
    + apply (IH codes seen) in H as [Hw ?]; try done. by rewrite Hw.
    + apply (IH _ (hex bs :: seen)) in H as [Hw ?]; [by rewrite Hw| | | |].
      * intros r [->|Hin]%elem_of_cons; [done|by apply Hh].
      * by constructor.
      * by rewrite fmap_cons, reverse_cons, Hc.
      * unfold zlen in *. rewrite length_app. simpl. lia.
Qed.

#[local] Opaque generate_codes.

(** The recovery codes an account is given are ten distinct 32-digit
    codes, and the set is one the store itself accepts: every printed code is
    read back as the digits it stands for. *)
Theorem generated_codes_valid w codes w' :
  _generate_recovery_codes self w = (Ok codes, w') →
  w_db w' = w_db w ∧ zlen codes = 10 ∧ NoDup codes ∧
  ∃ raws, _validate_recovery_code_set codes = Ok raws ∧ codes = dash_groups <$> raws.
Proof.
  intros H. unfold _generate_recovery_codes in H. apply generate_codes_inv in H as (Hdb & raws & Hnd & Hh & -> & Hlen);
    [|by intros r Hr%not_elem_of_nil|constructor|done|done].
  assert (Hn : result_map _normalize_recovery_code (dash_groups <$> raws) = Ok raws).
  { clear Hnd Hlen. induction raws as [|r raws IH]; [done|]. csimpl.
    rewrite normalize_dash_groups by (apply Hh; left). csimpl.
    by rewrite IH by (intros x Hx; apply Hh; by right). }
  split; [done|]. split; [done|]. split.
  - apply (NoDup_fmap_1 (λ c, match _normalize_recovery_code c with Ok r => r | Err _ => [] end)).
    rewrite <-list_fmap_compose. rewrite (Forall_fmap_ext_1 _ id), list_fmap_id; [done|].
    apply Forall_forall. intros r Hr. unfold compose. by rewrite normalize_dash_groups by (by apply Hh).
  - exists raws. split; [|done]. unfold _validate_recovery_code_set. rewrite Hlen.
    change (negb (10 =? RECOVERY_CODE_COUNT)) with false. cbv iota. rewrite Hn. simpl.
    by rewrite decide_True.
Qed.
#[local] Transparent generate_codes.
End Codes.

Lemma demo_random_range n len : Forall (λ b, 0 ≤ b < 256) (random_source demo_store n len).
Proof. apply Forall_replicate. apply Z.mod_pos_bound. reflexivity. Qed.

Example demo_codes_ok : is_ok (_generate_recovery_codes demo_store demo_0).1 = true.
Proof. vm_compute. reflexivity. Qed.

Lemma generated_codes_valid_witness :
  ∃ codes, _generate_recovery_codes demo_store demo_0
    = (Ok codes, (_generate_recovery_codes demo_store demo_0).2) ∧ zlen codes = 10 ∧ NoDup codes.
Proof.
  destruct (ok_run _ _ demo_codes_ok) as [codes H]. exists codes. split; [exact H|].
  destruct (generated_codes_valid demo_store demo_random_range demo_0 codes _ H) as (_ & Hl & Hn & _).
  split; [exact Hl|exact Hn].
Defined.
