(* ===== verification/JsonRound.v ===== *)
(** * [json.loads] inverts [json.dumps]

    For a value whose integers and floats the hooks read back and whose objects
    are dicts, the text printed by [dumps] is read back by [loads] as the same
    value, with the items of every object in the printed order. *)

From S2P Require Import Prelude Text Json.

#[local] Set Default Proof Using "Type*".

(** The value as printed: with [sort_keys], the items of every object in the
    order of their keys. *)
Fixpoint canon (sort_keys : bool) (j : json) : json :=
  match j with
  | JArr l => JArr (canon sort_keys <$> l)
  | JObj kvs =>
      let kvs := (λ kv, (kv.1, canon sort_keys kv.2)) <$> kvs in
      JObj (if sort_keys then sort_items kvs else kvs)
  | _ => j
  end.

(** A number token with a fraction or an exponent, and nothing after it: the
    form of the [repr] of every finite float. *)
Definition float_text (r : list Z) : bool :=
  match scan_int r with
  | Some (_, fe) =>
      let '(f, e0) := scan_frac fe in
      let '(e, rest) := scan_exp e0 in
      bool_decide (rest = []) && negb (bool_decide (f ++ e = []))
  | None => false
  end.

Section Round.
Context (h : hooks).

(** The values the hooks of [h] read back from their own text. *)
Fixpoint readable (j : json) : Prop :=
  match j with
  | JNull | JBool _ => True
  | JInt z => parse_int h (str_of_int z) = Some (JInt z)
  | JFloat (FFinite r) => float_text r = true ∧ parse_float h r = Some (JFloat (FFinite r))
  | JFloat _ => False
  | JStr s => Forall (λ c, 0 ≤ c) s
  | JArr l => foldr and True (readable <$> l)
  | JObj kvs => NoDup kvs.*1 ∧ Forall (λ k, Forall (λ c, 0 ≤ c) k) kvs.*1 ∧
      foldr and True ((λ kv, readable kv.2) <$> kvs)
  end.
End Round.

(** ** Strings *)

Lemma hex_value_digit n : 0 ≤ n < 16 → hex_value (hex_digit n) = Some n.
Proof.
  intros Hn. unfold hex_value, hex_digit, is_digit. destruct (Z.ltb_spec n 10).
  - replace (_ && _) with true by lia. f_equal. lia.
  - replace ((48 <=? 87 + n) && (87 + n <=? 57)) with false by lia.
    replace (_ && _) with true by lia. f_equal. lia.
Qed.

Lemma scan_escape c r : 0 ≤ c →
  scan_string (escape_char c ++ r) = cons_fst c (scan_string r).
Proof.
  intros Hc. unfold escape_char.
  destruct (Z.eqb_spec c 34) as [->|]; [done|]. destruct (Z.eqb_spec c 92) as [->|]; [done|].
  destruct (Z.eqb_spec c 10) as [->|]; [done|]. destruct (Z.eqb_spec c 13) as [->|]; [done|].
  destruct (Z.eqb_spec c 9) as [->|]; [done|]. destruct (Z.eqb_spec c 12) as [->|]; [done|].
  destruct (Z.eqb_spec c 8) as [->|]; [done|].
  destruct (Z.ltb_spec c 32) as [Hlt|Hge].
  - assert (hex4 48 48 (hex_digit (c / 16)) (hex_digit (c mod 16)) = Some c) as Hhex.
    { unfold hex4. change (hex_value 48) with (Some 0).
      rewrite (hex_value_digit (c / 16)), (hex_value_digit (c mod 16)).
      - simpl. f_equal. pose proof (Z.div_mod c 16). lia.
      - apply Z.mod_pos_bound. lia.
      - split; [apply Z.div_pos; lia|apply Z.div_lt_upper_bound; lia]. }
    cbn [app scan_string]. change (92 =? 34) with false. change (92 =? 92) with true.
    change (117 =? 117) with true. cbv iota. rewrite Hhex.
    unfold is_high. replace ((55296 <=? c) && (c <=? 56319)) with false by lia. done.
  - cbn [app scan_string]. apply Z.eqb_neq in n, n0. rewrite n, n0.
    replace (c <? 32) with false by lia. done.
Qed.

Lemma scan_dump_string s r : Forall (λ c, 0 ≤ c) s →
  scan_string (mjoin (escape_char <$> s) ++ 34 :: r) = Some (s, r).
Proof.
  induction s as [|c s IH]; intros Hs; [done|]. apply Forall_cons in Hs as [Hc Hs].
  csimpl. rewrite <-app_assoc, scan_escape, IH by done. done.
Qed.

(** ** Numbers *)

(** What may follow a value in printed text. *)
Definition delim (rest : list Z) : Prop :=
  match rest with [] => True | c :: _ => c = 44 ∨ c = 93 ∨ c = 125 end.

Lemma span_app p s a b rest :
  match rest with [] => True | c :: _ => p c = false end →
  span p s = (a, b) → span p (s ++ rest) = (a, b ++ rest).
Proof.
  intros Hr. revert a b. induction s as [|c s IH]; intros a b; simpl.
  - intros [= <- <-]. destruct rest as [|c rest]; [done|]. simpl. by rewrite Hr.
  - destruct (p c); [|by intros [= <- <-]].
    destruct (span p s) as [a' b']. intros [= <- <-]. by rewrite (IH _ _ eq_refl).
Qed.

Lemma span_concat p s : s = (span p s).1 ++ (span p s).2.
Proof.
  induction s as [|c s IH]; [done|]. simpl. destruct (p c); [|done].
  destruct (span p s) as [a b]. simpl in *. by rewrite IH at 1.
Qed.

Lemma delim_digit rest : delim rest → match rest with [] => True | c :: _ => is_digit c = false end.
Proof. destruct rest; [done|]. by intros [->|[->| ->]]. Qed.

Lemma scan_frac_other c r : c ≠ 46 → scan_frac (c :: r) = ([], c :: r).
Proof.
  intros Hc. unfold scan_frac. destruct c as [|p|p]; try done.
  do 6 (destruct p as [p|p|]; try done).
Qed.

Lemma scan_frac_app s f e rest :
  delim rest → scan_frac s = (f, e) → scan_frac (s ++ rest) = (f, e ++ rest).
Proof.
  intros Hd. destruct s as [|c s].
  - intros [= <- <-]. destruct rest as [|c rest]; [done|]. apply scan_frac_other.
    by destruct Hd as [->|[->| ->]].
  - destruct (decide (c = 46)) as [->|Hc].
    + cbn [app scan_frac]. destruct (span is_digit s) as [ds r'] eqn:Es.
      rewrite (span_app _ _ _ _ rest (delim_digit _ Hd) Es). destruct ds; by intros [= <- <-].
    + simpl app. rewrite !scan_frac_other by done. by intros [= <- <-].
Qed.

Lemma scan_exp_app s e r rest :
  delim rest → scan_exp s = (e, r) → scan_exp (s ++ rest) = (e, r ++ rest).
Proof.
  intros Hd. destruct s as [|c s].
  - intros [= <- <-]. destruct rest as [|c rest]; [done|]. by destruct Hd as [->|[->| ->]].
  - cbn [app scan_exp]. destruct ((c =? 101) || (c =? 69)); [|by intros [= <- <-]].
    destruct s as [|g s].
    + simpl. intros [= <- <-]. destruct rest as [|g rest]; [done|].
      by destruct Hd as [->|[->| ->]].
    + cbn [app]. destruct ((g =? 43) || (g =? 45)).
      * destruct (span is_digit s) as [ds r'] eqn:Es.
        rewrite (span_app _ _ _ _ rest (delim_digit _ Hd) Es). destruct ds; by intros [= <- <-].
      * destruct (span is_digit (g :: s)) as [ds r'] eqn:Es.
        change (g :: s ++ rest) with ((g :: s) ++ rest).
        rewrite (span_app _ _ _ _ rest (delim_digit _ Hd) Es). destruct ds; by intros [= <- <-].
Qed.

Lemma scan_unsigned_app sign s i r rest :
  delim rest →
  match s with
  | c :: r' => if c =? 48 then Some (sign ++ [48], r')
               else if is_digit c then let '(ds, r2) := span is_digit s in Some (sign ++ ds, r2)
               else None
  | [] => None
  end = Some (i, r) →
  match s ++ rest with
  | c :: r' => if c =? 48 then Some (sign ++ [48], r')
               else if is_digit c
                    then let '(ds, r2) := span is_digit (s ++ rest) in Some (sign ++ ds, r2)
                    else None
  | [] => None
  end = Some (i, r ++ rest).
Proof.
  intros Hd. destruct s as [|c s]; [done|]. cbn [app]. destruct (c =? 48).
  - by intros [= <- <-].
  - destruct (is_digit c); [|done]. destruct (span is_digit (c :: s)) as [ds r2] eqn:Es.
    change (c :: s ++ rest) with ((c :: s) ++ rest).
    rewrite (span_app _ _ _ _ rest (delim_digit _ Hd) Es). by intros [= <- <-].
Qed.

Lemma scan_int_app s i r rest :
  delim rest → scan_int s = Some (i, r) → scan_int (s ++ rest) = Some (i, r ++ rest).
Proof.
  intros Hd. destruct s as [|c s]; [done|]. unfold scan_int. cbn [app].
  destruct (c =? 45); [by apply scan_unsigned_app|].
  by apply (scan_unsigned_app [] (c :: s) i r rest Hd).
Qed.

Lemma digits_fuel_head fuel n :
  0 < n < 2 ^ Z.of_nat fuel → ∃ c r, digits_fuel fuel n = c :: r ∧ 49 ≤ c ≤ 57.
Proof.
  revert n. induction fuel as [|fuel IH]; intros n Hn; [simpl in Hn; lia|]. simpl.
  destruct (Z.ltb_spec n 10); [eexists _, []; split; [done|lia]|].
  destruct (IH (n / 10)) as (c & r & -> & Hc).
  { rewrite Nat2Z.inj_succ, Z.pow_succ_r in Hn by lia.
    split; [apply Z.div_str_pos; lia|]. apply Z.div_lt_upper_bound; lia. }
  eexists _, _. by split.
Qed.

Lemma digits_head n : 0 < n → ∃ c r, digits n = c :: r ∧ 49 ≤ c ≤ 57.
Proof.
  intros Hn. apply digits_fuel_head. rewrite Nat2Z.inj_succ, Z2Nat.id by apply Z.log2_nonneg.
  split; [done|]. by apply Z.log2_spec.
Qed.

Lemma span_all p s : forallb p s = true → span p s = (s, []).
Proof.
  induction s as [|c s IH]; [done|]. simpl. intros [-> Hs]%andb_true_iff. by rewrite (IH Hs).
Qed.

Lemma digits_digits n : 0 ≤ n → forallb is_digit (digits n) = true.
Proof. intros Hn. apply digits_spec, Hn. Qed.

Lemma scan_int_str z : scan_int (str_of_int z) = Some (str_of_int z, []).
Proof.
  unfold str_of_int. destruct (Z.ltb_spec z 0) as [Hz|Hz].
  - destruct (digits_head (- z)) as (c & r & Hd & Hc); [lia|].
    pose proof (digits_digits (- z)) as Hall. rewrite Hd in Hall |- *. cbn [scan_int].
    unfold scan_int. change (45 =? 45) with true. cbv iota.
    replace (c =? 48) with false by lia. rewrite (span_all _ _ (Hall ltac:(lia))).
    apply andb_true_iff in Hall as [-> _]; [done|lia].
  - destruct (decide (z = 0)) as [->|Hnz]; [done|].
    destruct (digits_head z) as (c & r & Hd & Hc); [lia|].
    pose proof (digits_digits z) as Hall. rewrite Hd in Hall |- *. unfold scan_int.
    replace (c =? 45) with false by lia. replace (c =? 48) with false by lia.
    rewrite (span_all _ _ (Hall ltac:(lia))). apply andb_true_iff in Hall as [-> _]; [done|lia].
Qed.

Lemma scan_frac_delim rest : delim rest → scan_frac rest = ([], rest).
Proof. intros Hd. by apply (scan_frac_app [] [] [] rest). Qed.
Lemma scan_exp_delim rest : delim rest → scan_exp rest = ([], rest).
Proof. intros Hd. by apply (scan_exp_app [] [] [] rest). Qed.

(** The scanner reaches a number only through its first characters. *)
Definition number_head (s : list Z) : Prop :=
  match s with
  | c :: r => is_digit c = true ∨ (c = 45 ∧ match r with d :: _ => is_digit d = true | [] => False end)
  | [] => False
  end.

Lemma scan_int_number s i r : scan_int s = Some (i, r) → number_head s.
Proof.
  destruct s as [|c s]; [done|]. unfold scan_int. simpl.
  destruct (Z.eqb_spec c 45) as [->|Hc].
  - destruct s as [|d s]; [done|]. destruct (Z.eqb_spec d 48) as [->|]; [by right|].
    destruct (is_digit d) eqn:E; [by right|done].
  - destruct (Z.eqb_spec c 48) as [->|]; [by left|]. destruct (is_digit c); [by left|done].
Qed.

Lemma strip_prefix_head p s c r : s = c :: r →
  match p with x :: _ => (x =? c) = false | [] => False end → strip_prefix p s = None.
Proof. intros ->. unfold strip_prefix. destruct p as [|x p]; [done|]. simpl. by intros ->. Qed.

Section Literals.
Context (h : hooks).

Lemma scan_literal_number s : number_head s → scan_literal h s = scan_number h s.
Proof.
  destruct s as [|c s]; [done|]. intros Hn.
  assert (Hlo : c < 58) by (destruct Hn as [Hd|[-> _]]; [unfold is_digit in Hd|]; lia).
  assert (Hx : ∀ x, 58 ≤ x → (x =? c) = false) by lia.
  unfold scan_literal.
  rewrite (strip_prefix_head (u "null") _ c s eq_refl) by (apply Hx; by vm_compute).
  rewrite (strip_prefix_head (u "true") _ c s eq_refl) by (apply Hx; by vm_compute).
  rewrite (strip_prefix_head (u "false") _ c s eq_refl) by (apply Hx; by vm_compute).
  rewrite (strip_prefix_head (u "NaN") _ c s eq_refl) by (apply Hx; by vm_compute).
  rewrite (strip_prefix_head (u "Infinity") _ c s eq_refl) by (apply Hx; by vm_compute).
  destruct Hn as [Hd|[-> Hs]].
  - rewrite (strip_prefix_head (u "-Infinity") _ c s eq_refl); [done|].
    unfold is_digit in Hd. change ((45 =? c) = false). lia.
  - destruct s as [|d s]; [done|]. unfold strip_prefix.
    change (starts_with (u "-Infinity") (45 :: d :: s)) with ((73 =? d) && starts_with (u "nfinity") s).
    unfold is_digit in Hs. by replace (73 =? d) with false by lia.
Qed.

Lemma scan_number_int z rest : delim rest → parse_int h (str_of_int z) = Some (JInt z) →
  scan_number h (str_of_int z ++ rest) = Some (JInt z, rest).
Proof.
  intros Hd Hp. unfold scan_number. rewrite (scan_int_app _ _ _ _ Hd (scan_int_str z)). simpl.
  rewrite scan_frac_delim, scan_exp_delim by done. simpl. by rewrite Hp.
Qed.

Lemma scan_int_concat s i r : scan_int s = Some (i, r) → s = i ++ r.
Proof.
  destruct s as [|c s]; [done|]. unfold scan_int.
  pose proof (span_concat is_digit (c :: s)) as Hc. pose proof (span_concat is_digit s) as Hs.
  destruct (Z.eqb_spec c 45) as [->|].
  - destruct s as [|d s]; [done|]. destruct (Z.eqb_spec d 48) as [->|]; [by intros [= <- <-]|].
    destruct (is_digit d); [|done]. destruct (span is_digit (d :: s)) as [ds r2].
    intros [= <- <-]. simpl in *. by rewrite Hs.
  - destruct (Z.eqb_spec c 48) as [->|]; [by intros [= <- <-]|].
    destruct (is_digit c); [|done]. destruct (span is_digit (c :: s)) as [ds r2].
    by intros [= <- <-].
Qed.

Lemma scan_frac_concat s f e : scan_frac s = (f, e) → s = f ++ e.
Proof.
  destruct s as [|c s]; [by intros [= <- <-]|].
  destruct (decide (c = 46)) as [->|]; [|rewrite scan_frac_other by done; by intros [= <- <-]].
  cbn [scan_frac]. pose proof (span_concat is_digit s) as Hs.
  destruct (span is_digit s) as [ds r]. simpl in Hs. destruct ds; intros [= <- <-]; [done|].
  simpl. by rewrite Hs.
Qed.

Lemma scan_exp_concat s e r : scan_exp s = (e, r) → s = e ++ r.
Proof.
  destruct s as [|c s]; [by intros [= <- <-]|]. cbn [scan_exp].
  destruct ((c =? 101) || (c =? 69)); [|by intros [= <- <-]].
  destruct s as [|g s]; [by intros [= <- <-]|].
  pose proof (span_concat is_digit (g :: s)) as Hg. pose proof (span_concat is_digit s) as Hs.
  destruct ((g =? 43) || (g =? 45)).
  - destruct (span is_digit s) as [ds r']. simpl in Hs. destruct ds; intros [= <- <-]; [done|].
    simpl. by rewrite Hs.
  - destruct (span is_digit (g :: s)) as [ds r']. simpl in Hg. destruct ds; intros [= <- <-]; [done|].
    simpl. by rewrite Hg.
Qed.

Lemma scan_number_float r rest : delim rest → float_text r = true →
  parse_float h r = Some (JFloat (FFinite r)) →
  number_head (r ++ rest) ∧ scan_number h (r ++ rest) = Some (JFloat (FFinite r), rest).
Proof.
  unfold float_text. intros Hd Hr Hp.
  destruct (scan_int r) as [[i fe]|] eqn:Ei; [|done].
  destruct (scan_frac fe) as [f e0] eqn:Ef. destruct (scan_exp e0) as [e r0] eqn:Ee.
  apply andb_true_iff in Hr as [->%bool_decide_eq_true Hne].
  pose proof (scan_int_app _ _ _ rest Hd Ei) as Ei'.
  split; [exact (scan_int_number _ _ _ Ei')|]. unfold scan_number. rewrite Ei'. simpl.
  rewrite (scan_frac_app _ _ _ _ Hd Ef), (scan_exp_app _ _ _ _ Hd Ee).
  pose proof (scan_int_concat _ _ _ Ei) as Hr. rewrite (scan_frac_concat _ _ _ Ef) in Hr.
  rewrite (scan_exp_concat _ _ _ Ee), app_nil_r in Hr. subst r.
  destruct (f ++ e) eqn:E; [done|]. rewrite <-E in *. by rewrite Hp.
Qed.
End Literals.

(** ** Sorting related lists *)

Section SortRelated.
Context {A B} (R1 : relation A) (R2 : relation B) `{!∀ x y, Decision (R1 x y)}
  `{!∀ x y, Decision (R2 x y)} (P : A → B → Prop).
Context (HP : ∀ x x' y y', P x y → P x' y' → R1 x x' ↔ R2 y y').

Lemma Forall2_list_merge l1 l2 k1 k2 :
  Forall2 P l1 k1 → Forall2 P l2 k2 → Forall2 P (list_merge R1 l1 l2) (list_merge R2 k1 k2).
Proof.
  intros H1. revert l2 k2. induction H1 as [|x y l1 k1 Hxy H1 IH1]; intros l2 k2 H2.
  { by destruct H2; simpl; constructor. }
  induction H2 as [|x' y' l2 k2 Hxy' H2 IH2]; simpl; [by constructor|].
  pose proof (HP _ _ _ _ Hxy Hxy') as Heq.
  destruct (decide (R1 x x')), (decide (R2 y y')); try tauto.
  - constructor; [done|]. apply IH1. by constructor.
  - constructor; [done|]. apply IH2.
Qed.

Lemma Forall2_merge_list_to_stack st st' l k :
  Forall2 (option_Forall2 (Forall2 P)) st st' → Forall2 P l k →
  Forall2 (option_Forall2 (Forall2 P)) (merge_list_to_stack R1 st l) (merge_list_to_stack R2 st' k).
Proof.
  intros Hst. revert l k. induction Hst as [|o o' st st' Ho Hst IH]; intros l k Hl; simpl.
  - by repeat constructor.
  - destruct Ho as [a b Hab|]; [|by repeat constructor]. constructor; [constructor|].
    apply IH, Forall2_list_merge; done.
Qed.

Lemma Forall2_merge_stack st st' :
  Forall2 (option_Forall2 (Forall2 P)) st st' → Forall2 P (merge_stack R1 st) (merge_stack R2 st').
Proof.
  induction 1 as [|o o' st st' Ho Hst IH]; simpl; [constructor|].
  destruct Ho; [|done]. by apply Forall2_list_merge.
Qed.

Lemma Forall2_merge_sort l k :
  Forall2 P l k → Forall2 P (merge_sort R1 l) (merge_sort R2 k).
Proof.
  unfold merge_sort. intros Hl.
  assert (∀ st st', Forall2 (option_Forall2 (Forall2 P)) st st' →
    Forall2 P (merge_sort_aux R1 st l) (merge_sort_aux R2 st' k)) as Haux.
  { induction Hl as [|x y l k Hxy Hl IH]; intros st st' Hst; simpl.
    - by apply Forall2_merge_stack.
    - apply IH. apply Forall2_merge_list_to_stack; [done|]. by repeat constructor. }
  apply Haux. constructor.
Qed.
End SortRelated.

(** ** The scanner on printed text *)

Section ScanPrinted.
Context (h : hooks) (sort_keys : bool).
Context (Hpairs : ∀ kvs, NoDup kvs.*1 → object_pairs_hook h kvs = Some (JObj kvs)).

(** [p] is a text that scans to [v] wherever a value can stand. *)
Definition scans (p : list Z) (v : json) : Prop :=
  (∃ c r, p = c :: r ∧ is_ws c = false ∧ c ≠ 93 ∧ c ≠ 125) ∧
  ∀ rest fuel, delim rest → (length p < fuel)%nat → scan_once h fuel (p ++ rest) = Some (v, rest).

Lemma skip_ws_head c r : is_ws c = false → skip_ws (c :: r) = c :: r.
Proof. intros Hc. by apply lstrip_by_id. Qed.

Lemma scans_skip p v rest : scans p v → skip_ws (p ++ rest) = p ++ rest.
Proof. intros [(c & r & -> & Hc & _) _]. by apply skip_ws_head. Qed.

Definition tail_of (ps : list (list Z)) : list Z := mjoin (cons 44 <$> ps).

Lemma comma_join_cons p ps : comma_join (p :: ps) = p ++ tail_of ps.
Proof.
  revert p. induction ps as [|q ps IH]; intros p; [simpl; by rewrite app_nil_r|].
  change (comma_join (p :: q :: ps)) with (p ++ [44] ++ comma_join (q :: ps)). by rewrite IH.
Qed.

Lemma tail_skip ps c rest : c = 93 ∨ c = 125 →
  skip_ws (tail_of ps ++ c :: rest) = tail_of ps ++ c :: rest ∧ delim (tail_of ps ++ c :: rest).
Proof. intros [-> | ->]; destruct ps; split; try done; simpl; auto. Qed.

Lemma tail_of_cons p ps : tail_of (p :: ps) = 44 :: p ++ tail_of ps.
Proof. done. Qed.

Lemma scan_items_tail ps vs :
  Forall2 scans ps vs → ∀ fuel rest, (length (tail_of ps) < fuel)%nat →
  scan_items h fuel (tail_of ps ++ 93 :: rest) = Some (vs, rest).
Proof.
  induction 1 as [|p v ps vs Hp Hps IH]; intros fuel rest Hf.
  { destruct fuel; [simpl in Hf; lia|]. done. }
  rewrite tail_of_cons in Hf |- *. simpl in Hf. rewrite length_app in Hf.
  destruct fuel as [|fuel]; [lia|].
  cbn [scan_items app expect]. change (44 =? 93) with false. change (44 =? 44) with true.
  cbn [mbind option_bind]. rewrite <-app_assoc, (scans_skip p v) by done.
  destruct (tail_skip ps 93 rest) as [Hsk Hde]; [by left|].
  destruct Hp as [_ Hp]. rewrite Hp by (done || lia). cbn [mbind option_bind].
  rewrite Hsk, IH by lia. done.
Qed.

Definition member_text (kp : list Z * list Z) : list Z := dump_string kp.1 ++ [58] ++ kp.2.

Lemma scan_member_text k p v rest fuel :
  Forall (λ c, 0 ≤ c) k → scans p v → delim rest → (length p + 1 < fuel)%nat →
  scan_member h fuel (member_text (k, p) ++ rest) = Some ((k, v), rest).
Proof.
  intros Hk Hp Hd Hf. destruct fuel as [|fuel]; [lia|]. unfold member_text, dump_string. simpl.
  rewrite <-!app_assoc. cbn [scan_member app expect]. change (34 =? 34) with true.
  cbn [mbind option_bind]. rewrite scan_dump_string by done. cbn [mbind option_bind].
  rewrite skip_ws_head by done. cbn [expect]. change (58 =? 58) with true.
  cbn [mbind option_bind]. rewrite (scans_skip p v) by done.
  destruct Hp as [_ Hp]. rewrite Hp by (done || lia). done.
Qed.

Definition member_scans (kp : list Z * list Z) (kv : list Z * json) : Prop :=
  kp.1 = kv.1 ∧ Forall (λ c, 0 ≤ c) kv.1 ∧ scans kp.2 kv.2.

Lemma member_text_head kp : ∃ r, member_text kp = 34 :: r.
Proof. by eexists. Qed.

Lemma member_text_length kp : (length kp.2 + 3 ≤ length (member_text kp))%nat.
Proof. unfold member_text, dump_string. simpl. rewrite !length_app. simpl. lia. Qed.

Lemma scan_members_tail kps kvs :
  Forall2 member_scans kps kvs → ∀ fuel rest,
  (length (tail_of (member_text <$> kps)) < fuel)%nat →
  scan_members h fuel (tail_of (member_text <$> kps) ++ 125 :: rest) = Some (kvs, rest).
Proof.
  induction 1 as [|kp kv kps kvs (Heq & Hk & Hp) Hps IH]; intros fuel rest Hf.
  { destruct fuel; [simpl in Hf; lia|]. done. }
  rewrite fmap_cons, tail_of_cons in Hf |- *. rewrite length_cons, length_app in Hf.
  destruct fuel as [|fuel]; [lia|].
  cbn [scan_members app expect]. change (44 =? 125) with false. change (44 =? 44) with true.
  cbn [mbind option_bind]. rewrite <-app_assoc.
  assert (skip_ws (member_text kp ++ tail_of (member_text <$> kps) ++ 125 :: rest)
    = member_text kp ++ tail_of (member_text <$> kps) ++ 125 :: rest) as ->
    by by destruct (member_text_head kp) as [r ->].
  destruct (tail_skip (member_text <$> kps) 125 rest) as [Hsk Hde]; [by right|].
  pose proof (member_text_length kp) as Hlen. destruct kp as [k p], kv as [k' v].
  simpl in Heq, Hk, Hp. subst k'. cbn [snd] in Hlen. rewrite (scan_member_text k p v) by (done || lia).
  cbn [mbind option_bind]. rewrite Hsk, IH by lia. done.
Qed.

(** ** The printer, one case at a time *)

Lemma dumps_arr l :
  dumps sort_keys (JArr l) =
  parts ← mapM (dumps sort_keys) l; Some ([91] ++ comma_join parts ++ [93]).
Proof using Type.
  cbn [dumps]. match goal with |- mbind _ (?g l) = _ =>
    assert (g l = mapM (dumps sort_keys) l) as ->; [|done] end.
  induction l as [|x l IH]; [done|]. simpl. rewrite IH. destruct (dumps sort_keys x); simpl; [|done].
  by destruct (mapM (dumps sort_keys) l).
Qed.

Definition dumps_item (kv : list Z * json) : option (list Z * list Z) :=
  p ← dumps sort_keys kv.2; Some (kv.1, p).

Lemma dumps_obj kvs :
  dumps sort_keys (JObj kvs) =
  parts ← mapM dumps_item kvs;
  let parts := if sort_keys then merge_sort (λ a b, zlist_le a.1 b.1) parts else parts in
  Some ([123] ++ comma_join (member_text <$> parts) ++ [125]).
Proof using Type.
  cbn [dumps]. match goal with |- mbind _ (?g kvs) = _ =>
    assert (g kvs = mapM dumps_item kvs) as ->; [|done] end.
  induction kvs as [|[k v] kvs IH]; [done|].
  change (mapM dumps_item ((k, v) :: kvs))
    with (y ← dumps_item (k, v); ys ← mapM dumps_item kvs; Some (y :: ys)).
  rewrite <-IH. unfold dumps_item. cbn [fst snd].
  destruct (dumps sort_keys v); [|done]. cbn [mbind option_bind]. by case_match.
Qed.

(** ** Each form of value *)

Lemma scans_number p v :
  (∀ rest, delim rest → number_head (p ++ rest) ∧ scan_number h (p ++ rest) = Some (v, rest)) →
  scans p v.
Proof.
  intros Hp. destruct (Hp [] I) as [Hh _]. rewrite app_nil_r in Hh.
  assert (Hc : ∃ c r, p = c :: r ∧ 45 ≤ c < 58).
  { destruct p as [|c r]; [done|]. exists c, r. split; [done|].
    destruct Hh as [Hd|[-> _]]; [unfold is_digit in Hd|]; lia. }
  destruct Hc as (c & r & -> & Hc). split.
  - exists c, r. split_and!; [done| |lia|lia]. unfold is_ws. lia.
  - intros rest fuel Hd Hf. destruct fuel as [|fuel]; [lia|].
    destruct (Hp rest Hd) as [Hn Hs]. cbn [app scan_once].
    replace (c =? 34) with false by lia. replace (c =? 91) with false by lia.
    replace (c =? 123) with false by lia. rewrite (scan_literal_number h (c :: r ++ rest)); done.
Qed.

Lemma scans_string s : Forall (λ c, 0 ≤ c) s → scans (dump_string s) (JStr s).
Proof.
  intros Hs. split; [by exists 34, (mjoin (escape_char <$> s) ++ [34])|].
  intros rest fuel _ Hf. destruct fuel as [|fuel]; [lia|]. unfold dump_string.
  rewrite <-!app_assoc. cbn [app scan_once]. change (34 =? 34) with true. cbv iota.
  by rewrite scan_dump_string.
Qed.

Lemma expect_head c x r : x ≠ c → expect c (x :: r) = None.
Proof. intros Hx. simpl. by replace (x =? c) with false by lia. Qed.

Lemma scans_array ps vs :
  Forall2 scans ps vs → scans ([91] ++ comma_join ps ++ [93]) (JArr vs).
Proof.
  intros Hps. split; [by exists 91, (comma_join ps ++ [93])|].
  intros rest fuel _ Hf. destruct fuel as [|fuel]; [lia|]. rewrite <-!app_assoc.
  cbn [app scan_once]. change (91 =? 34) with false. change (91 =? 91) with true. cbv iota.
  destruct Hps as [|p v ps vs Hp Hps].
  { simpl. done. }
  rewrite !length_app, comma_join_cons, length_app in Hf. simpl in Hf.
  rewrite comma_join_cons, <-app_assoc, (scans_skip p v) by done.
  destruct Hp as [(c & r & -> & _ & Hc & _) Hp]. cbn [app] in *. rewrite expect_head by done.
  destruct (tail_skip ps 93 rest) as [Hsk Hde]; [by left|].
  rewrite Hp by (done || (simpl in *; lia)). cbn [mbind option_bind].
  rewrite Hsk, (scan_items_tail ps vs) by (done || lia). done.
Qed.

Lemma scans_object kps kvs :
  Forall2 member_scans kps kvs → NoDup kvs.*1 →
  scans ([123] ++ comma_join (member_text <$> kps) ++ [125]) (JObj kvs).
Proof.
  intros Hps Hnd. split; [by exists 123, (comma_join (member_text <$> kps) ++ [125])|].
  intros rest fuel _ Hf. destruct fuel as [|fuel]; [lia|]. rewrite <-!app_assoc.
  cbn [app scan_once]. change (123 =? 34) with false. change (123 =? 91) with false.
  change (123 =? 123) with true. cbv iota.
  destruct Hps as [|[k p] [k' v] kps kvs (Heq & Hk & Hp) Hps].
  { simpl. rewrite Hpairs by done. done. }
  simpl in Heq, Hk, Hp. subst k'.
  rewrite !length_app, fmap_cons, comma_join_cons, length_app in Hf. simpl length in Hf at 1 4.
  rewrite fmap_cons, comma_join_cons, <-app_assoc.
  destruct (tail_skip (member_text <$> kps) 125 rest) as [Hsk Hde]; [by right|].
  destruct (member_text_head (k, p)) as [r Hr]. pose proof (member_text_length (k, p)) as Hlen.
  cbn [snd] in Hlen.
  set (X := member_text (k, p) ++ tail_of (member_text <$> kps) ++ 125 :: rest).
  assert (skip_ws X = X) as -> by (unfold X; by rewrite Hr).
  assert (expect 125 X = None) as -> by (unfold X; by rewrite Hr). unfold X. cbv zeta.
  rewrite (scan_member_text k p v) by (done || lia). cbn [mbind option_bind].
  rewrite Hsk, (scan_members_tail kps kvs) by (done || lia). cbn [mbind option_bind].
  by rewrite Hpairs.
Qed.

(** ** The round trip *)

Lemma canon_items_keys b kvs :
  ((λ kv : list Z * json, (kv.1, canon b kv.2)) <$> kvs).*1 = kvs.*1.
Proof using Type. rewrite <-list_fmap_compose. by apply list_fmap_ext. Qed.

Lemma dumps_scans j : ∀ s, readable h j → dumps sort_keys j = Some s → scans s (canon sort_keys j).
Proof.
  induction j as [| b | z | f | t | l IH | kvs IH] using json_ind'; intros s Hr Hd.
  - injection Hd as <-. split; [by eexists _, _|]. intros rest [|fuel] _ Hf; [lia|]. done.
  - destruct b; injection Hd as <-; (split; [by eexists _, _|]);
      intros rest [|fuel] _ Hf; try lia; done.
  - simpl in Hd. unfold dump_int in Hd. case_match; [done|]. injection Hd as <-.
    apply scans_number. intros rest Hde. split.
    + eapply (scan_int_number _ (str_of_int z)), scan_int_app; [done|]. apply scan_int_str.
    + by apply scan_number_int.
  - destruct f as [r| |]; [|done..]. injection Hd as <-. destruct Hr as [Hr Hp].
    apply scans_number. intros rest Hde. by apply scan_number_float.
  - injection Hd as <-. by apply scans_string.
  - rewrite dumps_arr in Hd. destruct (mapM (dumps sort_keys) l) as [ps|] eqn:Hm; [|done].
    injection Hd as <-. simpl canon. apply scans_array. apply mapM_Some in Hm.
    simpl in Hr. revert Hr. induction Hm as [|x p l ps Hx Hm IHm]; intros Hr; [constructor|].
    apply Forall_cons in IH as [IHx IH]. destruct Hr as [Hrx Hr]. csimpl.
    constructor; [by apply IHx|]. by apply IHm.
  - rewrite dumps_obj in Hd. destruct (mapM dumps_item kvs) as [kps|] eqn:Hm; [|done].
    injection Hd as <-. destruct Hr as (Hnd & Hk & Hr). apply mapM_Some in Hm.
    assert (Hall : Forall2 member_scans kps
              ((λ kv, (kv.1, canon sort_keys kv.2)) <$> kvs)).
    { clear Hnd. revert Hr. induction Hm as [|[k v] kp kvs kps Hx Hm IHm]; intros Hr; [constructor|].
      apply Forall_cons in IH as [IHx IH]. apply Forall_cons in Hk as [Hkx Hk].
      destruct Hr as [Hrx Hr]. unfold dumps_item in Hx. cbn [fst snd] in *.
      destruct (dumps sort_keys v) as [p|] eqn:Hp; [|done]. injection Hx as <-. csimpl.
      constructor; [|by apply IHm]. split_and!; [done|done|]. by apply IHx. }
    simpl canon. cbv zeta. apply scans_object.
    + destruct sort_keys; [|done]. unfold sort_items.
      apply Forall2_merge_sort; [|done]. intros [k p] [k' p'] [k1 v] [k1' v'] (-> & _) (-> & _). done.
    + destruct sort_keys.
      * unfold sort_items. rewrite merge_sort_Permutation. by rewrite canon_items_keys.
      * by rewrite canon_items_keys.
Qed.

(** [json.loads(json.dumps(j))] is [j] with its items in the printed order. *)
Lemma loads_dumps j s :
  readable h j → dumps sort_keys j = Some s → loads h s = Some (canon sort_keys j).
Proof.
  intros Hr Hd. destruct (dumps_scans j s Hr Hd) as [(c & r & Hs & Hc & _) Hscan].
  specialize (Hscan [] (S (S (length s))) I ltac:(lia)). rewrite app_nil_r in Hscan.
  unfold loads. assert (starts_with [65279] s = false) as ->.
  { rewrite Hs. cbn [starts_with]. destruct (Z.eqb_spec 65279 c) as [<-|]; [|done]. exfalso.
    rewrite Hs in Hscan. discriminate. }
  rewrite Hs at 2. rewrite skip_ws_head, <-Hs by done.
  by rewrite Hscan.
Qed.
End ScanPrinted.

(** ** The standard integer hook *)

Lemma default_int_str z :
  zlen (digits (Z.abs z)) ≤ MAX_INT_DIGITS → default_int (str_of_int z) = Some (JInt z).
Proof.
  intros Hz. unfold default_int, str_of_int.
  destruct (Z.ltb_spec z 0) as [Hneg|Hpos].
  - replace (Z.abs z) with (- z) in Hz by lia. replace (_ <? _) with false by lia.
    destruct (digits_spec (- z)) as [-> _]; [lia|]. do 2 f_equal. lia.
  - replace (Z.abs z) with z in Hz by lia. destruct (digits_spec z Hpos) as [Hd Hall].
    destruct (decide (z = 0)) as [->|Hnz]; [done|].
    destruct (digits_head z) as (c & r & Hh & Hc); [lia|]. rewrite Hh in *.
    destruct c as [|p|p]; [lia| |lia].
    assert (Hne : Z.pos p ≠ 45) by lia.
    do 6 (destruct p as [p|p|]; try (exfalso; clear -Hc; lia));
      try (exfalso; clear -Hne; lia); replace (_ <? _) with false by lia; by rewrite Hd.
Qed.

(** * Values that survive printing

    [plain j]: what a Python caller can hand to [json.dumps] and read back
    unchanged by the decoders of the package: integers below 64 bits, finite
    floats (identified with their [repr], which [float] reads back), text without
    lone surrogates and dicts.  Its text is printable, valid Unicode and readable. *)

From S2P Require Import Prelude Text Json.

#[local] Set Default Proof Using "Type*".


Definition clean_char (c : Z) : Prop := 0 ≤ c < 1114112 ∧ ¬ 55296 ≤ c ≤ 57343.

Lemma utf8_clean s : Forall clean_char s → ∃ b, utf8_encode s = Some b.
Proof.
  induction 1 as [|c s [Hc Hs] _ [b Hb]]; [by exists []|]. simpl. rewrite Hb. unfold utf8_char.
  replace ((c <? 0) || (1114112 <=? c)) with false by lia.
  replace ((55296 <=? c) && (c <=? 57343)) with false by lia. repeat case_match; eauto; done.
Qed.

Lemma utf8_char_clean c b : utf8_char c = Some b → clean_char c.
Proof. unfold utf8_char, clean_char. repeat case_match; try done; lia. Qed.

Lemma utf8_clean_inv s b : utf8_encode s = Some b → Forall clean_char s.
Proof.
  revert b. induction s as [|c s IH]; intros b; [constructor|]. simpl.
  destruct (utf8_char c) eqn:Ec; [|done]. destruct (utf8_encode s); [|done]. intros _.
  constructor; [by eapply utf8_char_clean|]. by eapply IH.
Qed.

Lemma clean_ascii s : Forall (λ c, 0 ≤ c < 128) s → Forall clean_char s.
Proof. intros Hs. eapply Forall_impl; [exact Hs|]. unfold clean_char. simpl. lia. Qed.

Lemma clean_escape c : clean_char c → Forall clean_char (escape_char c).
Proof.
  intros [Hc Hs]. unfold escape_char, clean_char.
  repeat (case_match; [by repeat constructor; lia|]).
  case_match; [|by repeat constructor; lia].
  repeat constructor; try lia; unfold hex_digit; repeat case_match; try lia;
    pose proof (Z.div_pos c 16); pose proof (Z.mod_pos_bound c 16);
    pose proof (Z.div_lt_upper_bound c 16 2); lia.
Qed.

Lemma clean_wrap a b s : 0 ≤ a < 128 → 0 ≤ b < 128 → Forall clean_char s →
  Forall clean_char ([a] ++ s ++ [b]).
Proof.
  intros Ha Hb Hs. rewrite !Forall_app. split_and!; [|done|]; apply clean_ascii; by constructor.
Qed.

Lemma clean_dump_string s : Forall clean_char s → Forall clean_char (dump_string s).
Proof.
  intros Hs. apply (clean_wrap 34 34); [lia..|].
  induction Hs as [|c s Hc Hs IH]; csimpl; [constructor|].
  rewrite Forall_app. split; [by apply clean_escape|done].
Qed.

Lemma clean_digits n : 0 ≤ n → Forall clean_char (digits n).
Proof.
  intros Hn. destruct (digits_spec n Hn) as [_ Hd]. apply Forall_forall. intros c Hc.
  rewrite forallb_forall in Hd. apply list_elem_of_In, Hd in Hc. unfold is_digit in Hc.
  unfold clean_char. lia.
Qed.

Lemma clean_comma_join ps : Forall (Forall clean_char) ps → Forall clean_char (comma_join ps).
Proof.
  induction 1 as [|p ps Hp Hps IH]; [constructor|]. destruct ps as [|q ps]; [done|].
  change (comma_join (p :: q :: ps)) with (p ++ [44] ++ comma_join (q :: ps)).
  rewrite !Forall_app. split_and!; [done|by apply clean_ascii; repeat constructor|done].
Qed.

Section Plain.
Context (py_float : list Z → pyfloat).

Fixpoint plain (j : json) : Prop :=
  match j with
  | JNull | JBool _ => True
  | JInt z => Z.abs z < 2 ^ 64
  | JFloat (FFinite r) => float_text r = true ∧ Forall (λ c, 0 ≤ c < 128) r ∧ zlen r ≤ 128 ∧
      py_float r = FFinite r
  | JFloat _ => False
  | JStr s => Forall clean_char s
  | JArr l => foldr and True (plain <$> l)
  | JObj kvs => NoDup kvs.*1 ∧ foldr and True ((λ kv, Forall clean_char kv.1 ∧ plain kv.2) <$> kvs)
  end.

Lemma clean_dumps b j : ∀ s, plain j → dumps b j = Some s → Forall clean_char s.
Proof.
  induction j as [| c | z | f | t | l IH | kvs IH] using json_ind'; intros s Hc Hd.
  - injection Hd as <-. apply clean_ascii. by vm_compute; repeat constructor.
  - destruct c; injection Hd as <-; apply clean_ascii; by vm_compute; repeat constructor.
  - simpl in Hd. unfold dump_int in Hd. case_match; [done|]. injection Hd as <-.
    unfold str_of_int. case_match; [constructor|]; try (apply clean_digits; lia).
    unfold clean_char. lia.
  - destruct f as [r| |]; [|done..]. injection Hd as <-. by apply clean_ascii, Hc.
  - injection Hd as <-. by apply clean_dump_string.
  - rewrite dumps_arr in Hd. destruct (mapM (dumps b) l) as [ps|] eqn:Hm; [|done].
    injection Hd as <-. apply mapM_Some in Hm. apply (clean_wrap 91 93); [lia..|].
    apply clean_comma_join. simpl in Hc. revert IH Hc.
    induction Hm as [|x p l ps Hx Hm IHm]; intros IH Hc; [constructor|].
    apply Forall_cons in IH as [IHx IH]. destruct Hc as [Hcx Hc].
    constructor; [by apply IHx|by apply IHm].
  - rewrite dumps_obj in Hd. destruct (mapM (dumps_item b) kvs) as [ps|] eqn:Hm; [|done].
    injection Hd as <-. apply mapM_Some in Hm. apply (clean_wrap 123 125); [lia..|].
    apply clean_comma_join, Forall_fmap.
    assert (Hall : Forall (Forall clean_char ∘ member_text) ps).
    { destruct Hc as [_ Hc]. revert IH Hc.
      induction Hm as [|[k v] p kvs ps Hx Hm IHm]; intros IH Hc; [constructor|].
      apply Forall_cons in IH as [IHx IH]. destruct Hc as [[Hk Hcx] Hc].
      constructor; [|by apply IHm]. unfold dumps_item in Hx. cbn [fst snd] in *.
      destruct (dumps b v) as [q|] eqn:Hq; [|done]. injection Hx as <-.
      apply Forall_app. split; [by apply clean_dump_string|]. apply Forall_app.
      split; [by apply clean_ascii; repeat constructor|by apply IHx]. }
    destruct b; [|done]. by rewrite merge_sort_Permutation.
Qed.

Lemma digits_fuel_bound fuel n k :
  0 ≤ n < 10 ^ Z.of_nat k → (0 < k)%nat → (length (digits_fuel fuel n) ≤ k)%nat.
Proof using Type.
  revert n k. induction fuel as [|fuel IH]; intros n k Hn Hk; simpl; [lia|].
  destruct (Z.ltb_spec n 10); simpl; [lia|]. rewrite length_app. simpl.
  destruct k as [|[|k]]; [lia|simpl in Hn; lia|].
  assert (length (digits_fuel fuel (n / 10)) ≤ S k)%nat; [|lia]. apply IH; [|lia].
  rewrite (Nat2Z.inj_succ (S k)), Z.pow_succ_r in Hn by lia.
  split; [apply Z.div_pos; lia|apply Z.div_lt_upper_bound; lia].
Qed.

Lemma digits_bound n : 0 ≤ n < 2 ^ 64 → zlen (digits n) ≤ 20.
Proof using Type.
  intros Hn. unfold digits, zlen.
  assert (length (digits_fuel (S (Z.to_nat (Z.log2 n))) n) ≤ 20)%nat; [|lia].
  apply digits_fuel_bound; [|lia]. change (10 ^ Z.of_nat 20) with 100000000000000000000. lia.
Qed.

Lemma dump_int_small z : Z.abs z < 2 ^ 64 → dump_int z = Some (str_of_int z).
Proof using Type.
  intros Hz. unfold dump_int. pose proof (digits_bound (Z.abs z)). unfold MAX_INT_DIGITS.
  by replace (_ <? _) with false by lia.
Qed.

Lemma plain_dumps b j : plain j → ∃ s, dumps b j = Some s.
Proof.
  induction j as [| c | z | f | t | l IH | kvs IH] using json_ind'; intros Hp.
  - by eexists.
  - destruct c; by eexists.
  - eexists. simpl. by apply dump_int_small.
  - destruct f; [by eexists|done..].
  - by eexists.
  - rewrite dumps_arr. assert (∃ ps, mapM (dumps b) l = Some ps) as [ps ->]; [|by eexists].
    apply mapM_is_Some. simpl in Hp. induction IH as [|x l Hx IH IHl]; [constructor|].
    destruct Hp as [Hpx Hp]. constructor; [by apply Hx|by apply IHl].
  - rewrite dumps_obj. assert (∃ ps, mapM (dumps_item b) kvs = Some ps) as [ps ->]; [|by eexists].
    apply mapM_is_Some. destruct Hp as [_ Hp].
    induction IH as [|[k v] kvs Hx IH IHl]; [constructor|].
    destruct Hp as [[_ Hpx] Hp]. constructor; [|by apply IHl].
    destruct (Hx Hpx) as [s Hs]. unfold dumps_item. simpl in *. rewrite Hs. by eexists.
Qed.

(** The hooks of a decoder read small integers and represented floats back. *)
Definition reads_plain (h : hooks) : Prop :=
  (∀ z, Z.abs z < 2 ^ 64 → parse_int h (str_of_int z) = Some (JInt z)) ∧
  (∀ r, zlen r ≤ 128 → py_float r = FFinite r → parse_float h r = Some (JFloat (FFinite r))).

Lemma plain_readable h j : reads_plain h → plain j → readable h j.
Proof.
  intros [Hint Hfloat].
  induction j as [| c | z | f | t | l IH | kvs IH] using json_ind'; intros Hp; try done.
  - by apply Hint.
  - destruct f; [|done..]. destruct Hp as (? & _ & ? & ?). split; [done|]. by apply Hfloat.
  - simpl in *. eapply Forall_impl; [exact Hp|]. by intros c [[? _] _].
  - simpl in *. induction IH as [|x l Hx IH IHl]; [done|]. destruct Hp as [Hpx Hp].
    split; [by apply Hx|by apply IHl].
  - destruct Hp as [Hnd Hp]. split; [done|]. clear Hnd.
    induction IH as [|[k v] kvs Hx IH IHl]; [by split; [constructor|]|].
    destruct Hp as [[Hk Hpx] Hp]. destruct (IHl Hp) as [Hks Hr]. split.
    + constructor; [|done]. eapply Forall_impl; [exact Hk|]. by intros c [[? _] _].
    + split; [by apply Hx|done].
Qed.

(** A plain value prints to encodable text that reads back as the value. *)
Lemma plain_roundtrip h b j :
  reads_plain h → (∀ kvs, NoDup kvs.*1 → object_pairs_hook h kvs = Some (JObj kvs)) → plain j →
  ∃ s encoded, dumps b j = Some s ∧ utf8_encode s = Some encoded ∧ loads h s = Some (canon b j).
Proof.
  intros Hh Hpairs Hp. destruct (plain_dumps b j Hp) as [s Hs].
  destruct (utf8_clean s (clean_dumps b j s Hp Hs)) as [e He]. exists s, e.
  split_and!; [done|done|]. apply loads_dumps; [done| |done]. by apply plain_readable.
Qed.
End Plain.

Lemma unique_pairs_dict kvs : NoDup kvs.*1 → unique_pairs kvs = Some (JObj kvs).
Proof. intros Hnd. unfold unique_pairs. by rewrite decide_True. Qed.

Lemma default_int_small z : Z.abs z < 2 ^ 64 → default_int (str_of_int z) = Some (JInt z).
Proof.
  intros Hz. apply default_int_str. pose proof (digits_bound (Z.abs z)).
  unfold MAX_INT_DIGITS. lia.
Qed.
