(* ===== verification/RuleDoc.v ===== *)
(** * Rule documents: the first half of [rules.py]

    The condition language of mail filing rules: its typed AST, the strict
    parser [condition_from_mapping], the printer [condition_to_mapping], the
    work-list that bounds a condition, and [Rule] with its canonical JSON.

    A document is a JSON value ([json], a Python object made of dicts with
    string keys, lists, strings, integers, booleans and None); an absent key
    read with [mapping.get] is None.  [str.casefold] maps characters one by one:
    its ASCII part is written out and its table beyond ASCII is a parameter. *)

From S2P Require Import Prelude Text Errors Json.

Definition MAX_RULE_DEPTH : Z := 8.
Definition MAX_RULE_NODES : Z := 100.
Definition MAX_RULE_JSON_BYTES : Z := 64 * 1024.
Definition MAX_RULE_VALUE_CHARACTERS : Z := 2048.
Definition MAX_RULE_VALUE_BYTES : Z := 8 * 1024.
Definition MAX_HEADER_NAME_CHARACTERS : Z := 78.
Definition MAX_TARGET_MAILBOX_CHARACTERS : Z := 255.
Definition MAX_TARGET_MAILBOX_BYTES : Z := 1024.

Inductive StringField : Type := FROM | TO | CC | BCC | REPLY_TO | SUBJECT | LIST_ID | HEADER.
Inductive StringOperator : Type :=
  EQUALS | NOT_EQUALS | CONTAINS | NOT_CONTAINS | STARTS_WITH | ENDS_WITH | EXISTS.
Inductive NumericOperator : Type := EQ | LT | LTE | GT | GTE.

#[export] Instance StringField_eq_dec : EqDecision StringField.
Proof. solve_decision. Defined.
#[export] Instance StringOperator_eq_dec : EqDecision StringOperator.
Proof. solve_decision. Defined.
#[export] Instance NumericOperator_eq_dec : EqDecision NumericOperator.
Proof. solve_decision. Defined.

(** The [.value] of the enumeration members. *)
Definition string_field_value (f : StringField) : list Z :=
  match f with
  | FROM => u "from" | TO => u "to" | CC => u "cc" | BCC => u "bcc"
  | REPLY_TO => u "reply_to" | SUBJECT => u "subject" | LIST_ID => u "list_id"
  | HEADER => u "header"
  end.
Definition string_operator_value (o : StringOperator) : list Z :=
  match o with
  | EQUALS => u "equals" | NOT_EQUALS => u "not_equals" | CONTAINS => u "contains"
  | NOT_CONTAINS => u "not_contains" | STARTS_WITH => u "starts_with"
  | ENDS_WITH => u "ends_with" | EXISTS => u "exists"
  end.
Definition numeric_operator_value (o : NumericOperator) : list Z :=
  match o with EQ => u "eq" | LT => u "lt" | LTE => u "lte" | GT => u "gt" | GTE => u "gte" end.
Definition SIZE : list Z := u "size".
Definition HAS_ATTACHMENT : list Z := u "has_attachment".
Definition BOOLEAN_EQ : list Z := u "eq".

Definition string_fields : list StringField :=
  [FROM; TO; CC; BCC; REPLY_TO; SUBJECT; LIST_ID; HEADER].
Definition string_operators : list StringOperator :=
  [EQUALS; NOT_EQUALS; CONTAINS; NOT_CONTAINS; STARTS_WITH; ENDS_WITH; EXISTS].
Definition numeric_operators : list NumericOperator := [EQ; LT; LTE; GT; GTE].

(** [enum_type(value)]: the member with that value. *)
Definition _enum_value {E} (members : list E) (value_of : E → list Z) (value : json)
  : result exc E :=
  match value with
  | JStr s => match find (λ e, str_eqb (value_of e) s) members with
              | Some e => Ok e
              | None => Err RuleValidationError
              end
  | _ => Err RuleValidationError
  end.

(** ** Text validation *)

(** Categories Cc (C0, DEL and C1 controls) and Cs (surrogates). *)
Definition unsafe_char (c : Z) : bool :=
  (c <? 32) || ((127 <=? c) && (c <=? 159)) || ((55296 <=? c) && (c <=? 57343)).

Definition _validate_text (value : json) (maximum_characters maximum_bytes : Z)
  : result exc (list Z) :=
  match value with
  | JStr s =>
      if bool_decide (s = []) then Err RuleValidationError
      else if existsb unsafe_char s then Err RuleValidationError
      else match utf8_encode s with
           | None => Err UnicodeEncodeError
           | Some encoded =>
               if (maximum_characters <? zlen s) || (maximum_bytes <? zlen encoded)
               then Err RuleValidationError else Ok s
           end
  | _ => Err RuleValidationError
  end.

Definition header_name_char (c : Z) : bool :=
  is_alnum c || in_chars (u "!#$%&'*+.^_`|~-") c.

Definition _HEADER_NAME_RE (s : list Z) : bool := match_plus header_name_char s.

(** ** The typed conditions *)

Inductive condition : Type :=
| AndCondition (conditions : list condition)
| OrCondition (conditions : list condition)
| NotCondition (c : condition)
| StringCondition (field : StringField) (operator : StringOperator)
    (value header : option (list Z))
| NumericCondition (operator : NumericOperator) (value : Z)
| BooleanCondition (value : bool).

(** [_validate_condition_budget]: the stack of the code, its top first. *)
Definition children (node : condition) : list condition :=
  match node with
  | AndCondition l | OrCondition l => l
  | NotCondition c => [c]
  | _ => []
  end.

Fixpoint budget_loop (fuel : nat) (nodes : Z) (stack : list (condition * Z)) : result exc unit :=
  match fuel with
  | O => Err OutOfFuel
  | S fuel =>
      match stack with
      | [] => Ok tt
      | (node, depth) :: stack =>
          let nodes := nodes + 1 in
          if MAX_RULE_NODES <? nodes then Err RuleValidationError
          else if MAX_RULE_DEPTH <? depth then Err RuleValidationError
          else budget_loop fuel nodes
                 (reverse ((λ child, (child, depth + 1)) <$> children node) ++ stack)
      end
  end.

(** Every round counts a node, and the 101st raises. *)
Definition BUDGET_FUEL : nat := 102.
Definition _validate_condition_budget (c : condition) : result exc unit :=
  budget_loop BUDGET_FUEL 0 [(c, 1)].

Section Documents.
Context (unicode_casefold : Z → list Z).

Definition casefold_char (c : Z) : list Z :=
  if c <? 128 then [lower_char c] else unicode_casefold c.
Definition casefold (s : list Z) : list Z := mjoin (casefold_char <$> s).

Definition _validate_header_name (value : json) : result exc (list Z) :=
  name ← _validate_text value MAX_HEADER_NAME_CHARACTERS MAX_HEADER_NAME_CHARACTERS;
  if _HEADER_NAME_RE name then Ok (casefold name) else Err RuleValidationError.

Definition _validate_target_mailbox (value : json) : result exc (list Z) :=
  mailbox ← _validate_text value MAX_TARGET_MAILBOX_CHARACTERS MAX_TARGET_MAILBOX_BYTES;
  if str_eqb mailbox (strip mailbox) then Ok mailbox else Err RuleValidationError.

(** ** Constructors with their [__post_init__] *)

Definition make_and (l : list condition) : result exc condition :=
  match l with [] => Err RuleValidationError | _ => Ok (AndCondition l) end.
Definition make_or (l : list condition) : result exc condition :=
  match l with [] => Err RuleValidationError | _ => Ok (OrCondition l) end.

Definition make_string (field : StringField) (operator : StringOperator) (value header : json)
  : result exc condition :=
  header ← match field with
           | HEADER => h ← _validate_header_name header; Ok (Some h)
           | _ => match header with JNull => Ok None | _ => Err RuleValidationError end
           end;
  value ← match operator with
          | EXISTS => match value with JNull => Ok None | _ => Err RuleValidationError end
          | _ => v ← _validate_text value MAX_RULE_VALUE_CHARACTERS MAX_RULE_VALUE_BYTES;
                 Ok (Some v)
          end;
  Ok (StringCondition field operator value header).

Definition make_numeric (operator value : json) : result exc condition :=
  operator ← _enum_value numeric_operators numeric_operator_value operator;
  match value with
  | JInt v => if (0 <=? v) && (v <=? 2 ^ 63 - 1) then Ok (NumericCondition operator v)
              else Err RuleValidationError
  | _ => Err RuleValidationError
  end.

Definition make_boolean (operator value : json) : result exc condition :=
  _enum_value [tt] (λ _, BOOLEAN_EQ) operator ≫= λ _,
  match value with
  | JBool b => Ok (BooleanCondition b)
  | _ => Err RuleValidationError
  end.

(** ** Parsing *)

Definition _require_mapping (value : json) : result exc (list (list Z * json)) :=
  match value with JObj kvs => Ok kvs | _ => Err RuleValidationError end.

(** The keys are exactly the required ones ([optional] is never given). *)
Definition _require_keys (mapping : list (list Z * json)) (required : list (list Z))
  : result exc unit :=
  if forallb (λ k, bool_decide (k ∈ obj_keys mapping)) required
     && forallb (λ k, bool_decide (k ∈ required)) (obj_keys mapping)
  then Ok tt else Err RuleValidationError.

(** [mapping.get(key)]. *)
Definition get_key (k : list Z) (mapping : list (list Z * json)) : json :=
  default JNull (obj_get k mapping).

Definition required_string_keys (field : StringField) (operator : StringOperator)
  : list (list Z) :=
  [u "field"; u "operator"]
  ++ (if decide (field = HEADER) then [u "header"] else [])
  ++ (if decide (operator = EXISTS) then [] else [u "value"]).

Definition leaf_from_mapping (mapping : list (list Z * json)) : result exc condition :=
  let field_value := get_key (u "field") mapping in
  match _enum_value string_fields string_field_value field_value with
  | Ok string_field =>
      string_operator ← _enum_value string_operators string_operator_value
                          (get_key (u "operator") mapping);
      _require_keys mapping (required_string_keys string_field string_operator) ≫= λ _,
      make_string string_field string_operator (get_key (u "value") mapping)
        (get_key (u "header") mapping)
  | Err _ =>
      if bool_decide (field_value = JStr SIZE) then
        _require_keys mapping [u "field"; u "operator"; u "value"] ≫= λ _,
        make_numeric (get_key (u "operator") mapping) (get_key (u "value") mapping)
      else if bool_decide (field_value = JStr HAS_ATTACHMENT) then
        _require_keys mapping [u "field"; u "operator"; u "value"] ≫= λ _,
        make_boolean (get_key (u "operator") mapping) (get_key (u "value") mapping)
      else Err RuleValidationError
  end.

(** The condition, after its budget check. *)
Definition checked (c : condition) : result exc condition :=
  _validate_condition_budget c ≫= λ _, Ok c.

(** [levels] is [MAX_RULE_DEPTH + 1 - _depth]: at zero the depth guard raises. *)
Fixpoint condition_at (levels : nat) (document : json) : result exc condition :=
  match levels with
  | O => Err RuleValidationError
  | S levels =>
      mapping ← _require_mapping document;
      match obj_get (u "op") mapping with
      | Some (JStr operation) =>
          if str_eqb operation (u "and") || str_eqb operation (u "or") then
            _require_keys mapping [u "op"; u "conditions"] ≫= λ _,
            match get_key (u "conditions") mapping with
            | JArr children =>
                if MAX_RULE_NODES <? zlen children then Err RuleValidationError
                else
                  parsed ← result_map (condition_at levels) children;
                  condition ← (if str_eqb operation (u "and") then make_and parsed
                               else make_or parsed);
                  checked condition
            | _ => Err RuleValidationError
            end
          else if str_eqb operation (u "not") then
            _require_keys mapping [u "op"; u "condition"] ≫= λ _,
            child ← condition_at levels (get_key (u "condition") mapping);
            checked (NotCondition child)
          else Err RuleValidationError
      | Some _ => Err RuleValidationError
      | None => leaf ← leaf_from_mapping mapping; checked leaf
      end
  end.

Definition condition_from_mapping (document : json) : result exc condition :=
  condition_at (Z.to_nat MAX_RULE_DEPTH) document.

(** ** Printing *)

Definition opt_item (k : list Z) (v : option (list Z)) : list (list Z * json) :=
  match v with Some s => [(k, JStr s)] | None => [] end.

Fixpoint condition_to_mapping (c : condition) : json :=
  match c with
  | AndCondition l =>
      JObj [(u "conditions", JArr (condition_to_mapping <$> l)); (u "op", JStr (u "and"))]
  | OrCondition l =>
      JObj [(u "conditions", JArr (condition_to_mapping <$> l)); (u "op", JStr (u "or"))]
  | NotCondition c => JObj [(u "condition", condition_to_mapping c); (u "op", JStr (u "not"))]
  | StringCondition field operator value header =>
      JObj ([(u "field", JStr (string_field_value field));
             (u "operator", JStr (string_operator_value operator))]
            ++ opt_item (u "header") header ++ opt_item (u "value") value)
  | NumericCondition operator value =>
      JObj [(u "field", JStr SIZE); (u "operator", JStr (numeric_operator_value operator));
            (u "value", JInt value)]
  | BooleanCondition value =>
      JObj [(u "field", JStr HAS_ATTACHMENT); (u "operator", JStr BOOLEAN_EQ);
            (u "value", JBool value)]
  end.

(** ** [Rule] *)

Record Rule := MkRule { rule_condition : condition; target_mailbox : list Z }.

Definition make_rule (c : condition) (target : json) : result exc Rule :=
  _validate_condition_budget c ≫= λ _,
  mailbox ← _validate_target_mailbox target;
  Ok (MkRule c mailbox).

Definition from_mapping (document : json) : result exc Rule :=
  mapping ← _require_mapping document;
  _require_keys mapping [u "condition"; u "target_mailbox"] ≫= λ _,
  condition ← condition_from_mapping (get_key (u "condition") mapping);
  make_rule condition (get_key (u "target_mailbox") mapping).

Definition to_mapping (r : Rule) : json :=
  JObj [(u "condition", condition_to_mapping (rule_condition r));
        (u "target_mailbox", JStr (target_mailbox r))].

(** [None] is ValueError, which a valid rule never meets. *)
Definition canonical_json (r : Rule) : option (list Z) := dumps true (to_mapping r).

(** ** Documents as JSON text *)

Context (py_float : list Z → pyfloat).

(** [object_pairs_hook=_reject_duplicate_keys, parse_constant=_reject_json_constant]. *)
Definition rule_hooks : hooks :=
  Hooks default_int (λ s, Some (JFloat (py_float s))) (λ _, None) unique_pairs.

Definition _load_rule_json (document : list Z) : result exc json :=
  match utf8_encode document with
  | None => Err RuleValidationError
  | Some encoded =>
      if MAX_RULE_JSON_BYTES <? zlen encoded then Err RuleValidationError
      else match loads rule_hooks document with
           | Some (JObj kvs) => Ok (JObj kvs)
           | _ => Err RuleValidationError
           end
  end.

Definition from_json (document : list Z) : result exc Rule :=
  loaded ← _load_rule_json document; from_mapping loaded.
End Documents.
