(* ===== verification/RuleDocSpecs.v ===== *)
(** * Rule documents: theorems

    The work-list of [_validate_condition_budget] decides the recursive measures
    [nodes] and [height]; parsed conditions are well formed and within bounds;
    parsing inverts printing. *)

From S2P Require Import Prelude Text Errors Json RuleDoc.

(** ** Measures and induction *)

Section CondInd.
Context (P : condition → Prop).
Context (Hand : ∀ l, Forall P l → P (AndCondition l)) (Hor : ∀ l, Forall P l → P (OrCondition l))
  (Hnot : ∀ c, P c → P (NotCondition c)) (Hstr : ∀ f o v h, P (StringCondition f o v h))
  (Hnum : ∀ o v, P (NumericCondition o v)) (Hbool : ∀ b, P (BooleanCondition b)).

Fixpoint condition_ind' (c : condition) : P c :=
  let all := fix go (l : list condition) : Forall P l :=
    match l with
    | [] => Forall_nil_2 P
    | x :: l => Forall_cons_2 P x l (condition_ind' x) (go l)
    end in
  match c with
  | AndCondition l => Hand l (all l)
  | OrCondition l => Hor l (all l)
  | NotCondition c => Hnot c (condition_ind' c)
  | StringCondition f o v h => Hstr f o v h
  | NumericCondition o v => Hnum o v
  | BooleanCondition b => Hbool b
  end.
End CondInd.

Definition zsum (l : list Z) : Z := foldr Z.add 0 l.
Definition zmax (l : list Z) : Z := foldr Z.max 0 l.

Fixpoint cond_nodes (c : condition) : Z :=
  match c with
  | AndCondition l | OrCondition l => 1 + zsum (cond_nodes <$> l)
  | NotCondition c => 1 + cond_nodes c
  | _ => 1
  end.

Fixpoint cond_height (c : condition) : Z :=
  match c with
  | AndCondition l | OrCondition l => 1 + zmax (cond_height <$> l)
  | NotCondition c => 1 + cond_height c
  | _ => 1
  end.

Lemma zmax_nonneg l : 0 ≤ zmax l.
Proof. induction l; simpl; lia. Qed.

Lemma cond_nodes_children c : cond_nodes c = 1 + zsum (cond_nodes <$> children c).
Proof. destruct c; simpl; lia. Qed.

Lemma cond_height_nonneg c : 0 ≤ cond_height c.
Proof.
  induction c using condition_ind'; simpl; try lia;
  pose proof (zmax_nonneg (cond_height <$> l)); lia.
Qed.

Lemma cond_height_children c : cond_height c = 1 + zmax (cond_height <$> children c).
Proof. destruct c; simpl; try lia. pose proof (cond_height_nonneg c). lia. Qed.

Lemma cond_nodes_pos c : 1 ≤ cond_nodes c.
Proof.
  induction c as [l IH|l IH| | | |] using condition_ind'; simpl; try lia;
  assert (0 ≤ zsum (cond_nodes <$> l)); try lia;
  induction IH; csimpl; lia.
Qed.

Lemma zsum_app l k : zsum (l ++ k) = zsum l + zsum k.
Proof. induction l; simpl; lia. Qed.

Lemma zsum_reverse l : zsum (reverse l) = zsum l.
Proof. induction l as [|x l IH]; [done|]. rewrite reverse_cons, zsum_app, IH. simpl. lia. Qed.

Lemma stack_nodes_nonneg (stack : list (condition * Z)) :
  0 ≤ zsum ((λ cd, cond_nodes cd.1) <$> stack).
Proof.
  induction stack as [|[c d] stack IH]; csimpl; [lia|]. pose proof (cond_nodes_pos c). lia.
Qed.

Lemma zmax_le l n : 0 ≤ n → zmax l ≤ n ↔ Forall (λ x, x ≤ n) l.
Proof.
  intros Hn. induction l as [|x l IH]; simpl; [split; [constructor|lia]|].
  rewrite Forall_cons, <-IH. lia.
Qed.

(** What is left to visit fits the budget. *)
Definition stack_fits (nodes : Z) (stack : list (condition * Z)) : Prop :=
  nodes + zsum ((λ cd, cond_nodes cd.1) <$> stack) ≤ MAX_RULE_NODES ∧
  Forall (λ cd, cd.2 + cond_height cd.1 - 1 ≤ MAX_RULE_DEPTH) stack.

Lemma stack_fits_step nodes c depth stack :
  depth ≤ MAX_RULE_DEPTH →
  stack_fits (nodes + 1) (reverse ((λ child, (child, depth + 1)) <$> children c) ++ stack)
  ↔ stack_fits nodes ((c, depth) :: stack).
Proof.
  intros Hd. unfold stack_fits. rewrite Forall_cons, Forall_app, Forall_reverse, Forall_fmap.
  rewrite fmap_app, zsum_app, fmap_reverse, zsum_reverse, <-list_fmap_compose. csimpl.
  rewrite (cond_nodes_children c), (cond_height_children c).
  replace (zsum (((λ cd, cond_nodes cd.1) ∘ (λ child, (child, depth + 1))) <$> children c))
    with (zsum (cond_nodes <$> children c)) by done.
  assert (Forall ((λ cd, cd.2 + cond_height cd.1 - 1 ≤ MAX_RULE_DEPTH)
                    ∘ (λ child, (child, depth + 1))) (children c)
          ↔ depth + zmax (cond_height <$> children c) ≤ MAX_RULE_DEPTH) as ->.
  { rewrite (Z.le_add_le_sub_l depth), zmax_le, Forall_fmap by lia.
    apply Forall_proper; [|done]. intros x. simpl. lia. }
  split; intros (H1 & H2 & H3); (split; [lia|split; [lia|exact H3]]).
Qed.

Lemma budget_loop_spec fuel nodes stack :
  (Z.to_nat (MAX_RULE_NODES - nodes) + 1 < fuel)%nat → 0 ≤ nodes ≤ MAX_RULE_NODES →
  (stack_fits nodes stack ∧ budget_loop fuel nodes stack = Ok tt) ∨
  (¬ stack_fits nodes stack ∧ budget_loop fuel nodes stack = Err RuleValidationError).
Proof.
  revert nodes stack. induction fuel as [|fuel IH]; intros nodes stack Hf Hn; [lia|].
  destruct stack as [|[c depth] stack]; [left|]; simpl.
  { split; [|done]. split; [simpl; lia|constructor]. }
  pose proof (cond_nodes_pos c). pose proof (stack_nodes_nonneg stack).
  destruct (Z.ltb_spec MAX_RULE_NODES (nodes + 1)) as [Hlt|Hle].
  { right. split; [|done]. unfold stack_fits. csimpl. lia. }
  destruct (Z.ltb_spec MAX_RULE_DEPTH depth) as [Hd|Hd].
  { right. split; [|done]. intros [_ [Hh _]%Forall_cons]. simpl in Hh.
    rewrite (cond_height_children c) in Hh.
    pose proof (zmax_nonneg (cond_height <$> children c)). lia. }
  rewrite <-(stack_fits_step nodes c depth stack Hd). apply IH; lia.
Qed.

(** The work-list decides the recursive measures, and never runs out of fuel. *)
Lemma validate_budget_spec c :
  _validate_condition_budget c =
  if (cond_nodes c <=? MAX_RULE_NODES) && (cond_height c <=? MAX_RULE_DEPTH)
  then Ok tt else Err RuleValidationError.
Proof.
  unfold _validate_condition_budget.
  destruct (budget_loop_spec BUDGET_FUEL 0 [(c, 1)]) as [[[Hn Hh] ->]|[Hno ->]];
    [unfold BUDGET_FUEL, MAX_RULE_NODES; lia|unfold MAX_RULE_NODES; lia| |].
  - apply Forall_cons in Hh as [Hh _]. simpl in *.
    replace (_ && _) with true; [done|]. symmetry. lia.
  - replace (_ && _) with false; [done|]. symmetry. apply not_true_iff_false. intros Hb.
    apply Hno. split; [simpl; lia|]. repeat constructor. simpl. lia.
Qed.

(** ** Well-formed conditions *)

Section WellFormed.
Context (unicode_casefold : Z → list Z).
Notation casefold := (casefold unicode_casefold).
Notation _validate_header_name := (_validate_header_name unicode_casefold).
Notation condition_at := (condition_at unicode_casefold).
Notation condition_from_mapping := (condition_from_mapping unicode_casefold).
Notation make_string := (make_string unicode_casefold).

Definition value_ok (o : StringOperator) (v : option (list Z)) : Prop :=
  match o, v with
  | EXISTS, None => True
  | EXISTS, Some _ => False
  | _, Some s => _validate_text (JStr s) MAX_RULE_VALUE_CHARACTERS MAX_RULE_VALUE_BYTES = Ok s
  | _, None => False
  end.

Definition header_ok (f : StringField) (h : option (list Z)) : Prop :=
  match f, h with
  | HEADER, Some n => _validate_header_name (JStr n) = Ok n
  | HEADER, None => False
  | _, None => True
  | _, Some _ => False
  end.

Fixpoint well_formed (c : condition) : Prop :=
  match c with
  | AndCondition l | OrCondition l => l ≠ [] ∧ foldr and True (well_formed <$> l)
  | NotCondition c => well_formed c
  | StringCondition f o v h => header_ok f h ∧ value_ok o v
  | NumericCondition _ v => 0 ≤ v < 2 ^ 63
  | BooleanCondition _ => True
  end.

Definition bounded (c : condition) : Prop :=
  cond_nodes c ≤ MAX_RULE_NODES ∧ cond_height c ≤ MAX_RULE_DEPTH.

Lemma foldr_and_Forall {A} (P : A → Prop) l : foldr and True (P <$> l) ↔ Forall P l.
Proof. induction l as [|x l IH]; csimpl; [by split|]. by rewrite IH, Forall_cons. Qed.

Lemma checked_ok c c' : checked c = Ok c' ↔ c' = c ∧ bounded c.
Proof.
  unfold checked, bounded. rewrite validate_budget_spec.
  destruct (_ && _) eqn:E; simpl.
  - split; [intros [= <-]|intros [-> _]; done]. split; [done|]. lia.
  - split; [done|]. lia.
Qed.

Lemma header_chars s : _HEADER_NAME_RE s = true →
  s ≠ [] ∧ ∀ c, c ∈ s → header_name_char c = true.
Proof.
  unfold _HEADER_NAME_RE, match_plus. intros [Hne Hall]%andb_true_iff. split.
  - intros ->. done.
  - intros c Hc. rewrite forallb_forall in Hall. by apply Hall, list_elem_of_In.
Qed.

Lemma header_name_char_range c : header_name_char c = true → 33 ≤ c ≤ 126.
Proof.
  unfold header_name_char, is_alnum, is_digit, is_lower, is_upper. intros Hc.
  apply orb_true_iff in Hc as [Hc|Hc]; [lia|]. unfold in_chars in Hc. apply has_char_spec in Hc.
  repeat (apply elem_of_cons in Hc as [->|Hc]; [by vm_compute|]). by apply elem_of_nil in Hc.
Qed.

Lemma header_name_char_lower c : header_name_char (lower_char c) = header_name_char c.
Proof.
  unfold header_name_char, lower_char. destruct ((65 <=? c) && (c <=? 90)) eqn:E; [|done].
  unfold is_alnum, is_digit, is_lower, is_upper. 
  replace ((97 <=? c + 32) && (c + 32 <=? 122)) with true by lia.
  replace ((65 <=? c) && (c <=? 90)) with true by lia. by rewrite !orb_true_r.
Qed.

Lemma casefold_header s : (∀ c, c ∈ s → header_name_char c = true) → casefold s = lower s.
Proof.
  intros Hs. unfold RuleDoc.casefold, lower. induction s as [|c s IH]; [done|]. csimpl.
  rewrite IH by (intros c' Hc; apply Hs; by right). unfold casefold_char.
  pose proof (header_name_char_range c (Hs c ltac:(left))). by replace (c <? 128) with true by lia.
Qed.

Lemma utf8_encode_ascii s : (∀ c, c ∈ s → 0 ≤ c < 128) → utf8_encode s = Some s.
Proof.
  induction s as [|c s IH]; intros Hs; [done|]. simpl.
  rewrite IH by (intros c' Hc; apply Hs; by right). unfold utf8_char.
  specialize (Hs c ltac:(left)). replace ((c <? 0) || (1114112 <=? c)) with false by lia.
  by replace (c <? 128) with true by lia.
Qed.

Lemma validate_text_ok j m n s :
  _validate_text j m n = Ok s ↔
  j = JStr s ∧ s ≠ [] ∧ existsb unsafe_char s = false ∧
  ∃ b, utf8_encode s = Some b ∧ zlen s ≤ m ∧ zlen b ≤ n.
Proof.
  unfold _validate_text. split.
  - destruct j as [| | | |t| |]; try done. destruct (bool_decide_reflect (t = [])); [done|].
    repeat case_match; try done; intros [= ->].
    split_and!; try done. eexists. split_and!; [done|lia|lia].
  - intros (-> & Hne & -> & b & -> & Hm & Hn). rewrite bool_decide_false by done.
    by replace (_ || _) with false by lia.
Qed.

(** A validated header name is its own normal form. *)
Lemma header_name_normal j n : _validate_header_name j = Ok n → _validate_header_name (JStr n) = Ok n.
Proof.
  unfold RuleDoc._validate_header_name. intros (name & Hv & H)%result_bind_ok.
  destruct (_HEADER_NAME_RE name) eqn:Hre; [|done]. injection H as <-.
  destruct (header_chars name Hre) as [Hne Hch]. rewrite (casefold_header name Hch).
  apply validate_text_ok in Hv as (-> & _ & _ & b & Hb & Hm & _).
  assert (Hlch : ∀ c, c ∈ lower name → header_name_char c = true).
  { intros c (d & -> & Hd)%list_elem_of_fmap. rewrite header_name_char_lower. auto. }
  assert (Hre' : _HEADER_NAME_RE (lower name) = true).
  { unfold _HEADER_NAME_RE, match_plus in *. rewrite forallb_lower by apply header_name_char_lower.
    apply andb_true_iff in Hre as [_ ->]. destruct name; [done|]. done. }
  assert (_validate_text (JStr (lower name)) MAX_HEADER_NAME_CHARACTERS
            MAX_HEADER_NAME_CHARACTERS = Ok (lower name)) as ->.
  { apply validate_text_ok. split_and!; [done|by destruct name| |].
    - apply not_true_iff_false. rewrite existsb_exists. intros (c & Hc & Hu).
      apply list_elem_of_In, Hlch, header_name_char_range in Hc. unfold unsafe_char in Hu. lia.
    - exists (lower name). split_and!; [|by rewrite zlen_lower..].
      apply utf8_encode_ascii. intros c Hc. apply Hlch, header_name_char_range in Hc. lia. }
  simpl. rewrite Hre'. by rewrite casefold_header, lower_idemp.
Qed.

(** ** Parsing yields well-formed, bounded conditions *)

Lemma make_string_ok f o v h c :
  make_string f o v h = Ok c → well_formed c.
Proof.
  unfold RuleDoc.make_string. intros (h' & Hh & H)%result_bind_ok.
  apply result_bind_ok in H as (v' & Hv & H). injection H as <-. split.
  - destruct f; try (destruct h; [|done..]; by injection Hh as <-).
    apply result_bind_ok in Hh as (n & Hn & Hh). injection Hh as <-.
    by eapply header_name_normal.
  - destruct o; try (apply result_bind_ok in Hv as (s & Hs & Hv); injection Hv as <-;
      simpl; by apply validate_text_ok in Hs as Hs'; destruct Hs' as [-> _]).
    destruct v; [|done..]. by injection Hv as <-.
Qed.

Lemma leaf_ok mapping c : leaf_from_mapping unicode_casefold mapping = Ok c → well_formed c.
Proof.
  unfold leaf_from_mapping. destruct (_enum_value string_fields _ _) as [f|e].
  - intros (o & _ & H)%result_bind_ok. apply result_bind_ok in H as (_ & _ & H).
    by eapply make_string_ok.
  - case_bool_decide; [|case_bool_decide; [|done]]; intros (_ & _ & Hm)%result_bind_ok.
    + unfold make_numeric in Hm. apply result_bind_ok in Hm as (o & _ & Hm).
      destruct (get_key (u "value") mapping) as [| |v| | | |]; try done.
      destruct (_ && _) eqn:Hv; [|done]. injection Hm as <-. simpl. lia.
    + unfold make_boolean in Hm. apply result_bind_ok in Hm as (o & _ & Hm).
      destruct (get_key (u "value") mapping); try done. by injection Hm as <-.
Qed.

Lemma condition_at_ok levels j c : condition_at levels j = Ok c → well_formed c ∧ bounded c.
Proof.
  revert j c. induction levels as [|levels IH]; intros j c; [done|]. cbn [RuleDoc.condition_at].
  intros (mapping & _ & H)%result_bind_ok.
  destruct (obj_get (u "op") mapping) as [[| | | |op| |]|]; try done.
  - destruct (_ || _).
    + apply result_bind_ok in H as (_ & _ & H). destruct (get_key _ mapping) as [| | | | |l|]; try done.
      destruct (MAX_RULE_NODES <? zlen l); [done|].
      apply result_bind_ok in H as (parsed & Hp & H).
      apply result_bind_ok in H as (c' & Hc & H). apply checked_ok in H as [-> Hb].
      split; [|done]. apply result_map_ok in Hp.
      assert (Hall : Forall well_formed parsed).
      { clear Hc Hb. induction Hp as [|x y l' k Hxy Hl IHl]; [constructor|].
        constructor; [|done]. by eapply IH. }
      apply foldr_and_Forall in Hall.
      destruct (str_eqb op (u "and")); unfold make_and, make_or in Hc;
        (destruct parsed; [done|]); injection Hc as <-; by split.
    + case_match; [|done]. apply result_bind_ok in H as (_ & _ & H).
      apply result_bind_ok in H as (child & Hc & H). apply checked_ok in H as [-> Hb].
      split; [|done]. simpl. by eapply IH.
  - apply result_bind_ok in H as (leaf & Hl & H). apply checked_ok in H as [-> Hb].
    split; [|done]. by eapply leaf_ok.
Qed.

(** ** Parsing inverts printing *)

Lemma bounded_child c child : bounded c → child ∈ children c →
  bounded child ∧ cond_height child < cond_height c.
Proof.
  unfold bounded. rewrite (cond_nodes_children c), (cond_height_children c).
  intros [Hn Hh] Hin. assert (cond_nodes child ≤ zsum (cond_nodes <$> children c)
    ∧ cond_height child ≤ zmax (cond_height <$> children c)) as [? ?]; [|lia].
  clear Hn Hh. induction (children c) as [|x l IH]; [by apply elem_of_nil in Hin|]. csimpl.
  assert (0 ≤ zsum (cond_nodes <$> l)).
  { clear. induction l as [|y l IH]; csimpl; [lia|]. pose proof (cond_nodes_pos y). lia. }
  pose proof (zmax_nonneg (cond_height <$> l)). pose proof (cond_nodes_pos x).
  apply elem_of_cons in Hin as [->|Hin]; [lia|]. specialize (IH Hin). lia.
Qed.

Lemma enum_string_field f : _enum_value string_fields string_field_value
  (JStr (string_field_value f)) = Ok f.
Proof. by destruct f. Qed.
Lemma enum_string_operator o : _enum_value string_operators string_operator_value
  (JStr (string_operator_value o)) = Ok o.
Proof. by destruct o. Qed.
Lemma enum_numeric_operator o : _enum_value numeric_operators numeric_operator_value
  (JStr (numeric_operator_value o)) = Ok o.
Proof. by destruct o. Qed.

Lemma string_leaf f o v h : header_ok f h → value_ok o v →
  leaf_from_mapping unicode_casefold ([(u "field", JStr (string_field_value f));
             (u "operator", JStr (string_operator_value o))]
            ++ opt_item (u "header") h ++ opt_item (u "value") v) =
  Ok (StringCondition f o v h).
Proof.
  intros Hh Hv. unfold leaf_from_mapping.
  change (get_key (u "field") _) with (JStr (string_field_value f)). rewrite enum_string_field.
  change (get_key (u "operator") _) with (JStr (string_operator_value o)).
  rewrite enum_string_operator. cbn [mbind result_mbind result_bind].
  assert (Hhk : (f = HEADER ∧ ∃ n, h = Some n) ∨ (f ≠ HEADER ∧ h = None))
    by (destruct f, h; try done; eauto).
  assert (Hvk : (o = EXISTS ∧ v = None) ∨ (o ≠ EXISTS ∧ ∃ s, v = Some s))
    by (destruct o, v; try done; eauto).
  assert (Hkeys : _require_keys ([(u "field", JStr (string_field_value f));
             (u "operator", JStr (string_operator_value o))]
            ++ opt_item (u "header") h ++ opt_item (u "value") v)
            (required_string_keys f o) = Ok tt).
  { unfold required_string_keys.
    destruct Hhk as [[-> [n ->]]|[Hf ->]], Hvk as [[-> ->]|[Ho [s ->]]];
      rewrite ?decide_True, ?decide_False by done; reflexivity. }
  rewrite Hkeys. cbn [mbind result_mbind result_bind].
  assert (get_key (u "header") ([(u "field", JStr (string_field_value f));
             (u "operator", JStr (string_operator_value o))]
            ++ opt_item (u "header") h ++ opt_item (u "value") v)
          = match h with Some n => JStr n | None => JNull end) as -> by (by destruct h, v).
  assert (get_key (u "value") ([(u "field", JStr (string_field_value f));
             (u "operator", JStr (string_operator_value o))]
            ++ opt_item (u "header") h ++ opt_item (u "value") v)
          = match v with Some n => JStr n | None => JNull end) as -> by (by destruct h, v).
  unfold RuleDoc.make_string.
  destruct Hhk as [[-> [n ->]]|[Hf ->]]; simpl in Hh.
  - rewrite Hh. cbn [mbind result_mbind result_bind].
    destruct Hvk as [[-> ->]|[Ho [s ->]]]; [done|]. destruct o; try done; cbn [value_ok] in Hv; by rewrite Hv.
  - destruct f; try done; cbn [mbind result_mbind result_bind];
      (destruct Hvk as [[-> ->]|[Ho [s ->]]]; [done|]); destruct o; try done; cbn [value_ok] in Hv; by rewrite Hv.
Qed.

Lemma numeric_leaf op v :
  leaf_from_mapping unicode_casefold
    [(u "field", JStr SIZE); (u "operator", op); (u "value", v)] = make_numeric op v.
Proof.
  unfold leaf_from_mapping. change (get_key (u "field") _) with (JStr SIZE).
  change (_enum_value string_fields _ (JStr SIZE))
    with (Err (E := exc) (A := StringField) RuleValidationError). cbv iota zeta.
  rewrite bool_decide_true by done. change (_require_keys _ _) with (Ok (E := exc) tt). done.
Qed.

Lemma boolean_leaf op v :
  leaf_from_mapping unicode_casefold
    [(u "field", JStr HAS_ATTACHMENT); (u "operator", op); (u "value", v)] = make_boolean op v.
Proof.
  unfold leaf_from_mapping. change (get_key (u "field") _) with (JStr HAS_ATTACHMENT).
  change (_enum_value string_fields _ (JStr HAS_ATTACHMENT))
    with (Err (E := exc) (A := StringField) RuleValidationError). cbv iota zeta.
  rewrite bool_decide_false by (intros [=]). rewrite bool_decide_true by done.
  change (_require_keys _ _) with (Ok (E := exc) tt). done.
Qed.

Lemma result_map_roundtrip {A B} (f : A → result exc B) (g : B → A) l :
  (∀ x, x ∈ l → f (g x) = Ok x) → result_map f (g <$> l) = Ok l.
Proof.
  intros Hl. apply result_map_ok, Forall2_fmap_l, Forall2_same_length_lookup_2; [done|].
  intros i x y Hx Hy. simplify_eq. apply Hl. by eapply list_elem_of_lookup_2.
Qed.

Lemma nodes_length l : zlen l ≤ zsum (cond_nodes <$> l).
Proof.
  induction l as [|c l IH]; csimpl; [done|]. rewrite zlen_cons. pose proof (cond_nodes_pos c). lia.
Qed.

(** The two connectives with a list of conditions. *)
Lemma group_roundtrip op mk l levels :
  (∀ x, x ∈ l → well_formed x → bounded x → ∀ levels, cond_height x ≤ Z.of_nat levels →
     condition_at levels (condition_to_mapping x) = Ok x) →
  ((op = u "and" ∧ mk = AndCondition) ∨ (op = u "or" ∧ mk = OrCondition)) →
  well_formed (mk l) → bounded (mk l) → cond_height (mk l) ≤ Z.of_nat levels →
  condition_at levels
    (JObj [(u "conditions", JArr (condition_to_mapping <$> l)); (u "op", JStr op)]) = Ok (mk l).
Proof.
  intros IH Hop Hw Hb Hl.
  assert (Hc : children (mk l) = l) by by destruct Hop as [[_ ->]|[_ ->]].
  assert (Hwl : l ≠ [] ∧ Forall well_formed l).
  { rewrite <-foldr_and_Forall. by destruct Hop as [[_ ->]|[_ ->]]. }
  pose proof (cond_height_children (mk l)) as Hh. rewrite Hc in Hh.
  pose proof (zmax_nonneg (cond_height <$> l)).
  destruct levels as [|levels]; [lia|]. cbn [RuleDoc.condition_at].
  change (_require_mapping _) with (Ok (E := exc)
    [(u "conditions", JArr (condition_to_mapping <$> l)); (u "op", JStr op)]).
  cbn [mbind result_mbind result_bind].
  change (obj_get (u "op") _) with (Some (JStr op)). cbv iota.
  assert (str_eqb op (u "and") || str_eqb op (u "or") = true) as ->
    by by destruct Hop as [[-> _]|[-> _]].
  change (_require_keys _ _) with (Ok (E := exc) tt). cbn [mbind result_mbind result_bind].
  change (get_key (u "conditions") _) with (JArr (condition_to_mapping <$> l)). cbv iota.
  rewrite zlen_fmap. pose proof (nodes_length l) as Hlen.
  pose proof Hb as [Hn _]. rewrite cond_nodes_children, Hc in Hn.
  replace (MAX_RULE_NODES <? zlen l) with false by lia.
  rewrite (result_map_roundtrip _ _ l).
  - cbn [mbind result_mbind result_bind].
    assert ((if str_eqb op (u "and") then make_and l else make_or l) = Ok (mk l)) as ->.
    { destruct Hwl as [Hne _]. destruct l; [done|]. by destruct Hop as [[-> ->]|[-> ->]]. }
    cbn [mbind result_mbind result_bind]. by apply checked_ok.
  - intros x Hx. destruct Hwl as [_ Hwl]. rewrite Forall_forall in Hwl.
    destruct (bounded_child (mk l) x Hb) as [Hbx Hhx]; [by rewrite Hc|].
    apply IH; [done|by apply Hwl|done|lia].
Qed.

Lemma condition_at_roundtrip c : well_formed c → bounded c → ∀ levels,
  cond_height c ≤ Z.of_nat levels → condition_at levels (condition_to_mapping c) = Ok c.
Proof.
  induction c as [l IH|l IH|c IH|f o v h|o v|b] using condition_ind'; intros Hw Hb levels Hl.
  - rewrite Forall_forall in IH. apply (group_roundtrip (u "and") AndCondition); [done|by left|done..].
  - rewrite Forall_forall in IH. apply (group_roundtrip (u "or") OrCondition); [done|by right|done..].
  - pose proof (cond_height_nonneg c). simpl in Hl. destruct levels as [|levels]; [lia|].
    destruct (bounded_child (NotCondition c) c Hb) as [Hbc _]; [left|].
    cbn [RuleDoc.condition_at condition_to_mapping].
    change (_require_mapping _) with (Ok (E := exc)
      [(u "condition", condition_to_mapping c); (u "op", JStr (u "not"))]).
    cbn [mbind result_mbind result_bind].
    change (obj_get (u "op") _) with (Some (JStr (u "not"))). cbv iota.
    change (str_eqb (u "not") (u "and") || str_eqb (u "not") (u "or")) with false. cbv iota.
    change (str_eqb (u "not") (u "not")) with true. cbv iota.
    change (_require_keys _ _) with (Ok (E := exc) tt). cbn [mbind result_mbind result_bind].
    change (get_key (u "condition") _) with (condition_to_mapping c).
    rewrite IH by (done || lia). by apply checked_ok.
  - destruct levels as [|levels]; [simpl in Hl; lia|]. destruct Hw as [Hh Hv].
    cbn [RuleDoc.condition_at condition_to_mapping _require_mapping].
    cbn [mbind result_mbind result_bind].
    assert (obj_get (u "op") ([(u "field", JStr (string_field_value f));
             (u "operator", JStr (string_operator_value o))]
            ++ opt_item (u "header") h ++ opt_item (u "value") v) = None) as ->
      by (by destruct h, v).
    rewrite string_leaf by done. by apply checked_ok.
  - destruct levels as [|levels]; [simpl in Hl; lia|]. simpl in Hw.
    cbn [RuleDoc.condition_at condition_to_mapping _require_mapping].
    cbn [mbind result_mbind result_bind]. change (obj_get (u "op") _) with (@None json). cbv iota.
    rewrite numeric_leaf. unfold make_numeric. rewrite enum_numeric_operator. cbn [mbind result_mbind result_bind].
    replace ((0 <=? v) && (v <=? 2 ^ 63 - 1)) with true by lia. by apply checked_ok.
  - destruct levels as [|levels]; [simpl in Hl; lia|].
    cbn [RuleDoc.condition_at condition_to_mapping _require_mapping].
    cbn [mbind result_mbind result_bind]. change (obj_get (u "op") _) with (@None json). cbv iota.
    rewrite boolean_leaf. by apply checked_ok.
Qed.

(** C34: the work-list of [_validate_condition_budget] accepts exactly the
    conditions with at most 100 nodes and at most 8 levels, and rejects every
    other one with [RuleValidationError]; its loop always terminates. *)
Theorem budget_equivalence c :
  _validate_condition_budget c =
    (if decide (cond_nodes c ≤ 100 ∧ cond_height c ≤ 8) then Ok tt
     else Err RuleValidationError).
Proof.
  rewrite validate_budget_spec. unfold MAX_RULE_NODES, MAX_RULE_DEPTH.
  destruct (decide _) as [H|H]; destruct (_ && _) eqn:E; try done; lia.
Qed.

(** A document that parses is a well-formed condition (no empty
    connective, normalised header names, bounded texts and 64-bit numbers)
    within the node and depth bounds. *)
Theorem condition_from_mapping_sound j c :
  condition_from_mapping j = Ok c → well_formed c ∧ cond_nodes c ≤ 100 ∧ cond_height c ≤ 8.
Proof. intros H. by apply condition_at_ok in H. Qed.

(** Parsing inverts printing on every well-formed condition within
    the bounds. *)
Theorem condition_roundtrip c :
  well_formed c → cond_nodes c ≤ 100 → cond_height c ≤ 8 →
  condition_from_mapping (condition_to_mapping c) = Ok c.
Proof. intros Hw Hn Hh. apply condition_at_roundtrip; [done|by split|done]. Qed.
End WellFormed.

(** ** Witnesses *)

Definition demo_fold (c : Z) : list Z := [c].

(** Newsletters larger than a megabyte that are not from the boss. *)
Definition demo_condition : condition :=
  AndCondition
    [StringCondition HEADER CONTAINS (Some (u "weekly")) (Some (u "list-id"));
     NumericCondition GTE 1048576;
     NotCondition (StringCondition FROM EQUALS (Some (u "boss@example.org")) None);
     OrCondition [BooleanCondition true; StringCondition CC EXISTS None None]].

Lemma demo_condition_wf : well_formed demo_fold demo_condition.
Proof. vm_compute. repeat split; discriminate. Qed.

Lemma condition_roundtrip_witness :
  condition_from_mapping demo_fold (condition_to_mapping demo_condition) = Ok demo_condition.
Proof.
  apply (condition_roundtrip demo_fold demo_condition demo_condition_wf);
    vm_compute; discriminate.
Defined.

Lemma condition_from_mapping_sound_witness :
  well_formed demo_fold demo_condition ∧ cond_nodes demo_condition ≤ 100
  ∧ cond_height demo_condition ≤ 8.
Proof.
  apply (condition_from_mapping_sound demo_fold (condition_to_mapping demo_condition)).
  vm_compute. reflexivity.
Defined.

(** * Rules as canonical JSON text

    The text [canonical_json] prints is UTF-8 encodable and, when it fits the
    document bound, [from_json] reads the same rule back. *)

From S2P Require Import Prelude Text Errors Json JsonRound RuleDoc.

#[local] Set Default Proof Using "Type*".

(** ** The order of the keys of a document does not matter *)

Fixpoint dicts (j : json) : Prop :=
  match j with
  | JArr l => foldr and True (dicts <$> l)
  | JObj kvs => NoDup kvs.*1 ∧ foldr and True ((λ kv, dicts kv.2) <$> kvs)
  | _ => True
  end.

Lemma obj_get_Some k v kvs : NoDup kvs.*1 → obj_get k kvs = Some v ↔ (k, v) ∈ kvs.
Proof.
  induction kvs as [|[k' v'] kvs IH]; intros Hnd; simpl.
  { split; [done|]. by intros ?%elem_of_nil. }
  apply NoDup_cons in Hnd as [Hk Hnd]. rewrite elem_of_cons.
  destruct (str_eqb k' k) eqn:E.
  - apply str_eqb_true in E as ->. split; [intros [= ->]; by left|].
    intros [[= ->]|Hin]; [done|]. destruct Hk. by apply (list_elem_of_fmap_2 fst) in Hin.
  - rewrite (IH Hnd). split; [by right|]. intros [[= -> ->]|?]; [|done].
    by rewrite str_eqb_refl in E.
Qed.

Lemma obj_get_perm k kvs kvs' : kvs ≡ₚ kvs' → NoDup kvs.*1 → obj_get k kvs = obj_get k kvs'.
Proof.
  intros Hp Hnd. assert (Hnd' : NoDup kvs'.*1) by by rewrite <-Hp.
  destruct (obj_get k kvs) as [v|] eqn:E.
  - symmetry. apply obj_get_Some; [done|]. rewrite <-Hp. by apply obj_get_Some.
  - destruct (obj_get k kvs') as [v|] eqn:E'; [|done].
    apply obj_get_Some in E'; [|done]. rewrite <-Hp in E'. apply obj_get_Some in E'; [|done].
    congruence.
Qed.

Lemma obj_get_fmap k (f : json → json) kvs :
  obj_get k ((λ kv, (kv.1, f kv.2)) <$> kvs) = f <$> obj_get k kvs.
Proof. induction kvs as [|[k' v] kvs IH]; [done|]. csimpl. by destruct (str_eqb k' k). Qed.

Definition canon_items (kvs : list (list Z * json)) : list (list Z * json) :=
  sort_items ((λ kv, (kv.1, canon true kv.2)) <$> kvs).

Lemma canon_items_get k kvs : NoDup kvs.*1 →
  obj_get k (canon_items kvs) = canon true <$> obj_get k kvs.
Proof.
  intros Hnd. unfold canon_items, sort_items. rewrite <-obj_get_fmap. symmetry.
  apply obj_get_perm; [by rewrite merge_sort_Permutation|]. by rewrite canon_items_keys.
Qed.

Lemma canon_items_perm kvs : obj_keys (canon_items kvs) ≡ₚ obj_keys kvs.
Proof.
  unfold obj_keys, canon_items, sort_items. by rewrite merge_sort_Permutation, canon_items_keys.
Qed.

Lemma require_keys_canon kvs ks : _require_keys (canon_items kvs) ks = _require_keys kvs ks.
Proof.
  unfold _require_keys. assert (Hp := canon_items_perm kvs).
  assert (∀ a b : bool, (a = true ↔ b = true) → a = b) as Hb by (intros [] []; naive_solver).
  erewrite (Hb (forallb _ ks && _)); [reflexivity|].
  rewrite !andb_true_iff, !forallb_forall. setoid_rewrite bool_decide_eq_true.
  setoid_rewrite <-list_elem_of_In. by setoid_rewrite Hp.
Qed.

Section Canon.
Context (unicode_casefold : Z → list Z).
Notation condition_at := (condition_at unicode_casefold).
Notation from_mapping := (from_mapping unicode_casefold).

(** Scalars are printed as they are. *)
Lemma enum_canon {E} (es : list E) f v : _enum_value es f (canon true v) = _enum_value es f v.
Proof. by destruct v. Qed.
Lemma text_canon v m n : _validate_text (canon true v) m n = _validate_text v m n.
Proof. by destruct v. Qed.
Lemma scalar_canon v s : bool_decide (canon true v = JStr s) = bool_decide (v = JStr s).
Proof. apply bool_decide_ext. destruct v; by split. Qed.

Lemma make_string_canon f o v h :
  make_string unicode_casefold f o (canon true v) (canon true h) = make_string unicode_casefold f o v h.
Proof.
  unfold make_string, _validate_header_name. rewrite !text_canon.
  assert (∀ A (a b : A) w, match canon true w with JNull => a | _ => b end
    = match w with JNull => a | _ => b end) as Hn by (by intros ? ? ? []).
  by rewrite !Hn.
Qed.

Lemma get_key_canon k kvs : NoDup kvs.*1 →
  get_key k (canon_items kvs) = canon true (get_key k kvs).
Proof.
  intros Hnd. unfold get_key. rewrite canon_items_get by done. by destruct (obj_get k kvs).
Qed.

Lemma leaf_canon kvs : NoDup kvs.*1 →
  leaf_from_mapping unicode_casefold (canon_items kvs) = leaf_from_mapping unicode_casefold kvs.
Proof.
  intros Hnd. unfold leaf_from_mapping. rewrite !get_key_canon by done.
  rewrite !scalar_canon, !enum_canon.
  assert (∀ op v, make_numeric (canon true op) (canon true v) = make_numeric op v) as Hnum.
  { intros op v. unfold make_numeric. rewrite enum_canon. by destruct v. }
  assert (∀ op v, make_boolean (canon true op) (canon true v) = make_boolean op v) as Hbool.
  { intros op v. unfold make_boolean. rewrite enum_canon. by destruct v. }
  rewrite Hnum, Hbool, !require_keys_canon.
  destruct (_enum_value string_fields _ _); [|done].
  destruct (_enum_value string_operators _ _); [|done]. simpl.
  by rewrite require_keys_canon, make_string_canon.
Qed.

Lemma dicts_get kvs k : dicts (JObj kvs) → dicts (get_key k kvs).
Proof.
  intros [_ Hd]. unfold get_key. induction kvs as [|[k' v] kvs IH]; [done|].
  destruct Hd as [Hv Hd]. simpl. destruct (str_eqb k' k); [done|]. by apply IH.
Qed.

Lemma result_map_canon levels l :
  (∀ j, dicts j → condition_at levels (canon true j) = condition_at levels j) →
  foldr and True (dicts <$> l) →
  result_map (condition_at levels) (canon true <$> l) = result_map (condition_at levels) l.
Proof.
  intros Hj. induction l as [|j l IH]; [done|]. csimpl. intros [Hd Hl].
  by rewrite (Hj j Hd), (IH Hl).
Qed.

Lemma condition_at_canon levels j :
  dicts j → condition_at levels (canon true j) = condition_at levels j.
Proof.
  revert j. induction levels as [|levels IH]; intros j Hd; [done|].
  destruct j as [| | | | |l|kvs]; try done. pose proof (proj1 Hd) as Hnd.
  change (canon true (JObj kvs)) with (JObj (canon_items kvs)).
  cbn [RuleDoc.condition_at _require_mapping]. cbn [mbind result_mbind result_bind].
  rewrite canon_items_get, leaf_canon, !require_keys_canon by done.
  destruct (obj_get (u "op") kvs) as [op|]; [|done]. simpl.
  destruct op; try done. cbn [canon].
  rewrite !get_key_canon by done. pose proof (dicts_get kvs (u "conditions") Hd) as Hcs.
  pose proof (dicts_get kvs (u "condition") Hd) as Hc. rewrite (IH _ Hc).
  destruct (get_key (u "conditions") kvs) as [| | | | |l|]; try done. cbn [canon].
  rewrite zlen_fmap, result_map_canon; [done|exact IH|exact Hcs].
Qed.

Lemma from_mapping_canon j : dicts j → from_mapping (canon true j) = from_mapping j.
Proof.
  intros Hd. destruct j as [| | | | |l|kvs]; try done. pose proof (proj1 Hd) as Hnd.
  change (canon true (JObj kvs)) with (JObj (canon_items kvs)).
  unfold RuleDoc.from_mapping. cbn [_require_mapping mbind result_mbind result_bind].
  rewrite require_keys_canon, !get_key_canon by done.
  unfold condition_from_mapping. rewrite condition_at_canon by by apply dicts_get.
  destruct (_require_keys _ _); [|done]. destruct (condition_at _ _) as [c|]; [|done]. simpl.
  unfold make_rule, _validate_target_mailbox. by rewrite text_canon.
Qed.
End Canon.


(** ** Round trip *)

Section RoundTrip.
Context (unicode_casefold : Z → list Z) (py_float : list Z → pyfloat).
Notation plain := (plain py_float).

Lemma plain_dicts j : plain j → dicts j.
Proof.
  induction j as [| c | z | f | t | l IH | kvs IH] using json_ind'; intros Hp; try done.
  - simpl in *. induction IH as [|x l Hx IH IHl]; [done|]. destruct Hp as [Hpx Hp].
    split; [by apply Hx|by apply IHl].
  - destruct Hp as [Hnd Hp]. split; [done|]. clear Hnd.
    induction IH as [|[k v] kvs Hx IH IHl]; [done|]. destruct Hp as [[_ Hpx] Hp].
    split; [by apply Hx|by apply IHl].
Qed.

Lemma valid_text_clean s m n : _validate_text (JStr s) m n = Ok s → Forall clean_char s.
Proof. intros (_ & _ & _ & b & Hb & _)%validate_text_ok. by eapply utf8_clean_inv. Qed.

Lemma literal_clean (l : list Z) : forallb (λ c, (0 <=? c) && (c <? 128)) l = true →
  Forall clean_char l.
Proof.
  rewrite forallb_forall. intros Hs. apply clean_ascii, Forall_forall. intros c Hc.
  apply list_elem_of_In, Hs in Hc. lia.
Qed.

Lemma values_clean :
  (∀ f, Forall clean_char (string_field_value f)) ∧
  (∀ o, Forall clean_char (string_operator_value o)) ∧
  (∀ o, Forall clean_char (numeric_operator_value o)).
Proof. split_and!; intros []; by apply literal_clean. Qed.

Ltac plain_object := split; [by vm_compute; repeat constructor; set_solver|]; simpl;
  split_and!; try done; try (by apply literal_clean).

Lemma well_formed_plain c : well_formed unicode_casefold c → plain (condition_to_mapping c).
Proof.
  destruct values_clean as (Hfield & Hop & Hnum).
  induction c as [l IH|l IH|c IH|f o v h|o v|b] using condition_ind'; intros Hw.
  - destruct Hw as [_ Hw]. plain_object. apply foldr_and_Forall in Hw. rewrite Forall_forall in *.
    apply foldr_and_Forall, Forall_fmap, Forall_forall. intros x Hx. by apply IH, Hw.
  - destruct Hw as [_ Hw]. plain_object. apply foldr_and_Forall in Hw. rewrite Forall_forall in *.
    apply foldr_and_Forall, Forall_fmap, Forall_forall. intros x Hx. by apply IH, Hw.
  - plain_object. by apply IH.
  - destruct Hw as [Hh Hv].
    assert (∀ s, h = Some s → Forall clean_char s) as Hhc.
    { intros s ->. destruct f; try done. cbn [header_ok] in Hh.
      unfold _validate_header_name in Hh. apply result_bind_ok in Hh as (n & Hn & Hh).
      apply validate_text_ok in Hn as ([= <-] & _ & _ & b & Hb & _). by eapply utf8_clean_inv. }
    assert (∀ s, v = Some s → Forall clean_char s) as Hvc.
    { intros s ->. destruct o; try done; cbn [value_ok] in Hv; by eapply valid_text_clean. }
    destruct h as [h|], v as [v|]; plain_object; auto.
  - simpl in Hw. plain_object. lia.
  - plain_object.
Qed.

Definition valid_rule (r : Rule) : Prop :=
  well_formed unicode_casefold (rule_condition r) ∧ bounded (rule_condition r) ∧
  _validate_target_mailbox (JStr (target_mailbox r)) = Ok (target_mailbox r).

Lemma valid_rule_plain r : valid_rule r → plain (to_mapping r).
Proof.
  intros (Hw & _ & Ht). unfold _validate_target_mailbox in Ht.
  apply result_bind_ok in Ht as (m & Hm & Ht). case_match; [|done]. injection Ht as ->.
  unfold to_mapping. plain_object; [by apply well_formed_plain|]. by eapply valid_text_clean.
Qed.

Lemma valid_rule_mapping r : valid_rule r → from_mapping unicode_casefold (to_mapping r) = Ok r.
Proof.
  intros (Hw & Hb & Ht). destruct r as [c t]. simpl in *. unfold from_mapping, to_mapping.
  change (_require_mapping _) with (Ok (E := exc)
    [(u "condition", condition_to_mapping c); (u "target_mailbox", JStr t)]).
  cbn [mbind result_mbind result_bind rule_condition target_mailbox].
  change (_require_keys _ _) with (Ok (E := exc) tt). cbn [mbind result_mbind result_bind].
  change (get_key (u "condition") _) with (condition_to_mapping c).
  change (get_key (u "target_mailbox") _) with (JStr t). unfold condition_from_mapping.
  rewrite (condition_at_roundtrip unicode_casefold c Hw Hb) by apply Hb.
  cbn [mbind result_mbind result_bind]. unfold make_rule. rewrite validate_budget_spec.
  destruct Hb as [Hn Hh]. replace (_ && _) with true by lia.
  cbn [mbind result_mbind result_bind]. by rewrite Ht.
Qed.

Lemma rule_hooks_read : reads_plain py_float (rule_hooks py_float).
Proof. split; [apply default_int_small|]. intros r _ Hr. simpl. by rewrite Hr. Qed.


(** What [Rule.from_mapping] returns is valid. *)
Lemma from_mapping_valid j r : from_mapping unicode_casefold j = Ok r → valid_rule r.
Proof.
  unfold from_mapping. intros (m & _ & H)%result_bind_ok. apply result_bind_ok in H as (_ & _ & H).
  apply result_bind_ok in H as (c & Hc & H). unfold make_rule in H.
  apply result_bind_ok in H as (_ & _ & H). apply result_bind_ok in H as (t & Ht & H).
  injection H as <-. apply condition_at_ok in Hc as [Hw Hb]. split_and!; [done|done|]. simpl.
  unfold _validate_target_mailbox in *. apply result_bind_ok in Ht as (t' & Hv & Ht).
  case_match eqn:E; [|done]. injection Ht as ->. pose proof Hv as (Hj & _)%validate_text_ok.
  rewrite Hj in Hv. rewrite Hv. cbn [mbind result_mbind result_bind]. by rewrite E.
Qed.
End RoundTrip.

Definition demo_rule : Rule := MkRule demo_condition (u "Newsletters").

