(* ===== verification/RuleMessage.v ===== *)
(** * Messages for rule matching: the bounded parser of [rules.py]

    From raw RFC 5322 bytes to the normalised facts rules are matched against:
    the scan of the top-level headers, header decoding, the walk over the MIME
    parts, envelope values.

    Python's [email] package is a parameter: [parse] is
    [BytesParser(...).parsebytes] as the number of message objects it constructs
    and its outcome, [decode_header] and [bytes_decode] are
    [email.header.decode_header] and [bytes.decode(..., "strict")].  A parsed
    message is the tree of what the code reads off it. *)

From S2P Require Import Prelude Text Errors RuleDoc.

Definition MAX_RAW_MESSAGE_BYTES : Z := 25 * 1024 * 1024.
Definition MAX_BODY_BYTES : Z := MAX_RAW_MESSAGE_BYTES.
Definition MAX_TOP_LEVEL_HEADER_BYTES : Z := 128 * 1024.
Definition MAX_HEADER_LINE_BYTES : Z := 16 * 1024.
Definition MAX_HEADERS_PER_PART : Z := 256.
Definition MAX_MESSAGE_HEADERS : Z := 1024.
Definition MAX_MESSAGE_HEADER_CHARACTERS : Z := 256 * 1024.
Definition MAX_DECODED_HEADER_CHARACTERS : Z := 128 * 1024.
Definition MAX_MIME_PARTS : Z := 128.
Definition MAX_MIME_DEPTH : Z := 32.
Definition MAX_ENVELOPE_VALUES : Z := 100.
Definition MAX_ENVELOPE_VALUE_CHARACTERS : Z := 998.

(** ** Text normalisation *)

Definition is_blank (c : Z) : bool := (c =? 32) || (c =? 9).

(** [_FOLD_RE.sub(" ", value)] for [\r?\n[ \t]+]; [inside] while the blanks of
    a match are being consumed. *)
Fixpoint unfold_lines (inside : bool) (s : list Z) : list Z :=
  match s with
  | [] => []
  | c :: r =>
      if inside && is_blank c then unfold_lines true r
      else if c =? 13 then
        match r with
        | n :: b :: r' => if (n =? 10) && is_blank b then 32 :: unfold_lines true r'
                          else c :: unfold_lines false r
        | _ => c :: unfold_lines false r
        end
      else if c =? 10 then
        match r with
        | b :: r' => if is_blank b then 32 :: unfold_lines true r' else c :: unfold_lines false r
        | _ => c :: unfold_lines false r
        end
      else c :: unfold_lines false r
  end.

(** [re.sub(r"[ \t]+", " ", s)]. *)
Fixpoint collapse_blanks (inside : bool) (s : list Z) : list Z :=
  match s with
  | [] => []
  | c :: r => if is_blank c
              then if inside then collapse_blanks true r else 32 :: collapse_blanks true r
              else c :: collapse_blanks false r
  end.

Definition _normalize_decoded_text (value : list Z) : result exc (list Z) :=
  let unfolded := unfold_lines false value in
  if has_char 13 unfolded || has_char 10 unfolded then Err RuleMessageError
  else
    let unfolded := collapse_blanks false unfolded in
    if existsb unsafe_char unfolded then Err RuleMessageError else Ok unfolded.

(** [except (LookupError, TypeError, UnicodeError, ValueError): raise wrapped]. *)
Definition wrap {A} (wrapped : exc) (r : result exc A) : result exc A :=
  match r with
  | Ok a => Ok a
  | Err e => if catches [LookupError; TypeError; UnicodeError; ValueError] e
             then Err wrapped else Err e
  end.

(** ** The top-level headers *)

(** [stream.readline(limit)]: the line and the rest of the stream. *)
Fixpoint readline (limit : nat) (s : list Z) : list Z * list Z :=
  match limit, s with
  | S limit, c :: r =>
      if c =? 10 then ([c], r)
      else let '(line, rest) := readline limit r in (c :: line, rest)
  | _, _ => ([], s)
  end.

Definition is_eol (c : Z) : bool := (c =? 13) || (c =? 10).

Fixpoint header_scan (fuel : nat) (stream : list Z) (tell total count : Z) (have_header : bool)
  : result exc Z :=
  match fuel with
  | O => Err OutOfFuel
  | S fuel =>
      let '(line, rest) := readline (Z.to_nat (MAX_HEADER_LINE_BYTES + 1)) stream in
      let tell := tell + zlen line in
      if MAX_HEADER_LINE_BYTES <? zlen line then Err RuleMessageLimitError
      else match line with
      | [] => Ok tell
      | _ =>
          let total := total + zlen line in
          if MAX_TOP_LEVEL_HEADER_BYTES <? total then Err RuleMessageLimitError
          else
            match rstrip_by is_eol line with
            | [] => Ok tell
            | (first :: _) as content =>
                if is_blank first then
                  if have_header then header_scan fuel rest tell total count have_header
                  else Err RuleMessageError
                else
                  match partition_char 58 content with
                  | None => Err RuleMessageError
                  | Some (name, _) =>
                      if negb (is_ascii name) then Err RuleMessageError
                      else if bool_decide (name = []) || (MAX_HEADER_NAME_CHARACTERS <? zlen name)
                              || negb (_HEADER_NAME_RE name) then Err RuleMessageError
                      else if MAX_HEADERS_PER_PART <? count + 1 then Err RuleMessageLimitError
                      else header_scan fuel rest tell total (count + 1) true
                  end
            end
      end
  end.

(** Every round consumes at least one byte. *)
Definition _validate_top_level_headers (raw : list Z) : result exc Z :=
  header_scan (S (length raw)) raw 0 0 0 false.

(** ** MIME parts *)

Inductive mime : Type :=
| Mime (raw_items : list (list Z * list Z)) (has_defects is_multipart : bool)
    (payload : option (list mime))
    (disposition filename : result exc (option (list Z))) (content_type : list Z).

Definition raw_items (m : mime) : list (list Z * list Z) :=
  match m with Mime i _ _ _ _ _ _ => i end.
Definition has_defects (m : mime) : bool := match m with Mime _ d _ _ _ _ _ => d end.
Definition is_multipart (m : mime) : bool := match m with Mime _ _ b _ _ _ _ => b end.
Definition payload (m : mime) : option (list mime) := match m with Mime _ _ _ p _ _ _ => p end.
Definition disposition (m : mime) : result exc (option (list Z)) :=
  match m with Mime _ _ _ _ d _ _ => d end.
Definition filename (m : mime) : result exc (option (list Z)) :=
  match m with Mime _ _ _ _ _ f _ => f end.
Definition content_type (m : mime) : list Z := match m with Mime _ _ _ _ _ _ t => t end.

(** The header loop of one part: the updated totals. *)
Fixpoint part_headers (items : list (list Z * list Z)) (count total characters : Z)
  : result exc (Z * Z) :=
  match items with
  | [] => Ok (total, characters)
  | (name, value) :: items =>
      let count := count + 1 in
      let total := total + 1 in
      let characters := characters + zlen name + zlen value in
      if bool_decide (name = []) || (MAX_HEADER_NAME_CHARACTERS <? zlen name)
         || negb (_HEADER_NAME_RE name) then Err RuleMessageError
      else if (MAX_HEADERS_PER_PART <? count) || (MAX_MESSAGE_HEADERS <? total)
      then Err RuleMessageLimitError
      else if MAX_MESSAGE_HEADER_CHARACTERS <? characters then Err RuleMessageLimitError
      else part_headers items count total characters
  end.

(** The stack of the code, its top first; [parts] in reverse. *)
Fixpoint parts_loop (fuel : nat) (stack : list (mime * Z)) (parts : list mime)
    (total characters : Z) : result exc (list mime) :=
  match fuel with
  | O => Err OutOfFuel
  | S fuel =>
      match stack with
      | [] => Ok (reverse parts)
      | (part, depth) :: stack =>
          if MAX_MIME_DEPTH <? depth then Err RuleMessageLimitError
          else
            let parts := part :: parts in
            if MAX_MIME_PARTS <? zlen parts then Err RuleMessageLimitError
            else if has_defects part then Err RuleMessageError
            else
              '(total, characters) ← part_headers (raw_items part) 0 total characters;
              if negb (is_multipart part) then parts_loop fuel stack parts total characters
              else match payload part with
                   | None => Err RuleMessageError
                   | Some children =>
                       parts_loop fuel (((λ child, (child, depth + 1)) <$> children) ++ stack)
                         parts total characters
                   end
      end
  end.

(** Every round adds a part, and the 129th raises. *)
Definition PARTS_FUEL : nat := 130.
Definition _bounded_parts (message : mime) : result exc (list mime) :=
  parts_loop PARTS_FUEL [(message, 0)] [] 0 0.

Section Messages.
Context (unicode_casefold : Z → list Z).
Notation casefold := (casefold unicode_casefold).

Inductive fragment : Type :=
| TextFragment (s : list Z)
| BytesFragment (b : list Z) (charset : option (list Z)).

Context (decode_header : list Z → result exc (list fragment)).
Context (bytes_decode : list Z → list Z → result exc (list Z)).
Context (parse : list Z → Z * result exc mime).

Definition render_fragment (f : fragment) : result exc (list Z) :=
  match f with
  | TextFragment s => Ok s
  | BytesFragment b charset =>
      let encoding := match charset with
                      | Some ((_ :: _) as c) => c
                      | _ => u "ascii"
                      end in
      match bytes_decode b encoding with
      | Ok s => Ok s
      | Err e => if catches [LookupError; UnicodeError] e then Err RuleMessageError else Err e
      end
  end.

Definition _decode_header_value (value : list Z) : result exc (list Z) :=
  fragments ← wrap RuleMessageError (_normalize_decoded_text value ≫= decode_header);
  decoded ← result_map render_fragment fragments;
  text ← _normalize_decoded_text (mjoin decoded);
  Ok (casefold text).

(** [for part in parts]: the first part that is an attachment decides. *)
Fixpoint attachment_among (root : bool) (parts : list mime) : result exc bool :=
  match parts with
  | [] => Ok false
  | part :: parts =>
      '(disposition, filename) ← wrap RuleMessageError
        (d ← disposition part; f ← filename part; Ok (d, f));
      if bool_decide (disposition = Some (u "attachment"))
         || (negb root && negb (bool_decide (filename = None)))
         || (negb root && str_eqb (casefold (content_type part)) (u "message/rfc822"))
      then Ok true else attachment_among false parts
  end.

Definition _has_attachment (parts : list mime) : result exc bool := attachment_among true parts.

(** ** Envelope *)

Definition _validate_envelope_value (value : list Z) : result exc (list Z) :=
  if MAX_ENVELOPE_VALUE_CHARACTERS <? zlen value then Err RuleMessageLimitError
  else
    normalized ← _normalize_decoded_text value;
    let normalized := strip normalized in
    if bool_decide (normalized = []) then Err RuleMessageError else Ok (casefold normalized).

(** [str | Iterable[str] | None]. *)
Inductive envelope_recipient : Type :=
| NoRecipient
| OneRecipient (value : list Z)
| ManyRecipients (values : list (list Z)).

Fixpoint recipients_loop (source : list (list Z)) (recipients : list (list Z))
  : result exc (list (list Z)) :=
  match source with
  | [] => Ok (reverse recipients)
  | recipient :: source =>
      value ← _validate_envelope_value recipient;
      let recipients := value :: recipients in
      if MAX_ENVELOPE_VALUES <? zlen recipients then Err RuleMessageLimitError
      else recipients_loop source recipients
  end.

Definition _normalize_envelope_recipients (value : envelope_recipient)
  : result exc (list (list Z)) :=
  match value with
  | NoRecipient => Ok []
  | OneRecipient v => recipients_loop [v] []
  | ManyRecipients vs => recipients_loop vs []
  end.

(** ** [RuleMessage] and the parser *)

Record RuleMessage := MkRuleMessage {
  headers : list (list Z * list Z);
  size : Z;
  has_attachment : bool;
  envelope_sender : option (list Z);
  envelope_recipients : list (list Z);
}.

Fixpoint normalize_headers (items : list (list Z * list Z)) (decoded_characters : Z)
  : result exc (list (list Z * list Z)) :=
  match items with
  | [] => Ok []
  | (name, value) :: items =>
      decoded ← _decode_header_value value;
      let decoded_characters := decoded_characters + zlen decoded in
      if MAX_DECODED_HEADER_CHARACTERS <? decoded_characters then Err RuleMessageLimitError
      else
        rest ← normalize_headers items decoded_characters;
        Ok ((casefold name, decoded) :: rest)
  end.

(** The parser under [bounded_factory]: the 129th construction raises inside
    it; otherwise its own outcome, with the [except] clauses of the call. *)
Definition bounded_parse (raw : list Z) : result exc mime :=
  let '(constructed, outcome) := parse raw in
  if MAX_MIME_PARTS <? constructed then Err RuleMessageLimitError
  else match outcome with
       | Ok m => Ok m
       | Err e =>
           if catches [RuleMessageError] e then Err e
           else if catches [RecursionError] e then Err RuleMessageLimitError
           else if catches [LookupError; TypeError; UnicodeError; ValueError] e
           then Err RuleMessageError else Err e
       end.

Definition parse_rule_message (raw : list Z) (sender : option (list Z))
    (recipient : envelope_recipient) : result exc RuleMessage :=
  if MAX_RAW_MESSAGE_BYTES <? zlen raw then Err RuleMessageLimitError
  else
    body_offset ← _validate_top_level_headers raw;
    if MAX_BODY_BYTES <? zlen raw - body_offset then Err RuleMessageLimitError
    else
      message ← bounded_parse raw;
      parts ← _bounded_parts message;
      normalized_headers ← normalize_headers (raw_items message) 0;
      normalized_sender ← match sender with
                          | None => Ok None
                          | Some s => v ← _validate_envelope_value s; Ok (Some v)
                          end;
      normalized_recipients ← _normalize_envelope_recipients recipient;
      attachment ← _has_attachment parts;
      Ok (MkRuleMessage normalized_headers (zlen raw) attachment normalized_sender
            normalized_recipients).
End Messages.
