(* ===== verification/RuleEval.v ===== *)
(** * Compiling and evaluating rules: the last part of [rules.py]

    Compiled conditions, their three-valued evaluation on a [RuleMessage], and
    the first-match search over a list of rules. *)

From S2P Require Import Prelude Text Errors Json RuleDoc RuleMessage.

Inductive _CompiledCondition : Type :=
| _CompiledAnd (conditions : list _CompiledCondition)
| _CompiledOr (conditions : list _CompiledCondition)
| _CompiledNot (c : _CompiledCondition)
| _CompiledString (field : StringField) (operator : StringOperator)
    (value header : option (list Z))
| _CompiledNumeric (operator : NumericOperator) (value : Z)
| _CompiledBoolean (value : bool).

Inductive _Truth : Type := FALSE | TRUE | UNKNOWN.

#[export] Instance _Truth_eq_dec : EqDecision _Truth.
Proof. solve_decision. Defined.

Definition truth_of (b : bool) : _Truth := if b then TRUE else FALSE.

Record CompiledRule := MkCompiledRule { rule : Rule; _condition : _CompiledCondition }.

Section Eval.
Context (unicode_casefold : Z → list Z).
Notation casefold := (casefold unicode_casefold).

Fixpoint _compile_condition (c : condition) : _CompiledCondition :=
  match c with
  | AndCondition l => _CompiledAnd (_compile_condition <$> l)
  | OrCondition l => _CompiledOr (_compile_condition <$> l)
  | NotCondition c => _CompiledNot (_compile_condition c)
  | StringCondition field operator value header =>
      _CompiledString field operator (casefold <$> value) header
  | NumericCondition operator value => _CompiledNumeric operator value
  | BooleanCondition value => _CompiledBoolean value
  end.

Definition compile_rule (r : Rule) : result exc CompiledRule :=
  _validate_condition_budget (rule_condition r) ≫= λ _,
  Ok (MkCompiledRule r (_compile_condition (rule_condition r))).

(** [compile_rule] of a mapping or of JSON text. *)
Definition compile_mapping (document : json) : result exc CompiledRule :=
  r ← from_mapping unicode_casefold document; compile_rule r.
Definition compile_json (py_float : list Z → pyfloat) (document : list Z)
  : result exc CompiledRule :=
  r ← from_json unicode_casefold py_float document; compile_rule r.

Definition compile_rules (rules : list Rule) : result exc (list CompiledRule) :=
  result_map compile_rule rules.

(** ** [RuleMessage] lookups *)

Definition header_values (m : RuleMessage) (name : list Z) : list (list Z) :=
  (filter (λ kv, kv.1 = casefold name) (headers m)).*2.

Definition header_name_of (field_name : StringField) (header : option (list Z)) : list Z :=
  match field_name with
  | FROM => u "from" | TO => u "to" | CC => u "cc" | BCC => u "bcc"
  | REPLY_TO => u "reply-to" | SUBJECT => u "subject" | LIST_ID => u "list-id"
  | HEADER => default [] header
  end.

Definition string_values (m : RuleMessage) (field_name : StringField) (header : option (list Z))
  : list (list Z) :=
  let values := header_values m (header_name_of field_name header) in
  match field_name with
  | FROM => match envelope_sender m with Some s => values ++ [s] | None => values end
  | TO => values ++ envelope_recipients m
  | _ => values
  end.

(** ** Evaluation *)

Definition _string_result (field : StringField) (operator : StringOperator)
    (value header : option (list Z)) (m : RuleMessage) : _Truth :=
  let values := string_values m field header in
  match operator with
  | EXISTS => truth_of (negb (bool_decide (values = [])))
  | _ =>
      match values, value with
      | [], _ => UNKNOWN
      | _, None => UNKNOWN
      | _, Some value =>
          truth_of (match operator with
                    | EQUALS => existsb (λ candidate, str_eqb candidate value) values
                    | NOT_EQUALS => forallb (λ candidate, negb (str_eqb candidate value)) values
                    | CONTAINS => existsb (contains value) values
                    | NOT_CONTAINS => forallb (λ candidate, negb (contains value candidate)) values
                    | STARTS_WITH => existsb (starts_with value) values
                    | ENDS_WITH => existsb (ends_with value) values
                    | EXISTS => false
                    end)
      end
  end.

Definition _numeric_result (operator : NumericOperator) (value : Z) (m : RuleMessage) : _Truth :=
  let size := size m in
  truth_of (match operator with
            | EQ => size =? value
            | LT => size <? value
            | LTE => size <=? value
            | GT => value <? size
            | GTE => value <=? size
            end).

(** The loops over the operands, with their early return and [saw_unknown]. *)
Section Loops.
Context (evaluate : _CompiledCondition → _Truth).

Fixpoint and_loop (conditions : list _CompiledCondition) (saw_unknown : bool) : _Truth :=
  match conditions with
  | [] => if saw_unknown then UNKNOWN else TRUE
  | child :: conditions =>
      match evaluate child with
      | FALSE => FALSE
      | TRUE => and_loop conditions saw_unknown
      | UNKNOWN => and_loop conditions true
      end
  end.

Fixpoint or_loop (conditions : list _CompiledCondition) (saw_unknown : bool) : _Truth :=
  match conditions with
  | [] => if saw_unknown then UNKNOWN else FALSE
  | child :: conditions =>
      match evaluate child with
      | TRUE => TRUE
      | FALSE => or_loop conditions saw_unknown
      | UNKNOWN => or_loop conditions true
      end
  end.
End Loops.

Definition negate (t : _Truth) : _Truth :=
  match t with TRUE => FALSE | FALSE => TRUE | UNKNOWN => UNKNOWN end.

Fixpoint _evaluate_condition (c : _CompiledCondition) (m : RuleMessage) : _Truth :=
  match c with
  | _CompiledString field operator value header => _string_result field operator value header m
  | _CompiledNumeric operator value => _numeric_result operator value m
  | _CompiledBoolean value => truth_of (Bool.eqb (has_attachment m) value)
  | _CompiledNot c => negate (_evaluate_condition c m)
  | _CompiledAnd l => and_loop (λ child, _evaluate_condition child m) l false
  | _CompiledOr l => or_loop (λ child, _evaluate_condition child m) l false
  end.

Definition matches (r : CompiledRule) (m : RuleMessage) : bool :=
  bool_decide (_evaluate_condition (_condition r) m = TRUE).

Fixpoint evaluate_message (rules : list CompiledRule) (m : RuleMessage) : option (list Z) :=
  match rules with
  | [] => None
  | r :: rules => if matches r m then Some (target_mailbox (rule r)) else evaluate_message rules m
  end.

(** ** From the raw message, failing closed *)

Context (decode_header : list Z → result exc (list fragment)).
Context (bytes_decode : list Z → list Z → result exc (list Z)).
Context (parse : list Z → Z * result exc mime).

Definition parsed_message (raw : list Z) (sender : option (list Z)) (recipient : envelope_recipient)
  : result exc RuleMessage :=
  parse_rule_message unicode_casefold decode_header bytes_decode parse raw sender recipient.

Definition matches_raw (r : CompiledRule) (raw : list Z) (sender : option (list Z))
    (recipient : envelope_recipient) : bool :=
  match parsed_message raw sender recipient with
  | Ok m => matches r m
  | Err _ => false
  end.

Definition evaluate_rules (rules : list CompiledRule) (raw : list Z) (sender : option (list Z))
    (recipient : envelope_recipient) : option (list Z) :=
  match parsed_message raw sender recipient with
  | Ok m => evaluate_message rules m
  | Err _ => None
  end.
End Eval.
