(* ===== verification/RuleEvalSpecs.v ===== *)
(** * Rule evaluation: theorems

    The loops of [_evaluate_condition] compute Kleene's strong three-valued
    logic on the source conditions; the search returns the first match; the
    message parser terminates within its bounds. *)

From S2P Require Import Prelude Text Errors Json RuleDoc RuleDocSpecs RuleMessage RuleEval.

#[local] Set Default Proof Using "Type*".

(** ** Kleene's strong connectives *)

Definition kand (a b : _Truth) : _Truth :=
  match a, b with
  | FALSE, _ | _, FALSE => FALSE
  | TRUE, TRUE => TRUE
  | _, _ => UNKNOWN
  end.

Definition kor (a b : _Truth) : _Truth :=
  match a, b with
  | TRUE, _ | _, TRUE => TRUE
  | FALSE, FALSE => FALSE
  | _, _ => UNKNOWN
  end.

#[export] Instance kand_comm : Comm (=) kand.
Proof. by intros [] []. Qed.
#[export] Instance kand_assoc : Assoc (=) kand.
Proof. by intros [] [] []. Qed.
#[export] Instance kor_comm : Comm (=) kor.
Proof. by intros [] []. Qed.
#[export] Instance kor_assoc : Assoc (=) kor.
Proof. by intros [] [] []. Qed.

Section Kleene.
Context (unicode_casefold : Z → list Z).

(** The truth of a source condition on a message, without loops or compilation. *)
Fixpoint denote (m : RuleMessage) (c : condition) : _Truth :=
  match c with
  | AndCondition l => foldr kand TRUE (denote m <$> l)
  | OrCondition l => foldr kor FALSE (denote m <$> l)
  | NotCondition c => negate (denote m c)
  | StringCondition field operator value header =>
      _string_result unicode_casefold field operator (casefold unicode_casefold <$> value) header m
  | NumericCondition operator value => _numeric_result operator value m
  | BooleanCondition value => truth_of (Bool.eqb (has_attachment m) value)
  end.

Lemma and_loop_kand evaluate l saw :
  and_loop evaluate l saw =
  kand (if saw then UNKNOWN else TRUE) (foldr kand TRUE (evaluate <$> l)).
Proof.
  revert saw. induction l as [|c l IH]; intros saw; csimpl; [by destruct saw|].
  destruct (evaluate c); rewrite ?IH; destruct saw, (foldr kand TRUE (evaluate <$> l)); done.
Qed.

Lemma or_loop_kor evaluate l saw :
  or_loop evaluate l saw =
  kor (if saw then UNKNOWN else FALSE) (foldr kor FALSE (evaluate <$> l)).
Proof.
  revert saw. induction l as [|c l IH]; intros saw; csimpl; [by destruct saw|].
  destruct (evaluate c); rewrite ?IH; destruct saw, (foldr kor FALSE (evaluate <$> l)); done.
Qed.

Notation evaluate m c :=
  (_evaluate_condition unicode_casefold (_compile_condition unicode_casefold c) m).

Lemma evaluate_children m l :
  Forall (λ c, evaluate m c = denote m c) l →
  (λ child, _evaluate_condition unicode_casefold child m)
    <$> (_compile_condition unicode_casefold <$> l) = denote m <$> l.
Proof.
  intros Hl. rewrite <-list_fmap_compose. apply list_fmap_ext. intros i c Hc.
  rewrite Forall_lookup in Hl. exact (Hl i c Hc).
Qed.

Lemma evaluate_denote m c : evaluate m c = denote m c.
Proof.
  induction c as [l IH|l IH|c IH|f o v h|o v|b] using condition_ind'; try done;
    cbn [_compile_condition _evaluate_condition denote].
  - rewrite and_loop_kand, evaluate_children by done. by destruct (foldr _ _ _).
  - rewrite or_loop_kor, evaluate_children by done. by destruct (foldr _ _ _).
  - by rewrite IH.
Qed.

(** C32: evaluating the compiled form of a condition with the early-exit
    loops is Kleene's strong three-valued semantics of the condition itself; in
    particular the order of the operands of [and] and [or] does not matter. *)
Theorem evaluation_kleene m c :
  evaluate m c = denote m c ∧
  ∀ l l', l ≡ₚ l' → evaluate m (AndCondition l) = evaluate m (AndCondition l') ∧
                    evaluate m (OrCondition l) = evaluate m (OrCondition l').
Proof.
  split; [apply evaluate_denote|]. intros l l' Hl. rewrite !evaluate_denote. cbn [denote]. split.
  - apply (foldr_permutation_proper' (=) kand TRUE). by rewrite Hl.
  - apply (foldr_permutation_proper' (=) kor FALSE). by rewrite Hl.
Qed.

(** The first rule whose condition is true of the message. *)
Definition first_true (rules : list Rule) (m : RuleMessage) : option Rule :=
  head (filter (λ r, denote m (rule_condition r) = TRUE) rules).

Lemma compile_rule_ok r : bounded (rule_condition r) →
  compile_rule unicode_casefold r =
  Ok (MkCompiledRule r (_compile_condition unicode_casefold (rule_condition r))).
Proof.
  intros [Hn Hh]. unfold compile_rule. rewrite validate_budget_spec.
  by replace (_ && _) with true by lia.
Qed.

(** C33: rules within the condition budget compile in their order, and the
    compiled list files a message into the target of the first rule whose
    condition is true, or nowhere when none is. *)
Theorem filing_first_match rules m :
  Forall (λ r, bounded (rule_condition r)) rules →
  ∃ compiled, compile_rules unicode_casefold rules = Ok compiled ∧
    rule <$> compiled = rules ∧
    evaluate_message unicode_casefold compiled m = target_mailbox <$> first_true rules m.
Proof.
  intros Hrules. unfold compile_rules, first_true.
  induction Hrules as [|r rules Hb Hrules (compiled & Hc & Hr & He)]; [by exists []|].
  exists (MkCompiledRule r (_compile_condition unicode_casefold (rule_condition r)) :: compiled).
  cbn [result_map]. rewrite compile_rule_ok by done. cbn [mbind result_mbind result_bind].
  rewrite Hc.
  split; [done|]. csimpl. split; [by rewrite Hr|]. rewrite He. unfold matches. simpl.
  rewrite evaluate_denote, filter_cons. destruct (decide _); [by rewrite bool_decide_true|by rewrite bool_decide_false].
Qed.
End Kleene.

Definition demo_message : RuleMessage :=
  MkRuleMessage [(u "list-id", u "the weekly digest"); (u "cc", u "team@example.org");
    (u "from", u "news@example.org")] 2000000 false None [].

Lemma filing_first_match_witness :
  ∃ compiled, compile_rules demo_fold [demo_rule] = Ok compiled ∧
    evaluate_message demo_fold compiled demo_message = Some (u "Newsletters").
Proof.
  destruct (filing_first_match demo_fold [demo_rule] demo_message) as (compiled & Hc & _ & He).
  - constructor; [|constructor]. vm_compute. split; discriminate.
  - exists compiled. split; [exact Hc|]. rewrite He. vm_compute. reflexivity.
Defined.

(** ** The header scan *)

Lemma readline_app limit s : (readline limit s).1 ++ (readline limit s).2 = s.
Proof.
  revert limit. induction s as [|c s IH]; intros [|limit]; try done. simpl.
  destruct (c =? 10); [done|]. specialize (IH limit).
  destruct (readline limit s) as [line rest]. simpl in *. by rewrite IH.
Qed.

Lemma readline_nil limit s rest : (0 < limit)%nat → readline limit s = ([], rest) → s = [].
Proof.
  destruct limit, s as [|c s]; try done; [lia|]. simpl. intros _.
  destruct (c =? 10); [done|]. by destruct (readline limit s).
Qed.

Definition message_error (e : exc) : Prop := e = RuleMessageError ∨ e = RuleMessageLimitError.

Definition scan_post (tell available : Z) (r : result exc Z) : Prop :=
  match r with
  | Ok off => tell ≤ off ≤ tell + available ∧ off ≤ MAX_TOP_LEVEL_HEADER_BYTES
  | Err e => message_error e
  end.

Lemma header_scan_spec fuel stream tell count have :
  (length stream < fuel)%nat → tell ≤ MAX_TOP_LEVEL_HEADER_BYTES →
  scan_post tell (zlen stream) (header_scan fuel stream tell tell count have).
Proof.
  revert stream tell count have. induction fuel as [|fuel IH]; intros stream tell count have Hf Ht;
    [lia|]. cbn [header_scan].
  pose proof (readline_app (Z.to_nat (MAX_HEADER_LINE_BYTES + 1)) stream) as Happ.
  destruct (readline _ stream) as [line rest]. cbn [fst snd] in Happ. subst stream.
  rewrite zlen_app. pose proof (zlen_nonneg rest). pose proof (zlen_nonneg line).
  case_match; [by right|]. destruct line as [|c line].
  { unfold scan_post, zlen in *. simpl in *. lia. }
  case_match; [by right|].
  assert (Hlen : (length rest < fuel)%nat) by (rewrite length_app in Hf; simpl in Hf; lia).
  assert (Hrec : ∀ count' have', scan_post tell (zlen (c :: line) + zlen rest)
    (header_scan fuel rest (tell + zlen (c :: line)) (tell + zlen (c :: line)) count' have')).
  { intros count' have'.
    specialize (IH rest (tell + zlen (c :: line)) count' have' Hlen ltac:(lia)).
    destruct (header_scan _ _ _ _ _ _); [|done]. simpl in *. lia. }
  destruct (rstrip_by is_eol (c :: line)) as [|first content]; [simpl; lia|].
  repeat (case_match; try (by left); try (by right)); apply Hrec.
Qed.

Lemma validate_headers_spec raw :
  scan_post 0 (zlen raw) (_validate_top_level_headers raw).
Proof. apply header_scan_spec; [lia|done]. Qed.

(** ** The walk over the MIME parts *)

Definition subparts (m : mime) : list mime := if is_multipart m then default [] (payload m) else [].

Section MimeInd.
Context (P : mime → Prop).
Context (Hm : ∀ i d b p x f t, Forall P (default [] p) → P (Mime i d b p x f t)).

Fixpoint mime_ind' (m : mime) : P m :=
  match m with
  | Mime i d b p x f t =>
      Hm i d b p x f t
        (match p return Forall P (default [] p) with
         | None => Forall_nil_2 P
         | Some l => (fix go (l : list mime) : Forall P l :=
                        match l with
                        | [] => Forall_nil_2 P
                        | y :: l => Forall_cons_2 P y l (mime_ind' y) (go l)
                        end) l
         end)
  end.
End MimeInd.

(** The parts of a message in document order, and the depth of its nesting. *)
Fixpoint preorder (m : mime) : list mime :=
  m :: match m with
       | Mime _ _ b (Some l) _ _ _ => if b then mjoin (preorder <$> l) else []
       | _ => []
       end.

Fixpoint mime_depth (m : mime) : Z :=
  match m with
  | Mime _ _ b (Some l) _ _ _ => if b then zmax ((λ c, 1 + mime_depth c) <$> l) else 0
  | _ => 0
  end.

Lemma preorder_eq m : preorder m = m :: mjoin (preorder <$> subparts m).
Proof. by destruct m as [? ? [] [l|] ? ? ?]. Qed.

Lemma mime_depth_eq m : mime_depth m = zmax ((λ c, 1 + mime_depth c) <$> subparts m).
Proof. by destruct m as [? ? [] [l|] ? ? ?]. Qed.

Definition total_headers (l : list mime) : Z := zsum ((λ p, zlen (raw_items p)) <$> l).

Definition headers_post (n count total : Z) (r : result exc (Z * Z)) : Prop :=
  match r with
  | Ok (total', _) => total' = total + n ∧ total' ≤ MAX_MESSAGE_HEADERS ∧
      count + n ≤ MAX_HEADERS_PER_PART
  | Err e => message_error e
  end.

Lemma part_headers_spec items count total characters :
  0 ≤ count ≤ MAX_HEADERS_PER_PART → total ≤ MAX_MESSAGE_HEADERS →
  headers_post (zlen items) count total (part_headers items count total characters).
Proof.
  revert count total characters. induction items as [|[name value] items IH];
    intros count total characters Hc Ht; cbn [part_headers]; [unfold zlen; simpl; lia|].
  rewrite zlen_cons. case_match; [by left|]. case_match; [by right|]. case_match; [by right|].
  specialize (IH (count + 1) (total + 1) (characters + zlen name + zlen value) ltac:(lia) ltac:(lia)).
  destruct (part_headers _ _ _ _) as [[total' c']|]; [simpl in *; lia|done].
Qed.

Definition part_ok (p : mime) : Prop :=
  has_defects p = false ∧ zlen (raw_items p) ≤ MAX_HEADERS_PER_PART.

(** What the walk promises of the parts it returns. *)
Definition walk_post (stack : list (mime * Z)) (parts : list mime) (total : Z)
    (r : result exc (list mime)) : Prop :=
  match r with
  | Ok res =>
      res = reverse parts ++ mjoin (preorder <$> stack.*1) ∧ zlen res ≤ MAX_MIME_PARTS ∧
      Forall (λ md, md.2 + mime_depth md.1 ≤ MAX_MIME_DEPTH) stack ∧
      Forall part_ok (mjoin (preorder <$> stack.*1)) ∧
      total + total_headers (mjoin (preorder <$> stack.*1)) ≤ MAX_MESSAGE_HEADERS
  | Err e => message_error e
  end.

Lemma total_headers_app l k : total_headers (l ++ k) = total_headers l + total_headers k.
Proof. unfold total_headers. by rewrite fmap_app, zsum_app. Qed.

(** Visiting a part pushes its subparts. *)
Lemma walk_post_push m depth stack parts total r :
  depth ≤ MAX_MIME_DEPTH → part_ok m →
  walk_post (((λ child, (child, depth + 1)) <$> subparts m) ++ stack) (m :: parts)
    (total + zlen (raw_items m)) r →
  walk_post ((m, depth) :: stack) parts total r.
Proof.
  intros Hd Hok. destruct r as [res|e]; [|done]. unfold walk_post.
  rewrite fmap_app, <-list_fmap_compose, reverse_cons.
  replace (fst ∘ (λ child : mime, (child, depth + 1)) <$> subparts m) with (subparts m)
    by (by rewrite list_fmap_id).
  rewrite fmap_app, join_app, Forall_app, Forall_fmap, Forall_app, total_headers_app. csimpl.
  rewrite preorder_eq. intros (-> & Hlen & [Hch Hst] & [Hp Hps] & Htot). split_and!.
  - by rewrite <-!app_assoc.
  - done.
  - constructor; [|done]. simpl. rewrite mime_depth_eq.
    assert (zmax ((λ c, 1 + mime_depth c) <$> subparts m) ≤ MAX_MIME_DEPTH - depth); [|lia].
    apply zmax_le; [lia|]. apply Forall_fmap. eapply Forall_impl; [exact Hch|]. simpl. lia.
  - simpl. constructor; [done|]. by apply Forall_app.
  - unfold total_headers in *. csimpl. rewrite fmap_app, zsum_app. lia.
Qed.

Lemma parts_loop_spec fuel stack parts total characters :
  (Z.to_nat (MAX_MIME_PARTS - zlen parts) + 1 < fuel)%nat → zlen parts ≤ MAX_MIME_PARTS →
  total ≤ MAX_MESSAGE_HEADERS →
  walk_post stack parts total (parts_loop fuel stack parts total characters).
Proof.
  revert stack parts total characters.
  induction fuel as [|fuel IH]; intros stack parts total characters Hf Hp Ht; [lia|].
  cbn [parts_loop]. destruct stack as [|[m depth] stack].
  { unfold walk_post, zlen, total_headers in *. simpl. rewrite app_nil_r, length_reverse.
    split_and!; try done; try constructor. lia. }
  case_match; [by right|]. rewrite zlen_cons. case_match; [by right|].
  destruct (has_defects m) eqn:Hdef; [by left|].
  pose proof (part_headers_spec (raw_items m) 0 total characters ltac:(done) Ht) as Hh.
  destruct (part_headers _ _ _ _) as [[total' ch']|]; [|exact Hh].
  destruct Hh as (-> & Ht' & Hc). cbn [mbind result_mbind result_bind].
  assert (Hok : part_ok m) by (split; [done|lia]).
  assert (Hrec : walk_post (((λ child, (child, depth + 1)) <$> subparts m) ++ stack) (m :: parts)
    (total + zlen (raw_items m))
    (parts_loop fuel (((λ child, (child, depth + 1)) <$> subparts m) ++ stack) (m :: parts)
       (total + zlen (raw_items m)) ch')).
  { apply IH; rewrite ?zlen_cons; lia. }
  apply walk_post_push in Hrec; [|lia|done]. revert Hrec. unfold subparts.
  destruct (is_multipart m); cbn [negb]; [|done].
  destruct (payload m) as [l|]; [done|]. intros _. by left.
Qed.

(** The walk over the MIME parts terminates; it returns the parts of
    the message in document order, and only when it stays within 128 parts, 32
    levels, 256 headers per part, 1024 headers in all and no defect, and raises
    one of the two message errors otherwise. *)
Theorem bounded_parts_preorder m :
  match _bounded_parts m with
  | Ok parts => parts = preorder m ∧ zlen parts ≤ 128 ∧ mime_depth m ≤ 32 ∧
      total_headers parts ≤ 1024 ∧
      Forall (λ p, has_defects p = false ∧ zlen (raw_items p) ≤ 256) parts
  | Err e => e = RuleMessageError ∨ e = RuleMessageLimitError
  end.
Proof.
  unfold _bounded_parts.
  pose proof (parts_loop_spec PARTS_FUEL [(m, 0)] [] 0 0 ltac:(vm_compute; lia) ltac:(done)
    ltac:(done)) as H.
  destruct (parts_loop _ _ _ _ _) as [parts|e]; [|exact H]. unfold walk_post in H.
  change ([(m, 0)].*1) with [m] in H. simpl in H. rewrite app_nil_r in H.
  destruct H as (-> & Hlen & Hd & Hok & Htot). apply Forall_cons in Hd as [Hd _].
  split_and!; [done|done|exact Hd|exact Htot|exact Hok].
Qed.
