(* ===== verification/Protocol.v ===== *)
(** * The helper protocol: [protocol.py]

    Length-prefixed JSON frames, binary streams, request and response objects
    and the one-request client, over a byte connection.

    A connection delivers what the peer sent in arbitrary non-empty pieces:
    [incoming] lists them in order, and reaching its end is the peer's close; a
    piece may also be a transport failure ([OSError]).  A source object is the
    list of what its successive [read] calls return. *)

From S2P Require Import Prelude Text Errors Json Totp.

Definition PROTOCOL_VERSION : Z := 2.
Definition HEADER_SIZE : Z := 4.
Definition DEFAULT_MAX_FRAME_BYTES : Z := 64 * 1024.
Definition DEFAULT_MAX_STREAM_BYTES : Z := 32 * 1024 * 1024.
Definition STREAM_CHUNK_BYTES : Z := 64 * 1024.
Definition _MAX_JSON_INTEGER_DIGITS : Z := 20.
Definition _MAX_JSON_FLOAT_CHARACTERS : Z := 128.

(** ** Patterns *)

Definition id_char (c : Z) : bool := is_alnum c || in_chars (u "_.-") c.
Definition _ID_RE (s : list Z) : bool := match_range id_char 1 64 s.

Definition word_char (c : Z) : bool := is_lower c || is_digit c || (c =? 95).
Definition is_word (s : list Z) : bool :=
  match s with [] => false | c :: r => is_lower c && forallb word_char r end.

(** A dotted name of two to six words. *)
Definition _OPERATION_RE (s : list Z) : bool :=
  let words := split_char 46 s in
  (2 <=? zlen words) && (zlen words <=? 6) && forallb is_word words.

Definition _ERROR_CODE_RE (s : list Z) : bool := is_word s && (zlen s <=? 64).
Definition _AUTH_TOKEN_RE (s : list Z) : bool :=
  match_exact (λ c, is_alnum c || (c =? 95) || (c =? 45)) 43 s.

(** ** JSON values *)

(** [bit_length() <= 64]. *)
Definition fits_64 (z : Z) : bool := Z.abs z <? 2 ^ 64.

Definition is_finite (f : pyfloat) : bool := match f with FFinite _ => true | _ => false end.

(** [_validate_json_value]: false is the ProtocolError. *)
Fixpoint valid_json (depth : Z) (value : json) : bool :=
  if 32 <? depth then false
  else match value with
       | JNull | JBool _ | JStr _ => true
       | JInt z => fits_64 z
       | JFloat f => is_finite f
       | JArr l => forallb (valid_json (depth + 1)) l
       | JObj kvs => forallb (λ kv, valid_json (depth + 1) kv.2) kvs
       end.

Definition _validate_json_value (value : json) : result exc unit :=
  if valid_json 0 value then Ok tt else Err ProtocolError.

Section Protocol.
Context (py_float : list Z → pyfloat).

Definition _bounded_int (value : list Z) : option json :=
  let digits_ := match value with 45 :: ds => ds | _ => value end in
  if _MAX_JSON_INTEGER_DIGITS <? zlen digits_ then None
  else match default_int value with
       | Some (JInt z) => if fits_64 z then Some (JInt z) else None
       | _ => None
       end.

Definition _bounded_float (value : list Z) : option json :=
  if _MAX_JSON_FLOAT_CHARACTERS <? zlen value then None
  else if is_finite (py_float value) then Some (JFloat (py_float value)) else None.

(** Every failure of a hook is the ProtocolError the decoder raises anyway. *)
Definition protocol_hooks : hooks :=
  Hooks _bounded_int _bounded_float (λ _, None) (λ pairs, Some (JObj (dict_of_pairs pairs))).

(** ** Frames *)

(** [struct.Struct("!I").pack]. *)
Definition pack_header (n : Z) : result exc (list Z) :=
  if (0 <=? n) && (n <? 2 ^ 32) then Ok (be_split 4 n) else Err StructError.

Definition encode_frame (message : json) (max_bytes : Z) : result exc (list Z) :=
  if max_bytes <=? 0 then Err ValueError
  else match message with
  | JObj _ =>
      _validate_json_value message ≫= λ _,
      match dumps true message with
      | None => Err ProtocolError
      | Some text =>
          match utf8_encode text with
          | None => Err ProtocolError
          | Some body =>
              if bool_decide (body = []) then Err ProtocolError
              else if max_bytes <? zlen body then Err FrameTooLarge
              else header ← pack_header (zlen body); Ok (header ++ body)
          end
      end
  | _ => Err ProtocolError
  end.

Definition decode_payload (payload : list Z) (max_bytes : Z) : result exc (list (list Z * json)) :=
  if bool_decide (payload = []) then Err ProtocolError
  else if max_bytes <? zlen payload then Err FrameTooLarge
  else match utf8_decode payload with
       | None => Err ProtocolError
       | Some text =>
           match loads protocol_hooks text with
           | Some (JObj kvs) => if valid_json 0 (JObj kvs) then Ok kvs else Err ProtocolError
           | _ => Err ProtocolError
           end
       end.

(** ** The connection *)

Inductive event : Type :=
| Chunk (b : list Z)
| Broken.

Inductive read_result : Type :=
| ReadBytes (b : list Z)
| ReadText (s : list Z).

Record conn := Conn {
  incoming : list event;
  sent : list Z;
  writable : bool;
  source : list read_result;
  sink : list Z;
}.

Definition IO : Type → Type := eff conn exc.

Definition set_incoming (e : list event) (c : conn) : conn :=
  Conn e (sent c) (writable c) (source c) (sink c).

(** [sock.recv(n)], for [0 < n]: at most [n] bytes of the next piece, or the
    empty string at the end of the stream. *)
Definition recv (n : Z) : IO (list Z) :=
  λ c, match incoming c with
       | [] => (Ok [], c)
       | Broken :: rest => (Err OSError, set_incoming rest c)
       | Chunk b :: rest =>
           if zlen b <=? n then (Ok b, set_incoming rest c)
           else (Ok (take (Z.to_nat n) b), set_incoming (Chunk (drop (Z.to_nat n) b) :: rest) c)
       end.

Definition sendall (b : list Z) : IO unit :=
  λ c, if writable c
       then (Ok tt, Conn (incoming c) (sent c ++ b) (writable c) (source c) (sink c))
       else (Err OSError, c).

(** [source.read(n)]: an object that may return fewer or more bytes than asked. *)
Definition source_read (n : Z) : IO read_result :=
  λ c, match source c with
       | [] => (Ok (ReadBytes []), c)
       | r :: rest => (Ok r, Conn (incoming c) (sent c) (writable c) rest (sink c))
       end.

Definition sink_write (b : list Z) : IO unit :=
  λ c, (Ok tt, Conn (incoming c) (sent c) (writable c) (source c) (sink c ++ b)).

(** The loop of [_recv_exact]; every round receives at least one byte. *)
Fixpoint recv_loop (fuel : nat) (size : Z) (chunks : list Z) : IO (list Z) :=
  match fuel with
  | O => throw OutOfFuel
  | S fuel =>
      if zlen chunks <? size then
        chunk ← recv (size - zlen chunks);
        match chunk with
        | [] => throw ConnectionClosed
        | _ => recv_loop fuel size (chunks ++ chunk)
        end
      else mret chunks
  end.

Definition _recv_exact (size : Z) : IO (list Z) := recv_loop (S (Z.to_nat size)) size [].

Definition receive_frame (max_bytes : Z) : IO (list (list Z * json)) :=
  header ← _recv_exact HEADER_SIZE;
  let length := be_combine header in
  if length =? 0 then throw ProtocolError
  else if max_bytes <? length then throw FrameTooLarge
  else payload ← _recv_exact length; lift (decode_payload payload max_bytes).

Definition send_frame (message : json) (max_bytes : Z) : IO unit :=
  frame ← lift (encode_frame message max_bytes); sendall frame.

(** *** Frames over a binary file object *)

(** The loop of [_read_exact_stream]; every round but the last takes at least one
    byte.  Text cannot extend the byte array. *)
Fixpoint read_exact_loop (fuel : nat) (size : Z) (chunks : list Z) : IO (list Z) :=
  match fuel with
  | O => throw OutOfFuel
  | S fuel =>
      if zlen chunks <? size then
        chunk ← source_read (size - zlen chunks);
        match chunk with
        | ReadBytes [] | ReadText [] => throw ConnectionClosed
        | ReadText _ => throw TypeError
        | ReadBytes b => read_exact_loop fuel size (chunks ++ b)
        end
      else mret chunks
  end.

Definition _read_exact_stream (size : Z) : IO (list Z) :=
  read_exact_loop (S (Z.to_nat size)) size [].

Definition read_frame (max_bytes : Z) : IO (list (list Z * json)) :=
  header ← _read_exact_stream HEADER_SIZE;
  (if zlen header =? HEADER_SIZE then mret tt else throw StructError) ≫= λ _,
  let length := be_combine header in
  if length =? 0 then throw ProtocolError
  else if max_bytes <? length then throw FrameTooLarge
  else payload ← _read_exact_stream length; lift (decode_payload payload max_bytes).

Definition write_frame (message : json) (max_bytes : Z) : IO unit :=
  frame ← lift (encode_frame message max_bytes); sink_write frame.

(** ** Binary streams *)

Definition _stream_length (message : list (list Z * json)) (maximum : Z) : result exc Z :=
  match default JNull (obj_get (u "stream_length") message) with
  | JInt value =>
      if value <=? 0 then Err StreamError
      else if maximum <? value then Err StreamTooLarge else Ok value
  | _ => Err StreamError
  end.

(** Every round sends at least one byte. *)
Fixpoint send_loop (fuel : nat) (remaining : Z) : IO unit :=
  match fuel with
  | O => throw OutOfFuel
  | S fuel =>
      if remaining =? 0 then mret tt
      else
        let requested := Z.min STREAM_CHUNK_BYTES remaining in
        chunk ← source_read requested;
        match chunk with
        | ReadBytes [] | ReadText [] => throw StreamTruncated
        | ReadText _ => throw StreamError
        | ReadBytes b =>
            if requested <? zlen b then throw StreamError
            else sendall b ≫= λ _, send_loop fuel (remaining - zlen b)
        end
  end.

Definition send_stream_frame (message : list (list Z * json)) (max_frame_bytes max_stream_bytes : Z)
    (require_eof : bool) : IO unit :=
  length ← lift (_stream_length message max_stream_bytes);
  send_frame (JObj message) max_frame_bytes ≫= λ _,
  send_loop (S (Z.to_nat length)) length ≫= λ _,
  if require_eof then
    extra ← source_read 1;
    match extra with
    | ReadBytes [] | ReadText [] => mret tt
    | _ => throw StreamError
    end
  else mret tt.

(** [try: sock.recv(n) except OSError: raise wrapped]. *)
Definition recv_or (n : Z) (wrapped : exc) : IO (list Z) :=
  chunk ← attempt (catches [OSError]) (recv n);
  match chunk with Some b => mret b | None => throw wrapped end.

Fixpoint receive_loop (fuel : nat) (remaining : Z) : IO unit :=
  match fuel with
  | O => throw OutOfFuel
  | S fuel =>
      if remaining =? 0 then mret tt
      else
        chunk ← recv_or (Z.min STREAM_CHUNK_BYTES remaining) StreamTruncated;
        match chunk with
        | [] => throw StreamTruncated
        | _ => sink_write chunk ≫= λ _, receive_loop fuel (remaining - zlen chunk)
        end
  end.

Definition receive_stream_payload (length max_stream_bytes : Z) (require_eof : bool) : IO Z :=
  if length <=? 0 then throw StreamError
  else if max_stream_bytes <? length then throw StreamTooLarge
  else
    receive_loop (S (Z.to_nat length)) length ≫= λ _,
    if require_eof then
      extra ← recv_or 1 StreamError;
      match extra with [] => mret length | _ => throw StreamError end
    else mret length.

Definition receive_stream_frame (max_frame_bytes max_stream_bytes : Z)
  : IO (list (list Z * json) * Z) :=
  message ← receive_frame max_frame_bytes;
  length ← lift (_stream_length message max_stream_bytes);
  receive_stream_payload length max_stream_bytes true ≫= λ _, mret (message, length).
End Protocol.

(** * Requests, responses and the client of [protocol.py]

    [Request], [ErrorPayload] and [Response] with the checks of their
    constructors, their payloads, and [UnixSocketClient] on one connection.  A
    constructor receives JSON values (None is [JNull]), as [from_payload] passes
    them. *)

From S2P Require Import Prelude Text Errors Json.

Definition _check_keys (payload : list (list Z * json)) (allowed required : list (list Z))
  : result exc unit :=
  if forallb (λ k, bool_decide (k ∈ allowed)) (obj_keys payload)
     && forallb (λ k, bool_decide (k ∈ obj_keys payload)) required
  then Ok tt else Err ProtocolError.

Definition _check_identifier (value : json) (pattern : list Z → bool) : result exc (list Z) :=
  match value with
  | JStr s => if pattern s then Ok s else Err ProtocolError
  | _ => Err ProtocolError
  end.

(** [payload["key"]] and [payload.get("key")], once the keys are checked. *)
Definition field (k : list Z) (payload : list (list Z * json)) : json :=
  default JNull (obj_get k payload).

(** [payload["version"] == PROTOCOL_VERSION]: Python's [2.0 == 2] holds. *)
Definition version_ok (v : json) : bool :=
  match v with
  | JInt z => z =? PROTOCOL_VERSION
  | JFloat (FFinite r) => str_eqb r (u "2.0")
  | _ => false
  end.

(** None, or a positive [int] that is not a [bool]. *)
Definition check_stream_length (v : json) : result exc (option Z) :=
  match v with
  | JNull => Ok None
  | JInt n => if 0 <? n then Ok (Some n) else Err ProtocolError
  | _ => Err ProtocolError
  end.

(** ** Requests *)

Record Request := MkRequest {
  request_id : list Z;
  operation : list Z;
  params : list (list Z * json);
  auth_token : option (list Z);
  stream_length : option Z;
}.

Definition check_auth_token (v : json) : result exc (option (list Z)) :=
  match v with
  | JNull => Ok None
  | JStr s => if _AUTH_TOKEN_RE s then Ok (Some s) else Err ProtocolError
  | _ => Err ProtocolError
  end.

Definition make_request (rid op ps token length : json) : result exc Request :=
  rid ← _check_identifier rid _ID_RE;
  op ← _check_identifier op _OPERATION_RE;
  match ps with
  | JObj kvs =>
      _validate_json_value (JObj kvs) ≫= λ _,
      token ← check_auth_token token;
      length ← check_stream_length length;
      Ok (MkRequest rid op kvs token length)
  | _ => Err ProtocolError
  end.

(** [Request.create]; [uuid] is [uuid.uuid4().hex]. *)
Definition create_request (uuid op : list Z) (ps : list (list Z * json))
    (token rid : option (list Z)) (length : option Z) : result exc Request :=
  make_request (JStr (match rid with Some ((_ :: _) as r) => r | _ => uuid end)) (JStr op)
    (JObj ps) (match token with Some t => JStr t | None => JNull end)
    (match length with Some n => JInt n | None => JNull end).

Definition request_from_payload (payload : list (list Z * json)) : result exc Request :=
  _check_keys payload
    [u "version"; u "id"; u "operation"; u "params"; u "auth_token"; u "stream_length"]
    [u "version"; u "id"; u "operation"; u "params"] ≫= λ _,
  if negb (version_ok (field (u "version") payload)) then Err ProtocolError
  else match field (u "params") payload with
  | JObj kvs => make_request (field (u "id") payload) (field (u "operation") payload) (JObj kvs)
                  (field (u "auth_token") payload) (field (u "stream_length") payload)
  | _ => Err ProtocolError
  end.

Definition opt_field {A} (k : list Z) (f : A → json) (v : option A) : list (list Z * json) :=
  match v with Some x => [(k, f x)] | None => [] end.

Definition request_to_payload (r : Request) : list (list Z * json) :=
  [(u "version", JInt PROTOCOL_VERSION); (u "id", JStr (request_id r));
   (u "operation", JStr (operation r)); (u "params", JObj (params r))]
  ++ opt_field (u "auth_token") JStr (auth_token r)
  ++ opt_field (u "stream_length") JInt (stream_length r).

(** ** Responses *)

Record ErrorPayload := MkErrorPayload { code : list Z; message : list Z }.

Definition message_ok (s : list Z) : bool :=
  negb (bool_decide (s = [])) && (zlen s <=? 512)
  && negb (existsb (λ c, (c =? 13) || (c =? 10) || (c =? 0)) s).

Definition make_error (c m : json) : result exc ErrorPayload :=
  c ← _check_identifier c _ERROR_CODE_RE;
  match m with
  | JStr s => if message_ok s then Ok (MkErrorPayload c s) else Err ProtocolError
  | _ => Err ProtocolError
  end.

Definition error_to_payload (e : ErrorPayload) : list (list Z * json) :=
  [(u "code", JStr (code e)); (u "message", JStr (message e))].

Record Response := MkResponse {
  response_id : list Z;
  ok : bool;
  result_ : json;
  error : option ErrorPayload;
  response_length : option Z;
}.

(** [self.result == {"stream": True}]: Python's [True], [1] and [1.0] are equal. *)
Definition equals_true (v : json) : bool :=
  match v with
  | JBool b => b
  | JInt z => z =? 1
  | JFloat (FFinite r) => str_eqb r (u "1.0")
  | _ => false
  end.

Definition stream_marker (result : json) : bool :=
  match result with
  | JObj [(k, v)] => str_eqb k (u "stream") && equals_true v
  | _ => false
  end.

Definition has_value {A} (o : option A) : bool := match o with Some _ => true | None => false end.

Definition make_response (rid : json) (ok : bool) (res : json) (error : option ErrorPayload)
    (length : json) : result exc Response :=
  rid ← _check_identifier rid _ID_RE;
  if ok && has_value error then Err ProtocolError
  else if negb ok && negb (has_value error) then Err ProtocolError
  else
    length ← check_stream_length length;
    if has_value length && negb ok then Err ProtocolError
    else if ok && negb (Bool.eqb (has_value length) (stream_marker res)) then Err ProtocolError
    else _validate_json_value res ≫= λ _, Ok (MkResponse rid ok res error length).

Definition success (rid res length : json) : result exc Response :=
  make_response rid true res None length.

Definition failure (rid code message : json) : result exc Response :=
  error ← make_error code message; make_response rid false JNull (Some error) JNull.

Definition response_from_payload (payload : list (list Z * json)) : result exc Response :=
  _check_keys payload
    [u "version"; u "id"; u "ok"; u "result"; u "error"; u "stream_length"]
    [u "version"; u "id"; u "ok"] ≫= λ _,
  if negb (version_ok (field (u "version") payload)) then Err ProtocolError
  else match field (u "ok") payload with
  | JBool true =>
      if has_value (obj_get (u "error") payload) then Err ProtocolError
      else success (field (u "id") payload) (field (u "result") payload)
             (field (u "stream_length") payload)
  | JBool false =>
      if has_value (obj_get (u "result") payload) then Err ProtocolError
      else if has_value (obj_get (u "stream_length") payload) then Err ProtocolError
      else match field (u "error") payload with
      | JObj raw_error =>
          _check_keys raw_error [u "code"; u "message"] [u "code"; u "message"] ≫= λ _,
          failure (field (u "id") payload) (field (u "code") raw_error)
            (field (u "message") raw_error)
      | _ => Err ProtocolError
      end
  | _ => Err ProtocolError
  end.

Definition response_to_payload (r : Response) : result exc (list (list Z * json)) :=
  let payload := [(u "version", JInt PROTOCOL_VERSION); (u "id", JStr (response_id r));
                  (u "ok", JBool (ok r))] in
  if ok r then
    Ok (payload ++ [(u "result", result_ r)]
        ++ opt_field (u "stream_length") JInt (response_length r))
  else match error r with
       | None => Err ValueError
       | Some e => Ok (payload ++ [(u "error", JObj (error_to_payload e))])
       end.

(** ** The client

    One request on a fresh connection: the state is that connection.  Opening
    the socket, its timeout and its closing are not part of it. *)

Section Client.
Context (py_float : list Z → pyfloat) (max_frame_bytes : Z).

Definition receive_response : IO Response :=
  payload ← receive_frame py_float max_frame_bytes; lift (response_from_payload payload).

Definition require_id (request : Request) (response : Response) : IO unit :=
  if str_eqb (response_id response) (request_id request) then mret tt else throw ProtocolError.

Definition call (request : Request) : IO Response :=
  if has_value (stream_length request) then throw ProtocolError
  else
    send_frame (JObj (request_to_payload request)) max_frame_bytes ≫= λ _,
    response ← receive_response;
    require_id request response ≫= λ _,
    if has_value (response_length response) then throw ProtocolError else mret response.

Definition call_with_stream (request : Request) : IO Response :=
  if negb (has_value (stream_length request)) then throw ProtocolError
  else
    send_stream_frame (request_to_payload request) max_frame_bytes DEFAULT_MAX_STREAM_BYTES true
      ≫= λ _,
    response ← receive_response;
    require_id request response ≫= λ _,
    if has_value (response_length response) then throw ProtocolError else mret response.

Definition call_to_stream (request : Request) : IO Response :=
  if has_value (stream_length request) then throw ProtocolError
  else
    send_frame (JObj (request_to_payload request)) max_frame_bytes ≫= λ _,
    response ← receive_response;
    require_id request response ≫= λ _,
    if ok response then
      match response_length response with
      | None => throw ProtocolError
      | Some n => receive_stream_payload n DEFAULT_MAX_STREAM_BYTES true ≫= λ _, mret response
      end
    else mret response.
End Client.
