(* ===== verification/ProtocolSpecs.v ===== *)
(** * Frames and streams: theorems

    However the transport cuts the bytes, a frame that was encoded is received
    as the message that was sent and the bytes that follow stay in the stream;
    a binary stream arrives whole or is reported truncated. *)

From S2P Require Import Prelude Text Errors Json JsonRound RuleDocSpecs Totp Protocol.

#[local] Set Default Proof Using "Type*".

(** ** Pieces of a byte stream *)

(** [pieces ev bs]: the transport will deliver exactly [bs] and then close. *)
Inductive pieces : list event → list Z → Prop :=
| pieces_nil : pieces [] []
| pieces_cons b ev bs : b ≠ [] → pieces ev bs → pieces (Chunk b :: ev) (b ++ bs).

Lemma pieces_nil_inv ev : pieces ev [] → ev = [].
Proof.
  intros Hp. remember [] as bs eqn:E. destruct Hp as [|b ev bs Hb Hp]; [done|]. by destruct b.
Qed.

Lemma set_incoming_twice e e' c : set_incoming e (set_incoming e' c) = set_incoming e c.
Proof. done. Qed.
Lemma incoming_set e c : incoming (set_incoming e c) = e.
Proof. done. Qed.

Lemma app_prefix {A} (b bs' a rest : list A) :
  a ++ rest = b ++ bs' → (length b ≤ length a)%nat → ∃ a', a = b ++ a' ∧ bs' = a' ++ rest.
Proof.
  intros Heq Hl. apply app_eq_app in Heq as (k & [[-> ->]|[-> ->]]); [by exists k|].
  rewrite length_app in Hl. destruct k; [|simpl in Hl; lia]. exists []. by rewrite !app_nil_r.
Qed.

Lemma recv_pieces n c bs :
  0 < n → bs ≠ [] → pieces (incoming c) bs →
  ∃ b bs' ev', recv n c = (Ok b, set_incoming ev' c) ∧ b ≠ [] ∧ bs = b ++ bs' ∧ zlen b ≤ n ∧
    pieces ev' bs'.
Proof.
  intros Hn Hbs Hp. unfold recv. destruct Hp as [|b ev bs Hb Hp]; [done|].
  destruct (Z.leb_spec (zlen b) n) as [Hle|Hgt]; [by exists b, bs, ev|].
  exists (take (Z.to_nat n) b), (drop (Z.to_nat n) b ++ bs), (Chunk (drop (Z.to_nat n) b) :: ev).
  unfold zlen in *. split_and!.
  - done.
  - destruct b; [done|]. destruct (Z.to_nat n) eqn:E; [lia|done].
  - by rewrite app_assoc, take_drop.
  - rewrite length_take. lia.
  - constructor; [|done]. intros Hd. apply (f_equal length) in Hd. rewrite length_drop in Hd.
    simpl in Hd. lia.
Qed.

Lemma recv_loop_pieces fuel size chunks a rest c :
  (Z.to_nat (size - zlen chunks) < fuel)%nat → zlen chunks + zlen a = size →
  pieces (incoming c) (a ++ rest) →
  ∃ ev', recv_loop fuel size chunks c = (Ok (chunks ++ a), set_incoming ev' c) ∧ pieces ev' rest.
Proof.
  revert chunks a c. induction fuel as [|fuel IH]; intros chunks a c Hf Hlen Hp; [lia|].
  cbn [recv_loop]. pose proof (zlen_nonneg a). destruct a as [|x a].
  - replace (zlen chunks <? size) with false by (unfold zlen in *; simpl in *; lia).
    exists (incoming c). rewrite app_nil_r. split; [by destruct c|done].
  - replace (zlen chunks <? size) with true by (unfold zlen in *; simpl in *; lia).
    rewrite zlen_cons in Hlen. pose proof (zlen_nonneg a).
    destruct (recv_pieces (size - zlen chunks) c ((x :: a) ++ rest)) as
      (b & bs' & ev' & Hr & Hb & Hbs & Hbl & Hp'); [lia|done|done|].
    unfold mbind, eff_mbind, eff_bind at 1. rewrite Hr. destruct b as [|y b]; [done|].
    assert (Ha : ∃ a', x :: a = (y :: b) ++ a' ∧ bs' = a' ++ rest).
    { apply app_eq_app in Hbs as (k & [[Hk1 Hk2]|[Hk1 Hk2]]); [by exists k|].
      exists []. rewrite app_nil_r. assert (length k = 0)%nat as ?%nil_length_inv; [|by subst; rewrite app_nil_r in *].
      apply (f_equal length) in Hk1. rewrite length_app in Hk1. unfold zlen in *. simpl in *. lia. }
    destruct Ha as (a' & Ha & ->). rewrite Ha.
    assert (zlen (y :: b) + zlen a' = size - zlen chunks).
    { rewrite <-zlen_app, <-Ha, zlen_cons. lia. }
    destruct (IH (chunks ++ y :: b) a' (set_incoming ev' c)) as (ev'' & Hrec & Hp'').
    + rewrite zlen_app. rewrite zlen_cons in *. pose proof (zlen_nonneg b). lia.
    + rewrite zlen_app. lia.
    + done.
    + exists ev''. rewrite Hrec, set_incoming_twice, <-app_assoc. done.
Qed.

Lemma recv_exact_pieces size a rest c :
  zlen a = size → pieces (incoming c) (a ++ rest) →
  ∃ ev', _recv_exact size c = (Ok a, set_incoming ev' c) ∧ pieces ev' rest.
Proof.
  intros Ha Hp. unfold _recv_exact. apply (recv_loop_pieces _ _ []); [unfold zlen; simpl; lia|done|done].
Qed.

(** ** Decoding what was encoded *)

Lemma obj_set_fresh k v kvs : k ∉ kvs.*1 → obj_set k v kvs = kvs ++ [(k, v)].
Proof.
  induction kvs as [|[k' v'] kvs IH]; [done|]. csimpl. intros [Hk Hn]%not_elem_of_cons.
  destruct (str_eqb k' k) eqn:E; [apply str_eqb_true in E; by subst|]. by rewrite IH.
Qed.

(** Building a dict from pairs with distinct keys keeps them as they are. *)
Lemma dict_of_pairs_app acc pairs : NoDup (acc ++ pairs).*1 →
  foldl (λ d kv, obj_set kv.1 kv.2 d) acc pairs = acc ++ pairs.
Proof.
  revert acc. induction pairs as [|[k v] pairs IH]; intros acc Hnd; simpl; [by rewrite app_nil_r|].
  rewrite obj_set_fresh.
  - rewrite (cons_middle _ acc), app_assoc in Hnd. simpl. rewrite IH by done.
    by rewrite <-app_assoc.
  - rewrite fmap_app in Hnd. apply NoDup_app in Hnd as (_ & Hd & _). intros Hk.
    apply (Hd k Hk). left.
Qed.

Lemma dict_of_pairs_nodup pairs : NoDup pairs.*1 → dict_of_pairs pairs = pairs.
Proof. apply (dict_of_pairs_app []). Qed.

Lemma forallb_perm {A} (p : A → bool) l k : l ≡ₚ k → forallb p l = forallb p k.
Proof. induction 1; simpl; [done|congruence| |congruence]. by rewrite !andb_assoc, (andb_comm (p y)). Qed.

Lemma forallb_ext_in {A} (p q : A → bool) l : Forall (λ x, p x = q x) l → forallb p l = forallb q l.
Proof. induction 1 as [|x l Hx Hl IH]; [done|]. simpl. by rewrite Hx, IH. Qed.

Lemma forallb_fmap {A B} (f : A → B) p l : forallb p (f <$> l) = forallb (p ∘ f) l.
Proof. induction l as [|x l IH]; [done|]. csimpl. by rewrite IH. Qed.

(** Printing order does not change whether a value is a valid message. *)
Lemma valid_json_canon j : ∀ depth, valid_json depth (canon true j) = valid_json depth j.
Proof.
  induction j as [| c | z | f | t | l IH | kvs IH] using json_ind'; intros depth; try done.
  - simpl. rewrite forallb_fmap. case_match; [done|]. apply forallb_ext_in.
    eapply Forall_impl; [exact IH|]. intros j Hj. apply Hj.
  - change (canon true (JObj kvs)) with (JObj (canon_items kvs)). cbn [valid_json].
    case_match; [done|]. unfold canon_items, sort_items.
    rewrite (forallb_perm _ _ _ (merge_sort_Permutation _ _)), forallb_fmap. apply forallb_ext_in.
    eapply Forall_impl; [exact IH|]. intros [k j] Hj. apply Hj.
Qed.

Section Frames.
Context (py_float : list Z → pyfloat).
Notation plain := (plain py_float).
Notation receive_frame := (receive_frame py_float).
Notation read_frame := (read_frame py_float).

Lemma fits_64_spec z : fits_64 z = true ↔ Z.abs z < 2 ^ 64.
Proof. unfold fits_64. lia. Qed.

Lemma protocol_hooks_read : reads_plain py_float (protocol_hooks py_float).
Proof.
  split.
  - intros z Hz. simpl. unfold _bounded_int. rewrite default_int_small by done.
    pose proof (digits_bound (Z.abs z) ltac:(lia)) as Hd.
    assert (zlen match str_of_int z with 45 :: ds => ds | _ => str_of_int z end ≤ 20) as Hlen.
    { unfold str_of_int. destruct (Z.ltb_spec z 0).
      - by replace (- z) with (Z.abs z) by lia.
      - rewrite Z.abs_eq in Hd by lia. destruct (digits z) as [|c r]; [done|].
        rewrite zlen_cons in Hd. pose proof (zlen_nonneg r).
        repeat case_match; rewrite ?zlen_cons; lia. }
    unfold _MAX_JSON_INTEGER_DIGITS. replace (20 <? _) with false by lia.
    by replace (fits_64 z) with true by (symmetry; by apply fits_64_spec).
  - intros r Hr Hf. simpl. unfold _bounded_float, _MAX_JSON_FLOAT_CHARACTERS.
    replace (128 <? zlen r) with false by lia. by rewrite Hf.
Qed.

Lemma encode_frame_inv kvs max_bytes frame :
  encode_frame (JObj kvs) max_bytes = Ok frame →
  valid_json 0 (JObj kvs) = true ∧ ∃ text body, dumps true (JObj kvs) = Some text ∧
    utf8_encode text = Some body ∧ body ≠ [] ∧ zlen body ≤ max_bytes ∧ zlen body < 2 ^ 32 ∧
    frame = be_split 4 (zlen body) ++ body.
Proof.
  unfold encode_frame. case_match; [done|]. intros ([] & Hv & H')%result_bind_ok.
  unfold _validate_json_value in Hv. destruct (valid_json _ _); [|done]. split; [done|].
  destruct (dumps true (JObj kvs)) as [text|] eqn:Ht; [|done].
  destruct (utf8_encode text) as [body|] eqn:Hb; [|done].
  case_bool_decide; [done|]. destruct (Z.ltb_spec max_bytes (zlen body)); [done|].
  unfold pack_header in H'. destruct (_ && _) eqn:Hl; [|done]. simpl in H'. injection H' as <-.
  exists text, body. split_and!; try done; lia.
Qed.

Lemma decode_encoded kvs text body max_bytes :
  plain (JObj kvs) → valid_json 0 (JObj kvs) = true → dumps true (JObj kvs) = Some text →
  utf8_encode text = Some body → body ≠ [] → zlen body ≤ max_bytes →
  decode_payload py_float body max_bytes = Ok (canon_items kvs).
Proof.
  intros Hp Hv Ht Hb Hne Hl. unfold decode_payload. rewrite bool_decide_false by done.
  replace (max_bytes <? zlen body) with false by lia. rewrite (utf8_roundtrip _ _ Hb).
  assert (Hpairs : ∀ pairs, NoDup pairs.*1 →
    object_pairs_hook (protocol_hooks py_float) pairs = Some (JObj pairs)).
  { intros pairs Hnd. simpl. by rewrite dict_of_pairs_nodup. }
  rewrite (loads_dumps (protocol_hooks py_float) true Hpairs (JObj kvs) text);
    [|by apply (plain_readable py_float), Hp; apply protocol_hooks_read|done].
  change (canon true (JObj kvs)) with (JObj (canon_items kvs)). cbv iota.
  change (JObj (canon_items kvs)) with (canon true (JObj kvs)).
  by rewrite valid_json_canon, Hv.
Qed.

Lemma receive_encoded kvs max_bytes frame rest c :
  plain (JObj kvs) → encode_frame (JObj kvs) max_bytes = Ok frame →
  pieces (incoming c) (frame ++ rest) →
  ∃ ev, receive_frame max_bytes c = (Ok (canon_items kvs), set_incoming ev c) ∧ pieces ev rest.
Proof.
  intros Hp He Hpc. apply encode_frame_inv in He as (Hv & text & body & Ht & Hb & Hne & Hl & Hl32 & ->).
  rewrite <-app_assoc in Hpc. unfold Protocol.receive_frame.
  assert (Hh : zlen (be_split 4 (zlen body)) = HEADER_SIZE)
    by (unfold zlen at 1; by rewrite length_be_split).
  destruct (recv_exact_pieces _ _ _ c Hh Hpc) as (ev1 & Hr1 & Hp1).
  unfold mbind at 1, eff_mbind, eff_bind. rewrite Hr1.
  rewrite be_combine_split by (split; [apply zlen_nonneg|exact Hl32]).
  replace (zlen body =? 0) with false
    by (destruct body; [done|]; rewrite zlen_cons; pose proof (zlen_nonneg body); lia).
  replace (max_bytes <? zlen body) with false by lia.
  destruct (recv_exact_pieces (zlen body) body rest (set_incoming ev1 c) eq_refl Hp1)
    as (ev2 & Hr2 & Hp2).
  unfold mbind, eff_mbind, eff_bind. rewrite Hr2. exists ev2. split; [|done].
  unfold lift. by rewrite (decode_encoded kvs text body).
Qed.

Lemma recv_loop_cut fuel size chunks a c :
  (length a < fuel)%nat → zlen chunks + zlen a < size → pieces (incoming c) a →
  (recv_loop fuel size chunks c).1 = Err ConnectionClosed.
Proof.
  revert chunks a c. induction fuel as [|fuel IH]; intros chunks a c Hf Hlen Hp; [lia|].
  pose proof (zlen_nonneg a). cbn [recv_loop]. replace (zlen chunks <? size) with true by lia.
  destruct a as [|x a].
  - unfold mbind, eff_mbind, eff_bind, recv. by rewrite (pieces_nil_inv _ Hp).
  - destruct (recv_pieces (size - zlen chunks) c (x :: a)) as (b & bs' & ev' & Hr & Hb & Hbs & _ & Hp');
      [lia|done|done|].
    unfold mbind, eff_mbind, eff_bind. rewrite Hr. destruct b as [|y b]; [done|].
    rewrite Hbs in Hf, Hlen. rewrite length_app in Hf. rewrite zlen_app in Hlen.
    apply (IH _ bs'); [simpl in Hf; lia|rewrite zlen_app; lia|done].
Qed.

(** A frame of which only a proper prefix arrives. *)
Lemma receive_cut kvs max_bytes part rest c :
  encode_frame (JObj kvs) max_bytes = Ok (part ++ rest) → rest ≠ [] → pieces (incoming c) part →
  (receive_frame max_bytes c).1 = Err ConnectionClosed.
Proof.
  intros He Hne Hpc.
  apply encode_frame_inv in He as (_ & text & body & _ & _ & _ & Hl & Hl32 & Heq).
  set (header := be_split 4 (zlen body)) in Heq.
  assert (Hh : length header = 4%nat) by apply length_be_split.
  unfold Protocol.receive_frame, _recv_exact. destruct (decide (length part < 4)%nat) as [Hs|Hs].
  - unfold mbind, eff_mbind, eff_bind.
    assert ((recv_loop (S (Z.to_nat HEADER_SIZE)) HEADER_SIZE [] c).1 = Err ConnectionClosed) as Hr.
    { apply (recv_loop_cut _ _ _ part); [|unfold zlen, HEADER_SIZE; simpl; lia|done].
      unfold HEADER_SIZE. lia. }
    destruct (recv_loop _ _ _ c) as [r c']. simpl in Hr. by subst r.
  - destruct (app_prefix header body part rest Heq) as (a' & -> & ->); [lia|].
    destruct (recv_exact_pieces HEADER_SIZE header a' c) as (ev1 & Hr1 & Hp1);
      [unfold zlen; by rewrite Hh|done|].
    unfold _recv_exact in Hr1. unfold mbind at 1, eff_mbind, eff_bind. rewrite Hr1.
    subst header. rewrite be_combine_split by (split; [apply zlen_nonneg|exact Hl32]).
    rewrite zlen_app in *. pose proof (zlen_nonneg a').
    assert (0 < zlen rest) by (destruct rest; [done|]; rewrite zlen_cons; pose proof (zlen_nonneg rest); lia).
    replace (_ =? 0) with false by lia. replace (max_bytes <? _) with false by lia.
    unfold mbind, eff_mbind, eff_bind.
    assert ((recv_loop (S (Z.to_nat (zlen a' + zlen rest))) (zlen a' + zlen rest) []
      (set_incoming ev1 c)).1 = Err ConnectionClosed) as Hr.
    { apply (recv_loop_cut _ _ _ a'); [unfold zlen in *; lia|unfold zlen in *; simpl; lia|done]. }
    destruct (recv_loop _ _ _ (set_incoming ev1 c)) as [r c']. simpl in Hr. by subst r.
Qed.

(** *** Frames in a file object *)

Definition with_source (l : list read_result) (c : conn) : conn :=
  Conn (incoming c) (sent c) (writable c) l (sink c).

(** Reads that return bytes, in pieces as they like. *)
Lemma read_loop_pieces fuel size chunks bs rest c :
  Forall (λ b, b ≠ []) bs → (length (mjoin bs) < fuel)%nat → zlen chunks + zlen (mjoin bs) = size →
  source c = (ReadBytes <$> bs) ++ rest →
  read_exact_loop fuel size chunks c = (Ok (chunks ++ mjoin bs), with_source rest c).
Proof.
  intros Hne. revert fuel chunks c. induction Hne as [|b bs Hb Hne IH]; intros fuel chunks c Hf Hl Hs.
  - destruct fuel; [simpl in Hf; lia|]. cbn [read_exact_loop].
    replace (zlen chunks <? size) with false by (unfold zlen in *; cbn in *; lia).
    rewrite app_nil_r. destruct c; simpl in *. by subst.
  - destruct fuel; [simpl in Hf; lia|]. cbn [read_exact_loop]. change (mjoin (b :: bs)) with (b ++ mjoin bs) in *.
    rewrite length_app in Hf. rewrite zlen_app in Hl.
    pose proof (zlen_nonneg (mjoin bs)). destruct b as [|x b]; [done|]. rewrite zlen_cons in Hl.
    pose proof (zlen_nonneg b). replace (zlen chunks <? size) with true by lia.
    unfold mbind, eff_mbind, eff_bind, source_read. rewrite Hs. cbn [fmap list_fmap app].
    simpl in Hf.
    rewrite IH; [by rewrite <-app_assoc|lia|rewrite zlen_app, zlen_cons; lia|done].
Qed.

Lemma read_stream_pieces size bs rest c :
  Forall (λ b, b ≠ []) bs → zlen (mjoin bs) = size → source c = (ReadBytes <$> bs) ++ rest →
  _read_exact_stream size c = (Ok (mjoin bs), with_source rest c).
Proof.
  intros Hne Hl Hs. unfold _read_exact_stream.
  rewrite (read_loop_pieces _ _ [] bs rest); [done|done|unfold zlen in Hl; lia|done|done].
Qed.

Lemma read_encoded kvs max_bytes frame hs bs rest c :
  plain (JObj kvs) → encode_frame (JObj kvs) max_bytes = Ok frame →
  Forall (λ b, b ≠ []) (hs ++ bs) → mjoin hs = take 4 frame → mjoin bs = drop 4 frame →
  source c = (ReadBytes <$> hs ++ bs) ++ rest →
  read_frame max_bytes c = (Ok (canon_items kvs), with_source rest c).
Proof.
  intros Hp He [Hh Hb]%Forall_app Hhs Hbs Hc.
  apply encode_frame_inv in He as (Hv & text & body & Ht & Hu & Hne & Hl & Hl32 & ->).
  assert (H4 : length (be_split 4 (zlen body)) = 4%nat) by apply length_be_split.
  rewrite take_app_length' in Hhs by done. rewrite drop_app_length' in Hbs by done.
  rewrite fmap_app, <-app_assoc in Hc. unfold Protocol.read_frame.
  unfold mbind at 1, eff_mbind, eff_bind.
  rewrite (read_stream_pieces HEADER_SIZE hs ((ReadBytes <$> bs) ++ rest) c);
    [|done|unfold zlen; by rewrite Hhs, H4|done].
  rewrite Hhs. replace (zlen (be_split 4 (zlen body)) =? HEADER_SIZE) with true
    by (unfold zlen at 1; by rewrite H4).
  unfold mbind at 1, eff_mbind, eff_bind. cbn [mret eff_ret].
  rewrite be_combine_split by (split; [apply zlen_nonneg|exact Hl32]).
  replace (zlen body =? 0) with false
    by (destruct body; [done|]; rewrite zlen_cons; pose proof (zlen_nonneg body); lia).
  replace (max_bytes <? zlen body) with false by lia.
  unfold mbind, eff_mbind, eff_bind.
  rewrite (read_stream_pieces (zlen body) bs rest); [|done|by rewrite Hbs|done].
  rewrite Hbs. unfold lift. by rewrite (decode_encoded kvs text body).
Qed.

(** C26: a message that is encoded and sent is received as the same
    message (its keys in sorted order), however the transport cuts the bytes,
    and what follows the frame stays unread; a frame cut short is reported as a
    closed connection.  Written to a file, it is read back from it. *)
Theorem frame_roundtrip kvs max_bytes frame c :
  plain (JObj kvs) → encode_frame (JObj kvs) max_bytes = Ok frame →
  (∀ rest, pieces (incoming c) (frame ++ rest) →
   ∃ ev, receive_frame max_bytes c = (Ok (canon_items kvs), set_incoming ev c) ∧ pieces ev rest) ∧
  (∀ part rest, frame = part ++ rest → rest ≠ [] → pieces (incoming c) part →
   (receive_frame max_bytes c).1 = Err ConnectionClosed) ∧
  write_frame (JObj kvs) max_bytes c
    = (Ok tt, Conn (incoming c) (sent c) (writable c) (source c) (sink c ++ frame)) ∧
  (∀ hs bs rest, Forall (λ b, b ≠ []) (hs ++ bs) → mjoin hs = take 4 frame →
   mjoin bs = drop 4 frame → source c = (ReadBytes <$> hs ++ bs) ++ rest →
   read_frame max_bytes c = (Ok (canon_items kvs), with_source rest c)).
Proof.
  intros Hp He. split_and!.
  - intros rest Hpc. by apply (receive_encoded kvs _ frame).
  - intros part rest -> Hne Hpc. by apply (receive_cut kvs _ part rest).
  - unfold Protocol.write_frame. unfold mbind, eff_mbind, eff_bind, lift. by rewrite He.
  - intros hs bs rest Hne Hh Hb Hc. by apply (read_encoded kvs _ frame hs bs).
Qed.
End Frames.

(** ** Binary streams *)

Definition with_sink (ev : list event) (s : list Z) (c : conn) : conn :=
  Conn ev (sent c) (writable c) (source c) s.

Lemma recv_or_pieces n wrapped c bs :
  0 < n → bs ≠ [] → pieces (incoming c) bs →
  ∃ b bs' ev', recv_or n wrapped c = (Ok b, set_incoming ev' c) ∧ b ≠ [] ∧ bs = b ++ bs' ∧
    zlen b ≤ n ∧ pieces ev' bs'.
Proof.
  intros Hn Hbs Hp. destruct (recv_pieces n c bs Hn Hbs Hp) as (b & bs' & ev' & Hr & ?).
  exists b, bs', ev'. split; [|done]. unfold recv_or, mbind, eff_mbind, eff_bind, attempt.
  by rewrite Hr.
Qed.

Lemma recv_or_eof n wrapped c : incoming c = [] → recv_or n wrapped c = (Ok [], c).
Proof.
  intros Hi. unfold recv_or, mbind, eff_mbind, eff_bind, attempt, recv. by rewrite Hi.
Qed.

Lemma receive_loop_pieces fuel a rest c :
  (length a < fuel)%nat → pieces (incoming c) (a ++ rest) →
  ∃ ev, receive_loop fuel (zlen a) c = (Ok tt, with_sink ev (sink c ++ a) c) ∧ pieces ev rest.
Proof.
  revert a c. induction fuel as [|fuel IH]; intros a c Hf Hp; [lia|]. cbn [receive_loop].
  destruct a as [|x a].
  { exists (incoming c). unfold with_sink. rewrite app_nil_r. split; [by destruct c|done]. }
  assert (Hpos : 0 < zlen (x :: a)) by (rewrite zlen_cons; pose proof (zlen_nonneg a); lia).
  replace (zlen (x :: a) =? 0) with false by lia.
  destruct (recv_or_pieces (Z.min STREAM_CHUNK_BYTES (zlen (x :: a))) StreamTruncated c
    ((x :: a) ++ rest)) as (b & bs' & ev' & Hr & Hb & Hbs & Hbl & Hp');
    [unfold STREAM_CHUNK_BYTES; lia|done|done|].
  unfold mbind at 1, eff_mbind, eff_bind. rewrite Hr. destruct b as [|y b]; [done|].
  destruct (app_prefix _ _ _ _ Hbs) as (a' & Ha & ->); [unfold zlen in Hbl; lia|]. rewrite Ha.
  destruct (IH a' (with_sink ev' (sink c ++ y :: b) c)) as (ev & Hrec & Hp''); [|done|].
  { apply (f_equal length) in Ha. rewrite length_app in Ha. simpl in *. lia. }
  exists ev. split; [|done]. unfold mbind, eff_mbind, eff_bind. cbn [sink_write set_incoming].
  rewrite zlen_app. replace (zlen (y :: b) + zlen a' - zlen (y :: b)) with (zlen a') by lia.
  unfold with_sink in Hrec. cbn [sent writable source sink] in Hrec. unfold sink_write.
  cbn [incoming sent writable source sink set_incoming]. rewrite Hrec. unfold with_sink.
  by rewrite <-app_assoc.
Qed.

Lemma receive_loop_truncated fuel n a c :
  (length a < fuel)%nat → zlen a < n → pieces (incoming c) a →
  (receive_loop fuel n c).1 = Err StreamTruncated.
Proof.
  revert n a c. induction fuel as [|fuel IH]; intros n a c Hf Hn Hp; [lia|].
  pose proof (zlen_nonneg a). cbn [receive_loop]. replace (n =? 0) with false by lia.
  destruct a as [|x a].
  - unfold mbind, eff_mbind, eff_bind. by rewrite (recv_or_eof _ _ c (pieces_nil_inv _ Hp)).
  - destruct (recv_or_pieces (Z.min STREAM_CHUNK_BYTES n) StreamTruncated c (x :: a))
      as (b & bs' & ev' & Hr & Hb & Hbs & Hbl & Hp');
      [unfold STREAM_CHUNK_BYTES; lia|done|done|].
    unfold mbind at 1, eff_mbind, eff_bind. rewrite Hr. destruct b as [|y b]; [done|].
    rewrite Hbs, zlen_app in Hn. unfold mbind, eff_mbind, eff_bind, sink_write.
    apply (IH _ bs'); [|lia|done].
    rewrite Hbs, length_app in Hf. simpl in Hf. lia.
Qed.

Lemma receive_payload_spec a n max_stream c :
  zlen a = n → 0 < n ≤ max_stream →
  (pieces (incoming c) a → ∃ ev,
     receive_stream_payload n max_stream true c = (Ok n, with_sink ev (sink c ++ a) c)) ∧
  (∀ x rest, pieces (incoming c) (a ++ x :: rest) →
     (receive_stream_payload n max_stream true c).1 = Err StreamError) ∧
  (∀ part, zlen part < n → pieces (incoming c) part →
     (receive_stream_payload n max_stream true c).1 = Err StreamTruncated).
Proof.
  intros <- [Hpos Hmax]. unfold receive_stream_payload.
  replace (zlen a <=? 0) with false by lia. replace (max_stream <? zlen a) with false by lia.
  assert (Hfuel : (length a < S (Z.to_nat (zlen a)))%nat) by (unfold zlen; lia).
  split_and!.
  - intros Hp. rewrite <-(app_nil_r a) in Hp.
    destruct (receive_loop_pieces _ a [] c Hfuel Hp) as (ev & Hr & He).
    exists ev. unfold mbind at 1, eff_mbind, eff_bind. rewrite Hr.
    unfold mbind, eff_mbind, eff_bind. by rewrite recv_or_eof by (by apply pieces_nil_inv).
  - intros x rest Hp. destruct (receive_loop_pieces _ a (x :: rest) c Hfuel Hp) as (ev & Hr & He).
    unfold mbind at 1, eff_mbind, eff_bind. rewrite Hr. unfold mbind, eff_mbind, eff_bind.
    destruct (recv_or_pieces 1 StreamError (with_sink ev (sink c ++ a) c) (x :: rest))
      as (b & bs' & ev' & Hr' & Hb & _); [lia|done|done|].
    rewrite Hr'. by destruct b.
  - intros part Hl Hp. unfold mbind at 1, eff_mbind, eff_bind.
    assert ((receive_loop (S (Z.to_nat (zlen a))) (zlen a) c).1 = Err StreamTruncated) as He.
    { apply (receive_loop_truncated _ _ part); [unfold zlen in *; lia|done|done]. }
    destruct (receive_loop _ _ c) as [r c']. simpl in He. by subst r.
Qed.

(** A source whose reads return its bytes in pieces of at most 64 KiB. *)
Definition file_reads (bs : list (list Z)) (c : conn) : Prop :=
  source c = ReadBytes <$> bs ∧ Forall (λ b, 0 < zlen b ≤ STREAM_CHUNK_BYTES) bs.

Lemma send_loop_file fuel bs c :
  (length (mjoin bs) < fuel)%nat → file_reads bs c → writable c = true →
  send_loop fuel (zlen (mjoin bs)) c =
    (Ok tt, Conn (incoming c) (sent c ++ mjoin bs) (writable c) [] (sink c)).
Proof.
  revert bs c. induction fuel as [|fuel IH]; intros bs c Hf [Hs Hb] Hw; [lia|].
  cbn [send_loop]. destruct bs as [|b bs].
  { simpl. rewrite app_nil_r. destruct c. simpl in *. by subst. }
  apply Forall_cons in Hb as [[Hpos Hle] Hb]. change (mjoin (b :: bs)) with (b ++ mjoin bs) in *. rewrite zlen_app.
  pose proof (zlen_nonneg (mjoin bs)). replace (_ =? 0) with false by lia.
  unfold mbind at 1, eff_mbind, eff_bind, source_read. rewrite Hs. cbn [fmap list_fmap].
  destruct b as [|x b]; [unfold zlen in Hpos; simpl in Hpos; lia|].
  replace (Z.min STREAM_CHUNK_BYTES (zlen (x :: b) + zlen (mjoin bs)) <? zlen (x :: b))
    with false by lia.
  unfold mbind, eff_mbind, eff_bind, sendall. cbn [writable]. rewrite Hw.
  replace (zlen (x :: b) + zlen (mjoin bs) - zlen (x :: b)) with (zlen (mjoin bs)) by lia.
  rewrite IH; [cbn [incoming sent sink writable]; by rewrite <-app_assoc| |by split|done].
  rewrite length_app in Hf. simpl in Hf. lia.
Qed.

(** * Requests, responses and streams: end-to-end theorems

    A request reaches the server, and the response the client, as they were
    built; a binary stream is copied exactly or its truncation is reported. *)

From S2P Require Import Prelude Text Errors Json JsonRound RuleDocSpecs Totp Protocol.

#[local] Set Default Proof Using "Type*".

(** ** Payloads *)

Lemma field_canon k kvs : NoDup kvs.*1 → field k (canon_items kvs) = canon true (field k kvs).
Proof.
  intros Hnd. unfold field. rewrite canon_items_get by done. by destruct (obj_get k kvs).
Qed.

Lemma has_value_canon k kvs : NoDup kvs.*1 →
  has_value (obj_get k (canon_items kvs)) = has_value (obj_get k kvs).
Proof. intros Hnd. rewrite canon_items_get by done. by destruct (obj_get k kvs). Qed.

Lemma check_keys_canon kvs allowed required :
  _check_keys (canon_items kvs) allowed required = _check_keys kvs allowed required.
Proof.
  unfold _check_keys. assert (Hp := canon_items_perm kvs).
  rewrite (forallb_perm _ _ _ Hp).
  assert (∀ k, bool_decide (k ∈ obj_keys (canon_items kvs)) = bool_decide (k ∈ obj_keys kvs)) as Hk
    by (intros k; apply bool_decide_ext; by rewrite Hp).
  by rewrite (forallb_ext_in _ (λ k, bool_decide (k ∈ obj_keys kvs)) required)
    by (by apply Forall_forall; intros k _).
Qed.

(** The constructor's checks, of a request that passed them. *)
Definition valid_request (r : Request) : Prop :=
  _ID_RE (request_id r) = true ∧ _OPERATION_RE (operation r) = true ∧
  valid_json 0 (JObj (params r)) = true ∧
  match auth_token r with Some t => _AUTH_TOKEN_RE t = true | None => True end ∧
  match stream_length r with Some n => 0 < n | None => True end.

Definition valid_response (r : Response) : Prop :=
  _ID_RE (response_id r) = true ∧ valid_json 0 (result_ r) = true ∧
  if ok r then
    error r = None ∧ has_value (response_length r) = stream_marker (result_ r) ∧
    match response_length r with Some n => 0 < n | None => True end
  else
    result_ r = JNull ∧ response_length r = None ∧
    ∃ e, error r = Some e ∧ _ERROR_CODE_RE (code e) = true ∧ message_ok (message e) = true.

Lemma make_request_valid rid op ps token length r :
  make_request rid op ps token length = Ok r → valid_request r.
Proof.
  unfold make_request, _check_identifier. intros (i & Hi & H)%result_bind_ok.
  apply result_bind_ok in H as (o & Ho & H). destruct ps as [| | | | | |kvs]; try done.
  apply result_bind_ok in H as ([] & Hv & H). apply result_bind_ok in H as (t & Ht & H).
  apply result_bind_ok in H as (n & Hn & H). injection H as <-.
  destruct rid; try done. destruct (_ID_RE _) eqn:Ei; [|done]. injection Hi as <-.
  destruct op; try done. destruct (_OPERATION_RE _) eqn:Eo; [|done]. injection Ho as <-.
  unfold _validate_json_value in Hv. destruct (valid_json _ _) eqn:Ev; [|done].
  split_and!; try done; simpl.
  - unfold check_auth_token in Ht. destruct token; try done; [by injection Ht as <-|].
    destruct (_AUTH_TOKEN_RE _) eqn:Et; [|done]. by injection Ht as <-.
  - unfold check_stream_length in Hn. destruct length as [| |z| | | |]; try done;
      [by injection Hn as <-|]. destruct (Z.ltb_spec 0 z); [|done]. by injection Hn as <-.
Qed.

Definition canon_request (r : Request) : Request :=
  MkRequest (request_id r) (operation r) (canon_items (params r)) (auth_token r) (stream_length r).

Lemma request_fields r :
  let p := request_to_payload r in
  field (u "version") p = JInt 2 ∧ field (u "id") p = JStr (request_id r) ∧
  field (u "operation") p = JStr (operation r) ∧ field (u "params") p = JObj (params r) ∧
  field (u "auth_token") p = match auth_token r with Some t => JStr t | None => JNull end ∧
  field (u "stream_length") p = match stream_length r with Some n => JInt n | None => JNull end ∧
  _check_keys p
    [u "version"; u "id"; u "operation"; u "params"; u "auth_token"; u "stream_length"]
    [u "version"; u "id"; u "operation"; u "params"] = Ok tt ∧ NoDup p.*1.
Proof.
  destruct r as [i o ps [t|] [n|]]; cbv zeta; split_and!; try reflexivity;
    vm_compute; repeat constructor; set_solver.
Qed.

Lemma request_roundtrip r :
  valid_request r →
  request_from_payload (canon_items (request_to_payload r)) = Ok (canon_request r).
Proof.
  intros (Hi & Ho & Hv & Ht & Hn).
  destruct (request_fields r) as (Fv & Fi & Fo & Fp & Ft & Fs & Hk & Hnd).
  unfold request_from_payload. rewrite check_keys_canon, Hk, !field_canon by done.
  rewrite Fv, Fi, Fo, Fp, Ft, Fs. cbn [mbind result_mbind result_bind].
  change (canon true (JObj (params r))) with (JObj (canon_items (params r))). cbv iota.
  change (negb (version_ok (canon true (JInt 2)))) with false. cbv iota.
  unfold make_request, _check_identifier. cbn [canon]. rewrite Hi, Ho.
  cbn [mbind result_mbind result_bind]. unfold _validate_json_value.
  change (JObj (canon_items (params r))) with (canon true (JObj (params r))).
  rewrite valid_json_canon, Hv. cbn [mbind result_mbind result_bind].
  destruct (auth_token r) as [t|] eqn:Et; cbn [canon check_auth_token];
    [rewrite Ht|]; cbn [mbind result_mbind result_bind];
    (destruct (stream_length r) as [n|] eqn:En; cbn [canon check_stream_length];
     [replace (0 <? n) with true by lia|]); unfold canon_request; by rewrite ?Et, ?En.
Qed.

(** ** Responses *)

Definition canon_response (r : Response) : Response :=
  MkResponse (response_id r) (ok r) (canon true (result_ r)) (error r) (response_length r).

Lemma stream_marker_canon j : dicts j → stream_marker (canon true j) = stream_marker j.
Proof.
  intros Hd. destruct j as [| | | | | |kvs]; try done.
  change (canon true (JObj kvs)) with (JObj (canon_items kvs)).
  destruct kvs as [|[k v] [|kv2 kvs]]; [done| |].
  - change (canon_items [(k, v)]) with [(k, canon true v)]. simpl. f_equal. by destruct v.
  - assert (length (canon_items ((k, v) :: kv2 :: kvs)) = S (S (length kvs))) as Hl.
    { unfold canon_items, sort_items. rewrite merge_sort_Permutation. simpl. by rewrite length_fmap. }
    destruct (canon_items _) as [|[k1 v1] [|p2 l2]]; try done.
Qed.

Lemma success_fields r p :
  ok r = true → response_to_payload r = Ok p →
  field (u "version") p = JInt 2 ∧ field (u "id") p = JStr (response_id r) ∧
  field (u "ok") p = JBool true ∧ field (u "result") p = result_ r ∧
  obj_get (u "error") p = None ∧
  field (u "stream_length") p = match response_length r with Some n => JInt n | None => JNull end ∧
  _check_keys p [u "version"; u "id"; u "ok"; u "result"; u "error"; u "stream_length"]
    [u "version"; u "id"; u "ok"] = Ok tt ∧ NoDup p.*1.
Proof.
  destruct r as [i o res e [n|]]; simpl; intros -> [= <-]; split_and!; try reflexivity;
    vm_compute; repeat constructor; set_solver.
Qed.

Lemma failure_fields r p e :
  ok r = false → error r = Some e → response_to_payload r = Ok p →
  field (u "version") p = JInt 2 ∧ field (u "id") p = JStr (response_id r) ∧
  field (u "ok") p = JBool false ∧ field (u "error") p = JObj (error_to_payload e) ∧
  obj_get (u "result") p = None ∧ obj_get (u "stream_length") p = None ∧
  _check_keys p [u "version"; u "id"; u "ok"; u "result"; u "error"; u "stream_length"]
    [u "version"; u "id"; u "ok"] = Ok tt ∧ NoDup p.*1.
Proof.
  destruct r as [i o res er [n|]]; simpl; intros -> -> [= <-]; split_and!; try reflexivity;
    vm_compute; repeat constructor; set_solver.
Qed.

Lemma error_fields e :
  let p := error_to_payload e in
  field (u "code") p = JStr (code e) ∧ field (u "message") p = JStr (message e) ∧
  _check_keys p [u "code"; u "message"] [u "code"; u "message"] = Ok tt ∧ NoDup p.*1.
Proof. cbv zeta. split_and!; try reflexivity. vm_compute. repeat constructor; set_solver. Qed.

Lemma response_roundtrip r p :
  valid_response r → dicts (result_ r) → response_to_payload r = Ok p →
  response_from_payload (canon_items p) = Ok (canon_response r).
Proof.
  intros (Hi & Hv & Hr) Hd Hp. unfold response_from_payload. destruct (ok r) eqn:Eok.
  - destruct Hr as (He & Hm & Hn).
    destruct (success_fields r p Eok Hp) as (Fv & Fi & Fo & Fr & Fe & Fs & Hk & Hnd).
    rewrite check_keys_canon, Hk, !field_canon, !has_value_canon by done.
    rewrite Fv, Fi, Fo, Fr, Fs, Fe. cbn [mbind result_mbind result_bind canon].
    change (negb (version_ok (JInt 2))) with false. cbv iota. cbn [has_value].
    unfold success, make_response, _check_identifier. rewrite Hi.
    cbn [mbind result_mbind result_bind has_value negb andb].
    unfold _validate_json_value. rewrite valid_json_canon, Hv.
    rewrite stream_marker_canon, <-Hm by done. unfold canon_response. rewrite Eok, He.
    destruct (response_length r) as [n|] eqn:En; cbn [canon check_stream_length];
      [replace (0 <? n) with true by lia|]; done.
  - destruct Hr as (Hres & Hlen & e & He & Hc & Hmsg).
    destruct (failure_fields r p e Eok He Hp) as (Fv & Fi & Fo & Fe & Fr & Fs & Hk & Hnd).
    destruct (error_fields e) as (Gc & Gm & Gk & Gnd).
    rewrite check_keys_canon, Hk, !field_canon, !has_value_canon by done.
    rewrite Fv, Fi, Fo, Fr, Fs, Fe. cbn [mbind result_mbind result_bind has_value].
    change (negb (version_ok (canon true (JInt 2)))) with false. cbv iota.
    change (canon true (JObj (error_to_payload e))) with (JObj (canon_items (error_to_payload e))).
    cbn [canon]. rewrite check_keys_canon, Gk, !field_canon, Gc, Gm by done.
    cbn [mbind result_mbind result_bind]. unfold failure, make_error, _check_identifier.
    cbn [canon]. rewrite Hc. cbn [mbind result_mbind result_bind]. rewrite Hmsg.
    cbn [mbind result_mbind result_bind]. unfold make_response, _check_identifier. rewrite Hi.
    unfold canon_response. rewrite Eok, Hres, Hlen, He. by destruct e.
Qed.

(** ** The client *)

Section Exchange.
Context (py_float : list Z → pyfloat).
Notation plain := (plain py_float).

Lemma send_frame_run message max_bytes frame c :
  encode_frame message max_bytes = Ok frame → writable c = true →
  send_frame message max_bytes c =
    (Ok tt, Conn (incoming c) (sent c ++ frame) true (source c) (sink c)).
Proof.
  intros He Hw. unfold send_frame, mbind, eff_mbind, eff_bind, lift, sendall. by rewrite He, Hw.
Qed.

Lemma receive_response_run max_bytes r p frame rest c :
  valid_response r → response_to_payload r = Ok p → plain (JObj p) → plain (result_ r) →
  encode_frame (JObj p) max_bytes = Ok frame → pieces (incoming c) (frame ++ rest) →
  ∃ ev, receive_response py_float max_bytes c = (Ok (canon_response r), set_incoming ev c) ∧
    pieces ev rest.
Proof.
  intros Hv Hr Hp Hpr He Hc.
  destruct (receive_encoded py_float p max_bytes frame rest c Hp He Hc) as (ev & Hrun & Hrest).
  exists ev. split; [|done]. unfold receive_response, mbind, eff_mbind, eff_bind. rewrite Hrun.
  unfold lift. rewrite (response_roundtrip r p); [done|done|by eapply plain_dicts|done].
Qed.

(** C28: a request the constructor accepts is decoded by the server as that
    request; a response the server built is what [call] returns when it answers
    the same request id, and is rejected when it carries another id.  Contents
    agree up to the order of object keys. *)
Theorem rpc_exchange max_bytes rid op ps token length r frame p answer frame' c rest :
  make_request rid op ps token length = Ok r → stream_length r = None →
  plain (JObj (request_to_payload r)) →
  encode_frame (JObj (request_to_payload r)) max_bytes = Ok frame →
  valid_response answer → response_to_payload answer = Ok p → response_length answer = None →
  plain (JObj p) → plain (result_ answer) → encode_frame (JObj p) max_bytes = Ok frame' →
  (pieces (incoming c) (frame ++ rest) → ∃ payload ev,
     receive_frame py_float max_bytes c = (Ok payload, set_incoming ev c) ∧
     request_from_payload payload = Ok (canon_request r)) ∧
  (writable c = true → pieces (incoming c) (frame' ++ rest) → ∃ ev,
     call py_float max_bytes r c =
       (if str_eqb (response_id answer) (request_id r) then Ok (canon_response answer)
        else Err ProtocolError,
        Conn ev (sent c ++ frame) true (source c) (sink c))).
Proof.
  intros Hmk Hsl Hpr He Hva Hpa Hla Hp Hpres He'. split.
  - intros Hc.
    destruct (receive_encoded py_float _ max_bytes frame rest c Hpr He Hc) as (ev & Hrun & _).
    exists (canon_items (request_to_payload r)), ev. split; [done|].
    apply request_roundtrip. by eapply make_request_valid.
  - intros Hw Hc. unfold call. rewrite Hsl. cbn [has_value].
    unfold mbind at 1, eff_mbind, eff_bind. rewrite (send_frame_run _ _ _ _ He Hw).
    destruct (receive_response_run max_bytes answer p frame' rest
      (Conn (incoming c) (sent c ++ frame) true (source c) (sink c)) Hva Hpa Hp Hpres He' Hc)
      as (ev & Hrun & _).
    exists ev. unfold mbind at 1, eff_mbind, eff_bind. rewrite Hrun.
    unfold mbind, eff_mbind, eff_bind, require_id. cbn [canon_response response_id].
    destruct (str_eqb _ _); [|done]. unfold mret, eff_ret.
    change (response_length (canon_response answer)) with (response_length answer).
    by rewrite Hla.
Qed.

(** A declared stream read from a file in any pieces is sent whole
    after its control frame; the receiver, however the transport cuts the
    bytes, stores exactly those bytes; it reports a stream that ends early as
    truncated and one with surplus bytes as malformed. *)
Theorem stream_transfer max_frame max_stream kvs n bs frame cs cr :
  plain (JObj kvs) → obj_get (u "stream_length") kvs = Some (JInt n) → 0 < n ≤ max_stream →
  encode_frame (JObj kvs) max_frame = Ok frame →
  file_reads bs cs → zlen (mjoin bs) = n → writable cs = true →
  (send_stream_frame kvs max_frame max_stream true cs =
     (Ok tt, Conn (incoming cs) (sent cs ++ frame ++ mjoin bs) true [] (sink cs))) ∧
  (pieces (incoming cr) (frame ++ mjoin bs) → ∃ ev,
     receive_stream_frame py_float max_frame max_stream cr =
       (Ok (canon_items kvs, n), with_sink ev (sink cr ++ mjoin bs) cr)) ∧
  (∀ part, zlen part < n → pieces (incoming cr) (frame ++ part) →
     (receive_stream_frame py_float max_frame max_stream cr).1 = Err StreamTruncated) ∧
  (∀ x rest, pieces (incoming cr) (frame ++ mjoin bs ++ x :: rest) →
     (receive_stream_frame py_float max_frame max_stream cr).1 = Err StreamError).
Proof.
  intros Hp Hn Hb He Hf Hlen Hw.
  assert (Hsl : _stream_length kvs max_stream = Ok n).
  { unfold _stream_length. rewrite Hn. simpl. replace (n <=? 0) with false by lia.
    by replace (max_stream <? n) with false by lia. }
  assert (Hslc : _stream_length (canon_items kvs) max_stream = Ok n).
  { unfold _stream_length. rewrite canon_items_get, Hn by apply Hp. simpl.
    replace (n <=? 0) with false by lia. by replace (max_stream <? n) with false by lia. }
  assert (Hrecv : ∀ rest, pieces (incoming cr) (frame ++ rest) → ∃ ev, pieces ev rest ∧
    ∀ R, receive_stream_payload n max_stream true (set_incoming ev cr) = R →
      receive_stream_frame py_float max_frame max_stream cr =
        (match R.1 with Ok _ => Ok (canon_items kvs, n) | Err e => Err e end, R.2)).
  { intros rest Hc. destruct (receive_encoded py_float kvs max_frame frame rest cr Hp He Hc)
      as (ev & Hrun & Hrest). exists ev. split; [done|]. intros R HR.
    unfold receive_stream_frame. unfold mbind at 1, eff_mbind, eff_bind. rewrite Hrun.
    unfold mbind at 1, eff_mbind, eff_bind, lift. rewrite Hslc.
    unfold mbind, eff_mbind, eff_bind. rewrite HR. by destruct R as [[]]. }
  split_and!.
  - unfold send_stream_frame. unfold mbind at 1, eff_mbind, eff_bind, lift. rewrite Hsl.
    unfold mbind at 1, eff_mbind, eff_bind. rewrite (send_frame_run _ _ _ _ He Hw).
    unfold mbind at 1, eff_mbind, eff_bind. rewrite <-Hlen.
    rewrite (send_loop_file _ bs); [|unfold zlen; lia|exact Hf|done].
    cbn [incoming sent writable source sink]. by rewrite <-app_assoc.
  - intros Hc. destruct (Hrecv (mjoin bs) Hc) as (ev & Hev & HR).
    destruct (receive_payload_spec (mjoin bs) n max_stream (set_incoming ev cr) Hlen Hb) as (H1 & _).
    destruct (H1 Hev) as (ev' & Hr). exists ev'. by rewrite (HR _ Hr).
  - intros part Hl Hc. destruct (Hrecv part Hc) as (ev & Hev & HR). rewrite (HR _ eq_refl).
    destruct (receive_payload_spec (mjoin bs) n max_stream (set_incoming ev cr) Hlen Hb)
      as (_ & _ & H3). cbn [fst]. by rewrite (H3 part Hl Hev).
  - intros x rest Hc. destruct (Hrecv _ Hc) as (ev & Hev & HR). rewrite (HR _ eq_refl).
    destruct (receive_payload_spec (mjoin bs) n max_stream (set_incoming ev cr) Hlen Hb)
      as (_ & H2 & _). cbn [fst]. by rewrite (H2 x rest Hev).
Qed.
End Exchange.

(** ** Witnesses *)

Definition demo_float (r : list Z) : pyfloat := FFinite r.

Definition demo_request : Request :=
  MkRequest (u "req-1") (u "mail.list_page") [(u "limit", JInt 50)] None None.
Definition demo_response : Response :=
  MkResponse (u "req-1") true (JArr [JStr (u "inbox"); JInt 3]) None None.
Definition demo_control : list (list Z * json) :=
  [(u "version", JInt 2); (u "stream_length", JInt 5)].

Ltac prove_plain :=
  repeat match goal with
  | |- _ ∧ _ => split
  | |- NoDup _ => apply (bool_decide_unpack _); vm_compute; exact I
  | |- Forall clean_char _ => apply literal_clean; vm_compute; reflexivity
  | |- Z.abs _ < _ => by vm_compute
  | |- True => exact I
  | |- _ => progress cbn
  end.

Lemma demo_request_plain : plain demo_float (JObj (request_to_payload demo_request)).
Proof. prove_plain. Qed.
Lemma demo_control_plain : plain demo_float (JObj demo_control).
Proof. prove_plain. Qed.

Definition demo_payload : list (list Z * json) :=
  [(u "version", JInt 2); (u "id", JStr (u "req-1")); (u "ok", JBool true);
   (u "result", JArr [JStr (u "inbox"); JInt 3])].

Lemma demo_payload_plain : plain demo_float (JObj demo_payload).
Proof. prove_plain. Qed.
Lemma demo_result_plain : plain demo_float (JArr [JStr (u "inbox"); JInt 3]).
Proof. prove_plain. Qed.

Definition frame_of (kvs : list (list Z * json)) : list Z :=
  match encode_frame (JObj kvs) DEFAULT_MAX_FRAME_BYTES with Ok f => f | Err _ => [] end.

(** One connection per role: the bytes arrive one by one. *)
Definition bytewise (bs : list Z) : conn :=
  Conn ((λ b, Chunk [b]) <$> bs) [] true [ReadBytes (u "ab"); ReadBytes (u "cde")] [].

Lemma bytewise_pieces bs : pieces (incoming (bytewise bs)) bs.
Proof.
  simpl. induction bs as [|b bs IH]; [constructor|]. csimpl. by apply (pieces_cons [b]).
Qed.

Lemma frame_roundtrip_witness :
  ∃ ev, receive_frame demo_float DEFAULT_MAX_FRAME_BYTES
          (bytewise (frame_of (request_to_payload demo_request))) =
        (Ok (canon_items (request_to_payload demo_request)),
         set_incoming ev (bytewise (frame_of (request_to_payload demo_request)))).
Proof.
  destruct (proj1 (frame_roundtrip demo_float (request_to_payload demo_request)
    DEFAULT_MAX_FRAME_BYTES (frame_of (request_to_payload demo_request))
    (bytewise (frame_of (request_to_payload demo_request)))
    demo_request_plain ltac:(vm_compute; reflexivity)) []) as (ev & Hr & _).
  - rewrite app_nil_r. apply bytewise_pieces.
  - exists ev. exact Hr.
Defined.

Lemma rpc_exchange_witness :
  ∃ ev, call demo_float DEFAULT_MAX_FRAME_BYTES demo_request (bytewise (frame_of demo_payload)) =
    (Ok (canon_response demo_response),
     Conn ev (frame_of (request_to_payload demo_request)) true
       [ReadBytes (u "ab"); ReadBytes (u "cde")] []).
Proof.
  destruct (proj2 (rpc_exchange demo_float DEFAULT_MAX_FRAME_BYTES (JStr (u "req-1"))
    (JStr (u "mail.list_page")) (JObj [(u "limit", JInt 50)]) JNull JNull demo_request
    (frame_of (request_to_payload demo_request)) demo_payload demo_response (frame_of demo_payload)
    (bytewise (frame_of demo_payload)) []
    ltac:(vm_compute; reflexivity) eq_refl demo_request_plain ltac:(vm_compute; reflexivity)
    ltac:(vm_compute; repeat split) eq_refl eq_refl demo_payload_plain demo_result_plain
    ltac:(vm_compute; reflexivity)) eq_refl) as (ev & Hr).
  - rewrite app_nil_r. apply bytewise_pieces.
  - exists ev. exact Hr.
Defined.

Lemma stream_transfer_witness :
  ∃ ev, receive_stream_frame demo_float DEFAULT_MAX_FRAME_BYTES DEFAULT_MAX_STREAM_BYTES
          (bytewise (frame_of demo_control ++ u "abcde")) =
    (Ok (canon_items demo_control, 5),
     with_sink ev (u "abcde") (bytewise (frame_of demo_control ++ u "abcde"))).
Proof.
  destruct (stream_transfer demo_float DEFAULT_MAX_FRAME_BYTES DEFAULT_MAX_STREAM_BYTES
    demo_control 5 [u "ab"; u "cde"] (frame_of demo_control) (bytewise [])
    (bytewise (frame_of demo_control ++ u "abcde")) demo_control_plain eq_refl
    ltac:(vm_compute; split; [reflexivity|discriminate]) ltac:(vm_compute; reflexivity)
    ltac:(split; [reflexivity|repeat constructor; vm_compute; done]) eq_refl eq_refl)
    as (_ & Hrecv & _).
  destruct (Hrecv (bytewise_pieces _)) as (ev & Hr). exists ev. exact Hr.
Defined.
