(* ===== verification/Dict.v ===== *)
(** * Ordered dictionaries

    Python's [dict] and [OrderedDict] with string keys: the items in insertion
    order, each key at most once. *)

From S2P Require Import Prelude.

#[local] Set Default Proof Using "Type*".

(** ** Sublists *)

Lemma filter_sublist_mono {A} (P : A → Prop) `{!∀ x, Decision (P x)} l k :
  sublist l k → sublist (filter P l) (filter P k).
Proof.
  induction 1 as [|x l k Hs IH|x l k Hs IH]; [done| |]; rewrite !filter_cons;
    destruct (decide _); by repeat constructor.
Qed.

Lemma Forall_sublist_mono {A} (P : A → Prop) l k : sublist l k → Forall P k → Forall P l.
Proof.
  induction 1 as [|x l k Hs IH|x l k Hs IH]; [done| |]; rewrite !Forall_cons; [|by intros [_ ?]; auto].
  intros [??]. auto.
Qed.

Lemma filter_length_le {A} (P Q : A → Prop) `{!∀ x, Decision (P x), !∀ x, Decision (Q x)} l :
  (∀ x, P x → Q x) → zlen (filter P l) ≤ zlen (filter Q l).
Proof.
  intros HPQ. induction l as [|x l IH]; [done|]. rewrite !filter_cons.
  destruct (decide (P x)), (decide (Q x)); unfold zlen in *; simpl; naive_solver lia.
Qed.

Section Dict.
Context {V : Type}.
Notation dict := (list (list Z * V)).

Fixpoint od_get (k : list Z) (d : dict) : option V :=
  match d with
  | [] => None
  | (k', v) :: d => if decide (k = k') then Some v else od_get k d
  end.

(** [d[k] = v]: in place when the key exists, at the end otherwise. *)
Fixpoint od_set (k : list Z) (v : V) (d : dict) : dict :=
  match d with
  | [] => [(k, v)]
  | (k', v') :: d => if decide (k = k') then (k, v) :: d else (k', v') :: od_set k v d
  end.

(** [del d[k]] and [d.pop(k, None)]. *)
Definition od_del (k : list Z) (d : dict) : dict := filter (λ kv, kv.1 ≠ k) d.

(** [OrderedDict.move_to_end(k)] of a present key. *)
Definition od_move_to_end (k : list Z) (d : dict) : dict :=
  match od_get k d with
  | Some v => od_del k d ++ [(k, v)]
  | None => d
  end.

Definition od_mem (k : list Z) (d : dict) : bool :=
  match od_get k d with Some _ => true | None => false end.

(** ** Lookup *)

Lemma od_get_elem k v d : NoDup d.*1 → (k, v) ∈ d ↔ od_get k d = Some v.
Proof.
  induction d as [|[k' v'] d IH]; csimpl; intros Hd; [by rewrite elem_of_nil|].
  apply NoDup_cons in Hd as [Hn Hd]. rewrite elem_of_cons. destruct (decide _) as [->|Hk].
  - split; [|intros [= ->]; by left]. intros [[= ->]|Hin]; [done|].
    exfalso. apply Hn, list_elem_of_fmap. by exists (k', v).
  - rewrite IH by done. split; [intros [[= -> ->]|?]; done|by right].
Qed.

Lemma od_get_none k d : od_get k d = None ↔ k ∉ d.*1.
Proof.
  induction d as [|[k' v'] d IH]; csimpl; [split; [intros _; apply not_elem_of_nil|done]|].
  rewrite not_elem_of_cons. destruct (decide _) as [->|Hk]; [naive_solver|]. rewrite IH. naive_solver.
Qed.

Lemma od_get_app k d d' :
  od_get k (d ++ d') = match od_get k d with Some v => Some v | None => od_get k d' end.
Proof. induction d as [|[k' v'] d IH]; csimpl; [done|]. by destruct (decide _). Qed.

Lemma od_get_filter k d (P : list Z * V → Prop) `{!∀ kv, Decision (P kv)} :
  NoDup d.*1 → od_get k (filter P d) =
  match od_get k d with Some v => if decide (P (k, v)) then Some v else None | None => None end.
Proof.
  induction d as [|[k' v'] d IH]; csimpl; [done|]. intros [Hn Hd]%NoDup_cons.
  rewrite filter_cons. destruct (decide (k = k')) as [->|Hk].
  - destruct (decide _); csimpl; [by rewrite decide_True|]. rewrite IH by done.
    by apply od_get_none in Hn as ->.
  - destruct (decide (P (k', v'))); csimpl; [by rewrite decide_False, IH|by rewrite IH].
Qed.

Lemma od_get_del k k' d :
  od_get k (od_del k' d) = if decide (k = k') then None else od_get k d.
Proof.
  induction d as [|[k1 v1] d IH]; csimpl; [by destruct (decide _)|].
  unfold od_del. rewrite filter_cons. csimpl.
  destruct (decide (k1 ≠ k')) as [H1|H1]; csimpl.
  - destruct (decide (k = k1)) as [->|Hk]; [by rewrite decide_False|]. apply IH.
  - apply dec_stable in H1 as ->. etrans; [apply IH|]. by destruct (decide _).
Qed.

Lemma od_get_set k k' v d :
  od_get k (od_set k' v d) = if decide (k = k') then Some v else od_get k d.
Proof.
  induction d as [|[k1 v1] d IH]; csimpl; [done|].
  destruct (decide (k' = k1)) as [->|H1]; csimpl; [by destruct (decide _)|].
  destruct (decide (k = k1)) as [->|Hk]; [by rewrite decide_False|]. apply IH.
Qed.

Lemma od_get_move k k' d : od_get k (od_move_to_end k' d) = od_get k d.
Proof.
  unfold od_move_to_end. destruct (od_get k' d) as [v|] eqn:E; [|done].
  rewrite od_get_app, od_get_del. csimpl. destruct (decide (k = k')) as [->|Hk]; [done|].
  by destruct (od_get k d).
Qed.

(** ** Keys *)

Lemma od_filter_keys (P : list Z * V → Prop) `{!∀ kv, Decision (P kv)} d k :
  k ∈ (filter P d).*1 → k ∈ d.*1.
Proof.
  rewrite !list_elem_of_fmap. intros (kv & -> & [_ Hin]%list_elem_of_filter). by exists kv.
Qed.

Lemma od_filter_nodup (P : list Z * V → Prop) `{!∀ kv, Decision (P kv)} d :
  NoDup d.*1 → NoDup (filter P d).*1.
Proof.
  induction d as [|kv d IH]; csimpl; [done|]. intros [Hn Hd]%NoDup_cons. rewrite filter_cons.
  destruct (decide _); csimpl; [|by apply IH]. apply NoDup_cons. split; [|by apply IH].
  intros Hx. by apply Hn, (od_filter_keys P).
Qed.

Lemma od_set_keys k v d : k ∈ d.*1 → (od_set k v d).*1 = d.*1.
Proof.
  induction d as [|[k' v'] d IH]; csimpl; [by intros ?%elem_of_nil|].
  destruct (decide _) as [->|Hk]; csimpl; [done|]. intros [->|H]%elem_of_cons; [done|]. by rewrite IH.
Qed.

Lemma od_set_new k v d : k ∉ d.*1 → od_set k v d = d ++ [(k, v)].
Proof.
  induction d as [|[k' v'] d IH]; csimpl; [done|]. intros [Hk Hd]%not_elem_of_cons.
  rewrite decide_False by done. by rewrite IH.
Qed.

Lemma od_set_nodup k v d : NoDup d.*1 → NoDup (od_set k v d).*1.
Proof.
  intros Hd. destruct (decide (k ∈ d.*1)) as [Hk|Hk].
  - by rewrite od_set_keys.
  - rewrite od_set_new by done. rewrite fmap_app, NoDup_app. split_and!; [done| |apply NoDup_singleton].
    intros x Hx. csimpl. rewrite list_elem_of_singleton. by intros ->.
Qed.

Lemma od_del_keys k d x : x ∈ (od_del k d).*1 ↔ x ∈ d.*1 ∧ x ≠ k.
Proof.
  unfold od_del. rewrite !list_elem_of_fmap. split.
  - intros (kv & -> & [H1 H2]%list_elem_of_filter). split; [by exists kv|done].
  - intros [(kv & -> & Hin) Hne]. exists kv. split; [done|]. by apply list_elem_of_filter.
Qed.

Lemma od_move_keys k d : k ∈ d.*1 → NoDup d.*1 → od_move_to_end k d ≡ₚ d.
Proof.
  intros Hk Hd. unfold od_move_to_end. destruct (od_get k d) as [v|] eqn:E; [|done].
  induction d as [|[k' v'] d IH]; [done|]. csimpl in *. apply NoDup_cons in Hd as [Hn Hd].
  unfold od_del. rewrite filter_cons. csimpl. destruct (decide (k = k')) as [->|Hne].
  - injection E as ->. rewrite decide_False by (intros Hx; done).
    assert (filter (λ kv : list Z * V, kv.1 ≠ k') d = d) as ->.
    { clear -Hn. induction d as [|[k1 v1] d IH]; [done|]. csimpl in Hn.
      apply not_elem_of_cons in Hn as [H1 H2]. rewrite filter_cons_True by done. by rewrite IH. }
    by rewrite Permutation_app_comm.
  - rewrite decide_True by done. csimpl. rewrite IH; [done| |done|done].
    by apply elem_of_cons in Hk as [->|?].
Qed.

Lemma od_del_absent k d : k ∉ d.*1 → od_del k d = d.
Proof.
  unfold od_del. induction d as [|[k1 v1] d IH]; [done|]. csimpl.
  intros [H1 H2]%not_elem_of_cons. rewrite filter_cons_True by done. by rewrite IH.
Qed.

(** A dictionary is the rest of it and the entry of one key. *)
Lemma od_get_perm k v d : NoDup d.*1 → od_get k d = Some v → d ≡ₚ od_del k d ++ [(k, v)].
Proof.
  intros Hd Hv. rewrite <-(od_move_keys k d) at 1; [by unfold od_move_to_end; rewrite Hv| |done].
  apply dec_stable. intros Hn. apply od_get_none in Hn. congruence.
Qed.

Lemma od_set_perm k v d : NoDup d.*1 → od_set k v d ≡ₚ od_del k d ++ [(k, v)].
Proof.
  intros Hd. destruct (decide (k ∈ d.*1)) as [Hk|Hk].
  - rewrite (od_get_perm k v (od_set k v d)).
    + f_equiv. unfold od_del. clear Hd Hk. induction d as [|[k' v'] d IH]; simpl.
      * by rewrite filter_cons_False by (intros Hx; done).
      * destruct (decide (k = k')) as [->|Hne]; rewrite !filter_cons; csimpl.
        -- by destruct (decide _).
        -- destruct (decide _); [by rewrite IH|done].
    + by apply od_set_nodup.
    + by rewrite od_get_set, decide_True.
  - by rewrite od_set_new, od_del_absent.
Qed.

Lemma od_move_perm k d : NoDup d.*1 → od_move_to_end k d ≡ₚ d.
Proof.
  intros Hd. destruct (decide (k ∈ d.*1)) as [Hk|Hk]; [by apply od_move_keys|].
  unfold od_move_to_end. by apply od_get_none in Hk as ->.
Qed.

Lemma od_move_nodup k d : NoDup d.*1 → NoDup (od_move_to_end k d).*1.
Proof.
  intros Hd. destruct (decide (k ∈ d.*1)) as [Hk|Hk]; [by rewrite od_move_keys|].
  unfold od_move_to_end. apply od_get_none in Hk as ->. done.
Qed.
End Dict.
