(* ===== verification/Http.v ===== *)
(** * [urllib.parse.urlsplit]

    The splitting of a URL into scheme, network location, path, query and
    fragment, and the attributes of the result the code reads, following the
    Python standard library.  The tables beyond ASCII are the fields of
    [netlib]: [str.lower], the NFKC check of a network location, the IDNA codec
    and [ipaddress]; on ASCII text the definitions do not consult them. *)

From S2P Require Import Prelude Text Errors.

Record netlib := NetLib {
  unicode_lower : list Z → list Z;
  (* no character that delimits a URL appears under NFKC normalisation *)
  nfkc_netloc_ok : list Z → bool;
  (* ToASCII of every label, joined *)
  idna_to_ascii : list Z → result exc (list Z);
  (* the text is an IPv6 address of [ipaddress.ip_address] *)
  is_ipv6 : list Z → bool
}.

Record SplitResult := MkSplit {
  scheme : list Z; netloc : list Z; path : list Z; query : list Z; fragment : list Z }.

(** [s.rpartition(sep)]: everything before the last separator, if any, and the
    rest. *)
Definition rpartition_char (sep : Z) (s : list Z) : option (list Z * list Z) :=
  match partition_char sep (reverse s) with
  | Some (b, a) => Some (reverse a, reverse b)
  | None => None
  end.

(** The part of [partition] before the separator, whether present or not. *)
Definition before (sep : Z) (s : list Z) : list Z :=
  match partition_char sep s with Some (a, _) => a | None => s end.
Definition after (sep : Z) (s : list Z) : list Z :=
  match partition_char sep s with Some (_, b) => b | None => [] end.

Section Url.
Context (lib : netlib).

Definition py_lower (s : list Z) : list Z := if is_ascii s then lower s else unicode_lower lib s.

(** [s.encode("idna")]: an ASCII name is checked label by label. *)
Definition idna_encode (s : list Z) : result exc (list Z) :=
  if bool_decide (s = []) then Ok []
  else if is_ascii s then
    let labels := split_char 46 s in
    if forallb (λ l, (0 <? zlen l) && (zlen l <? 64)) (take (length labels - 1) labels)
       && forallb (λ l, zlen l <? 64) (drop (length labels - 1) labels)
    then Ok s else Err UnicodeError
  else idna_to_ascii lib s.

Definition is_c0_or_space (c : Z) : bool := c <=? 32.
Definition is_unsafe_url_char (c : Z) : bool := (c =? 9) || (c =? 13) || (c =? 10).
Definition is_scheme_char (c : Z) : bool := is_alnum c || in_chars (u "+-.") c.
Definition is_alpha (c : Z) : bool := is_lower c || is_upper c.

Definition split_scheme (url : list Z) : list Z * list Z :=
  match partition_char 58 url with
  | Some (s, rest) =>
      if match s with [] => false | c :: _ => is_alpha c end && forallb is_scheme_char s
      then (lower s, rest) else ([], url)
  | None => ([], url)
  end.

(** [_splitnetloc(url, 2)]. *)
Definition split_netloc (s : list Z) : list Z * list Z :=
  (fix go (s : list Z) :=
     match s with
     | [] => ([], [])
     | c :: s' => if in_chars (u "/?#") c then ([], s) else let '(a, b) := go s' in (c :: a, b)
     end) s.

Definition hostinfo_text (netloc : list Z) : list Z :=
  match rpartition_char 64 netloc with Some (_, h) => h | None => netloc end.

(** [_check_bracketed_host]: an IPvFuture literal or an IPv6 address. *)
Definition is_hex (c : Z) : bool :=
  is_digit c || ((97 <=? c) && (c <=? 102)) || ((65 <=? c) && (c <=? 70)).
Definition bracketed_host_ok (h : list Z) : bool :=
  match h with
  | 118 :: rest =>
      match partition_char 46 rest with
      | Some (v, tail) => match_plus is_hex v && match_plus (λ c, negb (c =? 10)) tail
      | None => false
      end
  | _ => is_ipv6 lib h
  end.

Definition bracketed_netloc_ok (netloc : list Z) : bool :=
  let h := hostinfo_text netloc in
  match partition_char 91 h with
  | Some (b, bracketed) =>
      let port := after 93 bracketed in
      bool_decide (b = []) && (bool_decide (port = []) || starts_with [58] port)
      && bracketed_host_ok (before 93 bracketed)
  | None => bracketed_host_ok (before 58 h)
  end.

Definition netloc_ok (netloc : list Z) : bool :=
  let opened := has_char 91 netloc in
  let closed := has_char 93 netloc in
  Bool.eqb opened closed && (negb opened || bracketed_netloc_ok netloc).

Definition urlsplit (url : list Z) : result exc SplitResult :=
  let url := filter (λ c, is_unsafe_url_char c = false) (lstrip_by is_c0_or_space url) in
  let '(scheme, url) := split_scheme url in
  let '(netloc, url) := if starts_with (u "//") url then split_netloc (drop 2 url) else ([], url) in
  if negb (netloc_ok netloc) then Err ValueError
  else
    let fragment := after 35 url in
    let url := before 35 url in
    let query := after 63 url in
    let path := before 63 url in
    if is_ascii netloc || nfkc_netloc_ok lib netloc
    then Ok (MkSplit scheme netloc path query fragment) else Err ValueError.

(** [_userinfo]. *)
Definition has_userinfo (s : SplitResult) : bool :=
  match rpartition_char 64 (netloc s) with Some _ => true | None => false end.

Definition hostinfo (s : SplitResult) : list Z * list Z :=
  let h := hostinfo_text (netloc s) in
  match partition_char 91 h with
  | Some (_, bracketed) => (before 93 bracketed, after 58 (after 93 bracketed))
  | None => (before 58 h, after 58 h)
  end.

(** [SplitResult.hostname]: a zone identifier after [%] keeps its case. *)
Definition hostname (s : SplitResult) : option (list Z) :=
  match (hostinfo s).1 with
  | [] => None
  | h => match partition_char 37 h with
         | Some (a, zone) => Some (py_lower a ++ [37] ++ zone)
         | None => Some (py_lower h)
         end
  end.

(** [SplitResult.port]. *)
Definition port_of (s : SplitResult) : result exc (option Z) :=
  match (hostinfo s).2 with
  | [] => Ok None
  | p => if match_plus is_digit p then
           let n := int_of_digits p in
           if n <=? 65535 then Ok (Some n) else Err ValueError
         else Err ValueError
  end.
End Url.

(** * HTTP requests and responses as the code sees them

    What the modelled code reads off an [aiohttp] request and writes to a
    response.  Header tables are case-insensitive and may repeat a name; the
    parsing of the wire format is [aiohttp]'s and a request carries its results. *)

From S2P Require Import Prelude Text Errors.

Definition header_table : Type := list (list Z * list Z).

Definition same_name (a b : list Z) : bool := str_eqb (lower a) (lower b).

(** [headers.getall(name, [])]. *)
Definition getall (name : list Z) (h : header_table) : list (list Z) :=
  (filter (λ kv, same_name kv.1 name = true) h).*2.

(** [headers.setdefault(name, value)]. *)
Definition setdefault (name value : list Z) (h : header_table) : header_table :=
  match getall name h with [] => h ++ [(name, value)] | _ => h end.

(** [del headers[name]]: every entry of the name. *)
Definition del_header (name : list Z) (h : header_table) : header_table :=
  filter (λ kv, same_name kv.1 name = false) h.

(** [headers[name] = value]: the entries of the name are replaced by one; its
    place among the other names is not observable here. *)
Definition set_header (name value : list Z) (h : header_table) : header_table :=
  del_header name h ++ [(name, value)].

Record cookie := MkCookie {
  cookie_value : list Z; max_age : Z; secure : bool; httponly : bool;
  samesite : list Z; cookie_path : list Z }.

Record http_response := MkHttp {
  status : Z;
  reason : option (list Z);
  body : option (list Z);
  headers : header_table;
  cookies : list (list Z * cookie) }.

Record http_request := MkHttpRequest {
  q_method : list Z;
  q_path : list Z;
  q_scheme : list Z;
  q_host : list Z;
  q_remote : option (list Z);
  q_headers : header_table;
  q_cookies : list (list Z * list Z);
  q_content_type : list Z;
  (* [request[_CSRF_REQUEST_KEY]] *)
  q_csrf : option (list Z);
  (* what the other middlewares and handlers attach to the request, as the
     strings they attach it under *)
  q_extra : list (list Z * list Z) }.

Definition with_csrf (t : option (list Z)) (q : http_request) : http_request :=
  MkHttpRequest (q_method q) (q_path q) (q_scheme q) (q_host q) (q_remote q) (q_headers q)
    (q_cookies q) (q_content_type q) t (q_extra q).

Definition with_headers (h : header_table) (r : http_response) : http_response :=
  MkHttp (status r) (reason r) (body r) h (cookies r).

Definition with_cookie (name : list Z) (c : cookie) (r : http_response) : http_response :=
  MkHttp (status r) (reason r) (body r) (headers r)
    (filter (λ kv, kv.1 ≠ name) (cookies r) ++ [(name, c)]).

(** [request.cookies.get(name)]. *)
Definition get_cookie (name : list Z) (q : http_request) : option (list Z) :=
  snd <$> head (filter (λ kv, kv.1 = name) (q_cookies q)).

Definition is_http (e : exc) : bool := match e with HTTPException _ _ _ _ => true | _ => false end.
