(* ===== verification/Security.v ===== *)
(** * HTTP policy: authorities, origins and responses of [security.py]

    Host and origin normalisation, the allow-lists, the responses of rejected
    requests and the headers every response carries. *)

From S2P Require Import Prelude Text Errors Json Http.

Definition SAFE_METHODS : list (list Z) := [u "GET"; u "HEAD"].
Definition is_safe_method (m : list Z) : bool := bool_decide (m ∈ SAFE_METHODS).

Definition DEFAULT_CSP : list Z :=
  u "default-src 'none'; base-uri 'none'; connect-src 'self'; font-src 'self'; form-action 'self'; frame-ancestors 'none'; frame-src 'self' blob:; img-src 'self' blob:; object-src 'none'; script-src 'self'; style-src 'self'".

Definition _API_ERROR_CODES (status : Z) : option (list Z) :=
  if status =? 400 then Some (u "invalid_request") else
  if status =? 401 then Some (u "unauthorized") else
  if status =? 403 then Some (u "forbidden") else
  if status =? 404 then Some (u "not_found") else
  if status =? 405 then Some (u "method_not_allowed") else
  if status =? 408 then Some (u "request_timeout") else
  if status =? 409 then Some (u "conflict") else
  if status =? 413 then Some (u "payload_too_large") else
  if status =? 415 then Some (u "unsupported_media_type") else
  if status =? 422 then Some (u "unprocessable_entity") else
  if status =? 429 then Some (u "too_many_requests") else
  if status =? 500 then Some (u "internal_error") else
  if status =? 502 then Some (u "backend_failure") else
  if status =? 503 then Some (u "service_unavailable") else None.

Definition _API_ERROR_MESSAGES (status : Z) : option (list Z) :=
  if status =? 400 then Some (u "The request is invalid.") else
  if status =? 401 then Some (u "Authentication is required.") else
  if status =? 403 then Some (u "The request is forbidden.") else
  if status =? 404 then Some (u "The endpoint does not exist.") else
  if status =? 405 then Some (u "This request method is not supported.") else
  if status =? 408 then Some (u "Timed out while reading the request.") else
  if status =? 409 then Some (u "The request conflicts with current state.") else
  if status =? 413 then Some (u "The request body is too large.") else
  if status =? 415 then Some (u "The request content type is not supported.") else
  if status =? 422 then Some (u "The request could not be processed.") else
  if status =? 429 then Some (u "The server is busy; try again later.") else
  if status =? 500 then Some (u "The request failed unexpectedly.") else
  if status =? 502 then Some (u "A backend service failed.") else
  if status =? 503 then Some (u "The service is temporarily unavailable.") else None.

Definition _FORWARDED_ERROR_HEADERS : list (list Z) := [u "allow"; u "retry-after"].

Definition _contains_forbidden_header_characters (value : list Z) : bool :=
  existsb (λ c, (c <? 32) || (c =? 127)) value.

Definition _is_api_path (path : list Z) : bool := starts_with (u "/api/") path.

Definition _safe_error_message (value : option (list Z)) (status : Z) : list Z :=
  let fallback := default (u "The request failed.") (_API_ERROR_MESSAGES status) in
  match value with
  | None => fallback
  | Some value =>
      let value := strip value in
      if bool_decide (value = []) || (512 <? zlen value)
         || _contains_forbidden_header_characters value then fallback
      else match utf8_encode value with Some _ => value | None => fallback end
  end.

(** [json.dumps(..., ensure_ascii=True)] prints what [ensure_ascii=False] does,
    with every character outside the printable ASCII range as one or two
    four-digit escapes. *)
Definition escape_unit (n : Z) : list Z :=
  u "\u" ++ hex_of_byte (n / 256) ++ hex_of_byte (n mod 256).
Definition ascii_escape (c : Z) : list Z :=
  if (32 <=? c) && (c <? 127) then [c]
  else if c <? 65536 then escape_unit c
  else escape_unit (55296 + (c - 65536) / 1024) ++ escape_unit (56320 + (c - 65536) mod 1024).

Definition api_error_body (code message : list Z) : option (list Z) :=
  (λ s, mjoin (ascii_escape <$> s)) <$>
  dumps false (JObj [(u "api_version", JStr (u "v1")); (u "ok", JBool false);
    (u "error", JObj [(u "code", JStr code); (u "message", JStr message)])]).

Definition _error_response (request : http_request) (status_ : Z) (code message : list Z)
    (extra : header_table) : http_response :=
  let response :=
    if _is_api_path (q_path request) then
      MkHttp status_ None (api_error_body code (_safe_error_message (Some message) status_))
        [(u "Content-Type", u "application/json")] []
    else MkHttp status_ None (utf8_encode message)
        [(u "Content-Type", u "text/plain; charset=utf-8")] [] in
  foldl (λ r nv, if bool_decide (lower nv.1 ∈ _FORWARDED_ERROR_HEADERS)
                 then with_headers (set_header nv.1 nv.2 (headers r)) r else r)
    response extra.

(** ** Response headers *)

Definition security_headers : header_table :=
  [(u "Content-Security-Policy", DEFAULT_CSP);
   (u "Cross-Origin-Opener-Policy", u "same-origin");
   (u "Cross-Origin-Resource-Policy", u "same-origin");
   (u "Permissions-Policy",
    u "camera=(), microphone=(), geolocation=(), publickey-credentials-create=(self), publickey-credentials-get=(self)");
   (u "Referrer-Policy", u "same-origin");
   (u "X-Content-Type-Options", u "nosniff");
   (u "X-Frame-Options", u "DENY");
   (u "Cache-Control", u "no-store")].

(** Every name of the table as it was before the loop; deleting a name that a
    previous round removed is a [KeyError]. *)
Fixpoint drop_cors (names : list (list Z)) (h : header_table) : result exc header_table :=
  match names with
  | [] => Ok h
  | name :: names =>
      if starts_with (u "access-control-") (lower name) then
        match getall name h with
        | [] => Err KeyError
        | _ => drop_cors names (del_header name h)
        end
      else drop_cors names h
  end.

Definition _apply_security_headers (response : http_response) : result exc http_response :=
  let h := foldl (λ h nv, setdefault nv.1 nv.2 h) (headers response) security_headers in
  h ← drop_cors h.*1 h;
  Ok (with_headers h response).

Definition _http_exception_response (request : http_request) (e : exc) : http_response :=
  match e with
  | HTTPException status_ reason_ text headers_ =>
      if _is_api_path (q_path request) then
        _error_response request status_ (default (u "request_failed") (_API_ERROR_CODES status_))
          (_safe_error_message text status_) headers_
      else MkHttp status_ reason_ (text ≫= utf8_encode) headers_ []
  | _ => MkHttp 500 None None [] []
  end.

Definition email_document_headers : header_table :=
  [(u "Cache-Control", u "private, no-store, no-transform");
   (u "Content-Security-Policy",
    u "sandbox allow-popups allow-popups-to-escape-sandbox; default-src 'none'; base-uri 'none'; form-action 'none'; frame-ancestors 'self'; img-src data:; object-src 'none'; style-src 'unsafe-inline'");
   (u "Cross-Origin-Resource-Policy", u "same-origin");
   (u "Referrer-Policy", u "no-referrer");
   (u "X-Content-Type-Options", u "nosniff");
   (u "X-Frame-Options", u "SAMEORIGIN")].

(** [hmac.compare_digest] of two strings: [TypeError] unless both are ASCII. *)
Definition compare_digest (a b : list Z) : result exc bool :=
  if is_ascii a && is_ascii b then Ok (str_eqb a b) else Err TypeError.

(** ** Authorities and origins *)

Section Policy.
Context (lib : netlib).

(** [.rstrip(".").encode("idna").decode("ascii").lower()]. *)
Definition canonical_host (h : list Z) : result exc (list Z) :=
  encoded ← idna_encode lib (rstrip_by (λ c, c =? 46) h);
  if is_ascii encoded then Ok (lower encoded) else Err UnicodeDecodeError.

Definition normalize_authority (value : list Z) : result exc (list Z * option Z) :=
  let value := strip value in
  if bool_decide (value = []) || _contains_forbidden_header_characters value || has_char 42 value
  then Err ValueError
  else
    parsed ← urlsplit lib (u "//" ++ value);
    port ← port_of parsed;
    match hostname lib parsed with
    | None => Err ValueError
    | Some host =>
        if has_userinfo parsed || negb (bool_decide (path parsed = []))
           || negb (bool_decide (query parsed = [])) || negb (bool_decide (fragment parsed = []))
        then Err ValueError
        else match canonical_host host with
             | Ok h => Ok (h, port)
             | Err e => if catches [UnicodeError] e then Err ValueError else Err e
             end
    end.

Definition normalize_origin (value : list Z) : result exc (list Z) :=
  let value := strip value in
  if bool_decide (value = []) || _contains_forbidden_header_characters value then Err ValueError
  else
    parsed ← urlsplit lib value;
    port ← port_of parsed;
    let sch := lower (scheme parsed) in
    match hostname lib parsed with
    | None => Err ValueError
    | Some host =>
        if negb (bool_decide (sch ∈ [u "http"; u "https"])) || has_userinfo parsed
           || negb (bool_decide (path parsed ∈ [[]; u "/"]))
           || negb (bool_decide (query parsed = [])) || negb (bool_decide (fragment parsed = []))
        then Err ValueError
        else
          h ← canonical_host host;
          let default_port := if bool_decide (sch = u "http") then 80 else 443 in
          let authority := if has_char 58 h then [91] ++ h ++ [93] else h in
          let authority :=
            match port with
            | Some p => if p =? default_port then authority else authority ++ [58] ++ digits p
            | None => authority
            end in
          Ok (sch ++ u "://" ++ authority)
    end.

(** The request timeout is in milliseconds. *)
Record SecurityConfig := MkSecurityConfig {
  allowed_hosts : list (list Z);
  session_signing_key : list Z;
  public_origins : list (list Z);
  secure_cookies : bool;
  csrf_cookie_name : list Z;
  csrf_max_age : Z;
  request_body_timeout : Z }.

Definition check_security_config (c : SecurityConfig) : result exc unit :=
  if bool_decide (allowed_hosts c = []) then Err ValueError
  else if negb ((32 <=? zlen (session_signing_key c)) && (zlen (session_signing_key c) <=? 128))
  then Err ValueError
  else if negb ((0 <? request_body_timeout c) && (request_body_timeout c <=? 120000))
  then Err ValueError
  else
    _ ← result_map normalize_authority (allowed_hosts c);
    _ ← result_map normalize_origin (public_origins c);
    if csrf_max_age c <=? 0 then Err ValueError
    else if bool_decide (csrf_cookie_name c = [])
            || existsb (in_chars (u ";= " ++ [13; 10; 9])) (csrf_cookie_name c)
    then Err ValueError
    else if starts_with (u "__Host-") (csrf_cookie_name c) && negb (secure_cookies c)
    then Err ValueError
    else Ok tt.

Definition normalized_origins (c : SecurityConfig) : result exc (list (list Z)) :=
  result_map normalize_origin (public_origins c).

Definition host_matches (actual : list Z * option Z) (configured : list Z) : bool :=
  match normalize_authority configured with
  | Ok (expected_host, expected_port) =>
      str_eqb actual.1 expected_host
      && match expected_port with None => true | Some _ => bool_decide (expected_port = actual.2) end
  | Err _ => false
  end.

Definition host_is_allowed (host_header : list Z) (allowed : list (list Z)) : bool :=
  match normalize_authority host_header with
  | Ok actual => existsb (host_matches actual) allowed
  | Err _ => false
  end.

Definition request_origin (request : http_request) : result exc (list Z) :=
  normalize_origin (q_scheme request ++ u "://" ++ q_host request).

(** The comparison both gates end with. *)
Definition origin_matches (actual : list Z) (request : http_request) (c : SecurityConfig)
    : result exc bool :=
  configured ← normalized_origins c;
  if bool_decide (configured ≠ []) then Ok (bool_decide (actual ∈ configured))
  else match request_origin request with
       | Ok expected => compare_digest actual expected
       | Err e => if catches [ValueError] e then Ok false else Err e
       end.

Definition origin_is_allowed (origin_header : list Z) (request : http_request) (c : SecurityConfig)
    : result exc bool :=
  if bool_decide (origin_header = u "null") then Ok false
  else match normalize_origin origin_header with
       | Err e => if catches [ValueError] e then Ok false else Err e
       | Ok actual => origin_matches actual request c
       end.

Definition referer_origin (referer_header : list Z) : result exc (option (list Z)) :=
  parsed ← urlsplit lib referer_header;
  if bool_decide (scheme parsed = []) || bool_decide (netloc parsed = []) then Ok None
  else o ← normalize_origin (scheme parsed ++ u "://" ++ netloc parsed); Ok (Some o).

Definition referer_is_allowed (referer_header : list Z) (request : http_request) (c : SecurityConfig)
    : result exc bool :=
  match referer_origin referer_header with
  | Err e => if catches [ValueError] e then Ok false else Err e
  | Ok None => Ok false
  | Ok (Some actual) => origin_matches actual request c
  end.
End Policy.
