(* ===== verification/Csrf.v ===== *)
(** * CSRF tokens and their registry: [security.py]

    Signed tokens, the bounded registry of current nonces and its operations.

    A registry operation holds an [asyncio.Lock] but never awaits while it holds
    it, so it is one atomic step.  [time.monotonic()] is counted in
    nanoseconds (an integer), as the operating system delivers it; the code
    divides it into a float number of seconds. *)

From S2P Require Import Prelude Text Errors Totp AuthCore Dict Security.

(** ** Python conversions *)

(** [s.split(sep, n)]: at most [n] cuts. *)
Fixpoint split_max (n : nat) (sep : Z) (s : list Z) : list (list Z) :=
  match n with
  | O => [s]
  | S n => match partition_char sep s with
           | Some (a, b) => a :: split_max n sep b
           | None => [s]
           end
  end.

Section Unicode.
Context (unicode_digit : Z → option Z) (unicode_alnum : Z → bool).

(** The digit value of a character for [int], and [str.isalnum] of one. *)
Definition digit_value (c : Z) : option Z :=
  if c <? 128 then if is_digit c then Some (c - 48) else None else unicode_digit c.
Definition isalnum (c : Z) : bool := if c <? 128 then is_alnum c else unicode_alnum c.

(** Digits with single underscores between them. *)
Fixpoint int_digits (acc : Z) (s : list Z) : option Z :=
  match s with
  | [] => Some acc
  | 95 :: c :: s => match digit_value c with
                    | Some d => int_digits (acc * 10 + d) s
                    | None => None
                    end
  | c :: s => match digit_value c with
              | Some d => int_digits (acc * 10 + d) s
              | None => None
              end
  end.

Definition int_unsigned (s : list Z) : option Z :=
  match s with
  | [] => None
  | c :: s => match digit_value c with Some d => int_digits d s | None => None end
  end.

(** [int(s)]: white space around, an optional sign; texts here are far below
    the interpreter's limit of 4300 digits. *)
Definition py_int (s : list Z) : option Z :=
  match strip s with
  | 43 :: s => int_unsigned s
  | 45 :: s => Z.opp <$> int_unsigned s
  | s => int_unsigned s
  end.

Definition ascii_encode (s : list Z) : result exc (list Z) :=
  if is_ascii s then Ok s else Err UnicodeEncodeError.

(** ** Tokens *)

(** [base64.urlsafe_b64encode(value).rstrip(b"=")]: as many digits as cover the
    bits, the last one padded with zero bits. *)
Definition _b64encode (value : list Z) : list Z :=
  let n := (8 * zlen value + 5) / 6 in
  b64_char <$> b64_split (Z.to_nat n) (be_combine value * 2 ^ (6 * n - 8 * zlen value)).

Definition _csrf_signature (key payload : list Z) : result exc (list Z) :=
  p ← ascii_encode payload; Ok (_b64encode (hmac_sha256 key p)).

Definition flow_ok (flow_id : list Z) : bool :=
  (16 <=? zlen flow_id) && (zlen flow_id <=? 32)
  && forallb (λ c, isalnum c || in_chars (u "_-") c) flow_id.

Definition csrf_payload (issued_at : Z) (flow_id nonce : list Z) : list Z :=
  u "v2." ++ str_of_int issued_at ++ [46] ++ flow_id ++ [46] ++ nonce.

(** [verify_csrf_token]: the nonce, the time of issue and the flow. *)
Definition verify_csrf_token (token key : list Z) (max_age now : Z)
    : result exc (option (list Z * Z * list Z)) :=
  if (256 <? zlen token) || _contains_forbidden_header_characters token then Ok None
  else match split_max 4 46 token with
       | [version; issued_text; flow_id; nonce; signature] =>
           match py_int issued_text with
           | None => Ok None
           | Some issued_at =>
               if negb (str_eqb version (u "v2")) || negb (flow_ok flow_id)
                  || bool_decide (nonce = []) || (64 <? zlen nonce)
               then Ok None
               else if (now + 60 <? issued_at) || (max_age <? now - issued_at) then Ok None
               else
                 expected ← _csrf_signature key (csrf_payload issued_at flow_id nonce);
                 same ← compare_digest signature expected;
                 Ok (if same : bool then Some (nonce, issued_at, flow_id) else None)
           end
       | _ => Ok None
       end.

(** ** The registry of current nonces *)

Record _CsrfCurrent := MkCurrent { base : list Z; current_nonce : list Z; expires_at : Z }.

Definition NANOSECONDS : Z := 1000000000.

Record CurrentCsrfStore := MkCsrfStore {
  capacity : Z; flows_per_identity : Z; ttl : Z;
  _entries : list (list Z * _CsrfCurrent) }.

Definition new_csrf_store (capacity_ flows ttl_ : Z) : result exc CurrentCsrfStore :=
  if (capacity_ <=? 0) || (flows <=? 0) || (ttl_ <=? 0) then Err ValueError
  else Ok (MkCsrfStore capacity_ flows ttl_ []).

Definition with_entries (e : list (list Z * _CsrfCurrent)) (s : CurrentCsrfStore)
    : CurrentCsrfStore := MkCsrfStore (capacity s) (flows_per_identity s) (ttl s) e.

Definition _purge (now : Z) (s : CurrentCsrfStore) : CurrentCsrfStore :=
  with_entries (filter (λ kv, now < expires_at kv.2) (_entries s)) s.

(** The first loop of [_bound_capacity]: the oldest other flows of the same
    identity go until fewer than [flows_per_identity] are left. *)
Fixpoint drop_flows (limit : Z) (matching : list (list Z))
    (e : list (list Z * _CsrfCurrent)) : list (list Z * _CsrfCurrent) :=
  match matching with
  | [] => e
  | k :: rest => if limit <=? zlen matching then drop_flows limit rest (od_del k e) else e
  end.

(** The second one: [popitem(last=False)] while the registry is full. *)
Fixpoint drop_oldest (limit : Z) (key : list Z) (e : list (list Z * _CsrfCurrent))
    : list (list Z * _CsrfCurrent) :=
  match e with
  | [] => []
  | _ :: rest => if (limit <=? zlen e) && negb (od_mem key e) then drop_oldest limit key rest else e
  end.

Definition matching_flows (b key : list Z) (e : list (list Z * _CsrfCurrent)) : list (list Z) :=
  (filter (λ kv, base kv.2 = b ∧ kv.1 ≠ key) e).*1.

Definition _bound_capacity (b key : list Z) (s : CurrentCsrfStore) : CurrentCsrfStore :=
  let e := drop_flows (flows_per_identity s) (matching_flows b key (_entries s)) (_entries s) in
  with_entries (drop_oldest (capacity s) key e) s.

Definition store_current (now : Z) (b key nonce : list Z) (s : CurrentCsrfStore) : CurrentCsrfStore :=
  let v := MkCurrent b nonce (now + ttl s * NANOSECONDS) in
  with_entries (od_move_to_end key (od_set key v (_entries s))) s.

(** The entry of [key] holds [nonce]. *)
Definition holds_nonce (key nonce : list Z) (s : CurrentCsrfStore) : result exc bool :=
  match od_get key (_entries s) with
  | None => Ok false
  | Some state => compare_digest (current_nonce state) nonce
  end.

Definition is_current (now : Z) (key nonce : list Z) (s : CurrentCsrfStore)
    : result exc bool * CurrentCsrfStore :=
  let s := _purge now s in
  match holds_nonce key nonce s with
  | Ok true => (Ok true, with_entries (od_move_to_end key (_entries s)) s)
  | r => (r, s)
  end.

Definition replace (now : Z) (b key nonce : list Z) (s : CurrentCsrfStore) : CurrentCsrfStore :=
  store_current now b key nonce (_bound_capacity b key (_purge now s)).

Definition rotate (now : Z) (b key expected replacement : list Z) (s : CurrentCsrfStore)
    : result exc bool * CurrentCsrfStore :=
  let s := _purge now s in
  match holds_nonce key expected s with
  | Ok true => (Ok true, store_current now b key replacement s)
  | r => (r, s)
  end.
End Unicode.
