(* ===== verification/CsrfMiddleware.v ===== *)
(** * The CSRF middleware: [security_middleware] of [security.py]

    A request runs in a [world]: the registry of nonces, the positions in the
    two clocks and in the random source, and whatever lies outside this
    component ([outside]).  The only points where another request can run are
    the awaited body ([read_form]) and the awaited handler: both are arbitrary
    effects on the world.

    A handler returns a response or raises an HTTP exception, and may have
    written to the request; every other exception goes through. *)

From S2P Require Import Prelude Text Errors Totp Dict Http Security Csrf.

Record CsrfScope := MkScope { identity : list Z; partition_by_flow : bool }.

(** A form field: text, or an uploaded file. *)
Inductive form_value : Type := FText (s : list Z) | FFile.

Definition HTTP_BAD_REQUEST (text : list Z) : exc :=
  HTTPException 400 (Some (u "Bad Request")) (Some text)
    [(u "Content-Type", u "text/plain; charset=utf-8")].
Definition HTTP_REQUEST_TIMEOUT (text : list Z) : exc :=
  HTTPException 408 (Some (u "Request Timeout")) (Some text)
    [(u "Content-Type", u "text/plain; charset=utf-8")].

Record sources := MkSources {
  time : nat → Z;
  monotonic : nat → Z;
  token_bytes : nat → Z → list Z;
  unicode_digit : Z → option Z;
  unicode_alnum : Z → bool;
  net : netlib }.

Section Middleware.
Context {R : Type}.

Record world := MkWorld {
  reg : CurrentCsrfStore; wall_reads : nat; monotonic_reads : nat; draws : nat; outside : R }.

Definition M : Type → Type := eff world exc.

Context (src : sources).

Notation verify_csrf_token := (verify_csrf_token (unicode_digit src) (unicode_alnum src)).
Notation flow_ok := (flow_ok (unicode_alnum src)).

Definition now_wall : M Z := λ w,
  (Ok (time src (wall_reads w)),
   MkWorld (reg w) (S (wall_reads w)) (monotonic_reads w) (draws w) (outside w)).

Definition now_monotonic : M Z := λ w,
  (Ok (monotonic src (monotonic_reads w)),
   MkWorld (reg w) (wall_reads w) (S (monotonic_reads w)) (draws w) (outside w)).

(** [secrets.token_bytes(n)] and [secrets.token_urlsafe(n)]. *)
Definition draw (n : Z) : M (list Z) := λ w,
  (Ok (token_bytes src (draws w) n),
   MkWorld (reg w) (wall_reads w) (monotonic_reads w) (S (draws w)) (outside w)).
Definition token_urlsafe (n : Z) : M (list Z) := b ← draw n; mret (_b64encode b).

Definition on_registry {A} (f : CurrentCsrfStore → result exc A * CurrentCsrfStore) : M A := λ w,
  let '(r, s) := f (reg w) in
  (r, MkWorld s (wall_reads w) (monotonic_reads w) (draws w) (outside w)).

Definition states_is_current (key nonce : list Z) : M bool :=
  now ← now_monotonic; on_registry (is_current now key nonce).
Definition states_replace (b key nonce : list Z) : M unit :=
  now ← now_monotonic; on_registry (λ s, (Ok tt, replace now b key nonce s)).
Definition states_rotate (b key expected replacement : list Z) : M bool :=
  now ← now_monotonic; on_registry (rotate now b key expected replacement).

Definition new_csrf_token (key : list Z) (flow_id : option (list Z)) : M (list Z) :=
  issued_at ← now_wall;
  flow ← match flow_id with None => token_urlsafe 18 | Some f => mret f end;
  if negb (flow_ok flow) then throw ValueError
  else
    nonce ← token_urlsafe 24;
    let payload := csrf_payload issued_at flow nonce in
    signature ← lift (_csrf_signature key payload);
    mret (payload ++ [46] ++ signature).

(** ** The state of one installed middleware *)

Record deployment := MkDeployment {
  config : SecurityConfig;
  scope_resolver : option (http_request → result exc CsrfScope);
  tokenless_paths : list (list Z);
  csrf_key : list Z }.

(** The registry it installs is the value of [reg]. *)
Definition security_middleware (c : SecurityConfig)
    (resolver : option (http_request → result exc CsrfScope)) (state_capacity flows : Z)
    (tokenless_safe_paths : list (list Z)) : M deployment :=
  if existsb (λ p, negb (starts_with (u "/") p)) tokenless_safe_paths then throw ValueError
  else
    s ← lift (new_csrf_store state_capacity flows (csrf_max_age c));
    on_registry (λ _, (Ok tt, s)) ≫= λ _,
    boot_nonce ← draw 32;
    mret (MkDeployment c resolver tokenless_safe_paths
      (hmac_sha256 (session_signing_key c) (u "maddyweb-csrf-process-v2" ++ [0] ++ boot_nonce))).

Context (d : deployment).
Context (read_form : http_request → M (option (list (list Z * form_value)))).

Definition request_scope (request : http_request) : result exc CsrfScope :=
  scope ← match scope_resolver d with
          | Some resolver => resolver request
          | None =>
              let remote := match q_remote request with Some ((_ :: _) as r) => r | _ => u "unknown" end in
              Ok (MkScope (u "client:" ++ remote) true)
          end;
  if bool_decide (identity scope = []) || (512 <? zlen (identity scope))
     || _contains_forbidden_header_characters (identity scope)
  then Err (HTTP_BAD_REQUEST (u "Invalid CSRF scope.")) else Ok scope.

Definition state_identity (scope : CsrfScope) (flow_id : list Z) : result exc (list Z * list Z) :=
  match utf8_encode (identity scope) with
  | None => Err UnicodeEncodeError
  | Some encoded =>
      let b := hex (hmac_sha256 (csrf_key d) (u "maddyweb-csrf-scope-v2" ++ [0] ++ encoded)) in
      let flow := if partition_by_flow scope then flow_id else u "session" in
      f ← ascii_encode flow;
      Ok (b, hex (hmac_sha256 (csrf_key d)
                    (u "maddyweb-csrf-state-v2" ++ [0] ++ b ++ [0] ++ f)))
  end.

Definition verify_now (token : list Z) : M (option (list Z * Z * list Z)) :=
  now ← now_wall; lift (verify_csrf_token token (csrf_key d) (csrf_max_age (config d)) now).

(** The nonce and the flow of a token the process has just made. *)
Definition token_parts (token : list Z) : M (list Z * list Z) :=
  verified ← verify_now token;
  match verified with
  | Some (nonce, _, flow) => mret (nonce, flow)
  | None => throw RuntimeError
  end.

Definition set_csrf_cookie (token : list Z) (response : http_response) : http_response :=
  with_cookie (csrf_cookie_name (config d))
    (MkCookie token (csrf_max_age (config d)) (secure_cookies (config d)) true (u "Strict") (u "/"))
    response.

Definition recoverable_csrf_rejection (request : http_request) (message : list Z)
    (scope : CsrfScope) (flow_id code : list Z) : M http_response :=
  let response := _error_response request 403 code message [] in
  replacement ← new_csrf_token (csrf_key d) (Some flow_id);
  '(nonce, _) ← token_parts replacement;
  '(b, key) ← lift (state_identity scope flow_id);
  states_replace b key nonce ≫= λ _,
  let response := set_csrf_cookie replacement response in
  let response := with_headers (set_header (u "X-CSRF-Token") replacement (headers response)) response in
  lift (_apply_security_headers response).

Definition _submitted_csrf_token (request : http_request) : M (option (list Z)) :=
  match getall (u "X-CSRF-Token") (q_headers request) with
  | _ :: _ :: _ => mret None
  | [ (_ :: _) as t ] => mret (Some t)
  | _ =>
      if str_eqb (q_content_type request) (u "application/x-www-form-urlencoded") then
        form ← read_form request;
        match form with
        | None => throw (HTTP_REQUEST_TIMEOUT (u "Timed out while reading the request body."))
        | Some fields =>
            match (filter (λ kv, kv.1 = u "_csrf") fields).*2 with
            | [FText t] => mret (Some t)
            | _ => mret None
            end
        end
      else mret None
  end.

(** ** The checks of a state-changing request *)

Definition SEND_PATHS : list (list Z) :=
  [u "/api/v1/send"; u "/api/v1/me/send"; u "/api/v1/admin/send"].

Definition required_content_type (path : list Z) : list Z :=
  if bool_decide (path ∈ SEND_PATHS) then u "multipart/form-data"
  else if _is_api_path path then u "application/json"
  else u "application/x-www-form-urlencoded".

Definition same_origin (request : http_request) : result exc bool :=
  match getall (u "Origin") (q_headers request), getall (u "Referer") (q_headers request) with
  | _ :: _ :: _, _ => Ok false
  | _, _ :: _ :: _ => Ok false
  | [origin], _ => origin_is_allowed (net src) origin request (config d)
  | [], [referer] => referer_is_allowed (net src) referer request (config d)
  | [], [] => Ok false
  end.

(** A fetch the browser itself declares cross-site, or declares twice. *)
Definition fetch_site_bad (request : http_request) : bool :=
  match getall (u "Sec-Fetch-Site") (q_headers request) with
  | [] => false
  | [site] => str_eqb site (u "cross-site")
  | _ => true
  end.

Definition content_type_bad (request : http_request) : bool :=
  negb (zlen (getall (u "Content-Type") (q_headers request)) =? 1)
  || negb (str_eqb (q_content_type request) (required_content_type (q_path request))).

(** [inl] is the response of a rejected write, [inr] the token that replaces
    the one this write has spent. *)
Definition check_write (request : http_request) (scope : CsrfScope) (flow_id b key : list Z)
    (cookie : option (list Z * list Z)) : M (http_response + list Z) :=
  let reject status code message extra :=
    r ← lift (_apply_security_headers (_error_response request status code message extra));
    mret (inl r) in
  let recover code message :=
    r ← recoverable_csrf_rejection request message scope flow_id code; mret (inl r) in
  if negb (str_eqb (q_method request) (u "POST")) then
    reject 405 (u "method_not_allowed") (u "This request method is not supported.")
      [(u "Allow", u "GET, HEAD, POST")]
  else
    origin_ok ← lift (same_origin request);
    if negb origin_ok || fetch_site_bad request then
      reject 403 (u "cross_site_rejected") (u "Cross-site request rejected.") []
    else match cookie with
    | None => recover (u "csrf_failed") (u "CSRF check failed; refresh.")
    | Some (cookie_token, cookie_nonce) =>
        if content_type_bad request then
          reject 415 (u "unsupported_media_type") (u "Unsupported content type for this write.") []
        else
          λ w, match _submitted_csrf_token request w with
          | (Err e, w) =>
              if is_http e
              then (r ← lift (_apply_security_headers (_http_exception_response request e));
                    mret (inl r)) w
              else (Err e, w)
          | (Ok submitted, w) =>
              (same ← match submitted with
                      | None => mret false
                      | Some t => lift (compare_digest cookie_token t)
                      end;
               if negb same then recover (u "csrf_failed") (u "CSRF check failed; refresh.")
               else
                 replacement ← new_csrf_token (csrf_key d) (Some flow_id);
                 '(nonce, _) ← token_parts replacement;
                 rotated ← states_rotate b key cookie_nonce nonce;
                 if negb rotated then recover (u "csrf_reused") (u "CSRF token reused; refresh.")
                 else mret (inr replacement)) w
          end
    end.

(** ** Requests *)

Definition handler_type : Type := http_request → M ((http_response + exc) * http_request).

(** [handler(request)] with HTTP exceptions turned into responses; the second
    component is the request as the handler left it. *)
Definition run_handler (handler : handler_type) (request : http_request)
    : M (http_response * http_request) :=
  '(outcome, request') ← handler request;
  let response := match outcome with
                  | inl r => r
                  | inr e => _http_exception_response request e
                  end in
  r ← lift (_apply_security_headers response);
  mret (r, request').

Definition invalid_host (request : http_request) : M http_response :=
  lift (_apply_security_headers
          (_error_response request 400 (u "invalid_host") (u "Invalid Host header.") [])).

Definition host_ok (request : http_request) : bool :=
  match getall (u "Host") (q_headers request) with
  | [h] => host_is_allowed (net src) h (allowed_hosts (config d))
  | _ => false
  end.

(** [security_headers_middleware]: the Host boundary and the headers alone. *)
Definition security_headers_middleware (handler : handler_type) (request : http_request)
    : M http_response :=
  if negb (host_ok request) then invalid_host request
  else '(r, _) ← run_handler handler request; mret r.

Definition csrf_token_for_request (request : http_request) : result exc (list Z) :=
  match q_csrf request with Some t => Ok t | None => Err RuntimeError end.

(** A safe request: the current token goes on, or a fresh one is installed and
    set as a cookie. *)
Definition safe_request (handler : handler_type) (request : http_request) (b key flow_id : list Z)
    (cookie : option (list Z * list Z)) : M http_response :=
  current ← match cookie with
            | Some (_, nonce) => states_is_current key nonce
            | None => mret false
            end;
  match (if current : bool then cookie else None) with
  | Some (cookie_token, _) =>
      '(r, _) ← run_handler handler (with_csrf (Some cookie_token) request);
      mret r
  | None =>
      replacement ← new_csrf_token (csrf_key d) (Some flow_id);
      '(nonce, _) ← token_parts replacement;
      states_replace b key nonce ≫= λ _,
      '(r, request') ← run_handler handler (with_csrf (Some replacement) request);
      match q_csrf request' with
      | Some t => mret (set_csrf_cookie t r)
      | None => throw KeyError
      end
  end.

(** After the handler of a write: the scope may have changed (a login), and
    then the replacement token is current in the new scope as well. *)
Definition finish_write (scope : CsrfScope) (flow_id replacement : list Z)
    (request : http_request) (response : http_response) : M http_response :=
  post_scope ← lift (request_scope request);
  (if str_eqb (identity post_scope) (identity scope)
      && Bool.eqb (partition_by_flow post_scope) (partition_by_flow scope)
   then mret tt
   else '(post_base, post_key) ← lift (state_identity post_scope flow_id);
        '(nonce, _) ← token_parts replacement;
        states_replace post_base post_key nonce) ≫= λ _,
  let r := set_csrf_cookie replacement response in
  mret (with_headers (set_header (u "X-CSRF-Token") replacement (headers r)) r).

Definition write_request (handler : handler_type) (request : http_request) (scope : CsrfScope)
    (b key flow_id : list Z) (cookie : option (list Z * list Z)) : M http_response :=
  token ← match cookie with
          | Some (t, _) => mret t
          | None => new_csrf_token (csrf_key d) (Some flow_id)
          end;
  checked ← check_write (with_csrf (Some token) request) scope flow_id b key cookie;
  match checked with
  | inl r => mret r
  | inr replacement =>
      '(r, request') ← run_handler handler (with_csrf (Some replacement) request);
      finish_write scope flow_id replacement request' r
  end.

Definition verified_cookie (request : http_request) : M (option (list Z * Z * list Z)) :=
  match get_cookie (csrf_cookie_name (config d)) request with
  | Some ((_ :: _) as t) => verify_now t
  | _ => mret None
  end.

Definition middleware (handler : handler_type) (request : http_request) : M http_response :=
  if negb (host_ok request) then invalid_host request
  else if is_safe_method (q_method request) && bool_decide (q_path request ∈ tokenless_paths d) then
    '(r, _) ← run_handler handler request; mret r
  else
    scope ← lift (request_scope request);
    verified ← verified_cookie request;
    flow_id ← match verified with
              | Some (_, _, flow) => mret flow
              | None => t ← new_csrf_token (csrf_key d) None; '(_, flow) ← token_parts t; mret flow
              end;
    '(b, key) ← lift (state_identity scope flow_id);
    let cookie := match verified, get_cookie (csrf_cookie_name (config d)) request with
                  | Some (nonce, _, _), Some t => Some (t, nonce)
                  | _, _ => None
                  end in
    if is_safe_method (q_method request)
    then safe_request handler request b key flow_id cookie
    else write_request handler request scope b key flow_id cookie.
End Middleware.
