(* ===== verification/CsrfSpecs.v ===== *)
(** * The registry of CSRF nonces: theorems

    A nonce that a write has spent is never current again, the registry stays
    within its bounds, and a fresh nonce is current until it expires. *)

From S2P Require Import Prelude Text Errors Totp AuthCore Dict Security Csrf.

#[local] Set Default Proof Using "Type*".

(** ** Histories of the registry *)

Inductive csrf_op : Type :=
| OpIsCurrent (key nonce : list Z)
| OpReplace (b key nonce : list Z)
| OpRotate (b key expected replacement : list Z).

Definition apply_op (now : Z) (op : csrf_op) (s : CurrentCsrfStore) : CurrentCsrfStore :=
  match op with
  | OpIsCurrent key nonce => (is_current now key nonce s).2
  | OpReplace b key nonce => replace now b key nonce s
  | OpRotate b key expected replacement => (rotate now b key expected replacement s).2
  end.

(** A history: the operations in order, each with its clock reading. *)
Definition history : Type := list (Z * csrf_op).
Definition run_ops (ops : history) (s : CurrentCsrfStore) : CurrentCsrfStore :=
  foldl (λ s op, apply_op op.1 op.2 s) s ops.

Definition installs (key nonce : list Z) (op : csrf_op) : Prop :=
  match op with
  | OpIsCurrent _ _ => False
  | OpReplace _ k n => k = key ∧ n = nonce
  | OpRotate _ k _ n => k = key ∧ n = nonce
  end.

Definition keys_ok (s : CurrentCsrfStore) : Prop := NoDup (_entries s).*1.

(** ** The loops of the eviction *)

Lemma drop_flows_sub limit l e :
  ∃ (P : list Z → bool), drop_flows limit l e = filter (λ kv, P kv.1 = true) e ∧
    ∀ k, k ∉ l → P k = true.
Proof.
  revert e. induction l as [|k l IH]; intros e; simpl.
  - exists (λ _, true). split; [|done]. induction e as [|kv e IHe]; [done|].
    rewrite filter_cons_True by done. by rewrite <-IHe.
  - destruct (limit <=? _).
    + destruct (IH (od_del k e)) as (P & -> & HP).
      exists (λ x, P x && bool_decide (x ≠ k)). split.
      * unfold od_del. rewrite list_filter_filter. apply list_filter_iff. intros [x v]. simpl.
        destruct (P x), (bool_decide_reflect (x ≠ k)); naive_solver.
      * intros x [Hx Hl]%not_elem_of_cons. rewrite HP by done. by rewrite bool_decide_true.
    + exists (λ _, true). split; [|done]. clear. induction e as [|kv e IHe]; [done|].
      rewrite filter_cons_True by done. by rewrite <-IHe.
Qed.

Lemma drop_oldest_suffix limit key e : ∃ e0, e = e0 ++ drop_oldest limit key e ∧ key ∉ e0.*1.
Proof.
  induction e as [|kv e IH]; cbn [drop_oldest];
    [exists []; split; [done|apply not_elem_of_nil]|].
  destruct (_ && _) eqn:E; [|exists []; split; [done|apply not_elem_of_nil]]. destruct IH as (e0 & IH & Hk).
  exists (kv :: e0). split; [simpl; by f_equal|]. csimpl. apply not_elem_of_cons. split; [|done].
  apply andb_true_iff in E as [_ E]. destruct kv as [k v]. unfold od_mem in E. simpl in E |- *.
  by destruct (decide (key = k)).
Qed.

Lemma drop_oldest_get limit key k e : NoDup e.*1 →
  od_get k (drop_oldest limit key e) = od_get k e ∨ od_get k (drop_oldest limit key e) = None.
Proof.
  intros Hd. destruct (drop_oldest_suffix limit key e) as (e0 & He & _).
  remember (drop_oldest limit key e) as r eqn:Hr. clear Hr. subst e.
  rewrite od_get_app. destruct (od_get k e0) as [v|] eqn:E; [|by left]. right.
  apply od_get_none. intros Hin. rewrite fmap_app in Hd. apply NoDup_app in Hd as (_ & Hd & _).
  apply (Hd k); [|done]. apply dec_stable. intros Hn. by apply od_get_none in Hn; congruence.
Qed.

Lemma drop_oldest_nodup limit key e : NoDup e.*1 → NoDup (drop_oldest limit key e).*1.
Proof.
  intros Hd. destruct (drop_oldest_suffix limit key e) as (e0 & He & _).
  remember (drop_oldest limit key e) as r eqn:Hr. clear Hr. subst e.
  rewrite fmap_app in Hd. by apply NoDup_app in Hd as (_ & _ & Hd).
Qed.

Lemma drop_flows_nodup limit l e : NoDup e.*1 → NoDup (drop_flows limit l e).*1.
Proof.
  intros Hd. destruct (drop_flows_sub limit l e) as (P & -> & _). by apply od_filter_nodup.
Qed.

Lemma bound_capacity_get b key k s : keys_ok s →
  od_get k (_entries (_bound_capacity b key s)) = od_get k (_entries s) ∨
  od_get k (_entries (_bound_capacity b key s)) = None.
Proof.
  intros Hs. unfold _bound_capacity. cbn [_entries with_entries].
  pose proof (drop_flows_nodup (flows_per_identity s) (matching_flows b key (_entries s)) _ Hs) as Hd.
  destruct (drop_oldest_get (capacity s) key k _ Hd) as [->| ->]; [|by right].
  destruct (drop_flows_sub (flows_per_identity s) (matching_flows b key (_entries s)) (_entries s))
    as (P & -> & _). rewrite od_get_filter by done.
  destruct (od_get k (_entries s)) as [v|]; [|by right]. destruct (decide _); [by left|by right].
Qed.

Lemma purge_get now k s : keys_ok s →
  od_get k (_entries (_purge now s)) =
  match od_get k (_entries s) with
  | Some v => if decide (now < expires_at v) then Some v else None
  | None => None
  end.
Proof. intros Hs. unfold _purge. simpl. by rewrite od_get_filter. Qed.

Lemma purge_keys now s : keys_ok s → keys_ok (_purge now s).
Proof. intros Hs. by apply od_filter_nodup. Qed.

Lemma store_current_get now b key nonce s k :
  od_get k (_entries (store_current now b key nonce s)) =
  if decide (k = key) then Some (MkCurrent b nonce (now + ttl s * NANOSECONDS))
  else od_get k (_entries s).
Proof. unfold store_current. simpl. by rewrite od_get_move, od_get_set. Qed.

Lemma store_current_keys now b key nonce s : keys_ok s → keys_ok (store_current now b key nonce s).
Proof. intros Hs. unfold keys_ok, store_current. simpl. by apply od_move_nodup, od_set_nodup. Qed.

Lemma bound_capacity_keys b key s : keys_ok s → keys_ok (_bound_capacity b key s).
Proof. intros Hs. by apply drop_oldest_nodup, drop_flows_nodup. Qed.

(** ** What one operation does to one entry *)

Lemma holds_nonce_true key nonce s :
  holds_nonce key nonce s = Ok true →
  ∃ v, od_get key (_entries s) = Some v ∧ current_nonce v = nonce.
Proof.
  unfold holds_nonce, compare_digest. destruct (od_get _ _) as [v|]; [|done].
  destruct (_ && _); [|done]. intros [= H]. exists v. split; [done|].
  by apply bool_decide_eq_true in H.
Qed.

Lemma holds_nonce_spec key nonce v s :
  od_get key (_entries s) = Some v → current_nonce v = nonce → is_ascii nonce = true →
  holds_nonce key nonce s = Ok true.
Proof.
  intros Hv Hn Ha. unfold holds_nonce, compare_digest. rewrite Hv, Hn, Ha. simpl.
  unfold str_eqb. by rewrite bool_decide_true.
Qed.

Lemma apply_op_keys now op s : keys_ok s → keys_ok (apply_op now op s).
Proof.
  intros Hs. pose proof (purge_keys now s Hs) as Hp. destruct op as [key n|b key n|b key n m]; simpl.
  - unfold is_current. destruct (holds_nonce _ _ _) as [[]|]; simpl; [|done|done].
    by apply od_move_nodup.
  - by apply store_current_keys, bound_capacity_keys.
  - unfold rotate. destruct (holds_nonce _ _ _) as [[]|]; simpl; [|done|done].
    by apply store_current_keys.
Qed.

(** An entry survives, goes, or was installed by the operation. *)
Lemma apply_op_entry now op s k v : keys_ok s →
  od_get k (_entries (apply_op now op s)) = Some v →
  od_get k (_entries s) = Some v ∨ installs k (current_nonce v) op.
Proof.
  intros Hs. pose proof (purge_keys now s Hs) as Hp.
  assert (Hpurge : ∀ v, od_get k (_entries (_purge now s)) = Some v → od_get k (_entries s) = Some v).
  { intros v'. rewrite purge_get by done. destruct (od_get k _) as [v0|]; [|done].
    by destruct (decide _). }
  destruct op as [key n|b key n|b key n m]; cbn [apply_op installs].
  - unfold is_current. destruct (holds_nonce _ _ _) as [[]|]; cbn [snd with_entries _entries];
      rewrite ?od_get_move; auto.
  - unfold replace. rewrite store_current_get. destruct (decide (k = key)) as [->|Hk].
    + intros [= <-]. right. by split.
    + intros Hv. left. apply Hpurge. by destruct (bound_capacity_get b key k (_purge now s) Hp); congruence.
  - unfold rotate. destruct (holds_nonce _ _ _) as [[]|]; cbn [snd]; auto.
    rewrite store_current_get. destruct (decide (k = key)) as [->|Hk]; [|auto].
    intros [= <-]. right. by split.
Qed.

(** No entry of the key holds the nonce. *)
Definition spent (key nonce : list Z) (s : CurrentCsrfStore) : Prop :=
  keys_ok s ∧ ∀ v, od_get key (_entries s) = Some v → current_nonce v ≠ nonce.

Lemma spent_op now op key nonce s :
  spent key nonce s → ¬ installs key nonce op → spent key nonce (apply_op now op s).
Proof.
  intros [Hs Hn] Hop. split; [by apply apply_op_keys|]. intros v Hv Heq.
  apply apply_op_entry in Hv as [Hv|Hv]; [|by rewrite Heq in Hv|done]. by apply (Hn v).
Qed.

Lemma spent_run ops key nonce s :
  spent key nonce s → Forall (λ op, ¬ installs key nonce op.2) ops → spent key nonce (run_ops ops s).
Proof.
  intros Hs Hops. revert s Hs. induction Hops as [|[now op] ops Hop Hops IH]; intros s Hs; [done|].
  simpl. apply IH. by apply spent_op.
Qed.

Lemma spent_refused key nonce now s : spent key nonce s →
  holds_nonce key nonce (_purge now s) ≠ Ok true.
Proof.
  intros [Hs Hn] H. apply holds_nonce_true in H as (v & Hv & Heq).
  rewrite purge_get in Hv by done. destruct (od_get key (_entries s)) as [v0|] eqn:E; [|done].
  destruct (decide _); [|done]. injection Hv as ->. by apply (Hn v).
Qed.

Lemma rotate_spends now b key expected replacement s s' : keys_ok s →
  rotate now b key expected replacement s = (Ok true, s') → replacement ≠ expected →
  spent key expected s' ∧
  (∃ v, od_get key (_entries s) = Some v ∧ current_nonce v = expected ∧ now < expires_at v) ∧
  od_get key (_entries s') = Some (MkCurrent b replacement (now + ttl s * NANOSECONDS)).
Proof.
  intros Hs Hr Hne. unfold rotate in Hr. pose proof (purge_keys now s Hs) as Hp.
  destruct (holds_nonce _ _ _) as [[]|] eqn:E; [|done|done]. injection Hr as <-.
  assert (Hget : od_get key (_entries (store_current now b key replacement (_purge now s))) =
    Some (MkCurrent b replacement (now + ttl s * NANOSECONDS))).
  { by rewrite store_current_get, decide_True. }
  split; [|split; [|done]].
  - split; [by apply store_current_keys|]. rewrite Hget. by intros v [= <-].
  - apply holds_nonce_true in E as (v & Hv & Hn). rewrite purge_get in Hv by done.
    destruct (od_get key (_entries s)) as [v0|]; [|done]. destruct (decide _); [|done].
    injection Hv as ->. by exists v.
Qed.

(** Once a write has spent a nonce, no history of the registry that
    does not install that nonce again makes it current or spendable: a CSRF
    token admits at most one write. *)
Theorem csrf_single_use now b key nonce replacement s s' ops now' b' other :
  keys_ok s → rotate now b key nonce replacement s = (Ok true, s') → replacement ≠ nonce →
  Forall (λ op, ¬ installs key nonce op.2) ops →
  (rotate now' b' key nonce other (run_ops ops s')).1 ≠ Ok true ∧
  (is_current now' key nonce (run_ops ops s')).1 ≠ Ok true.
Proof.
  intros Hs Hr Hne Hops. apply rotate_spends in Hr as (Hsp & _ & _); [|done|done].
  apply (spent_run ops) in Hsp; [|done].
  pose proof (spent_refused key nonce now' _ Hsp) as Href. unfold rotate, is_current.
  destruct (holds_nonce _ _ _) as [[]|]; done.
Qed.

(** ** Bounds *)

Section Bounds.
(** A key is derived from the identity (and flow) it stands for. *)
Context (owner : list Z → list Z).

Definition op_owned (op : csrf_op) : Prop :=
  match op with
  | OpIsCurrent _ _ => True
  | OpReplace b key _ | OpRotate b key _ _ => b = owner key
  end.

Definition flows_of (b : list Z) (e : list (list Z * _CsrfCurrent)) : list (list Z * _CsrfCurrent) :=
  filter (λ kv, base kv.2 = b) e.

Definition registry_ok (s : CurrentCsrfStore) : Prop :=
  keys_ok s ∧ 0 < capacity s ∧ 0 < flows_per_identity s ∧
  zlen (_entries s) ≤ capacity s ∧
  Forall (λ kv, base kv.2 = owner kv.1) (_entries s) ∧
  ∀ b, zlen (flows_of b (_entries s)) ≤ flows_per_identity s.

Lemma registry_sublist s e : registry_ok s → sublist e (_entries s) → registry_ok (with_entries e s).
Proof.
  intros (Hk & Hc & Hf & Hlen & Ho & Hb) Hsub. split_and!; simpl; [|done|done| | |].
  - unfold keys_ok. simpl. eapply sublist_NoDup; [done|]. by apply fmap_sublist.
  - pose proof (sublist_length _ _ Hsub). unfold zlen in *. lia.
  - by eapply Forall_sublist_mono.
  - intros b. etrans; [|apply (Hb b)]. unfold zlen, flows_of.
    apply inj_le, sublist_length, filter_sublist_mono, Hsub.
Qed.

Lemma purge_ok now s : registry_ok s → registry_ok (_purge now s).
Proof. intros Hs. apply registry_sublist; [done|]. apply sublist_filter. Qed.

Lemma matching_flows_del b key k e :
  matching_flows b key (od_del k e) = filter (λ x, x ≠ k) (matching_flows b key e).
Proof.
  unfold matching_flows, od_del. induction e as [|[k' v] e IH]; [done|].
  rewrite (filter_cons (λ kv : list Z * _CsrfCurrent, kv.1 ≠ k)), (filter_cons _ _ e). csimpl.
  destruct (decide (k' ≠ k)) as [H1|H1]; rewrite ?filter_cons; csimpl.
  - destruct (decide _); csimpl; [rewrite filter_cons, decide_True by done|]; by rewrite IH.
  - destruct (decide (base v = b ∧ k' ≠ key)); csimpl; [rewrite filter_cons, decide_False by done|]; done.
Qed.

Lemma drop_flows_bound limit b key l e : NoDup e.*1 → 0 < limit → matching_flows b key e = l →
  zlen (matching_flows b key (drop_flows limit l e)) < limit.
Proof.
  intros Hd Hl. revert e Hd. induction l as [|k l IH]; intros e Hd Hm; simpl.
  - rewrite Hm. unfold zlen. simpl. lia.
  - destruct (limit <=? _) eqn:E; [|rewrite Hm; lia]. apply IH; [by apply od_filter_nodup|].
    rewrite matching_flows_del, Hm, filter_cons_False by (intros H; done).
    assert (Hn : NoDup (k :: l)) by (rewrite <-Hm; by apply od_filter_nodup).
    apply NoDup_cons in Hn as [Hn _]. clear -Hn. induction l as [|x l IH]; [done|].
    apply not_elem_of_cons in Hn as [H1 H2]. rewrite filter_cons_True by done. by rewrite IH.
Qed.

Lemma drop_oldest_bound limit key e : 0 < limit → key ∉ (drop_oldest limit key e).*1 →
  zlen (drop_oldest limit key e) < limit.
Proof.
  intros Hl. induction e as [|[k v] e IH]; cbn [drop_oldest]; [done|].
  destruct (_ && _) eqn:E; [done|]. intros Hk.
  replace (od_mem key ((k, v) :: e)) with false in E by (unfold od_mem; by apply od_get_none in Hk as ->).
  lia.
Qed.

(** The entries after an installation, up to order. *)
Lemma store_current_perm now b key nonce s : keys_ok s →
  _entries (store_current now b key nonce s) ≡ₚ
  od_del key (_entries s) ++ [(key, MkCurrent b nonce (now + ttl s * NANOSECONDS))].
Proof.
  intros Hs. unfold store_current. simpl. rewrite od_move_perm; [by apply od_set_perm|by apply od_set_nodup].
Qed.

Lemma flows_of_del b key e :
  zlen (filter (λ kv : list Z * _CsrfCurrent, base kv.2 = b) (od_del key e)) =
  zlen (matching_flows b key e).
Proof.
  unfold matching_flows, od_del. rewrite list_filter_filter. unfold zlen. by rewrite length_fmap.
Qed.

Lemma install_ok now b key nonce s : registry_ok s → b = owner key →
  (zlen (od_del key (_entries s)) < capacity s) →
  (zlen (matching_flows b key (_entries s)) < flows_per_identity s) →
  registry_ok (store_current now b key nonce s).
Proof.
  intros (Hk & Hc & Hf & Hlen & Ho & Hb) Hkey H1 H2.
  pose proof (store_current_perm now b key nonce s Hk) as Hp.
  split_and!; [by apply store_current_keys|done|done| | |]; change (capacity _) with (capacity s).
  - unfold zlen in *. rewrite Hp, length_app. simpl. lia.
  - rewrite Hp. apply Forall_app. split; [|by constructor].
    eapply Forall_sublist_mono; [|done]. apply sublist_filter.
  - intros b'. change (flows_per_identity _) with (flows_per_identity s). unfold flows_of.
    unfold zlen. rewrite Hp, filter_app, length_app. pose proof (flows_of_del b' key (_entries s)) as Hd.
    unfold zlen in Hd. destruct (decide (b = b')) as [<-|Hne].
    + rewrite filter_cons_True by done. unfold zlen in *. simpl. lia.
    + rewrite filter_cons_False by done. specialize (Hb b'). unfold flows_of in Hb.
      pose proof (sublist_length _ _ (filter_sublist_mono (λ kv, base kv.2 = b') _ _
        (sublist_filter (λ kv : list Z * _CsrfCurrent, kv.1 ≠ key) (_entries s)))).
      unfold od_del, zlen in *. simpl. lia.
Qed.

Lemma move_ok key s : registry_ok s → registry_ok (with_entries (od_move_to_end key (_entries s)) s).
Proof.
  intros (Hk & Hc & Hf & Hlen & Ho & Hb). pose proof (od_move_perm key (_entries s) Hk) as Hp.
  split_and!; simpl; [by apply od_move_nodup|done|done| | |].
  - unfold zlen in *. by rewrite Hp.
  - by rewrite Hp.
  - intros b. etrans; [|apply (Hb b)]. unfold zlen, flows_of. by rewrite Hp.
Qed.

Lemma bound_capacity_ok b key s : registry_ok s →
  registry_ok (_bound_capacity b key s) ∧
  zlen (od_del key (_entries (_bound_capacity b key s))) < capacity s ∧
  zlen (matching_flows b key (_entries (_bound_capacity b key s))) < flows_per_identity s.
Proof.
  intros Hs. pose proof Hs as (Hk & Hc & Hf & _). unfold _bound_capacity. cbn [_entries with_entries].
  set (e1 := drop_flows _ _ (_entries s)).
  assert (He1 : sublist e1 (_entries s)).
  { destruct (drop_flows_sub (flows_per_identity s) (matching_flows b key (_entries s)) (_entries s))
      as (P & He & _). unfold e1. rewrite He. apply sublist_filter. }
  assert (He2 : sublist (drop_oldest (capacity s) key e1) e1).
  { destruct (drop_oldest_suffix (capacity s) key e1) as (e0 & He & _). rewrite He at 2.
    by apply sublist_inserts_l. }
  assert (Hok : registry_ok (with_entries (drop_oldest (capacity s) key e1) s)).
  { apply registry_sublist; [done|]. by etrans. }
  split; [done|]. split.
  - destruct (decide (key ∈ (drop_oldest (capacity s) key e1).*1)) as [Hin|Hin].
    + destruct Hok as (Hk2 & _ & _ & Hlen & _). simpl in *.
      destruct (od_get key (drop_oldest (capacity s) key e1)) as [v|] eqn:Hv;
        [|by apply od_get_none in Hv].
      pose proof (od_get_perm key v _ Hk2 Hv) as Hp. apply Permutation_length in Hp.
      rewrite length_app in Hp. unfold zlen in *. simpl in Hp. lia.
    + rewrite od_del_absent by done. by apply drop_oldest_bound.
  - eapply Z.le_lt_trans; [|exact (drop_flows_bound _ b key _ (_entries s) Hk Hf eq_refl)].
    unfold zlen, matching_flows. rewrite !length_fmap.
    apply inj_le, sublist_length, filter_sublist_mono, He2.
Qed.

Lemma rotated_ok now b key nonce s v : registry_ok s → b = owner key →
  od_get key (_entries s) = Some v → registry_ok (store_current now b key nonce s).
Proof.
  intros Hs Hb Hv. pose proof Hs as (Hk & Hc & Hf & Hlen & Ho & Hflows).
  pose proof (od_get_perm key v _ Hk Hv) as Hp. pose proof (Permutation_length Hp) as Hlp.
  rewrite length_app in Hlp. simpl in Hlp.
  assert (Hbase : base v = b).
  { rewrite Forall_forall in Ho. rewrite Hb. apply (Ho (key, v)). by apply od_get_elem. }
  apply install_ok; [done|done|unfold zlen in *; lia|].
  specialize (Hflows b). unfold flows_of in Hflows. unfold zlen in Hflows at 1.
  rewrite Hp, filter_app, length_app, filter_cons_True in Hflows by done. simpl in Hflows.
  pose proof (flows_of_del b key (_entries s)) as Hd. unfold zlen in *. lia.
Qed.

(** The registry never holds more entries than its capacity nor
    more flows of one identity than allowed, whatever history it runs. *)
Theorem csrf_registry_bounded ops s :
  registry_ok s → Forall (λ op, op_owned op.2) ops → registry_ok (run_ops ops s).
Proof.
  intros Hs Hops. revert s Hs. induction Hops as [|[now op] ops Hop _ IH]; intros s Hs; [done|].
  simpl. apply IH. clear IH. simpl in Hop. pose proof (purge_ok now s Hs) as Hp.
  destruct op as [key n|b key n|b key n m]; cbn [apply_op op_owned] in *.
  - unfold is_current. destruct (holds_nonce _ _ _) as [[]|]; [by apply move_ok|done|done].
  - apply (bound_capacity_ok b key) in Hp as (Hok & H1 & H2). by apply install_ok.
  - unfold rotate. destruct (holds_nonce _ _ _) as [[]|] eqn:E; [|done|done].
    apply holds_nonce_true in E as (v & Hv & _). by eapply rotated_ok.
Qed.
End Bounds.

(** * CSRF tokens: theorems

    A token the process has made verifies, as long as it is fresh, to the nonce,
    time and flow it was made from; a token that verifies carries the signature
    of its contents. *)

From S2P Require Import Prelude Text Errors Totp Identity AuthCore AuthTokens JsonRound Dict Http Security Csrf CsrfMiddleware.

#[local] Set Default Proof Using "Type*".

Definition dotless (s : list Z) : Prop := 46 ∉ s.

Lemma split_five a b c d e : dotless a → dotless b → dotless c → dotless d →
  split_max 4 46 (a ++ 46 :: b ++ 46 :: c ++ 46 :: d ++ 46 :: e) = [a; b; c; d; e].
Proof. intros Ha Hb Hc Hd. cbn [split_max]. by rewrite !partition_char_app. Qed.

Lemma split_max_five s a b c d e : split_max 4 46 s = [a; b; c; d; e] →
  s = a ++ 46 :: b ++ 46 :: c ++ 46 :: d ++ 46 :: e.
Proof.
  cbn [split_max]. intros H.
  repeat match type of H with
  | context [partition_char 46 ?t] =>
      let p := fresh "p" in let E := fresh "E" in
      destruct (partition_char 46 t) as [p|] eqn:E; [destruct p; apply partition_char_Some in E as [E _]|]; try discriminate H
  end.
  by simplify_eq.
Qed.

(** ** Alphabets *)

Lemma b64encode_alphabet v : forallb is_b64 (_b64encode v) = true.
Proof.
  unfold _b64encode. apply forallb_forall. intros c Hc%list_elem_of_In. apply list_elem_of_fmap in Hc as (d & -> & Hd).
  pose proof (b64_split_range (Z.to_nat ((8 * zlen v + 5) / 6))
    (be_combine v * 2 ^ (6 * ((8 * zlen v + 5) / 6) - 8 * zlen v))) as Hr.
  rewrite Forall_forall in Hr. by apply b64_digit_char, Hr.
Qed.

Lemma length_b64encode v : zlen (_b64encode v) = (8 * zlen v + 5) / 6.
Proof.
  unfold _b64encode, zlen at 1. rewrite length_fmap, length_b64_split.
  rewrite Z2Nat.id; [done|]. unfold zlen. apply Z.div_pos; lia.
Qed.

Lemma token_text (s : list Z) : forallb is_b64 s = true →
  is_ascii s = true ∧ dotless s ∧ _contains_forbidden_header_characters s = false.
Proof.
  unfold is_ascii, dotless, _contains_forbidden_header_characters.
  induction s as [|c s IH]; simpl; [repeat split; apply not_elem_of_nil|].
  intros [Hc Hs]%andb_true_iff. destruct (IH Hs) as (H1 & H2 & H3). unfold is_b64, is_alnum, is_digit, is_lower, is_upper in Hc.
  rewrite H1, H3, not_elem_of_cons. split_and!; [lia|lia|done|lia].
Qed.

Lemma digits_text n : 0 ≤ n → forallb is_b64 (digits n) = true.
Proof.
  intros Hn. destruct (digits_spec n Hn) as [_ Hd]. revert Hd.
  generalize (digits n). induction l as [|c l IH]; simpl; [done|]. intros [Hc Hl]%andb_true_iff.
  rewrite IH by done. unfold is_b64, is_alnum. by rewrite Hc.
Qed.

Section Tokens.
Context (unicode_digit : Z → option Z) (unicode_alnum : Z → bool).
Notation py_int := (py_int unicode_digit).
Notation flow_ok := (flow_ok unicode_alnum).
Notation verify_csrf_token := (verify_csrf_token unicode_digit unicode_alnum).

Lemma int_digits_ascii acc s : forallb is_digit s = true →
  int_digits unicode_digit acc s = Some (foldl (λ acc c, acc * 10 + (c - 48)) acc s).
Proof.
  revert acc. induction s as [|c s IH]; intros acc; [done|]. simpl. intros [Hc Hs]%andb_true_iff.
  assert (Hd : digit_value unicode_digit c = Some (c - 48)).
  { unfold digit_value. rewrite Hc. unfold is_digit in Hc. by replace (c <? 128) with true by lia. }
  rewrite Hd, IH by done. unfold is_digit in Hc.
  destruct (decide (c = 95)) as [->|Hne]; [lia|].
  do 7 (destruct c as [|c|c]; try done; try (destruct c as [c|c|]; try done)).
Qed.

Lemma py_int_digits n : 0 < n → py_int (digits n) = Some n.
Proof.
  intros Hn. destruct (digits_spec n ltac:(lia)) as [Hv Hd].
  destruct (digits_head n Hn) as (c & r & Hh & Hc).
  assert (Hs : strip (digits n) = digits n).
  { apply strip_none. revert Hd. generalize (digits n). induction l as [|x l IH]; simpl; [done|].
    intros [Hx Hl]%andb_true_iff. rewrite IH by done. unfold is_digit in Hx. unfold is_space. lia. }
  unfold Csrf.py_int. rewrite Hs, Hh. rewrite Hh in Hv, Hd.
  assert (Hu : int_unsigned unicode_digit (c :: r) = Some n).
  { unfold int_unsigned, digit_value. simpl in Hd. apply andb_true_iff in Hd as [Hd Hr].
    rewrite Hd. replace (c <? 128) with true by lia. rewrite int_digits_ascii by done.
    rewrite <-Hv. unfold int_of_digits. simpl. do 2 f_equal. }
  rewrite <-Hu.
  destruct (decide (c = 43)) as [->|H43]; [lia|]. destruct (decide (c = 45)) as [->|H45]; [lia|].
  do 7 (destruct c as [|c|c]; try done; try (destruct c as [c|c|]; try done)).
Qed.
End Tokens.

(** ** Making and checking *)

Definition full_token (key : list Z) (issued : Z) (flow nonce : list Z) : list Z :=
  csrf_payload issued flow nonce ++ [46] ++
  _b64encode (hmac_sha256 key (csrf_payload issued flow nonce)).

Lemma flow_text (alnum : Z → bool) f : flow_ok alnum f = true →
  dotless f ∧ _contains_forbidden_header_characters f = false ∧ 16 <= zlen f <= 32.
Proof.
  unfold flow_ok. intros [[H1 H2]%andb_true_iff Hall]%andb_true_iff. split_and!; [| |lia|lia].
  - intros Hin. rewrite forallb_forall in Hall.
    apply list_elem_of_In, Hall in Hin. done.
  - unfold _contains_forbidden_header_characters. apply not_true_is_false.
    intros (c & Hc & Hbad)%existsb_exists. rewrite forallb_forall in Hall. apply Hall in Hc.
    change (in_chars (u "_-") c) with ((c =? 95) || ((c =? 45) || false)) in Hc.
    unfold isalnum, is_alnum, is_digit, is_lower, is_upper in Hc.
    replace (c <? 128) with true in Hc by lia. lia.
Qed.

Lemma is_ascii_app a b : is_ascii (a ++ b) = is_ascii a && is_ascii b.
Proof. apply forallb_app. Qed.

Lemma forbidden_app a b : _contains_forbidden_header_characters (a ++ b) =
  _contains_forbidden_header_characters a || _contains_forbidden_header_characters b.
Proof. apply existsb_app. Qed.

Lemma forbidden_cons c a : _contains_forbidden_header_characters (c :: a) =
  ((c <? 32) || (c =? 127)) || _contains_forbidden_header_characters a.
Proof. done. Qed.

Lemma verify_full (digit : Z → option Z) (alnum : Z → bool) key issued flow nonce max_age now :
  0 < issued < 2 ^ 64 → flow_ok alnum flow = true → is_ascii flow = true →
  forallb is_b64 nonce = true → 0 < zlen nonce ≤ 64 →
  verify_csrf_token digit alnum (full_token key issued flow nonce) key max_age now =
  Ok (if (now + 60 <? issued) || (max_age <? now - issued) then None
      else Some (nonce, issued, flow)).
Proof.
  intros Hi Hf Hfa Hn Hlen. destruct (flow_text _ _ Hf) as (Hfd & Hfc & Hfl).
  destruct (token_text _ Hn) as (Hna & Hnd & Hnc).
  destruct (token_text _ (digits_text issued ltac:(lia))) as (Hda & Hdd & Hdc).
  set (sig := _b64encode (hmac_sha256 key (csrf_payload issued flow nonce))).
  assert (Hsig : is_ascii sig = true ∧ _contains_forbidden_header_characters sig = false).
  { destruct (token_text _ (b64encode_alphabet (hmac_sha256 key (csrf_payload issued flow nonce)))); tauto. }
  destruct Hsig as [Hsa Hsc].
  assert (Hsl : zlen sig = 43).
  { unfold sig. rewrite length_b64encode. unfold zlen. by rewrite length_hmac_sha256. }
  assert (Hpay : csrf_payload issued flow nonce =
    u "v2" ++ 46 :: digits issued ++ 46 :: flow ++ 46 :: nonce).
  { unfold csrf_payload, str_of_int. by replace (issued <? 0) with false by lia. }
  assert (Htok : full_token key issued flow nonce =
    u "v2" ++ 46 :: digits issued ++ 46 :: flow ++ 46 :: nonce ++ 46 :: sig).
  { unfold full_token. fold sig. rewrite Hpay.
    by repeat (rewrite <-app_assoc || rewrite <-app_comm_cons). }
  assert (Hpa : is_ascii (csrf_payload issued flow nonce) = true).
  { unfold csrf_payload, str_of_int. replace (issued <? 0) with false by lia.
    by rewrite !is_ascii_app, Hda, Hfa, Hna. }
  pose proof (digits_bound issued ltac:(lia)) as Hdl.
  unfold verify_csrf_token. rewrite Htok.
  replace (256 <? _) with false.
  2:{ symmetry. apply Z.ltb_ge. unfold zlen in *. rewrite !length_app. simpl. rewrite !length_app. simpl.
      rewrite !length_app. simpl. rewrite !length_app. simpl. lia. }
  replace (_contains_forbidden_header_characters _) with false.
  2:{ repeat (rewrite forbidden_app || rewrite forbidden_cons). by rewrite Hdc, Hfc, Hnc, Hsc. }
  cbn [orb]. rewrite split_five; [|exact (bool_decide_eq_true_1 (46 ∉ u "v2") eq_refl)|done|done|done].
  rewrite py_int_digits by lia. rewrite Hf. unfold str_eqb at 1. rewrite bool_decide_true by done.
  rewrite (bool_decide_false (nonce = [])); [|intros ->; unfold zlen in Hlen; simpl in Hlen; lia].
  replace (64 <? zlen nonce) with false by lia. cbn [negb orb].
  destruct (_ || _); [done|].
  unfold _csrf_signature, ascii_encode. rewrite Hpa. cbn [mbind result_mbind result_bind].
  fold sig. unfold compare_digest. rewrite Hsa. cbn [andb mbind result_mbind result_bind].
  unfold str_eqb. by rewrite bool_decide_true.
Qed.

Lemma csrf_signature_ok key p s : _csrf_signature key p = Ok s →
  is_ascii p = true ∧ s = _b64encode (hmac_sha256 key p).
Proof. unfold _csrf_signature, ascii_encode. destruct (is_ascii p); [|done]. by intros [= <-]. Qed.

Lemma str_of_int_dotless n : dotless (str_of_int n).
Proof.
  unfold str_of_int. case_match; [apply not_elem_of_cons; split; [done|]|];
    by apply token_text, digits_text; lia.
Qed.

(** A token the process makes is cut at its own parts. *)
Lemma split_full alnum key issued f n : flow_ok alnum f = true → dotless n →
  split_max 4 46 (full_token key issued f n) =
  [u "v2"; str_of_int issued; f; n; _b64encode (hmac_sha256 key (csrf_payload issued f n))].
Proof.
  intros Hf Hn. destruct (flow_text _ _ Hf) as (Hfd & _ & _). unfold full_token at 1.
  set (sig := _b64encode _). unfold csrf_payload.
  replace ((u "v2." ++ str_of_int issued ++ [46] ++ f ++ [46] ++ n) ++ [46] ++ sig) with
    (u "v2" ++ 46 :: str_of_int issued ++ 46 :: f ++ 46 :: n ++ 46 :: sig)
    by (change (u "v2.") with (u "v2" ++ [46]); by repeat (rewrite <-app_assoc || rewrite <-app_comm_cons)).
  apply split_five; [exact (bool_decide_eq_true_1 (46 ∉ u "v2") eq_refl)|apply str_of_int_dotless|done|done].
Qed.

Lemma verify_parts digit alnum token key max_age now n i f :
  verify_csrf_token digit alnum token key max_age now = Ok (Some (n, i, f)) →
  ∃ v t s, split_max 4 46 token = [v; t; f; n; s].
Proof.
  unfold verify_csrf_token. case_match; [done|].
  destruct (split_max 4 46 token) as [|v [|t [|f' [|n' [|s [|]]]]]]; try done.
  do 3 (case_match; try done). intros Hv. apply result_bind_ok in Hv as (sig & _ & Hv).
  apply result_bind_ok in Hv as ([] & _ & Hv); [|done]. injection Hv as -> -> ->. by exists v, t, s.
Qed.

(** Whenever a token verifies, it verifies to the same parts. *)
Lemma verify_same digit alnum token key max_age now n i f max_age' now' n' i' f' :
  verify_csrf_token digit alnum token key max_age now = Ok (Some (n, i, f)) →
  verify_csrf_token digit alnum token key max_age' now' = Ok (Some (n', i', f')) →
  n = n' ∧ i = i' ∧ f = f'.
Proof.
  unfold verify_csrf_token. destruct (_ || _); [done|].
  destruct (split_max 4 46 token) as [|v [|t [|g [|m [|s [|]]]]]]; try done.
  destruct (py_int digit t) as [j|]; [|done]. destruct (_ || _); [done|].
  assert (H : ∀ (b : bool) r, (if b then Ok None else
      expected ← _csrf_signature key (csrf_payload j g m);
      same ← compare_digest s expected;
      Ok (if same : bool then Some (m, j, g) else None)) = Ok (Some r) → r = (m, j, g)).
  { intros b r. destruct b; [done|]. intros H. apply result_bind_ok in H as (sig & _ & H).
    apply result_bind_ok in H as ([] & _ & H); [|done]. by injection H. }
  intros [= -> -> ->]%H [= -> -> ->]%H. done.
Qed.

Section Making.
Context {R : Type} (src : sources).
Notation world := (@world R).

Lemma run_new_token key flow (w : world) token w' :
  new_csrf_token src key flow w = (Ok token, w') →
  ∃ f nonce, token = full_token key (time src (wall_reads w)) f nonce ∧
    flow_ok (unicode_alnum src) f = true ∧ is_ascii f = true ∧
    (∀ g, flow = Some g → f = g) ∧
    (∃ i, nonce = _b64encode (token_bytes src i 24)) ∧
    reg w' = reg w ∧ outside w' = outside w ∧ monotonic_reads w' = monotonic_reads w ∧
    wall_reads w' = S (wall_reads w).
Proof.
  intros H. unfold new_csrf_token, now_wall, token_urlsafe, draw, mbind, eff_mbind, eff_bind, lift,
    mret, eff_ret, throw in H.
  destruct flow as [g|]; cbn -[csrf_payload _csrf_signature _b64encode] in H;
    destruct (flow_ok _ _) eqn:Hok; cbn -[csrf_payload _csrf_signature _b64encode] in H;
    try discriminate H;
    destruct (_csrf_signature _ _) as [sig|] eqn:Hs; try discriminate H;
    injection H as <- <-; apply csrf_signature_ok in Hs as [Ha ->];
    (eexists _, _; split; [reflexivity|]; split_and!; try done;
      first [by unfold csrf_payload in Ha; rewrite !is_ascii_app, !andb_true_iff in Ha; tauto
            |by intros ? [= <-]|by eauto]).
Qed.
End Making.

(** A token the process makes verifies to its own nonce, time of
    issue and flow exactly while it is fresh: not more than [max_age] seconds
    old, nor issued more than a minute in the future. *)
Theorem csrf_token_roundtrip {R} (src : sources) key flow (w : @world R) token w' :
  (∀ i, zlen (token_bytes src i 24) = 24) → 0 < time src (wall_reads w) < 2 ^ 64 →
  new_csrf_token src key flow w = (Ok token, w') →
  ∃ nonce f, (∀ g, flow = Some g → f = g) ∧ zlen nonce = 32 ∧ ∀ max_age now,
    verify_csrf_token (unicode_digit src) (unicode_alnum src) token key max_age now =
    Ok (if (now + 60 <? time src (wall_reads w)) || (max_age <? now - time src (wall_reads w))
        then None else Some (nonce, time src (wall_reads w), f)).
Proof.
  intros Hlen Ht H. apply run_new_token in H as (f & nonce & -> & Hf & Ha & Hg & (i & Hn) & _).
  exists nonce, f. assert (Hnl : zlen nonce = 32) by (rewrite Hn, length_b64encode, Hlen; done).
  split; [done|]. split; [done|]. intros max_age now.
  apply verify_full; try done; [by rewrite Hn; apply b64encode_alphabet|lia].
Qed.

(** A token that verifies is the version, the time, the flow and the
    nonce it is read as, followed by the keyed signature of exactly these; it
    is fresh and its parts are within their bounds. *)
Theorem csrf_token_authentic digit alnum token key max_age now nonce issued flow :
  verify_csrf_token digit alnum token key max_age now = Ok (Some (nonce, issued, flow)) →
  ∃ text, token = u "v2" ++ 46 :: text ++ 46 :: flow ++ 46 :: nonce ++ 46 ::
      _b64encode (hmac_sha256 key (csrf_payload issued flow nonce)) ∧
    py_int digit text = Some issued ∧
    issued ≤ now + 60 ∧ now - issued ≤ max_age ∧
    0 < zlen nonce ≤ 64 ∧ 16 ≤ zlen flow ≤ 32 ∧ is_ascii (csrf_payload issued flow nonce) = true.
Proof.
  unfold verify_csrf_token. destruct (_ || _) eqn:E0; [done|].
  destruct (split_max 4 46 token) as [|v [|t [|f [|n [|s [|]]]]]] eqn:Hs; try done.
  apply split_max_five in Hs. destruct (py_int _ _) as [i|] eqn:Hi; [|done].
  destruct (negb (str_eqb v (u "v2")) || _ || _ || _) eqn:E1; [done|].
  destruct ((now + 60 <? i) || _) eqn:E2; [done|]. intros H.
  apply result_bind_ok in H as (sig & Hsig & H). apply csrf_signature_ok in Hsig as [Ha ->].
  apply result_bind_ok in H as (same & Hc & H). unfold compare_digest in Hc.
  destruct (_ && _); [|done]. injection Hc as <-. destruct (str_eqb s _) eqn:Heq; [|done].
  injection H as -> -> ->. apply orb_false_iff in E2 as [E2 E3].
  rewrite !orb_false_iff in E1. destruct E1 as [[[Hv Hf] Hn] Hl].
  rewrite negb_false_iff in Hv, Hf. apply bool_decide_eq_true in Hv as ->, Heq as ->.
  apply bool_decide_eq_false in Hn. destruct (flow_text _ _ Hf) as (_ & _ & Hfl).
  exists t. split_and!; try done; try lia. destruct nonce; [done|]. unfold zlen. simpl. lia.
Qed.

(** A token whose signature is not ASCII is not refused with None: comparing
    it raises [TypeError]. *)
Lemma csrf_signature_not_ascii digit alnum key :
  verify_csrf_token digit alnum
    (u "v2.1700000000.aaaaaaaaaaaaaaaa.n." ++ [233]) key 28800 1700000000 = Err TypeError.
Proof. reflexivity. Qed.

(** Nor is one whose nonce is not ASCII: encoding the payload raises
    [UnicodeEncodeError]. *)
Lemma csrf_nonce_not_ascii digit alnum key :
  verify_csrf_token digit alnum
    (u "v2.1700000000.aaaaaaaaaaaaaaaa." ++ [233] ++ u ".s") key 28800 1700000000
  = Err UnicodeEncodeError.
Proof. reflexivity. Qed.
