(* ===== verification/CsrfGate.v ===== *)
(** * The CSRF gate: theorems about [security_middleware]

    The handler of a write runs only behind all the checks and after its token
    has been spent; the same token never admits a second write. *)

From S2P Require Import Prelude Text Errors Totp Identity Dict Http Security Csrf CsrfMiddleware CsrfSpecs.

#[local] Set Default Proof Using "Type*".

Section Gate.
Context {R : Type} (src : sources) (d : deployment).
Notation world := (@world R).
Notation M := (@M R).
Context (read_form : http_request → M (option (list (list Z * form_value)))).

Notation check_write := (check_write src d read_form).
Notation middleware := (middleware src d read_form).
Notation verify token now :=
  (verify_csrf_token (unicode_digit src) (unicode_alnum src) token (csrf_key d) (csrf_max_age (config d)) now).

Lemma bind_run {A B} (m : M A) (f : A → M B) w :
  (m ≫= f) w = match m w with (Ok a, w') => f a w' | (Err e, w') => (Err e, w') end.
Proof. done. Qed.

Lemma bind_ok {A B} (m : M A) (f : A → M B) w b w' :
  (m ≫= f) w = (Ok b, w') → ∃ a w1, m w = (Ok a, w1) ∧ f a w1 = (Ok b, w').
Proof. rewrite bind_run. destruct (m w) as [[a|e] w1]; [eauto|done]. Qed.

Lemma lift_ok {A} (r : result exc A) w a w' :
  (lift r : M A) w = (Ok a, w') → r = Ok a ∧ w' = w.
Proof. by intros [= -> ->]. Qed.

(** What the rejections return is never [inr]. *)
Lemma inl_only {A B} (m : M A) w (b : B) w' :
  (r ← m; mret (inl r : A + B)) w = (Ok (inr b), w') → False.
Proof. intros H. by apply bind_ok in H as (a & w1 & _ & [=]). Qed.

(** The checks passed: [w1] is the world with the submitted token read, and
    between it and [w'] a new token was made and the old nonce spent. *)
Record admitted (request : http_request) (b key flow t nonce : list Z) (w w' : world)
    (replacement new_nonce : list Z) (w1 : world) (now : Z) : Prop := {
  adm_method : q_method request = u "POST";
  adm_origin : same_origin src d request = Ok true;
  adm_fetch : fetch_site_bad request = false;
  adm_content : content_type_bad request = false;
  adm_submitted : _submitted_csrf_token read_form request w = (Ok (Some t), w1);
  adm_rotate : rotate now b key nonce new_nonce (reg w1) = (Ok true, reg w');
  adm_new : ∃ i, new_nonce = _b64encode (token_bytes src i 24) }.

Lemma token_parts_world token (w : world) p w' :
  token_parts src d token w = (Ok p, w') →
  reg w' = reg w ∧ outside w' = outside w ∧ ∃ issued,
    verify token (time src (wall_reads w)) = Ok (Some (p.1, issued, p.2)).
Proof.
  intros H. unfold token_parts in H. apply bind_ok in H as (v & w1 & H & Hv).
  unfold verify_now in H. apply bind_ok in H as (now & w2 & Hn & H). injection Hn as <- <-.
  apply lift_ok in H as [H ->]. destruct v as [[[n i] f]|]; [|done]. injection Hv as <- <-.
  split_and!; try done. by exists i.
Qed.

(** A token just made is read as its own nonce. *)
Lemma new_token_parts flow (w : world) token w1 p w2 :
  new_csrf_token src (csrf_key d) flow w = (Ok token, w1) →
  token_parts src d token w1 = (Ok p, w2) →
  reg w2 = reg w ∧ outside w2 = outside w ∧ ∃ i, p.1 = _b64encode (token_bytes src i 24).
Proof.
  intros Hn Hp. apply run_new_token in Hn as (f & n & Ht & Hok & _ & _ & (i & Hi) & H1 & H2 & _).
  apply token_parts_world in Hp as (H3 & H4 & (issued & Hv)).
  split_and!; [congruence|congruence|]. exists i. rewrite <-Hi.
  destruct (verify_parts _ _ _ _ _ _ _ _ _ Hv) as (v & t & s & Hs). rewrite Ht in Hs.
  rewrite (split_full (unicode_alnum src)) in Hs; [congruence|done|].
  rewrite Hi. apply token_text, b64encode_alphabet.
Qed.

(** Passing the checks of a write. *)
Lemma check_write_passed request scope flow b key cookie w replacement w' :
  check_write request scope flow b key cookie w = (Ok (inr replacement), w') →
  ∃ t nonce new_nonce w1 now, cookie = Some (t, nonce) ∧
    admitted request b key flow t nonce w w' replacement new_nonce w1 now.
Proof.
  unfold CsrfMiddleware.check_write.
  destruct (negb (str_eqb (q_method request) (u "POST"))) eqn:Em; [by intros H%inl_only|].
  intros H. apply bind_ok in H as (origin_ok & w0 & Ho & H). apply lift_ok in Ho as [Ho ->].
  destruct (negb origin_ok || fetch_site_bad request) eqn:Eo; [by apply inl_only in H|].
  destruct cookie as [[t nonce]|]; [|by apply inl_only in H].
  destruct (content_type_bad request) eqn:Ec; [by apply inl_only in H|].
  destruct (_submitted_csrf_token read_form request w) as [[submitted|e] w1] eqn:Es;
    [|destruct (is_http e); [by apply inl_only in H|done]].
  apply bind_ok in H as (same & w2 & Hsame & H).
  destruct same; cbn [negb] in H; [|by apply inl_only in H].
  destruct submitted as [t'|]; [|done]. apply lift_ok in Hsame as [Hsame ->].
  apply bind_ok in H as (token & w3 & Ht & H). apply bind_ok in H as ([n' f'] & w4 & Hp & H).
  destruct (new_token_parts _ _ _ _ _ _ Ht Hp) as (Hreg & _ & Hfresh).
  apply bind_ok in H as (rotated & w5 & Hr & H).
  destruct rotated; cbn [negb] in H; [|by apply inl_only in H]. injection H as -> ->.
  unfold states_rotate in Hr. apply bind_ok in Hr as (now & w6 & Hn & Hr). injection Hn as <- <-.
  unfold on_registry in Hr. simpl in Hr. rewrite Hreg in Hr.
  destruct (rotate _ _ _ _ _ _) as [r s] eqn:Erot. injection Hr as -> <-.
  exists t, nonce, n', w1, (monotonic src (monotonic_reads w4)). split; [done|].
  apply orb_false_iff in Eo as [Eo Ef]. apply negb_false_iff in Eo, Em. subst origin_ok.
  apply bool_decide_eq_true in Em. split; try done.
  unfold compare_digest in Hsame. destruct (_ && _); [|done]. injection Hsame as Heq.
  by apply bool_decide_eq_true in Heq as ->.
Qed.

(** The outcome is the same for every handler: the handler is not run. *)
Definition fixed {A} (F : @handler_type R → A) : Prop := ∃ out, ∀ handler, F handler = out.
Definition handler_not_run (request : http_request) (w : world) : Prop :=
  fixed (λ handler, middleware handler request w).

Lemma fixed_const {A} (a : A) : fixed (λ _, a).
Proof. by exists a. Qed.

Lemma fixed_bind {A B} (m : M A) (g : handler_type → A → M B) w (Q : Prop) :
  (∀ a w1, m w = (Ok a, w1) → fixed (λ h, g h a w1) ∨ Q) → fixed (λ h, (m ≫= g h) w) ∨ Q.
Proof.
  intros H. destruct (m w) as [[a|e] w1] eqn:Hm.
  - destruct (H a w1) as [[out Ho]|HQ]; [done| |by right].
    left. exists out. intros h. rewrite bind_run, Hm. apply Ho.
  - left. exists (Err e, w1). intros h. by rewrite bind_run, Hm.
Qed.

(** What follows the checks: the handler, then the cookie and the scope. *)
Definition after_checks (handler : handler_type) (request : http_request) (scope : CsrfScope)
    (flow replacement : list Z) : M http_response :=
  '(r, request') ← run_handler handler (with_csrf (Some replacement) request);
  finish_write src d scope flow replacement request' r.

Lemma verify_now_run token (w : world) :
  (verify_now src d token w).1 = verify token (time src (wall_reads w)) ∧
  reg (verify_now src d token w).2 = reg w ∧ outside (verify_now src d token w).2 = outside w.
Proof. unfold verify_now. rewrite bind_run. by split_and!. Qed.

Lemma write_gate request w :
  is_safe_method (q_method request) = false →
  handler_not_run request w ∨
  host_ok src d request = true ∧
  ∃ scope t nonce issued flow b key w0 w1 w2 replacement new_nonce now,
    request_scope d request = Ok scope ∧
    get_cookie (csrf_cookie_name (config d)) request = Some t ∧
    verify t (time src (wall_reads w)) = Ok (Some (nonce, issued, flow)) ∧
    state_identity d scope flow = Ok (b, key) ∧
    reg w0 = reg w ∧ outside w0 = outside w ∧
    admitted (with_csrf (Some t) request) b key flow t nonce w0 w2 replacement new_nonce w1 now ∧
    ∀ handler, middleware handler request w = after_checks handler request scope flow replacement w2.
Proof.
  intros Hm. unfold handler_not_run, CsrfMiddleware.middleware.
  destruct (host_ok src d request) eqn:Hh; cbn [negb]; [|left; apply fixed_const].
  rewrite Hm. cbn [andb].
  apply fixed_bind. intros scope w0 Hs. apply lift_ok in Hs as [Hs ->].
  apply fixed_bind. intros verified w0 Hv.
  apply fixed_bind. intros flow w0' Hf.
  apply fixed_bind. intros [b key] w0'' Hk. apply lift_ok in Hk as [Hk ->].
  unfold write_request.
  apply fixed_bind. intros token w3 Htoken. 
  apply fixed_bind. intros [r|replacement] w2 Hc; [left; apply fixed_const|].
  right. pose proof Hc as Hpass.
  apply check_write_passed in Hpass as (t & nonce & new_nonce & w1 & now & Hcookie & Hadm).
  destruct verified as [[[n issued] f]|]; [|done].
  destruct (get_cookie (csrf_cookie_name (config d)) request) as [t'|] eqn:Ht; [|done].
  injection Hcookie as -> ->. injection Hf as -> <-. injection Htoken as <- <-.
  assert (Hver : verify t (time src (wall_reads w)) = Ok (Some (nonce, issued, flow)) ∧
    reg w0 = reg w ∧ outside w0 = outside w).
  { pose proof (verify_now_run t w) as (H1 & H2 & H3). unfold verified_cookie in Hv.
    rewrite Ht in Hv. destruct t as [|c t]; [done|].
    rewrite Hv in H1, H2, H3. done. }
  destruct Hver as (Hver & Hreg & Hout). split; [done|].
  exists scope, t, nonce, issued, flow, b, key, w0, w1, w2, replacement, new_nonce, now.
  split_and!; try done. intros h.
  rewrite bind_run, Hs. cbn [lift]. rewrite bind_run, Hv. rewrite bind_run. cbn [mret eff_ret].
  rewrite bind_run, Hk. cbn [lift]. rewrite bind_run. cbn [mret eff_ret]. by rewrite bind_run, Hc.
Qed.

(** C15: the handler of a state-changing request runs only when the request
    has exactly one allowed Host, is a POST from the same origin with the right
    content type, carries in its cookie a token of this process that verifies,
    submits that same token, and its nonce is current: the nonce is spent
    before the handler starts, in the world [w2]. *)
Theorem csrf_gate request w :
  is_safe_method (q_method request) = false → ¬ handler_not_run request w →
  host_ok src d request = true ∧ q_method request = u "POST" ∧
  same_origin src d request = Ok true ∧ fetch_site_bad request = false ∧
  content_type_bad request = false ∧
  ∃ scope t nonce issued flow b key w0 w1 w2 new_nonce now,
    request_scope d request = Ok scope ∧
    get_cookie (csrf_cookie_name (config d)) request = Some t ∧
    verify t (time src (wall_reads w)) = Ok (Some (nonce, issued, flow)) ∧
    state_identity d scope flow = Ok (b, key) ∧ reg w0 = reg w ∧
    _submitted_csrf_token read_form (with_csrf (Some t) request) w0 = (Ok (Some t), w1) ∧
    rotate now b key nonce new_nonce (reg w1) = (Ok true, reg w2) ∧
    ∃ replacement, ∀ handler,
      middleware handler request w = after_checks handler request scope flow replacement w2.
Proof.
  intros Hm Hrun. destruct (write_gate request w Hm) as [Hn|(Hh & scope & t & nonce & issued & flow
    & b & key & w0 & w1 & w2 & replacement & new_nonce & now & H1 & H2 & H3 & H4 & H5 & _ & Ha & H6)];
    [done|].
  destruct Ha as [Ha1 Ha2 Ha3 Ha4 Ha5 Ha6 _]. split_and!; [done..|].
  exists scope, t, nonce, issued, flow, b, key, w0, w1, w2, new_nonce, now.
  split_and!; try done. by exists replacement.
Qed.

(** Reading a body, other requests run registry operations in [P] only. *)
Definition body_runs (P : csrf_op → Prop) : Prop :=
  ∀ q w, ∃ ops, reg (read_form q w).2 = run_ops ops (reg w) ∧ Forall (λ op, P op.2) ops.

Lemma submitted_runs P request w : body_runs P →
  ∃ ops, reg (_submitted_csrf_token read_form request w).2 = run_ops ops (reg w) ∧
    Forall (λ op, P op.2) ops.
Proof.
  intros Hb. unfold _submitted_csrf_token.
  destruct (getall _ _) as [|[|c t] [|]]; try (by exists []);
    (destruct (str_eqb _ _); [|by exists []]); rewrite bind_run;
    destruct (Hb request w) as (ops & Hr & Hops); exists ops; (split; [|done]); rewrite <-Hr;
    destruct (read_form request w) as [[[fields|]|e] w']; try done;
    by destruct ((filter _ fields).*2) as [|[] []].
Qed.

Lemma run_ops_keys ops s : keys_ok s → keys_ok (run_ops ops s).
Proof.
  revert s. induction ops as [|[now op] ops IH]; intros s Hs; [done|]. by apply IH, apply_op_keys.
Qed.

(** C6: two writes carry the same token in the same scope.  When the
    handler of the first has run, the handler of the second never does, at any
    later time and whatever other requests do to the registry in between or
    while its body is read, as long as none of them draws the spent nonce
    again. *)
Theorem csrf_replay_rejected request request' t w :
  is_safe_method (q_method request) = false → is_safe_method (q_method request') = false →
  get_cookie (csrf_cookie_name (config d)) request = Some t →
  get_cookie (csrf_cookie_name (config d)) request' = Some t →
  request_scope d request' = request_scope d request →
  keys_ok (reg w) → body_runs (λ _, True) → ¬ handler_not_run request w →
  ∃ key nonce new_nonce scope flow replacement w2,
    (∀ handler,
      middleware handler request w = after_checks handler request scope flow replacement w2) ∧
    (new_nonce ≠ nonce → body_runs (λ op, ¬ installs key nonce op) → ∀ ops w3,
      reg w3 = run_ops ops (reg w2) → Forall (λ op, ¬ installs key nonce op.2) ops →
      handler_not_run request' w3).
Proof.
  intros Hm Hm' Hc Hc' Hsc Hk Hbody Hrun.
  destruct (write_gate request w Hm) as [Hn|(_ & scope & t0 & nonce & issued & flow
    & b & key & w0 & w1 & w2 & replacement & new_nonce & now & Hs & Ht & Hv & Hid & Hreg & _ & Ha & H6)];
    [done|]. rewrite Hc in Ht. injection Ht as <-.
  exists key, nonce, new_nonce, scope, flow, replacement, w2. split; [done|].
  intros Hne Hbody' ops w3 Hw3 Hops. destruct Ha as [_ _ _ _ Hsub Hrot _].
  destruct (submitted_runs _ (with_csrf (Some t) request) w0 Hbody) as (ops0 & Hr0 & _).
  rewrite Hsub in Hr0. simpl in Hr0.
  apply rotate_spends in Hrot as (Hsp & _ & _); [|rewrite Hr0, Hreg; by apply run_ops_keys|done].
  apply (spent_run ops) in Hsp; [|done]. rewrite <-Hw3 in Hsp.
  destruct (write_gate request' w3 Hm') as [|(_ & scope' & t' & nonce' & issued' & flow'
    & b' & key' & w0' & w1' & w2' & replacement' & new_nonce' & now' & Hs' & Ht' & Hv' & Hid'
    & Hreg' & _ & Ha' & _)]; [done|].
  rewrite Hc' in Ht'. injection Ht' as <-. rewrite Hsc, Hs in Hs'. injection Hs' as <-.
  destruct (verify_same _ _ _ _ _ _ _ _ _ _ _ _ _ _ Hv Hv') as (<- & <- & <-).
  rewrite Hid in Hid'. injection Hid' as <- <-. destruct Ha' as [_ _ _ _ Hsub' Hrot' _].
  destruct (submitted_runs _ (with_csrf (Some t) request') w0' Hbody') as (ops1 & Hr1 & Hops1).
  rewrite Hsub', Hreg' in Hr1. simpl in Hr1. apply (spent_run ops1) in Hsp; [|done].
  rewrite <-Hr1 in Hsp. pose proof (spent_refused key nonce now' _ Hsp) as Href.
  unfold rotate in Hrot'. by destruct (holds_nonce _ _ _) as [[]|].
Qed.
End Gate.

(** * A concrete installation of the CSRF middleware

    The process the witnesses run in: clocks that advance one second per
    reading, a random source whose n-th draw repeats the byte n, one allowed
    host.  [demo_post] submits the token that a first GET was given. *)

From S2P Require Import Prelude Text Errors Totp Dict Http Security Csrf CsrfMiddleware CsrfSpecs.

#[local] Set Default Proof Using "Type".

Definition demo_net : netlib :=
  NetLib (λ s, s) (λ _, true) (λ _, Err UnicodeError) (λ _, false).

Definition demo_sources : sources :=
  MkSources (λ n, 1700000000 + Z.of_nat n) (λ n, Z.of_nat n * NANOSECONDS)
    (λ i n, replicate (Z.to_nat n) (Z.of_nat i mod 256)) (λ _, None) (λ _, false) demo_net.

Definition demo_config : SecurityConfig :=
  MkSecurityConfig [u "mail.example.org"] (replicate 32 7) [] true (u "__Host-maddyweb-csrf")
    28800 15000.

Definition demo_start : @world unit :=
  MkWorld (MkCsrfStore 1 1 1 []) 0 0 0 tt.

Definition demo_install : result exc deployment * @world unit :=
  security_middleware demo_sources demo_config None 4096 8 [u "/healthz"] demo_start.

Definition demo_deployment : deployment :=
  match demo_install with
  | (Ok d, _) => d
  | _ => MkDeployment demo_config None [] []
  end.

Definition demo_form : http_request → @M unit (option (list (list Z * form_value))) :=
  λ _, mret None.

Definition demo_request (method path : list Z) (extra : header_table) (cookies_ : list (list Z * list Z))
    (content : list Z) : http_request :=
  MkHttpRequest method path (u "https") (u "mail.example.org") (Some (u "192.0.2.7"))
    ((u "Host", u "mail.example.org") :: extra) cookies_ content None [].

(** A handler that answers with one status. *)
Definition demo_handler (code : Z) : @handler_type unit :=
  λ q, mret (inl (MkHttp code None None [] []), q).

Definition demo_get_run : result exc http_response * @world unit :=
  middleware demo_sources demo_deployment demo_form (demo_handler 200)
    (demo_request (u "GET") (u "/api/v1/session") [] [] []) demo_install.2.

Definition demo_world : @world unit := demo_get_run.2.

Definition demo_token : list Z :=
  match demo_get_run with
  | (Ok r, _) => default [] (cookie_value <$> (snd <$> head (cookies r)))
  | _ => []
  end.

Definition demo_post : http_request :=
  demo_request (u "POST") (u "/api/v1/logout")
    [(u "Origin", u "https://mail.example.org"); (u "Content-Type", u "application/json");
     (u "X-CSRF-Token", demo_token)]
    [(u "__Host-maddyweb-csrf", demo_token)] (u "application/json").

Definition demo_post_run (code : Z) : result exc http_response * @world unit :=
  middleware demo_sources demo_deployment demo_form (demo_handler code) demo_post demo_world.

Definition status_of (r : result exc http_response * @world unit) : option Z :=
  match r.1 with Ok r => Some (status r) | Err _ => None end.

Lemma demo_post_statuses :
  status_of (demo_post_run 200) = Some 200 ∧ status_of (demo_post_run 201) = Some 201.
Proof. split; vm_compute; reflexivity. Qed.

Lemma demo_post_runs :
  ¬ handler_not_run demo_sources demo_deployment demo_form demo_post demo_world.
Proof.
  intros [out Hout]. destruct demo_post_statuses as [H1 H2].
  unfold demo_post_run in H1, H2. rewrite Hout in H1, H2. congruence.
Qed.

(** ** Witnesses *)

Definition demo_store : CurrentCsrfStore :=
  store_current 0 (u "base") (u "key") (u "first") (MkCsrfStore 2 1 60 []).

Lemma demo_store_keys : keys_ok demo_store.
Proof. apply (bool_decide_unpack _). vm_compute. exact I. Qed.

Lemma csrf_single_use_witness :
  ∃ s', rotate 1 (u "base") (u "key") (u "first") (u "second") demo_store = (Ok true, s') ∧
    (rotate 9 (u "base") (u "key") (u "first") (u "fourth")
       (run_ops [(2, OpRotate (u "base") (u "key") (u "second") (u "third"))] s')).1 ≠ Ok true.
Proof.
  eexists. split; [vm_compute; reflexivity|].
  eapply (csrf_single_use 1 (u "base") (u "key") (u "first") (u "second") demo_store);
    [apply demo_store_keys|vm_compute; reflexivity|done|].
  constructor; [|constructor]. simpl. intros [_ H]. discriminate H.
Defined.

Lemma csrf_registry_bounded_witness :
  registry_ok (λ _, u "base")
    (run_ops [(1, OpReplace (u "base") (u "k1") (u "n1")); (2, OpReplace (u "base") (u "k2") (u "n2"));
              (3, OpReplace (u "base") (u "k3") (u "n3"))] (MkCsrfStore 2 1 60 [])).
Proof.
  apply csrf_registry_bounded; [|repeat constructor].
  split_and!; [apply NoDup_nil_2|vm_compute; done|vm_compute; done|vm_compute; done|constructor|].
  intros b. vm_compute. discriminate.
Defined.

Lemma csrf_token_roundtrip_witness :
  ∃ token nonce f,
    (new_csrf_token demo_sources (replicate 32 1) None demo_start).1 = Ok token ∧
    verify_csrf_token (unicode_digit demo_sources) (unicode_alnum demo_sources) token
      (replicate 32 1) 28800 1700000005 = Ok (Some (nonce, 1700000000, f)).
Proof.
  destruct (new_csrf_token demo_sources (replicate 32 1) None demo_start) as [[token|e] w'] eqn:E.
  - exists token. destruct (csrf_token_roundtrip demo_sources (replicate 32 1) None demo_start token w')
      as (nonce & f & _ & _ & H); [intros i; reflexivity|split; vm_compute; reflexivity|exact E|].
    exists nonce, f. split; [reflexivity|]. rewrite (H 28800 1700000005). reflexivity.
  - exfalso. vm_compute in E. discriminate E.
Defined.

Lemma csrf_token_authentic_witness :
  ∃ nonce issued flow text,
    demo_token = u "v2" ++ 46 :: text ++ 46 :: flow ++ 46 :: nonce ++ 46 ::
      _b64encode (hmac_sha256 (csrf_key demo_deployment) (csrf_payload issued flow nonce)).
Proof.
  assert (∃ p, verify_csrf_token (λ _, None) (λ _, false) demo_token (csrf_key demo_deployment)
    28800 1700000010 = Ok (Some p)) as [[[nonce issued] flow] H]
    by (eexists; vm_compute; reflexivity).
  exists nonce, issued, flow.
  destruct (csrf_token_authentic _ _ _ _ _ _ _ _ _ H) as (text & Ht & _). by exists text.
Defined.

Lemma csrf_gate_witness :
  host_ok demo_sources demo_deployment demo_post = true ∧
  ∃ nonce key b new_nonce now (w1 w2 : @world unit),
    rotate now b key nonce new_nonce (reg w1) = (Ok true, reg w2).
Proof.
  destruct (csrf_gate demo_sources demo_deployment demo_form demo_post demo_world)
    as (H & _ & _ & _ & _ & scope & t & nonce & issued & flow & b & key & w0 & w1 & w2 & new_nonce
        & now & _ & _ & _ & _ & _ & _ & Hr & _); [vm_compute; reflexivity|apply demo_post_runs|].
  split; [exact H|]. by exists nonce, key, b, new_nonce, now, w1, w2.
Defined.

Lemma demo_form_runs P : body_runs demo_form P.
Proof. intros q w. by exists []. Qed.

Lemma csrf_replay_rejected_witness :
  ∃ (nonce new_nonce : list Z) (w2 : @world unit), new_nonce ≠ nonce →
    handler_not_run demo_sources demo_deployment demo_form demo_post w2.
Proof.
  destruct (csrf_replay_rejected demo_sources demo_deployment demo_form demo_post demo_post
    demo_token demo_world) as (key & nonce & new_nonce & scope & flow & replacement & w2 & _ & H);
    [vm_compute; reflexivity|vm_compute; reflexivity|vm_compute; reflexivity|vm_compute; reflexivity|done
    |apply (bool_decide_unpack _); vm_compute; exact I|apply demo_form_runs|apply demo_post_runs|].
  exists nonce, new_nonce, w2. intros Hne. by apply (H Hne (demo_form_runs _) [] w2).
Defined.

(** The second submission of the token is refused. *)
Lemma demo_replay_status :
  status_of (middleware demo_sources demo_deployment demo_form (demo_handler 200) demo_post
               (demo_post_run 200).2) = Some 403.
Proof. vm_compute. reflexivity. Qed.
