(* ===== verification/Fs.v ===== *)
(** * One directory of a POSIX file system

    The system calls the snapshot code makes, on the directory it owns: an
    ordered table of names.  Every call may fail: [faults] says which, by its
    number in the order of calls; a failed write leaves any prefix of the data
    ([torn]).  [os.replace] is atomic.  Descriptors are not tracked apart from
    the name they were opened under. *)

From S2P Require Import Prelude Text Errors Dict.

Inductive file_kind : Type := KFile | KDir | KLink | KOther.
#[export] Instance file_kind_eq_dec : EqDecision file_kind.
Proof. solve_decision. Defined.

Record stat := MkStat {
  st_kind : file_kind; st_mode : Z; st_nlink : Z; st_uid : Z; st_gid : Z }.

Record inode := MkInode { i_stat : stat; i_data : list Z }.

Record fs := MkFs {
  dir_stat : option stat;
  names : list (list Z * inode);
  syscalls : nat }.

(** What the operating system decides. *)
Record kernel := MkKernel {
  faults : nat → bool;
  torn : nat → nat;
  temp_suffix : nat → list Z;
  link_resolves : nat → bool;
  euid : Z;
  egid : Z }.

Definition FS : Type → Type := eff fs exc.

Section Calls.
Context (os : kernel).

Definition bump (s : fs) : fs := MkFs (dir_stat s) (names s) (S (syscalls s)).
Definition with_names (e : list (list Z * inode)) (s : fs) : fs := MkFs (dir_stat s) e (syscalls s).

(** A call that either fails without effect or does [f]. *)
Definition syscall {A} (f : fs → result exc A * fs) : FS A := λ s,
  if faults os (syscalls s) then (Err OSError, bump s) else f (bump s).

Definition lstat_dir : FS stat :=
  syscall (λ s, (match dir_stat s with Some st => Ok st | None => Err FileNotFoundError end, s)).

Definition lstat (name : list Z) : FS stat :=
  syscall (λ s, (match od_get name (names s) with
                 | Some i => Ok (i_stat i) | None => Err FileNotFoundError end, s)).

(** [path.exists()], which follows a link, and [path.is_symlink()]: a failing
    call is a negative answer. *)
Definition exists_path (name : list Z) : FS bool := λ s,
  (Ok (negb (faults os (syscalls s)) &&
       match od_get name (names s) with
       | Some i => if decide (st_kind (i_stat i) = KLink) then link_resolves os (syscalls s) else true
       | None => false
       end), bump s).
Definition is_symlink (name : list Z) : FS bool := λ s,
  (Ok (negb (faults os (syscalls s)) &&
       match od_get name (names s) with
       | Some i => bool_decide (st_kind (i_stat i) = KLink)
       | None => false
       end), bump s).

Definition iterdir : FS (list (list Z)) := syscall (λ s, (Ok (names s).*1, s)).

Definition read_bytes (name : list Z) : FS (list Z) :=
  syscall (λ s, (match od_get name (names s) with
                 | Some i => Ok (i_data i) | None => Err FileNotFoundError end, s)).

Definition unlink (name : list Z) (missing_ok : bool) : FS unit :=
  syscall (λ s, match od_get name (names s) with
                | Some _ => (Ok tt, with_names (od_del name (names s)) s)
                | None => (if missing_ok then Ok tt else Err FileNotFoundError, s)
                end).

(** [tempfile.mkstemp]: a private empty file under a name not in use. *)
Definition mkstemp (prefix : list Z) : FS (list Z) :=
  syscall (λ s,
    let name := prefix ++ temp_suffix os (syscalls s) in
    if od_mem name (names s) then (Err FileExistsError, s)
    else (Ok name, with_names (names s ++
           [(name, MkInode (MkStat KFile 384 1 (euid os) (egid os)) [])]) s)).

Definition update_inode (name : list Z) (f : inode → inode) : FS unit :=
  syscall (λ s, (Ok tt, match od_get name (names s) with
                        | Some i => with_names (od_set name (f i) (names s)) s
                        | None => s
                        end)).

Definition fchmod (name : list Z) (mode : Z) : FS unit :=
  update_inode name (λ i, let st := i_stat i in
    MkInode (MkStat (st_kind st) mode (st_nlink st) (st_uid st) (st_gid st)) (i_data i)).
Definition fchown (name : list Z) (uid gid : Z) : FS unit :=
  update_inode name (λ i, let st := i_stat i in
    MkInode (MkStat (st_kind st) (st_mode st) (st_nlink st) uid gid) (i_data i)).

Definition set_data (data : list Z) (i : inode) : inode := MkInode (i_stat i) data.

(** Writing to a fresh file: a fault leaves a prefix. *)
Definition write (name : list Z) (data : list Z) : FS unit := λ s,
  let torn_write := faults os (syscalls s) in
  let written := if torn_write then take (torn os (syscalls s)) data else data in
  let e := match od_get name (names s) with
           | Some i => od_set name (set_data written i) (names s)
           | None => names s
           end in
  (if torn_write then Err OSError else Ok tt, with_names e (bump s)).

Definition fsync : FS unit := syscall (λ s, (Ok tt, s)).

(** [os.replace(source, target)]. *)
Definition replace_file (source target : list Z) : FS unit :=
  syscall (λ s, match od_get source (names s) with
                | Some i => (Ok tt, with_names (od_set target i (od_del source (names s))) s)
                | None => (Err FileNotFoundError, s)
                end).

(** [except BaseException: cleanup; raise]. *)
Definition on_error {A} (m : FS A) (cleanup : FS unit) : FS A := λ s,
  match m s with
  | (Ok a, s) => (Ok a, s)
  | (Err e, s) => match cleanup s with
                  | (Ok _, s) => (Err e, s)
                  | (Err e', s) => (Err e', s)
                  end
  end.
End Calls.
