(* ===== verification/Snapshots.v ===== *)
(** * Published filing rules: [rule_snapshots.py]

    One JSON document per account, in a directory only the program writes.
    [directory] is the text of the directory's path. *)

From S2P Require Import Prelude Text Errors Totp AuthCore Dict Json Fs.

Definition MAX_SNAPSHOT_BYTES : Z := 256 * 1024.
Definition SNAPSHOT_VERSION : Z := 1.
Definition json_suffix : list Z := u ".json".

Definition _SNAPSHOT_FILE_RE (name : list Z) : bool :=
  match_exact is_hex_lower 64 (take 64 name) && str_eqb (drop 64 name) json_suffix.

Definition rule_mapping : Type := list (list Z * json).

Definition snapshot_name (canonical_email : list Z) : result exc (list Z) :=
  if bool_decide (canonical_email = []) || negb (is_ascii canonical_email) then Err ValueError
  else Ok (hex (sha256 canonical_email) ++ json_suffix).

Definition snapshot_document (canonical_email : list Z) (rules : list rule_mapping) : json :=
  JObj [(u "version", JInt SNAPSHOT_VERSION); (u "account", JStr canonical_email);
        (u "rules", JArr (JObj <$> rules))].

Definition build_snapshot (canonical_email : list Z) (rules : list rule_mapping)
    : result exc (list Z) :=
  if 100 <? zlen rules then Err ValueError
  else match dumps true (snapshot_document canonical_email rules) ≫= utf8_encode with
       | None => Err ValueError
       | Some encoded =>
           if (2 <=? zlen encoded) && (zlen encoded <=? MAX_SNAPSHOT_BYTES)
           then Ok encoded else Err ValueError
       end.

Section Snapshots.
Context (os : kernel) (directory : list Z).
Context (py_float : list Z → pyfloat).
(** [json.loads] of bytes decodes UTF-16 and UTF-32 too, and lets lone
    surrogates through: the text of bytes that are not strict UTF-8. *)
Context (decode_lenient : list Z → option (list Z)).

Definition _require_snapshot_directory (writable : bool) : FS unit :=
  if negb (starts_with (u "/") directory) || str_eqb directory (u "/") then throw RuleSnapshotError
  else
    metadata ← lstat_dir os;
    if bool_decide (st_kind metadata ≠ KDir) then throw RuleSnapshotError
    else if negb (Z.land (st_mode metadata) 7 =? 0)
            || (writable && negb (st_uid metadata =? euid os)) then throw RuleSnapshotError
    else mret tt.

Definition private_file (st : stat) : bool :=
  bool_decide (st_kind st = KFile) && (st_nlink st =? 1) && (Z.land (st_mode st) 7 =? 0).

Definition _require_snapshot_file (name : list Z) : FS unit :=
  metadata ← lstat os name;
  if private_file metadata then mret tt else throw RuleSnapshotError.

Definition _sync_directory : FS unit := syscall os (λ s, (Ok tt, s)) ≫= λ _, fsync os.

Definition temp_prefix : list Z := u ".snapshot-".

(** The file is made ready under a temporary name, then moved into place. *)
Definition install_snapshot (group_id : option Z) (temporary target payload : list Z) : FS unit :=
  fchmod os temporary 416 ≫= λ _,
  match group_id with Some g => fchown os temporary 0 g | None => mret tt end ≫= λ _,
  write os temporary payload ≫= λ _,
  fsync os ≫= λ _,
  replace_file os temporary target ≫= λ _,
  _sync_directory ≫= λ _,
  _require_snapshot_file target ≫= λ _,
  data ← read_bytes os target;
  if str_eqb data payload then mret tt else throw RuleSnapshotError.

Definition publish_snapshot (canonical_email : list Z) (rules : list rule_mapping)
    (group_id : option Z) : FS (list Z) :=
  _require_snapshot_directory true ≫= λ _,
  payload ← lift (build_snapshot canonical_email rules);
  target ← lift (snapshot_name canonical_email);
  present ← exists_path os target;
  present ← (if present : bool then mret true else is_symlink os target);
  (if present : bool then _require_snapshot_file target else mret tt) ≫= λ _,
  temporary ← mkstemp os temp_prefix;
  on_error (install_snapshot group_id temporary target payload) (unlink os temporary true) ≫= λ _,
  mret target.

Definition remove_snapshot (canonical_email : list Z) : FS unit :=
  _require_snapshot_directory true ≫= λ _,
  target ← lift (snapshot_name canonical_email);
  present ← attempt (catches [FileNotFoundError]) (_require_snapshot_file target);
  match present with
  | None => mret tt
  | Some _ => unlink os target false ≫= λ _, _sync_directory
  end.

(** The entries of the directory the purge removes, and whether there is any
    other. *)
Fixpoint classify (entries : list (list Z)) : FS (list (list Z) * bool) :=
  match entries with
  | [] => mret ([], false)
  | name :: entries =>
      if negb (_SNAPSHOT_FILE_RE name) && negb (starts_with temp_prefix name) then
        '(l, _) ← classify entries; mret (l, true)
      else
        ok ← attempt (catches [FileNotFoundError; RuleSnapshotError]) (_require_snapshot_file name);
        '(l, unsafe) ← classify entries;
        mret (match ok with Some _ => (name :: l, unsafe) | None => (l, true) end)
  end.

Definition sorted_items {A} (l : list (list Z * A)) : list (list Z * A) :=
  merge_sort (λ a b, zlist_le a.1 b.1) l.

Definition replace_snapshot_set (snapshots : list (list Z * list rule_mapping))
    (group_id : option Z) : FS unit :=
  _require_snapshot_directory true ≫= λ _,
  prepared ← lift (result_map (λ ar, p ← build_snapshot ar.1 ar.2; mret (ar.1, p))
                     (sorted_items snapshots));
  entries ← iterdir os;
  '(existing, unsafe) ← classify entries;
  eff_iter (λ name, unlink os name false) existing ≫= λ _,
  _sync_directory ≫= λ _,
  if unsafe : bool then throw RuleSnapshotError
  else
    eff_iter (λ ar,
      path ← publish_snapshot ar.1 ar.2 group_id;
      data ← read_bytes os path;
      if bool_decide (od_get ar.1 prepared = Some data) then mret tt else throw RuleSnapshotError)
      (sorted_items snapshots).

(** [json.loads(data)] with [_unique_object]. *)
Definition json_text (data : list Z) : option (list Z) :=
  match data with
  | a :: b :: _ =>
      if (0 <? a) && (0 <? b) && (a <? 239) then
        match utf8_decode data with Some s => Some s | None => decode_lenient data end
      else decode_lenient data
  | _ => decode_lenient data
  end.

Definition snapshot_hooks : hooks :=
  Hooks default_int (λ s, Some (JFloat (py_float s))) default_constant unique_pairs.

(** [value != 1] in Python: the float 1.0 and True equal 1. *)
Definition version_is (v : json) : bool :=
  match v with
  | JInt z => z =? SNAPSHOT_VERSION
  | JBool b => b
  | JFloat (FFinite r) => str_eqb r (u "1.0")
  | _ => false
  end.

Definition document_keys : list (list Z) := [u "version"; u "account"; u "rules"].

Definition valid_document (canonical_email : list Z) (value : json) : option (list json) :=
  match value with
  | JObj kvs =>
      if forallb (λ k, bool_decide (k ∈ document_keys)) kvs.*1
         && forallb (λ k, bool_decide (k ∈ kvs.*1)) document_keys
      then match obj_get (u "version") kvs, obj_get (u "account") kvs, obj_get (u "rules") kvs with
           | Some v, Some (JStr a), Some (JArr rules) =>
               if version_is v && str_eqb a canonical_email && (zlen rules <=? 100)
               then Some rules else None
           | _, _, _ => None
           end
      else None
  | _ => None
  end.

(** The rules of the document; every other key of it is determined. *)
Definition load_snapshot (canonical_email : list Z) : FS (option (list json)) :=
  _require_snapshot_directory false ≫= λ _,
  path ← lift (snapshot_name canonical_email);
  data ← attempt (catches [FileNotFoundError])
           (_require_snapshot_file path ≫= λ _, read_bytes os path);
  match data with
  | None => mret None
  | Some data =>
      if negb ((2 <=? zlen data) && (zlen data <=? MAX_SNAPSHOT_BYTES)) then throw RuleSnapshotError
      else match json_text data ≫= loads snapshot_hooks with
           | None => throw RuleSnapshotError
           | Some value =>
               match valid_document canonical_email value with
               | Some rules => mret (Some rules)
               | None => throw RuleSnapshotError
               end
           end
  end.
End Snapshots.
