(* ===== verification/SnapshotSpecs.v ===== *)
(** * Published filing rules: theorems about single snapshots

    Publication is atomic under every pattern of failing system calls, and a
    published snapshot is read back. *)

From S2P Require Import Prelude Text Errors Totp AuthCore Dict Json JsonRound RuleDocSpecs Fs Snapshots.

#[local] Set Default Proof Using "Type*".

(** ** Reasoning about calls *)

Lemma wpf_on_error {A} (m : FS A) c (Q : A → fs → Prop) (X : exc → fs → Prop) s :
  wpf m Q (λ e, wpf c (λ _, X e) X) s → wpf (on_error m c) Q X s.
Proof.
  unfold wpf, on_error. destruct (m s) as [[a|e] s']; [done|]. by destruct (c s') as [[?|?] ?].
Qed.

Section Calls.
Context (os : kernel).

Definition file_at (k : list Z) (s : fs) : option inode := od_get k (names s).

(** Calls that only look. *)
Definition looks {A} (m : FS A) : Prop :=
  ∀ s, names (m s).2 = names s ∧ dir_stat (m s).2 = dir_stat s.

Lemma looks_syscall {A} (f : fs → result exc A * fs) :
  (∀ s, (f s).2 = s) → looks (syscall os f).
Proof. intros H s. unfold syscall. destruct (faults os _); [done|]. by rewrite H. Qed.
Lemma looks_bind {A B} (m : FS A) (f : A → FS B) : looks m → (∀ a, looks (f a)) → looks (m ≫= f).
Proof.
  intros Hm Hf s. unfold mbind, eff_mbind, eff_bind. specialize (Hm s).
  destruct (m s) as [[a|e] s1]; [|done]. destruct Hm as [H1 H2], (Hf a s1) as [H3 H4].
  simpl in *. by rewrite H3, H4.
Qed.
Lemma looks_attempt {A} (classes : exc → bool) (m : FS A) : looks m → looks (attempt classes m).
Proof.
  intros Hm s. unfold attempt. specialize (Hm s). destruct (m s) as [[a|e] s1]; [done|].
  by destruct (classes e).
Qed.

Lemma looks_require_file name : looks (_require_snapshot_file os name).
Proof. apply looks_bind; [by apply looks_syscall|]. intros st. by destruct (private_file st). Qed.
Lemma looks_require_dir directory w : looks (_require_snapshot_directory os directory w).
Proof.
  unfold _require_snapshot_directory. destruct (_ || _); [done|].
  apply looks_bind; [by apply looks_syscall|]. intros st. by repeat case_match.
Qed.
Lemma looks_sync : looks (_sync_directory os).
Proof. apply looks_bind; [|intros _]; by apply looks_syscall. Qed.
Lemma looks_read name : looks (read_bytes os name).
Proof. by apply looks_syscall. Qed.
Lemma looks_exists name : looks (exists_path os name).
Proof. done. Qed.
Lemma looks_symlink name : looks (is_symlink os name).
Proof. done. Qed.

Lemma wpf_looks {A} (m : FS A) (P : list (list Z * inode) → option stat → Prop) s :
  looks m → P (names s) (dir_stat s) →
  wpf m (λ _ s', P (names s') (dir_stat s')) (λ _ s', P (names s') (dir_stat s')) s.
Proof.
  intros Hm HP. unfold wpf. specialize (Hm s). destruct (m s) as [[a|e] s'], Hm as [H1 H2]; simpl in *;
    by rewrite H1, H2.
Qed.
End Calls.

(** ** Names *)

Lemma sha256_hex m : length (hex (sha256 m)) = 64%nat ∧ forallb is_hex_lower (hex (sha256 m)) = true.
Proof.
  split.
  - rewrite length_hex. unfold sha256. by repeat case_match.
  - apply hex_is_hex. unfold sha256. repeat case_match.
    apply Forall_join, Forall_fmap, Forall_forall. intros x _. apply be_split_range.
Qed.

Lemma snapshot_name_re email name : snapshot_name email = Ok name → _SNAPSHOT_FILE_RE name = true.
Proof.
  unfold snapshot_name. case_match; [done|]. intros [= <-]. destruct (sha256_hex email) as [Hl Hh].
  unfold _SNAPSHOT_FILE_RE, match_exact. rewrite take_app_length', drop_app_length' by done.
  unfold zlen. rewrite Hl, Hh. done.
Qed.

Definition is_temp (name : list Z) : bool := starts_with temp_prefix name.

Lemma snapshot_not_temp name : _SNAPSHOT_FILE_RE name = true → is_temp name = false.
Proof.
  destruct name as [|c name]; [done|]. unfold _SNAPSHOT_FILE_RE, match_exact.
  intros [[_ H]%andb_true_iff _]%andb_true_iff. simpl in H. apply andb_true_iff in H as [H _].
  unfold is_temp. destruct (decide (c = 46)) as [->|Hne]; [done|].
  change ((46 =? c) && starts_with (u "snapshot-") name = false).
  by replace (46 =? c) with false by lia.
Qed.

Lemma temp_is_temp r : is_temp (temp_prefix ++ r) = true.
Proof. unfold is_temp. generalize temp_prefix. intros p. induction p as [|c p IH]; [done|]. simpl. by rewrite Z.eqb_refl. Qed.

(** ** Publication *)

Section Publish.
Context (os : kernel) (directory : list Z).

(** Since [s0]: every name but [target] and the temporary ones holds the same
    file. *)
Definition others_kept (target : list Z) (s0 s : fs) : Prop :=
  dir_stat s = dir_stat s0 ∧
  ∀ k, k ≠ target → is_temp k = false → file_at k s = file_at k s0.

Definition target_old (target : list Z) (s0 s : fs) : Prop := file_at target s = file_at target s0.
Definition target_new (target payload : list Z) (s : fs) : Prop :=
  ∃ i, file_at target s = Some i ∧ i_data i = payload.

(** The temporary file as [install_snapshot] prepares it. *)
Definition preparing (temporary target : list Z) (ok : inode → Prop) (s0 s : fs) : Prop :=
  others_kept target s0 s ∧ target_old target s0 s ∧
  ∃ i, file_at temporary s = Some i ∧ ok i.

Definition stage (target payload : list Z) (s0 s : fs) : Prop :=
  others_kept target s0 s ∧ (target_old target s0 s ∨ target_new target payload s).

Lemma syscall_wpf {A} (f : FS A) Q (X : exc → fs → Prop) s :
  X OSError (bump s) → wpf f Q X (bump s) → wpf (syscall os f) Q X s.
Proof. intros HX Hf. unfold wpf, syscall. by destruct (faults os _). Qed.

Lemma preparing_update temporary target (ok ok' : inode → Prop) f s0 s :
  temporary ≠ target → is_temp temporary = true →
  preparing temporary target ok s0 s → (∀ i, ok i → ok' (f i)) →
  preparing temporary target ok' s0
    (match od_get temporary (names s) with
     | Some i => with_names (od_set temporary (f i) (names s)) s | None => s end).
Proof.
  intros Hne Ht ([Hd Ho] & Hold & i & Hi & Hok) Hf. unfold file_at in Hi. rewrite Hi.
  split_and!; [split|..].
  - done.
  - intros k Hk Hkt. unfold file_at. simpl. rewrite od_get_set, decide_False; [by apply Ho|].
    intros ->. congruence.
  - unfold target_old, file_at. simpl. rewrite od_get_set, decide_False; [done|]. congruence.
  - exists (f i). split; [|by apply Hf]. unfold file_at. simpl. by rewrite od_get_set, decide_True.
Qed.

Lemma preparing_stage temporary target payload ok s0 s :
  preparing temporary target ok s0 s → stage target payload s0 s.
Proof. intros (H1 & H2 & _). split; [done|by left]. Qed.

Lemma update_wpf temporary target payload (ok ok' : inode → Prop) f s0 s :
  temporary ≠ target → is_temp temporary = true → (∀ i, ok i → ok' (f i)) →
  preparing temporary target ok s0 s →
  wpf (update_inode os temporary f) (λ _, preparing temporary target ok' s0)
    (λ _, stage target payload s0) s.
Proof.
  intros Hne Ht Hf Hs. apply syscall_wpf.
  - eapply preparing_stage. exact Hs.
  - by apply (preparing_update _ _ ok ok' f).
Qed.

Lemma write_wpf temporary target payload (ok : inode → Prop) s0 s :
  temporary ≠ target → is_temp temporary = true → (∀ i, ok i → ok (set_data payload i)) →
  preparing temporary target ok s0 s →
  wpf (write os temporary payload)
    (λ _, preparing temporary target (λ i, ok i ∧ i_data i = payload) s0)
    (λ _, stage target payload s0) s.
Proof.
  intros Hne Ht Hf Hs. unfold wpf, write.
  set (w := if faults os (syscalls s) then _ else payload).
  assert (Hp : preparing temporary target (λ i, i_data i = w ∧ (w = payload → ok i)) s0
    (with_names (match od_get temporary (names s) with
                 | Some i => od_set temporary (set_data w i) (names s) | None => names s end) (bump s))).
  { pose proof (preparing_update temporary target ok (λ i, i_data i = w ∧ (w = payload → ok i))
      (set_data w) s0 s Hne Ht Hs) as H.
    destruct Hs as (_ & _ & i & Hi & _). unfold file_at in Hi. rewrite Hi in H |- *. apply H.
    intros j Hj. split; [done|]. intros ->. by apply Hf. }
  destruct (faults os (syscalls s)); [by eapply preparing_stage|].
  destruct Hp as (H1 & H2 & i & Hi & Hw & Hok). split_and!; [done|done|]. exists i. split; [done|].
  split; [by apply Hok|done].
Qed.

Definition fresh_file (i : inode) : Prop := st_kind (i_stat i) = KFile ∧ st_nlink (i_stat i) = 1.
Definition private_inode (i : inode) : Prop := private_file (i_stat i) = true.

(** The target holds a private file with the payload, the rest is kept. *)
Definition published (target payload : list Z) (s0 s : fs) : Prop :=
  others_kept target s0 s ∧
  ∃ i, file_at target s = Some i ∧ i_data i = payload ∧ private_inode i.

Lemma published_stage target payload s0 s :
  published target payload s0 s → stage target payload s0 s.
Proof. intros (H1 & i & Hi & Hd & _). split; [done|]. right. by exists i. Qed.

Lemma looks_kept {A} (m : FS A) (P : fs → Prop) s :
  looks m → (∀ s s', names s' = names s → dir_stat s' = dir_stat s → P s → P s') → P s →
  wpf m (λ _, P) (λ _, P) s.
Proof.
  intros Hm HP Hs. unfold wpf. specialize (Hm s).
  destruct (m s) as [[a|e] s'], Hm as [H1 H2]; simpl in *; by eapply HP.
Qed.

Lemma published_same target payload s0 s s' :
  names s' = names s → dir_stat s' = dir_stat s →
  published target payload s0 s → published target payload s0 s'.
Proof.
  intros Hn Hd ([H1 H2] & i & Hi & H). unfold published, others_kept, file_at in *.
  rewrite Hn, Hd. split; [done|]. by exists i.
Qed.

Lemma replace_wpf temporary target payload s0 s :
  temporary ≠ target → is_temp temporary = true → is_temp target = false →
  preparing temporary target (λ i, private_inode i ∧ i_data i = payload) s0 s →
  wpf (replace_file os temporary target) (λ _, published target payload s0)
    (λ _, stage target payload s0) s.
Proof.
  intros Hne Ht Htt Hs. apply syscall_wpf; [by eapply preparing_stage|].
  destruct Hs as ([Hd Ho] & Hold & i & Hi & Hp & Hdata). unfold file_at in Hi.
  unfold wpf. simpl. rewrite Hi. split; [split|].
  - done.
  - intros k Hk Hkt. unfold file_at. simpl. rewrite od_get_set, decide_False by done.
    rewrite od_get_del, decide_False; [by apply Ho|]. intros ->. congruence.
  - exists i. split; [|done]. unfold file_at. simpl. by rewrite od_get_set, decide_True.
Qed.

Lemma install_wpf group temporary target payload s0 s :
  temporary ≠ target → is_temp temporary = true → is_temp target = false →
  preparing temporary target fresh_file s0 s →
  wpf (install_snapshot os group temporary target payload) (λ _, published target payload s0)
    (λ _, stage target payload s0) s.
Proof.
  intros Hne Ht Htt Hs. unfold install_snapshot. apply wpf_bind.
  eapply wpf_mono; [apply (update_wpf temporary target payload fresh_file private_inode); try done| |done].
  { intros i [H1 H2]. unfold private_inode, private_file. simpl. by rewrite H1, H2. }
  intros [] s1 H1. apply wpf_bind.
  eapply (wpf_mono _ (λ _, preparing temporary target private_inode s0) _ (λ _, stage target payload s0));
    [|clear s1 H1; intros [] s2 H2|done].
  { destruct group as [g|]; [|done].
    apply (update_wpf temporary target payload private_inode private_inode); try done. }
  apply wpf_bind. eapply wpf_mono; [by apply (write_wpf temporary target payload private_inode)| |done].
  intros [] s3 H3. apply wpf_bind.
  eapply wpf_mono; [apply (looks_kept _ (preparing temporary target
    (λ i, private_inode i ∧ i_data i = payload) s0)); [by apply looks_syscall| |exact H3]| |].
  { intros s4 s5 Hn Hd (HA & HB & HC). unfold preparing, others_kept, target_old, file_at in *.
    by rewrite Hn, Hd. }
  2:{ intros e s4. apply preparing_stage. }
  intros [] s4 H4. apply wpf_bind.
  eapply wpf_mono; [by apply replace_wpf| |done].
  intros [] s5 H5. apply (wpf_mono _ (λ _, published target payload s0) _ (λ _, published target payload s0));
    [|done|intros e s6; apply published_stage].
  apply looks_kept; [|apply published_same|done].
  apply looks_bind; [apply looks_sync|]. intros _. apply looks_bind; [apply looks_require_file|].
  intros []. apply looks_bind; [apply looks_read|]. intros data. by destruct (str_eqb _ _).
Qed.

Lemma stage_same target payload s0 s s' : names s' = names s → dir_stat s' = dir_stat s →
  stage target payload s0 s → stage target payload s0 s'.
Proof.
  intros Hn Hd H. unfold stage, others_kept, target_old, target_new, file_at in *. by rewrite Hn, Hd.
Qed.

Lemma stage_refl target payload s : stage target payload s s.
Proof. split; [done|by left]. Qed.

Lemma unlink_temp_wpf temporary target payload s0 s :
  temporary ≠ target → is_temp temporary = true → stage target payload s0 s →
  wpf (unlink os temporary true) (λ _, stage target payload s0) (λ _, stage target payload s0) s.
Proof.
  intros Hne Ht Hs. apply syscall_wpf; [done|]. unfold wpf. simpl.
  destruct (od_get temporary (names s)) as [i|]; [|done].
  destruct Hs as [[Hd Ho] Hs]. split; [split; [done|]|].
  - intros k Hk Hkt. unfold file_at. simpl. rewrite od_get_del, decide_False; [by apply Ho|].
    intros ->. congruence.
  - unfold target_old, target_new, file_at in *. simpl. rewrite od_get_del, decide_False by congruence. done.
Qed.

Definition untouched (s0 s : fs) : Prop := names s = names s0 ∧ dir_stat s = dir_stat s0.

Lemma looks_untouched {A} (m : FS A) s0 s : looks m → untouched s0 s →
  wpf m (λ _, untouched s0) (λ _, untouched s0) s.
Proof.
  intros Hm Hs. apply looks_kept; [done| |done]. intros s1 s2 Hn Hd [H1 H2]. split; congruence.
Qed.

Lemma mkstemp_wpf target s0 s : is_temp target = false → untouched s0 s →
  wpf (mkstemp os temp_prefix)
    (λ temporary s', is_temp temporary = true ∧ temporary ≠ target ∧
       preparing temporary target fresh_file s0 s')
    (λ _, untouched s0) s.
Proof.
  intros Ht [Hn Hd]. apply syscall_wpf; [done|]. unfold wpf. cbv zeta.
  set (name := temp_prefix ++ temp_suffix os (syscalls (bump s))).
  destruct (od_mem name (names (bump s))) eqn:E; [done|]. change (names (bump s)) with (names s) in E.
  assert (Hname : is_temp name = true) by apply temp_is_temp.
  assert (Hne : name ≠ target) by congruence.
  split; [done|]. split; [done|]. unfold od_mem in E. split_and!; [split|..].
  - done.
  - intros k Hk Hkt. unfold file_at. simpl. rewrite od_get_app, Hn. csimpl.
    rewrite decide_False by congruence. by destruct (od_get k (names s0)).
  - unfold target_old, file_at. simpl. rewrite od_get_app, Hn. csimpl. rewrite decide_False by congruence.
    by destruct (od_get target (names s0)).
  - eexists. split; [unfold file_at; simpl; rewrite od_get_app|].
    + destruct (od_get name (names s)); [done|]. csimpl. by rewrite decide_True.
    + done.
Qed.

Definition publish_failed (email : list Z) (rules : list rule_mapping) (s0 s : fs) : Prop :=
  untouched s0 s ∨ ∃ target payload, build_snapshot email rules = Ok payload ∧
    snapshot_name email = Ok target ∧ stage target payload s0 s.

(** Publishing, for every outcome of every call. *)
Lemma publish_wpf email rules group s0 :
  wpf (publish_snapshot os directory email rules group)
    (λ target s, ∃ payload, build_snapshot email rules = Ok payload ∧
       snapshot_name email = Ok target ∧ published target payload s0 s)
    (λ _, publish_failed email rules s0) s0.
Proof.
  assert (Hleft : ∀ s, untouched s0 s → publish_failed email rules s0 s) by (intros s Hs; by left).
  unfold publish_snapshot. apply wpf_bind.
  eapply wpf_mono; [apply looks_untouched; [apply looks_require_dir|done]| |by intros e; auto].
  intros [] s1 H1. apply wpf_bind, wpf_lift.
  destruct (build_snapshot email rules) as [payload|] eqn:Hb; [|by apply Hleft].
  apply wpf_bind, wpf_lift. destruct (snapshot_name email) as [target|] eqn:Ht; [|by apply Hleft].
  pose proof (snapshot_not_temp _ (snapshot_name_re _ _ Ht)) as Htt.
  apply wpf_bind. eapply wpf_mono; [apply looks_untouched; [apply looks_exists|exact H1]| |by intros e; auto].
  intros p s2 H2. apply wpf_bind.
  eapply wpf_mono; [apply (looks_untouched _ s0); [|exact H2]| |by intros e; auto].
  { destruct p; [done|]. apply looks_symlink. }
  intros p' s3 H3. apply wpf_bind.
  eapply wpf_mono; [apply (looks_untouched _ s0); [|exact H3]| |by intros e; auto].
  { destruct p'; [apply looks_require_file|done]. }
  intros [] s4 H4. apply wpf_bind.
  eapply wpf_mono; [apply (mkstemp_wpf target s0 s4 Htt H4)| |by intros e; auto].
  intros temporary s5 (Hte & Hne & Hprep). apply wpf_bind, wpf_on_error.
  eapply wpf_mono; [by apply install_wpf| |].
  - intros [] s6 H6. by exists payload.
  - intros e s6 H6. eapply wpf_mono; [by apply (unlink_temp_wpf temporary target payload s0 s6)| |].
    + intros [] s7 H7. right. by exists target, payload.
    + intros e' s7 H7. right. by exists target, payload.
Qed.

(** C25: Publishing is atomic.  Whichever system calls fail, the file of
    every other account is untouched and the account's own file holds its
    previous contents or, whole, the new document; when the call returns it
    holds the new document in a private regular file. *)
Theorem publish_snapshot_atomic email rules group s0 r s target payload :
  snapshot_name email = Ok target → build_snapshot email rules = Ok payload →
  publish_snapshot os directory email rules group s0 = (r, s) →
  (∀ k, _SNAPSHOT_FILE_RE k = true → k ≠ target → file_at k s = file_at k s0) ∧
  (file_at target s = file_at target s0 ∨ i_data <$> file_at target s = Some payload) ∧
  (is_ok r = true → ∃ i, file_at target s = Some i ∧ i_data i = payload ∧ private_file (i_stat i) = true).
Proof.
  intros Ht Hp Hrun. pose proof (publish_wpf email rules group s0) as H. unfold wpf in H.
  rewrite Hrun in H. destruct r as [t|e].
  - destruct H as (p & Hp' & Ht' & [[_ Ho] (i & Hi & Hd & Hpr)]). rewrite Ht in Ht'. injection Ht' as <-.
    rewrite Hp in Hp'. injection Hp' as <-. split_and!.
    + intros k Hk Hne. apply Ho; [done|]. by apply snapshot_not_temp.
    + right. rewrite Hi. simpl. by rewrite Hd.
    + intros _. by exists i.
  - split_and!; [| |done].
    + intros k Hk Hne. destruct H as [[Hn _]|(t & p & Hp' & Ht' & [[_ Ho] _])].
      * unfold file_at. by rewrite Hn.
      * rewrite Ht in Ht'. injection Ht' as <-. apply Ho; [done|]. by apply snapshot_not_temp.
    + destruct H as [[Hn _]|(t & p & Hp' & Ht' & [_ Hs])]; [left; unfold file_at; by rewrite Hn|].
      rewrite Ht in Ht'. injection Ht' as <-. rewrite Hp in Hp'. injection Hp' as <-.
      destruct Hs as [Hs|(i & Hi & Hd)]; [by left|right]. rewrite Hi. simpl. by rewrite Hd.
Qed.
End Publish.

(** * Published filing rules are read back

    What [publish_snapshot] wrote, [load_snapshot] returns: the rules, with the
    keys of every object in sorted order. *)

From S2P Require Import Prelude Text Errors Totp AuthCore Dict Json JsonRound RuleDoc RuleDocSpecs Fs Snapshots.

#[local] Set Default Proof Using "Type*".

(** ** The text of a snapshot *)

Lemma dumps_obj_head kvs s : kvs ≠ [] → dumps true (JObj kvs) = Some s → ∃ r, s = 123 :: 34 :: r.
Proof.
  intros Hne. rewrite dumps_obj. destruct (mapM (dumps_item true) kvs) as [parts|] eqn:Hm; [|done].
  intros [= <-]. apply mapM_Some in Hm.
  assert (Hp : parts ≢ₚ []).
  { intros Hp%Permutation_nil_r. subst parts. by apply Forall2_nil_inv_r in Hm. }
  pose proof (merge_sort_Permutation (λ a b : list Z * list Z, zlist_le a.1 b.1) parts) as Hs.
  destruct (merge_sort _ parts) as [|kp l] eqn:E; [by rewrite <-Hs in Hp|].
  destruct l as [|kp' l]; simpl; eauto.
Qed.

Section Load.
Context (os : kernel) (directory : list Z) (py_float : list Z → pyfloat).
Context (decode_lenient : list Z → option (list Z)).

Lemma snapshot_hooks_read : reads_plain py_float (snapshot_hooks py_float).
Proof. split; [apply default_int_small|]. intros r _ Hr. simpl. by rewrite Hr. Qed.

Lemma json_text_strict a b r s : 0 < a < 239 → 0 < b → utf8_decode (a :: b :: r) = Some s →
  json_text decode_lenient (a :: b :: r) = Some s.
Proof.
  intros Ha Hb Hs. unfold json_text. rewrite Hs.
  by replace ((0 <? a) && (0 <? b) && (a <? 239)) with true by lia.
Qed.

Lemma utf8_encode_head a b r e : 0 ≤ a < 128 → 0 ≤ b < 128 →
  utf8_encode (a :: b :: r) = Some e → ∃ e', e = a :: b :: e'.
Proof.
  intros Ha Hb. simpl. unfold utf8_char.
  replace ((a <? 0) || (1114112 <=? a)) with false by lia.
  replace ((b <? 0) || (1114112 <=? b)) with false by lia.
  replace (a <? 128) with true by lia. replace (b <? 128) with true by lia.
  destruct (utf8_encode r); [|done]. intros [= <-]. eauto.
Qed.

(** The published bytes decode to the document with sorted keys. *)
Lemma payload_document email rules payload :
  plain py_float (snapshot_document email rules) → build_snapshot email rules = Ok payload →
  zlen rules ≤ 100 ∧ 2 ≤ zlen payload ≤ MAX_SNAPSHOT_BYTES ∧
  json_text decode_lenient payload ≫= loads (snapshot_hooks py_float) =
    Some (canon true (snapshot_document email rules)).
Proof.
  intros Hp. unfold build_snapshot. destruct (100 <? zlen rules) eqn:E1; [done|].
  destruct (plain_roundtrip py_float (snapshot_hooks py_float) true _ snapshot_hooks_read
    unique_pairs_dict Hp) as (s & e & Hs & He & Hl).
  rewrite Hs. cbn [mbind option_bind]. rewrite He.
  destruct ((2 <=? zlen e) && _) eqn:E2; [|done]. intros [= <-].
  split_and!; [lia|lia|lia|].
  assert (∃ r, s = 123 :: 34 :: r) as [r ->] by (eapply dumps_obj_head; [|exact Hs]; done).
  destruct (utf8_encode_head 123 34 r e ltac:(lia) ltac:(lia) He) as [e' ->].
  rewrite (json_text_strict 123 34 e' (123 :: 34 :: r)); [exact Hl|lia|lia|]. by apply utf8_roundtrip.
Qed.

Lemma valid_canon email rules : zlen rules ≤ 100 →
  valid_document email (canon true (snapshot_document email rules)) =
  Some ((λ r, canon true (JObj r)) <$> rules).
Proof.
  intros Hlen. rewrite (list_fmap_compose JObj (canon true)). unfold snapshot_document.
  set (kvs := [(u "version", JInt SNAPSHOT_VERSION); _; _]).
  change (canon true (JObj kvs)) with (JObj (canon_items kvs)).
  assert (Hnd : NoDup kvs.*1) by (apply (bool_decide_unpack (NoDup kvs.*1)); reflexivity).
  unfold valid_document. pose proof (canon_items_perm kvs) as Hp. unfold obj_keys in Hp.
  replace (forallb _ (canon_items kvs).*1 && _) with true.
  2:{ symmetry. apply andb_true_iff. rewrite !forallb_forall. setoid_rewrite bool_decide_eq_true.
      setoid_rewrite <-list_elem_of_In. split; intros k Hk; [by rewrite Hp in Hk|by rewrite Hp]. }
  rewrite !canon_items_get by done. simpl. unfold str_eqb. rewrite bool_decide_true by done.
  rewrite !zlen_fmap. cbn [andb].
  unfold rule_mapping in Hlen. by rewrite (proj2 (Z.leb_le _ _) Hlen).
Qed.

(** ** Reading *)

Definition no_faults (s : fs) : Prop := ∀ n, (syscalls s ≤ n)%nat → faults os n = false.

Definition dir_readable (s : fs) : Prop :=
  starts_with (u "/") directory = true ∧ directory ≠ u "/" ∧
  ∃ st, dir_stat s = Some st ∧ st_kind st = KDir ∧ Z.land (st_mode st) 7 = 0.

Lemma run_syscall {A} (f : FS A) s : no_faults s → syscall os f s = f (bump s).
Proof. intros H. unfold syscall. by rewrite H. Qed.

Lemma no_faults_bump s : no_faults s → no_faults (bump s).
Proof. intros H n Hn. apply H. simpl in Hn. lia. Qed.

Lemma bind_fs {A B} (m : FS A) (f : A → FS B) s a s' : m s = (Ok a, s') → (m ≫= f) s = f a s'.
Proof. intros H. unfold mbind, eff_mbind, eff_bind. by rewrite H. Qed.

Lemma run_require_dir s : no_faults s → dir_readable s →
  _require_snapshot_directory os directory false s = (Ok tt, bump s).
Proof.
  intros Hf (H1 & H2 & st & Hst & Hk & Hm). unfold _require_snapshot_directory.
  unfold str_eqb. rewrite H1, bool_decide_false by done. cbn [negb orb].
  erewrite bind_fs; [|unfold lstat_dir; rewrite run_syscall by done; simpl; by rewrite Hst].
  rewrite bool_decide_false by (intros H; by apply H). by rewrite Hm.
Qed.

Lemma run_require_file s name i : no_faults s → file_at name s = Some i →
  private_file (i_stat i) = true → _require_snapshot_file os name s = (Ok tt, bump s).
Proof.
  intros Hf Hi Hp. unfold _require_snapshot_file.
  erewrite bind_fs; [|unfold lstat; rewrite run_syscall by done; simpl; unfold file_at in Hi; by rewrite Hi].
  by rewrite Hp.
Qed.

Lemma load_published email rules payload target s i :
  snapshot_name email = Ok target → build_snapshot email rules = Ok payload →
  plain py_float (snapshot_document email rules) →
  file_at target s = Some i → i_data i = payload → private_file (i_stat i) = true →
  no_faults s → dir_readable s →
  load_snapshot os directory py_float decode_lenient email s =
    (Ok (Some ((λ r, canon true (JObj r)) <$> rules)), bump (bump (bump s))).
Proof.
  intros Ht Hb Hp Hi Hd Hpr Hf Hdir. destruct (payload_document email rules payload Hp Hb) as (Hl & H2 & Hdoc).
  unfold load_snapshot. erewrite bind_fs; [|by apply run_require_dir].
  rewrite Ht. erewrite bind_fs; [|done].
  pose proof (no_faults_bump _ Hf) as Hf1. pose proof (no_faults_bump _ Hf1) as Hf2.
  erewrite bind_fs.
  2:{ unfold attempt. erewrite bind_fs; [|by apply (run_require_file _ _ i)].
      unfold read_bytes. rewrite run_syscall by done. simpl. unfold file_at in Hi. by rewrite Hi. }
  rewrite Hd. replace ((2 <=? zlen payload) && (zlen payload <=? MAX_SNAPSHOT_BYTES)) with true by lia.
  cbn [negb]. rewrite Hdoc, valid_canon; done.
Qed.
End Load.

Section RoundTrip.
Context (os : kernel) (directory : list Z) (py_float : list Z → pyfloat).
Context (decode_lenient : list Z → option (list Z)).

(** What the bridge reads is what was published.  When publication
    returns, loading the account's snapshot from a readable directory yields
    exactly the published rules, in their order, with the keys of every object
    sorted; the JSON text is not further changed. *)
Theorem snapshot_roundtrip email rules group s0 s target :
  plain py_float (snapshot_document email rules) → dir_readable directory s0 →
  publish_snapshot os directory email rules group s0 = (Ok target, s) → no_faults os s →
  (load_snapshot os directory py_float decode_lenient email s).1 =
    Ok (Some ((λ r, canon true (JObj r)) <$> rules)).
Proof.
  intros Hp Hdir Hrun Hf. pose proof (publish_wpf os directory email rules group s0) as H.
  unfold wpf in H. rewrite Hrun in H.
  destruct H as (payload & Hb & Ht & [[Hd _] (i & Hi & Hdata & Hpr)]).
  rewrite (load_published os directory py_float decode_lenient email rules payload target s i); try done.
  unfold dir_readable in *. by rewrite Hd.
Qed.
End RoundTrip.

(** A concrete document is plain. *)
Ltac prove_plain := repeat match goal with
  | |- Forall clean_char _ => eapply utf8_clean_inv; vm_compute; reflexivity
  | |- NoDup _ => apply (bool_decide_unpack _); vm_compute; reflexivity
  | |- Forall _ _ => apply (bool_decide_unpack _); vm_compute; reflexivity
  | |- _ ∧ _ => split
  | |- True => exact I
  | |- _ ≤ _ => vm_compute; discriminate
  | |- _ < _ => vm_compute; reflexivity
  | |- _ = _ => vm_compute; reflexivity
  | |- plain _ (snapshot_document _ _) => unfold snapshot_document
  | |- _ => progress simpl
  end.

(** ** A directory with the snapshots of two accounts *)

Definition demo_kernel (f : nat → bool) : kernel :=
  MkKernel f (λ _, 3%nat) (λ n, u "x") (λ _, true) 990 991.
Definition demo_dir : list Z := u "/var/lib/maddyweb/rules".
Definition demo_fs : fs := MkFs (Some (MkStat KDir 488 2 990 991)) [] 0.
Definition demo_email : list Z := u "alice@example.org".
Definition demo_float (r : list Z) : pyfloat := FFinite r.
Definition demo_published_rules : list rule_mapping :=
  [[(u "rule_id", JStr (u "0123")); (u "enabled", JBool true); (u "position", JInt 0);
    (u "score", JFloat (FFinite (u "1.5")))]].
Definition no_fault : nat → bool := λ _, false.

(** One account's snapshot is there when the other's write fails half-way. *)
Definition demo_fs1 : fs :=
  (publish_snapshot (demo_kernel no_fault) demo_dir (u "bob@example.org") [] None demo_fs).2.

Lemma publish_snapshot_atomic_witness :
  let os := demo_kernel (λ n, bool_decide (n = 18%nat)) in
  let '(r, s) := publish_snapshot os demo_dir demo_email demo_published_rules None demo_fs1 in
  r = Err OSError ∧
  ∃ target payload, snapshot_name demo_email = Ok target ∧
    build_snapshot demo_email demo_published_rules = Ok payload ∧
    (file_at target s = file_at target demo_fs1 ∨ i_data <$> file_at target s = Some payload).
Proof.
  cbv zeta. destruct (publish_snapshot _ _ _ _ _ _) as [r s] eqn:Hrun.
  destruct (snapshot_name demo_email) as [target|] eqn:Ht; [|by vm_compute in Ht].
  destruct (build_snapshot demo_email demo_published_rules) as [payload|] eqn:Hb; [|by vm_compute in Hb].
  pose proof (publish_snapshot_atomic _ _ _ _ _ _ _ _ _ _ Ht Hb Hrun) as (_ & H & _).
  split; [clear -Hrun; vm_compute in Hrun; congruence|]. exists target, payload. by split_and!.
Defined.

Lemma snapshot_roundtrip_witness :
  let s := (publish_snapshot (demo_kernel no_fault) demo_dir demo_email demo_published_rules None demo_fs1).2 in
  (load_snapshot (demo_kernel no_fault) demo_dir demo_float (λ _, None) demo_email s).1 =
    Ok (Some ((λ r, canon true (JObj r)) <$> demo_published_rules)).
Proof.
  cbv zeta. destruct (publish_snapshot _ _ _ _ _ _) as [r s] eqn:Hrun.
  destruct r as [target|e]; [|exfalso; clear -Hrun; vm_compute in Hrun; congruence].
  apply (snapshot_roundtrip _ _ _ _ _ _ None demo_fs1 s target); [| |exact Hrun|intros ? ?; reflexivity]; clear Hrun.
  - prove_plain.
  - split; [done|]. split; [done|]. eexists. split_and!; [vm_compute; reflexivity|done|done].
Defined.
