(* ===== verification/FilterBridge.v ===== *)
(** * Delivery-time filtering: [filter_bridge.py]

    The mail server pipes every delivered message through a client that sends
    it to this bridge; the bridge evaluates the recipient's published rules and
    answers with the target mailbox.  The handler of one connection runs over
    the connection ([Protocol.conn]) and the snapshot directory ([Fs.fs]); the
    spool file is the list of bytes written to it.  The semaphore that bounds
    the number of handlers and the lock around the evaluation only delay a
    handler. *)

From S2P Require Import Prelude Text Errors Identity Dict Json RuleDoc RuleMessage RuleEval Protocol Csrf Security Fs Snapshots.

Definition FILTER_PROTOCOL : list Z := u "MADDYWEB-FILTER/1".
Definition DEFAULT_FILTER_PORT : Z := 18787.
Definition MAX_PROTOCOL_LINE_BYTES : Z := 512.
Definition MAX_FILTER_MESSAGE_BYTES : Z := 25 * 1024 * 1024.
Definition _TOKEN_RE (s : list Z) : bool := match_exact is_hex_lower 64 s.
Definition _RULE_ID_RE (s : list Z) : bool := match_exact is_hex_lower 32 s.

(** ** Listen addresses *)

(** [ipaddress.ip_address] is [ipv4_address]: every caller refuses the other texts,
    IPv6 addresses among them. *)
Definition is_unspecified (ip : Z * Z * Z * Z) : bool := bool_decide (ip = (0, 0, 0, 0)).
Definition is_multicast (ip : Z * Z * Z * Z) : bool :=
  let '(a, _, _, _) := ip in (224 <=? a) && (a <=? 239).
Definition is_loopback (ip : Z * Z * Z * Z) : bool := let '(a, _, _, _) := ip in a =? 127.
Definition is_private (ip : Z * Z * Z * Z) : bool :=
  let '(a, b, c, d) := ip in
  (a =? 0) || (a =? 10) || (a =? 127) || ((a =? 169) && (b =? 254))
  || ((a =? 172) && (16 <=? b) && (b <=? 31))
  || ((a =? 192) && (b =? 0) && (c =? 0) && negb ((d =? 9) || (d =? 10)))
  || ((a =? 192) && (b =? 0) && (c =? 2)) || ((a =? 192) && (b =? 168))
  || ((a =? 198) && ((b =? 18) || (b =? 19))) || ((a =? 198) && (b =? 51) && (c =? 100))
  || ((a =? 203) && (b =? 0) && (c =? 113)) || (240 <=? a).

Definition print_ipv4 (ip : Z * Z * Z * Z) : list Z :=
  let '(a, b, c, d) := ip in join [46] (digits <$> [a; b; c; d]).

Definition private_endpoint (unicode_digit : Z → option Z) (value : list Z)
    : option (list Z * Z) :=
  if count_char 58 value =? 1 then
    match partition_char 58 value with
    | Some (host, raw_port) =>
        match ipv4_address host, py_int unicode_digit raw_port with
        | Some ip, Some port =>
            if is_unspecified ip || is_multicast ip || negb (is_loopback ip || is_private ip)
               || negb (port =? DEFAULT_FILTER_PORT)
            then None else Some (print_ipv4 ip, port)
        | _, _ => None
        end
    | None => None
    end
  else None.

Definition parse_filter_listen (unicode_digit : Z → option Z) (value : list Z)
    : result exc (list Z * Z) :=
  match private_endpoint unicode_digit value with
  | Some e => Ok e | None => Err FilterBridgeError end.

(** ** Evaluating a message *)

Definition rule_record_keys : list (list Z) :=
  [u "rule_id"; u "enabled"; u "position"; u "condition"; u "target_mailbox";
   u "stop_processing"; u "revision"].

Definition same_keys (keys required : list (list Z)) : bool :=
  forallb (λ k, bool_decide (k ∈ required)) keys && forallb (λ k, bool_decide (k ∈ keys)) required.

Record prepared_rule := MkPrepared { p_position : Z; p_stop : bool; p_rule : CompiledRule }.

Definition by_position (a b : prepared_rule) : Prop := p_position a ≤ p_position b.
#[export] Instance by_position_dec : RelDecision by_position :=
  λ a b, decide (p_position a ≤ p_position b).

Section Evaluate.
Context (unicode_casefold : Z → list Z).
Context (decode_header : list Z → result exc (list fragment)).
Context (bytes_decode : list Z → list Z → result exc (list Z)).
Context (parse : list Z → Z * result exc mime).
Context (os : kernel) (snapshot_dir : list Z).
Context (py_float : list Z → pyfloat) (decode_lenient : list Z → option (list Z)).

(** One published record: its identifier, and the compiled rule if enabled. *)
Definition prepare_record (seen_ids : list (list Z)) (value : json)
    : result exc (list Z * option prepared_rule) :=
  match value with
  | JObj kvs =>
      if negb (same_keys kvs.*1 rule_record_keys) then Err FilterBridgeError
      else match get_key (u "rule_id") kvs, get_key (u "position") kvs, get_key (u "enabled") kvs,
                 get_key (u "stop_processing") kvs, get_key (u "revision") kvs with
           | JStr rule_id, JInt position, JBool enabled, JBool stop_processing, JInt revision =>
               if negb (_RULE_ID_RE rule_id) || bool_decide (rule_id ∈ seen_ids)
                  || negb ((0 <=? position) && (position <? 100)) || (revision <? 1)
               then Err FilterBridgeError
               else if negb enabled then Ok (rule_id, None)
               else
                 r ← from_mapping unicode_casefold
                       (JObj [(u "condition", get_key (u "condition") kvs);
                              (u "target_mailbox", get_key (u "target_mailbox") kvs)]);
                 compiled ← compile_rule unicode_casefold r;
                 Ok (rule_id, Some (MkPrepared position stop_processing compiled))
           | _, _, _, _, _ => Err FilterBridgeError
           end
  | _ => Err FilterBridgeError
  end.

Fixpoint prepare_records (seen_ids : list (list Z)) (values : list json)
    : result exc (list prepared_rule) :=
  match values with
  | [] => Ok []
  | value :: values =>
      '(rule_id, prepared) ← prepare_record seen_ids value;
      rest ← prepare_records (rule_id :: seen_ids) values;
      Ok (match prepared with Some p => p :: rest | None => rest end)
  end.

(** The last matching rule decides, up to the first matching rule that stops. *)
Fixpoint select_target (rules : list prepared_rule) (m : RuleMessage) (target : option (list Z))
    : option (list Z) :=
  match rules with
  | [] => target
  | r :: rules =>
      if matches unicode_casefold (p_rule r) m then
        let target := Some (target_mailbox (rule (p_rule r))) in
        if p_stop r then target else select_target rules m target
      else select_target rules m target
  end.

Definition evaluate_records (raw_rules : list json) (raw_message : list Z)
    : result exc (option (list Z)) :=
  prepared ← prepare_records [] raw_rules;
  if negb (bool_decide (NoDup (p_position <$> prepared))) then Err FilterBridgeError
  else match parsed_message unicode_casefold decode_header bytes_decode parse raw_message None
               NoRecipient with
       | Err _ => Ok None
       | Ok message => Ok (select_target (merge_sort by_position prepared) message None)
       end.

Definition evaluate_filter_message (canonical_email raw_message : list Z) : FS (option (list Z)) :=
  account ← lift (canonicalize_email canonical_email);
  if negb ((1 <=? zlen raw_message) && (zlen raw_message <=? MAX_FILTER_MESSAGE_BYTES))
  then mret None
  else
    document ← load_snapshot os snapshot_dir py_float decode_lenient account;
    match document with
    | None => mret None
    | Some raw_rules =>
        if 100 <? zlen raw_rules then throw FilterBridgeError
        else lift (evaluate_records raw_rules raw_message)
    end.

(** The failures the bridge turns into "no effect". *)
Definition evaluation_failure : exc → bool :=
  catches [FilterBridgeError; RuleValidationError; OSError; ValueError].

Definition _render_filter_target (target : option (list Z)) : list Z :=
  match target ≫= utf8_encode with
  | Some ((_ :: _) as rendered) =>
      if has_char 10 rendered || has_char 13 rendered || (1024 <? zlen rendered) then []
      else rendered ++ [10]
  | _ => []
  end.

Definition _authenticated_account (line expected_token : list Z) : result exc (option (list Z)) :=
  if bool_decide (line = []) || (MAX_PROTOCOL_LINE_BYTES <? zlen line) then Ok None
  else if negb (is_ascii line) then Ok None
  else match split_char 32 line with
       | [protocol; supplied_token; raw_account] =>
           if negb (str_eqb protocol FILTER_PROTOCOL) then Ok None
           else if negb (_TOKEN_RE expected_token) then Ok None
           else
             same ← compare_digest supplied_token expected_token;
             if negb same then Ok None
             else match canonicalize_email raw_account with
                  | Ok a => Ok (Some a)
                  | Err e => if catches [ValueError] e then Ok None else Err e
                  end
       | _ => Ok None
       end.

Definition evaluate_bridge_payload (payload expected_token : list Z) : FS (list Z) :=
  if negb ((1 <=? zlen payload)
           && (zlen payload <=? MAX_PROTOCOL_LINE_BYTES + MAX_FILTER_MESSAGE_BYTES))
  then mret []
  else match partition_char 10 payload with
       | None => mret []
       | Some (line, raw_message) =>
           if bool_decide (raw_message = []) || (MAX_PROTOCOL_LINE_BYTES <? zlen line) then mret []
           else
             account ← lift (_authenticated_account line expected_token);
             match account with
             | None => mret []
             | Some account =>
                 target ← attempt evaluation_failure (evaluate_filter_message account raw_message);
                 mret (_render_filter_target (default None target))
             end
       end.

(** ** One connection *)

Record bridge_state := MkBridge { b_conn : conn; b_fs : fs }.
Definition B : Type → Type := eff bridge_state exc.

Definition on_conn {A} (m : IO A) : B A := λ s,
  let '(r, c) := m (b_conn s) in (r, MkBridge c (b_fs s)).
Definition on_fs {A} (m : FS A) : B A := λ s,
  let '(r, f) := m (b_fs s) in (r, MkBridge (b_conn s) f).

(** [while b"\n" not in control and len(control) <= MAX_PROTOCOL_LINE_BYTES];
    None when the peer closes first.  Every round receives at least a byte. *)
Fixpoint read_control (fuel : nat) (control : list Z) : IO (option (list Z)) :=
  match fuel with
  | O => throw OutOfFuel
  | S fuel =>
      if has_char 10 control || (MAX_PROTOCOL_LINE_BYTES <? zlen control) then mret (Some control)
      else
        chunk ← recv (Z.min 4096 (MAX_PROTOCOL_LINE_BYTES + 1 - zlen control));
        match chunk with
        | [] => mret None
        | _ => read_control fuel (control ++ chunk)
        end
  end.

(** [while transferred <= MAX_FILTER_MESSAGE_BYTES]: the message until the peer
    closes; None when it is too large. *)
Fixpoint read_message (fuel : nat) (spool : list Z) : IO (option (list Z)) :=
  match fuel with
  | O => throw OutOfFuel
  | S fuel =>
      chunk ← recv (Z.min (64 * 1024) (MAX_FILTER_MESSAGE_BYTES + 1 - zlen spool));
      match chunk with
      | [] => mret (Some spool)
      | _ => if MAX_FILTER_MESSAGE_BYTES <? zlen spool + zlen chunk then mret None
             else read_message fuel (spool ++ chunk)
      end
  end.

(** A bound on the reads before the end of the stream. *)
Definition input_size (e : list event) : nat :=
  sum_list_with (λ ev, match ev with Chunk b => S (length b) | Broken => 1%nat end) e.
Definition with_fuel {A} (loop : nat → IO A) : IO A := λ c, loop (S (input_size (incoming c))) c.

(** The body of the [try]; an exception other than a transport failure leaves
    the handler, and the server closes the connection. *)
Definition handle_request (expected_token : list Z) : B unit :=
  control ← on_conn (with_fuel (λ fuel, read_control fuel []));
  match control with
  | None => mret tt
  | Some control =>
      match partition_char 10 control with
      | None => mret tt
      | Some (line, remainder) =>
          if MAX_PROTOCOL_LINE_BYTES <? zlen line then mret tt
          else
            account ← lift (_authenticated_account line expected_token);
            match account with
            | None => mret tt
            | Some account =>
                spooled ← on_conn (with_fuel (λ fuel, read_message fuel remainder));
                match spooled with
                | None | Some [] => mret tt
                | Some raw_message =>
                    target ← attempt evaluation_failure
                               (on_fs (evaluate_filter_message account raw_message));
                    match _render_filter_target (default None target) with
                    | [] => mret tt
                    | response => on_conn (sendall response)
                    end
                end
            end
      end
  end.

Definition handle (expected_token : list Z) : B unit :=
  done ← attempt (catches [OSError; TimeoutError]) (handle_request expected_token);
  mret tt.
End Evaluate.
