(* ===== verification/FilterClient.v ===== *)
(** * The command the mail server runs: [filter_client.py]

    It forwards one message to the bridge and prints the target mailbox, or
    nothing: an empty output means "deliver as usual".  The connection is a
    [Protocol.conn]; its [source] is the standard input and its [sink] the
    standard output.  [files] gives what [lstat] and reading return for the two
    configuration files. *)

From S2P Require Import Prelude Text Errors Identity Protocol Csrf Security Fs FilterBridge.

Definition MAX_FILTER_RESPONSE_BYTES : Z := 1025.

Record client_file := MkClientFile {
  cf_stat : result exc stat;
  cf_bytes : result exc (list Z) }.

Record client_env := MkClientEnv {
  files : list Z → client_file;
  process_gid : Z;
  process_groups : list Z;
  reachable : bool;
  client_unicode_digit : Z → option Z }.

Section Client.
Context (env : client_env).

Definition _client_file_metadata_is_valid (metadata : stat) : bool :=
  (st_uid metadata =? 0)
  && bool_decide (st_gid metadata ∈ process_gid env :: process_groups env)
  && (st_mode metadata =? 416).

(** Universal newlines of a text file. *)
Fixpoint universal_newlines (s : list Z) : list Z :=
  match s with
  | [] => []
  | 13 :: 10 :: s => 10 :: universal_newlines s
  | c :: s => (if c =? 13 then 10 else c) :: universal_newlines s
  end.

Definition read_text_ascii (path : list Z) : result exc (list Z) :=
  b ← cf_bytes (files env path);
  if is_ascii b then Ok (universal_newlines b) else Err UnicodeDecodeError.

Definition _read_root_owned_client_file (path : list Z) : result exc (list Z) :=
  if negb (starts_with (u "/") path) || str_eqb path (u "/") then Err FilterClientError
  else
    metadata ← cf_stat (files env path);
    if bool_decide (st_kind metadata ≠ KFile) || negb (st_nlink metadata =? 1)
    then Err FilterClientError
    else if negb (_client_file_metadata_is_valid metadata) then Err FilterClientError
    else match read_text_ascii path with
         | Err e => if catches [OSError; UnicodeError] e then Err FilterClientError else Err e
         | Ok value =>
             match reverse value with
             | 10 :: rest =>
                 if has_char 10 rest || has_char 13 value then Err FilterClientError
                 else Ok (reverse rest)
             | _ => Err FilterClientError
             end
         end.

Definition load_client_endpoint (path : list Z) : result exc (list Z * Z) :=
  value ← _read_root_owned_client_file path;
  match private_endpoint (client_unicode_digit env) value with
  | Some e => Ok e | None => Err FilterClientError end.

Definition load_client_token (path : list Z) : result exc (list Z) :=
  value ← _read_root_owned_client_file path;
  if (zlen value =? 64) && forallb is_hex_lower value then Ok value else Err FilterClientError.

Definition _validated_response (response : list Z) : list Z :=
  match reverse response with
  | 10 :: rest =>
      if (MAX_FILTER_RESPONSE_BYTES <? zlen response) || has_char 10 rest || has_char 13 response
      then []
      else match utf8_decode (reverse rest) with
           | Some ((_ :: _) as rendered) =>
               if _contains_forbidden_header_characters rendered then [] else response
           | _ => []
           end
  | _ => []
  end.

(** Forwarding the standard input; every round takes one read. *)
Fixpoint forward (fuel : nat) (transferred : Z) : IO Z :=
  match fuel with
  | O => throw OutOfFuel
  | S fuel =>
      chunk ← source_read (Z.min (64 * 1024) (MAX_FILTER_MESSAGE_BYTES + 1 - transferred));
      match chunk with
      | ReadBytes [] | ReadText [] => mret transferred
      | ReadText _ => throw FilterClientError
      | ReadBytes b =>
          let transferred := transferred + zlen b in
          if MAX_FILTER_MESSAGE_BYTES <? transferred then throw FilterClientError
          else sendall b ≫= λ _, forward fuel transferred
      end
  end.

Fixpoint read_response (fuel : nat) (response : list Z) : IO (list Z) :=
  match fuel with
  | O => throw OutOfFuel
  | S fuel =>
      if zlen response <=? MAX_FILTER_RESPONSE_BYTES then
        chunk ← recv (MAX_FILTER_RESPONSE_BYTES + 1 - zlen response);
        match chunk with
        | [] => mret response
        | _ => read_response fuel (response ++ chunk)
        end
      else mret response
  end.

Definition request_line (token account : list Z) : list Z :=
  join [32] [FILTER_PROTOCOL; token; account] ++ [10].

(** The body of the [try]. *)
Definition run_client (account endpoint_file token_file : list Z) : IO unit :=
  canonical_account ← lift (canonicalize_email account);
  endpoint ← lift (load_client_endpoint endpoint_file);
  token ← lift (load_client_token token_file);
  t ← lift (ascii_encode token);
  a ← lift (ascii_encode canonical_account);
  (if reachable env then mret tt else throw OSError) ≫= λ _,
  sendall (request_line t a) ≫= λ _,
  transferred ← (λ c, forward (S (length (source c))) 0 c);
  if transferred =? 0 then throw FilterClientError
  else
    response ← with_fuel (λ fuel, read_response fuel []);
    match _validated_response response with
    | [] => mret tt
    | rendered => sink_write rendered
    end.

Definition run_filter_client (account endpoint_file token_file : list Z) : IO Z :=
  done ← attempt (catches [FilterClientError; OSError; TimeoutError; ValueError])
           (run_client account endpoint_file token_file);
  mret 0.
End Client.
