(* ===== verification/FilterSpecs.v ===== *)
(** * Delivery-time filtering: which rule decides

    The mailbox a message is filed into, described without the order in which
    the rules are listed or visited; the streaming handler of a connection
    answers what the one-shot evaluation of the whole request answers. *)

From S2P Require Import Prelude Text Errors Identity Dict Json RuleDoc RuleMessage RuleEval Protocol ProtocolSpecs Csrf Security Fs Snapshots SnapshotSpecs FilterBridge.

#[local] Set Default Proof Using "Type*".

(** ** The deciding rule *)

Section Decides.
Context (unicode_casefold : Z → list Z).

Definition hit (m : RuleMessage) (r : prepared_rule) : bool :=
  matches unicode_casefold (p_rule r) m.
Definition mailbox_of (r : prepared_rule) : list Z := target_mailbox (rule (p_rule r)).

(** [r] decides on [m]: it matches, no matching rule before it stops the
    evaluation, and unless it stops itself no later rule matches. *)
Definition decides (rs : list prepared_rule) (m : RuleMessage) (r : prepared_rule) : Prop :=
  r ∈ rs ∧ hit m r = true ∧
  (∀ r', r' ∈ rs → hit m r' = true → p_position r' < p_position r → p_stop r' = false) ∧
  (p_stop r = false → ∀ r', r' ∈ rs → hit m r' = true → p_position r' ≤ p_position r).

Definition filed (rs : list prepared_rule) (m : RuleMessage) (target : option (list Z)) : Prop :=
  match target with
  | None => ∀ r, r ∈ rs → hit m r = false
  | Some mailbox => ∃ r, decides rs m r ∧ mailbox_of r = mailbox
  end.

Definition before (a b : prepared_rule) : Prop := p_position a < p_position b.

Lemma select_target_sorted rs m target : StronglySorted before rs →
  (select_target unicode_casefold rs m target = target ∧ ∀ r, r ∈ rs → hit m r = false) ∨
  (∃ r, select_target unicode_casefold rs m target = Some (mailbox_of r) ∧ decides rs m r).
Proof.
  revert target. induction rs as [|r rs IH]; intros target Hs.
  { left. split; [done|]. intros r []%not_elem_of_nil. }
  apply StronglySorted_inv in Hs as [Hs Hr]. rewrite Forall_forall in Hr. simpl.
  fold (hit m r) (mailbox_of r). destruct (hit m r) eqn:Hm.
  - right. destruct (p_stop r) eqn:Hst.
    { exists r. split; [done|]. split_and!; [left|done| |congruence].
      intros r' [->|Hin]%elem_of_cons _ Hlt; [lia|]. apply Hr in Hin. unfold before in Hin. lia. }
    destruct (IH (Some (mailbox_of r)) Hs) as [[-> Hno]|(d & -> & Hd & Hmd & Hbefore & Hafter)].
    + exists r. split; [done|]. split_and!; [left|done|..].
      * intros r' [->|Hin]%elem_of_cons Hm'; [lia|]. by rewrite Hno in Hm'.
      * intros _ r' [->|Hin]%elem_of_cons Hm'; [lia|]. by rewrite Hno in Hm'.
    + exists d. split; [done|]. split_and!; [by right|done|..].
      * intros r' [->|Hin]%elem_of_cons; eauto.
      * intros Hsd r' [->|Hin]%elem_of_cons; [|by apply Hafter]. intros _.
        apply Hr in Hd. unfold before in Hd. lia.
  - destruct (IH target Hs) as [[-> Hno]|(d & -> & Hd & Hmd & Hbefore & Hafter)].
    + left. split; [done|]. intros r' [->|Hin]%elem_of_cons; auto.
    + right. exists d. split; [done|]. split_and!; [by right|done|..].
      * intros r' [->|Hin]%elem_of_cons; [congruence|eauto].
      * intros Hsd r' [->|Hin]%elem_of_cons; [congruence|by apply Hafter].
Qed.

Lemma merge_sort_before rs : NoDup (p_position <$> rs) →
  StronglySorted before (merge_sort by_position rs).
Proof.
  intros Hnd. assert (Hp := merge_sort_Permutation by_position rs).
  assert (Hs : StronglySorted by_position (merge_sort by_position rs)).
  { apply StronglySorted_merge_sort; intros x y; unfold by_position; lia. }
  rewrite <-Hp in Hnd. revert Hs Hnd. generalize (merge_sort by_position rs). clear.
  induction l as [|r l IH]; intros Hs Hnd; [constructor|].
  apply StronglySorted_inv in Hs as [Hs Hr]. csimpl in *. apply NoDup_cons in Hnd as [Hn Hnd].
  constructor; [by apply IH|]. rewrite Forall_forall in *. intros r' Hin.
  specialize (Hr r' Hin). unfold by_position in Hr. unfold before.
  assert (p_position r ≠ p_position r'); [|lia]. intros Heq. apply Hn. rewrite Heq.
  by apply list_elem_of_fmap_2.
Qed.

Lemma filed_perm rs rs' m target : rs ≡ₚ rs' → filed rs m target → filed rs' m target.
Proof.
  intros Hp. unfold filed, decides. destruct target; setoid_rewrite Hp; done.
Qed.

(** At most one mailbox is right. *)
Lemma decides_unique rs m r1 r2 : NoDup (p_position <$> rs) →
  decides rs m r1 → decides rs m r2 → p_position r1 = p_position r2.
Proof.
  intros Hnd (H1 & M1 & B1 & A1) (H2 & M2 & B2 & A2).
  destruct (Z.lt_trichotomy (p_position r1) (p_position r2)) as [Hlt|[Heq|Hlt]]; [|done|].
  - pose proof (A1 (B2 _ H1 M1 Hlt) _ H2 M2). lia.
  - pose proof (A2 (B1 _ H2 M2 Hlt) _ H1 M1). lia.
Qed.

Lemma position_inj rs r1 r2 : NoDup (p_position <$> rs) → r1 ∈ rs → r2 ∈ rs →
  p_position r1 = p_position r2 → r1 = r2.
Proof.
  intros Hnd H1 H2 Heq. apply list_elem_of_lookup in H1 as [i Hi], H2 as [j Hj].
  assert (i = j) as ->; [|congruence].
  eapply NoDup_lookup; [exact Hnd| |]; rewrite list_lookup_fmap.
  - by rewrite Hi.
  - by rewrite Hj, Heq.
Qed.

Lemma filed_unique rs m t1 t2 : NoDup (p_position <$> rs) → filed rs m t1 → filed rs m t2 → t1 = t2.
Proof.
  intros Hnd. destruct t1 as [b1|], t2 as [b2|]; simpl; [| | |done].
  - intros (r1 & D1 & <-) (r2 & D2 & <-). f_equal. f_equal.
    eapply position_inj; [done|apply D1|apply D2|by eapply decides_unique].
  - intros (r & (Hr & Hm & _) & _) Hno. by rewrite Hno in Hm.
  - intros Hno (r & (Hr & Hm & _) & _). by rewrite Hno in Hm.
Qed.

Lemma select_target_filed rs m : NoDup (p_position <$> rs) →
  filed rs m (select_target unicode_casefold (merge_sort by_position rs) m None).
Proof.
  intros Hnd. apply (filed_perm (merge_sort by_position rs)); [apply merge_sort_Permutation|].
  destruct (select_target_sorted _ m None (merge_sort_before rs Hnd)) as [[-> Hno]|(r & -> & Hd)];
    [done|by exists r].
Qed.
End Decides.

(** ** Evaluating the published records *)

Section Records.
Context (unicode_casefold : Z → list Z).
Context (decode_header : list Z → result exc (list fragment)).
Context (bytes_decode : list Z → list Z → result exc (list Z)).
Context (parse : list Z → Z * result exc mime).

Notation evaluate := (evaluate_records unicode_casefold decode_header bytes_decode parse).
Notation parsed raw :=
  (parsed_message unicode_casefold decode_header bytes_decode parse raw None NoRecipient).

(** The bridge files a parsed message into the mailbox the enabled
    published rules decide on, independently of the order in which the records
    are stored; the answer is the only right one.  Without a matching rule, and
    for a message that does not parse, it gives no mailbox. *)
Theorem evaluate_records_filed raw_rules raw target :
  evaluate raw_rules raw = Ok target →
  ∃ prepared, prepare_records unicode_casefold [] raw_rules = Ok prepared ∧
    match parsed raw with
    | Ok m => ∀ t, filed unicode_casefold prepared m t ↔ t = target
    | Err _ => target = None
    end.
Proof.
  unfold evaluate_records. intros (prepared & Hp & H)%result_bind_ok. exists prepared. split; [done|].
  case_bool_decide as Hnd; [|done]. cbn [negb] in H. destruct (parsed raw) as [m|e]; [|by injection H as <-].
  injection H as <-. pose proof (select_target_filed unicode_casefold prepared m Hnd) as Hf.
  intros t. split; [|by intros ->]. intros Ht. by eapply filed_unique.
Qed.
End Records.

(** ** The streaming handler *)

Lemma recv_smaller n c b c' : 0 < n → recv n c = (Ok b, c') → b ≠ [] →
  (input_size (incoming c') < input_size (incoming c))%nat.
Proof.
  intros Hn. unfold recv. destruct (incoming c) as [|[d|] rest] eqn:E; [by intros [= <- _]| |done].
  case_match; intros [= <- <-] Hb; cbn [incoming set_incoming]; unfold input_size; simpl; [lia|].
  unfold zlen in *. rewrite length_drop.
  assert (1 ≤ length d)%nat by lia. assert (1 ≤ Z.to_nat n)%nat by lia. lia.
Qed.

Lemma has_char_app c a b : has_char c (a ++ b) = has_char c a || has_char c b.
Proof. apply existsb_app. Qed.

Lemma read_control_pieces fuel control c bs :
  (input_size (incoming c) < fuel)%nat → zlen control ≤ MAX_PROTOCOL_LINE_BYTES + 1 →
  pieces (incoming c) bs →
  ∃ r ev, read_control fuel control c = (Ok r, set_incoming ev c) ∧
    match r with
    | None => has_char 10 (control ++ bs) = false
    | Some control' => ∃ rest, pieces ev rest ∧ control ++ bs = control' ++ rest ∧
        zlen control' ≤ MAX_PROTOCOL_LINE_BYTES + 1 ∧
        (has_char 10 control' = true ∨ MAX_PROTOCOL_LINE_BYTES < zlen control')
    end.
Proof.
  revert control c bs. induction fuel as [|fuel IH]; intros control c bs Hf Hc Hp; [lia|].
  cbn [read_control]. destruct (has_char 10 control || _) eqn:Estop.
  { exists (Some control), (incoming c). split; [by destruct c|]. exists bs. split_and!; [done|done|done|].
    apply orb_true_iff in Estop as [?|?]; [by left|right; lia]. }
  apply orb_false_iff in Estop as [Eno Ele]. destruct bs as [|x bs].
  { exists None, []. rewrite app_nil_r. unfold mbind, eff_mbind, eff_bind, recv.
    rewrite (pieces_nil_inv _ Hp). split; [by destruct c; simpl in *; rewrite (pieces_nil_inv _ Hp)|done]. }
  assert (Hn : 0 < Z.min 4096 (MAX_PROTOCOL_LINE_BYTES + 1 - zlen control)) by lia.
  destruct (recv_pieces _ c (x :: bs) Hn) as (b & bs' & ev' & Hr & Hb & Hbs & Hbl & Hp'); [done|done|].
  pose proof (recv_smaller _ _ _ _ Hn Hr Hb) as Hsm.
  unfold mbind, eff_mbind, eff_bind. rewrite Hr. destruct b as [|y b]; [done|].
  destruct (IH (control ++ y :: b) (set_incoming ev' c) bs') as (r & ev & Hrec & Hres).
  - lia.
  - rewrite zlen_app. lia.
  - done.
  - exists r, ev. split; [exact Hrec|]. rewrite Hbs, app_assoc. exact Hres.
Qed.

Lemma read_message_pieces fuel spool c bs :
  (input_size (incoming c) < fuel)%nat → zlen spool ≤ MAX_FILTER_MESSAGE_BYTES →
  pieces (incoming c) bs →
  ∃ ev, read_message fuel spool c =
    (Ok (if MAX_FILTER_MESSAGE_BYTES <? zlen (spool ++ bs) then None else Some (spool ++ bs)),
     set_incoming ev c).
Proof.
  revert spool c bs. induction fuel as [|fuel IH]; intros spool c bs Hf Hc Hp; [lia|].
  cbn [read_message]. destruct bs as [|x bs].
  { exists []. rewrite app_nil_r. unfold mbind, eff_mbind, eff_bind, recv.
    replace (_ <? zlen spool) with false by lia.
    rewrite (pieces_nil_inv _ Hp). by destruct c; simpl in *; rewrite (pieces_nil_inv _ Hp). }
  assert (Hn : 0 < Z.min (64 * 1024) (MAX_FILTER_MESSAGE_BYTES + 1 - zlen spool)) by lia.
  destruct (recv_pieces _ c (x :: bs) Hn) as (b & bs' & ev' & Hr & Hb & Hbs & Hbl & Hp'); [done|done|].
  pose proof (recv_smaller _ _ _ _ Hn Hr Hb) as Hsm.
  unfold mbind, eff_mbind, eff_bind. rewrite Hr. destruct b as [|y b]; [done|]. rewrite Hbs.
  destruct (Z.ltb_spec MAX_FILTER_MESSAGE_BYTES (zlen spool + zlen (y :: b))) as [Hgt|Hle].
  - exists ev'. rewrite !zlen_app. pose proof (zlen_nonneg bs').
    by replace (_ <? _) with true by lia.
  - destruct (IH (spool ++ y :: b) (set_incoming ev' c) bs') as (ev & Hrec);
      [lia|rewrite zlen_app; lia|done|].
    exists ev. rewrite Hrec, <-app_assoc. done.
Qed.

(** ** The handler against the one-shot evaluation *)

Lemma partition_prefix sep a b : has_char sep a = true →
  ∃ line rem, partition_char sep a = Some (line, rem) ∧
    partition_char sep (a ++ b) = Some (line, rem ++ b).
Proof.
  intros Ha. assert (partition_char sep a ≠ None) as Hne.
  { induction a as [|c a IH]; [done|]. simpl in *.
    rewrite Z.eqb_sym in Ha. destruct (c =? sep); [done|].
    destruct (partition_char sep a) as [[??]|]; [done|]. by apply IH. }
  destruct (partition_char sep a) as [[line rem]|] eqn:E; [|done]. exists line, rem. split; [done|].
  apply partition_char_Some in E as [-> Hn]. apply partition_char_Some.
  by rewrite <-app_assoc.
Qed.

Lemma partition_absent sep a : has_char sep a = false → partition_char sep a = None.
Proof.
  destruct (partition_char sep a) as [[l r]|] eqn:E; [|done]. apply partition_char_Some in E as [-> _].
  unfold has_char. rewrite existsb_app. simpl. rewrite Z.eqb_refl, orb_true_r. done.
Qed.

Lemma caught_is_failure e : catches [OSError; TimeoutError] e = true → evaluation_failure e = true.
Proof. destruct e; vm_compute; congruence. Qed.

Lemma authenticated_total expected_token line : ∃ a, _authenticated_account line expected_token = Ok a.
Proof.
  unfold _authenticated_account. repeat (case_match; eauto; []).
  match goal with |- context [compare_digest ?a expected_token] => set (supplied := a) end.
  assert (Hs : is_ascii supplied = true).
  { match goal with H : split_char 32 line = _ |- _ => rename H into Hsp end.
    match goal with H : negb (is_ascii line) = false |- _ => apply negb_false_iff in H; rename H into Hl end.
    rewrite <-(join_split 32 line), Hsp in Hl. simpl in Hl. unfold is_ascii in *.
    rewrite !forallb_app in Hl. simpl in Hl. rewrite !forallb_app, !andb_true_iff in Hl. tauto. }
  assert (Ht : is_ascii expected_token = true).
  { match goal with H : negb (_TOKEN_RE _) = false |- _ => apply negb_false_iff in H; rename H into Ht end.
    unfold _TOKEN_RE, match_exact in Ht. apply andb_true_iff in Ht as [_ Ht]. unfold is_ascii.
    rewrite forallb_forall in *. intros c Hc. specialize (Ht c Hc). unfold is_hex_lower, is_digit in Ht. lia. }
  unfold compare_digest. rewrite Hs, Ht. cbn [andb mbind result_mbind result_bind].
  case_match; [eauto|]. destruct (canonicalize_email _) eqn:E; [eauto|].
  apply canonicalize_email_err in E as ->. simpl. eauto.
Qed.

Lemma authenticated_canonical expected_token line account :
  _authenticated_account line expected_token = Ok (Some account) →
  ∃ v, canonicalize_email v = Ok account.
Proof.
  unfold _authenticated_account. repeat (case_match; try discriminate);
  intros (b & _ & H')%result_bind_ok; destruct (negb b); simplify_eq; eauto.
Qed.

Section Handler.
Context (unicode_casefold : Z → list Z).
Context (decode_header : list Z → result exc (list fragment)).
Context (bytes_decode : list Z → list Z → result exc (list Z)).
Context (parse : list Z → Z * result exc mime).
Context (os : kernel) (snapshot_dir : list Z).
Context (py_float : list Z → pyfloat) (decode_lenient : list Z → option (list Z)).
Context (expected_token : list Z).

Notation evaluate_filter_message := (evaluate_filter_message unicode_casefold decode_header
  bytes_decode parse os snapshot_dir py_float decode_lenient).
Notation evaluate_bridge_payload := (evaluate_bridge_payload unicode_casefold decode_header
  bytes_decode parse os snapshot_dir py_float decode_lenient).
Notation handle_request := (handle_request unicode_casefold decode_header bytes_decode parse os
  snapshot_dir py_float decode_lenient).
Notation handle := (handle unicode_casefold decode_header bytes_decode parse os snapshot_dir
  py_float decode_lenient).

Definition answered (c : conn) (ev : list event) (response : list Z) : conn :=
  Conn ev (sent c ++ response) (writable c) (source c) (sink c).

Lemma on_conn_bind {A X} (m : IO A) (f : A → B X) c s a c' :
  m c = (Ok a, c') → (on_conn m ≫= f) (MkBridge c s) = f a (MkBridge c' s).
Proof. intros H. unfold mbind, eff_mbind, eff_bind, on_conn. simpl. by rewrite H. Qed.

Ltac run_lift := repeat match goal with |- context [(lift (Ok ?a) ≫= ?f) ?st] =>
  change ((lift (Ok a) ≫= f) st) with (f a st); cbv beta end.

(** What is sent for an evaluation, in both forms of the bridge. *)
Definition evaluated (account raw : list Z) (s : fs) : result exc (list Z) * fs :=
  (target ← attempt evaluation_failure (evaluate_filter_message account raw);
   mret (_render_filter_target (default None target))) s.

Lemma send_evaluated account raw c s : writable c = true →
  (target ← attempt evaluation_failure (on_fs (evaluate_filter_message account raw));
   match _render_filter_target (default None target) with
   | [] => mret tt
   | response => on_conn (sendall response)
   end) (MkBridge c s) =
  match evaluated account raw s with
  | (Ok response, s') => (Ok tt, MkBridge (answered c (incoming c) response) s')
  | (Err e, s') => (Err e, MkBridge (answered c (incoming c) []) s')
  end.
Proof.
  intros Hw. unfold evaluated, mbind, eff_mbind, eff_bind, attempt, on_fs. cbn [b_fs b_conn].
  destruct (evaluate_filter_message account raw s) as [[t|e] s'].
  - cbn [default id from_option]. destruct (_render_filter_target t) as [|x r].
    + unfold mret, eff_ret, answered. rewrite app_nil_r. by destruct c.
    + unfold mret, eff_ret, on_conn, sendall, answered. cbn [b_conn b_fs]. by rewrite Hw.
  - destruct (evaluation_failure e); cbn; unfold answered; rewrite app_nil_r; by destruct c.
Qed.

(** An oversized message has no effect. *)
Lemma evaluated_too_large v account raw s : canonicalize_email v = Ok account →
  MAX_FILTER_MESSAGE_BYTES < zlen raw → evaluated account raw s = (Ok [], s).
Proof.
  intros Ha Hraw. unfold evaluated, mbind, eff_mbind, eff_bind, attempt, FilterBridge.evaluate_filter_message.
  rewrite (canonical_fixed _ _ Ha). unfold lift, mbind, eff_mbind, eff_bind.
  by replace ((1 <=? zlen raw) && (zlen raw <=? MAX_FILTER_MESSAGE_BYTES)) with false by lia.
Qed.

Ltac to_evaluated account raw := match goal with
  | |- _ = (let (_, _) := _ ?s in _) => match goal with
    | |- _ = (let (_, _) := ?t in _) => change t with (evaluated account raw s) end end.

Lemma request_spec payload c s :
  pieces (incoming c) payload → writable c = true →
  zlen payload ≤ MAX_PROTOCOL_LINE_BYTES + MAX_FILTER_MESSAGE_BYTES →
  ∃ ev, handle_request expected_token (MkBridge c s) =
    match evaluate_bridge_payload payload expected_token s with
    | (Ok response, s') => (Ok tt, MkBridge (answered c ev response) s')
    | (Err e, s') => (Err e, MkBridge (answered c ev []) s')
    end.
Proof.
  intros Hp Hw Hlen. unfold FilterBridge.handle_request, FilterBridge.evaluate_bridge_payload.
  assert (Hnone : ∀ ev, set_incoming ev c = answered c ev [])
    by (intros ev; unfold answered; by rewrite app_nil_r).
  destruct (read_control_pieces (S (input_size (incoming c))) [] c payload) as (r & ev & Hr & Hres);
    [lia|done|done|]. simpl in Hres. erewrite on_conn_bind by exact Hr.
  destruct r as [control|].
  2:{ exists ev. rewrite (partition_absent _ _ Hres), Hnone. by destruct (_ && _). }
  destruct Hres as (rest & Hp1 & -> & Hshort & Hcut). destruct (has_char 10 control) eqn:Hlf.
  2:{ exists ev. rewrite (partition_absent _ _ Hlf), Hnone. destruct Hcut as [?|Hcut]; [done|].
      destruct (_ && _); [|done]. cbn [negb].
      destruct (partition_char 10 (control ++ rest)) as [[line raw]|] eqn:E; [|done].
      apply partition_char_Some in E as [E Hn].
      assert (MAX_PROTOCOL_LINE_BYTES < zlen line) as Hl.
      { apply not_true_iff_false in Hlf. rewrite has_char_spec in Hlf.
        apply app_eq_app in E as (k & [[-> E]|[-> E]]).
        - destruct k as [|x k]; [by rewrite app_nil_r in Hcut|].
          injection E as <- _. exfalso. apply Hlf, elem_of_app. right. left.
        - rewrite zlen_app. pose proof (zlen_nonneg k). lia. }
      by replace (bool_decide (raw = []) || (MAX_PROTOCOL_LINE_BYTES <? zlen line)) with true by lia. }
  clear Hcut. destruct (partition_prefix 10 control rest Hlf) as (line & rem & Hpc & Hpa).
  rewrite Hpc, Hpa. destruct (authenticated_total expected_token line) as [account Ha].
  destruct (Z.ltb_spec MAX_PROTOCOL_LINE_BYTES (zlen line)) as [Hl|Hl].
  { exists ev. rewrite Hnone, orb_true_r. by destruct (negb _). }
  apply partition_char_Some in Hpc as [-> Hn].
  assert (Hsize : 1 ≤ zlen ((line ++ 10 :: rem) ++ rest)).
  { rewrite !zlen_app, zlen_cons. pose proof (zlen_nonneg line). pose proof (zlen_nonneg rem).
    pose proof (zlen_nonneg rest). lia. }
  replace ((1 <=? _) && _) with true by lia. cbn [negb]. rewrite orb_false_r.
  rewrite Ha. run_lift. destruct account as [account|].
  2:{ exists ev. rewrite Hnone. by destruct (bool_decide _). }
  assert (Hrem : zlen rem ≤ MAX_FILTER_MESSAGE_BYTES).
  { rewrite zlen_app, zlen_cons in Hshort. pose proof (zlen_nonneg line).
    unfold MAX_PROTOCOL_LINE_BYTES, MAX_FILTER_MESSAGE_BYTES in *. lia. }
  destruct (read_message_pieces (S (input_size ev)) rem (set_incoming ev c) rest) as (ev' & Hrm);
    [simpl; lia|exact Hrem|done|].
  erewrite on_conn_bind by exact Hrm. rewrite set_incoming_twice. exists ev'. clear Hrm Hpa Hp Hlen Hsize.
  destruct (Z.ltb_spec MAX_FILTER_MESSAGE_BYTES (zlen (rem ++ rest))) as [Hbig|Hfit].
  { destruct (authenticated_canonical _ _ _ Ha) as [v Hv].
    rewrite bool_decide_false by (intros Hnil; by rewrite Hnil in Hbig).
    to_evaluated account (rem ++ rest). by rewrite (evaluated_too_large v), Hnone. }
  destruct (rem ++ rest) as [|x raw] eqn:Eraw; [by rewrite Hnone|]. rewrite bool_decide_false by done.
  to_evaluated account (x :: raw). by rewrite send_evaluated.
Qed.

(** A well-formed request is evaluated for its account. *)
Lemma payload_evaluated line raw account s :
  _authenticated_account line expected_token = Ok (Some account) → 10 ∉ line →
  zlen line ≤ MAX_PROTOCOL_LINE_BYTES → raw ≠ [] →
  zlen ((line ++ [10]) ++ raw) ≤ MAX_PROTOCOL_LINE_BYTES + MAX_FILTER_MESSAGE_BYTES →
  evaluate_bridge_payload ((line ++ [10]) ++ raw) expected_token s = evaluated account raw s.
Proof.
  intros Ha Hn Hl Hne Hlen. unfold FilterBridge.evaluate_bridge_payload.
  assert (1 ≤ zlen ((line ++ [10]) ++ raw)).
  { rewrite !zlen_app. pose proof (zlen_nonneg line). pose proof (zlen_nonneg raw).
    change (zlen [10]) with 1. lia. }
  replace ((1 <=? _) && _) with true by lia. cbn [negb]. rewrite <-app_assoc. simpl.
  rewrite partition_char_app by done. rewrite bool_decide_false by done.
  replace (MAX_PROTOCOL_LINE_BYTES <? zlen line) with false by lia. cbn [orb]. by rewrite Ha.
Qed.

(** Only what [evaluation_failure] lets through escapes. *)
Lemma payload_error payload s e s' :
  evaluate_bridge_payload payload expected_token s = (Err e, s') → evaluation_failure e = false.
Proof.
  unfold FilterBridge.evaluate_bridge_payload. destruct (negb _); [done|].
  destruct (partition_char 10 payload) as [[line raw]|]; [|done]. destruct (_ || _); [done|].
  destruct (authenticated_total expected_token line) as [account Ha]. rewrite Ha. run_lift.
  destruct account as [account|]; [|done]. unfold mbind, eff_mbind, eff_bind, attempt.
  destruct (evaluate_filter_message _ _ s) as [[t|e'] s'']; [done|].
  destruct (evaluation_failure e') eqn:E; [done|]. by intros [= <- <-].
Qed.

(** C36: The handler of a connection, which reads the request in the
    pieces the transport delivers and stops as soon as it can refuse it, sends
    exactly the answer [evaluate_bridge_payload] gives for the whole request
    and leaves the same files; an exception that escapes the one-shot
    evaluation escapes the handler, with nothing sent. *)
Theorem bridge_handler_equivalence payload c s :
  pieces (incoming c) payload → writable c = true →
  zlen payload ≤ MAX_PROTOCOL_LINE_BYTES + MAX_FILTER_MESSAGE_BYTES →
  ∃ ev, handle expected_token (MkBridge c s) =
    match evaluate_bridge_payload payload expected_token s with
    | (Ok response, s') => (Ok tt, MkBridge (answered c ev response) s')
    | (Err e, s') => (Err e, MkBridge (answered c ev []) s')
    end.
Proof.
  intros Hp Hw Hlen. destruct (request_spec payload c s Hp Hw Hlen) as [ev Hreq]. exists ev.
  unfold FilterBridge.handle, mbind at 1, eff_mbind, eff_bind, attempt. rewrite Hreq.
  destruct (evaluate_bridge_payload payload expected_token s) as [[r|e] s'] eqn:He; [done|].
  destruct (catches [OSError; TimeoutError] e) eqn:Hc; [|done].
  apply caught_is_failure in Hc. apply payload_error in He. congruence.
Qed.
End Handler.

(** * Delivery-time filtering: the client

    The command the mail server runs fails open: it ends with status 0 and
    prints either nothing or one well-formed line.  With the bridge it prints
    the mailbox the bridge chose. *)

From S2P Require Import Prelude Text Errors Identity Dict Json RuleDoc RuleMessage RuleEval Protocol ProtocolSpecs Csrf Security Fs Snapshots SnapshotSpecs FilterBridge FilterClient.

#[local] Set Default Proof Using "Type*".

(** What the mail server can take for a mailbox name. *)
Definition mailbox_line (line : list Z) : Prop :=
  line ≠ [] ∧ zlen line ≤ 1024 ∧ 10 ∉ line ∧ 13 ∉ line ∧
  ∃ s, utf8_decode line = Some s ∧ _contains_forbidden_header_characters s = false.

Lemma validated_response_line r : _validated_response r ≠ [] →
  ∃ line, r = line ++ [10] ∧ _validated_response r = r ∧ mailbox_line line.
Proof.
  unfold _validated_response. destruct (reverse r) as [|c rest] eqn:E; [done|].
  assert (r = reverse rest ++ [c]) as -> by (rewrite <-(reverse_involutive r), E; apply reverse_cons).
  intros H. assert (c = 10) as -> by (repeat case_match; done). revert H.
  destruct (_ || _) eqn:Ebad; [done|]. destruct (utf8_decode (reverse rest)) as [[|x s]|] eqn:Ed; try done.
  destruct (_contains_forbidden_header_characters _) eqn:Ef; [done|]. intros _.
  exists (reverse rest). split_and!; [done|done|]. unfold MAX_FILTER_RESPONSE_BYTES in Ebad.
  apply orb_false_iff in Ebad as [[Hl H10]%orb_false_iff H13].
  apply not_true_iff_false in H10, H13. rewrite has_char_spec in H10, H13.
  rewrite zlen_app in Hl. change (zlen [10]) with 1 in Hl.
  split_and!.
  - intros Hnil. by rewrite Hnil in Ed.
  - lia.
  - by rewrite elem_of_reverse.
  - intros Hin. apply H13, elem_of_app. by left.
  - eauto.
Qed.

(** ** Every failure is one the command absorbs *)

Definition absorbed : exc → bool := catches [FilterClientError; OSError; TimeoutError; ValueError].

(** Code that leaves the standard output alone and raises only what the
    command absorbs. *)
Definition silent {A} (m : IO A) : Prop :=
  ∀ c, wpf m (λ _ c', sink c' = sink c) (λ e c', sink c' = sink c ∧ absorbed e = true) c.

Lemma silent_bind {A B} (m : IO A) (f : A → IO B) : silent m → (∀ a, silent (f a)) → silent (m ≫= f).
Proof.
  intros Hm Hf c. apply wpf_bind. eapply wpf_mono; [apply Hm| |done]. intros a c1 H1.
  eapply wpf_mono; [apply Hf| |]; simpl; rewrite H1; done.
Qed.
Lemma silent_lift {A} (r : result exc A) : (∀ e, r = Err e → absorbed e = true) → silent (lift r).
Proof. intros Hr c. apply wpf_lift. destruct r; [done|]. split; [done|by apply Hr]. Qed.
Lemma silent_recv n : silent (recv n).
Proof. intros c. unfold wpf, recv. by repeat case_match; simplify_eq/=. Qed.
Lemma silent_sendall b : silent (sendall b).
Proof. intros c. unfold wpf, sendall. by repeat case_match; simplify_eq/=. Qed.
Lemma silent_source n : silent (source_read n).
Proof. intros c. unfold wpf, source_read. by repeat case_match; simplify_eq/=. Qed.

Lemma source_shorter n c r c' : source_read n c = (Ok r, c') →
  r = ReadBytes [] ∨ (length (source c') < length (source c))%nat.
Proof. unfold source_read. case_match; intros [= <- <-]; [by left|right; simpl; lia]. Qed.

(** Each round of the loops uses a read, so the fuel is enough. *)
Lemma forward_silent fuel n c : (length (source c) < fuel)%nat →
  wpf (forward fuel n) (λ _ c', sink c' = sink c) (λ e c', sink c' = sink c ∧ absorbed e = true) c.
Proof.
  revert n c. induction fuel as [|fuel IH]; intros n c Hf; [lia|]. cbn [forward]. apply wpf_bind.
  unfold wpf at 1. destruct (source_read _ c) as [[r|e] c1] eqn:Hr.
  2:{ pose proof (silent_source (Z.min (64 * 1024) (MAX_FILTER_MESSAGE_BYTES + 1 - n)) c) as Hq.
      unfold wpf in Hq. by rewrite Hr in Hq. }
  pose proof (silent_source (Z.min (64 * 1024) (MAX_FILTER_MESSAGE_BYTES + 1 - n)) c) as Hq.
  unfold wpf in Hq. rewrite Hr in Hq. pose proof (source_shorter _ _ _ _ Hr) as Hs.
  destruct r as [[|x b]|[|x b]]; try done. destruct Hs as [?|Hs]; [done|].
  case_match; [done|]. apply wpf_bind. unfold wpf at 1, sendall.
  destruct (writable c1); [|done]. eapply wpf_mono; [apply IH; simpl; lia| |]; simpl; by rewrite Hq.
Qed.

Lemma read_response_silent fuel r c : (input_size (incoming c) < fuel)%nat →
  wpf (read_response fuel r) (λ _ c', sink c' = sink c) (λ e c', sink c' = sink c ∧ absorbed e = true) c.
Proof.
  revert r c. induction fuel as [|fuel IH]; intros r c Hf; [lia|]. cbn [read_response].
  destruct (Z.leb_spec (zlen r) MAX_FILTER_RESPONSE_BYTES) as [Hle|]; [|done]. apply wpf_bind.
  pose proof (silent_recv (MAX_FILTER_RESPONSE_BYTES + 1 - zlen r) c) as Hq. unfold wpf in Hq |- * at 1.
  destruct (recv _ c) as [[b|e] c1] eqn:Hr; [|done]. destruct b as [|x b]; [done|].
  assert (Hsm : (input_size (incoming c1) < input_size (incoming c))%nat)
    by (eapply recv_smaller; [|exact Hr|done]; lia).
  eapply wpf_mono; [apply IH; lia| |]; simpl; by rewrite Hq.
Qed.

Section Client.
Context (env : client_env).

(** What [lstat] and [read] raise. *)
Definition os_failures : Prop := ∀ path e,
  (cf_stat (files env path) = Err e → catches [OSError] e = true) ∧
  (cf_bytes (files env path) = Err e → catches [OSError] e = true).

Lemma os_absorbed e : catches [OSError] e = true → absorbed e = true.
Proof. destruct e; vm_compute; congruence. Qed.

Lemma read_root_owned_err path e : os_failures →
  _read_root_owned_client_file env path = Err e → absorbed e = true.
Proof.
  intros Hos. unfold _read_root_owned_client_file. case_match; [by intros [= <-]|].
  intros [H1|(st & _ & H1)]%result_bind_err; [by eapply os_absorbed, (proj1 (Hos path e))|].
  repeat (case_match; simplify_eq; try done).
  unfold read_text_ascii in *.
  match goal with H : _ ≫= _ = Err e |- _ => rename H into Hread end.
  apply result_bind_err in Hread as [Hread|(b & _ & Hread)].
  - by eapply os_absorbed, (proj2 (Hos path e)).
  - case_match; [done|]. by injection Hread as <-.
Qed.

Lemma load_endpoint_err path e : os_failures → load_client_endpoint env path = Err e → absorbed e = true.
Proof.
  intros Hos. unfold load_client_endpoint. intros [H|(v & _ & H)]%result_bind_err.
  - by eapply read_root_owned_err.
  - case_match; [done|]. by injection H as <-.
Qed.

Lemma load_token_err path e : os_failures → load_client_token env path = Err e → absorbed e = true.
Proof.
  intros Hos. unfold load_client_token. intros [H|(v & _ & H)]%result_bind_err.
  - by eapply read_root_owned_err.
  - case_match; [done|]. by injection H as <-.
Qed.

Lemma ascii_encode_err s e : ascii_encode s = Err e → absorbed e = true.
Proof. unfold ascii_encode. case_match; [done|]. by intros [= <-]. Qed.

Lemma run_client_outcome account endpoint_file token_file c : os_failures →
  wpf (run_client env account endpoint_file token_file)
    (λ _ c', sink c' = sink c ∨ ∃ line, sink c' = sink c ++ line ++ [10] ∧ mailbox_line line)
    (λ e c', sink c' = sink c ∧ absorbed e = true) c.
Proof.
  intros Hos. unfold run_client.
  assert (Hstep : ∀ A (r : result exc A) (f : A → IO unit) c0, sink c0 = sink c →
    (∀ e, r = Err e → absorbed e = true) →
    (∀ a, r = Ok a → wpf (f a) (λ _ c', sink c' = sink c ∨ ∃ line, sink c' = sink c ++ line ++ [10] ∧ mailbox_line line)
       (λ e c', sink c' = sink c ∧ absorbed e = true) c0) →
    wpf (lift r ≫= f) (λ _ c', sink c' = sink c ∨ ∃ line, sink c' = sink c ++ line ++ [10] ∧ mailbox_line line)
       (λ e c', sink c' = sink c ∧ absorbed e = true) c0).
  { intros A r f c0 Hc0 He Hf. apply wpf_bind, wpf_lift. destruct r as [a|e]; [by apply Hf|].
    split; [done|by apply He]. }
  apply Hstep; [done|intros e ->%canonicalize_email_err; done|]. intros a Ha.
  apply Hstep; [done|intros e; by apply load_endpoint_err|]. intros ep _.
  apply Hstep; [done|intros e; by apply load_token_err|]. intros t _.
  apply Hstep; [done|apply ascii_encode_err|]. intros t' _.
  apply Hstep; [done|apply ascii_encode_err|]. intros a' _.
  apply wpf_bind. destruct (reachable env); [apply wpf_ret|by apply wpf_throw].
  apply wpf_bind. eapply wpf_mono; [apply silent_sendall| |done]. intros [] c1 H1.
  apply wpf_bind. apply (wpf_mono _ (λ _ c', sink c' = sink c1) _ (λ e c', sink c' = sink c1 ∧ absorbed e = true));
    [apply forward_silent; lia| |by rewrite H1]. intros n c2 H2.
  destruct (n =? 0); [split; [congruence|done]|]. apply wpf_bind.
  apply (wpf_mono _ (λ _ c', sink c' = sink c2) _ (λ e c', sink c' = sink c2 ∧ absorbed e = true));
    [apply read_response_silent; lia| |by rewrite H2, H1]. intros r c3 H3.
  destruct (_validated_response r) as [|x l] eqn:E; [left; simpl; congruence|right].
  destruct (validated_response_line r) as (line & Hr & Hv & Hline); [by rewrite E|].
  rewrite <-E, Hv, Hr. exists line. simpl. by rewrite H3, H2, H1.
Qed.

(** C37: The command fails open.  Whatever the configuration files, the
    network and the bridge do, it ends with status 0 and its standard output
    is unchanged or gains exactly one line, valid UTF-8 without control
    characters and at most 1024 bytes long. *)
Theorem filter_client_fail_open account endpoint_file token_file c :
  os_failures →
  ∃ c', run_filter_client env account endpoint_file token_file c = (Ok 0, c') ∧
    (sink c' = sink c ∨ ∃ line, sink c' = sink c ++ line ++ [10] ∧ mailbox_line line).
Proof.
  intros Hos. pose proof (run_client_outcome account endpoint_file token_file c Hos) as H.
  unfold run_filter_client, wpf, attempt, mbind, eff_mbind, eff_bind in *.
  destruct (run_client _ _ _ _ c) as [[[]|e] c']; [by eauto|]. destruct H as [Hs He].
  unfold absorbed in He. rewrite He. by eauto.
Qed.
End Client.

(** * Delivery-time filtering: client and bridge together

    The line the client prints is the mailbox the bridge's rules chose; between
    them lie the request line, the transport's pieces, the rendering of the
    answer and its validation. *)

From S2P Require Import Prelude Text Errors Identity Dict Json RuleDoc RuleDocSpecs RuleMessage RuleEval Protocol ProtocolSpecs Csrf Security Fs Snapshots SnapshotSpecs FilterBridge FilterClient.

#[local] Set Default Proof Using "Type*".

(** ** The request line *)

Lemma space_free s : Forall (λ c, is_space c = false ∧ c <? 128 = true) s →
  is_ascii s = true ∧ 32 ∉ s ∧ 10 ∉ s.
Proof.
  intros Hs. rewrite Forall_forall in Hs. split_and!.
  - apply forallb_forall. intros c Hc. by apply Hs, list_elem_of_In.
  - by intros [? _]%Hs.
  - by intros [? _]%Hs.
Qed.

Lemma token_text_free t : _TOKEN_RE t = true →
  zlen t = 64 ∧ Forall (λ c, is_space c = false ∧ c <? 128 = true) t.
Proof.
  unfold _TOKEN_RE, match_exact. intros [Hl Ht]%andb_true_iff. split; [lia|].
  apply Forall_forall. intros c Hc. rewrite forallb_forall in Ht.
  apply list_elem_of_In, Ht in Hc. unfold is_hex_lower, is_digit in Hc. unfold is_space. lia.
Qed.

Lemma request_authenticated v account t :
  canonicalize_email v = Ok account → _TOKEN_RE t = true →
  let line := join [32] [FILTER_PROTOCOL; t; account] in
  _authenticated_account line t = Ok (Some account) ∧ 10 ∉ line ∧ zlen line < MAX_PROTOCOL_LINE_BYTES.
Proof.
  intros Ha Ht line. destruct (canonical_text _ _ Ha) as [Hla Hta]. destruct (token_text_free t Ht) as [Hlt Htt].
  destruct (space_free _ Hta) as (A1 & A2 & A3). destruct (space_free _ Htt) as (T1 & T2 & T3).
  assert (Hf : Forall (λ f, 32 ∉ f) [FILTER_PROTOCOL; t; account]).
  { repeat constructor; [|done|done]. apply (bool_decide_unpack _). vm_compute. reflexivity. }
  assert (Hline : line = FILTER_PROTOCOL ++ 32 :: t ++ 32 :: account) by done.
  assert (Hlen : zlen line < MAX_PROTOCOL_LINE_BYTES).
  { rewrite Hline, zlen_app, zlen_cons, zlen_app, zlen_cons.
    change (zlen FILTER_PROTOCOL) with 17. unfold MAX_PROTOCOL_LINE_BYTES. lia. }
  assert (Hasc : is_ascii line = true).
  { rewrite Hline. unfold is_ascii in *. rewrite forallb_app. simpl. rewrite forallb_app. simpl.
    by rewrite T1, A1. }
  split_and!; [|rewrite Hline; clear Hf Hasc Hlen Hline|done].
  - unfold _authenticated_account. rewrite bool_decide_false by (by rewrite Hline).
    replace (MAX_PROTOCOL_LINE_BYTES <? zlen line) with false by lia. rewrite Hasc. cbn [negb orb].
    unfold line. rewrite split_join by done. unfold str_eqb at 1. rewrite bool_decide_true by done.
    rewrite Ht. cbn [negb]. unfold compare_digest. rewrite T1. cbn [andb mbind result_mbind result_bind].
    unfold str_eqb. rewrite bool_decide_true by done. cbn [negb].
    by rewrite (canonical_fixed _ _ Ha).
  - rewrite elem_of_app, elem_of_cons, elem_of_app, elem_of_cons.
    intros [H|[H|[H|[H|H]]]]; try done. revert H. apply (bool_decide_unpack _). vm_compute. reflexivity.
Qed.

(** ** The answer *)

Lemma utf8_ascii_elem s b c : utf8_encode s = Some b → 0 ≤ c < 128 → c ∈ b → c ∈ s.
Proof.
  revert b. induction s as [|d s IH]; intros b; simpl; [by intros [= <-]|].
  destruct (utf8_char d) as [x|] eqn:Ed; [|done]. destruct (utf8_encode s) as [y|]; [|done].
  intros [= <-] Hc [Hx|Hy]%elem_of_app; [|right; by eapply IH].
  assert (c = d) as ->; [|left]. unfold utf8_char in Ed. repeat (case_match; try discriminate); injection Ed as <-.

  all: rewrite !elem_of_cons, elem_of_nil in Hx; Z.to_euclidean_division_equations; lia.
Qed.

(** A target mailbox as [Rule] accepts it. *)
Definition valid_mailbox (mailbox : list Z) : Prop :=
  _validate_target_mailbox (JStr mailbox) = Ok mailbox.

Lemma render_valid mailbox : valid_mailbox mailbox →
  ∃ rendered, utf8_encode mailbox = Some rendered ∧
    _render_filter_target (Some mailbox) = rendered ++ [10] ∧
    _validated_response (rendered ++ [10]) = rendered ++ [10].
Proof.
  unfold valid_mailbox, _validate_target_mailbox. intros (m & Hv & _)%result_bind_ok.
  apply validate_text_ok in Hv as ([= <-] & Hne & Hsafe & rendered & He & Hb & Hl).
  exists rendered. split; [done|].
  assert (Hclean : ∀ c, c ∈ mailbox → unsafe_char c = false).
  { intros c Hc. apply not_true_iff_false. intros Hu. apply not_true_iff_false in Hsafe. apply Hsafe.
    apply existsb_exists. exists c. split; [by apply list_elem_of_In|done]. }
  assert (H10 : has_char 10 rendered = false).
  { apply not_true_iff_false. rewrite has_char_spec. intros Hin.
    by eapply utf8_ascii_elem in Hin as Hm%Hclean; [|exact He|lia]. }
  assert (H13 : has_char 13 rendered = false).
  { apply not_true_iff_false. rewrite has_char_spec. intros Hin.
    by eapply utf8_ascii_elem in Hin as Hm%Hclean; [|exact He|lia]. }
  assert (Hr : rendered ≠ []) by (intros ->; apply utf8_roundtrip in He; simpl in He; by injection He as <-).
  split.
  - unfold _render_filter_target. cbn [mbind option_bind]. rewrite He. destruct rendered; [done|].
    rewrite H10, H13. unfold MAX_TARGET_MAILBOX_BYTES in *. by replace (1024 <? _) with false by lia.
  - unfold _validated_response. rewrite reverse_app. change (reverse [10]) with [10].
    change ([10] ++ reverse rendered) with (10 :: reverse rendered). cbv iota.
    rewrite reverse_involutive, (utf8_roundtrip _ _ He).
    assert (Hrev : has_char 10 (reverse rendered) = false).
    { apply not_true_iff_false. rewrite has_char_spec, elem_of_reverse, <-has_char_spec. by rewrite H10. }
    rewrite Hrev, has_char_app, H13, zlen_app. change (zlen [10]) with 1. change (has_char 13 [10]) with false.
    unfold MAX_FILTER_RESPONSE_BYTES, MAX_TARGET_MAILBOX_BYTES in *.
    replace (1025 <? _) with false by lia. cbn [orb]. destruct mailbox as [|x l]; [done|].
    replace (_contains_forbidden_header_characters (x :: l)) with false; [done|]. symmetry.
    apply not_true_iff_false. intros (c & Hc & Hbad)%existsb_exists.
    apply list_elem_of_In, Hclean in Hc. unfold unsafe_char in Hc. lia.
Qed.

(** ** The client's loops *)

(** The standard input yields [msg] in non-empty reads. *)
Definition stdin_reads (msg : list Z) (c : conn) : Prop :=
  ∃ bs, source c = ReadBytes <$> bs ∧ Forall (λ b, b ≠ []) bs ∧ mjoin bs = msg.

Lemma forward_reads fuel bs n c :
  (length (source c) < fuel)%nat → source c = ReadBytes <$> bs → Forall (λ b, b ≠ []) bs →
  n + zlen (mjoin bs) ≤ MAX_FILTER_MESSAGE_BYTES → writable c = true →
  forward fuel n c =
    (Ok (n + zlen (mjoin bs)), Conn (incoming c) (sent c ++ mjoin bs) true [] (sink c)).
Proof.
  revert bs n c. induction fuel as [|fuel IH]; intros bs n c Hf Hs Hb Hn Hw; [lia|].
  cbn [forward]. unfold mbind at 1, eff_mbind, eff_bind, source_read. rewrite Hs.
  destruct bs as [|b bs]; cbn [fmap list_fmap].
  { change (zlen (mjoin [])) with 0. rewrite Z.add_0_r. simpl. rewrite app_nil_r. destruct c; simpl in *; by subst. }
  apply Forall_cons in Hb as [Hne Hb]. change (mjoin (b :: bs)) with (b ++ mjoin bs) in *.
  rewrite zlen_app in *. pose proof (zlen_nonneg (mjoin bs)). destruct b as [|x b]; [done|].
  replace (MAX_FILTER_MESSAGE_BYTES <? n + zlen (x :: b)) with false by lia.
  unfold mbind, eff_mbind, eff_bind, sendall. cbn [writable]. rewrite Hw.
  rewrite (IH bs); [cbn [incoming sent sink]; by rewrite <-app_assoc, Z.add_assoc|..]; try done; try lia.
  rewrite Hs, length_fmap in Hf. cbn [source]. rewrite length_fmap. simpl in Hf. lia.
Qed.

Lemma read_response_pieces fuel r bs c :
  (input_size (incoming c) < fuel)%nat → pieces (incoming c) bs →
  zlen (r ++ bs) ≤ MAX_FILTER_RESPONSE_BYTES →
  read_response fuel r c = (Ok (r ++ bs), set_incoming [] c).
Proof.
  revert r bs c. induction fuel as [|fuel IH]; intros r bs c Hf Hp Hl; [lia|].
  cbn [read_response]. pose proof (zlen_nonneg bs). rewrite zlen_app in Hl.
  replace (zlen r <=? MAX_FILTER_RESPONSE_BYTES) with true by lia. destruct bs as [|x bs].
  { unfold mbind, eff_mbind, eff_bind, recv. pose proof (pieces_nil_inv _ Hp) as Hi. rewrite Hi.
    rewrite app_nil_r. by destruct c; simpl in *; subst. }
  assert (Hn : 0 < MAX_FILTER_RESPONSE_BYTES + 1 - zlen r) by lia.
  destruct (recv_pieces _ c (x :: bs) Hn) as (b & bs' & ev' & Hr & Hb & Hbs & Hbl & Hp'); [done|done|].
  pose proof (recv_smaller _ _ _ _ Hn Hr Hb) as Hsm.
  unfold mbind, eff_mbind, eff_bind. rewrite Hr. destruct b as [|y b]; [done|].
  rewrite Hbs, app_assoc. rewrite (IH (r ++ y :: b) bs' (set_incoming ev' c)); [done|lia|done|].
  rewrite <-app_assoc, <-Hbs, zlen_app. lia.
Qed.

(** ** Client and bridge *)

Section Pipeline.
Context (env : client_env) (account endpoint_file token_file : list Z).

(** The configuration the client starts with. *)
Definition client_ready (canonical token : list Z) : Prop :=
  canonicalize_email account = Ok canonical ∧
  (∃ endpoint, load_client_endpoint env endpoint_file = Ok endpoint) ∧
  load_client_token env token_file = Ok token ∧ reachable env = true.

Lemma client_token path t : load_client_token env path = Ok t → _TOKEN_RE t = true.
Proof.
  unfold load_client_token. intros (v & _ & H)%result_bind_ok. destruct (_ && _) eqn:E; [|done].
  by injection H as ->.
Qed.

(** A client whose peer answers [R] sends the request and prints what it
    validates. *)
Lemma client_run canonical token msg R c :
  client_ready canonical token → stdin_reads msg c → writable c = true →
  1 ≤ zlen msg ≤ MAX_FILTER_MESSAGE_BYTES → pieces (incoming c) R → zlen R ≤ MAX_FILTER_RESPONSE_BYTES →
  run_filter_client env account endpoint_file token_file c =
    (Ok 0, Conn [] (sent c ++ request_line token canonical ++ msg) true []
             (sink c ++ _validated_response R)).
Proof.
  intros (Ha & [ep Hep] & Ht & Hreach) (bs & Hs & Hb & <-) Hw Hl Hp HR.
  destruct (canonical_text _ _ Ha) as [_ Hta]. destruct (token_text_free token) as [_ Htt];
    [by eapply client_token|].
  destruct (space_free _ Hta) as (A1 & _). destruct (space_free _ Htt) as (T1 & _).
  unfold run_filter_client, attempt, run_client. rewrite Ha, Hep, Ht, Hreach.
  unfold mbind, eff_mbind, eff_bind. cbn [lift]. unfold ascii_encode. rewrite T1, A1.
  cbn [lift]. unfold mret, eff_ret, sendall at 1. rewrite Hw.
  rewrite (forward_reads _ bs); [|simpl; lia|done|done|lia|done].
  replace (0 + zlen (mjoin bs) =? 0) with false by lia. unfold with_fuel.
  rewrite (read_response_pieces _ [] R); [|simpl; lia|done|done].
  cbn [app incoming sent sink]. destruct (_validated_response R) as [|x l] eqn:E.
  - rewrite app_nil_r. unfold set_incoming. simpl. by rewrite <-app_assoc.
  - unfold sink_write, set_incoming. simpl. by rewrite <-app_assoc.
Qed.
End Pipeline.

(** ** Chosen mailboxes are valid *)

Section Targets.
Context (unicode_casefold : Z → list Z).

Definition prepared_ok (p : prepared_rule) : Prop :=
  valid_mailbox (target_mailbox (rule (p_rule p))).

Lemma prepare_record_ok seen v i p :
  prepare_record unicode_casefold seen v = Ok (i, Some p) → prepared_ok p.
Proof.
  unfold prepare_record. repeat (case_match; try discriminate).
  intros (r & Hr & H')%result_bind_ok. apply result_bind_ok in H' as (c & Hc & H').
  injection H' as _ <-. unfold prepared_ok. simpl. unfold compile_rule in Hc.
  apply result_bind_ok in Hc as ([] & _ & Hc). injection Hc as <-. simpl.
  by apply from_mapping_valid in Hr as (_ & _ & Hv).
Qed.

Lemma prepare_records_ok seen vs ps :
  prepare_records unicode_casefold seen vs = Ok ps → Forall prepared_ok ps.
Proof.
  revert seen ps. induction vs as [|v vs IH]; intros seen ps; simpl; [by intros [= <-]|].
  intros ([i p] & Hv & H)%result_bind_ok. apply result_bind_ok in H as (rest & Hrest & H).
  apply IH in Hrest. injection H as <-. destruct p; [|done]. constructor; [|done].
  by eapply prepare_record_ok.
Qed.

Lemma select_target_ok ps m t mailbox : Forall prepared_ok ps →
  (∀ b, t = Some b → valid_mailbox b) →
  select_target unicode_casefold ps m t = Some mailbox → valid_mailbox mailbox.
Proof.
  revert t. induction ps as [|p ps IH]; intros t Hps Ht; simpl; [by apply Ht|].
  apply Forall_cons in Hps as [Hp Hps]. destruct (matches _ _ _); [|by apply IH].
  destruct (p_stop p); [by intros [= <-]|]. apply IH; [done|]. by intros b [= <-].
Qed.

Context (decode_header : list Z → result exc (list fragment)).
Context (bytes_decode : list Z → list Z → result exc (list Z)).
Context (parse : list Z → Z * result exc mime).

Lemma evaluate_records_ok raw_rules raw mailbox :
  evaluate_records unicode_casefold decode_header bytes_decode parse raw_rules raw = Ok (Some mailbox) →
  valid_mailbox mailbox.
Proof.
  unfold evaluate_records. intros (ps & Hps%prepare_records_ok & H)%result_bind_ok.
  case_match; [done|]. case_match; [|done]. injection H as H. apply (select_target_ok _ _ None) in H; [done| |done].
  by rewrite merge_sort_Permutation.
Qed.

Context (os : kernel) (snapshot_dir : list Z).
Context (py_float : list Z → pyfloat) (decode_lenient : list Z → option (list Z)).

Lemma evaluate_filter_message_ok account raw s mailbox s' :
  evaluate_filter_message unicode_casefold decode_header bytes_decode parse os snapshot_dir py_float
    decode_lenient account raw s = (Ok (Some mailbox), s') →
  valid_mailbox mailbox.
Proof.
  unfold evaluate_filter_message, mbind, eff_mbind, eff_bind.
  destruct (lift _ s) as [[a|e] s1]; [|done]. destruct (negb _); [done|].
  destruct (load_snapshot _ _ _ _ _ _) as [[[rules|]|e] s2]; try done.
  destruct (_ <? _); [done|]. unfold lift. intros [= H _]. by eapply evaluate_records_ok.
Qed.

(** What the client prints for a chosen mailbox. *)
Definition printed (target : option (list Z)) : list Z :=
  match target ≫= utf8_encode with Some b => b ++ [10] | None => [] end.

Lemma render_printed target : (∀ b, target = Some b → valid_mailbox b) →
  _render_filter_target target = printed target ∧ zlen (printed target) ≤ MAX_FILTER_RESPONSE_BYTES ∧
  _validated_response (printed target) = printed target.
Proof.
  intros Hv. destruct target as [b|]; [|by split_and!; vm_compute].
  destruct (render_valid b (Hv b eq_refl)) as (r & He & Hr & Hval). unfold printed.
  cbn [mbind option_bind]. rewrite He. split_and!; [done| |done].
  destruct (validated_response_line (r ++ [10])) as (line & Heq & _ & _ & Hl & _); [rewrite Hval; by destruct r|].
  rewrite Heq, zlen_app. change (zlen [10]) with 1. unfold MAX_FILTER_RESPONSE_BYTES. lia.
Qed.

(** C7: Client and bridge together.  A client with a valid
    configuration, given a message, sends a request which the bridge, however
    the transport cuts it, answers for the client's account with the mailbox
    the published rules choose; on receiving that answer, again in any pieces,
    the client prints exactly the mailbox's name, or nothing if there is none. *)
Theorem filter_pipeline env account endpoint_file token_file canonical token msg cc cb s target s' :
  client_ready env account endpoint_file token_file canonical token →
  stdin_reads msg cc → writable cc = true → zlen msg ≤ MAX_FILTER_MESSAGE_BYTES → msg ≠ [] →
  evaluate_filter_message unicode_casefold decode_header bytes_decode parse os snapshot_dir py_float
    decode_lenient canonical msg s = (Ok target, s') →
  pieces (incoming cb) (request_line token canonical ++ msg) → writable cb = true →
  (∃ ev, handle unicode_casefold decode_header bytes_decode parse os snapshot_dir py_float
     decode_lenient token (MkBridge cb s) = (Ok tt, MkBridge (answered cb ev (printed target)) s')) ∧
  (pieces (incoming cc) (printed target) →
   ∃ cc', run_filter_client env account endpoint_file token_file cc = (Ok 0, cc') ∧
     sent cc' = sent cc ++ request_line token canonical ++ msg ∧ sink cc' = sink cc ++ printed target).
Proof.
  intros Hready Hin Hwc Hl Hne He Hp Hwb. pose proof Hready as (Ha & _ & Ht & _).
  assert (Hv : ∀ b, target = Some b → valid_mailbox b)
    by (intros b ->; by eapply evaluate_filter_message_ok).
  destruct (render_printed target Hv) as (Hr & Hlp & Hval). apply client_token in Ht as Htok.
  assert (Hpos : 1 ≤ zlen msg) by (destruct msg; [done|]; rewrite zlen_cons; pose proof (zlen_nonneg msg); lia).
  split.
  - destruct (request_authenticated _ _ _ Ha Htok) as (Hauth & H10 & Hline).
    assert (Hbound : zlen (request_line token canonical ++ msg) ≤ MAX_PROTOCOL_LINE_BYTES + MAX_FILTER_MESSAGE_BYTES).
    { unfold request_line. rewrite !zlen_app. change (zlen [10]) with 1. lia. }
    destruct (request_spec unicode_casefold decode_header bytes_decode parse os snapshot_dir py_float
      decode_lenient token _ cb s Hp Hwb Hbound) as [ev Hreq].
    exists ev. unfold handle, mbind, eff_mbind, eff_bind, attempt. rewrite Hreq.
    unfold request_line in *. rewrite (payload_evaluated _ _ _ _ _ _ _ _ token _ _ canonical) by (done || lia).
    unfold evaluated, mbind, eff_mbind, eff_bind, attempt. rewrite He. unfold mret, eff_ret. simpl.
    by rewrite Hr.
  - intros Hpc. eexists. split; [by apply (client_run env account endpoint_file token_file canonical token msg (printed target)); try done; lia|].
    simpl. by rewrite Hval.
Qed.
End Targets.
