(* ===== verification/FilterDemo.v ===== *)
(** * Delivery-time filtering: a concrete delivery

    One account with two published rules, one message; the theorems of the
    filter's files applied to it. *)

From S2P Require Import Prelude Text Errors Identity Dict Json RuleDoc RuleDocSpecs RuleMessage RuleEval Protocol ProtocolSpecs Csrf Security Fs Snapshots SnapshotSpecs FilterBridge FilterClient FilterSpecs.

Definition demo_decode (v : list Z) : result exc (list fragment) := Ok [TextFragment v].
Definition demo_bytes_decode (b charset : list Z) : result exc (list Z) := Ok b.
Definition demo_mime : mime :=
  Mime [(u "Subject", u "Weekly letter")] false false None (Ok None) (Ok None) (u "text/plain").
Definition demo_parse (raw : list Z) : Z * result exc mime := (1, Ok demo_mime).
Definition demo_raw : list Z := u "Subject: Weekly letter" ++ [10; 10] ++ u "Hello" ++ [10].

Definition subject_contains (text : list Z) : json :=
  JObj [(u "field", JStr (u "subject")); (u "operator", JStr (u "contains")); (u "value", JStr text)].

Definition demo_record (id : list Z) (position : Z) (text target : list Z) (stop : bool) : rule_mapping :=
  [(u "rule_id", JStr id); (u "enabled", JBool true); (u "position", JInt position);
   (u "condition", subject_contains text); (u "target_mailbox", JStr target);
   (u "stop_processing", JBool stop); (u "revision", JInt 1)].

(** The second rule in the order of positions decides. *)
Definition demo_filter_rules : list rule_mapping :=
  [demo_record (replicate 32 97) 1 (u "weekly") (u "Letters/Weekly") true;
   demo_record (replicate 32 98) 0 (u "letter") (u "Letters") false].

Definition demo_os : kernel := demo_kernel no_fault.
Definition demo_filter_fs : fs :=
  (publish_snapshot demo_os demo_dir demo_email demo_filter_rules None demo_fs).2.
Definition demo_chosen : result exc (option (list Z)) * fs :=
  evaluate_filter_message demo_fold demo_decode demo_bytes_decode demo_parse demo_os demo_dir
    demo_float (λ _, None) demo_email demo_raw demo_filter_fs.
Definition demo_filter_fs' : fs := demo_chosen.2.

Lemma demo_filter_chosen : demo_chosen = (Ok (Some (u "Letters/Weekly")), demo_filter_fs').
Proof. vm_compute. reflexivity. Qed.

Lemma evaluate_records_filed_witness :
  ∃ prepared, prepare_records demo_fold [] (JObj <$> demo_filter_rules) = Ok prepared ∧
    match parsed_message demo_fold demo_decode demo_bytes_decode demo_parse demo_raw None NoRecipient with
    | Ok m => filed demo_fold prepared m (Some (u "Letters/Weekly"))
    | Err _ => False
    end.
Proof.
  destruct (evaluate_records_filed demo_fold demo_decode demo_bytes_decode demo_parse
    (JObj <$> demo_filter_rules) demo_raw (Some (u "Letters/Weekly"))) as (prepared & Hp & Hf);
    [vm_compute; reflexivity|].
  exists prepared. split; [exact Hp|].
  destruct (parsed_message _ _ _ _ _ _ _); [by apply Hf|done].
Defined.

Definition demo_filter_token : list Z := replicate 64 98.
Definition demo_client : client_env := MkClientEnv
  (λ path, MkClientFile (Ok (MkStat KFile 416 1 0 991))
     (Ok (if str_eqb path (u "/etc/endpoint") then u "127.0.0.1:18787" ++ [10]
          else demo_filter_token ++ [10])))
  991 [] true (λ _, None).

(** The request arrives at the bridge in two pieces, the answer at the client
    byte by byte. *)
Definition demo_request : list Z := request_line demo_filter_token demo_email ++ demo_raw.
Definition demo_bridge_conn : conn :=
  Conn [Chunk (take 50 demo_request); Chunk (drop 50 demo_request)] [] true [] [].
Definition demo_client_conn : conn :=
  Conn ((λ c, Chunk [c]) <$> (u "Letters/Weekly" ++ [10])) [] true
    [ReadBytes (take 9 demo_raw); ReadBytes (drop 9 demo_raw)] [].

Lemma pieces_bytes s : pieces ((λ c, Chunk [c]) <$> s) s.
Proof. induction s as [|c s IH]; csimpl; [constructor|]. by apply (pieces_cons [c]). Qed.

Lemma pieces_two a b : a ≠ [] → b ≠ [] → pieces [Chunk a; Chunk b] (a ++ b).
Proof.
  intros Ha Hb. apply pieces_cons; [done|]. pose proof (pieces_cons b [] [] Hb pieces_nil) as H.
  by rewrite app_nil_r in H.
Qed.

Lemma demo_bridge_pieces : pieces (incoming demo_bridge_conn) demo_request.
Proof.
  pose proof (pieces_two (take 50 demo_request) (drop 50 demo_request)) as H.
  rewrite take_drop in H. by apply H.
Qed.

Lemma demo_client_ready :
  client_ready demo_client demo_email (u "/etc/endpoint") (u "/etc/token") demo_email demo_filter_token.
Proof. split_and!; [|eexists|..]; vm_compute; reflexivity. Qed.

Lemma demo_stdin : stdin_reads demo_raw demo_client_conn.
Proof.
  exists [take 9 demo_raw; drop 9 demo_raw]. split_and!; [done|by repeat constructor|].
  by vm_compute.
Qed.

Lemma bridge_handler_equivalence_witness :
  ∃ ev, handle demo_fold demo_decode demo_bytes_decode demo_parse demo_os demo_dir demo_float
      (λ _, None) demo_filter_token (MkBridge demo_bridge_conn demo_filter_fs) =
    match evaluate_bridge_payload demo_fold demo_decode demo_bytes_decode demo_parse demo_os demo_dir
      demo_float (λ _, None) demo_request demo_filter_token demo_filter_fs with
    | (Ok response, s') => (Ok tt, MkBridge (answered demo_bridge_conn ev response) s')
    | (Err e, s') => (Err e, MkBridge (answered demo_bridge_conn ev []) s')
    end.
Proof.
  apply bridge_handler_equivalence; [apply demo_bridge_pieces|reflexivity|].
  vm_compute. discriminate.
Defined.

Lemma filter_client_fail_open_witness :
  ∃ c', run_filter_client demo_client demo_email (u "/etc/endpoint") (u "/etc/token")
      demo_client_conn = (Ok 0, c') ∧
    (sink c' = sink demo_client_conn ∨
     ∃ line, sink c' = sink demo_client_conn ++ line ++ [10] ∧ mailbox_line line).
Proof. apply filter_client_fail_open. by split. Defined.

Lemma filter_pipeline_witness :
  (∃ ev, handle demo_fold demo_decode demo_bytes_decode demo_parse demo_os demo_dir demo_float
     (λ _, None) demo_filter_token (MkBridge demo_bridge_conn demo_filter_fs) =
     (Ok tt, MkBridge (answered demo_bridge_conn ev (u "Letters/Weekly" ++ [10])) demo_filter_fs')) ∧
  ∃ cc', run_filter_client demo_client demo_email (u "/etc/endpoint") (u "/etc/token")
      demo_client_conn = (Ok 0, cc') ∧ sink cc' = u "Letters/Weekly" ++ [10].
Proof.
  destruct (filter_pipeline demo_fold demo_decode demo_bytes_decode demo_parse demo_os demo_dir
    demo_float (λ _, None) demo_client demo_email (u "/etc/endpoint") (u "/etc/token") demo_email
    demo_filter_token demo_raw demo_client_conn demo_bridge_conn demo_filter_fs
    (Some (u "Letters/Weekly")) demo_filter_fs') as [Hb Hc];
    [apply demo_client_ready|apply demo_stdin|reflexivity|vm_compute; discriminate|discriminate
    |apply demo_filter_chosen|apply demo_bridge_pieces|reflexivity|].
  split; [exact Hb|]. destruct Hc as (cc' & Hrun & _ & Hs); [apply pieces_bytes|].
  exists cc'. split; [exact Hrun|exact Hs].
Defined.

(** ** An unreadable snapshot

    [RuleSnapshotError] is not among the exceptions the bridge turns into "no
    effect": a damaged snapshot makes the handler raise instead. *)

Definition demo_damaged_fs : fs :=
  match snapshot_name demo_email with
  | Ok name => (update_inode demo_os name (set_data (u "{")) demo_filter_fs).2
  | Err _ => demo_filter_fs
  end.

Lemma damaged_snapshot_escapes :
  (evaluate_bridge_payload demo_fold demo_decode demo_bytes_decode demo_parse demo_os demo_dir
     demo_float (λ _, None) demo_request demo_filter_token demo_damaged_fs).1 = Err RuleSnapshotError.
Proof. vm_compute. reflexivity. Qed.
