(* ===== verification/DockerGuard.v ===== *)
(** * The container checks of [helper.py] before mail is submitted

    A submission through Docker first inspects the container and reads the TCP
    tables of procfs inside the container and on the host: the submission port
    may be listened on by the loopback address only, and must not be published.
    Running a command is a record of what the process did ([command_run]);
    [json.loads] and the digits of non-ASCII scripts are parameters. *)

From S2P Require Import Prelude Text Errors Json.

Definition _SUBMISSION_PORT : Z := 1587.
Definition _SUBMISSION_PORT_HEX : list Z := u "0633".
Definition _IPV4_LOOPBACK_PROC_HEX : list Z := u "0100007F".
Definition _DOCKER_INSPECT_MAX_OUTPUT : Z := 256 * 1024.
Definition _PROC_NET_MAX_OUTPUT : Z := 4 * 1024 * 1024.
Definition _PROC_NET_COMBINED_MAX_OUTPUT : Z := 2 * _PROC_NET_MAX_OUTPUT.

(** [_DOCKER_NETWORK_MODE_RE] and [_CONTAINER_ID_RE]. *)
Definition _DOCKER_NETWORK_MODE_RE (s : list Z) : bool :=
  match s with
  | c :: s => is_alnum c && (zlen s <=? 127) && forallb (λ c, is_alnum c || in_chars (u "_.-") c) s
  | [] => false
  end.
Definition _CONTAINER_ID_RE (s : list Z) : bool := match_exact is_hex_lower 64 s.

Record _DockerSubmissionRuntime := MkRuntime { container_id : list Z; network_mode : list Z }.

(** ** One bounded command *)

(** What a child process does: whether it starts, the chunks its two streams
    deliver ([None] is a failing read), its exit status ([None] when waiting
    times out or fails) and whether a reader thread is still blocked at the
    end. *)
Record command_run := MkRun {
  starts : bool;
  stdout_reads : list (option (list Z));
  stderr_reads : list (option (list Z));
  exit_status : option Z;
  reader_blocked : bool
}.

(** A reader thread: what it captured, whether it saw too much, whether a read
    failed. *)
Fixpoint consume (maximum : Z) (reads : list (option (list Z))) (destination : list Z)
    (overflow : bool) : list Z * bool * bool :=
  match reads with
  | [] | Some [] :: _ => (destination, overflow, false)
  | None :: _ => (destination, overflow, true)
  | Some chunk :: reads =>
      let remaining := maximum - zlen destination in
      consume maximum reads
        (if 0 <? remaining then destination ++ take (Z.to_nat remaining) chunk else destination)
        (overflow || (remaining <? zlen chunk))
  end.

Definition _bounded_command_output (run : command_run) (timeout maximum : Z)
    : result exc (list Z) :=
  if (timeout <=? 0) || (maximum <=? 0) then Err SMTPTransportError
  else if negb (starts run) then Err SMTPTransportError
  else
    let '(out, overflow_out, failed_out) := consume maximum (stdout_reads run) [] false in
    let '(_, overflow_err, failed_err) := consume maximum (stderr_reads run) [] false in
    if bool_decide (exit_status run ≠ Some 0) || (overflow_out || overflow_err)
       || (failed_out || failed_err) || reader_blocked run
    then Err SMTPTransportError
    else Ok out.

(** ** The TCP tables of procfs *)

Definition is_hex_any (c : Z) : bool := is_digit c || ((97 <=? c) && (c <=? 102)) || ((65 <=? c) && (c <=? 70)).

(** A non-empty run of a class, and a run of exactly [n]. *)
Definition run_of (p : Z → bool) (s : list Z) : option (list Z * list Z) :=
  match span p s with ([], _) => None | r => Some r end.
Definition run_exact (p : Z → bool) (n : nat) (s : list Z) : option (list Z * list Z) :=
  if (n <=? length s)%nat && forallb p (take n s) then Some (take n s, drop n s) else None.

(** [_PROC_NET_ROW_RE.fullmatch] on ASCII text without line breaks: the five
    groups. *)
Definition _PROC_NET_ROW_RE (line : list Z)
    : option (list Z * list Z * list Z * list Z * list Z) :=
  '(_, s) ← run_of is_digit (lstrip_by is_space line);
  s ← expect 58 s;
  '(_, s) ← run_of is_space s;
  '(local_address, s) ← run_of is_hex_any s;
  s ← expect 58 s;
  '(local_port, s) ← run_exact is_hex_any 4 s;
  '(_, s) ← run_of is_space s;
  '(remote_address, s) ← run_of is_hex_any s;
  s ← expect 58 s;
  '(remote_port, s) ← run_exact is_hex_any 4 s;
  '(_, s) ← run_of is_space s;
  '(state, s) ← run_exact is_hex_any 2 s;
  match s with
  | [] => Some (local_address, local_port, remote_address, remote_port, state)
  | c :: _ => if is_space c
              then Some (local_address, local_port, remote_address, remote_port, state) else None
  end.

Definition _is_proc_net_header (line : list Z) : bool :=
  match take 4 (words line) with
  | [sl; local; remote; st] =>
      str_eqb sl (u "sl") && str_eqb local (u "local_address")
      && (str_eqb remote (u "rem_address") || str_eqb remote (u "remote_address"))
      && str_eqb st (u "st")
  | _ => false
  end.

(** One row: the listener it contributes, if any. *)
Definition proc_net_row (address_length : Z) (line : list Z) : result exc (option (list Z)) :=
  if bool_decide (strip line = []) then Ok None
  else match _PROC_NET_ROW_RE line with
       | None => Err SMTPTransportError
       | Some (local_address, local_port, remote_address, _, state) =>
           if negb (zlen local_address =? address_length)
              || negb (zlen remote_address =? address_length)
           then Err SMTPTransportError
           else Ok (if str_eqb (upper state) (u "0A")
                       && str_eqb (upper local_port) _SUBMISSION_PORT_HEX
                    then Some (upper local_address) else None)
       end.

Definition _parse_proc_net_table (table : list Z) (ipv6 : bool) : result exc (list (list Z)) :=
  if bool_decide (table = []) || (_PROC_NET_MAX_OUTPUT <? zlen table) then Err SMTPTransportError
  else if negb (is_ascii table) then Err SMTPTransportError
  else match splitlines table with
       | header :: lines =>
           if negb (_is_proc_net_header header) then Err SMTPTransportError
           else
             rows ← result_map (proc_net_row (if ipv6 then 32 else 8)) lines;
             Ok (omap (M := list) id rows)
       | [] => Err SMTPTransportError
       end.

(** [header_indexes]. *)
Definition header_indexes (lines : list (list Z)) : list nat :=
  omap (λ il, if _is_proc_net_header il.2 then Some il.1 else None) (imap pair lines).

Definition _split_proc_net_tables (payload : list Z) : result exc (list Z * list Z) :=
  if bool_decide (payload = []) || (_PROC_NET_COMBINED_MAX_OUTPUT <? zlen payload)
  then Err SMTPTransportError
  else if negb (is_ascii payload) then Err SMTPTransportError
  else
    let lines := splitlines payload in
    match header_indexes lines with
    | [O; boundary] =>
        Ok (join [10] (take boundary lines) ++ [10], join [10] (drop boundary lines) ++ [10])
    | _ => Err SMTPTransportError
    end.

Inductive family : Type := IPv4 | IPv6.
#[export] Instance family_eq_dec : EqDecision family.
Proof. solve_decision. Defined.

Definition _submission_listeners (ipv4_table ipv6_table : list Z)
    : result exc (list (family * list Z)) :=
  ipv4 ← _parse_proc_net_table ipv4_table false;
  ipv6 ← _parse_proc_net_table ipv6_table true;
  Ok ((pair IPv4 <$> ipv4) ++ (pair IPv6 <$> ipv6)).

Definition _require_submission_listener (ipv4_table ipv6_table : list Z) (present : bool)
    : result exc unit :=
  listeners ← _submission_listeners ipv4_table ipv6_table;
  guard_err (bool_decide (listeners = if present then [(IPv4, _IPV4_LOOPBACK_PROC_HEX)] else []))
    SMTPTransportError.

(** ** The metadata of the container *)

Section Metadata.
Context (unicode_decimal : Z → option Z).
Context (json_loads : list Z → result exc json).

Definition decimal_digit (c : Z) : option Z :=
  if c <? 128 then if is_digit c then Some (c - 48) else None else unicode_decimal c.

(** [number.isdecimal() and int(number) == _SUBMISSION_PORT]; converting more
    than 4300 digits raises. *)
Definition names_submission_port (number : list Z) : result exc bool :=
  match number, mapM decimal_digit number with
  | _ :: _, Some ds =>
      if MAX_INT_DIGITS <? zlen number then Err ValueError
      else Ok (foldl (λ acc d, acc * 10 + d) 0 ds =? _SUBMISSION_PORT)
  | _, _ => Ok false
  end.

Fixpoint host_ports_safe (records : list json) : result exc bool :=
  match records with
  | [] => Ok true
  | JObj record :: records =>
      match obj_get (u "HostPort") record with
      | None | Some JNull => host_ports_safe records
      | Some (JStr s) =>
          hit ← names_submission_port s; if hit : bool then Ok false else host_ports_safe records
      | Some (JInt z) =>
          hit ← names_submission_port (str_of_int z);
          if hit : bool then Ok false else host_ports_safe records
      | Some _ => Ok false
      end
  | _ :: _ => Ok false
  end.

Fixpoint port_items_safe (items : list (list Z * json)) : result exc bool :=
  match items with
  | [] => Ok true
  | (container_port, records) :: items =>
      hit ← names_submission_port (match partition_char 47 container_port with
                                   | Some (number, _) => number | None => container_port end);
      if hit : bool then Ok false
      else match records with
           | JNull => port_items_safe items
           | JArr records =>
               safe ← host_ports_safe records;
               if safe : bool then port_items_safe items else Ok false
           | _ => Ok false
           end
  end.

Definition _port_metadata_is_safe (value : json) : result exc bool :=
  match value with
  | JNull => Ok true
  | JObj items => port_items_safe items
  | _ => Ok false
  end.

Definition runtime_fields : list (list Z) :=
  [u "id"; u "running"; u "paused"; u "network_mode"; u "port_bindings"; u "runtime_ports"].

Definition scope_of (name : list Z) : bool :=
  str_eqb name (u "container") || str_eqb name (u "host-loopback").

Definition _parse_docker_submission_runtime (payload scope : list Z)
    : result exc _DockerSubmissionRuntime :=
  if negb (scope_of scope) then Err SMTPTransportError
  else match json_loads payload with
  | Err e => Err (if catches [UnicodeDecodeError; JSONDecodeError] e then SMTPTransportError else e)
  | Ok (JObj metadata) =>
      if negb (forallb (λ k, bool_decide (k ∈ runtime_fields)) metadata.*1
               && forallb (λ k, bool_decide (k ∈ metadata.*1)) runtime_fields)
      then Err SMTPTransportError
      else
        let get k := default JNull (obj_get k metadata) in
        match get (u "id"), get (u "running"), get (u "paused") with
        | JStr id, JBool true, JBool false =>
            if negb (_CONTAINER_ID_RE id) then Err SMTPTransportError
            else match get (u "network_mode") with
            | JStr mode =>
                if negb (_DOCKER_NETWORK_MODE_RE mode) || str_eqb mode (u "none")
                   || starts_with (u "container:") mode
                then Err SMTPTransportError
                else if (str_eqb scope (u "container") && str_eqb mode (u "host"))
                        || (str_eqb scope (u "host-loopback") && negb (str_eqb mode (u "host")))
                then Err SMTPTransportError
                else
                  bindings ← _port_metadata_is_safe (get (u "port_bindings"));
                  ports ← (if bindings : bool then _port_metadata_is_safe (get (u "runtime_ports"))
                           else Ok false);
                  if ports : bool then Ok (MkRuntime id mode) else Err SMTPTransportError
            | _ => Err SMTPTransportError
            end
        | _, _, _ => Err SMTPTransportError
        end
  | Ok _ => Err SMTPTransportError
  end.
End Metadata.
