(* ===== verification/Smtp.v ===== *)
(** * The submission client of [helper.py]

    [SMTPChannel] is the interface between the client and its transport.  Two
    transports implement it: [SocketChannel], a TCP socket read and written
    without buffering, and [ProcessChannel], a child process behind a reader
    thread.  The peer and the operating system are scripts in the channel's
    state: the bytes that arrive one by one ([SByte]), pauses longer than the
    caller waits ([SLate]) and failures ([SFail]), and what becomes of each
    write ([WAll], [WPart], [WFail]).  [time.monotonic] is a parameter. *)

From S2P Require Import Prelude Text Errors Json AuthCore Protocol DockerGuard.

(** ** Channels *)

Inductive sock_event : Type :=
| SByte (b : Z)
| SLate
| SFail (e : exc).

(** What happens to a write: all the bytes are delivered, the first [n] are
    and the call returns, or the first [n] are and the call raises. *)
Inductive write_outcome : Type :=
| WAll
| WPart (n : nat)
| WFail (n : nat) (e : exc).

Class SMTPChannel (C : Type) := {
  readline : Z → eff C exc (list Z);
  write : list Z → eff C exc unit;
  close : eff C exc unit;
  (* the bytes the peer has received *)
  delivered : C → list Z;
}.

(** The script both transports run on. *)
Record script := MkScript {
  arriving : list sock_event;
  writes : list write_outcome;
  received : list Z;
  closing : option exc
}.

Definition script_write (data : list Z) (s : script) : option (option exc) * script :=
  let next n rest := MkScript (arriving s) rest (received s ++ take n data) (closing s) in
  match writes s with
  | [] => (Some None, next (length data) [])
  | WAll :: rest => (Some None, next (length data) rest)
  | WPart n :: rest => (None, next n rest)
  | WFail n e :: rest => (Some (Some e), next n rest)
  end.

Definition MAX_LINE : Z := 4096.

(** *** [_SocketChannel] *)

Record SocketChannel := MkSocket { socket_script : script }.

(** [SocketIO.readline(4097)] without a buffer: one byte per receive, and the
    bytes already read are lost when a receive fails. *)
Fixpoint raw_readline (line : list Z) (s : list sock_event) : result exc (list Z) * list sock_event :=
  match s with
  | [] => (Ok line, [])
  | SFail e :: s => (Err e, s)
  | SLate :: s => (Err TimeoutError, s)
  | SByte b :: s =>
      if (b =? 10) || (MAX_LINE + 1 <=? zlen line + 1) then (Ok (line ++ [b]), s)
      else raw_readline (line ++ [b]) s
  end.

Definition socket_readline (timeout : Z) : eff SocketChannel exc (list Z) := λ c,
  let s := socket_script c in
  let '(r, rest) := raw_readline [] (arriving s) in
  (line ← r;
   if bool_decide (line = []) then Err SMTPTransportError
   else if (MAX_LINE <? zlen line) || negb (ends_with [10] line) then Err SMTPTransportError
   else Ok line,
   MkSocket (MkScript rest (writes s) (received s) (closing s))).

(** The count [write] returns is not looked at. *)
Definition socket_write (data : list Z) : eff SocketChannel exc unit := λ c,
  let '(outcome, s) := script_write data (socket_script c) in
  (match outcome with Some (Some e) => Err e | _ => Ok tt end, MkSocket s).

Definition socket_close : eff SocketChannel exc unit := λ c,
  (match closing (socket_script c) with Some e => Err e | None => Ok tt end, c).

#[export] Instance _SocketChannel : SMTPChannel SocketChannel := {
  readline := socket_readline;
  write := socket_write;
  close := socket_close;
  delivered c := received (socket_script c)
}.

(** *** [_ProcessChannel] *)

(** The reader thread collects a line in [partial]; once it has [stopped] every
    further [readline] fails, on an item it left behind or on the empty queue. *)
Record ProcessChannel := MkProcess {
  process_script : script; partial : list Z; stopped : bool
}.

(** The next item of the queue, as [stdout_reader] produces it: the outcome, the
    events left, the line in progress and whether the thread ended. *)
Fixpoint stdout_reader (line : list Z) (s : list sock_event)
    : result exc (list Z) * list sock_event * list Z * bool :=
  match s with
  | [] => (Err SMTPTransportError, [], [], true)
  | SFail _ :: s => (Err SMTPTransportError, s, [], true)
  | SLate :: s => (Err SMTPTransportError, s, line, false)
  | SByte b :: s =>
      let line := line ++ [b] in
      if MAX_LINE <? zlen line then (Err SMTPTransportError, s, [], true)
      else if b =? 10 then (Ok line, s, [], false)
      else stdout_reader line s
  end.

Definition process_readline (timeout : Z) : eff ProcessChannel exc (list Z) := λ c,
  if stopped c then (Err SMTPTransportError, c)
  else
    let s := process_script c in
    let '(r, rest, line, ended) := stdout_reader (partial c) (arriving s) in
    (r, MkProcess (MkScript rest (writes s) (received s) (closing s)) line ended).

(** [stdin] is a buffered writer: [flush] repeats short writes. *)
Definition process_write (data : list Z) : eff ProcessChannel exc unit := λ c,
  let '(outcome, s) := script_write data (process_script c) in
  let '(r, s) := match outcome with
    | Some (Some _) => (Err SMTPTransportError, s)
    | Some None => (Ok tt, s)
    | None => (Ok tt, MkScript (arriving s) (writes s) (received (process_script c) ++ data)
                        (closing s))
    end in
  (r, MkProcess s (partial c) (stopped c)).

(** Closing the pipe, waiting and killing never raise. *)
Definition process_close : eff ProcessChannel exc unit := mret tt.

#[export] Instance _ProcessChannel : SMTPChannel ProcessChannel := {
  readline := process_readline;
  write := process_write;
  close := process_close;
  delivered c := received (process_script c)
}.

(** *** The channel of a client: either transport *)

Inductive channel : Type :=
| OverSocket (c : SocketChannel)
| OverProcess (c : ProcessChannel).

Definition on_channel {A} (f : ∀ C, SMTPChannel C → eff C exc A) : eff channel exc A := λ c,
  match c with
  | OverSocket c => let '(r, c) := f _ _ c in (r, OverSocket c)
  | OverProcess c => let '(r, c) := f _ _ c in (r, OverProcess c)
  end.

#[export] Instance any_channel : SMTPChannel channel := {
  readline t := on_channel (λ C _, readline t);
  write d := on_channel (λ C _, write d);
  close := on_channel (λ C _, close);
  delivered c := match c with OverSocket c => delivered c | OverProcess c => delivered c end
}.

(** ** Arguments *)

(** [_EMAIL_RE]. *)
Definition email_char (c : Z) : bool := negb (is_space c || (c =? 60) || (c =? 62) || (c =? 64)).
Definition _EMAIL_RE (s : list Z) : bool :=
  match split_char 64 s with
  | [local; domain] => match_plus email_char local && match_plus email_char domain
  | _ => false
  end.

Definition _email_address (value : list Z) : result exc (list Z) :=
  if (254 <? zlen value) || negb (_EMAIL_RE value) || existsb (λ c, (c <? 32) || (c =? 127)) value
  then Err ValueError else Ok value.

Definition _validated_password (password : list Z) : result exc (list Z) :=
  if bool_decide (password = []) || (1024 <? zlen password)
     || existsb (in_chars [13; 10; 0]) password
  then Err ValueError else Ok password.

(** [str.encode()]. *)
Definition encode (s : list Z) : result exc (list Z) :=
  match utf8_encode s with Some b => Ok b | None => Err UnicodeEncodeError end.

(** [base64.b64encode]. *)
Definition b64_std_char (d : Z) : Z :=
  if d =? 62 then 43 else if d =? 63 then 47 else b64_char d.

Fixpoint b64encode (s : list Z) : list Z :=
  match s with
  | a :: b :: c :: s =>
      [b64_std_char (a / 4); b64_std_char (a mod 4 * 16 + b / 16);
       b64_std_char (b mod 16 * 4 + c / 64); b64_std_char (c mod 64)] ++ b64encode s
  | [a; b] => [b64_std_char (a / 4); b64_std_char (a mod 4 * 16 + b / 16);
               b64_std_char (b mod 16 * 4); 61]
  | [a] => [b64_std_char (a / 4); b64_std_char (a mod 4 * 16); 61; 61]
  | [] => []
  end.

(** ** The client *)

Definition RESPONSE_MAX_BYTES : Z := 64 * 1024.
Definition OUTPUT_BLOCK : Z := 64 * 1024.

(** A transaction: its channel, the number of clock readings so far, and the
    message spool. *)
Record smtp (C : Type) := MkSmtp { chan : C; ticks : nat; spool : list read_result }.
Arguments MkSmtp {C} _ _ _.
Arguments chan {C} _.
Arguments ticks {C} _.
Arguments spool {C} _.

Section Client.
Context (monotonic : nat → Z).
Context {C : Type} `{!SMTPChannel C}.

Notation S := (eff (smtp C) exc).

Definition on_chan {A} (m : eff C exc A) : S A := λ s,
  let '(r, c) := m (chan s) in (r, MkSmtp c (ticks s) (spool s)).

Definition now_ticks : S Z := λ s,
  (Ok (monotonic (ticks s)), MkSmtp (chan s) (Datatypes.S (ticks s)) (spool s)).

(** [source.read(n)] on the spool. *)
Definition spool_read (n : Z) : S read_result := λ s,
  match spool s with
  | [] => (Ok (ReadBytes []), s)
  | r :: rest => (Ok r, MkSmtp (chan s) (ticks s) rest)
  end.

(** [try: m finally: cleanup]. *)
Definition finally {A} (m : S A) (cleanup : S unit) : S A := λ s,
  let '(r, s) := m s in
  match cleanup s with
  | (Ok _, s) => (r, s)
  | (Err e, s) => (Err e, s)
  end.

(** [with suppress(SMTPError): m]. *)
Definition suppress_smtp {A} (m : S A) : S unit :=
  attempt (catches [SMTPError]) m ≫= λ _, mret tt.

(** A response line: its code and whether it is the last. *)
Definition parse_line (line : list Z) : option (Z * bool) :=
  if (zlen line <? 4) || negb (forallb is_digit (take 3 line)) then None
  else match line !! 3%nat with
       | Some 45 => Some (int_of_digits (take 3 line), false)
       | Some 32 => Some (int_of_digits (take 3 line), true)
       | _ => None
       end.

(** Every line counts at least four bytes towards the limit of the response. *)
Fixpoint response_loop (fuel : nat) (deadline : Z) (expected_code : option Z) (total : Z) : S Z :=
  match fuel with
  | O => throw OutOfFuel
  | Datatypes.S fuel =>
      t ← now_ticks;
      let remaining := deadline - t in
      if remaining <=? 0 then throw SMTPTransportError
      else
        line ← on_chan (readline remaining);
        let total := total + zlen line in
        if RESPONSE_MAX_BYTES <? total then throw SMTPTransportError
        else match parse_line line with
             | None => throw SMTPTransportError
             | Some (code, last) =>
                 if bool_decide (expected_code = None ∨ expected_code = Some code) then
                   if last then mret code else response_loop fuel deadline (Some code) total
                 else throw SMTPTransportError
             end
  end.

Definition RESPONSE_FUEL : nat := Z.to_nat (RESPONSE_MAX_BYTES / 4 + 2).

(** [_response]: the code; the text of the lines is used by no caller. *)
Definition _response (deadline : Z) : S Z := response_loop RESPONSE_FUEL deadline None 0.

Definition CRLF : list Z := [13; 10].

Definition _command (command : list Z) (deadline : Z) (expected : list Z) (stage : list Z) : S Z :=
  on_chan (write (command ++ CRLF)) ≫= λ _,
  code ← _response deadline;
  if bool_decide (code ∈ expected) then mret code else throw (SMTPRejected code stage).

(** [_write_data]: the output buffer, whether a line starts, whether a carriage
    return is pending. *)
Record data_state := MkData { at_line_start : bool; pending_cr : bool; output : list Z }.

Definition emit (value : list Z) (d : data_state) : S data_state :=
  let output := output d ++ value in
  if OUTPUT_BLOCK <=? zlen output
  then on_chan (write output) ≫= λ _, mret (MkData (at_line_start d) (pending_cr d) [])
  else mret (MkData (at_line_start d) (pending_cr d) output).

Definition set_flags (start cr : bool) (d : data_state) : data_state := MkData start cr (output d).

(** The part of the loop body after the pending carriage return. *)
Definition data_byte (value : Z) (d : data_state) : S data_state :=
  if value =? 13 then mret (set_flags (at_line_start d) true d)
  else if value =? 10 then
    d ← emit CRLF d; mret (set_flags true (pending_cr d) d)
  else
    d ← (if at_line_start d && (value =? 46) then emit [46] d else mret d);
    d ← emit [value] d;
    mret (set_flags false (pending_cr d) d).

Definition data_step (value : Z) (d : data_state) : S data_state :=
  if pending_cr d then
    d ← emit CRLF d;
    let d := set_flags true false d in
    if value =? 10 then mret d else data_byte value d
  else data_byte value d.

Fixpoint data_chunk (chunk : list Z) (d : data_state) : S data_state :=
  match chunk with
  | [] => mret d
  | value :: chunk => data_step value d ≫= data_chunk chunk
  end.

(** Every round takes a piece off the spool. *)
Fixpoint data_loop (fuel : nat) (remaining : Z) (d : data_state) : S data_state :=
  match fuel with
  | O => throw OutOfFuel
  | Datatypes.S fuel =>
      if remaining =? 0 then mret d
      else
        chunk ← spool_read (Z.min OUTPUT_BLOCK remaining);
        match chunk with
        | ReadBytes [] | ReadText [] => throw SMTPTransportError
        | ReadText _ => throw SMTPTransportError
        | ReadBytes chunk => data_chunk chunk d ≫= data_loop fuel (remaining - zlen chunk)
        end
  end.

Definition _write_data (declared_length : Z) : S unit :=
  pieces ← gets (λ s, length (spool s));
  d ← data_loop (Datatypes.S (Datatypes.S pieces)) declared_length (MkData true false []);
  extra ← spool_read 1;
  match extra with
  | ReadBytes [] | ReadText [] =>
      d ← (if pending_cr d || negb (at_line_start d) then emit CRLF d else mret d);
      if bool_decide (output d = []) then mret tt else on_chan (write (output d))
  | _ => throw SMTPTransportError
  end.

(** *** Authentication and submission *)

Definition _authenticate_channel (username password : list Z) (deadline : Z) : S unit :=
  code ← _response deadline;
  if negb (code =? 220) then throw (SMTPRejected code (u "greeting"))
  else
    _command (u "EHLO maddyweb.local") deadline [250] (u "EHLO") ≫= λ _,
    user ← lift (encode username);
    secret ← lift (encode password);
    let auth := b64encode ([0] ++ user ++ [0] ++ secret) in
    code ← _command (u "AUTH PLAIN " ++ auth) deadline [235; 334] (u "AUTH");
    if code =? 334 then _command auth deadline [235] (u "AUTH") ≫= λ _, mret tt else mret tt.

Definition quit (deadline : Z) : S unit :=
  suppress_smtp (_command (u "QUIT") deadline [221] (u "QUIT")).

Definition close_channel : S unit := on_chan close.

(** [authenticate], from the open channel on. *)
Definition authenticate_on (timeout : Z) (username password : list Z) : S unit :=
  start ← now_ticks;
  let deadline := start + timeout in
  finally (_authenticate_channel username password deadline ≫= λ _, quit deadline) close_channel.

(** [.. f"RCPT TO:<{x}>".encode()]. *)
Definition path_command (verb path : list Z) : S (list Z) :=
  lift (encode (verb ++ u ":<" ++ path ++ u ">")).

(** [send] up to the terminator: sign-in, envelope and message. *)
Definition before_terminator (username password mail_from : list Z) (recipients : list (list Z))
    (message_length deadline : Z) : S unit :=
  _authenticate_channel username password deadline ≫= λ _,
  from ← path_command (u "MAIL FROM") mail_from;
  _command from deadline [250] (u "MAIL FROM") ≫= λ _,
  eff_iter (λ recipient,
    rcpt ← path_command (u "RCPT TO") recipient;
    _command rcpt deadline [250; 251] (u "RCPT TO") ≫= λ _, mret tt) recipients ≫= λ _,
  _command (u "DATA") deadline [354] (u "DATA") ≫= λ _,
  _write_data message_length.

Definition TERMINATOR : list Z := u "." ++ CRLF.

(** [try: m except SMTPTransportError: raise SMTPOutcomeUnknown]. *)
Definition or_unknown {A} (m : S A) : S A := λ s,
  match m s with
  | (Err e, s) => (Err (if catches [SMTPTransportError] e then SMTPOutcomeUnknown else e), s)
  | r => r
  end.

(** [send] from the terminator on. *)
Definition after_terminator (deadline : Z) : S unit :=
  or_unknown
    (on_chan (write TERMINATOR) ≫= λ _,
     code ← or_unknown (_response deadline);
     if negb (code =? 250) then throw (SMTPRejected code (u "message body")) else quit deadline).

(** [send], from the open channel on: the number of recipients. *)
Definition send_on (timeout : Z) (username password mail_from : list Z)
    (recipients : list (list Z)) (message_length : Z) : S Z :=
  start ← now_ticks;
  let deadline := start + timeout in
  finally
    (before_terminator username password mail_from recipients message_length deadline ≫= λ _,
     after_terminator deadline ≫= λ _, mret (zlen recipients))
    close_channel.
End Client.

(** ** [SMTPSubmissionClient] *)

Inductive mode : Type := NATIVE | DOCKER.

Record SMTPSubmissionClient := MkClient {
  mode_of : mode; docker_executable : list Z; container : list Z;
  host : list Z; port : Z; docker_submission_scope : list Z;
  timeout : Z; max_message_bytes : Z
}.

Definition LOOPBACK : list Z := u "127.0.0.1".

(** [__init__]: the arguments it accepts. *)
Definition init_client (c : SMTPSubmissionClient) : result exc SMTPSubmissionClient :=
  if negb (str_eqb (host c) LOOPBACK) || negb (port c =? _SUBMISSION_PORT) then Err ValueError
  else if negb (scope_of (docker_submission_scope c)) then Err ValueError
  else if (timeout c <=? 0) || (max_message_bytes c <=? 0) then Err ValueError
  else Ok c.

(** The system the client runs on: connecting a socket, starting the piped
    process, running a bounded command, reading a procfs table ([None] when that
    fails), the clock, and the two parameters of [DockerGuard]. *)
Record system := MkSystem {
  monotonic : nat → Z;
  connect : list Z → Z → Z → result exc SocketChannel;
  spawn : list (list Z) → result exc ProcessChannel;
  run_command : list (list Z) → command_run;
  proc_table : list Z → option (list Z);
  sys_digit : Z → option Z;
  sys_json_loads : list Z → result exc json
}.

Section Submission.
Context (sys : system) (self : SMTPSubmissionClient).

Definition _DOCKER_LOCAL_HOST_ARG : list Z := u "--host=unix:///var/run/docker.sock".

(** [_DOCKER_INSPECT_TEMPLATE]; [%] stands for the double quote. *)
Definition _DOCKER_INSPECT_TEMPLATE : list Z :=
  replace_char 37 [34]
    (u "{%id%:{{json .Id}},%running%:{{json .State.Running}},%paused%:{{json .State.Paused}},%network_mode%:{{json .HostConfig.NetworkMode}},%port_bindings%:{{json .HostConfig.PortBindings}},%runtime_ports%:{{json .NetworkSettings.Ports}}}").

Definition _channel (docker_container : option (list Z)) : result exc channel :=
  match mode_of self with
  | NATIVE =>
      match docker_container with
      | Some _ => Err SMTPTransportError
      | None => c ← connect sys (host self) (port self) (timeout self); Ok (OverSocket c)
      end
  | DOCKER =>
      match docker_container with
      | Some id =>
          if negb (_CONTAINER_ID_RE id) then Err SMTPTransportError
          else
            c ← spawn sys [docker_executable self; _DOCKER_LOCAL_HOST_ARG; u "exec"; u "-i"; id;
                           u "/usr/bin/nc"; host self; str_of_int (port self)];
            Ok (OverProcess c)
      | None => Err SMTPTransportError
      end
  end.

(** Five seconds in the ticks of the clock. *)
Definition GUARD_SECONDS : Z := 5.

Definition _guard_command (suffix : list (list Z)) (maximum : Z) : result exc (list Z) :=
  _bounded_command_output (run_command sys ([docker_executable self; _DOCKER_LOCAL_HOST_ARG] ++ suffix))
    (Z.min (timeout self) GUARD_SECONDS) maximum.

(** [handle.read(_PROC_NET_MAX_OUTPUT + 1)] of one table. *)
Definition host_table (name : list Z) : result exc (list Z) :=
  match proc_table sys name with
  | None => Err SMTPTransportError
  | Some data =>
      let table := take (Z.to_nat (_PROC_NET_MAX_OUTPUT + 1)) data in
      if bool_decide (table = []) || (_PROC_NET_MAX_OUTPUT <? zlen table)
      then Err SMTPTransportError else Ok table
  end.

Definition _host_socket_tables : result exc (list Z * list Z) :=
  ipv4 ← host_table (u "/proc/net/tcp");
  ipv6 ← host_table (u "/proc/net/tcp6");
  Ok (ipv4, ipv6).

Definition _validate_docker_runtime : result exc (list Z) :=
  if negb (str_eqb (host self) LOOPBACK) || negb (port self =? _SUBMISSION_PORT)
  then Err SMTPTransportError
  else
    metadata ← _guard_command [u "container"; u "inspect"; u "--format"; _DOCKER_INSPECT_TEMPLATE;
                               container self] _DOCKER_INSPECT_MAX_OUTPUT;
    runtime ← _parse_docker_submission_runtime (sys_digit sys) (sys_json_loads sys) metadata
                (docker_submission_scope self);
    tables ← _guard_command [u "exec"; container_id runtime; u "/bin/cat"; u "/proc/net/tcp";
                             u "/proc/net/tcp6"] _PROC_NET_COMBINED_MAX_OUTPUT;
    '(ipv4, ipv6) ← _split_proc_net_tables tables;
    _require_submission_listener ipv4 ipv6 true ≫= λ _,
    '(host_ipv4, host_ipv6) ← _host_socket_tables;
    _require_submission_listener host_ipv4 host_ipv6
      (str_eqb (docker_submission_scope self) (u "host-loopback")) ≫= λ _,
    Ok (container_id runtime).

Definition _open_channel : result exc channel :=
  match mode_of self with
  | DOCKER => id ← _validate_docker_runtime; _channel (Some id)
  | NATIVE => _channel None
  end.

(** Runs a transaction on a fresh channel; the state it ends in is kept, since
    it holds what the peer received. *)
Definition on_fresh_channel {A} (spool : list read_result) (m : eff (smtp channel) exc A)
    : result exc A * option (smtp channel) :=
  match _open_channel with
  | Err e => (Err e, None)
  | Ok c => let '(r, s) := m (MkSmtp c 0 spool) in (r, Some s)
  end.

Definition authenticate (username password : list Z) : result exc unit * option (smtp channel) :=
  match (username ← _email_address username; password ← _validated_password password;
         Ok (username, password)) with
  | Err e => (Err e, None)
  | Ok (username, password) =>
      on_fresh_channel [] (authenticate_on (monotonic sys) (timeout self) username password)
  end.

Definition check_envelope (username password mail_from : list Z) (recipients : list (list Z))
    (message_length : Z) : result exc unit :=
  _email_address username ≫= λ _,
  _email_address mail_from ≫= λ _,
  result_map _email_address recipients ≫= λ _,
  if bool_decide (recipients = []) || (100 <? zlen recipients) then Err ValueError
  else
    _validated_password password ≫= λ _,
    guard_err ((1 <=? message_length) && (message_length <=? max_message_bytes self)) ValueError.

Definition send (username password mail_from : list Z) (recipients : list (list Z))
    (message : list read_result) (message_length : Z) : result exc Z * option (smtp channel) :=
  match check_envelope username password mail_from recipients message_length with
  | Err e => (Err e, None)
  | Ok _ =>
      on_fresh_channel message
        (send_on (monotonic sys) (timeout self) username password mail_from recipients
           message_length)
  end.
End Submission.
