(* ===== verification/SmtpSpecs.v ===== *)
(** * What a mail server reads

    The message on the wire: [_write_data] normalises line ends and doubles
    leading dots ([stuffed] is its output as a function).  [data_from] is the
    receiving side of the protocol, up to the terminator, and [server_view] the
    whole dialogue: command lines up to [DATA], then the message. *)

From S2P Require Import Prelude Text Errors Json AuthCore Protocol DockerGuard Smtp.

(** ** The transducer of [_write_data] *)

Definition plain_out (start : bool) (v : Z) : list Z :=
  if v =? 13 then [] else if v =? 10 then CRLF
  else if start && (v =? 46) then [46; v] else [v].
Definition plain_start (start : bool) (v : Z) : bool :=
  if v =? 13 then start else v =? 10.

Definition step_out (start cr : bool) (v : Z) : list Z :=
  if cr then if v =? 10 then CRLF else CRLF ++ plain_out true v else plain_out start v.
Definition step_start (start cr : bool) (v : Z) : bool :=
  if cr then if v =? 10 then true else plain_start true v else plain_start start v.
Definition step_cr (cr : bool) (v : Z) : bool := v =? 13.

Fixpoint stuffed (start cr : bool) (m : list Z) : list Z :=
  match m with
  | [] => if cr || negb start then CRLF else []
  | v :: m => step_out start cr v ++ stuffed (step_start start cr v) (step_cr cr v) m
  end.

(** ** Lines *)

(** The lines of a text that ends its lines by CR LF, CR or LF. *)
Fixpoint text_lines_from (line m : list Z) : list (list Z) :=
  match m with
  | [] => match line with [] => [] | _ => [line] end
  | 13 :: m => line :: (match m with
                        | 10 :: m => text_lines_from [] m
                        | _ => text_lines_from [] m end)
  | 10 :: m => line :: text_lines_from [] m
  | c :: m => text_lines_from (line ++ [c]) m
  end.
Definition text_lines (m : list Z) : list (list Z) := text_lines_from [] m.

Definition dotted (line : list Z) : list Z := match line with 46 :: _ => 46 :: line | _ => line end.
Definition undotted (line : list Z) : list Z := match line with 46 :: l => l | l => l end.
Definition wire_lines (ls : list (list Z)) : list Z := mjoin ((λ l, dotted l ++ CRLF) <$> ls).

(** The receiver: lines end at CR LF, a lone dot ends the message, one leading
    dot is removed from the others. *)
Fixpoint data_from (line s : list Z) : option (list (list Z) * list Z) :=
  match s with
  | [] => None
  | c :: s =>
      match c, s with
      | 13, 10 :: s => if bool_decide (line = [46]) then Some ([], s)
                       else '(ls, rest) ← data_from [] s; Some (undotted line :: ls, rest)
      | _, _ => data_from (line ++ [c]) s
      end
  end.
Definition data_read (s : list Z) : option (list (list Z) * list Z) := data_from [] s.

(** The dialogue as a server reads it: the command lines up to [DATA], the lines
    of the message, the bytes after it. *)
Fixpoint commands_from (line s : list Z)
    : option (list (list Z) * list (list Z) * list Z) :=
  match s with
  | [] => None
  | c :: s =>
      match c, s with
      | 13, 10 :: s => if bool_decide (line = u "DATA")
                       then '(ls, rest) ← data_read s; Some ([line], ls, rest)
                       else '(cs, ls, rest) ← commands_from [] s; Some (line :: cs, ls, rest)
      | _, _ => commands_from (line ++ [c]) s
      end
  end.
Definition server_view (s : list Z) : option (list (list Z) * list (list Z) * list Z) :=
  commands_from [] s.

Definition no_break (l : list Z) : Prop := Forall (λ c, c ≠ 13 ∧ c ≠ 10) l.

(** ** The message arrives as its lines *)

Lemma stuffed_cr start m :
  stuffed start true m = CRLF ++ stuffed true false (match m with 10 :: m => m | _ => m end).
Proof.
  destruct m as [|v m]; [done|]. simpl. unfold step_out, step_start, step_cr.
  destruct (decide (v = 10)) as [->|Hv]; [done|].
  rewrite (proj2 (Z.eqb_neq v 10) Hv).
  replace (match v with 10 => m | _ => v :: m end) with (v :: m)
    by (repeat (match goal with |- context [match ?x with _ => _ end] => destruct x end; try done)).
  done.
Qed.

Definition after_cr (m : list Z) : list Z := match m with 10 :: m => m | _ => m end.

Lemma after_cr_length m : (length (after_cr m) ≤ length m)%nat.
Proof. destruct m as [|v m]; simpl; [done|]. repeat (case_match; try (simpl; lia)). Qed.

Lemma text_lines_cr line m :
  text_lines_from line (13 :: m) = line :: text_lines_from [] (after_cr m).
Proof. destruct m as [|v m]; [done|]. simpl. repeat (case_match; try done). Qed.

Lemma text_lines_char line c m : c ≠ 13 → c ≠ 10 →
  text_lines_from line (c :: m) = text_lines_from (line ++ [c]) m.
Proof. intros H1 H2. simpl. repeat (case_match; try done). Qed.

Lemma dotted_snoc line c : line ≠ [] → dotted (line ++ [c]) = dotted line ++ [c].
Proof. destruct line as [|x l]; [done|]. intros _. simpl. repeat (case_match; try done). Qed.

Lemma wire_lines_cons l ls : wire_lines (l :: ls) = dotted l ++ CRLF ++ wire_lines ls.
Proof. unfold wire_lines. simpl. by rewrite <- app_assoc. Qed.

Lemma stuffed_lines m : ∀ line,
  wire_lines (text_lines_from line m) = dotted line ++ stuffed (bool_decide (line = [])) false m.
Proof.
  induction m as [m IH] using (induction_ltof1 _ length). unfold ltof in IH. intros line.
  destruct m as [|v m].
  { simpl. destruct line as [|x l]; [done|]. rewrite wire_lines_cons. done. }
  destruct (decide (v = 13)) as [->|H13].
  { rewrite text_lines_cr, wire_lines_cons.
    rewrite (IH (after_cr m)) by (pose proof (after_cr_length m); simpl; lia).
    cbn [stuffed]. unfold step_out, step_start, step_cr. simpl plain_out. cbn [app].
    rewrite stuffed_cr. done. }
  destruct (decide (v = 10)) as [->|H10].
  { simpl text_lines_from. rewrite wire_lines_cons, (IH m) by (simpl; lia).
    cbn [stuffed]. unfold step_out, step_start, step_cr. simpl. done. }
  rewrite text_lines_char by done. rewrite (IH m) by (simpl; lia).
  assert (Hne : line ++ [v] ≠ []) by (destruct line; done).
  rewrite (bool_decide_eq_false_2 _ Hne). cbn [stuffed].
  unfold step_out, step_start, step_cr, plain_out, plain_start.
  rewrite (proj2 (Z.eqb_neq v 10) H10), (proj2 (Z.eqb_neq v 13) H13).
  destruct line as [|x l].
  - simpl. destruct (decide (v = 46)) as [->|Hdot]; [done|].
    rewrite (proj2 (Z.eqb_neq v 46) Hdot). simpl.
    repeat (case_match; try done).
  - rewrite dotted_snoc by done. rewrite bool_decide_eq_false_2 by done. simpl andb. cbn match.
    by rewrite <- app_assoc.
Qed.

Lemma text_lines_no_break m : ∀ line, no_break line → Forall no_break (text_lines_from line m).
Proof.
  induction m as [m IH] using (induction_ltof1 _ length). unfold ltof in IH. intros line Hline.
  destruct m as [|v m].
  { simpl. destruct line; [constructor|by constructor]. }
  destruct (decide (v = 13)) as [->|H13].
  { rewrite text_lines_cr. constructor; [done|].
    apply IH; [pose proof (after_cr_length m); simpl; lia|constructor]. }
  destruct (decide (v = 10)) as [->|H10].
  { constructor; [done|]. apply IH; [simpl; lia|constructor]. }
  rewrite text_lines_char by done. apply IH; [simpl; lia|].
  apply Forall_app. split; [done|]. repeat constructor; done.
Qed.

(** Reading one line off the wire, whatever is decided about it afterwards. *)
Lemma data_from_line l : ∀ acc s, no_break l →
  data_from acc (l ++ CRLF ++ s) =
  if bool_decide (acc ++ l = [46]) then Some ([], s)
  else '(ls, rest) ← data_from [] s; Some (undotted (acc ++ l) :: ls, rest).
Proof.
  induction l as [|c l IH]; intros acc s Hl; cbn [app].
  { rewrite app_nil_r. done. }
  inversion Hl as [|?? [H13 H10] Hl']. subst.
  transitivity (data_from (acc ++ [c]) (l ++ CRLF ++ s)).
  { simpl. repeat (case_match; try done). }
  rewrite IH by done. by rewrite <- app_assoc.
Qed.

Lemma commands_from_line l : ∀ acc s, no_break l →
  commands_from acc (l ++ CRLF ++ s) =
  if bool_decide (acc ++ l = u "DATA")
  then '(ls, rest) ← data_read s; Some ([acc ++ l], ls, rest)
  else '(cs, ls, rest) ← commands_from [] s; Some ((acc ++ l) :: cs, ls, rest).
Proof.
  induction l as [|c l IH]; intros acc s Hl; cbn [app].
  { rewrite app_nil_r. done. }
  inversion Hl as [|?? [H13 H10] Hl']. subst.
  transitivity (commands_from (acc ++ [c]) (l ++ CRLF ++ s)).
  { simpl. repeat (case_match; try done). }
  rewrite IH by done. by rewrite <- app_assoc.
Qed.

Lemma dotted_no_break l : no_break l → no_break (dotted l).
Proof.
  intros Hl. unfold dotted. destruct l as [|c l]; [done|].
  destruct (decide (c = 46)) as [->|]; [by constructor|]. by repeat (case_match; try done).
Qed.

Lemma dotted_reads l : dotted l ≠ [46] ∧ undotted (dotted l) = l.
Proof.
  destruct l as [|c l]; [done|]. destruct (decide (c = 46)) as [->|Hc]; [done|].
  assert (Hd : dotted (c :: l) = c :: l) by (simpl; repeat (case_match; try done)).
  rewrite Hd. split; [congruence|]. simpl. repeat (case_match; try done).
Qed.

Lemma data_read_lines ls rest : Forall no_break ls →
  data_read (wire_lines ls ++ TERMINATOR ++ rest) = Some (ls, rest).
Proof.
  intros Hls. unfold data_read. induction Hls as [|l ls Hl _ IH]; [done|].
  rewrite wire_lines_cons, <- !app_assoc.
  rewrite data_from_line by by apply dotted_no_break. cbn [app].
  destruct (dotted_reads l) as [H1 H2]. rewrite bool_decide_eq_false_2 by done.
  rewrite IH. cbn. by rewrite H2.
Qed.

(** The message as the receiver sees it. *)
Lemma stuffed_read m rest :
  data_read (stuffed true false m ++ TERMINATOR ++ rest) = Some (text_lines m, rest).
Proof.
  pose proof (stuffed_lines m []) as H. simpl in H. unfold stuffed in H. fold stuffed in H.
  rewrite <- H. apply data_read_lines. apply text_lines_no_break. constructor.
Qed.

Lemma server_view_line l s : no_break l → l ≠ u "DATA" →
  server_view (l ++ CRLF ++ s) =
  '(cs, ls, rest) ← server_view s; Some (l :: cs, ls, rest).
Proof.
  intros Hl Hne. unfold server_view. rewrite commands_from_line by done.
  cbn [app]. by rewrite bool_decide_eq_false_2.
Qed.

Lemma server_view_data m rest :
  server_view (u "DATA" ++ CRLF ++ stuffed true false m ++ TERMINATOR ++ rest)
  = Some ([u "DATA"], text_lines m, rest).
Proof.
  unfold server_view. rewrite commands_from_line by (vm_compute; repeat constructor; lia).
  cbn [app]. by rewrite bool_decide_eq_true_2, stuffed_read.
Qed.

(** * What a submission puts on the wire

    The laws a transport may satisfy ([Lossless]: a write that returns has
    delivered its bytes; [Classified]: every failure is a transport error), the
    transport behind a process satisfies both, and the client over a lossless
    transport: [_write_data] delivers the transducer's output and the whole
    dialogue is what [server_view] reads back. *)

From S2P Require Import Prelude Text Errors Json AuthCore Protocol DockerGuard Smtp.

#[local] Set Default Proof Using "Type*".

Class Lossless (C : Type) `{!SMTPChannel C} := {
  lossless : C → Prop;
  readline_delivered : ∀ t c, lossless c →
    lossless (readline t c).2 ∧ delivered (readline t c).2 = delivered c;
  write_delivered : ∀ d c, lossless c →
    lossless (write d c).2 ∧ ((write d c).1 = Ok tt → delivered (write d c).2 = delivered c ++ d)
    ∧ ∃ n, delivered (write d c).2 = delivered c ++ take n d;
  close_delivered : ∀ c, lossless c → delivered (close c).2 = delivered c
}.

Class Classified (C : Type) `{!SMTPChannel C} := {
  classified : C → Prop;
  readline_err : ∀ t c, classified c →
    classified (readline t c).2 ∧ ∀ e, (readline t c).1 = Err e → e = SMTPTransportError;
  write_err : ∀ d c, classified c →
    classified (write d c).2 ∧ ∀ e, (write d c).1 = Err e → e = SMTPTransportError;
  close_ok : ∀ c, classified c → (close c).1 = Ok tt
}.

(** *** The process transport satisfies both *)

#[export] Instance process_lossless : Lossless ProcessChannel.
Proof.
  refine {| lossless := λ _, True |}.
  - intros t c _. simpl. unfold process_readline. destruct (stopped c); [done|].
    by destruct (stdout_reader _ _) as [[[r rest] line] ended].
  - intros d c _. simpl. unfold process_write, script_write.
    destruct (writes (process_script c)) as [|[|n|n e] l]; simpl; split_and!; try done;
      try (intros _; by rewrite take_ge by lia);
      (by exists n) || (exists (length d); by rewrite take_ge by lia).
  - done.
Defined.

Lemma stdout_reader_err s : ∀ line e s' l b,
  stdout_reader line s = (Err e, s', l, b) → e = SMTPTransportError.
Proof.
  induction s as [|[v| |x] s IH]; simpl; intros line e s' l b; try (by intros [= <-]).
  repeat case_match; try (by intros [= <-]). apply IH.
Qed.

#[export] Instance process_classified : Classified ProcessChannel.
Proof.
  refine {| classified := λ _, True |}; simpl.
  - intros t c _. split; [done|]. intros e. unfold process_readline.
    destruct (stopped c); [by intros [= <-]|].
    destruct (stdout_reader _ _) as [[[r rest] line] ended] eqn:E.
    intros [= ->]. by eapply stdout_reader_err.
  - intros d c _. split; [done|]. intros e. unfold process_write, script_write.
    destruct (writes (process_script c)) as [|[|n|n x] l]; intros [= <-]; done.
  - done.
Defined.

(** *** A socket is lossless while the kernel takes whole blocks *)

Definition whole_write (w : write_outcome) : Prop := match w with WPart _ => False | _ => True end.

#[export] Instance socket_lossless : Lossless SocketChannel.
Proof.
  refine {| lossless := λ c, Forall whole_write (writes (socket_script c)) |}.
  - intros t c Hc. simpl. unfold socket_readline. by destruct (raw_readline _ _) as [r rest].
  - intros d c Hc. simpl. unfold socket_write, script_write.
    destruct (writes (socket_script c)) as [|[|n|n e] l]; inversion Hc; simpl; split_and!; try done;
      try (intros _; by rewrite take_ge by lia);
      (by exists n) || (exists (length d); by rewrite take_ge by lia).
  - done.
Defined.

(** *** The channel of a client *)

#[export] Instance any_lossless : Lossless channel.
Proof.
  refine {| lossless := λ c, match c with OverSocket c => lossless c | OverProcess c => lossless c end |}.
  - intros t [c|c] Hc; pose proof (readline_delivered t c Hc); simpl in *;
      by destruct (_ t c) as [r c'].
  - intros d [c|c] Hc; pose proof (write_delivered d c Hc); simpl in *;
      by destruct (_ d c) as [r c'].
  - by intros [c|c] Hc.
Defined.

#[export] Instance any_classified : Classified channel.
Proof.
  refine {| classified := λ c, match c with OverSocket _ => False | OverProcess c => classified c end |}.
  - intros t [c|c] Hc; [done|]; pose proof (readline_err t c Hc); simpl in *;
      by destruct (_ t c) as [r c'].
  - intros d [c|c] Hc; [done|]; pose proof (write_err d c Hc); simpl in *;
      by destruct (_ d c) as [r c'].
  - by intros [c|c] Hc.
Defined.

(** ** A lossless transport *)

Section Wire.
Context (monotonic : nat → Z).
Context {C : Type} `{!SMTPChannel C} `{!Lossless C}.
Implicit Types (s : smtp C).

Definition wire (s : smtp C) : list Z := delivered (chan s).
(** The wire holds at most [w]. *)
Definition upto (w : list Z) (s : smtp C) : Prop := wire s `prefix_of` w.

(** What [m] does on a lossless channel: [Q] when it returns, [X] when it
    raises. *)
Definition wpl {A} (m : eff (smtp C) exc A) (Q : A → smtp C → Prop) (X : smtp C → Prop)
    (s : smtp C) : Prop :=
  lossless (chan s) →
  wpf m (λ a s', lossless (chan s') ∧ Q a s') (λ _ s', lossless (chan s') ∧ X s') s.

Lemma wpl_ret {A} (a : A) (Q : A → smtp C → Prop) X s : Q a s → wpl (mret a) Q X s.
Proof. intros HQ Hs. by apply wpf_ret. Qed.
Lemma wpl_throw {A} e (Q : A → smtp C → Prop) (X : smtp C → Prop) s : X s → wpl (throw e) Q X s.
Proof. intros HX Hs. by apply wpf_throw. Qed.
Lemma wpl_gets {A} (f : smtp C → A) (Q : A → smtp C → Prop) X s : Q (f s) s → wpl (gets f) Q X s.
Proof. intros HQ Hs. by split. Qed.
Lemma wpl_bind {A B} (m : eff (smtp C) exc A) (f : A → eff (smtp C) exc B) Q X s :
  wpl m (λ a, wpl (f a) Q X) X s → wpl (m ≫= f) Q X s.
Proof.
  intros Hm Hs. apply wpf_bind. eapply wpf_mono; [by apply Hm| |done].
  intros a s' [Hs' H]. by apply H.
Qed.
Lemma wpl_mono {A} (m : eff (smtp C) exc A) (Q Q' : A → smtp C → Prop) (X X' : smtp C → Prop) s :
  wpl m Q X s → (∀ a s', Q a s' → Q' a s') → (∀ s', X s' → X' s') → wpl m Q' X' s.
Proof.
  intros Hm HQ HX Hs. eapply wpf_mono; [by apply Hm| |].
  - intros a s' [? ?]. eauto.
  - intros e s' [? ?]. eauto.
Qed.
Lemma wpl_lift {A} (r : result exc A) (Q : A → smtp C → Prop) (X : smtp C → Prop) s :
  match r with Ok a => Q a s | Err _ => X s end → wpl (lift r) Q X s.
Proof. intros HQ Hs. apply wpf_lift. by destruct r. Qed.

Lemma upto_refl s : upto (wire s) s.
Proof. unfold upto. done. Qed.
Lemma upto_more w k s : upto w s → upto (w ++ k) s.
Proof. intros [x Hx]. exists (x ++ k). by rewrite Hx, app_assoc. Qed.
Lemma upto_here k s : upto (wire s ++ k) s.
Proof. apply upto_more, upto_refl. Qed.

(** A part of [sent] has been added to the wire. *)
Definition partly (sent : list Z) (s s' : smtp C) : Prop :=
  wire s `prefix_of` wire s' ∧ upto (wire s ++ sent) s'.

Lemma partly_here sent s : partly sent s s.
Proof. split; [done|apply upto_here]. Qed.

(** [m] adds [sent] to the wire; a part of it when it raises. *)
Definition sends {A} (m : eff (smtp C) exc A) (sent : list Z) : Prop := ∀ s,
  wpl m (λ _ s', wire s' = wire s ++ sent ∧ spool s' = spool s) (partly sent s) s.

Lemma sends_bind {A B} (m : eff (smtp C) exc A) (f : A → eff (smtp C) exc B) a b :
  sends m a → (∀ x, sends (f x) b) → sends (m ≫= f) (a ++ b).
Proof.
  intros Hm Hf s. apply wpl_bind. eapply wpl_mono; [apply Hm| |].
  - intros x s1 [H1 H2]. eapply wpl_mono; [apply Hf| |].
    + intros y s2 [H3 H4]. rewrite H3, H1, H4, H2. by rewrite app_assoc.
    + intros s2 [H3 H4]. rewrite H1, <- app_assoc in H4. split; [|done].
      etransitivity; [|exact H3]. rewrite H1. by eexists.
  - intros s1 [H1 H2]. split; [done|]. rewrite app_assoc. by apply upto_more.
Qed.

Lemma sends_ret {A} (a : A) : sends (mret a) [].
Proof. intros s. apply wpl_ret. by rewrite app_nil_r. Qed.

Lemma sends_throw {A} e b : sends (throw (A := A) e) b.
Proof. intros s. apply wpl_throw, partly_here. Qed.

Lemma sends_now : sends (now_ticks monotonic) [].
Proof. intros s Hs. unfold wpf, now_ticks. simpl. by rewrite app_nil_r. Qed.

Lemma sends_lift {A} (r : result exc A) : sends (lift r) [].
Proof. intros s. apply wpl_lift. destruct r; [by rewrite app_nil_r|apply partly_here]. Qed.

Lemma sends_write d : sends (on_chan (write d)) d.
Proof.
  intros s Hs. destruct (write_delivered d _ Hs) as (H1 & H2 & n & H3). revert H1 H2 H3.
  unfold wpf, on_chan. destruct (write d (chan s)) as [[[]|e] c]; simpl; intros H1 H2 H3.
  - split; [done|]. split; [by apply H2|done].
  - split; [done|]. unfold partly, upto, wire. simpl. rewrite H3. split; [by eexists|].
    apply prefix_app. exists (drop n d). by rewrite take_drop.
Qed.

Lemma sends_readline t : sends (on_chan (readline t)) [].
Proof.
  intros s Hs. destruct (readline_delivered t _ Hs) as [H1 H2]. revert H1 H2.
  unfold wpf, on_chan. destruct (readline t (chan s)) as [[l|e] c]; simpl; intros H1 H2.
  - by rewrite app_nil_r.
  - split; [done|]. unfold partly, upto, wire. simpl. by rewrite H2, app_nil_r.
Qed.

Lemma sends_response_loop fuel deadline : ∀ expected total,
  sends (response_loop monotonic fuel deadline expected total) [].
Proof.
  induction fuel as [|fuel IH]; intros expected total; [apply sends_throw|]. simpl.
  apply (sends_bind _ _ [] []); [apply sends_now|]. intros t.
  case_match; [apply sends_throw|].
  apply (sends_bind _ _ [] []); [apply sends_readline|]. intros line.
  repeat case_match; (apply sends_throw || apply sends_ret || apply IH).
Qed.

Lemma sends_response deadline : sends (_response monotonic deadline) [].
Proof. apply sends_response_loop. Qed.

Lemma sends_command c deadline expected stage :
  sends (_command monotonic c deadline expected stage) (c ++ CRLF).
Proof.
  rewrite <- (app_nil_r (c ++ CRLF)). apply sends_bind; [apply sends_write|]. intros [].
  apply (sends_bind _ _ [] []); [apply sends_response|]. intros code.
  case_match; [apply sends_ret|apply sends_throw].
Qed.

(** ** [_write_data] *)

(** What is on the wire or in the buffer. *)
Definition pending (d : data_state) (s : smtp C) : list Z := wire s ++ output d.

(** [m] moves the transducer on by [out]. *)
Definition advances (m : eff (smtp C) exc data_state) (d : data_state) (out : list Z)
    (start cr : bool) : Prop := ∀ s,
  wpl m (λ d' s', pending d' s' = pending d s ++ out ∧ spool s' = spool s
                  ∧ at_line_start d' = start ∧ pending_cr d' = cr)
    (upto (pending d s ++ out)) s.

Lemma advances_ret d start cr :
  at_line_start d = start → pending_cr d = cr → advances (mret d) d [] start cr.
Proof. intros <- <- s. apply wpl_ret. by rewrite app_nil_r. Qed.

Lemma advances_emit v d : advances (emit v d) d v (at_line_start d) (pending_cr d).
Proof.
  intros s. unfold emit. case_match.
  - apply wpl_bind. eapply wpl_mono; [apply sends_write| |].
    + intros [] s' [H1 H2]. apply wpl_ret. unfold pending. rewrite H1. simpl.
      by rewrite app_nil_r, app_assoc.
    + intros s' [_ Hup]. unfold pending. by rewrite <- app_assoc.
  - apply wpl_ret. unfold pending. simpl. by rewrite app_assoc.
Qed.

Lemma advances_bind m f d out1 start1 cr1 out2 start2 cr2 :
  advances m d out1 start1 cr1 →
  (∀ d', at_line_start d' = start1 → pending_cr d' = cr1 → advances (f d') d' out2 start2 cr2) →
  advances (m ≫= f) d (out1 ++ out2) start2 cr2.
Proof.
  intros Hm Hf s. apply wpl_bind. eapply wpl_mono; [apply Hm| |].
  - intros d1 s1 (H1 & H2 & H3 & H4). eapply wpl_mono; [by apply Hf| |].
    + intros d2 s2 (H5 & H6 & H7 & H8). rewrite H5, H1, H6, H2. by rewrite app_assoc.
    + intros s2. by rewrite H1, <- app_assoc.
  - intros s1. rewrite app_assoc. apply upto_more.
Qed.

Lemma advances_flags start cr d : advances (mret (set_flags start cr d)) d [] start cr.
Proof. intros s. apply wpl_ret. unfold pending. simpl. by rewrite app_nil_r. Qed.

Lemma advances_byte v d : pending_cr d = false →
  advances (data_byte v d) d (plain_out (at_line_start d) v)
    (plain_start (at_line_start d) v) (v =? 13).
Proof.
  intros Hcr. unfold data_byte, plain_out, plain_start.
  destruct (v =? 13) eqn:E13; [apply advances_flags|].
  destruct (v =? 10) eqn:E10.
  - rewrite <- (app_nil_r CRLF). eapply advances_bind; [apply advances_emit|].
    intros d' _ Hd'. rewrite Hd', Hcr. apply advances_flags.
  - replace (if at_line_start d && (v =? 46) then [46; v] else [v])
      with ((if at_line_start d && (v =? 46) then [46] else []) ++ [v] ++ [])
      by (by destruct (_ && _)).
    apply advances_bind with (at_line_start d) false.
    { destruct (at_line_start d && (v =? 46)); [rewrite <- Hcr; apply advances_emit|].
      by apply advances_ret. }
    intros d' Hs' Hc'. eapply advances_bind; [apply advances_emit|].
    intros d'' _ Hc''. rewrite Hc'', Hc'. apply advances_flags.
Qed.

Lemma advances_step v d :
  advances (data_step v d) d (step_out (at_line_start d) (pending_cr d) v)
    (step_start (at_line_start d) (pending_cr d) v) (step_cr (pending_cr d) v).
Proof.
  unfold data_step, step_out, step_start, step_cr.
  destruct (pending_cr d) eqn:Hcr; [|by apply advances_byte].
  replace (if v =? 10 then CRLF else CRLF ++ plain_out true v)
    with (CRLF ++ (if v =? 10 then [] else plain_out true v)) by (by destruct (v =? 10)).
  eapply advances_bind; [apply advances_emit|]. intros d' _ _ s.
  destruct (v =? 10) eqn:E10.
  - apply Z.eqb_eq in E10 as ->. apply advances_flags.
  - apply (advances_byte v (set_flags true false d')); done.
Qed.

Lemma wpl_spool_read n (Q : read_result → smtp C → Prop) X s :
  match spool s with
  | [] => Q (ReadBytes []) s
  | r :: rest => Q r (MkSmtp (chan s) (ticks s) rest)
  end → wpl (spool_read n) Q X s.
Proof. unfold wpl, wpf, spool_read. by destruct (spool s). Qed.

(** From [d], [s] to [d'], [s'] the transducer has read [m], whatever follows;
    it has read at most [m] in [s']. *)
Definition owed (m : list Z) (d : data_state) (s : smtp C) : list Z :=
  pending d s ++ stuffed (at_line_start d) (pending_cr d) m.
Definition consumed (m : list Z) (d : data_state) (s : smtp C) (d' : data_state) (s' : smtp C)
    : Prop := ∀ tail, owed tail d' s' = owed (m ++ tail) d s.
Definition within (m : list Z) (d : data_state) (s s' : smtp C) : Prop :=
  ∀ tail, upto (owed (m ++ tail) d s) s'.

Lemma consumed_app a b d s d1 s1 d2 s2 :
  consumed a d s d1 s1 → consumed b d1 s1 d2 s2 → consumed (a ++ b) d s d2 s2.
Proof. intros H1 H2 tail. rewrite H2, H1. by rewrite <- app_assoc. Qed.

Lemma within_later a b d s d1 s1 s2 :
  consumed a d s d1 s1 → within b d1 s1 s2 → within (a ++ b) d s s2.
Proof. intros H1 H2 tail. specialize (H2 tail). by rewrite H1, app_assoc in H2. Qed.

Lemma within_more a b d s s' : within a d s s' → within (a ++ b) d s s'.
Proof. intros H tail. rewrite <- app_assoc. apply H. Qed.

Lemma within_here d s : within [] d s s.
Proof. intros tail. unfold owed, pending. rewrite <- app_assoc. apply upto_here. Qed.

Lemma data_step_wire v d s :
  wpl (data_step v d) (λ d' s', spool s' = spool s ∧ consumed [v] d s d' s') (within [v] d s) s.
Proof.
  eapply wpl_mono; [apply advances_step| |].
  - intros d1 s1 (H1 & H2 & H3 & H4). split; [done|]. intros tail. unfold owed. simpl.
    by rewrite H1, H3, H4, app_assoc.
  - intros s1 H tail. unfold owed. simpl. rewrite app_assoc. by apply upto_more.
Qed.

Lemma data_chunk_wire chunk : ∀ d s,
  wpl (data_chunk chunk d) (λ d' s', spool s' = spool s ∧ consumed chunk d s d' s')
    (within chunk d s) s.
Proof.
  induction chunk as [|v chunk IH]; intros d s; simpl; [by apply wpl_ret|].
  apply wpl_bind. eapply wpl_mono; [apply data_step_wire| |].
  - intros d1 s1 [H1 H2]. eapply wpl_mono; [apply IH| |].
    + intros d2 s2 [H5 H6]. split; [by rewrite H5|]. by apply (consumed_app [v] chunk _ _ d1 s1).
    + intros s2. by apply (within_later [v] chunk _ _ d1 s1).
  - intros s1. apply (within_more [v] chunk).
Qed.

Lemma data_loop_wire fuel : ∀ chunks remaining d s, spool s = ReadBytes <$> chunks →
  wpl (data_loop fuel remaining d)
    (λ d' s', ∃ used rest, chunks = used ++ rest ∧ spool s' = ReadBytes <$> rest
       ∧ zlen (mjoin used) = remaining ∧ consumed (mjoin used) d s d' s')
    (within (mjoin chunks) d s) s.
Proof.
  assert (Hstop : ∀ chunks d s, within (mjoin chunks) d s s).
  { intros chunks d s. apply (within_more [] _), within_here. }
  induction fuel as [|fuel IH]; intros chunks remaining d s Hs; simpl; [apply wpl_throw, Hstop|].
  destruct (remaining =? 0) eqn:E.
  { apply wpl_ret. exists [], chunks. split_and!; [done|done| |by intros tail].
    by apply Z.eqb_eq in E as ->. }
  apply wpl_bind, wpl_spool_read. rewrite Hs.
  destruct chunks as [|[|v chunk'] chunks]; simpl;
    [apply wpl_throw; exact (Hstop [] d s)|apply wpl_throw; exact (Hstop ([] :: chunks) d s)|].
  set (chunk := v :: chunk'). change (mjoin (chunk :: chunks)) with (chunk ++ mjoin chunks).
  set (s0 := MkSmtp (chan s) (ticks s) (ReadBytes <$> chunks)).
  apply wpl_bind. eapply wpl_mono; [apply (data_chunk_wire chunk)| |].
  - intros d2 s2 [H1 H2]. eapply wpl_mono; [by apply IH| |].
    + intros d3 s3 (used & rest & -> & H3 & H4 & H5). exists (chunk :: used), rest.
      change (mjoin (chunk :: used)) with (chunk ++ mjoin used).
      split_and!; [done|done| |by eapply consumed_app]. rewrite zlen_app. lia.
    + intros s3. by apply (within_later chunk _ d s0 d2 s2).
  - intros s2. apply (within_more chunk (mjoin chunks) d s0).
Qed.

Lemma flush_wire d s :
  wpl (if pending_cr d || negb (at_line_start d) then emit CRLF d else mret d)
    (λ d' s', pending d' s' = owed [] d s) (upto (owed [] d s)) s.
Proof.
  unfold owed. simpl. destruct (pending_cr d || negb (at_line_start d)).
  - eapply wpl_mono; [apply advances_emit| |done]. by intros ?? (? & _).
  - apply wpl_ret. by rewrite app_nil_r.
Qed.

Lemma write_data_wire chunks declared s :
  Forall (λ c, c ≠ []) chunks → spool s = ReadBytes <$> chunks →
  wpl (_write_data declared)
    (λ _ s', zlen (mjoin chunks) = declared
       ∧ wire s' = wire s ++ stuffed true false (mjoin chunks))
    (upto (wire s ++ stuffed true false (mjoin chunks))) s.
Proof.
  intros Hchunks Hs. unfold _write_data. apply wpl_bind, wpl_gets.
  set (d0 := MkData true false []).
  assert (Hall : ∀ m, owed m d0 s = wire s ++ stuffed true false m).
  { intros m. unfold owed, pending. simpl. by rewrite app_nil_r. }
  apply wpl_bind. eapply wpl_mono; [by apply data_loop_wire| |]; fold d0; last first.
  { intros s' H. specialize (H []). by rewrite app_nil_r, Hall in H. }
  intros d s1 (used & rest & -> & H2 & H3 & H4). apply wpl_bind, wpl_spool_read. rewrite H2.
  destruct rest as [|c rest]; simpl; last first.
  { apply Forall_app in Hchunks as [_ Hc]. apply Forall_inv in Hc. destruct c as [|v c]; [done|].
    apply wpl_throw. rewrite <- Hall, join_app, <- H4. unfold owed, pending.
    rewrite <- app_assoc. change (wire s1) with (wire (MkSmtp (chan s1) (ticks s1) (ReadBytes <$> rest))).
    apply upto_here. }
  rewrite app_nil_r. specialize (H4 []). rewrite app_nil_r, Hall in H4. apply wpl_bind.
  eapply wpl_mono; [apply flush_wire| |]; rewrite H4; [|done].
  intros d2 s2 H5. unfold pending in H5.
  case_bool_decide as Ho.
  - apply wpl_ret. rewrite Ho, app_nil_r in H5. done.
  - eapply wpl_mono; [apply sends_write| |].
    + intros [] s3 [H6 _]. by rewrite H6.
    + intros s3 [_ H6]. by rewrite H5 in H6.
Qed.
End Wire.

(** * The dialogue of a submission

    [send_on] over a lossless transport, command by command, and what a server
    reads: no argument can add a command and no message can end early. *)

From S2P Require Import Prelude Text Errors Json AuthCore Protocol DockerGuard Smtp.

#[local] Set Default Proof Using "Type*".

(** ** Bytes that stay on one line *)

Lemma utf8_char_no_break c b : c ≠ 13 → c ≠ 10 → utf8_char c = Some b → no_break b.
Proof.
  intros H13 H10. unfold utf8_char, no_break.
  repeat case_match; intros [= <-]; try done; rewrite ?orb_false_iff, ?Z.ltb_ge in *;
    repeat constructor; try done; try (Z.to_euclidean_division_equations; lia).
Qed.

Lemma utf8_no_break s : ∀ b, no_break s → utf8_encode s = Some b → no_break b.
Proof.
  induction s as [|c s IH]; simpl; intros b Hs; [by intros [= <-]; constructor|].
  inversion Hs as [|?? [H1 H2] Hs']; subst.
  destruct (utf8_char c) as [x|] eqn:Ec; [|done]. destruct (utf8_encode s) as [y|]; [|done].
  intros [= <-]. apply Forall_app. split; [by eapply utf8_char_no_break|by apply IH].
Qed.

Lemma email_no_break value a : _email_address value = Ok a → no_break value.
Proof.
  unfold _email_address. case_match eqn:E; [done|]. intros _.
  apply orb_false_iff in E as [_ E]. apply Forall_forall. intros c Hc.
  assert (Hne : ((c <? 32) || (c =? 127)) = false).
  { destruct ((c <? 32) || (c =? 127)) eqn:Ec; [|done].
    assert (existsb (λ c, (c <? 32) || (c =? 127)) value = true); [|congruence].
    apply existsb_exists. exists c. split; [by apply list_elem_of_In|done]. }
  split; intros ->; done.
Qed.

Lemma b64_std_char_no_break d : 0 ≤ d → b64_std_char d ≠ 13 ∧ b64_std_char d ≠ 10.
Proof. intros Hd. unfold b64_std_char, b64_char. repeat case_match; lia. Qed.

Lemma b64encode_no_break s : Forall (λ b, 0 ≤ b) s → no_break (b64encode s).
Proof.
  induction s as [s IH] using (induction_ltof1 _ length). unfold ltof in IH. intros Hs.
  assert (Hd : ∀ d, 0 ≤ d → b64_std_char d ≠ 13 ∧ b64_std_char d ≠ 10)
    by apply b64_std_char_no_break.
  destruct s as [|a [|b [|c s]]]; simpl; [constructor|..];
    repeat match goal with H : Forall _ (_ :: _) |- _ => inversion H; subst; clear H end;
    repeat (apply Forall_cons; split); try (apply Hd; Z.to_euclidean_division_equations; lia);
    try done; try apply Forall_nil.
  apply IH; [simpl; lia|done].
Qed.

Lemma utf8_char_nonneg c b : utf8_char c = Some b → Forall (λ x, 0 ≤ x) b.
Proof.
  unfold utf8_char. repeat case_match; intros [= <-]; try done; rewrite ?orb_false_iff, ?Z.ltb_ge in *;
    repeat constructor; Z.to_euclidean_division_equations; lia.
Qed.

Lemma utf8_nonneg s : ∀ b, utf8_encode s = Some b → Forall (λ x, 0 ≤ x) b.
Proof.
  induction s as [|c s IH]; simpl; intros b; [by intros [= <-]|].
  destruct (utf8_char c) as [x|] eqn:Ec; [|done]. destruct (utf8_encode s) as [y|]; [|done].
  intros [= <-]. apply Forall_app. split; [by eapply utf8_char_nonneg|by apply IH].
Qed.

(** ** The command lines *)

Definition credentials (user secret : list Z) : list Z := b64encode ([0] ++ user ++ [0] ++ secret).

Definition path_line (verb path line : list Z) : Prop :=
  utf8_encode (verb ++ u ":<" ++ path ++ u ">") = Some line.

(** The commands of one submission, in order. *)
Definition envelope (auth : list Z) (again : bool) (from : list Z) (rcpts : list (list Z))
    : list (list Z) :=
  (([u "EHLO maddyweb.local"; u "AUTH PLAIN " ++ auth] ++ (if again then [auth] else []))
   ++ [from]) ++ rcpts.
Definition dialogue (auth : list Z) (again : bool) (from : list Z) (rcpts : list (list Z))
    : list (list Z) := envelope auth again from rcpts ++ [u "DATA"].

Definition wire_commands (ls : list (list Z)) : list Z := mjoin ((λ l, l ++ CRLF) <$> ls).

Lemma wire_commands_app a b : wire_commands (a ++ b) = wire_commands a ++ wire_commands b.
Proof. unfold wire_commands. by rewrite fmap_app, join_app. Qed.

Lemma server_view_commands cs s :
  Forall (λ l, no_break l ∧ l ≠ u "DATA") cs →
  server_view (wire_commands cs ++ s) =
  '(ds, ls, rest) ← server_view s; Some (cs ++ ds, ls, rest).
Proof.
  induction 1 as [|l cs [H1 H2] _ IH]; simpl.
  { by destruct (server_view s) as [[[ds ls] rest]|]. }
  change (wire_commands (l :: cs)) with ((l ++ CRLF) ++ wire_commands cs).
  rewrite <- !app_assoc, server_view_line, IH by done.
  by destruct (server_view s) as [[[ds ls] rest]|].
Qed.

Lemma starts_ne (l : list Z) c d l' : head l = Some c → c ≠ d → l ≠ d :: l'.
Proof. intros Hl Hc ->. simpl in Hl. congruence. Qed.

Lemma path_line_ok verb c path line :
  no_break verb → head verb = Some c → 0 ≤ c < 128 → c ≠ 68 → no_break path →
  path_line verb path line → no_break line ∧ line ≠ u "DATA".
Proof.
  intros Hv Hh Hc Hd Hp Hl. split.
  - eapply utf8_no_break; [|exact Hl]. repeat (apply Forall_app; split); try done;
      vm_compute; repeat constructor; lia.
  - destruct verb as [|x verb]; [done|]. injection Hh as ->. unfold path_line in Hl. simpl in Hl.
    unfold utf8_char in Hl at 1. rewrite (proj2 (Z.ltb_ge c 0)), (proj2 (Z.leb_gt 1114112 c)),
      (proj2 (Z.ltb_lt c 128)) in Hl by lia. simpl in Hl.
    destruct (utf8_encode _); [|done]. injection Hl as <-.
    apply (starts_ne _ c); [done|done].
Qed.

Lemma server_view_message ls m rest :
  Forall (λ l, no_break l ∧ l ≠ u "DATA") ls →
  server_view (wire_commands (ls ++ [u "DATA"]) ++ stuffed true false m ++ TERMINATOR ++ rest)
  = Some (ls ++ [u "DATA"], text_lines m, rest).
Proof.
  intros Hls. rewrite wire_commands_app, <- app_assoc, server_view_commands by done.
  change (wire_commands [u "DATA"]) with (u "DATA" ++ CRLF ++ []).
  rewrite app_nil_r, <- app_assoc. by rewrite server_view_data.
Qed.

(** ** The transactions over a lossless transport *)

Section Dialogue.
Context (monotonic : nat → Z).
Context {C : Type} `{!SMTPChannel C} `{!Lossless C}.
Implicit Types (s : smtp C).

(** The next bytes on the wire are the command lines [ls]; or a part of them. *)
Definition says (ls : list (list Z)) (s s' : smtp C) : Prop :=
  wire s' = wire s ++ wire_commands ls ∧ spool s' = spool s.
Definition says_upto (ls : list (list Z)) (s s' : smtp C) : Prop := partly (wire_commands ls) s s'.

Lemma says_trans a b s s1 s2 : says a s s1 → says b s1 s2 → says (a ++ b) s s2.
Proof.
  intros [H1 H2] [H3 H4]. split; [|congruence]. by rewrite H3, H1, wire_commands_app, app_assoc.
Qed.

Lemma says_nil s : says [] s s.
Proof. split; [by rewrite app_nil_r|done]. Qed.

Lemma says_upto_later a b s s1 s2 : says a s s1 → says_upto b s1 s2 → says_upto (a ++ b) s s2.
Proof.
  intros [H1 _] [H2 H3]. rewrite H1, <- app_assoc, <- wire_commands_app in H3. split; [|done].
  etransitivity; [|exact H2]. rewrite H1. by eexists.
Qed.

Lemma says_upto_more a b s s' : says_upto a s s' → says_upto (a ++ b) s s'.
Proof.
  intros [H1 H2]. split; [done|]. rewrite wire_commands_app, app_assoc. by apply upto_more.
Qed.

Lemma says_upto_here a s : says_upto a s s.
Proof. apply partly_here. Qed.

Lemma says_command c deadline expected stage s :
  wpl (_command monotonic c deadline expected stage) (λ _ s', says [c] s s') (says_upto [c] s) s.
Proof.
  assert (Hc : wire_commands [c] = c ++ CRLF) by (unfold wire_commands; simpl; by rewrite app_nil_r).
  eapply wpl_mono; [apply sends_command| |]; unfold says, says_upto; rewrite Hc; done.
Qed.

Lemma says_response deadline s :
  wpl (_response monotonic deadline) (λ _ s', says [] s s') (says_upto [] s) s.
Proof. apply sends_response. Qed.

Lemma wpl_encode x (Q : list Z → smtp C → Prop) (X : smtp C → Prop) s :
  (∀ b, utf8_encode x = Some b → Q b s) → X s → wpl (lift (encode x)) Q X s.
Proof. intros HQ HX. apply wpl_lift. unfold encode. destruct (utf8_encode x); auto. Qed.

(** While only whole or partial command lines other than [DATA] have been sent. *)
Definition command_line (l : list Z) : Prop := no_break l ∧ l ≠ u "DATA".
Definition quiet (s s' : smtp C) : Prop := ∃ ls, Forall command_line ls ∧ says_upto ls s s'.

Lemma quiet_here s : quiet s s.
Proof. exists []. split; [constructor|apply says_upto_here]. Qed.

Lemma quiet_later a s s1 s2 : Forall command_line a → says a s s1 → quiet s1 s2 → quiet s s2.
Proof.
  intros Ha H1 (ls & Hls & H2). exists (a ++ ls). split; [by apply Forall_app|].
  by eapply says_upto_later.
Qed.

Lemma quiet_one c s s' : command_line c → says_upto [c] s s' → quiet s s'.
Proof. intros Hc H. exists [c]. split; [by constructor|done]. Qed.

(** One command after [a]. *)
Lemma quiet_command a c deadline expected stage s s1 :
  Forall command_line a → command_line c → says a s s1 →
  wpl (_command monotonic c deadline expected stage) (λ _ s', says (a ++ [c]) s s') (quiet s) s1.
Proof.
  intros Ha Hc H1. eapply wpl_mono; [apply says_command| |].
  - intros ? s2 H2. by eapply says_trans.
  - intros s2 H2. eapply quiet_later; [done..|]. by eapply quiet_one.
Qed.

(** The lines of a literal list, each by an assumption. *)
Ltac lines := repeat (apply Forall_cons; split); try done; try apply Forall_nil.

Lemma ehlo_line : command_line (u "EHLO maddyweb.local").
Proof. split; [vm_compute; repeat constructor; lia|done]. Qed.

Lemma credentials_line user secret prefix :
  Forall (λ b, 0 ≤ b) user → Forall (λ b, 0 ≤ b) secret → no_break prefix →
  match prefix with [] => True | c :: _ => c ≠ 68 end →
  command_line (prefix ++ credentials user secret).
Proof.
  intros Hu Hs Hp Hne. split.
  - apply Forall_app. split; [done|]. apply b64encode_no_break.
    repeat (apply Forall_app; split); try done; repeat constructor; lia.
  - destruct prefix as [|c prefix]; [|intros [= ??]; done].
    unfold credentials. destruct user as [|a user]; simpl.
    + destruct secret as [|b secret]; [done|]. by intros [= ?].
    + destruct user; simpl; by intros [= ?].
Qed.

Lemma authenticate_says username password deadline s :
  wpl (_authenticate_channel monotonic username password deadline)
    (λ _ s', ∃ user secret again, utf8_encode username = Some user
       ∧ utf8_encode password = Some secret
       ∧ says ([u "EHLO maddyweb.local"; u "AUTH PLAIN " ++ credentials user secret]
               ++ (if again : bool then [credentials user secret] else [])) s s')
    (quiet s) s.
Proof.
  unfold _authenticate_channel. apply wpl_bind. eapply wpl_mono; [apply says_response| |].
  2: { intros s1 H1. exists []. by split; [constructor|]. }
  intros code s1 H1. case_match.
  { apply wpl_throw. eapply quiet_later; [constructor|exact H1|apply quiet_here]. }
  apply wpl_bind. eapply wpl_mono; [apply (quiet_command [] _ _ _ _ s); [done|apply ehlo_line|done]| |done].
  intros ? s2 H2.
  assert (Hq2 : quiet s s2).
  { eapply quiet_later; [|exact H2|apply quiet_here]. lines; apply ehlo_line. }
  apply wpl_bind, wpl_encode; [|done]. intros user Hu.
  apply wpl_bind, wpl_encode; [|done]. intros secret Hp.
  assert (Hauth : command_line (u "AUTH PLAIN " ++ credentials user secret)).
  { apply credentials_line; [by eapply utf8_nonneg..| |done]. vm_compute; repeat constructor; lia. }
  assert (Hagain : command_line (credentials user secret)).
  { apply (credentials_line _ _ []); [by eapply utf8_nonneg..|constructor|done]. }
  pose proof ehlo_line as Hehlo.
  apply wpl_bind. eapply wpl_mono; [apply (quiet_command [u "EHLO maddyweb.local"] _ _ _ _ s); [lines|done|exact H2]| |done].
  intros code2 s3 H3. simpl in H3. destruct (code2 =? 334).
  - apply wpl_bind. eapply wpl_mono; [apply (quiet_command [u "EHLO maddyweb.local"; u "AUTH PLAIN " ++ credentials user secret]
      _ _ _ _ s); [|done|exact H3]| |done].
    { lines. }
    intros ? s4 H4. apply wpl_ret. by exists user, secret, true.
  - apply wpl_ret. by exists user, secret, false.
Qed.

(** Addresses that stay on one line. *)
Definition safe_path (a : list Z) : Prop := no_break a.

Lemma mail_line path line : safe_path path → path_line (u "MAIL FROM") path line → command_line line.
Proof. intros Hp. apply (path_line_ok _ 77); [vm_compute; repeat constructor; lia|done|lia|done|done]. Qed.
Lemma rcpt_line path line : safe_path path → path_line (u "RCPT TO") path line → command_line line.
Proof. intros Hp. apply (path_line_ok _ 82); [vm_compute; repeat constructor; lia|done|lia|done|done]. Qed.

Lemma recipients_say deadline rs s0 : ∀ a s, Forall safe_path rs →
  Forall command_line a → says a s0 s →
  wpl (eff_iter (λ recipient,
         rcpt ← path_command (u "RCPT TO") recipient;
         _command monotonic rcpt deadline [250; 251] (u "RCPT TO") ≫= λ _, mret tt) rs)
    (λ _ s', ∃ rcpts, Forall2 (path_line (u "RCPT TO")) rs rcpts ∧ says (a ++ rcpts) s0 s'
       ∧ Forall command_line rcpts)
    (quiet s0) s.
Proof.
  induction rs as [|r rs IH]; intros a s Hrs Ha Hs; simpl.
  { apply wpl_ret. exists []. rewrite app_nil_r. by split_and!; [constructor| |]. }
  inversion Hrs as [|?? Hr Hrs']; subst.
  apply wpl_bind, wpl_bind, wpl_encode; last first.
  { eapply quiet_later; [exact Ha|done|apply quiet_here]. }
  intros line Hline. assert (Hl : command_line line) by by eapply rcpt_line.
  apply wpl_bind. eapply wpl_mono; [by apply (quiet_command a _ _ _ _ s0)| |done].
  intros ? s1 H1. apply wpl_ret.
  eapply wpl_mono; [apply (IH (a ++ [line])); [done|apply Forall_app; split; [done|lines]|done]| |done].
  intros ? s2 (rcpts & H2 & H3 & H4). exists (line :: rcpts). rewrite <- app_assoc in H3.
  by split_and!; [constructor| |constructor].
Qed.

(** Part of the message may have been sent, not its end. *)
Definition message_part (s s' : smtp C) : Prop := ∃ ls m, Forall command_line ls
  ∧ upto (wire s ++ wire_commands (ls ++ [u "DATA"]) ++ stuffed true false m) s'.
Definition unfinished (s s' : smtp C) : Prop := quiet s s' ∨ message_part s s'.

(** Up to the terminator: the dialogue, then the message. *)
Lemma before_terminator_wire username password mail_from recipients chunks declared deadline s :
  Forall safe_path (mail_from :: recipients) →
  Forall (λ c, c ≠ []) chunks → spool s = ReadBytes <$> chunks →
  wpl (before_terminator monotonic username password mail_from recipients declared deadline)
    (λ _ s', ∃ user secret again from rcpts,
       utf8_encode username = Some user ∧ utf8_encode password = Some secret
       ∧ path_line (u "MAIL FROM") mail_from from ∧ Forall2 (path_line (u "RCPT TO")) recipients rcpts
       ∧ zlen (mjoin chunks) = declared
       ∧ Forall command_line (envelope (credentials user secret) again from rcpts)
       ∧ wire s' = wire s ++ wire_commands (dialogue (credentials user secret) again from rcpts)
                     ++ stuffed true false (mjoin chunks))
    (unfinished s) s.
Proof.
  intros Hpaths Hc Hs. inversion Hpaths as [|?? Hfrom Hrs]; subst.
  unfold before_terminator. pose proof ehlo_line as Hehlo.
  apply wpl_bind. eapply wpl_mono; [apply authenticate_says| |by left].
  intros [] s1 (user & secret & again & Hu & Hp & H1).
  assert (Hls : Forall command_line ([u "EHLO maddyweb.local"; u "AUTH PLAIN " ++ credentials user secret]
    ++ (if again then [credentials user secret] else []))).
  { assert (Hauth : command_line (u "AUTH PLAIN " ++ credentials user secret)).
    { apply credentials_line; [by eapply utf8_nonneg..| |done]. vm_compute; repeat constructor; lia. }
    assert (Hagain : command_line (credentials user secret)).
    { apply (credentials_line _ _ []); [by eapply utf8_nonneg..|constructor|done]. }
    destruct again; simpl; lines. }
  set (ls := [u "EHLO maddyweb.local"; _] ++ _) in *.
  apply wpl_bind, wpl_encode; last first.
  { left. eapply quiet_later; [exact Hls|done|apply quiet_here]. }
  intros from Hline. assert (Hf : command_line from) by by eapply mail_line.
  apply wpl_bind. eapply wpl_mono; [by apply (quiet_command ls _ _ _ _ s)| |by left].
  intros ? s2 H2. assert (Hls2 : Forall command_line (ls ++ [from])) by (apply Forall_app; split; [done|lines]).
  apply wpl_bind. eapply wpl_mono; [by apply (recipients_say _ _ s (ls ++ [from]))| |by left].
  intros [] s3 (rcpts & Hr & H3 & Hls3).
  assert (Hls4 : Forall command_line ((ls ++ [from]) ++ rcpts)) by by apply Forall_app.
  apply wpl_bind. eapply wpl_mono; [apply says_command| |].
  2: { intros s4 H4. right. exists ((ls ++ [from]) ++ rcpts), []. split; [done|].
       change (stuffed true false []) with (@nil Z). rewrite app_nil_r.
       by eapply says_upto_later. }
  intros ? s4 H4. destruct (says_trans _ _ _ _ _ H3 H4) as [H5 H6].
  eapply wpl_mono; [apply (write_data_wire chunks); [done|congruence]| |].
  - intros [] s5 [H7 H8]. exists user, secret, again, from, rcpts. split_and!; try done.
    by rewrite H8, H5, <- app_assoc.
  - intros s5 H7. right. exists ((ls ++ [from]) ++ rcpts), (mjoin chunks). split; [done|].
    by rewrite H5, <- app_assoc in H7.
Qed.

(** *** From the terminator on *)

Lemma prefix_take (a b : list Z) : a `prefix_of` b → ∃ n, a = take n b.
Proof. intros [k ->]. exists (length a). by rewrite take_app_length. Qed.

Lemma quit_wire deadline s :
  wpl (quit monotonic deadline) (λ _ s', ∃ n, wire s' = wire s ++ take n (u "QUIT" ++ CRLF))
    (λ _, True) s.
Proof.
  pose proof (sends_command monotonic (u "QUIT") deadline [221] (u "QUIT") s) as H.
  intros Hs. specialize (H Hs). revert H.
  unfold wpf, quit, suppress_smtp, attempt, mbind, eff_mbind, eff_bind.
  destruct (_command _ _ _ _ _ s) as [[code|e] s'].
  - intros [H1 [H2 _]]. split; [done|]. exists (length (u "QUIT" ++ CRLF)). by rewrite H2, firstn_all.
  - intros [H1 [[k Hk] H2]]. destruct (catches [SMTPError] e); [|done]. split; [done|].
    unfold upto in H2. rewrite Hk in H2. apply prefix_app_inv in H2.
    destruct (prefix_take _ _ H2) as [n ->]. by exists n.
Qed.

Lemma wpl_or_unknown {A} (m : eff (smtp C) exc A) Q X s : wpl m Q X s → wpl (or_unknown m) Q X s.
Proof.
  intros Hm Hs. specialize (Hm Hs). revert Hm. unfold wpf, or_unknown.
  by destruct (m s) as [[a|e] s'].
Qed.

Lemma after_terminator_wire deadline s :
  wpl (after_terminator monotonic deadline)
    (λ _ s', ∃ n, wire s' = wire s ++ TERMINATOR ++ take n (u "QUIT" ++ CRLF)) (λ _, True) s.
Proof.
  apply wpl_or_unknown, wpl_bind. eapply wpl_mono; [apply sends_write| |done]. intros [] s1 [H1 _].
  apply wpl_bind, wpl_or_unknown. eapply wpl_mono; [apply sends_response| |done].
  intros code s2 [H2 _]. case_match; [by apply wpl_throw|].
  eapply wpl_mono; [apply quit_wire| |done]. intros [] s3 [n H3]. exists n.
  by rewrite H3, H2, H1, app_nil_r, <- !app_assoc.
Qed.
End Dialogue.
