(* ===== verification/SmtpClaims.v ===== *)
(** * How a submission can end

    Over a transport whose failures are classified every loop ends within its
    fuel and the exceptions are exactly the documented ones; a failure that may be
    retried leaves the server without a complete message. *)

From S2P Require Import Prelude Text Errors Json AuthCore Protocol DockerGuard Smtp SmtpSpecs.

#[local] Set Default Proof Using "Type*".

(** ** A prefix of an unfinished dialogue is unfinished *)

Lemma data_from_app b s : ∀ acc ls r,
  data_from acc s = Some (ls, r) → data_from acc (s ++ b) = Some (ls, r ++ b).
Proof.
  induction s as [s IH] using (induction_ltof1 _ length). unfold ltof in IH. intros acc ls r.
  destruct s as [|c s]; [done|].
  destruct (decide (c = 13)) as [->|Hc]; [destruct s as [|d s];
    [done|destruct (decide (d = 10)) as [->|Hd]]|].
  - simpl. case_bool_decide; [by intros [= <- <-]|].
    destruct (data_from [] s) as [[ls' r']|] eqn:E; [|done]. simpl. intros [= <- <-].
    rewrite (IH s) with (ls := ls') (r := r'); [done|simpl; lia|done].
  - intros H. assert (H' : data_from (acc ++ [13]) (d :: s) = Some (ls, r)).
    { rewrite <- H. simpl. repeat (case_match; try done). }
    apply IH in H'; [|simpl; lia]. rewrite <- H'. simpl. repeat (case_match; try done).
  - intros H. assert (H' : data_from (acc ++ [c]) s = Some (ls, r)).
    { rewrite <- H. simpl. repeat (case_match; try done). }
    apply IH in H'; [|simpl; lia]. rewrite <- H'. simpl. repeat (case_match; try done).
Qed.

Lemma commands_from_app b s : ∀ acc cs ls r,
  commands_from acc s = Some (cs, ls, r) → commands_from acc (s ++ b) = Some (cs, ls, r ++ b).
Proof.
  induction s as [s IH] using (induction_ltof1 _ length). unfold ltof in IH. intros acc cs ls r.
  destruct s as [|c s]; [done|].
  destruct (decide (c = 13)) as [->|Hc]; [destruct s as [|d s];
    [done|destruct (decide (d = 10)) as [->|Hd]]|].
  - cbn [app commands_from]. case_bool_decide.
    + unfold data_read. destruct (data_from [] s) as [[ls' r']|] eqn:E; [|done].
      simpl. intros [= <- <- <-]. by rewrite (data_from_app b _ _ _ _ E).
    + destruct (commands_from [] s) as [[[cs' ls'] r']|] eqn:E; [|done]. simpl. intros [= <- <- <-].
      rewrite (IH s) with (cs := cs') (ls := ls') (r := r'); [done|simpl; lia|done].
  - intros H. assert (H' : commands_from (acc ++ [13]) (d :: s) = Some (cs, ls, r)).
    { rewrite <- H. cbn [commands_from]. repeat (case_match; try done). }
    apply IH in H'; [|simpl; lia]. rewrite <- H'. cbn [app commands_from]. repeat (case_match; try done).
  - intros H. assert (H' : commands_from (acc ++ [c]) s = Some (cs, ls, r)).
    { rewrite <- H. cbn [commands_from]. repeat (case_match; try done). }
    apply IH in H'; [|simpl; lia]. rewrite <- H'. cbn [app commands_from]. repeat (case_match; try done).
Qed.

Lemma server_view_prefix a b : a `prefix_of` b → server_view b = None → server_view a = None.
Proof.
  intros [k ->]. unfold server_view. destruct (commands_from [] a) as [[[cs ls] r]|] eqn:E; [|done].
  by rewrite (commands_from_app k _ _ _ _ _ E).
Qed.

Lemma data_read_lines_none ls : Forall no_break ls → data_read (wire_lines ls) = None.
Proof.
  unfold data_read. induction 1 as [|l ls Hl _ IH]; [done|].
  rewrite wire_lines_cons, data_from_line by by apply dotted_no_break. cbn [app].
  destruct (dotted_reads l) as [H1 _]. by rewrite bool_decide_eq_false_2, IH.
Qed.

Lemma stuffed_unread m : data_read (stuffed true false m) = None.
Proof.
  pose proof (stuffed_lines m []) as H. simpl in H. rewrite <- H.
  apply data_read_lines_none, text_lines_no_break. constructor.
Qed.

Lemma server_view_quiet ls : Forall command_line ls → server_view (wire_commands ls) = None.
Proof.
  intros Hls. rewrite <- (app_nil_r (wire_commands ls)). by rewrite server_view_commands.
Qed.

Lemma server_view_part ls m :
  Forall command_line ls →
  server_view (wire_commands (ls ++ [u "DATA"]) ++ stuffed true false m) = None.
Proof.
  intros Hls. rewrite wire_commands_app, <- app_assoc, server_view_commands by done.
  change (wire_commands [u "DATA"]) with (u "DATA" ++ CRLF ++ []). rewrite app_nil_r, <- app_assoc.
  unfold server_view at 1. rewrite commands_from_line by (vm_compute; repeat constructor; lia).
  cbn [app]. by rewrite bool_decide_eq_true_2, stuffed_unread.
Qed.

Lemma unfinished_view {C} `{!SMTPChannel C} `{!Lossless C} (s s' : smtp C) :
  wire s = [] → unfinished s s' → server_view (wire s') = None.
Proof.
  intros Hs [(ls & Hls & _ & H)|(ls & m & Hls & H)]; unfold upto in H; rewrite Hs in H.
  - by apply (server_view_prefix _ _ H), server_view_quiet.
  - by apply (server_view_prefix _ _ H), server_view_part.
Qed.

(** ** The exceptions over a classified transport *)

Section Classified.
Context (monotonic : nat → Z).
Context {C : Type} `{!SMTPChannel C} `{!Classified C}.
Implicit Types (s : smtp C).

(** [m] keeps the channel classified and raises only exceptions in [X]. *)
Definition raises {A} (m : eff (smtp C) exc A) (X : exc → Prop) : Prop := ∀ s,
  classified (chan s) →
  wpf m (λ _ s', classified (chan s')) (λ e s', classified (chan s') ∧ X e) s.

Lemma raises_bind {A B} (m : eff (smtp C) exc A) (f : A → eff (smtp C) exc B) (X : exc → Prop) :
  raises m X → (∀ a, raises (f a) X) → raises (m ≫= f) X.
Proof. intros Hm Hf s Hs. apply wpf_bind. eapply wpf_mono; [by apply Hm| |done]. by intros a s' H; apply Hf. Qed.

Lemma raises_ret {A} (a : A) X : raises (mret a) X.
Proof. intros s Hs. by apply wpf_ret. Qed.
Lemma raises_throw {A} e (X : exc → Prop) : X e → raises (throw (A := A) e) X.
Proof. intros HX s Hs. by apply wpf_throw. Qed.
Lemma raises_mono {A} (m : eff (smtp C) exc A) (X Y : exc → Prop) :
  raises m X → (∀ e, X e → Y e) → raises m Y.
Proof. intros Hm HXY s Hs. eapply wpf_mono; [by apply Hm|done|]. intros e s' [? ?]. auto. Qed.

Definition transport (e : exc) : Prop := e = SMTPTransportError.

Lemma raises_write d : raises (on_chan (write d)) transport.
Proof.
  intros s Hs. destruct (write_err d _ Hs) as [H1 H2]. revert H1 H2. unfold wpf, on_chan.
  destruct (write d (chan s)) as [[a|e] c]; simpl; [done|]. intros H1 H2. split; [done|]. by apply H2.
Qed.
Lemma raises_readline t (X : exc → Prop) s :
  X SMTPTransportError → classified (chan s) →
  wpf (on_chan (readline t)) (λ _ s', classified (chan s') ∧ ticks s' = ticks s)
    (λ e s', classified (chan s') ∧ X e) s.
Proof.
  intros HX Hs. destruct (readline_err t _ Hs) as [H1 H2]. revert H1 H2. unfold wpf, on_chan.
  destruct (readline t (chan s)) as [[a|e] c]; simpl; [done|].
  intros H1 H2. split; [done|]. by rewrite (H2 e).
Qed.

(** A line that parses has at least four bytes, so the size limit ends the loop. *)
Lemma parse_line_size line r : parse_line line = Some r → 4 ≤ zlen line.
Proof. unfold parse_line. destruct (zlen line <? 4) eqn:E; [done|]. lia. Qed.

Lemma raises_response_loop deadline fuel : ∀ expected total,
  total ≤ RESPONSE_MAX_BYTES < total + 4 * Z.of_nat fuel →
  raises (response_loop monotonic fuel deadline expected total) transport.
Proof.
  induction fuel as [|fuel IH]; intros expected total Hf; [lia|].
  intros s Hs. simpl. apply wpf_bind. unfold wpf at 1, now_ticks.
  case_match; [by apply wpf_throw|].
  apply wpf_bind. eapply wpf_mono; [apply (raises_readline _ transport); [reflexivity|exact Hs]| |done].
  intros line s1 [Hs1 _].
  destruct (RESPONSE_MAX_BYTES <? total + zlen line) eqn:E; [by apply wpf_throw|].
  destruct (parse_line line) as [[code last]|] eqn:El; [|by apply wpf_throw].
  apply parse_line_size in El. case_bool_decide; [|by apply wpf_throw].
  destruct last; [by apply wpf_ret|]. apply IH; [lia|done].
Qed.

Lemma raises_response deadline : raises (_response monotonic deadline) transport.
Proof. apply raises_response_loop. vm_compute. split; congruence. Qed.

Definition refused (stage : list Z) (e : exc) : Prop := transport e ∨ ∃ c, e = SMTPRejected c stage.

Lemma raises_command c deadline expected stage :
  raises (_command monotonic c deadline expected stage) (refused stage).
Proof.
  apply raises_bind; [eapply raises_mono; [apply raises_write|by left]|]. intros [].
  apply raises_bind; [eapply raises_mono; [apply raises_response|by left]|]. intros code.
  case_bool_decide; [apply raises_ret|apply raises_throw]. right. eauto.
Qed.

Lemma raises_encode x : raises (lift (encode x)) (λ e, e = UnicodeEncodeError).
Proof. intros s Hs. apply wpf_lift. unfold encode. by destruct (utf8_encode x). Qed.

Lemma raises_emit v d : raises (emit v d) transport.
Proof.
  unfold emit. case_match; [|apply raises_ret]. apply raises_bind; [apply raises_write|].
  intros []. apply raises_ret.
Qed.

Lemma raises_byte v d : raises (data_byte v d) transport.
Proof.
  unfold data_byte. repeat case_match; try apply raises_ret;
    repeat (apply raises_bind; [|intros ?]); try apply raises_emit; apply raises_ret.
Qed.

Lemma raises_step v d : raises (data_step v d) transport.
Proof.
  unfold data_step. case_match; [|apply raises_byte].
  apply raises_bind; [apply raises_emit|]. intros d'. case_match; [apply raises_ret|apply raises_byte].
Qed.

Lemma raises_chunk chunk : ∀ d, raises (data_chunk chunk d) transport.
Proof.
  induction chunk as [|v chunk IH]; intros d; [apply raises_ret|].
  apply raises_bind; [apply raises_step|]. apply IH.
Qed.

(** Sending bytes does not touch the spool. *)
Lemma spool_keeps chunk : ∀ d s, spool (data_chunk chunk d s).2 = spool s.
Proof.
  assert (Hemit : ∀ v d s, spool (emit v d s).2 = spool s).
  { intros v d s. unfold emit. case_match; [|done].
    unfold mbind, eff_mbind, eff_bind, on_chan. by destruct (write _ _) as [[[]|e] c]. }
  assert (Hbind : ∀ {A B} (m : eff (smtp C) exc A) (f : A → eff (smtp C) exc B) s,
    spool (m s).2 = spool s → (∀ a s, spool (f a s).2 = spool s) → spool ((m ≫= f) s).2 = spool s).
  { intros A B m f s Hm Hf. unfold mbind, eff_mbind, eff_bind.
    destruct (m s) as [[a|e] s']; simpl in *; [by rewrite Hf|done]. }
  assert (Hbyte : ∀ v d s, spool (data_byte v d s).2 = spool s).
  { intros v d s. unfold data_byte. case_match; [done|]. case_match; [by apply Hbind|].
    apply Hbind; [by case_match|]. intros d' s'. by apply Hbind. }
  induction chunk as [|v chunk IH]; intros d s; [done|]. simpl. apply Hbind; [|apply IH].
  unfold data_step. case_match; [|apply Hbyte]. apply Hbind; [apply Hemit|].
  intros d' s'. case_match; [done|apply Hbyte].
Qed.

Lemma raises_data_loop fuel : ∀ remaining d s, classified (chan s) →
  (length (spool s) < fuel)%nat →
  wpf (data_loop fuel remaining d) (λ _ s', classified (chan s'))
    (λ e s', classified (chan s') ∧ transport e) s.
Proof.
  induction fuel as [|fuel IH]; intros remaining d s Hs Hf; [lia|]. simpl.
  destruct (remaining =? 0); [by apply wpf_ret|].
  apply wpf_bind. unfold wpf at 1, spool_read.
  destruct (spool s) as [|r rest] eqn:Er; [by apply wpf_throw|]. simpl in Hf.
  destruct r as [[|v b]|[|v t]]; try by apply wpf_throw.
  set (s1 := MkSmtp (chan s) (ticks s) rest). apply wpf_bind.
  pose proof (raises_chunk (v :: b) d s1 Hs) as H1. pose proof (spool_keeps (v :: b) d s1) as H2.
  unfold wpf in H1 |- * at 1. destruct (data_chunk (v :: b) d s1) as [[d2|e] s2]; [|done].
  apply IH; [done|]. simpl in H2. rewrite H2. simpl. lia.
Qed.

Lemma raises_write_data declared : raises (_write_data declared) transport.
Proof.
  intros s Hs. unfold _write_data. apply wpf_bind. unfold wpf at 1, gets. apply wpf_bind.
  eapply wpf_mono; [apply raises_data_loop; [done|lia]| |done]. intros d s1 Hs1.
  apply wpf_bind. unfold wpf at 1, spool_read.
  assert (Hend : raises (d ← (if pending_cr d || negb (at_line_start d) then emit CRLF d else mret d);
      if bool_decide (output d = []) then mret tt else on_chan (write (output d))) transport).
  { apply raises_bind; [case_match; [apply raises_emit|apply raises_ret]|]. intros d'.
    case_bool_decide; [apply raises_ret|apply raises_write]. }
  destruct (spool s1) as [|r rest]; [by apply Hend|].
  destruct r as [[|v b]|[|v t]]; first [by apply wpf_throw|by apply Hend].
Qed.

(** *** Before and after the terminator *)

Definition before_failure (e : exc) : Prop :=
  e = SMTPTransportError ∨ e = UnicodeEncodeError
  ∨ ∃ c stage, e = SMTPRejected c stage ∧ stage ≠ u "message body".

Lemma refused_before stage e : stage ≠ u "message body" → refused stage e → before_failure e.
Proof. intros Hs [->|[c ->]]; [by left|]. right; right. eauto. Qed.

Lemma command_before c deadline expected stage : stage ≠ u "message body" →
  raises (_command monotonic c deadline expected stage) before_failure.
Proof. intros Hs. eapply raises_mono; [apply raises_command|]. intros e. by apply refused_before. Qed.

Lemma encode_before x : raises (lift (encode x)) before_failure.
Proof. eapply raises_mono; [apply raises_encode|]. intros e ->. right. by left. Qed.

Lemma authenticate_raises username password deadline :
  raises (_authenticate_channel monotonic username password deadline) before_failure.
Proof.
  unfold _authenticate_channel.
  apply raises_bind; [eapply raises_mono; [apply raises_response|by left]|]. intros code.
  case_match; [apply raises_throw; right; right; by eexists _, _|].
  apply raises_bind; [by apply command_before|]. intros _.
  apply raises_bind; [apply encode_before|]. intros user.
  apply raises_bind; [apply encode_before|]. intros secret.
  apply raises_bind; [by apply command_before|]. intros code2.
  case_match; [|apply raises_ret]. apply raises_bind; [by apply command_before|].
  intros _. apply raises_ret.
Qed.

Lemma before_terminator_raises username password mail_from recipients declared deadline :
  raises (before_terminator monotonic username password mail_from recipients declared deadline)
    before_failure.
Proof.
  unfold before_terminator. apply raises_bind; [apply authenticate_raises|]. intros [].
  apply raises_bind; [apply encode_before|]. intros from.
  apply raises_bind; [by apply command_before|]. intros _.
  apply raises_bind.
  { induction recipients as [|r rs IH]; [apply raises_ret|]. simpl.
    apply raises_bind; [|intros []; apply IH].
    apply raises_bind; [apply encode_before|]. intros line.
    apply raises_bind; [by apply command_before|]. intros _. apply raises_ret. }
  intros []. apply raises_bind; [by apply command_before|]. intros _.
  eapply raises_mono; [apply raises_write_data|by left].
Qed.

Definition after_failure (e : exc) : Prop :=
  e = SMTPOutcomeUnknown ∨ ∃ c, e = SMTPRejected c (u "message body").

Lemma raises_or_unknown {A} (m : eff (smtp C) exc A) (X : exc → Prop) :
  raises m (λ e, transport e ∨ after_failure e) → raises (or_unknown m) after_failure.
Proof.
  intros Hm s Hs. specialize (Hm s Hs). revert Hm. unfold wpf, or_unknown.
  destruct (m s) as [[a|e] s']; [done|]. intros [H1 [->|[->|[c ->]]]]; (split; [done|]).
  - by left.
  - by left.
  - right. by exists c.
Qed.

Lemma quit_raises deadline (X : exc → Prop) : raises (quit monotonic deadline) X.
Proof.
  intros s Hs. unfold quit, suppress_smtp. apply wpf_bind, wpf_attempt.
  eapply wpf_mono; [by apply raises_command| |].
  - intros code s' H. done.
  - intros e s' [H1 [->|[c ->]]]; done.
Qed.

Lemma after_terminator_raises deadline : raises (after_terminator monotonic deadline) after_failure.
Proof.
  apply (raises_or_unknown _ transport).
  apply raises_bind; [eapply raises_mono; [apply raises_write|by left]|]. intros [].
  apply raises_bind.
  { eapply raises_mono; [apply (raises_or_unknown _ transport)|by right].
    eapply raises_mono; [apply raises_response|by left]. }
  intros code. case_match; [|apply quit_raises]. apply raises_throw. right. right. eauto.
Qed.
End Classified.

(** * The submission client as its callers see it

    The contract of [send]: what a server receives when it returns, and what it
    cannot have received when it raises an exception after which the message may
    be sent again.  Two lemmas describe the native transport, which does not keep
    the second promise, and whose writes may be cut short. *)

From S2P Require Import Prelude Text Errors Json AuthCore Protocol DockerGuard Smtp SmtpSpecs.

#[local] Set Default Proof Using "Type*".

(** ** [send] *)

Lemma result_map_elem {A B} (f : A → result exc B) l k :
  result_map f l = Ok k → Forall (λ x, ∃ y, f x = Ok y) l.
Proof.
  revert k. induction l as [|x l IH]; simpl; intros k; [constructor|].
  destruct (f x) as [y|] eqn:Ef; [|done]. destruct (result_map f l) as [ys|] eqn:El; [|done].
  intros _. constructor; eauto.
Qed.

Lemma envelope_safe self username password mail_from recipients len :
  check_envelope self username password mail_from recipients len = Ok tt →
  Forall safe_path (mail_from :: recipients).
Proof.
  unfold check_envelope, mbind, result_mbind, result_bind.
  destruct (_email_address username); [|done].
  destruct (_email_address mail_from) eqn:Em; [|done].
  destruct (result_map _ recipients) eqn:Er; [|done]. intros _.
  constructor; [by eapply email_no_break|].
  apply result_map_elem in Er. eapply Forall_impl; [exact Er|].
  intros x [y Hy]. by eapply email_no_break.
Qed.

(** Closing changes neither the outcome nor the wire, where it cannot fail. *)
Lemma finally_close {C} `{!SMTPChannel C} `{!Lossless C} {A} (m : eff (smtp C) exc A) s r s' :
  lossless (chan (m s).2) → finally m close_channel s = (r, s') →
  wire s' = wire (m s).2 ∧ ((close (chan (m s).2)).1 = Ok tt → r = (m s).1)
  ∧ (∀ a, r = Ok a → (m s).1 = Ok a).
Proof.
  unfold finally, close_channel, on_chan. destruct (m s) as [rm s1]. simpl. intros Hl.
  pose proof (close_delivered (chan s1) Hl) as Hc.
  destruct (close (chan s1)) as [[[]|e] c]; simpl in *; intros [= <- <-]; done.
Qed.

Lemma finally_same {C} `{!SMTPChannel C} {A} (m : eff (smtp C) exc A) s r s' :
  (close (chan (m s).2)).1 = Ok tt → finally m close_channel s = (r, s') → r = (m s).1.
Proof.
  unfold finally, close_channel, on_chan. destruct (m s) as [rm s1]. cbn [fst snd].
  destruct (close (chan s1)) as [rc c]. cbn [fst]. intros ->. by intros [= <- <-].
Qed.

Section Send.
Context (sys : system) (self : SMTPSubmissionClient).
Context (username password mail_from : list Z) (recipients : list (list Z)).
Context (chunks : list (list Z)) (len : Z).
Hypothesis Hchunks : Forall (λ c, c ≠ []) chunks.

Notation run := (send sys self username password mail_from recipients (ReadBytes <$> chunks) len).

Notation before := (before_terminator (monotonic sys) username password mail_from recipients len).
Notation after := (after_terminator (monotonic sys)).

(** [send] that opened a channel is the transaction on it. *)
Lemma send_transaction r s' :
  run = (r, Some s') →
  ∃ c, _open_channel sys self = Ok c ∧ Forall safe_path (mail_from :: recipients)
    ∧ send_on (monotonic sys) (timeout self) username password mail_from recipients len
        (MkSmtp c 0 (ReadBytes <$> chunks)) = (r, s').
Proof.
  unfold send. destruct (check_envelope _ _ _ _ _ _) as [[]|] eqn:Ec; [|done].
  unfold on_fresh_channel. destruct (_open_channel sys self) as [c|]; [|done].
  destruct (send_on _ _ _ _ _ _ _) as [r1 s1] eqn:Es. intros [= <- <-].
  exists c. split_and!; [done|by eapply envelope_safe|done].
Qed.

(** What a server reads of a submission that returned. *)
Lemma send_returns c n s' :
  _open_channel sys self = Ok c → lossless c → delivered c = [] →
  run = (Ok n, Some s') →
  n = zlen recipients ∧ zlen (mjoin chunks) = len ∧
  ∃ user secret again from rcpts k,
    utf8_encode username = Some user ∧ utf8_encode password = Some secret
    ∧ path_line (u "MAIL FROM") mail_from from ∧ Forall2 (path_line (u "RCPT TO")) recipients rcpts
    ∧ server_view (delivered (chan s'))
      = Some (dialogue (credentials user secret) again from rcpts, text_lines (mjoin chunks),
              take k (u "QUIT" ++ CRLF)).
Proof.
  intros Hopen Hl Hd Hrun. apply send_transaction in Hrun as (c' & Hopen' & Hpaths & Hrun).
  rewrite Hopen in Hopen'. injection Hopen' as <-.
  set (s0 := MkSmtp c 1 (ReadBytes <$> chunks)).
  set (dl := monotonic sys 0 + timeout self).
  set (m := before dl ≫= λ _, after dl ≫= λ _, mret (zlen recipients)).
  change (finally m close_channel s0 = (Ok n, s')) in Hrun.
  assert (Hm : wpl m (λ r s', r = zlen recipients ∧ zlen (mjoin chunks) = len ∧
    ∃ user secret again from rcpts k, utf8_encode username = Some user
    ∧ utf8_encode password = Some secret
    ∧ path_line (u "MAIL FROM") mail_from from ∧ Forall2 (path_line (u "RCPT TO")) recipients rcpts
    ∧ Forall command_line (envelope (credentials user secret) again from rcpts)
    ∧ wire s' = wire_commands (dialogue (credentials user secret) again from rcpts)
                ++ stuffed true false (mjoin chunks) ++ TERMINATOR ++ take k (u "QUIT" ++ CRLF))
    (λ _, True) s0).
  { apply wpl_bind. eapply wpl_mono; [by apply (before_terminator_wire _ _ _ _ _ chunks)| |done].
    intros [] s1 (user & secret & again & from & rcpts & H1 & H2 & H3 & H4 & H5 & H5' & H6).
    apply wpl_bind. eapply wpl_mono; [apply after_terminator_wire| |done].
    intros [] s2 [k H7]. apply wpl_ret. split_and!; [done|done|].
    exists user, secret, again, from, rcpts, k. split_and!; try done.
    assert (Hw0 : wire s0 = []) by done.
    by rewrite H7, H6, Hw0, app_nil_l, <- !app_assoc. }
  specialize (Hm Hl). revert Hm Hrun. unfold wpf. destruct (m s0) as [[a|e] s1] eqn:Em.
  2: { unfold finally. rewrite Em. intros _. by destruct (close_channel s1) as [[[]|e'] s2]. }
  intros [Hl1 (-> & Hlen & user & secret & again & from & rcpts & k & H1 & H2 & H3 & H4 & H4' & H5)] Hrun.
  pose proof (finally_close m s0 (Ok n) s') as Hf. rewrite Em in Hf. simpl in Hf.
  destruct (Hf Hl1 Hrun) as (Hw & _ & Hok). specialize (Hok n eq_refl). injection Hok as <-.
  split_and!; [done|done|]. exists user, secret, again, from, rcpts, k. split_and!; try done.
  assert (Hv : delivered (chan s') = _) by exact (eq_trans Hw H5).
  rewrite Hv. unfold dialogue. by apply server_view_message.
Qed.

(** What [send] may raise once a channel was opened, and what the server has
    then. *)
Lemma send_fails c e s' :
  _open_channel sys self = Ok c → lossless c → classified c → delivered c = [] →
  run = (Err e, Some s') →
  after_failure e ∨ (before_failure e ∧ server_view (delivered (chan s')) = None).
Proof.
  intros Hopen Hl Hc Hd Hrun. apply send_transaction in Hrun as (c' & Hopen' & Hpaths & Hrun).
  rewrite Hopen in Hopen'. injection Hopen' as <-.
  set (s0 := MkSmtp c 1 (ReadBytes <$> chunks)).
  set (dl := monotonic sys 0 + timeout self).
  set (m := before dl ≫= λ _, after dl ≫= λ _, mret (zlen recipients)).
  change (finally m close_channel s0 = (Err e, s')) in Hrun.
  assert (Hm : classified (chan (m s0).2) ∧ ∀ e, (m s0).1 = Err e → after_failure e ∨
    (before_failure e ∧ lossless (chan (m s0).2) ∧ server_view (wire (m s0).2) = None)).
  { destruct (m s0) as [rm sm] eqn:Em. revert Em. unfold m, mbind, eff_mbind, eff_bind.
    pose proof (before_terminator_raises (monotonic sys) username password mail_from recipients len
                  dl s0 Hc) as H1.
    pose proof (before_terminator_wire (monotonic sys) username password mail_from recipients chunks
                  len dl s0 Hpaths Hchunks eq_refl Hl) as H2.
    unfold wpf in H1, H2. destruct (before dl s0) as [[[]|e1] s1].
    - destruct H2 as [Hl1 _]. pose proof (after_terminator_raises (monotonic sys) dl s1 H1) as H3.
      unfold wpf in H3. destruct (after dl s1) as [[[]|e2] s2]; intros [= <- <-]; [by split|].
      destruct H3 as [H3 H4]. split; [done|]. intros e3 [= <-]. by left.
    - intros [= <- <-]. destruct H1 as [H1 H3], H2 as [H2 H4]. split; [done|]. intros e2 [= <-].
      right. split_and!; [done|done|]. by apply (unfinished_view s0 s1). }
  destruct Hm as [Hc1 Hm]. pose proof (finally_same m s0 _ _ (close_ok _ Hc1) Hrun) as Hr.
  destruct (Hm e (eq_sym Hr)) as [H|(H1 & H2 & H3)]; [by left|]. right. split; [done|].
  destruct (finally_close m s0 (Err e) s' H2 Hrun) as [Hw _].
  assert (Hv : delivered (chan s') = _) by exact Hw. by rewrite Hv.
Qed.
End Send.



(** The native transport does not keep that promise.  Whatever was sent
    before, when the reply to the terminator does not arrive in time the failure
    is a plain TimeoutError - not SMTPOutcomeUnknown - although the server has
    received the terminator; and the same holds when it breaks with an OSError
    while QUIT is answered after the server accepted the message. *)
Theorem native_outcome_not_marked monotonic deadline script ticks spool rest :
  0 < deadline - monotonic ticks → writes script = [] →
  (arriving script = SLate :: rest →
   let r := after_terminator monotonic deadline (MkSmtp (MkSocket script) ticks spool) in
   r.1 = Err TimeoutError ∧ wire r.2 = received script ++ TERMINATOR)
  ∧ (0 < deadline - monotonic (S ticks) →
     arriving script = (SByte <$> u "250 ok" ++ CRLF) ++ SFail OSError :: rest →
     let r := after_terminator monotonic deadline (MkSmtp (MkSocket script) ticks spool) in
     r.1 = Err OSError ∧ wire r.2 = received script ++ TERMINATOR ++ u "QUIT" ++ CRLF).
Proof.
  intros Ht Hw. destruct script as [arr ws rec cl]. simpl in Hw. subst ws.
  assert (Ht' : (deadline - monotonic ticks <=? 0) = false) by lia.
  unfold after_terminator, or_unknown, quit, suppress_smtp, attempt, _command, _response.
  change RESPONSE_FUEL with (S (Z.to_nat (RESPONSE_MAX_BYTES / 4 + 1))).
  generalize (Z.to_nat (RESPONSE_MAX_BYTES / 4 + 1)). intros fuel.
  unfold mbind, eff_mbind, eff_bind. split.
  - simpl arriving. intros ->. cbn [response_loop].
    unfold mbind, eff_mbind, eff_bind, now_ticks, on_chan. simpl. rewrite Ht'. simpl.
    done.
  - intros Ht2. assert (Ht2' : (deadline - monotonic (S ticks) <=? 0) = false) by lia.
    simpl arriving. intros ->. cbn [response_loop].
    unfold mbind, eff_mbind, eff_bind, now_ticks, on_chan. simpl. rewrite Ht'. simpl.
    rewrite Ht2'. simpl. by rewrite <- !app_assoc.
Qed.

(** ** A concrete installation *)

Definition reply (line : list Z) : list sock_event := SByte <$> (line ++ CRLF).
Definition greeting : list sock_event :=
  mjoin (reply ∘ u <$> ["220 maddy"; "250-maddy"; "250 AUTH PLAIN"; "235 ok"; "250 ok"; "250 ok"; "354 go"]).
Definition accepting : list sock_event := greeting ++ reply (u "250 queued").

Definition demo_client (m : mode) : SMTPSubmissionClient :=
  MkClient m (u "/usr/bin/docker") (u "maddy") LOOPBACK 1587 (u "container") 15 (32 * 1024 * 1024).

Definition demo_id : list Z := replicate 64 97.
Definition demo_metadata : json := JObj [(u "id", JStr demo_id); (u "running", JBool true);
  (u "paused", JBool false); (u "network_mode", JStr (u "bridge")); (u "port_bindings", JNull);
  (u "runtime_ports", JObj [(u "993/tcp", JArr [JObj [(u "HostPort", JStr (u "993"))]])])].

Definition demo_header : list Z := u "  sl  local_address rem_address   st".
Definition demo_row : list Z := u "   0: 0100007F:0633 00000000:0000 0A 00000000:00000000".
Definition demo_tables : list Z := join [10] [demo_header; demo_row; demo_header; []].

Definition ran (out : list Z) : command_run := MkRun true [Some out] [] (Some 0) false.

Definition demo_system (arriving : list sock_event) (writes : list write_outcome) : system :=
  let s := MkScript arriving writes [] None in
  MkSystem (λ _, 0) (λ _ _ _, Ok (MkSocket s)) (λ _, Ok (MkProcess s [] false))
    (λ argv, ran (if bool_decide (argv !! 2%nat = Some (u "exec")) then demo_tables else u "{}"))
    (λ _, Some (demo_header ++ [10])) (λ _, None) (λ _, Ok demo_metadata).

Definition demo_message : list (list Z) := [u "first" ++ CRLF; u ".second" ++ [13]; u "third"].

Definition demo_send (m : mode) (arriving : list sock_event) (writes : list write_outcome)
    : result exc Z * option (smtp channel) :=
  send (demo_system arriving writes) (demo_client m) (u "a@b.example") (u "secret")
    (u "a@b.example") [u "x@y.example"] (ReadBytes <$> demo_message) 20.

Lemma demo_send_eq m arriving writes :
  demo_send m arriving writes
  = send (demo_system arriving writes) (demo_client m) (u "a@b.example") (u "secret")
      (u "a@b.example") [u "x@y.example"] (ReadBytes <$> demo_message) 20.
Proof. reflexivity. Qed.



Lemma native_outcome_not_marked_witness :
  let r := after_terminator (λ _, 0) 10 (MkSmtp (MkSocket (MkScript [SLate] [] [] None)) 0 []) in
  r.1 = Err TimeoutError ∧ wire r.2 = TERMINATOR.
Proof.
  destruct (native_outcome_not_marked (λ _, 0) 10 (MkScript [SLate] [] [] None) 0 [] [])
    as [H _]; [lia|reflexivity|]. exact (H eq_refl).
Defined.

(** The native transport ignores how much of a block was written.  Here
    the kernel takes seven bytes of the message block: [send] returns normally, the
    server accepted a message - its first line only. *)
Theorem native_short_write :
  ∃ s', demo_send NATIVE accepting (replicate 5 WAll ++ [WPart 7]) = (Ok 1, Some s')
    ∧ ∃ commands rest,
        server_view (delivered (chan s')) = Some (commands, [u "first"], rest)
        ∧ text_lines (mjoin demo_message) = [u "first"; u ".second"; u "third"].
Proof. eexists. split; [vm_compute; reflexivity|]. eexists _, _. split; vm_compute; reflexivity. Qed.
