(* ===== verification/Limiter.v ===== *)
(** * The request limiter: [RequestLimiter] of [security.py]

    A gate over [asyncio.Semaphore]: a request runs, waits in line, or has given
    up after [wait_timeout].  The event loop interleaves requests at the two
    awaits (the semaphore and the handler), so the model is a step function on
    events; [run] is any interleaving. *)

From S2P Require Import Prelude Text Errors Json Http Security.

(** ** The semaphore *)

(** The future of a waiting task: pending, granted, cancelled while pending, or
    granted to a task that is being cancelled. *)
Inductive future : Type := WAITING | GRANTED | CANCELLED | GRANTED_CANCELLED.
#[export] Instance future_eq_dec : EqDecision future.
Proof. solve_decision. Defined.

(** A limiter: [_value] and [_waiters] of its semaphore, the tasks between
    [acquire] and [release], and those that gave up. *)
Record RequestLimiter := MkLimiter {
  capacity : Z; wait_timeout : Z;
  sem_value : Z; waiters : list (nat * future); running : list nat; gave_up : list nat
}.

Definition init_limiter (capacity wait_timeout : Z) : result exc RequestLimiter :=
  if capacity <=? 0 then Err ValueError
  else if wait_timeout <=? 0 then Err ValueError
  else Ok (MkLimiter capacity wait_timeout capacity [] [] []).

Definition set_sem (v : Z) (w : list (nat * future)) (l : RequestLimiter) : RequestLimiter :=
  MkLimiter (capacity l) (wait_timeout l) v w (running l) (gave_up l).
Definition set_running (r : list nat) (l : RequestLimiter) : RequestLimiter :=
  MkLimiter (capacity l) (wait_timeout l) (sem_value l) (waiters l) r (gave_up l).
Definition set_gave_up (g : list nat) (l : RequestLimiter) : RequestLimiter :=
  MkLimiter (capacity l) (wait_timeout l) (sem_value l) (waiters l) (running l) g.

(** [Semaphore.locked]. *)
Definition locked (l : RequestLimiter) : bool :=
  (sem_value l =? 0) || existsb (λ w, negb (bool_decide (w.2 = CANCELLED))) (waiters l).

(** The first pending future is granted; [None] when there is none. *)
Fixpoint grant_first (w : list (nat * future)) : option (list (nat * future)) :=
  match w with
  | [] => None
  | (i, WAITING) :: w => Some ((i, GRANTED) :: w)
  | x :: w => match grant_first w with Some w => Some (x :: w) | None => None end
  end.

(** [_wake_up_next]: whether a task was woken. *)
Definition wake_up_next (l : RequestLimiter) : option RequestLimiter :=
  match grant_first (waiters l) with
  | Some w => Some (set_sem (sem_value l - 1) w l)
  | None => None
  end.

(** [while self._value > 0: if not self._wake_up_next(): break]; every round
    takes one from the value. *)
Fixpoint wake_loop (fuel : nat) (l : RequestLimiter) : RequestLimiter :=
  match fuel with
  | O => l
  | S fuel => if 0 <? sem_value l
              then match wake_up_next l with Some l => wake_loop fuel l | None => l end
              else l
  end.
Definition wake_all (l : RequestLimiter) : RequestLimiter := wake_loop (Z.to_nat (sem_value l)) l.

(** ** What happens to a task *)

Inductive event : Type :=
| Arrive (i : nat)  (* it calls [acquire] *)
| Expire (i : nat)  (* the timeout, or a disconnected client, cancels its wait *)
| Resume (i : nat)  (* the loop runs it after its future was settled *)
| Finish (i : nat). (* its handler returned or raised: [release] *)

Definition settle (f : future) : future :=
  match f with WAITING => CANCELLED | GRANTED => GRANTED_CANCELLED | f => f end.

Definition drop_waiter (i : nat) (w : list (nat * future)) : list (nat * future) :=
  filter (λ x, x.1 ≠ i) w.

Definition known (i : nat) (l : RequestLimiter) : bool :=
  bool_decide (i ∈ (waiters l).*1 ++ running l ++ gave_up l).

(** [None]: the event cannot happen. *)
Definition step (l : RequestLimiter) (e : event) : option RequestLimiter :=
  match e with
  | Arrive i =>
      if known i l then None
      else if locked l then Some (set_sem (sem_value l) (waiters l ++ [(i, WAITING)]) l)
      else Some (set_running (i :: running l) (set_sem (sem_value l - 1) (waiters l) l))
  | Expire i =>
      if bool_decide (i ∈ (waiters l).*1) then
        Some (set_sem (sem_value l)
                ((λ x, if bool_decide (x.1 = i) then (x.1, settle x.2) else x) <$> waiters l) l)
      else None
  | Resume i =>
      let rest := drop_waiter i (waiters l) in
      match list_find (λ x, x.1 = i) (waiters l) with
      | Some (_, (_, GRANTED)) =>
          Some (wake_all (set_running (i :: running l) (set_sem (sem_value l) rest l)))
      | Some (_, (_, CANCELLED)) =>
          Some (wake_all (set_gave_up (i :: gave_up l) (set_sem (sem_value l) rest l)))
      | Some (_, (_, GRANTED_CANCELLED)) =>
          Some (wake_all (set_gave_up (i :: gave_up l) (set_sem (sem_value l + 1) rest l)))
      | _ => None
      end
  | Finish i =>
      if bool_decide (i ∈ running l) then
        let l := set_running (filter (λ j, j ≠ i) (running l))
                   (set_sem (sem_value l + 1) (waiters l) l) in
        Some (default l (wake_up_next l))
      else None
  end.

Fixpoint run (l : RequestLimiter) (es : list event) : option RequestLimiter :=
  match es with
  | [] => Some l
  | e :: es => match step l e with Some l => run l es | None => None end
  end.

(** ** The middleware *)

(** [bounded_concurrency_middleware]: the limiter of ordinary requests, that of
    the long-lived paths, and those paths. *)
Record gate := MkGate {
  limiter : RequestLimiter; stream_limiter : option RequestLimiter; long_lived_paths : list (list Z) }.

Definition bounded_concurrency_middleware (capacity wait_timeout : Z)
    (long_lived_paths : list (list Z)) (long_lived_capacity : option Z) : result exc gate :=
  limiter ← init_limiter capacity wait_timeout;
  match long_lived_paths, long_lived_capacity with
  | [], _ => Ok (MkGate limiter None [])
  | _, None => Err ValueError
  | _, Some n => stream ← init_limiter n wait_timeout; Ok (MkGate limiter (Some stream) long_lived_paths)
  end.

(** Whether a path goes through the limiter of long-lived requests. *)
Definition selects_stream (g : gate) (path : list Z) : bool :=
  match stream_limiter g with Some _ => bool_decide (path ∈ long_lived_paths g) | None => false end.

Definition on_selected (g : gate) (path : list Z) (e : event) : option gate :=
  if selects_stream g path then
    match stream_limiter g ≫= λ l, step l e with
    | Some l => Some (MkGate (limiter g) (Some l) (long_lived_paths g)) | None => None end
  else
    match step (limiter g) e with
    | Some l => Some (MkGate l (stream_limiter g) (long_lived_paths g)) | None => None end.

Fixpoint run_gate (g : gate) (es : list (list Z * event)) : option gate :=
  match es with
  | [] => Some g
  | (path, e) :: es => match on_selected g path e with Some g => run_gate g es | None => None end
  end.

(** The answer of a request that gave up. *)
Definition busy_response (request : http_request) : result exc http_response :=
  _apply_security_headers
    (_error_response request 429 (u "too_many_requests")
       (u "The server is busy; try again later.") [(u "Retry-After", u "1")]).

(** * What the request limiter guarantees

    [limiter_ok] is the invariant of every interleaving: permits are conserved,
    they are granted in order of arrival, and a free permit never coexists with
    waiting requests unless a task that will wake them is about to run. *)

From S2P Require Import Prelude Text Errors Json Http Security.

#[local] Set Default Proof Using "Type*".

(** A future that was granted and not yet picked up. *)
Definition granted (f : future) : bool := bool_decide (f = GRANTED ∨ f = GRANTED_CANCELLED).
Definition held (w : list (nat * future)) : nat := length (filter (λ x, granted x.2 = true) w).

Definition in_order (w : list (nat * future)) : Prop :=
  ∀ a x b, w = a ++ x :: b → granted x.2 = true → WAITING ∉ a.*2.

(** Permits are conserved and handed out in order. *)
Record conserved (l : RequestLimiter) : Prop := {
  cap_pos : 0 < capacity l;
  value_nonneg : 0 ≤ sem_value l;
  permits : sem_value l + zlen (running l) + Z.of_nat (held (waiters l)) = capacity l;
  distinct : NoDup ((waiters l).*1 ++ running l);
  fifo : in_order (waiters l)
}.

Definition awake (l : RequestLimiter) : Prop :=
  0 < sem_value l → WAITING ∈ (waiters l).*2 → ∃ x, x ∈ waiters l ∧ granted x.2 = true.

Definition limiter_ok (l : RequestLimiter) : Prop := conserved l ∧ awake l.

(** ** Granting *)

Lemma grant_first_some w w' : grant_first w = Some w' →
  ∃ a i b, w = a ++ (i, WAITING) :: b ∧ w' = a ++ (i, GRANTED) :: b ∧ WAITING ∉ a.*2.
Proof.
  revert w'. induction w as [|[j f] w IH]; intros w' H; [done|]. simpl in H.
  destruct f;
    [injection H as <-; exists [], j, w; split_and!; try done; apply not_elem_of_nil|..];
    (destruct (grant_first w) as [w1|] eqn:E; [|done]; injection H as <-;
     destruct (IH _ eq_refl) as (a & i & b & -> & -> & Hn);
     eexists (_ :: a), i, b; split_and!; try done; csimpl; by apply not_elem_of_cons).
Qed.

Lemma grant_first_none w : grant_first w = None → WAITING ∉ w.*2.
Proof.
  induction w as [|[j f] w IH]; intros H; [apply not_elem_of_nil|]. simpl in H. csimpl.
  destruct f; [done|..]; (destruct (grant_first w); [done|]; apply not_elem_of_cons; split; [done|by apply IH]).
Qed.

Lemma held_app a b : held (a ++ b) = (held a + held b)%nat.
Proof. unfold held. by rewrite filter_app, length_app. Qed.
Lemma held_cons x w : held (x :: w) = ((if granted x.2 then 1 else 0) + held w)%nat.
Proof. unfold held. rewrite filter_cons. destruct (granted x.2); [by rewrite decide_True|by rewrite decide_False]. Qed.

Lemma in_order_nil : in_order [].
Proof. intros [|] ? ? [=]. Qed.

(** A list cut at any element stays in order. *)
Lemma in_order_sublist v w : v `sublist_of` w → in_order w → in_order v.
Proof.
  intros Hs Hw a x b -> Hx Ha.
  apply list_elem_of_fmap in Ha as ([j f] & Hf & Hj). simpl in Hf. subst f.
  apply list_elem_of_split in Hj as (a1 & a2 & ->).
  rewrite <-app_assoc in Hs. apply sublist_app_l in Hs as (w1 & w2 & -> & _ & Hs2).
  simpl in Hs2. apply sublist_cons_l in Hs2 as (w3 & w4 & -> & Hs4).
  apply sublist_app_l in Hs4 as (w5 & w6 & -> & _ & Hs6).
  apply sublist_cons_l in Hs6 as (w7 & w8 & -> & _).
  apply (Hw (w1 ++ w3 ++ (j, WAITING) :: w5 ++ w7) x w8); [|done|].
  - by rewrite <-!app_assoc; simpl; rewrite <-!app_assoc.
  - rewrite !fmap_app. csimpl. set_solver.
Qed.

Lemma in_order_granted a i b :
  in_order (a ++ (i, WAITING) :: b) → WAITING ∉ a.*2 → in_order (a ++ (i, GRANTED) :: b).
Proof.
  intros Hw Ha a' x b' Heq Hx.
  apply app_eq_app in Heq as (k & [[-> Hk]|[-> Hk]]).
  - destruct k as [|y k]; simpl in Hk.
    + injection Hk as -> ->. by rewrite app_nil_r in Ha.
    + injection Hk as -> ->. intros Hin. apply Ha. rewrite fmap_app. set_solver.
  - destruct k as [|y k]; simpl in Hk.
    + by rewrite app_nil_r.
    + injection Hk as <- ->. exfalso.
      apply (Hw (a ++ (i, WAITING) :: k) x b'); [by rewrite <-app_assoc|done|].
      rewrite fmap_app. csimpl. set_solver.
Qed.

Lemma wake_up_next_ok l l' : conserved l → 0 < sem_value l → wake_up_next l = Some l' → conserved l'.
Proof.
  intros [Hc Hv Hp Hd Hf] Hpos H. unfold wake_up_next in H.
  destruct (grant_first (waiters l)) as [w|] eqn:E; [|done]. injection H as <-.
  apply grant_first_some in E as (a & i & b & E & -> & Hn). rewrite E in *.
  constructor; simpl; try done; [lia|..].
  - rewrite held_app, held_cons in *. simpl in *. lia.
  - by rewrite fmap_app in *.
  - by apply in_order_granted.
Qed.

Lemma wake_loop_ok fuel l : conserved l → sem_value l ≤ Z.of_nat fuel →
  conserved (wake_loop fuel l) ∧
  (sem_value (wake_loop fuel l) = 0 ∨ WAITING ∉ (waiters (wake_loop fuel l)).*2) ∧
  running (wake_loop fuel l) = running l ∧ gave_up (wake_loop fuel l) = gave_up l ∧
  (waiters (wake_loop fuel l)).*1 = (waiters l).*1 ∧ capacity (wake_loop fuel l) = capacity l ∧
  (∀ i, (i, WAITING) ∈ waiters l → (i, WAITING) ∈ waiters (wake_loop fuel l) ∨
        (i, GRANTED) ∈ waiters (wake_loop fuel l)) ∧
  (∀ i, (i, GRANTED) ∈ waiters l → (i, GRANTED) ∈ waiters (wake_loop fuel l)).
Proof.
  revert l. induction fuel as [|fuel IH]; intros l Hok Hle; simpl.
  - pose proof (value_nonneg _ Hok). split_and!; auto; left; lia.
  - destruct (Z.ltb_spec 0 (sem_value l)) as [Hpos|Hz];
      [|pose proof (value_nonneg _ Hok); split_and!; auto; left; lia].
    destruct (wake_up_next l) as [l1|] eqn:E.
    + pose proof (wake_up_next_ok _ _ Hok Hpos E) as Hok1.
      unfold wake_up_next in E. destruct (grant_first (waiters l)) as [w|] eqn:Eg; [|done].
      injection E as <-. destruct (IH _ Hok1) as (H1 & H2 & H3 & H4 & H5 & H6 & H7 & H8); [simpl; lia|].
      apply grant_first_some in Eg as (a & i & b & Ew & -> & Hn).
      split_and!; try done.
      * rewrite H5. simpl. rewrite Ew, !fmap_app. done.
      * intros j Hj. rewrite Ew in Hj. apply elem_of_app in Hj as [Hj|Hj].
        { apply H7. simpl. set_solver. }
        apply elem_of_cons in Hj as [[= ->]|Hj]; [right; apply H8; simpl; set_solver|].
        apply H7. simpl. set_solver.
      * intros j Hj. apply H8. simpl. rewrite Ew in Hj. set_solver.
    + unfold wake_up_next in E. destruct (grant_first (waiters l)) eqn:Eg; [done|].
      apply grant_first_none in Eg. split_and!; auto.
Qed.

(** ** Steps *)

Lemma in_order_fmap (g : nat * future → nat * future) w :
  (∀ x, granted (g x).2 = granted x.2) → (∀ x, (g x).2 = WAITING → x.2 = WAITING) →
  in_order w → in_order (g <$> w).
Proof.
  intros Hg Hw Hin a x b Heq Hx Ha.
  apply fmap_app_inv in Heq as (a0 & r0 & -> & Hr & ->).
  destruct r0 as [|x0 b0]; [done|]. injection Hr as -> ->. rewrite Hg in Hx.
  apply (Hin a0 x0 b0 eq_refl Hx). apply list_elem_of_fmap in Ha as (y & Hy & Hya).
  apply list_elem_of_fmap in Hya as (z & -> & Hz). apply list_elem_of_fmap. exists z.
  split; [|done]. symmetry. apply Hw. congruence.
Qed.

Lemma held_fmap (g : nat * future → nat * future) w :
  (∀ x, granted (g x).2 = granted x.2) → held (g <$> w) = held w.
Proof.
  intros Hg. induction w as [|x w IH]; [done|]. cbn [fmap list_fmap]. by rewrite !held_cons, Hg, IH.
Qed.

Lemma wake_all_ok l : conserved l → limiter_ok (wake_all l).
Proof.
  intros Hok. destruct (wake_loop_ok (Z.to_nat (sem_value l)) l Hok) as (H1 & H2 & _); [lia|].
  split; [done|]. unfold wake_all. intros Hv Hw. destruct H2; [lia|done].
Qed.

(** Removing the waiter that resumes. *)
Lemma drop_found i f w k : list_find (λ x, x.1 = i) w = Some (k, (i, f)) → NoDup w.*1 →
  ∃ a b, w = a ++ (i, f) :: b ∧ drop_waiter i w = a ++ b ∧ i ∉ (a ++ b).*1.
Proof.
  intros H Hd. apply list_find_Some in H as (Hk & _ & _).
  apply list_elem_of_split_length in Hk as (a & b & -> & _). exists a, b.
  rewrite fmap_app in Hd. csimpl in Hd. apply NoDup_app in Hd as (_ & Hda & [Hib _]%NoDup_cons).
  assert (Hia : i ∉ a.*1) by (intros Hi; apply (Hda i Hi); left).
  split_and!; [done| |rewrite fmap_app; set_solver].
  assert (Hkeep : ∀ v : list (nat * future), i ∉ v.*1 → drop_waiter i v = v).
  { unfold drop_waiter. induction v as [|[j g] v IH]; [done|]. csimpl.
    intros [Hn Hv]%not_elem_of_cons. rewrite filter_cons, decide_True by (simpl; congruence).
    by rewrite IH. }
  unfold drop_waiter in *. rewrite filter_app, filter_cons, decide_False by (simpl; by intros []).
  by rewrite !Hkeep.
Qed.

Lemma find_id i x w k : list_find (λ x : nat * future, x.1 = i) w = Some (k, x) → x.1 = i.
Proof. by intros (_ & ? & _)%list_find_Some. Qed.

(** The limiter after a waiter left, with a permit back when it had one. *)
Lemma resume_conserved l i f a b v r g :
  conserved l → waiters l = a ++ (i, f) :: b →
  (v + zlen r = sem_value l + zlen (running l) + (if granted f then 1 else 0)) →
  0 ≤ v → NoDup ((a ++ b).*1 ++ r) →
  conserved (MkLimiter (capacity l) (wait_timeout l) v (a ++ b) r g).
Proof.
  intros [Hc Hv Hp Hd Hf] Hw Hsum Hv' Hd'. rewrite Hw in Hp, Hf.
  constructor; simpl; try done.
  - rewrite held_app, held_cons in *. simpl in Hp. destruct (granted f); lia.
  - eapply in_order_sublist; [|exact Hf]. apply sublist_app; [done|by apply sublist_cons].
Qed.

Lemma known_false i l : known i l = false →
  i ∉ (waiters l).*1 ∧ i ∉ running l ∧ i ∉ gave_up l.
Proof. unfold known. intros H%bool_decide_eq_false. set_solver. Qed.

Lemma arrive_ok l i l' : limiter_ok l → step l (Arrive i) = Some l' → limiter_ok l'.
Proof.
  intros [Hok Ha] H. pose proof Hok as [Hc Hv Hp Hd Hf]. simpl in H.
  destruct (known i l) eqn:Hk; [done|]. apply known_false in Hk as (Hi1 & Hi2 & _).
  destruct (locked l) eqn:Hl; injection H as <-.
  - split; [constructor|]; simpl; try done.
    + rewrite held_app. simpl. unfold held at 2. simpl. rewrite Nat.add_0_r. done.
    + rewrite fmap_app, <-app_assoc. simpl. rewrite <-Permutation_middle. constructor; [set_solver|done].
    + intros a x b Heq Hx Hin.
      apply app_eq_app in Heq as (k & [[Ha1 Hk]|[Ha1 Hk]]).
      * destruct k as [|y k]; simplify_eq/=. by apply (Hf _ _ _ Ha1 Hx).
      * by destruct k as [|y [|]]; simplify_eq/=.
    + intros Hpos _. unfold locked in Hl. apply orb_true_iff in Hl as [Hl|Hl]; [simpl in Hpos; lia|].
      apply existsb_exists in Hl as (x & Hx%list_elem_of_In & Hnc).
      apply negb_true_iff, bool_decide_eq_false in Hnc. simpl in *.
      destruct (granted x.2) eqn:Hg; [exists x; split; [set_solver|done]|].
      destruct Ha as (y & Hy & Hgy); [done| |exists y; split; [set_solver|done]].
      destruct x as [j []]; try done. apply list_elem_of_fmap. by exists (j, WAITING).
  - unfold locked in Hl. apply orb_false_iff in Hl as [Hl0 Hl].
    split; [constructor|]; simpl; try done; [lia|rewrite zlen_cons; lia| |].
    + rewrite <-Permutation_middle. constructor; [set_solver|done].
    + intros _ Hin. exfalso. apply list_elem_of_fmap in Hin as ([j f] & Hf' & Hj).
      simpl in Hf'. subst f. assert (existsb (λ w : nat * future, negb (bool_decide (w.2 = CANCELLED)))
        (waiters l) = true); [|congruence].
      apply existsb_exists. exists (j, WAITING). split; [by apply list_elem_of_In|done].
Qed.

Lemma expire_ok l i l' : limiter_ok l → step l (Expire i) = Some l' → limiter_ok l'.
Proof.
  intros [[Hc Hv Hp Hd Hf] Ha] H. simpl in H. case_bool_decide; [|done]. injection H as <-.
  set (g := λ x : nat * future, if bool_decide (x.1 = i) then (x.1, settle x.2) else x).
  assert (Hg : ∀ x, granted (g x).2 = granted x.2) by (intros [j f]; unfold g; case_bool_decide; by destruct f).
  assert (Hw : ∀ x, (g x).2 = WAITING → x.2 = WAITING) by (intros [j f]; unfold g; case_bool_decide; by destruct f).
  assert (H1 : (g <$> waiters l).*1 = (waiters l).*1).
  { rewrite <-list_fmap_compose. apply list_fmap_ext. intros k [j f] _. unfold g; simpl. by case_bool_decide. }
  split; [constructor|]; simpl; try done.
  - by rewrite held_fmap.
  - by rewrite H1.
  - by apply in_order_fmap.
  - intros Hpos Hin. apply list_elem_of_fmap in Hin as (y & Hy & Hin).
    apply list_elem_of_fmap in Hin as (x & -> & Hx).
    destruct Ha as (z & Hz & Hgz); [done|apply list_elem_of_fmap; exists x; split; [symmetry; by apply Hw|done]|].
    exists (g z). split; [apply list_elem_of_fmap; by exists z|by rewrite Hg].
Qed.

Lemma resume_ok l i l' : limiter_ok l → step l (Resume i) = Some l' → limiter_ok l'.
Proof.
  intros [Hok _] H. pose proof Hok as [Hc Hv Hp Hd Hf]. simpl in H.
  destruct (list_find _ (waiters l)) as [[k [j f]]|] eqn:E; [|done].
  pose proof (find_id _ _ _ _ E) as Hj. simpl in Hj. subst j.
  assert (Hdw : NoDup (waiters l).*1) by (by apply NoDup_app in Hd as [? _]).
  destruct (drop_found _ _ _ _ E Hdw) as (a & b & Hw & Hdrop & Hi). rewrite Hdrop in H.
  assert (Hd2 : NoDup ((a ++ b).*1 ++ i :: running l)).
  { rewrite Hw, fmap_app in Hd. csimpl in Hd. rewrite fmap_app.
    rewrite <-Permutation_middle. rewrite <-app_assoc, <-app_comm_cons in Hd.
    rewrite <-Permutation_middle in Hd. by rewrite <-app_assoc. }
  assert (Hd3 : NoDup ((a ++ b).*1 ++ running l)).
  { rewrite <-Permutation_middle in Hd2. by apply NoDup_cons in Hd2 as [_ ?]. }
  destruct f; try done; injection H as <-; apply wake_all_ok; unfold set_running, set_sem, set_gave_up; simpl.
  - apply (resume_conserved l i GRANTED); try done. rewrite zlen_cons. simpl. lia.
  - apply (resume_conserved l i CANCELLED); try done. simpl. lia.
  - apply (resume_conserved l i GRANTED_CANCELLED); try done; simpl; lia.
Qed.

Lemma finish_conserved l i : conserved l → i ∈ running l →
  conserved (set_running (filter (λ j, j ≠ i) (running l)) (set_sem (sem_value l + 1) (waiters l) l)).
Proof.
  intros [Hc Hv Hp Hd Hf] Hi. apply NoDup_app in Hd as (Hd1 & Hd2 & Hd3).
  constructor; simpl; try done; [lia| |].
  - assert (zlen (filter (λ j, j ≠ i) (running l)) + 1 = zlen (running l)); [|lia].
    apply list_elem_of_split in Hi as (a & b & Hr). rewrite Hr in *.
    apply NoDup_app in Hd3 as (_ & Ha & [Hb _]%NoDup_cons).
    assert (Hkeep : ∀ v : list nat, i ∉ v → filter (λ j, j ≠ i) v = v).
    { induction v as [|j v IH]; [done|]. intros [? ?]%not_elem_of_cons.
      by rewrite filter_cons, decide_True, IH. }
    rewrite filter_app, filter_cons, decide_False by (by intros []).
    rewrite !Hkeep; [rewrite !zlen_app, zlen_cons; lia|done|].
    intros Hia. apply (Ha i Hia). left.
  - apply NoDup_app. split_and!; [done| |by apply NoDup_filter].
    intros j Hj [_ Hj']%list_elem_of_filter. by apply (Hd2 j).
Qed.

Lemma finish_ok l i l' : limiter_ok l → step l (Finish i) = Some l' → limiter_ok l'.
Proof.
  intros [Hok Ha] H. simpl in H. case_bool_decide as Hi; [|done]. injection H as <-.
  pose proof (finish_conserved l i Hok Hi) as Hok'. pose proof (value_nonneg _ Hok).
  destruct (wake_up_next _) as [l1|] eqn:E; simpl.
  - split; [apply (wake_up_next_ok _ _ Hok'); [simpl; lia|done]|].
    unfold wake_up_next in E. destruct (grant_first _) as [w|] eqn:Eg; [|done]. injection E as <-.
    apply grant_first_some in Eg as (a & j & b & _ & -> & _). intros _ _. simpl.
    exists (j, GRANTED). split; [set_solver|done].
  - split; [done|]. intros _ Hw. unfold wake_up_next in E.
    destruct (grant_first _) eqn:Eg; [done|]. by apply grant_first_none in Eg.
Qed.

Lemma step_ok l e l' : limiter_ok l → step l e = Some l' → limiter_ok l'.
Proof. destruct e; eauto using arrive_ok, expire_ok, resume_ok, finish_ok. Qed.

(** ** Serving *)

(** A task waits once. *)
Lemma waiter_future (w : list (nat * future)) i f g :
  NoDup w.*1 → (i, f) ∈ w → (i, g) ∈ w → f = g.
Proof.
  intros Hd [m Hm]%list_elem_of_lookup [n Hn]%list_elem_of_lookup.
  assert (m = n) as ->; [|congruence].
  apply (NoDup_lookup _ m n i Hd); rewrite list_lookup_fmap; [by rewrite Hm|by rewrite Hn].
Qed.

Definition queued (i : nat) (l : RequestLimiter) : Prop :=
  (i, WAITING) ∈ waiters l ∨ (i, GRANTED) ∈ waiters l.

Lemma wake_all_facts l : conserved l →
  running (wake_all l) = running l ∧ length (waiters (wake_all l)) = length (waiters l) ∧
  capacity (wake_all l) = capacity l ∧ ∀ i, queued i l → queued i (wake_all l).
Proof.
  intros Hok. destruct (wake_loop_ok (Z.to_nat (sem_value l)) l Hok)
    as (_ & _ & Hr & _ & Hw & Hcap & Hq & Hg); [lia|].
  split_and!; try done.
  - apply (f_equal length) in Hw. by rewrite !length_fmap in Hw.
  - intros i [Hi|Hi]; [by apply Hq|right; by apply Hg].
Qed.

(** Picking up a settled future. *)
Lemma resume_progress l k f : limiter_ok l → (k, f) ∈ waiters l → f ≠ WAITING →
  ∃ l', step l (Resume k) = Some l' ∧ (S (length (waiters l')) = length (waiters l)) ∧
    (length (running l') ≤ S (length (running l)))%nat ∧ (f = GRANTED → k ∈ running l') ∧
    ∀ i, i ≠ k → queued i l → queued i l'.
Proof.
  intros Hlok Hk Hf. pose proof (proj1 Hlok) as Hok.
  assert (Hdw : NoDup (waiters l).*1) by (pose proof (distinct _ Hok) as Hd; by apply NoDup_app in Hd as [? _]).
  destruct (list_find (λ x, x.1 = k) (waiters l)) as [[n [k' f']]|] eqn:E.
  2:{ exfalso. rewrite list_find_None in E. rewrite Forall_forall in E. by apply (E _ Hk). }
  pose proof (find_id _ _ _ _ E) as Hid. simpl in Hid. subst k'.
  destruct (drop_found _ _ _ _ E Hdw) as (a & b & Hw & Hdrop & Hi).
  assert (f' = f) as ->.
  { rewrite Hw in Hk. rewrite fmap_app in Hi. apply elem_of_app in Hk as [Hk|Hk].
    - exfalso. apply Hi, elem_of_app. left. apply list_elem_of_fmap. by exists (k, f).
    - apply elem_of_cons in Hk as [[= ->]|Hk]; [done|].
      exfalso. apply Hi, elem_of_app. right. apply list_elem_of_fmap. by exists (k, f). }
  assert (Hq : ∀ l0 i, i ≠ k → waiters l0 = a ++ b → queued i l → queued i l0).
  { unfold queued. intros l0 i Hne ->. rewrite Hw. rewrite !elem_of_app, !elem_of_cons.
    intros [[?|[[= ? ?]|?]]|[?|[[= ? ?]|?]]]; try done; auto. }
  assert (Hlen : S (length (a ++ b)) = length (waiters l)) by (rewrite Hw, !length_app; simpl; lia).
  destruct (step l (Resume k)) as [l'|] eqn:Hs.
  2:{ simpl in Hs. rewrite E in Hs. by destruct f. }
  exists l'. split; [done|].
  assert (∃ l0, l' = wake_all l0 ∧ conserved l0 ∧ waiters l0 = a ++ b ∧
    running l0 = (if bool_decide (f = GRANTED) then k :: running l else running l)) as (l0 & -> & H0 & Hw0 & Hr0).
  { pose proof Hok as [Hc Hv Hp Hd Hfi]. simpl in Hs. rewrite E, Hdrop in Hs.
    assert (Hd2 : NoDup ((a ++ b).*1 ++ k :: running l)).
    { rewrite Hw, fmap_app in Hd. csimpl in Hd. rewrite fmap_app.
      rewrite <-Permutation_middle. rewrite <-app_assoc, <-app_comm_cons in Hd.
      rewrite <-Permutation_middle in Hd. by rewrite <-app_assoc. }
    assert (Hd3 : NoDup ((a ++ b).*1 ++ running l)).
    { rewrite <-Permutation_middle in Hd2. by apply NoDup_cons in Hd2 as [_ ?]. }
    destruct f; try done; injection Hs as <-; eexists; (split; [reflexivity|]);
      (split; [|split; [reflexivity|reflexivity]]); unfold set_running, set_sem, set_gave_up; simpl.
    - apply (resume_conserved l k GRANTED); try done. rewrite zlen_cons. simpl. lia.
    - apply (resume_conserved l k CANCELLED); try done. simpl. lia.
    - apply (resume_conserved l k GRANTED_CANCELLED); try done; simpl; lia. }
  destruct (wake_all_facts l0 H0) as (Hr & Hl & _ & Hqw). rewrite Hr, Hl, Hw0, Hr0.
  split_and!; [done| | |].
  - case_bool_decide; simpl; lia.
  - intros ->. rewrite bool_decide_true by done. left.
  - intros i Hne Hqi. apply Hqw, (Hq l0 i Hne Hw0 Hqi).
Qed.

Lemma not_granted_held w : (∀ x, x ∈ w → granted x.2 = false) → held w = 0%nat.
Proof.
  induction w as [|x w IH]; intros H; [done|]. rewrite held_cons, H by left.
  apply IH. intros y Hy. apply H. by right.
Qed.

(** A request that waits while no settled future is left: every permit is in use,
    and the next release is handed on. *)
Lemma finish_progress l i : limiter_ok l → (i, WAITING) ∈ waiters l →
  (∀ x, x ∈ waiters l → granted x.2 = false) →
  ∃ j l', step l (Finish j) = Some l' ∧ length (waiters l') = length (waiters l) ∧
    (length (running l') < length (running l))%nat ∧ queued i l'.
Proof.
  intros [Hok Ha] Hi Hng. pose proof Hok as [Hc Hv Hp Hd Hf].
  assert (sem_value l = 0) as Hz.
  { destruct (decide (sem_value l = 0)); [done|]. destruct Ha as (x & Hx & Hg); [lia| |].
    - apply list_elem_of_fmap. by exists (i, WAITING).
    - by rewrite Hng in Hg. }
  rewrite Hz, not_granted_held in Hp by done.
  destruct (running l) as [|j r] eqn:Hr; [unfold zlen in Hp; simpl in Hp; lia|].
  assert (Hj : j ∈ running l) by (rewrite Hr; left).
  exists j. simpl. rewrite Hr, bool_decide_true by left.
  eexists. split; [reflexivity|].
  unfold wake_up_next. simpl.
  destruct (grant_first (waiters l)) as [w|] eqn:Eg.
  2:{ exfalso. apply grant_first_none in Eg. apply Eg, list_elem_of_fmap. by exists (i, WAITING). }
  apply grant_first_some in Eg as (a & k & b & Ew & -> & Hn). simpl.
  split_and!.
  - by rewrite Ew, !length_app.
  - rewrite filter_cons, decide_False by (by intros []).
    pose proof (length_filter (λ j', j' ≠ j) r). simpl. lia.
  - unfold queued. simpl. rewrite Ew in Hi. apply elem_of_app in Hi as [Hi|Hi].
    + left. set_solver.
    + apply elem_of_cons in Hi as [[= ->]|Hi]; [right|left]; set_solver.
Qed.

(** The events of a drained limiter: nobody arrives and nobody gives up. *)
Definition drains (e : event) : Prop :=
  match e with Resume _ | Finish _ => True | _ => False end.

Lemma served n l i : limiter_ok l → queued i l →
  (3 * length (waiters l) + length (running l) ≤ n)%nat →
  ∃ es l', Forall drains es ∧ (length es ≤ n)%nat ∧ run l es = Some l' ∧ i ∈ running l'.
Proof.
  revert l. induction n as [|n IH]; intros l Hok Hq Hn.
  - exfalso. assert (waiters l ≠ []); [|destruct (waiters l); simpl in Hn; [done|lia]].
    intros E. unfold queued in Hq. rewrite E in Hq. set_solver.
  - assert (Hgo : ∀ e l1, drains e → step l e = Some l1 → queued i l1 →
      (3 * length (waiters l1) + length (running l1) ≤ n)%nat →
      ∃ es l', Forall drains es ∧ (length es ≤ S n)%nat ∧ run l es = Some l' ∧ i ∈ running l').
    { intros e l1 He Hs Hq1 Hm. destruct (IH l1 (step_ok _ _ _ Hok Hs) Hq1 Hm) as (es & l' & H1 & H2 & H3 & H4).
      exists (e :: es), l'. split_and!; [by constructor|simpl; lia|simpl; by rewrite Hs|done]. }
    destruct (decide ((i, GRANTED) ∈ waiters l)) as [Hi|Hi].
    { destruct (resume_progress l i GRANTED Hok Hi) as (l1 & Hs & _ & _ & Hr & _); [done|].
      exists [Resume i], l1. split_and!; [by repeat constructor|simpl; lia|cbn [run]; by rewrite Hs|by apply Hr]. }
    destruct Hq as [Hq|Hq]; [|done].
    destruct (existsb (λ x, granted x.2) (waiters l)) eqn:Eg.
    + apply existsb_exists in Eg as ([k f] & Hk%list_elem_of_In & Hg). simpl in Hg.
      assert (f ≠ WAITING) by (by intros ->).
      destruct (resume_progress l k f Hok Hk) as (l1 & Hs & Hl & Hr & _ & Hqq); [done|].
      apply (Hgo (Resume k) l1); [done|done| |lia].
      apply Hqq; [|by left]. intros ->.
      assert (Hdw : NoDup (waiters l).*1)
        by (pose proof (distinct _ (proj1 Hok)) as Hd; by apply NoDup_app in Hd as [? _]).
      by specialize (waiter_future _ _ _ _ Hdw Hk Hq) as ->.
    + destruct (finish_progress l i Hok Hq) as (j & l1 & Hs & Hl & Hr & Hq1).
      { intros x Hx. destruct (granted x.2) eqn:Hg; [|done].
        assert (existsb (λ x, granted x.2) (waiters l) = true); [|congruence].
        apply existsb_exists. exists x. split; [by apply list_elem_of_In|done]. }
      by apply (Hgo (Finish j) l1); [|..|lia].
Qed.

(** ** The gate *)

Lemma init_limiter_ok c t l : init_limiter c t = Ok l → limiter_ok l ∧ capacity l = c.
Proof.
  unfold init_limiter. destruct (Z.leb_spec c 0); [done|]. destruct (Z.leb_spec t 0); [done|].
  intros [= <-]. split; [|done]. split; [constructor|]; simpl; try done.
  - lia.
  - unfold held, zlen. simpl. lia.
  - constructor.
  - apply in_order_nil.
  - intros _ Hw. by apply not_elem_of_nil in Hw.
Qed.

Lemma wake_loop_capacity fuel l : capacity (wake_loop fuel l) = capacity l.
Proof.
  revert l. induction fuel as [|fuel IH]; intros l; simpl; [done|]. case_match; [|done].
  destruct (wake_up_next l) as [l1|] eqn:E; [|done]. rewrite IH.
  unfold wake_up_next in E. destruct (grant_first _); [|done]. by injection E as <-.
Qed.

Lemma step_capacity l e l' : step l e = Some l' → capacity l' = capacity l.
Proof.
  destruct e as [i|i|i|i]; simpl; intros H; repeat case_match; simplify_eq/=; try done;
    unfold wake_all; try by rewrite wake_loop_capacity.
  unfold wake_up_next. destruct (grant_first _); done.
Qed.

(** Both limiters of a gate are sound and keep their capacities. *)
Definition gate_ok (cap : Z) (lcap : option Z) (g : gate) : Prop :=
  limiter_ok (limiter g) ∧ capacity (limiter g) = cap ∧
  ∀ l, stream_limiter g = Some l → limiter_ok l ∧ lcap = Some (capacity l).

Lemma run_gate_ok cap lcap es g g' :
  gate_ok cap lcap g → run_gate g es = Some g' → gate_ok cap lcap g'.
Proof.
  revert g. induction es as [|[path e] es IH]; intros g Hg H; simpl in H; [by injection H as <-|].
  destruct (on_selected g path e) as [g1|] eqn:E; [|done]. apply (IH g1); [|done].
  destruct Hg as (Hm & Hc & Hs). unfold on_selected in E. destruct (selects_stream g path).
  - destruct (stream_limiter g) as [l|] eqn:El; [|done]. simpl in E.
    destruct (step l e) as [l'|] eqn:Es; [|done]. injection E as <-.
    destruct (Hs l eq_refl) as [Hl ->]. split_and!; simpl; [done|done|].
    intros ? [= <-]. rewrite (step_capacity _ _ _ Es). by eauto using step_ok.
  - destruct (step (limiter g) e) as [l'|] eqn:Es; [|done]. injection E as <-.
    split_and!; simpl; [by eauto using step_ok|by rewrite (step_capacity _ _ _ Es)|done].
Qed.

Lemma middleware_ok cap t paths lcap g :
  bounded_concurrency_middleware cap t paths lcap = Ok g → gate_ok cap lcap g.
Proof.
  unfold bounded_concurrency_middleware. intros (l & Hl & H)%result_bind_ok.
  apply init_limiter_ok in Hl as [Hl Hc].
  destruct paths as [|p paths]; [by injection H as <-|]. destruct lcap as [n|]; [|done].
  apply result_bind_ok in H as (s & Hs & H). apply init_limiter_ok in Hs as [Hs <-].
  injection H as <-. split_and!; simpl; [done|done|]. by intros ? [= <-].
Qed.

(** C16: however requests arrive, wait, give up and finish, at most
    [capacity] of them run at a time behind either limiter; permits are
    conserved; the line is served in order; and no wakeup is lost: a permit is
    free while a request waits only if a request that will pass it on has
    already been woken. *)
Theorem limiter_safe cap t paths lcap g0 es g l :
  bounded_concurrency_middleware cap t paths lcap = Ok g0 → run_gate g0 es = Some g →
  l = limiter g ∨ stream_limiter g = Some l →
  zlen (running l) ≤ capacity l ∧ (capacity l = cap ∨ lcap = Some (capacity l)) ∧
  sem_value l + zlen (running l) + Z.of_nat (held (waiters l)) = capacity l ∧
  in_order (waiters l) ∧
  (WAITING ∈ (waiters l).*2 → sem_value l = 0 ∨ ∃ x, x ∈ waiters l ∧ granted x.2 = true).
Proof.
  intros H0 Hr Hl. apply middleware_ok in H0. apply (run_gate_ok _ _ _ _ _ H0) in Hr as (Hm & Hc & Hs).
  assert (limiter_ok l ∧ (capacity l = cap ∨ lcap = Some (capacity l))) as [[[Hc' Hv Hp Hd Hf] Ha] Hcap].
  { destruct Hl as [->|Hl]; [auto|]. destruct (Hs l Hl). auto. }
  split_and!; [lia|done|done|done|]. intros Hw.
  destruct (decide (sem_value l = 0)); [by left|]. right. apply Ha; [lia|done].
Qed.

(** C39: no request waits for ever behind the gate: in every reachable state
    a request in the line is let through once the others finish, after at most
    three steps per waiting request and one per running one, whoever else is in
    the line. *)
Theorem waiting_served cap t paths lcap g0 es g l i :
  bounded_concurrency_middleware cap t paths lcap = Ok g0 → run_gate g0 es = Some g →
  l = limiter g ∨ stream_limiter g = Some l → queued i l →
  ∃ es' l', Forall drains es' ∧
    (length es' ≤ 3 * length (waiters l) + length (running l))%nat ∧
    run l es' = Some l' ∧ i ∈ running l'.
Proof.
  intros H0 Hr Hl Hq. apply middleware_ok in H0.
  apply (run_gate_ok _ _ _ _ _ H0) in Hr as (Hm & Hc & Hs).
  apply served; [|done|done]. destruct Hl as [->|Hl]; [done|]. by destruct (Hs l Hl).
Qed.

(** Two permits, four requests on one path and one on the long-lived one. *)
Definition demo_gate : gate :=
  MkGate (MkLimiter 2 1 2 [] [] []) (Some (MkLimiter 1 1 1 [] [] [])) [u "/api/events"].
Definition demo_events : list (list Z * event) :=
  [(u "/", Arrive 1); (u "/", Arrive 2); (u "/", Arrive 3); (u "/", Arrive 4);
   (u "/api/events", Arrive 5); (u "/", Finish 1); (u "/", Expire 3)].
Definition demo_after : RequestLimiter :=
  MkLimiter 2 1 0 [(3%nat, GRANTED_CANCELLED); (4%nat, WAITING)] [2%nat] [].

Lemma limiter_safe_witness :
  bounded_concurrency_middleware 2 1 [u "/api/events"] (Some 1) = Ok demo_gate ∧
  zlen (running demo_after) ≤ capacity demo_after.
Proof.
  split; [reflexivity|].
  destruct (limiter_safe 2 1 [u "/api/events"] (Some 1) demo_gate demo_events
    (MkGate demo_after (Some (MkLimiter 1 1 0 [] [5%nat] [])) [u "/api/events"]) demo_after) as [H _];
    [reflexivity|vm_compute; reflexivity|left; reflexivity|exact H].
Defined.

(** The request that waits behind a cancelled one is let through. *)
Lemma waiting_served_witness :
  queued 4 demo_after ∧
  ∃ es' l', Forall drains es' ∧ run demo_after es' = Some l' ∧ 4%nat ∈ running l'.
Proof.
  assert (Hq : queued 4 demo_after) by (left; right; left).
  split; [exact Hq|].
  destruct (waiting_served 2 1 [u "/api/events"] (Some 1) demo_gate demo_events
    (MkGate demo_after (Some (MkLimiter 1 1 0 [] [5%nat] [])) [u "/api/events"]) demo_after 4)
    as (es' & l' & H1 & _ & H2 & H3);
    [reflexivity|vm_compute; reflexivity|left; reflexivity|exact Hq|].
  exists es', l'. split; [exact H1|]. split; [exact H2|exact H3].
Defined.
