(* ===== verification/JsonText.v ===== *)
(** * The variants of [json.dumps] the helper uses

    [render] is [json.dumps] in the order of the dict, with the separators and
    the [ensure_ascii] and [allow_nan] options as a record.  The size of a text
    bounds what the frame encoder of [Protocol] makes of the same value. *)

From S2P Require Import Prelude Text Errors Json Protocol.

Record json_style := MkStyle {
  item_separator : list Z; key_separator : list Z; ensure_ascii : bool; allow_nan : bool }.

(** [separators=(",", ":")] and the default ones. *)
Definition compact_ascii : json_style := MkStyle (u ",") (u ":") true false.
Definition default_unicode : json_style := MkStyle (u ", ") (u ": ") false true.

Definition hex4_of (n : Z) : list Z :=
  [hex_digit (n / 4096); hex_digit (n / 256 mod 16); hex_digit (n / 16 mod 16); hex_digit (n mod 16)].
Definition u_escape (n : Z) : list Z := [92; 117] ++ hex4_of n.

Definition ascii_escape (c : Z) : list Z :=
  if c <? 127 then escape_char c
  else if c <? 65536 then u_escape c
  else u_escape (55296 + (c - 65536) / 1024) ++ u_escape (56320 + (c - 65536) mod 1024).

Definition render_string (st : json_style) (s : list Z) : list Z :=
  [34] ++ mjoin ((if ensure_ascii st then ascii_escape else escape_char) <$> s) ++ [34].

Fixpoint sep_join (sep : list Z) (parts : list (list Z)) : list Z :=
  match parts with
  | [] => []
  | [p] => p
  | p :: parts => p ++ sep ++ sep_join sep parts
  end.

Definition render_float (st : json_style) (f : pyfloat) : option (list Z) :=
  match f with
  | FFinite r => Some r
  | FNan => if allow_nan st then Some (u "NaN") else None
  | FInf negative => if allow_nan st
                     then Some (if negative then u "-Infinity" else u "Infinity") else None
  end.

(** [None] is ValueError. *)
Fixpoint render (st : json_style) (j : json) : option (list Z) :=
  match j with
  | JNull => Some (u "null")
  | JBool true => Some (u "true")
  | JBool false => Some (u "false")
  | JInt z => dump_int z
  | JFloat f => render_float st f
  | JStr s => Some (render_string st s)
  | JArr l =>
      (fix items (l : list json) : option (list (list Z)) :=
         match l with
         | [] => Some []
         | v :: l => p ← render st v; ps ← items l; Some (p :: ps)
         end) l ≫= λ parts, Some ([91] ++ sep_join (item_separator st) parts ++ [93])
  | JObj kvs =>
      (fix members (kvs : list (list Z * json)) : option (list (list Z)) :=
         match kvs with
         | [] => Some []
         | (k, v) :: kvs =>
             p ← render st v; ps ← members kvs;
             Some ((render_string st k ++ key_separator st ++ p) :: ps)
         end) kvs ≫= λ parts, Some ([123] ++ sep_join (item_separator st) parts ++ [125])
  end.

(** [len(json.dumps(value, ..).encode("utf-8"))]: ValueError and its subclass
    UnicodeEncodeError. *)
Definition json_size (st : json_style) (j : json) : result exc Z :=
  match render st j with
  | None => Err ValueError
  | Some text => match utf8_encode text with
                 | Some b => Ok (zlen b) | None => Err UnicodeEncodeError end
  end.
