(* ===== verification/HelperBase.v ===== *)
(** * The state and the services of the privileged helper

    [helper.py] dispatches requests to four services: the authentication store
    ([AuthStore] on a [world]), the directory of rule snapshots ([Snapshots] on an
    [fs]), the Maddy adapter with the certificate manager, and the submission
    client.  The last three are interfaces here ([MaddyService],
    [CertificateManager], [SubmissionService]) over a state [X] of their own: one
    field per method the helper calls.  [H] is the monad of a handler; [dict] is a
    Python dict with string keys. *)

From S2P Require Import Prelude Text Errors Json JsonText RuleDoc RuleMessage AuthDb AuthCore AuthPasskey Protocol Fs Smtp.

Notation dict := (list (list Z * json)).

(** ** Services *)

Inductive capability : Type := MESSAGE_ADMIN.
Inductive flag_method : Type := SET_FLAGS | ADD_FLAGS | REMOVE_FLAGS.

(** [maddy.MaddyService].  Arguments the helper passes on unchecked are JSON
    values. *)
Class MaddyService (X : Type) := {
  m_version_info : eff X exc dict;
  m_verify_config : eff X exc json;
  m_list_accounts : bool → eff X exc (list dict);
  m_create_account : json → json → eff X exc dict;
  m_delete_account : json → eff X exc unit;
  m_change_password : json → json → eff X exc unit;
  m_disable_credentials : json → eff X exc unit;
  m_delete_imap_account : json → eff X exc unit;
  m_get_append_limit : json → eff X exc json;
  m_set_append_limit : json → json → eff X exc json;
  m_list_mailboxes : json → json → eff X exc (list json);
  m_create_mailbox : json → json → json → eff X exc unit;
  m_rename_mailbox : json → json → json → eff X exc unit;
  m_resolve_special_mailbox : json → json → eff X exc json;
  m_migrate_and_delete_mailbox : json → json → json → eff X exc unit;
  m_latest_message_uid : json → json → eff X exc Z;
  m_list_message_window : json → json → Z → Z → eff X exc (list dict);
  m_dump_message : json → json → Z → eff X exc (list Z);
  (* the bytes written to the handle, and the value returned *)
  m_dump_message_to : json → json → json → eff X exc (list Z * json);
  m_append_message : json → json → list Z → Z → json → json → eff X exc json;
  m_delete_message : json → json → json → eff X exc unit;
  m_delete_messages : json → json → list Z → eff X exc unit;
  m_copy_messages : json → json → json → json → eff X exc unit;
  m_move_messages : json → json → list Z → json → eff X exc unit;
  m_move_message : json → json → json → json → eff X exc unit;
  m_message_flags : flag_method → json → json → json → json → eff X exc unit;
  m_require_write_safety : capability → eff X exc unit
}.

(** [certificates.CertificateManager]. *)
Class CertificateManager (X : Type) := {
  c_list_certificates : eff X exc json;
  c_health : eff X exc json;
  c_status : json → eff X exc json;
  c_set_timer_enabled : bool → eff X exc json;
  c_dry_run : json → eff X exc json;
  c_renew : json → eff X exc json
}.

(** [SMTPSubmissionClient.authenticate] and [.send] on checked arguments; the
    message is the content of the spool. *)
Class SubmissionService (X : Type) := {
  s_authenticate : list Z → list Z → eff X exc unit;
  s_send : list Z → list Z → list Z → list (list Z) → list Z → Z → eff X exc Z;
  s_max_message_bytes : Z
}.

(** ** The dispatcher object *)

(** The constructor's arguments, the operating system, and the parameters of the
    Python library: Unicode tables, [ipaddress], and the [email] package as in
    [RuleEval]. *)
Record helper := MkHelper {
  auth_store : option store;
  webauthn_lib : webauthn;
  has_smtp : bool;
  rule_snapshot_dir : option (list Z);
  rule_snapshot_group_id : option Z;
  os : kernel;
  (* creating the n-th spool fails *)
  spool_fault : nat → option exc;
  unicode_lower : list Z → list Z;
  unicode_casefold : Z → list Z;
  py_ip_address : list Z → option (list Z);
  decode_header : list Z → result exc (list fragment);
  bytes_decode : list Z → list Z → result exc (list Z);
  parse_email : list Z → Z * result exc mime
}.

(** [TrustedSpool]: its content and its declared length. *)
Record TrustedSpool := MkSpool { sp_data : list Z; sp_length : Z }.

(** One call of [self.audit]. *)
Record audit_record := MkAudit { au_action : list Z; au_outcome : list Z; au_fields : dict }.

(** What a request can change: the authentication database, the snapshot
    directory, the services, the audit log, the context of the current request with
    the dict of fields it will be logged with, and the spools (those open, and the number created so far). *)
Record hstate (X : Type) := MkHState {
  h_auth : world; h_fs : fs; h_sys : X; h_log : list audit_record;
  h_principal : option principal; h_auth_audit : option dict; h_fields : dict;
  h_open : Z; h_created : nat
}.
Arguments MkHState {X}.
Arguments h_auth {X}.
Arguments h_fs {X}.
Arguments h_sys {X}.
Arguments h_log {X}.
Arguments h_principal {X}.
Arguments h_auth_audit {X}.
Arguments h_fields {X}.
Arguments h_open {X}.
Arguments h_created {X}.

Definition H (X : Type) : Type → Type := eff (hstate X) exc.

Section State.
Context {X : Type}.
Implicit Types (s : hstate X).

Definition with_auth (w : world) s : hstate X :=
  MkHState w (h_fs s) (h_sys s) (h_log s) (h_principal s) (h_auth_audit s)
    (h_fields s) (h_open s) (h_created s).
Definition with_fs (f : fs) s : hstate X :=
  MkHState (h_auth s) f (h_sys s) (h_log s) (h_principal s) (h_auth_audit s)
    (h_fields s) (h_open s) (h_created s).
Definition with_sys (x : X) s : hstate X :=
  MkHState (h_auth s) (h_fs s) x (h_log s) (h_principal s) (h_auth_audit s)
    (h_fields s) (h_open s) (h_created s).
Definition with_log (l : list audit_record) s : hstate X :=
  MkHState (h_auth s) (h_fs s) (h_sys s) l (h_principal s) (h_auth_audit s)
    (h_fields s) (h_open s) (h_created s).
Definition with_context (p : option principal) (a : option dict) s : hstate X :=
  MkHState (h_auth s) (h_fs s) (h_sys s) (h_log s) p a (h_fields s) (h_open s)
    (h_created s).
Definition with_fields (d : dict) s : hstate X :=
  MkHState (h_auth s) (h_fs s) (h_sys s) (h_log s) (h_principal s) (h_auth_audit s) d (h_open s)
    (h_created s).
Definition with_spools (o : Z) (n : nat) s : hstate X :=
  MkHState (h_auth s) (h_fs s) (h_sys s) (h_log s) (h_principal s) (h_auth_audit s)
    (h_fields s) o n.

Definition on_auth {A} (m : M A) : H X A := λ s, let '(r, w) := m (h_auth s) in (r, with_auth w s).
Definition on_fs {A} (m : FS A) : H X A := λ s, let '(r, f) := m (h_fs s) in (r, with_fs f s).
Definition on_sys {A} (m : eff X exc A) : H X A :=
  λ s, let '(r, x) := m (h_sys s) in (r, with_sys x s).

(** [self.audit(..)]; the audit logger does not raise. *)
Definition audit (action outcome : list Z) (fields : dict) : H X unit :=
  modify (λ s, with_log (h_log s ++ [MkAudit action outcome fields]) s).

(** [fields[k] = v] on the dict of the current request. *)
Definition set_field (k : list Z) (v : json) : H X unit :=
  modify (λ s, with_fields (obj_set k v (h_fields s)) s).

(** [try: m except classes: handler]. *)
Definition catch {A} (m : H X A) (handler : exc → option (H X A)) : H X A := λ s,
  match m s with
  | (Err e, s') => match handler e with Some h => h s' | None => (Err e, s') end
  | r => r
  end.

(** [TrustedSpool.create] and [.close]. *)
Definition create_spool (self : helper) : H X unit := λ s,
  match spool_fault self (h_created s) with
  | Some e => (Err e, with_spools (h_open s) (S (h_created s)) s)
  | None => (Ok tt, with_spools (h_open s + 1) (S (h_created s)) s)
  end.
Definition close_spool : H X unit := modify (λ s, with_spools (h_open s - 1) (h_created s) s).
End State.

(** ** Dictionaries *)

Definition key (k : list Z) (d : dict) : json := default JNull (obj_get k d).
Definition has_key (k : list Z) (d : dict) : bool := bool_decide (k ∈ d.*1).
Definition is_true (j : json) : bool := match j with JBool b => b | _ => false end.
Definition opt_json {A} (f : A → json) (o : option A) : json :=
  match o with Some a => f a | None => JNull end.
Definition jstrs (l : list (list Z)) : json := JArr (JStr <$> l).

(** A text argument for a method of the store that treats any other value as it
    treats the empty string, and a flag it coerces ([_coerce_bool]). *)
Definition as_text (j : json) : list Z := match j with JStr s => s | _ => [] end.
Definition as_bool (j : json) : result exc bool :=
  match j with JBool b => Ok b | _ => Err ValueError end.

Section Params.

(** [_params] *)
Definition _params (request : Request) (required optional : list (list Z)) : result exc dict :=
  let names := (params request).*1 in
  if negb (forallb (λ n, bool_decide (n ∈ required ++ optional)) names) then Err ValueError
  else if negb (forallb (λ n, bool_decide (n ∈ names)) required) then Err ValueError
  else Ok (params request).

Definition _confirmed (values : dict) : result exc unit :=
  guard_err (is_true (key (u "confirm") values)) ValueError.

Definition UID_LIMIT : Z := 2 ^ 32 - 1.

(** The loop of [_selected_message_uid_set]. *)
Fixpoint select_uids (seen : list (list Z)) (items : list (list Z)) : result exc (list (list Z)) :=
  match items with
  | [] => Ok []
  | item :: items =>
      if negb (match_plus is_digit item) || starts_with [48] item then Err ValueError
      else if MAX_INT_DIGITS <? zlen item then Err ValueError
      else
        let uid := int_of_digits item in
        if negb ((1 <=? uid) && (uid <=? UID_LIMIT)) then Err ValueError
        else
          let normalized := str_of_int uid in
          if bool_decide (normalized ∈ seen) then Err ValueError
          else rest ← select_uids (normalized :: seen) items; Ok (normalized :: rest)
  end.

Definition _selected_message_uid_set (value : json) : result exc (list Z) :=
  match value with
  | JStr s =>
      let values := split_char 44 s in
      if negb ((1 <=? zlen values) && (zlen values <=? 50)) then Err ValueError
      else selected ← select_uids [] values; Ok (join [44] selected)
  | _ => Err ValueError
  end.
End Params.

(** ** Redaction *)

Definition _SENSITIVE_KEYS : list (list Z) :=
  u <$> ["password"; "secret"; "token"; "key"; "private_key"; "body"; "raw"; "content"; "message";
         "attachment"; "authorization"; "challenge"; "code"; "credential"; "condition";
         "expression"; "match"; "rule_snapshot"; "state"].

Section Redact.
Context (self : helper).

Definition py_lower (s : list Z) : list Z := if is_ascii s then lower s else unicode_lower self s.

Definition sensitive (key : list Z) : bool :=
  let normalized := replace_char 45 [95] (py_lower key) in
  existsb (λ secret, contains secret normalized) _SENSITIVE_KEYS.

Definition REDACTED : json := JStr (u "[REDACTED]").

(** [redact_for_audit] on JSON values; [hidden] is the test of the current key. *)
Fixpoint redact (hidden : bool) (value : json) : json :=
  if hidden then REDACTED
  else match value with
  | JObj kvs => JObj ((fix items (kvs : dict) : dict :=
                         match kvs with
                         | [] => []
                         | (name, item) :: kvs => (name, redact (sensitive name) item) :: items kvs
                         end) kvs)
  | JArr l => JArr ((fix items (l : list json) : list json :=
                       match l with [] => [] | item :: l => redact false item :: items l end) l)
  | JStr s => if 256 <? zlen s then JObj [(u "characters", JInt (zlen s))] else JStr s
  | v => v
  end.

Definition redact_for_audit (value : json) : json := redact (sensitive []) value.
End Redact.

(** ** Errors *)

(** [type(exc).__name__]. *)
Definition type_name (e : exc) : list Z :=
  match e with
  | ValueError => u "ValueError"
  | TypeError => u "TypeError"
  | RuntimeError => u "RuntimeError"
  | LookupError => u "LookupError"
  | EOFError => u "EOFError"
  | StructError => u "error"
  | TimeoutError => u "TimeoutError"
  | UnicodeError => u "UnicodeError"
  | UnicodeEncodeError => u "UnicodeEncodeError"
  | UnicodeDecodeError => u "UnicodeDecodeError"
  | JSONDecodeError => u "JSONDecodeError"
  | RecursionError => u "RecursionError"
  | IntegrityError => u "IntegrityError"
  | AuthenticationError => u "AuthenticationError"
  | DatabaseSecurityError => u "DatabaseSecurityError"
  | MasterKeyError => u "MasterKeyError"
  | AccountExistsError => u "AccountExistsError"
  | AccountNotFoundError => u "AccountNotFoundError"
  | EnrollmentStateError => u "EnrollmentStateError"
  | InvalidChallengeError => u "InvalidChallengeError"
  | InvalidSecondFactorError => u "InvalidSecondFactorError"
  | InvalidPasskeyError => u "InvalidPasskeyError"
  | StepUpRequiredError => u "StepUpRequiredError"
  | InvalidSessionError => u "InvalidSessionError"
  | AuthenticationDataError => u "AuthenticationDataError"
  | LoginRateLimitedError _ => u "LoginRateLimitedError"
  | PasskeyLimitError => u "PasskeyLimitError"
  | MailRuleLimitError => u "MailRuleLimitError"
  | MailRuleNotFoundError => u "MailRuleNotFoundError"
  | MailRuleConflictError => u "MailRuleConflictError"
  | WebAuthnException => u "WebAuthnException"
  | RuleError => u "RuleError"
  | RuleValidationError => u "RuleValidationError"
  | RuleMessageError => u "RuleMessageError"
  | RuleMessageLimitError => u "RuleMessageLimitError"
  | ProtocolError => u "ProtocolError"
  | FrameTooLarge => u "FrameTooLarge"
  | ConnectionClosed => u "ConnectionClosed"
  | StreamError => u "StreamError"
  | StreamTooLarge => u "StreamTooLarge"
  | StreamTruncated => u "StreamTruncated"
  | RuleSnapshotError => u "RuleSnapshotError"
  | FilterBridgeError => u "FilterBridgeError"
  | FilterClientError => u "FilterClientError"
  | FileNotFoundError => u "FileNotFoundError"
  | FileExistsError => u "FileExistsError"
  | PermissionError => u "PermissionError"
  | NotADirectoryError => u "NotADirectoryError"
  | OSError => u "OSError"
  | KeyError => u "KeyError"
  | IndexError => u "IndexError"
  | AttributeError => u "AttributeError"
  | OverflowError => u "OverflowError"
  | HTTPException _ _ _ _ => u "HTTPException"
  | ConfigError => u "ConfigError"
  | MailError => u "MailError"
  | MailLimitError => u "MailLimitError"
  | MailValidationError _ => u "MailValidationError"
  | DeliveryRejected => u "DeliveryRejected"
  | DeliveryUncertain => u "DeliveryUncertain"
  | MaddyError => u "MaddyError"
  | StaleMessageCursor => u "StaleMessageCursor"
  | VersionParseError => u "VersionParseError"
  | UnsupportedVersion => u "UnsupportedVersion"
  | UnsupportedCapability => u "UnsupportedCapability"
  | CapabilityFingerprintError => u "CapabilityFingerprintError"
  | LegacyLDAPUnsafe => u "LegacyLDAPUnsafe"
  | RuntimeConfigUnsafe => u "RuntimeConfigUnsafe"
  | InvalidMaddyArgument => u "InvalidMaddyArgument"
  | CommandLaunchError => u "CommandLaunchError"
  | CommandTimeout => u "CommandTimeout"
  | CommandOutputLimit => u "CommandOutputLimit"
  | CommandInputError => u "CommandInputError"
  | CommandFailed _ => u "CommandFailed"
  | PartialOperationError => u "PartialOperationError"
  | HelperCallError _ => u "HelperCallError"
  | SMTPError => u "SMTPError"
  | SMTPRejected _ _ => u "SMTPRejected"
  | SMTPOutcomeUnknown => u "SMTPOutcomeUnknown"
  | SMTPTransportError => u "SMTPTransportError"
  | AuthorizationDenied => u "AuthorizationDenied"
  | InvalidCredentials => u "InvalidCredentials"
  | PasswordChangeRequired => u "PasswordChangeRequired"
  | StepUpRequired => u "StepUpRequired"
  | RuleMailboxConflict => u "RuleMailboxConflict"
  | CertificateError => u "CertificateError"
  | UnknownCertificate => u "UnknownCertificate"
  | CertificateValidationError => u "CertificateValidationError"
  | CertificateCommandError => u "CertificateCommandError"
  | OutOfFuel => u "OutOfFuel"
  end.

(** [PrivilegedDispatcher._safe_error]: the code and the message.  The classes of
    [auth.py] are told by their names, the others by [isinstance]. *)
Definition is_named (e : exc) (names : list string) : bool :=
  existsb (λ name, str_eqb (type_name e) (u name)) names.

(** From the test for [SMTPTransportError] on. *)
Definition operation_error (e : exc) : list Z * list Z :=
  let among classes := catches classes e in
  if among [SMTPTransportError] then
    (u "smtp_transport", u "Local SMTP transport failed before acceptance")
  else if is_named e ["MailRuleNotFoundError"] then
    (u "not_found", u "Mail rule or existing-mail run does not exist")
  else if is_named e ["MailRuleConflictError"] || among [RuleMailboxConflict] then
    (u "conflict", u "Mail rule state conflicts with this operation")
  else if is_named e ["MailRuleLimitError"] then
    (u "limit_exceeded", u "The mail rule limit has been reached")
  else if among [ValueError; InvalidMaddyArgument; ProtocolError; StreamError] then
    (u "invalid_request", u "Request parameters are invalid")
  else if among [UnsupportedVersion; UnsupportedCapability] then
    (u "unsupported_maddy", u "Installed Maddy version does not support this operation")
  else if among [CapabilityFingerprintError; LegacyLDAPUnsafe; RuntimeConfigUnsafe] then
    (u "writes_disabled", u "Maddy write safety checks did not pass")
  else if among [CommandTimeout; TimeoutError] then
    (u "timeout", u "Privileged operation timed out")
  else if among [CommandOutputLimit; CommandInputError] then
    (u "limit_exceeded", u "Privileged operation exceeded a configured limit")
  else if among [StaleMessageCursor] then
    (u "stale_cursor", u "Mailbox changed; refresh before continuing")
  else if among [CommandFailed true; CommandFailed false; CommandLaunchError;
              PartialOperationError; MaddyError] then
    (u "maddy_failed", u "Maddy administration operation failed")
  else if among [CertificateCommandError; CertificateError] then
    (u "certificate_failed", u "Certificate operation failed")
  else (u "internal_error", u "Privileged helper failed safely").

(** The branch of [SMTPRejected]. *)
Definition rejection_error (code : Z) (stage : list Z) : list Z * list Z :=
  if str_eqb stage (u "AUTH")
  then (u "smtp_authentication_rejection", u "SMTP authentication was rejected")
  else
    let kind := if (400 <=? code) && (code <? 500) then u "temporary" else u "permanent" in
    (u "smtp_" ++ kind ++ u "_rejection",
     u "SMTP rejected " ++ stage ++ u " (" ++ str_of_int code ++ u ")").

Definition _safe_error (e : exc) : list Z * list Z :=
  let among classes := catches classes e in
  if is_named e ["LoginRateLimitedError"] then
    (u "rate_limited", u "Authentication rate limit exceeded")
  else if is_named e ["InvalidSessionError"] then (u "unauthorized", u "Authentication is required")
  else if is_named e ["InvalidChallengeError"] then
    (u "invalid_challenge", u "Authentication challenge is invalid or expired")
  else if is_named e ["InvalidSecondFactorError"] then
    (u "invalid_second_factor", u "The authentication code is invalid")
  else if is_named e ["InvalidPasskeyError"] then
    (u "invalid_credentials", u "The authentication request was rejected")
  else if is_named e ["PasskeyLimitError"] then
    (u "limit_exceeded", u "The passkey limit has been reached")
  else if is_named e ["AccountNotFoundError"; "EnrollmentStateError"] || among [InvalidCredentials] then
    (u "invalid_credentials", u "Email address or password is invalid")
  else if among [PasswordChangeRequired] then
    (u "password_change_required", u "Mailbox password change is required")
  else if among [StepUpRequired] then (u "step_up_required", u "Recent authentication is required")
  else if among [AuthorizationDenied] then
    (u "forbidden", u "The authenticated identity is not allowed to perform this operation")
  else if among [SMTPOutcomeUnknown] then
    (u "smtp_outcome_unknown", u "Delivery outcome is unknown; do not retry automatically")
  else match e with
  | SMTPRejected code stage => rejection_error code stage
  | _ => operation_error e
  end.
