(* ===== verification/AuditLog.v ===== *)
(** * The audit logger: [audit.py]

    [record] writes one JSON line per event.  [_default_audit] of [helper.py]
    redacts the fields with [redact_for_audit] before it calls it, and [record]
    redacts them again by its own list of names. *)

From S2P Require Import Prelude Text Errors Json JsonText HelperBase.

(** ** [_SENSITIVE_NAME] *)

(** The words between [(?:^|_)] and [(?:_|$)]. *)
Definition sensitive_words : list (list Z) :=
  u <$> ["password"; "secret"; "token"; "body"; "raw"; "attachment"; "private_key"; "session_key"].

(** A character that matches a letter of the pattern under [re.IGNORECASE]: its
    two ASCII cases, and the characters outside ASCII that fold to it. *)
Definition matches_letter (letter c : Z) : bool :=
  (c =? letter) || (is_lower letter && (c =? letter - 32))
  || ((letter =? 105) && ((c =? 304) || (c =? 305)))
  || ((letter =? 107) && (c =? 8490))
  || ((letter =? 115) && (c =? 383)).

Fixpoint match_word (word s : list Z) : option (list Z) :=
  match word, s with
  | [], s => Some s
  | letter :: word, c :: s => if matches_letter letter c then match_word word s else None
  | _ :: _, [] => None
  end.

(** [(?:_|$)]: [$] also matches before a final newline. *)
Definition word_ends (s : list Z) : bool :=
  match s with [] => true | c :: r => (c =? 95) || ((c =? 10) && bool_decide (r = [])) end.

Definition word_here (s : list Z) : bool :=
  existsb (λ word, match match_word word s with Some r => word_ends r | None => false end)
    sensitive_words.

(** The search; [start] tells whether a word may begin here. *)
Fixpoint search_words (start : bool) (s : list Z) : bool :=
  (start && word_here s)
  || match s with [] => false | c :: s => search_words (c =? 95) s end.

Definition _SENSITIVE_NAME (name : list Z) : bool := search_words true name.

(** ** [record] *)

Definition MAX_DEPTH : Z := 8.
Definition TRUNCATED : json := JStr (u "[TRUNCATED]").

Fixpoint _safe_value (depth : Z) (value : json) : json :=
  if MAX_DEPTH <=? depth then TRUNCATED
  else match value with
  | JObj kvs =>
      JObj ((fix items (kvs : dict) : dict :=
               match kvs with
               | [] => []
               | (name, item) :: kvs =>
                   (name, if _SENSITIVE_NAME name then REDACTED else _safe_value (depth + 1) item)
                   :: items kvs
               end) kvs)
  | JArr l =>
      JArr ((fix items (l : list json) : list json :=
               match l with [] => [] | item :: l => _safe_value (depth + 1) item :: items l end) l)
  | v => v
  end.

Definition _redact (values : dict) : json := _safe_value 0 (JObj values).

(** [json.dumps(payload, ensure_ascii=True, separators=(",", ":"))]. *)
Definition log_style : json_style := MkStyle (u ",") (u ":") true true.

(** The line handed to the logger; [time] is the clock's text. *)
Definition record (time action outcome : list Z) (fields : dict) : result exc (list Z) :=
  match render log_style
          (JObj [(u "time", JStr time); (u "action", JStr action); (u "outcome", JStr outcome);
                 (u "fields", _redact fields)]) with
  | Some line => Ok line
  | None => Err ValueError
  end.

(** [_default_audit] of [helper.py]; the exceptions it does not catch are the
    caller's. *)
Definition _default_audit (self : helper) (time : list Z) (e : audit_record) : result exc (list Z) :=
  match redact_for_audit self (JObj (au_fields e)) with
  | JObj fields => record time (au_action e) (au_outcome e) fields
  | _ => Err TypeError
  end.
