(* ===== verification/HelperAuthz.v ===== *)
(** * Operations and their authorization in [helper.py]

    The table of operations a peer may call, and the gate in front of every
    handler: session, active mailbox, password change, role, fresh
    authentication, and the account an operation acts on. *)

From S2P Require Import Prelude Text Errors Json RuleDoc RuleMessage AuthDb AuthCore AuthStore AuthPasskey Protocol Smtp HelperBase.

(** ** [_Operation] and [ALLOWED_OPERATIONS] *)

Inductive Permission : Type := PUBLIC | SESSION | ADMIN_ONLY | ADMIN_ACCOUNT | ACCOUNT_.
#[export] Instance Permission_eq_dec : EqDecision Permission.
Proof. solve_decision. Defined.

Record _Operation := MkOperation {
  op_method : list Z;
  op_mutating : bool;
  op_stream_in : bool;
  op_stream_out : bool;
  op_permission : Permission;
  op_step_up : bool;
  op_touch_session : bool;
  op_audit_success : bool
}.

(** The keyword arguments that differ from the defaults. *)
Inductive flag : Type :=
| mutates | takes_stream | gives_stream | stepped_up | untouched | unaudited.
#[export] Instance flag_eq_dec : EqDecision flag.
Proof. solve_decision. Defined.

Definition op (name method : string) (permission : Permission) (flags : list flag)
    : list Z * _Operation :=
  let has f := bool_decide (f ∈ flags) in
  (u name, MkOperation (u method) (has mutates) (has takes_stream) (has gives_stream) permission
             (has stepped_up) (negb (has untouched)) (negb (has unaudited))).

(** The table of [ALLOWED_OPERATIONS], by area. *)
Definition service_operations : list (list Z * _Operation) :=
  [op "maddy.health" "_maddy_health" PUBLIC [];
   op "maddy.version" "_version" PUBLIC [];
   op "maddy.verify_config" "_verify_config" ADMIN_ONLY []].

Definition auth_operations : list (list Z * _Operation) :=
  [op "auth.password_begin" "_auth_password_begin" PUBLIC [mutates];
   op "auth.enrollment_begin" "_auth_enrollment_begin" PUBLIC [mutates];
   op "auth.enrollment_complete" "_auth_enrollment_complete" PUBLIC [mutates];
   op "auth.totp_complete" "_auth_totp_complete" PUBLIC [mutates];
   op "auth.recovery_complete" "_auth_recovery_complete" PUBLIC [mutates];
   op "auth.passkey_login_begin" "_auth_passkey_login_begin" PUBLIC [mutates];
   op "auth.passkey_login_complete" "_auth_passkey_login_complete" PUBLIC [mutates];
   op "auth.session" "_auth_session" SESSION [];
   op "auth.session_peek" "_auth_session" SESSION [untouched; unaudited];
   op "auth.logout" "_auth_logout" SESSION [mutates];
   op "auth.change_password" "_auth_change_password" SESSION [mutates; stepped_up];
   op "auth.recovery_regenerate" "_auth_recovery_regenerate" SESSION [mutates];
   op "auth.step_up" "_auth_step_up" SESSION [mutates];
   op "auth.passkeys_list" "_auth_passkeys_list" SESSION [];
   op "auth.passkey_register_begin" "_auth_passkey_register_begin" SESSION [mutates; stepped_up];
   op "auth.passkey_register_complete" "_auth_passkey_register_complete" SESSION [mutates; stepped_up];
   op "auth.passkey_delete" "_auth_passkey_delete" SESSION [mutates; stepped_up];
   op "auth.passkey_step_up_begin" "_auth_passkey_step_up_begin" SESSION [mutates];
   op "auth.passkey_step_up_complete" "_auth_passkey_step_up_complete" SESSION [mutates];
   op "auth.sessions_list" "_auth_sessions_list" SESSION [];
   op "auth.session_revoke_other" "_auth_session_revoke_other" SESSION [mutates; stepped_up];
   op "auth.admin_rotate_totp" "_auth_admin_rotate_totp" ADMIN_ONLY [mutates; stepped_up]].

Definition account_operations : list (list Z * _Operation) :=
  [op "accounts.list" "_accounts_list" ADMIN_ONLY [];
   op "accounts.create" "_accounts_create" ADMIN_ONLY [mutates; stepped_up];
   op "accounts.change_password" "_accounts_password" ADMIN_ACCOUNT [mutates; stepped_up];
   op "accounts.disable_credentials" "_accounts_disable" ADMIN_ACCOUNT [mutates; stepped_up];
   op "accounts.delete_imap_account" "_accounts_delete_imap" ADMIN_ACCOUNT [mutates; stepped_up];
   op "accounts.get_append_limit" "_append_limit_get" ADMIN_ACCOUNT [];
   op "accounts.set_append_limit" "_append_limit_set" ADMIN_ACCOUNT [mutates; stepped_up]].

Definition mailbox_operations : list (list Z * _Operation) :=
  [op "mailboxes.list" "_mailboxes_list" ACCOUNT_ [];
   op "mailboxes.create" "_mailboxes_create" ACCOUNT_ [mutates];
   op "mailboxes.delete" "_mailboxes_delete" ACCOUNT_ [mutates; stepped_up];
   op "mailboxes.rename" "_mailboxes_rename" ACCOUNT_ [mutates]].

Definition rule_operations : list (list Z * _Operation) :=
  [op "rules.list" "_rules_list" ACCOUNT_ [];
   op "rules.create" "_rules_create" ACCOUNT_ [mutates; stepped_up];
   op "rules.update" "_rules_update" ACCOUNT_ [mutates; stepped_up];
   op "rules.delete" "_rules_delete" ACCOUNT_ [mutates; stepped_up];
   op "rules.reorder" "_rules_reorder" ACCOUNT_ [mutates; stepped_up];
   op "rules.run_create" "_rules_run_create" ACCOUNT_ [mutates; stepped_up];
   op "rules.run_status" "_rules_run_status" ACCOUNT_ [];
   op "rules.run_step" "_rules_run_step" ACCOUNT_ [mutates; stepped_up];
   op "rules.run_cancel" "_rules_run_cancel" ACCOUNT_ [mutates]].

Definition message_operations : list (list Z * _Operation) :=
  [op "messages.list" "_messages_list" ACCOUNT_ [];
   op "messages.latest" "_messages_latest" ACCOUNT_ [untouched; unaudited];
   op "messages.get" "_messages_get" ACCOUNT_ [gives_stream];
   op "messages.append" "_messages_append" ACCOUNT_ [mutates; takes_stream];
   op "messages.delete" "_messages_delete" ACCOUNT_ [mutates; stepped_up];
   op "messages.delete_many" "_messages_delete_many" ACCOUNT_ [mutates; stepped_up];
   op "messages.copy" "_messages_copy" ACCOUNT_ [mutates];
   op "messages.move" "_messages_move" ACCOUNT_ [mutates];
   op "messages.set_flags" "_messages_set_flags" ACCOUNT_ [mutates];
   op "messages.add_flags" "_messages_add_flags" ACCOUNT_ [mutates];
   op "messages.remove_flags" "_messages_remove_flags" ACCOUNT_ [mutates];
   op "messages.send" "_messages_send" ACCOUNT_ [mutates; takes_stream]].

Definition certificate_operations : list (list Z * _Operation) :=
  [op "certificates.list" "_certificates_list" ADMIN_ONLY [];
   op "certificates.health" "_certificates_health" ADMIN_ONLY [];
   op "certificates.status" "_certificates_status" ADMIN_ONLY [];
   op "certificates.timer_enable" "_certificates_timer_enable" ADMIN_ONLY [mutates; stepped_up];
   op "certificates.timer_disable" "_certificates_timer_disable" ADMIN_ONLY [mutates; stepped_up];
   op "certificates.renew_dry_run" "_certificates_dry_run" ADMIN_ONLY [mutates; stepped_up];
   op "certificates.renew" "_certificates_renew" ADMIN_ONLY [mutates; stepped_up]].

Definition ALLOWED_OPERATIONS : list (list Z * _Operation) :=
  service_operations ++ auth_operations ++ account_operations ++ mailbox_operations
  ++ rule_operations ++ message_operations ++ certificate_operations.

(** [ALLOWED_OPERATIONS.get(name)]. *)
Fixpoint find_operation (name : list Z) (table : list (list Z * _Operation)) : option _Operation :=
  match table with
  | [] => None
  | (k, o) :: table => if str_eqb k name then Some o else find_operation name table
  end.

(** ** Principals *)

Definition role_name (r : Role) : list Z := match r with ADMIN => u "admin" | USER => u "user" end.
Definition state_name (s : EnrollmentState) : list Z :=
  match s with REQUIRED => u "required" | PENDING => u "pending" | ACTIVE => u "active" end.

(** [_role_value] of a principal. *)
Definition _role_value (p : principal) : list Z := role_name (pr_role p).

Section Authorize.
Context {X : Type} `{!MaddyService X} (self : helper).
Notation H := (H X).

Definition casefolded (s : list Z) : list Z := casefold (unicode_casefold self) s.

(** [self.auth_store] where the code assumes it is there. *)
Definition store_or (e : exc) : H store :=
  match auth_store self with Some st => mret st | None => throw e end.

Definition _current_principal : H principal :=
  p ← gets h_principal;
  match p with Some p => mret p | None => throw AuthorizationDenied end.

(** The record of an account: the first whose username folds to the same text. *)
Fixpoint find_account (normalized : list Z) (records : list dict) : option dict :=
  match records with
  | [] => None
  | record :: records =>
      match key (u "username") record with
      | JStr username =>
          if str_eqb (casefolded username) normalized then Some record
          else find_account normalized records
      | _ => find_account normalized records
      end
  end.

Definition _maddy_account (email : list Z) : H (option dict) :=
  records ← on_sys (m_list_accounts false);
  mret (find_account (casefolded email) records).

(** The mailbox identity exists with credentials and storage. *)
Definition active_record (record : option dict) : bool :=
  match record with
  | Some r => is_true (key (u "has_credentials") r) && is_true (key (u "has_mailbox") r)
  | None => false
  end.

Definition _require_active_principal (st : store) (p : principal) : H unit :=
  record ← _maddy_account (pr_email p);
  if active_record record then mret tt
  else on_auth (revoke_sessions st (pr_account p)) ≫= λ _, throw AuthorizationDenied.

(** [_client_ip], [_client_user_agent]. *)
Definition _client_ip (value : json) : result exc (list Z) :=
  match value with
  | JStr s => if 64 <? zlen s then Err ValueError
              else match py_ip_address self s with Some t => Ok t | None => Err ValueError end
  | _ => Err ValueError
  end.

Definition _client_user_agent (value : json) : result exc (option (list Z)) :=
  match value with
  | JStr s =>
      let normalized := strip s in
      if bool_decide (normalized = []) then Ok None
      else if (512 <? zlen normalized) || existsb is_control normalized then Err ValueError
      else Ok (Some normalized)
  | _ => Err ValueError
  end.

(** [_set_auth_audit]: the actor of a sign-in. *)
Definition _set_auth_audit (email : list Z) (role : Role) (method : string) (client_ip : list Z)
    : H unit :=
  ip ← lift (_client_ip (JStr client_ip));
  modify (λ s, with_context (h_principal s)
    (Some [(u "actor", JStr email); (u "role", JStr (role_name role));
           (u "authentication_method", JStr (u method)); (u "client_ip", JStr ip)]) s).

(** ** [_authorize_request] *)

(** What an identity that must change its password may still call. *)
Definition PASSWORD_CHANGE_OPERATIONS : list (list Z) :=
  u <$> ["auth.session"; "auth.session_peek"; "auth.logout"; "auth.change_password"; "auth.step_up";
         "auth.passkeys_list"; "auth.passkey_step_up_begin"; "auth.passkey_step_up_complete";
         "auth.sessions_list"].

Definition is_admin_permission (p : Permission) : bool :=
  match p with ADMIN_ONLY | ADMIN_ACCOUNT => true | _ => false end.
Definition is_account_permission (p : Permission) : bool :=
  match p with ACCOUNT_ | ADMIN_ACCOUNT => true | _ => false end.

Definition require_fresh (st : store) (token : list Z) : H unit :=
  catch (on_auth (require_step_up st token) ≫= λ _, mret tt)
    (λ e, match e with
          | InvalidSessionError | StepUpRequiredError => Some (throw StepUpRequired)
          | _ => None
          end).

(** The parameters of the handler: the account the request names - its own, or
    any for an administrator - replaces whatever [username] it carried. *)
Definition target_params (st : store) (operation : _Operation) (name : list Z) (p : principal)
    (given : dict) : H dict :=
  if is_account_permission (op_permission operation) then
    let target_id := obj_get (u "target_account_id") given in
    let rest := filter (λ kv, kv.1 ≠ u "target_account_id") given in
    target ←
      match target_id with
      | Some (JStr id) =>
          target ← on_auth (resolve_account_id id);
          if negb (bool_decide (pr_role p = ADMIN)) && negb (str_eqb (a_id target) (pr_account p))
          then throw AuthorizationDenied else mret target
      | None | Some JNull =>
          if bool_decide (op_permission operation = ADMIN_ACCOUNT) then throw ValueError
          else on_auth (resolve_account_id (pr_account p))
      | Some _ => throw ValueError
      end;
    set_field (u "target") (JStr (a_email target)) ≫= λ _,
    mret (obj_set (u "username") (JStr (a_email target)) rest)
  else if str_eqb name (u "auth.admin_rotate_totp") then
    match key (u "target_account_id") given with
    | JStr id =>
        target ← on_auth (resolve_account_id id);
        set_field (u "target") (JStr (a_email target)) ≫= λ _, mret given
    | _ => throw ValueError
    end
  else mret given.

Definition _authorize_request (request : Request) (operation : _Operation) (touch : bool)
    : H (Request * option principal) :=
  match auth_store self with
  | None => if bool_decide (op_permission operation = PUBLIC) then mret (request, None)
            else throw AuthorizationDenied
  | Some st =>
      if bool_decide (op_permission operation = PUBLIC) then mret (request, None)
      else match auth_token request with
      | None => throw AuthorizationDenied
      | Some token =>
          p ← on_auth (authenticate_session st token touch);
          set_field (u "actor") (JStr (pr_email p)) ≫= λ _,
          set_field (u "role") (JStr (_role_value p)) ≫= λ _,
          _require_active_principal st p ≫= λ _,
          require (negb (pr_pw_required p)
                   || bool_decide (Protocol.operation request ∈ PASSWORD_CHANGE_OPERATIONS))
            PasswordChangeRequired ≫= λ _,
          require (negb (is_admin_permission (op_permission operation))
                   || bool_decide (pr_role p = ADMIN)) AuthorizationDenied ≫= λ _,
          (if op_step_up operation then require_fresh st token else mret tt) ≫= λ _,
          values ← target_params st operation (Protocol.operation request) p (params request);
          mret (MkRequest (request_id request) (Protocol.operation request) values
                  (auth_token request) (stream_length request), Some p)
      end
  end.

(** ** [preflight] *)

Definition request_fields (request : Request) (length : Z) : dict :=
  [(u "request_id", JStr (request_id request));
   (u "operation", JStr (Protocol.operation request)); (u "actor", JNull);
   (u "params", redact_for_audit self (JObj (params request))); (u "stream_length", JInt length)].

Definition start_fields (d : dict) : H unit := modify (with_fields d).

(** Logs the outcome with the fields collected so far. *)
Definition audit_request (outcome : list Z) (extra : dict) : H unit :=
  fields ← gets h_fields;
  audit (u "helper.operation") outcome (foldl (λ d kv, obj_set kv.1 kv.2 d) fields extra).

Definition fail_with (request : Request) (code message : list Z) : H Response :=
  lift (failure (JStr (request_id request)) (JStr code) (JStr message)).

Definition refuse (request : Request) (code message : string) : H Response :=
  audit_request (u code) [] ≫= λ _, fail_with request (u code) (u message).

Definition reject_with (request : Request) (e : exc) : H Response :=
  let '(code, message) := _safe_error e in
  audit_request code [(u "error_type", JStr (type_name e))] ≫= λ _, fail_with request code message.

Definition some_of {A} (m : H A) : H (option A) := r ← m; mret (Some r).

(** The answer that refuses the request, or [None]. *)
Definition preflight (request : Request) : H (option Response) :=
  start_fields (request_fields request (default 0 (stream_length request))) ≫= λ _,
  match find_operation (Protocol.operation request) ALLOWED_OPERATIONS with
  | None => some_of (refuse request "operation_denied" "Operation is not allow-listed")
  | Some operation =>
      if negb (Bool.eqb (op_stream_in operation) (has_value (stream_length request)))
      then some_of (refuse request "invalid_stream" "Operation stream shape does not match")
      else
        catch (_authorize_request request operation false ≫= λ _, mret None)
          (λ e, Some (some_of (reject_with request e)))
  end.
End Authorize.
