(* ===== verification/AuditSpecs.v ===== *)
(** * What the audit log shows

    Values under sensitive names leave no trace in a log record, and every record
    is one line of printable ASCII, whatever a client put into its request. *)

From S2P Require Import Prelude Text Errors Json JsonText Protocol HelperBase HelperAuthz AuditLog.

#[local] Set Default Proof Using "Type*".

(** ** One line *)

Definition printable (s : list Z) : Prop := Forall (λ c, 32 ≤ c ≤ 126) s.
Definition code_points (s : list Z) : Prop := Forall (λ c, 0 ≤ c < 1114112) s.

Definition float_text (f : pyfloat) : Prop := match f with FFinite r => printable r | _ => True end.

(** The values a Python program holds: strings of code points, floats with a
    printable representation. *)
Fixpoint loggable (j : json) : Prop :=
  match j with
  | JStr s => code_points s
  | JFloat f => float_text f
  | JArr l => (fix go (l : list json) : Prop :=
                 match l with [] => True | v :: l => loggable v ∧ go l end) l
  | JObj kvs => (fix go (kvs : dict) : Prop :=
                   match kvs with [] => True | (k, v) :: kvs => code_points k ∧ loggable v ∧ go kvs end) kvs
  | _ => True
  end.

Lemma loggable_arr l : loggable (JArr l) ↔ Forall loggable l.
Proof. simpl. induction l as [|v l IH]; [done|]. rewrite Forall_cons, <-IH. done. Qed.
Lemma loggable_obj kvs :
  loggable (JObj kvs) ↔ Forall (λ kv, code_points kv.1 ∧ loggable kv.2) kvs.
Proof. simpl. induction kvs as [|[k v] kvs IH]; [done|]. rewrite Forall_cons, <-IH. simpl. tauto. Qed.

Lemma printable_app a b : printable (a ++ b) ↔ printable a ∧ printable b.
Proof. apply Forall_app. Qed.

Lemma printable_sep sep parts : printable sep → Forall printable parts → printable (sep_join sep parts).
Proof.
  intros Hs. induction 1 as [|p parts Hp H IH]; [constructor|]. simpl. destruct parts; [done|].
  by rewrite !printable_app.
Qed.

Lemma hex_digit_printable n : 0 ≤ n < 16 → 32 ≤ hex_digit n ≤ 126.
Proof. intros H. unfold hex_digit. destruct (n <? 10) eqn:E; lia. Qed.

Lemma u_escape_printable n : 0 ≤ n < 65536 → printable (u_escape n).
Proof.
  intros H. unfold u_escape, hex4_of. repeat constructor; try lia;
    apply hex_digit_printable; Z.to_euclidean_division_equations; lia.
Qed.

Lemma ascii_escape_printable c : 0 ≤ c < 1114112 → printable (ascii_escape c).
Proof.
  intros H. unfold ascii_escape. destruct (Z.ltb_spec c 127).
  - unfold escape_char. repeat case_match; repeat constructor; try lia;
      apply hex_digit_printable; Z.to_euclidean_division_equations; lia.
  - case_match; [apply u_escape_printable; lia|].
    apply printable_app. split; apply u_escape_printable; Z.to_euclidean_division_equations; lia.
Qed.

Lemma render_string_printable s : code_points s → printable (render_string log_style s).
Proof.
  intros Hs. unfold render_string. rewrite !printable_app. split_and!; [repeat constructor; lia| |repeat constructor; lia].
  cbn [ensure_ascii log_style]. induction Hs as [|c s Hc Hs IH]; [constructor|].
  change (mjoin (ascii_escape <$> c :: s)) with (ascii_escape c ++ mjoin (ascii_escape <$> s)).
  apply printable_app. split; [by apply ascii_escape_printable|done].
Qed.

Lemma digits_printable n : 0 ≤ n → printable (digits n).
Proof.
  intros H. destruct (digits_spec n H) as [_ Hd]. apply Forall_forall. intros c Hc.
  rewrite forallb_forall in Hd. specialize (Hd c (proj1 (list_elem_of_In _ _) Hc)).
  unfold is_digit in Hd. lia.
Qed.

Lemma dump_int_printable z t : dump_int z = Some t → printable t.
Proof.
  unfold dump_int. case_match; [done|]. intros [= <-]. unfold str_of_int.
  destruct (Z.ltb_spec z 0); [constructor; [lia|]|]; apply digits_printable; lia.
Qed.

(** Every rendering on the log's style is printable. *)
Lemma render_printable j t : loggable j → render log_style j = Some t → printable t.
Proof.
  assert (Hu : ∀ s, forallb (λ c, (32 <=? c) && (c <=? 126)) (u s) = true → printable (u s)).
  { intros s H. apply Forall_forall. intros c Hc. rewrite forallb_forall in H.
    specialize (H c (proj1 (list_elem_of_In _ _) Hc)). lia. }
  revert t. induction j as [| b | z | f | s | l IH | kvs IH] using json_ind'; intros t Hl Hr.
  - injection Hr as <-. by apply Hu.
  - destruct b; injection Hr as <-; by apply Hu.
  - by apply dump_int_printable in Hr.
  - destruct f as [r| |[]]; simpl in Hr; injection Hr as <-; try done; by apply Hu.
  - injection Hr as <-. by apply render_string_printable.
  - rewrite loggable_arr in Hl. simpl in Hr. apply bind_Some in Hr as (parts & Hp & [= <-]).
    constructor; [lia|]. apply printable_app. split; [|repeat constructor; lia].
    apply printable_sep; [by apply Hu|].
    revert parts Hp. induction IH as [|v l Hv IHl IH']; intros parts Hp; [injection Hp as <-; constructor|].
    apply Forall_cons in Hl as [Hlv Hl]. apply bind_Some in Hp as (p & Hp & Hps).
    apply bind_Some in Hps as (ps & Hps & [= <-]). constructor; [by apply Hv|by apply IH'].
  - rewrite loggable_obj in Hl. simpl in Hr. apply bind_Some in Hr as (parts & Hp & [= <-]).
    constructor; [lia|]. apply printable_app. split; [|repeat constructor; lia].
    apply printable_sep; [by apply Hu|].
    revert parts Hp. induction IH as [|[k v] kvs Hv IHl IH']; intros parts Hp; [injection Hp as <-; constructor|].
    apply Forall_cons in Hl as [[Hlk Hlv] Hl]. apply bind_Some in Hp as (p & Hp & Hps).
    apply bind_Some in Hps as (ps & Hps & [= <-]). constructor; [|by apply IH'].
    pose proof (render_string_printable k Hlk) as Hk. change (printable (render_string log_style k ++ u ":" ++ p)).
    rewrite !printable_app. split_and!; [done|by apply Hu|by apply Hv].
Qed.

(** The two redactions on arrays and objects, without their inner loops. *)
Lemma safe_value_arr depth l : depth < MAX_DEPTH →
  _safe_value depth (JArr l) = JArr (_safe_value (depth + 1) <$> l).
Proof.
  intros H. cbn [_safe_value]. replace (MAX_DEPTH <=? depth) with false by lia. f_equal.
Qed.
Lemma safe_value_obj depth kvs : depth < MAX_DEPTH →
  _safe_value depth (JObj kvs) =
  JObj ((λ kv, (kv.1, if _SENSITIVE_NAME kv.1 then REDACTED else _safe_value (depth + 1) kv.2)) <$> kvs).
Proof.
  intros H. cbn [_safe_value]. replace (MAX_DEPTH <=? depth) with false by lia. f_equal.
  induction kvs as [|[k v] kvs IH]; [done|]. cbn [fmap list_fmap]. by rewrite IH.
Qed.

Lemma redact_arr self l : redact self false (JArr l) = JArr (redact self false <$> l).
Proof. done. Qed.
Lemma redact_obj self kvs :
  redact self false (JObj kvs) = JObj ((λ kv, (kv.1, redact self (sensitive self kv.1) kv.2)) <$> kvs).
Proof.
  cbn [redact]. f_equal. induction kvs as [|[k v] kvs IH]; [done|]. cbn [fmap list_fmap]. by rewrite IH.
Qed.
Lemma redact_hidden self j : redact self true j = REDACTED.
Proof. by destruct j. Qed.

Lemma sensitive_nil self : sensitive self [] = false.
Proof. vm_compute. reflexivity. Qed.

Lemma code_points_u s : forallb (λ c, (0 <=? c) && (c <? 1114112)) (u s) = true → code_points (u s).
Proof.
  intros H. apply Forall_forall. intros c Hc. rewrite forallb_forall in H.
  specialize (H c (proj1 (list_elem_of_In _ _) Hc)). lia.
Qed.

Lemma safe_value_loggable j depth : loggable j → loggable (_safe_value depth j).
Proof.
  assert (Ht : loggable TRUNCATED) by (by apply code_points_u).
  revert depth. induction j as [| b | z | f | s | l IH | kvs IH] using json_ind'; intros depth Hl;
    try (cbn [_safe_value]; case_match; done).
  - destruct (Z.ltb_spec depth MAX_DEPTH) as [Hd|Hd].
    + rewrite safe_value_arr by done. apply loggable_arr, Forall_fmap. rewrite loggable_arr in Hl.
      eapply Forall_impl; [exact (proj2 (Forall_and _ _) (conj IH Hl))|]. intros v [Hv Hlv]. by apply Hv.
    + cbn [_safe_value]. by replace (MAX_DEPTH <=? depth) with true by lia.
  - destruct (Z.ltb_spec depth MAX_DEPTH) as [Hd|Hd].
    + rewrite safe_value_obj by done. apply loggable_obj, Forall_fmap. rewrite loggable_obj in Hl.
      eapply Forall_impl; [exact (proj2 (Forall_and _ _) (conj IH Hl))|]. intros [k v] [Hv [Hlk Hlv]]. simpl in *.
      split; [done|]. case_match; [by apply code_points_u|by apply Hv].
    + cbn [_safe_value]. by replace (MAX_DEPTH <=? depth) with true by lia.
Qed.

Lemma redact_loggable self j hidden : loggable j → loggable (redact self hidden j).
Proof.
  assert (Hr : loggable REDACTED) by (by apply code_points_u).
  revert hidden. induction j as [| b | z | f | s | l IH | kvs IH] using json_ind'; intros [] Hl;
    try (rewrite redact_hidden; done); try done.
  - simpl. case_match; [|done]. split; [by apply code_points_u|done].
  - rewrite redact_arr. apply loggable_arr, Forall_fmap. rewrite loggable_arr in Hl.
    eapply Forall_impl; [exact (proj2 (Forall_and _ _) (conj IH Hl))|]. intros v [Hv Hlv]. by apply Hv.
  - rewrite redact_obj. apply loggable_obj, Forall_fmap. rewrite loggable_obj in Hl.
    eapply Forall_impl; [exact (proj2 (Forall_and _ _) (conj IH Hl))|]. intros [k v] [Hv [Hlk Hlv]]. simpl in *.
    split; [done|by apply Hv].
Qed.

(** ** Nothing under a sensitive name *)

Section Hiding.
Context (self : helper).

(** Equal but for what lies under sensitive names, and the characters of texts
    too long to be logged. *)
Inductive same_public : bool → json → json → Prop :=
| sp_hidden a b : same_public true a b
| sp_same hidden a : same_public hidden a a
| sp_long s t : 256 < zlen s → zlen s = zlen t → same_public false (JStr s) (JStr t)
| sp_arr l k : same_items l k → same_public false (JArr l) (JArr k)
| sp_obj kvs lvs : same_fields kvs lvs → same_public false (JObj kvs) (JObj lvs)
with same_items : list json → list json → Prop :=
| si_nil : same_items [] []
| si_cons v w l k : same_public false v w → same_items l k → same_items (v :: l) (w :: k)
with same_fields : dict → dict → Prop :=
| sf_nil : same_fields [] []
| sf_cons name v w l k : same_public (sensitive self name) v w → same_fields l k →
    same_fields ((name, v) :: l) ((name, w) :: k).

Scheme same_public_mut := Minimality for same_public Sort Prop
  with same_items_mut := Minimality for same_items Sort Prop
  with same_fields_mut := Minimality for same_fields Sort Prop.
Combined Scheme same_mutind from same_public_mut, same_items_mut, same_fields_mut.

Lemma redact_same :
  (∀ hidden a b, same_public hidden a b → redact self hidden a = redact self hidden b) ∧
  (∀ l k, same_items l k → redact self false <$> l = redact self false <$> k) ∧
  (∀ l k, same_fields l k →
     (λ kv, (kv.1, redact self (sensitive self kv.1) kv.2)) <$> l
     = (λ kv, (kv.1, redact self (sensitive self kv.1) kv.2)) <$> k).
Proof.
  apply same_mutind.
  - intros a b. by rewrite !redact_hidden.
  - done.
  - intros s t Hs Heq. simpl. rewrite <-Heq. by replace (256 <? zlen s) with true by lia.
  - intros l k _ H. by rewrite !redact_arr, H.
  - intros l k _ H. by rewrite !redact_obj, H.
  - done.
  - intros v w l k _ Hv _ Hl. cbn [fmap list_fmap]. by rewrite Hv, Hl.
  - done.
  - intros name v w l k _ Hv _ Hl. cbn [fmap list_fmap fst snd]. by rewrite Hv, Hl.
Qed.

Lemma redact_fields_same l k : same_fields l k →
  redact_for_audit self (JObj l) = redact_for_audit self (JObj k).
Proof.
  intros H. unfold redact_for_audit. rewrite sensitive_nil, !redact_obj. f_equal. by apply redact_same.
Qed.
End Hiding.

(** C22: what is logged of a request does not depend on anything the client
    put under a name that holds one of the sensitive words (passwords, codes,
    tokens, keys, message bodies, rule conditions), nor on the characters of a
    text over 256 characters; and every record is a single line of printable
    ASCII, so that no request can forge or break one. *)
Theorem audit_hides self time e e' request request' length :
  (request_id request = request_id request' ∧ operation request = operation request' ∧
   same_fields self (params request) (params request') →
   request_fields self request length = request_fields self request' length) ∧
  (au_action e = au_action e' ∧ au_outcome e = au_outcome e' ∧
   same_fields self (au_fields e) (au_fields e') →
   _default_audit self time e = _default_audit self time e') ∧
  (∀ line, code_points time → code_points (au_action e) → code_points (au_outcome e) →
   loggable (JObj (au_fields e)) → _default_audit self time e = Ok line → printable line).
Proof.
  split_and!.
  - intros (Hr & Ho & Hp). unfold request_fields. by rewrite Hr, Ho, (redact_fields_same _ _ _ Hp).
  - intros (Ha & Ho & Hf). unfold _default_audit. by rewrite Ha, Ho, (redact_fields_same _ _ _ Hf).
  - intros line Ht Ha Ho Hf. unfold _default_audit.
    pose proof (redact_loggable self (JObj (au_fields e)) false Hf) as Hl.
    unfold redact_for_audit. rewrite sensitive_nil. rewrite redact_obj in *. unfold record.
    destruct (render _ _) as [t|] eqn:E; [|done]. intros [= <-].
    apply render_printable in E; [done|]. apply loggable_obj.
    repeat (apply Forall_cons; split; [split; [by apply code_points_u|]|]); try done.
    by apply safe_value_loggable.
Qed.
