(* ===== verification/HelperAuth.v ===== *)
(** * The authentication handlers of [helper.py]

    Sign-in (password, then TOTP, enrollment, recovery code or passkey), the
    sessions and passkeys of the signed-in identity, and what changes its
    credentials.  [AuthStore] is called through [on_auth], the submission client
    and Maddy through [on_sys]. *)

From S2P Require Import Prelude Text Errors Json JsonText RuleDoc RuleMessage AuthDb AuthCore AuthStore AuthPasskey AuthRate Protocol Smtp HelperBase HelperAuthz.

Section Handlers.
Context {X : Type} `{!MaddyService X} `{!SubmissionService X} (self : helper).
Notation H := (H X).
Notation store_or := (store_or (X := X) self).
Notation _set_auth_audit := (_set_auth_audit (X := X) self).

(** ** Checked arguments *)

Definition _passkey_credential (value : json) : result exc json :=
  match value with
  | JObj _ =>
      match json_size compact_ascii value with
      | Err _ => Err ValueError
      | Ok size => if (1 <=? size) && (size <=? 64 * 1024) then Ok value else Err ValueError
      end
  | _ => Err ValueError
  end.

Definition _passkey_name (value : json) : result exc (list Z) :=
  match value with
  | JStr s =>
      let normalized := strip s in
      if negb ((1 <=? zlen normalized) && (zlen normalized <=? 100))
         || existsb is_control normalized
      then Err ValueError else Ok normalized
  | _ => Err ValueError
  end.

Definition _public_auth_id (value : json) : result exc (list Z) :=
  match value with JStr s => if is_hex32 s then Ok s else Err ValueError | _ => Err ValueError end.

Definition password_of (value : json) : result exc (list Z) :=
  match value with JStr s => _validated_password s | _ => Err ValueError end.
Definition address_of (value : json) : result exc (list Z) :=
  match value with JStr s => _email_address s | _ => Err ValueError end.

Definition smtp_or (e : exc) : H unit := require (has_smtp self) e.
Definition token_or (request : Request) (e : exc) : H (list Z) :=
  match auth_token request with Some t => mret t | None => throw e end.

(** ** Payloads *)

Definition _principal_payload (p : principal) : H json :=
  store_or RuntimeError ≫= λ _,
  remaining ← on_auth (recovery_code_count (pr_account p));
  mret (JObj
    [(u "account_id", JStr (pr_account p)); (u "email", JStr (pr_email p));
     (u "role", JStr (_role_value p)); (u "password_change_required", JBool (pr_pw_required p));
     (u "enrollment_state", JStr (state_name (pr_state p)));
     (u "recovery_codes_remaining", JInt remaining);
     (u "idle_expires_at", JInt (pr_idle_expires p));
     (u "absolute_expires_at", JInt (pr_absolute_expires p));
     (u "step_up_until", JInt (pr_step_up_until p));
     (u "session_id", opt_json JStr (pr_session_id p))]).

Definition _issued_session_payload (issued : list Z * principal) (codes : list (list Z)) : H json :=
  payload ← _principal_payload issued.2;
  mret (JObj [(u "session_token", JStr issued.1); (u "principal", payload);
              (u "recovery_codes", jstrs codes)]).

Definition device_name (d : DeviceType) : list Z :=
  match d with SINGLE_DEVICE => u "single_device" | MULTI_DEVICE => u "multi_device"
             | OTHER_DEVICE => [] end.

Definition _passkey_payload (p : PasskeyCredential) : json :=
  JObj [(u "id", JStr (pk_public_id p)); (u "name", JStr (pk_name p));
        (u "device_type", JStr (device_name (pk_device p))); (u "backed_up", JBool (pk_backed_up p));
        (u "transports", jstrs (pk_transports p)); (u "created_at", JInt (pk_created p));
        (u "last_used_at", opt_json JInt (pk_last_used p))].

Definition _passkey_ceremony_payload (c : PasskeyCeremony) : json :=
  JObj [(u "challenge", JStr (pc_challenge_token c)); (u "options", pc_options c)].

Definition session_payload (s : SessionInfo) : json :=
  JObj [(u "id", JStr (si_session_id s)); (u "created_at", JInt (si_created s));
        (u "last_seen_at", JInt (si_last_seen s)); (u "idle_expires_at", JInt (si_idle_expires s));
        (u "absolute_expires_at", JInt (si_absolute_expires s));
        (u "step_up_until", JInt (si_step_up_until s)); (u "client_ip", opt_json JStr (si_ip s));
        (u "user_agent", opt_json JStr (si_agent s)); (u "current", JBool (si_current s))].

(** ** The password *)

(** [check_login_rate], then the credential check against the mail server: a
    rejected password is recorded and reported as such. *)
Definition check_password (st : store) (email password client_ip : list Z) : H unit :=
  on_auth (check_login_rate st email client_ip) ≫= λ _,
  catch (on_sys (s_authenticate email password))
    (λ e, match e with
          | SMTPRejected _ stage =>
              if str_eqb stage (u "AUTH") then
                Some (on_auth (record_login_result st email client_ip false) ≫= λ _,
                      throw InvalidCredentials)
              else None
          | _ => None
          end).

Definition _auth_password_begin (request : Request) : H json :=
  st ← store_or RuntimeError; smtp_or RuntimeError ≫= λ _,
  values ← lift (_params request [u "email"; u "password"; u "client_ip"] []);
  address ← lift (address_of (key (u "email") values));
  let email := casefolded self address in
  password ← lift (password_of (key (u "password") values));
  client_ip ← lift (_client_ip self (key (u "client_ip") values));
  check_password st email password client_ip ≫= λ _,
  record ← _maddy_account self email;
  if negb (active_record record) then
    on_auth (record_login_result st email client_ip false) ≫= λ _, throw InvalidCredentials
  else
    accounts ← on_auth (sync_accounts st [email] USER false);
    match accounts with
    | [account] =>
        challenge ← on_auth (create_pending_challenge st email);
        _set_auth_audit (a_email account) (a_role account) "password" client_ip ≫= λ _,
        mret (JObj [(u "challenge", JStr challenge);
                    (u "next", JStr (if bool_decide (a_state account = ACTIVE) then u "totp"
                                     else u "enrollment"))])
    | _ => throw RuntimeError
    end.

(** ** The second factor *)

Definition _auth_enrollment_begin (request : Request) : H json :=
  st ← store_or RuntimeError;
  values ← lift (_params request [u "challenge"] []);
  enrollment ← on_auth (begin_totp_enrollment st (as_text (key (u "challenge") values)));
  mret (JObj [(u "secret", JStr enrollment.1); (u "provisioning_uri", JStr enrollment.2)]).

(** The client a second factor comes from. *)
Definition client_of (values : dict) : result exc (list Z * option (list Z)) :=
  ip ← _client_ip self (key (u "client_ip") values);
  agent ← _client_user_agent (key (u "user_agent") values);
  Ok (ip, agent).

(** After a second factor was accepted. *)
Definition signed_in (st : store) (issued : list Z * principal) (codes : list (list Z))
    (method : string) (client_ip : list Z) : H json :=
  on_auth (record_login_result st (pr_email issued.2) client_ip true) ≫= λ _,
  _set_auth_audit (pr_email issued.2) (pr_role issued.2) method client_ip ≫= λ _,
  _issued_session_payload issued codes.

Definition _auth_enrollment_complete (request : Request) : H json :=
  st ← store_or RuntimeError;
  values ← lift (_params request [u "challenge"; u "code"; u "client_ip"; u "user_agent"] []);
  '(client_ip, agent) ← lift (client_of values);
  result ← on_auth (confirm_totp_enrollment st (as_text (key (u "challenge") values))
                      (as_text (key (u "code") values)) (Some client_ip) agent);
  signed_in st result.1 result.2 "totp_enrollment" client_ip.

Definition _auth_totp_complete (request : Request) : H json :=
  st ← store_or RuntimeError;
  values ← lift (_params request [u "challenge"; u "code"; u "client_ip"; u "user_agent"] []);
  '(client_ip, agent) ← lift (client_of values);
  issued ← on_auth (complete_totp_challenge st (as_text (key (u "challenge") values))
                      (as_text (key (u "code") values)) (Some client_ip) agent);
  signed_in st issued [] "totp" client_ip.

Definition _auth_recovery_complete (request : Request) : H json :=
  st ← store_or RuntimeError;
  values ← lift (_params request
                   [u "challenge"; u "recovery_code"; u "client_ip"; u "user_agent"] []);
  '(client_ip, agent) ← lift (client_of values);
  issued ← on_auth (complete_recovery_challenge st (as_text (key (u "challenge") values))
                      (as_text (key (u "recovery_code") values)) (Some client_ip) agent);
  signed_in st issued [] "recovery_code" client_ip.

(** ** Passkeys *)

Definition _auth_passkey_login_begin (request : Request) : H json :=
  st ← store_or RuntimeError;
  values ← lift (_params request [u "client_ip"] []);
  client_ip ← lift (_client_ip self (key (u "client_ip") values));
  on_auth (check_passkey_login_rate st client_ip) ≫= λ _,
  ceremony ← on_auth (begin_passkey_login st (webauthn_lib self));
  mret (_passkey_ceremony_payload ceremony).

Definition _auth_passkey_login_complete (request : Request) : H json :=
  st ← store_or RuntimeError;
  values ← lift (_params request
                   [u "challenge"; u "credential"; u "client_ip"; u "user_agent"] []);
  client_ip ← lift (_client_ip self (key (u "client_ip") values));
  identity ← catch
    (credential ← lift (_passkey_credential (key (u "credential") values));
     on_auth (verify_passkey_login st (webauthn_lib self) (as_text (key (u "challenge") values))
                (Payload credential)))
    (λ e, match e with
          | AccountNotFoundError | InvalidChallengeError | InvalidPasskeyError =>
              Some (throw InvalidCredentials)
          | _ => None
          end);
  record ← _maddy_account self (vi_email identity);
  if negb (active_record record) then throw InvalidCredentials
  else
    on_auth (record_passkey_login_result st client_ip true) ≫= λ _,
    issued ← catch
      (agent ← lift (_client_user_agent (key (u "user_agent") values));
       on_auth (issue_verified_passkey_session st identity (Some client_ip) agent))
      (λ e, match e with AccountNotFoundError => Some (throw InvalidCredentials) | _ => None end);
    _set_auth_audit (pr_email issued.2) (pr_role issued.2) "passkey" client_ip ≫= λ _,
    _issued_session_payload issued [].

Definition _auth_passkeys_list (request : Request) : H json :=
  lift (_params request [] []) ≫= λ _,
  st ← store_or RuntimeError;
  p ← _current_principal;
  passkeys ← on_auth (list_passkeys st (pr_account p));
  mret (JObj [(u "passkeys", JArr (_passkey_payload <$> passkeys))]).

Definition _auth_passkey_register_begin (request : Request) : H json :=
  lift (_params request [] []) ≫= λ _,
  st ← store_or RuntimeError; token ← token_or request RuntimeError;
  ceremony ← on_auth (begin_passkey_registration st (webauthn_lib self) token);
  mret (_passkey_ceremony_payload ceremony).

Definition _auth_passkey_register_complete (request : Request) : H json :=
  st ← store_or RuntimeError; token ← token_or request RuntimeError;
  values ← lift (_params request [u "challenge"; u "credential"; u "name"] []);
  credential ← lift (_passkey_credential (key (u "credential") values));
  name ← lift (_passkey_name (key (u "name") values));
  passkey ← on_auth (complete_passkey_registration st (webauthn_lib self) token
                       (as_text (key (u "challenge") values)) (Payload credential) name);
  mret (JObj [(u "passkey", _passkey_payload passkey)]).

Definition _auth_passkey_delete (request : Request) : H json :=
  store_or RuntimeError ≫= λ _,
  values ← lift (_params request [u "passkey_id"; u "confirm"] []);
  lift (_confirmed values) ≫= λ _,
  p ← _current_principal;
  passkey_id ← lift (_public_auth_id (key (u "passkey_id") values));
  deleted ← on_auth (delete_passkey (pr_account p) passkey_id);
  mret (JObj [(u "deleted", JBool deleted)]).

Definition _auth_passkey_step_up_begin (request : Request) : H json :=
  lift (_params request [] []) ≫= λ _,
  st ← store_or RuntimeError; token ← token_or request RuntimeError;
  ceremony ← on_auth (begin_passkey_step_up st (webauthn_lib self) token);
  mret (_passkey_ceremony_payload ceremony).

Definition _auth_passkey_step_up_complete (request : Request) : H json :=
  st ← store_or RuntimeError; token ← token_or request RuntimeError;
  values ← lift (_params request [u "challenge"; u "credential"] []);
  credential ← lift (_passkey_credential (key (u "credential") values));
  p ← on_auth (complete_passkey_step_up st (webauthn_lib self) token
                 (as_text (key (u "challenge") values)) (Payload credential));
  mret (JObj [(u "step_up_expires_in", JInt 300); (u "step_up_until", JInt (pr_step_up_until p))]).

(** ** Sessions *)

Definition _auth_sessions_list (request : Request) : H json :=
  lift (_params request [] []) ≫= λ _,
  st ← store_or RuntimeError; token ← token_or request RuntimeError;
  p ← _current_principal;
  sessions ← on_auth (list_sessions st (pr_account p) (Some token));
  mret (JObj [(u "sessions", JArr (session_payload <$> sessions))]).

Definition _auth_session_revoke_other (request : Request) : H json :=
  store_or RuntimeError ≫= λ _,
  values ← lift (_params request [u "session_id"; u "confirm"] []);
  lift (_confirmed values) ≫= λ _,
  p ← _current_principal;
  session_id ← lift (_public_auth_id (key (u "session_id") values));
  if bool_decide (pr_session_id p = None ∨ pr_session_id p = Some session_id)
  then throw AuthorizationDenied
  else
    revoked ← on_auth (revoke_session_by_id (pr_account p) session_id);
    mret (JObj [(u "revoked", JBool revoked)]).

Definition _auth_session (request : Request) : H json :=
  lift (_params request [] []) ≫= λ _, p ← _current_principal; _principal_payload p.

Definition _auth_logout (request : Request) : H json :=
  lift (_params request [] []) ≫= λ _,
  st ← store_or AuthorizationDenied; token ← token_or request AuthorizationDenied;
  on_auth (revoke_session st token) ≫= λ _,
  mret (JObj [(u "logged_out", JBool true)]).

(** ** Credentials of the signed-in identity *)

Definition reauthenticate : json :=
  JObj [(u "changed", JBool true); (u "reauthenticate", JBool true)].

Definition _auth_change_password (request : Request) : H json :=
  st ← store_or RuntimeError; smtp_or RuntimeError ≫= λ _,
  values ← lift (_params request [u "current_password"; u "new_password"; u "client_ip"] []);
  p ← _current_principal;
  current_password ← lift (password_of (key (u "current_password") values));
  new_password ← lift (password_of (key (u "new_password") values));
  client_ip ← lift (_client_ip self (key (u "client_ip") values));
  check_password st (pr_email p) current_password client_ip ≫= λ _,
  on_auth (revoke_sessions st (pr_account p)) ≫= λ _,
  on_sys (m_change_password (JStr (pr_email p)) (JStr new_password)) ≫= λ _,
  on_auth (set_password_change_required st (pr_account p) false false) ≫= λ _,
  on_auth (record_login_result st (pr_email p) client_ip true) ≫= λ _,
  mret reauthenticate.

Definition _auth_recovery_regenerate (request : Request) : H json :=
  st ← store_or RuntimeError; smtp_or RuntimeError ≫= λ _,
  values ← lift (_params request [u "password"; u "code"; u "client_ip"] []);
  p ← _current_principal;
  password ← lift (password_of (key (u "password") values));
  client_ip ← lift (_client_ip self (key (u "client_ip") values));
  check_password st (pr_email p) password client_ip ≫= λ _,
  codes ← on_auth (regenerate_recovery_codes st (pr_account p) (as_text (key (u "code") values)));
  on_auth (record_login_result st (pr_email p) client_ip true) ≫= λ _,
  mret (JObj [(u "recovery_codes", jstrs codes); (u "reauthenticate", JBool true)]).

Definition _auth_step_up (request : Request) : H json :=
  st ← store_or RuntimeError; smtp_or RuntimeError ≫= λ _,
  token ← token_or request RuntimeError;
  values ← lift (_params request [u "password"; u "code"; u "client_ip"] []);
  p ← _current_principal;
  password ← lift (password_of (key (u "password") values));
  client_ip ← lift (_client_ip self (key (u "client_ip") values));
  check_password st (pr_email p) password client_ip ≫= λ _,
  on_auth (verify_totp st (pr_account p) (as_text (key (u "code") values))) ≫= λ _,
  on_auth (mark_step_up st token) ≫= λ _,
  on_auth (record_login_result st (pr_email p) client_ip true) ≫= λ _,
  mret (JObj [(u "step_up_expires_in", JInt 300)]).

Definition _auth_admin_rotate_totp (request : Request) : H json :=
  st ← store_or RuntimeError;
  values ← lift (_params request [u "target_account_id"; u "confirm"] []);
  lift (_confirmed values) ≫= λ _,
  target ← on_auth (resolve_account_id (as_text (key (u "target_account_id") values)));
  '(enrollment, codes) ← on_auth (rotate_totp st (a_id target));
  mret (JObj [(u "account_id", JStr (a_id target)); (u "email", JStr (a_email target));
              (u "totp_secret", JStr enrollment.1); (u "totp_uri", JStr enrollment.2);
              (u "recovery_codes", jstrs codes)]).
End Handlers.
