(* ===== verification/HelperAccounts.v ===== *)
(** * The account and mailbox handlers of [helper.py]

    Accounts live in two places: Maddy has credentials and storage, the
    authentication store has the second factor and the role.  These handlers
    change both in an order that keeps the second from outliving the first. *)

From S2P Require Import Prelude Text Errors Json Dict RuleDoc RuleMessage AuthDb AuthCore AuthStore AuthPasskey AuthRules Protocol Fs Snapshots Smtp HelperBase HelperAuthz.

Section Handlers.
Context {X : Type} `{!MaddyService X} (self : helper).
Notation H := (H X).
Notation store_or := (store_or (X := X) self).

Definition on_store {A} (f : store → H A) (without : H A) : H A :=
  match auth_store self with Some st => f st | None => without end.

(** [{**record, ...}] *)
Definition extend (record extra : dict) : dict := foldl (λ d kv, obj_set kv.1 kv.2 d) record extra.

(** ** Accounts *)

(** The account of a record by its username; the emails of the store hold an at
    sign, which no text of a value that is not a string equals. *)
Definition metadata_of (accounts : list account_row) : list (list Z * account_row) :=
  foldl (λ d a, od_set (casefolded self (a_email a)) a d) [] accounts.

Definition usernames (records : list dict) : list (list Z) :=
  omap (λ r, match key (u "username") r with JStr s => Some s | _ => None end) records.

Definition account_item (metadata : list (list Z * account_row)) (record : dict)
    : result exc json :=
  match key (u "username") record with
  | JStr username =>
      match od_get (casefolded self username) metadata with
      | Some a =>
          Ok (JObj (extend record
            [(u "id", JStr (a_id a)); (u "address", JStr (a_email a));
             (u "role", JStr (role_name (a_role a)));
             (u "enrollment_state", JStr (state_name (a_state a)));
             (u "password_change_required", JBool (a_pw_required a))]))
      | None => Err RuntimeError
      end
  | _ => Err RuntimeError
  end.

Definition _accounts_list (request : Request) : H json :=
  values ← lift (_params request [] [u "include_append_limits"]);
  include ← lift (as_bool (default (JBool true) (obj_get (u "include_append_limits") values)));
  records ← on_sys (m_list_accounts include);
  on_store
    (λ st,
       accounts ← on_auth (sync_accounts st (usernames records) USER true);
       items ← lift (result_map (account_item (metadata_of accounts)) records);
       mret (JArr items))
    (mret (JArr (JObj <$> records))).

(** A failure to set up the authentication removes the new Maddy account again;
    either way the operation is reported as partial. *)
Definition _accounts_create (request : Request) : H json :=
  values ← lift (_params request [u "username"; u "password"] []);
  created ← on_sys (m_create_account (key (u "username") values) (key (u "password") values));
  on_store
    (λ st,
       '(account, enrollment, codes) ←
         catch (on_auth (provision_active_account st (as_text (key (u "username") values)) USER false))
           (λ _, Some (
              catch (on_sys (m_delete_account (key (u "username") values)))
                (λ _, Some (throw PartialOperationError)) ≫= λ _,
              throw PartialOperationError));
       mret (JObj (extend created
         [(u "id", JStr (a_id account)); (u "address", JStr (a_email account));
          (u "role", JStr (role_name (a_role account))); (u "totp_secret", JStr enrollment.1);
          (u "totp_uri", JStr enrollment.2); (u "recovery_codes", jstrs codes)])))
    (mret (JObj created)).

Definition get_target (values : dict) : H (option account_row) :=
  on_store (λ _, on_auth (get_account (as_text (key (u "username") values)))) (mret None).

(** The store demands a new password and ends the sessions before the password
    changes. *)
Definition _accounts_password (request : Request) : H json :=
  values ← lift (_params request [u "username"; u "password"] []);
  target ← get_target values;
  on_store
    (λ st, match target with
           | None => throw RuntimeError
           | Some a => on_auth (set_password_change_required st (a_id a) true true) ≫= λ _, mret tt
           end) (mret tt) ≫= λ _,
  on_sys (m_change_password (key (u "username") values) (key (u "password") values)) ≫= λ _,
  mret (JObj [(u "changed", JBool true)]).

Definition revoke_target (target : option account_row) : H unit :=
  on_store (λ st, match target with
                  | Some a => on_auth (revoke_sessions st (a_id a)) ≫= λ _, mret tt
                  | None => mret tt
                  end) (mret tt).

Definition _accounts_disable (request : Request) : H json :=
  values ← lift (_params request [u "username"; u "confirm"] []);
  lift (_confirmed values) ≫= λ _,
  on_sys (m_disable_credentials (key (u "username") values)) ≫= λ _,
  target ← get_target values;
  revoke_target target ≫= λ _,
  mret (JObj [(u "credentials_disabled", JBool true)]).

(** [values["username"].casefold()]: only a string has it. *)
Definition account_by_name (username : json) : H (option dict) :=
  match username with JStr s => _maddy_account self s | _ => throw RuntimeError end.

Definition record_has (k : string) (record : option dict) : bool :=
  match record with Some r => is_true (key (u k) r) | None => false end.

Definition _accounts_delete_imap (request : Request) : H json :=
  values ← lift (_params request [u "username"; u "confirm"] []);
  lift (_confirmed values) ≫= λ _,
  record ← account_by_name (key (u "username") values);
  target ← get_target values;
  (if record_has "has_credentials" record then
     on_sys (m_disable_credentials (key (u "username") values)) ≫= λ _, revoke_target target
   else mret tt) ≫= λ _,
  (if record_has "has_mailbox" record
   then on_sys (m_delete_imap_account (key (u "username") values)) else mret tt) ≫= λ _,
  on_store (λ st, match target with
    | None => mret tt
    | Some a =>
        match rule_snapshot_dir self with
        | Some directory => on_fs (remove_snapshot (os self) directory (a_email a))
        | None => mret tt
        end ≫= λ _,
        on_auth (delete_account st (a_id a))
    end) (mret tt) ≫= λ _,
  mret (JObj [(u "imap_account_deleted", JBool true)]).

Definition _append_limit_get (request : Request) : H json :=
  values ← lift (_params request [u "username"] []);
  limit ← on_sys (m_get_append_limit (key (u "username") values));
  mret (JObj [(u "append_limit", limit)]).

Definition _append_limit_set (request : Request) : H json :=
  values ← lift (_params request [u "username"; u "value"] []);
  limit ← on_sys (m_set_append_limit (key (u "username") values) (key (u "value") values));
  mret (JObj [(u "append_limit", limit)]).

(** ** Mailboxes *)

Definition _mailboxes_list (request : Request) : H json :=
  values ← lift (_params request [u "username"] [u "subscribed_only"]);
  items ← on_sys (m_list_mailboxes (key (u "username") values)
                    (default (JBool false) (obj_get (u "subscribed_only") values)));
  mret (JArr items).

Definition _mailboxes_create (request : Request) : H json :=
  values ← lift (_params request [u "username"; u "mailbox"] [u "special"]);
  on_sys (m_create_mailbox (key (u "username") values) (key (u "mailbox") values)
            (key (u "special") values)) ≫= λ _,
  mret (JObj [(u "created", JBool true)]).

(** [_rule_account] *)
Definition _rule_account (username : json) : H account_row :=
  store_or RuntimeError ≫= λ _,
  account ← on_auth (get_account (as_text username));
  match account with Some a => mret a | None => throw ValueError end.

Definition is_text (text : string) (j : json) : bool :=
  match j with JStr s => str_eqb s (u text) | _ => false end.

(** Where the messages of a mailbox to be deleted go. *)
Definition disposition_target (values : dict) : H json :=
  if is_text "move" (key (u "disposition") values) then
    if has_key (u "target") values then mret (key (u "target") values) else throw ValueError
  else if is_text "trash" (key (u "disposition") values) then
    if has_key (u "target") values then throw ValueError
    else on_sys (m_resolve_special_mailbox (key (u "username") values) (JStr (u "trash")))
  else throw ValueError.

Definition require_unreferenced (account : account_row) (mailbox : json) : H unit :=
  count ← on_auth (mailbox_rule_reference_count (a_id account) (as_text mailbox));
  require (count =? 0) RuleMailboxConflict.

Definition _mailboxes_delete (request : Request) : H json :=
  values ← lift (_params request [u "username"; u "mailbox"; u "disposition"; u "confirm"]
                   [u "target"]);
  lift (_confirmed values) ≫= λ _,
  target ← disposition_target values;
  on_store (λ st,
    account ← _rule_account (key (u "username") values);
    require_unreferenced account (key (u "mailbox") values) ≫= λ _,
    active ← on_auth (get_active_mail_rule_run st (a_id account));
    match active with Some _ => throw RuleMailboxConflict | None => mret tt end) (mret tt) ≫= λ _,
  on_sys (m_migrate_and_delete_mailbox (key (u "username") values) (key (u "mailbox") values) target)
    ≫= λ _,
  mret (JObj [(u "deleted", JBool true); (u "target", target)]).

Definition _mailboxes_rename (request : Request) : H json :=
  values ← lift (_params request [u "username"; u "old_name"; u "new_name"] []);
  on_store (λ _,
    account ← _rule_account (key (u "username") values);
    require_unreferenced account (key (u "old_name") values)) (mret tt) ≫= λ _,
  on_sys (m_rename_mailbox (key (u "username") values) (key (u "old_name") values)
            (key (u "new_name") values)) ≫= λ _,
  mret (JObj [(u "renamed", JBool true)]).
End Handlers.
