(* ===== verification/HelperRules.v ===== *)
(** * The mail-rule handlers of [helper.py]

    The rules of an account are authoritative in the database; the snapshot file
    is what delivery reads.  A change pauses delivery filing (publishes an empty
    snapshot), changes the database, and publishes the new rules.  A run moves
    existing messages by a rule, a batch per step; its state is a JSON document
    of the run ([run_source] per mailbox, and the current index). *)

From S2P Require Import Prelude Text Errors Json JsonText RuleDoc RuleMessage RuleEval AuthDb AuthCore AuthStore AuthPasskey AuthRules Csrf Protocol Fs Snapshots Smtp HelperBase HelperAuthz HelperAccounts.

Definition _RULE_RUN_BATCH_SIZE : Z := 20.
Definition _MAX_RULE_RUN_MAILBOXES : Z := 64.
Definition _MAX_RULE_RESPONSE_BYTES : Z := 48 * 1024.

(** ** Sorting records by their UID *)

(** [int(item.get("uid", 0))].  The value of a key that is not an integer is
    irrelevant: both callers refuse such a record once the list is sorted. *)
Definition uid_key (record : dict) : result exc Z :=
  match obj_get (u "uid") record with
  | None => Ok 0
  | Some (JInt z) => Ok z
  | Some (JBool b) => Ok (if b then 1 else 0)
  | Some (JFloat (FFinite _)) => Ok 0
  | Some (JStr s) => match py_int (λ _, None) s with Some z => Ok z | None => Err ValueError end
  | Some (JFloat FNan) => Err ValueError
  | Some _ => Err TypeError
  end.

Fixpoint insert_descending {A} (x : Z * A) (l : list (Z * A)) : list (Z * A) :=
  match l with
  | [] => [x]
  | y :: l => if y.1 <=? x.1 then x :: y :: l else y :: insert_descending x l
  end.

(** [sorted(records, key=.., reverse=True)]: stable. *)
Definition sort_by_uid (records : list dict) : result exc (list dict) :=
  keyed ← result_map (λ r, k ← uid_key r; Ok (k, r)) records;
  Ok (snd <$> foldr insert_descending [] keyed).

(** [record["uid"]] where it is an integer of the protocol's range. *)
Definition valid_uid (record : dict) : option Z :=
  match key (u "uid") record with
  | JInt uid => if (1 <=? uid) && (uid <=? UID_LIMIT) then Some uid else None
  | _ => None
  end.

(** ** Runs *)

Record run_source := MkSource { src_mailbox : list Z; src_cursor : Z; src_done : bool }.

Definition source_json (s : run_source) : json :=
  JObj [(u "mailbox", JStr (src_mailbox s)); (u "cursor", JInt (src_cursor s));
        (u "done", JBool (src_done s))].
Definition state_json (sources : list run_source) (index : nat) : json :=
  JObj [(u "mailboxes", JArr (source_json <$> sources)); (u "mailbox_index", JInt (Z.of_nat index))].

(** [while index < len(sources) and sources[index]["done"] is True: index += 1] *)
Fixpoint leading_done (l : list run_source) : nat :=
  match l with s :: l => if src_done s then S (leading_done l) else 0 | [] => 0 end.
Definition skip_done (sources : list run_source) (index : nat) : nat :=
  (index + leading_done (drop index sources))%nat.

Definition status_name (s : RunStatus) : list Z :=
  match s with
  | QUEUED => u "queued" | RUNNING => u "running" | COMPLETED => u "completed"
  | FAILED => u "failed" | CANCELLED => u "cancelled"
  end.

Section Rules.
Context {X : Type} `{!MaddyService X} (self : helper).
Notation H := (H X).
Notation store_or := (store_or (X := X) self).
Notation _rule_account := (_rule_account (X := X) self).
Notation casefolded := (casefolded self).

(** ** Arguments *)

Definition _rule_expression (values : dict) : result exc json :=
  match filter (λ name, name ∈ values.*1) [u "match"; u "expression"; u "condition"] with
  | [name] => c ← condition_from_mapping (unicode_casefold self) (key name values);
              Ok (condition_to_mapping c)
  | _ => Err ValueError
  end.

Definition INBOX : list Z := u "inbox".

Definition names_mailbox (target : list Z) (record : json) : bool :=
  match record with
  | JObj kvs =>
      match key (u "name") kvs with
      | JStr name => str_eqb name target
                     || (str_eqb (casefolded name) INBOX && str_eqb (casefolded target) INBOX)
      | _ => false
      end
  | _ => false
  end.

Definition _require_rule_target (username target_mailbox : json) : H (list Z) :=
  r ← lift (from_mapping (unicode_casefold self)
              (JObj [(u "condition", JObj [(u "field", JStr (u "subject"));
                                           (u "operator", JStr (u "exists"))]);
                     (u "target_mailbox", target_mailbox)]));
  records ← on_sys (m_list_mailboxes username (JBool false));
  if existsb (names_mailbox (RuleDoc.target_mailbox r)) records then mret (RuleDoc.target_mailbox r)
  else throw ValueError.

(** ** Payloads *)

Definition _mail_rule_payload (r : MailRuleRecord) : dict :=
  [(u "rule_id", JStr (rule_id r)); (u "name", JStr (rule_name r));
   (u "enabled", JBool (rule_enabled r)); (u "position", JInt (rule_position r));
   (u "match", rule_expression r); (u "target_mailbox", JStr (rule_target_mailbox r));
   (u "stop_processing", JBool (rule_stop_processing r)); (u "revision", JInt (rule_revision r));
   (u "created_at", JInt (rule_created_at r)); (u "updated_at", JInt (rule_updated_at r))].

Definition member (k : list Z) (j : json) : json := match j with JObj d => key k d | _ => JNull end.

Definition _mail_rule_run_payload (r : MailRuleRun) : dict :=
  [(u "run_id", JStr (run_id r)); (u "rule_id", opt_json JStr (run_rule_id r));
   (u "status", JStr (status_name (run_status r))); (u "processed", JInt (run_scanned r));
   (u "matched", JInt (run_matched r)); (u "moved", JInt (run_moved r));
   (u "failed", JInt (run_failed r)); (u "created_at", JInt (run_created_at r));
   (u "started_at", opt_json JInt (run_started_at r)); (u "updated_at", JInt (run_updated_at r));
   (u "finished_at", opt_json JInt (run_finished_at r));
   (u "error_code", opt_json JStr (run_error_code r))]
  ++ match member (u "rule_name") (run_rule_snapshot r) with
     | JStr ((_ :: _) as name) => [(u "rule_name", JStr name)]
     | _ => []
     end
  ++ match member (u "total") (run_state r) with
     | JInt total => if 0 <=? total then [(u "total", JInt total)] else []
     | _ => []
     end.

Definition _bounded_mail_rule_result (rules : list dict) (active_run : option dict)
    : result exc dict :=
  let result := [(u "rules", JArr (JObj <$> rules)); (u "active_run", opt_json JObj active_run)] in
  match json_size compact_ascii (JObj result) with
  | Err _ => Err ValueError
  | Ok size => if _MAX_RULE_RESPONSE_BYTES <? size then Err CommandOutputLimit else Ok result
  end.

Definition _mail_rule_list_result (st : store) (account : account_row) : H dict :=
  active ← on_auth (get_active_mail_rule_run st (a_id account));
  rules ← on_auth (list_mail_rules st (a_id account));
  lift (_bounded_mail_rule_result (_mail_rule_payload <$> rules) (_mail_rule_run_payload <$> active)).

(** ** Snapshots *)

Definition snapshot_record (r : MailRuleRecord) : rule_mapping :=
  [(u "rule_id", JStr (rule_id r)); (u "enabled", JBool (rule_enabled r));
   (u "position", JInt (rule_position r)); (u "condition", rule_expression r);
   (u "target_mailbox", JStr (rule_target_mailbox r));
   (u "stop_processing", JBool (rule_stop_processing r)); (u "revision", JInt (rule_revision r))].

Definition _mail_rule_snapshot_records (st : store) (account : account_row)
    : H (list rule_mapping) :=
  records ← on_auth (list_mail_rules st (a_id account)); mret (snapshot_record <$> records).

(** With a snapshot directory configured. *)
Definition in_snapshots (f : list Z → H unit) : H unit :=
  match rule_snapshot_dir self with Some directory => f directory | None => mret tt end.

Definition _reconcile_mail_rule_snapshots : H unit :=
  in_snapshots (λ directory,
    st ← store_or RuntimeError;
    accounts ← on_auth list_accounts;
    snapshots ← eff_map (λ a, rs ← _mail_rule_snapshot_records st a; mret (a_email a, rs)) accounts;
    on_fs (replace_snapshot_set (os self) directory snapshots (rule_snapshot_group_id self))).

Definition publish (account : account_row) (records : list rule_mapping) : H unit :=
  in_snapshots (λ directory,
    on_fs (publish_snapshot (os self) directory (a_email account) records
             (rule_snapshot_group_id self)) ≫= λ _, mret tt).

Definition _publish_mail_rules (st : store) (account : account_row) : H unit :=
  in_snapshots (λ _,
    records ← _mail_rule_snapshot_records st account; publish account records).

Definition _pause_mail_rule_delivery (account : account_row) : H unit := publish account [].

Definition _publish_mail_rules_after_mutation (st : store) (account : account_row) : H bool :=
  catch (_publish_mail_rules st account ≫= λ _, mret true)
    (λ e, if catches [OSError; RuleSnapshotError; ValueError] e then
            Some (audit (u "mail_rules.snapshot") (u "pending")
                    [(u "account", JStr (a_email account));
                     (u "error_type", JStr (type_name e))] ≫= λ _, mret false)
          else None).

(** ** Rules *)

Definition _rules_list (request : Request) : H json :=
  values ← lift (_params request [u "username"] []);
  account ← _rule_account (key (u "username") values);
  st ← store_or RuntimeError;
  result ← _mail_rule_list_result st account;
  mret (JObj result).

(** The attributes of a mailbox, folded; one that is not text is no flag. *)
Definition folded_flags (attributes : list json) : list (list Z) :=
  omap (λ a, match a with JStr s => Some (casefolded s) | _ => None end) attributes.

Definition run_excluded (target : list Z) (folded : list Z) (flags : list (list Z)) : bool :=
  bool_decide (folded ∈ [casefolded target; u "trash"; u "archive"])
  || bool_decide (u "\trash" ∈ flags) || bool_decide (u "\archive" ∈ flags).

(** The mailboxes a run scans, each from its latest message down. *)
Fixpoint run_sources (username : json) (target : list Z) (seen : list (list Z)) (records : list json)
    : H (list run_source) :=
  match records with
  | [] => mret []
  | JObj record :: records =>
      match key (u "name") record, default (JArr []) (obj_get (u "attributes") record) with
      | JStr ((_ :: _) as name), JArr attributes =>
          let folded := casefolded name in
          if bool_decide (folded ∈ seen) then throw MaddyError
          else if run_excluded target folded (folded_flags attributes)
          then run_sources username target (folded :: seen) records
          else
            cursor ← on_sys (m_latest_message_uid username (JStr name));
            rest ← run_sources username target (folded :: seen) records;
            mret (MkSource name cursor (cursor =? 0) :: rest)
      | _, _ => throw MaddyError
      end
  | _ :: _ => throw MaddyError
  end.

Definition _new_rule_run_state (username : json) (target : list Z) : H (list run_source * nat) :=
  records ← on_sys (m_list_mailboxes username (JBool false));
  if _MAX_RULE_RUN_MAILBOXES <? zlen records then throw ValueError
  else
    sources ← run_sources username target [] records;
    mret (sources, leading_done sources).

(** The rule as it will be answered: the size of the collection is checked
    before anything changes. *)
Definition prospective_rule (values : dict) (expression : json) (target : list Z) (position : Z)
    : dict :=
  [(u "rule_id", JStr (replicate 32 48)); (u "name", key (u "name") values);
   (u "enabled", key (u "enabled") values); (u "position", JInt position);
   (u "match", expression); (u "target_mailbox", JStr target);
   (u "stop_processing", key (u "stop_processing") values); (u "revision", JInt 1);
   (u "created_at", JInt 9999999999); (u "updated_at", JInt 9999999999)].

(** The change of the database in [_rules_create]. *)
Definition create_rule (st : store) (account : account_row) (values : dict) (expression : json)
    (target : list Z) (prepared : option (list run_source * nat))
    : H (MailRuleRecord * option MailRuleRun) :=
  enabled ← lift (as_bool (key (u "enabled") values));
  stop ← lift (as_bool (key (u "stop_processing") values));
  match prepared with
  | Some (sources, index) =>
      '(r, run) ← on_auth (create_mail_rule_with_run st (a_id account)
                             (as_text (key (u "name") values)) enabled expression target stop
                             (state_json sources index)
                             (bool_decide (index = length sources)));
      mret (r, Some run)
  | None =>
      r ← on_auth (create_mail_rule st (a_id account) (as_text (key (u "name") values)) enabled
                     expression target stop);
      mret (r, None)
  end.

Definition _rules_create (request : Request) : H json :=
  values ← lift (_params request
    [u "username"; u "name"; u "enabled"; u "target_mailbox"; u "stop_processing"]
    [u "match"; u "expression"; u "condition"; u "apply_existing"]);
  apply_existing ← lift (as_bool (default (JBool false) (obj_get (u "apply_existing") values)));
  account ← _rule_account (key (u "username") values);
  st ← store_or RuntimeError;
  active ← (if apply_existing : bool then on_auth (get_active_mail_rule_run st (a_id account))
            else mret None);
  require (is_none active) RuleMailboxConflict ≫= λ _,
  expression ← lift (_rule_expression values);
  target ← _require_rule_target (key (u "username") values) (key (u "target_mailbox") values);
  prepared ← (if apply_existing : bool
              then r ← _new_rule_run_state (key (u "username") values) target; mret (Some r)
              else mret None);
  existing ← on_auth (list_mail_rules st (a_id account));
  lift (_bounded_mail_rule_result
          ((_mail_rule_payload <$> existing)
           ++ [prospective_rule values expression target (zlen existing)]) None) ≫= λ _,
  _pause_mail_rule_delivery account ≫= λ _,
  '(r, run) ← catch (create_rule st account values expression target prepared)
    (λ e, Some (_publish_mail_rules_after_mutation st account ≫= λ _, throw e));
  ready ← _publish_mail_rules_after_mutation st account;
  mret (JObj ([(u "rule", JObj (_mail_rule_payload r)); (u "delivery_ready", JBool ready)]
              ++ match run with
                 | Some run => [(u "run", JObj (_mail_rule_run_payload run))] | None => [] end)).

(** The collection [_rules_update] would answer. *)
Definition updated_payload (values : dict) (expression : json) (target : list Z)
    (current r : MailRuleRecord) : dict :=
  let payload := _mail_rule_payload r in
  if str_eqb (rule_id r) (rule_id current) then
    extend payload
      [(u "name", key (u "name") values); (u "enabled", key (u "enabled") values);
       (u "match", expression); (u "target_mailbox", JStr target);
       (u "stop_processing", key (u "stop_processing") values);
       (u "revision", JInt (rule_revision current + 1))]
  else payload.

Definition supplied_revision (values : dict) : result exc json :=
  match filter (λ name, name ∈ values.*1) [u "expected_revision"; u "revision"] with
  | [name] => Ok (key name values)
  | _ => Err ValueError
  end.

Definition positive_revision (value : json) : result exc Z :=
  match value with JInt z => if z <? 1 then Err ValueError else Ok z | _ => Err ValueError end.

Definition update_rule (st : store) (account : account_row) (values : dict) (expression : json)
    (target : list Z) (current : MailRuleRecord) (revision : Z) : H MailRuleRecord :=
  enabled ← lift (as_bool (key (u "enabled") values));
  stop ← lift (as_bool (key (u "stop_processing") values));
  on_auth (update_mail_rule st (a_id account) (rule_id current) revision
             (as_text (key (u "name") values)) enabled expression target stop).

Definition _rules_update (request : Request) : H json :=
  values ← lift (_params request
    [u "username"; u "rule_id"; u "name"; u "enabled"; u "target_mailbox"; u "stop_processing"]
    [u "match"; u "expression"; u "condition"; u "expected_revision"; u "revision"]);
  supplied ← lift (supplied_revision values);
  account ← _rule_account (key (u "username") values);
  st ← store_or RuntimeError;
  current ← on_auth (get_mail_rule st (a_id account) (as_text (key (u "rule_id") values)));
  revision ← lift (positive_revision supplied);
  require (revision =? rule_revision current) RuleMailboxConflict ≫= λ _,
  expression ← lift (_rule_expression values);
  target ← _require_rule_target (key (u "username") values) (key (u "target_mailbox") values);
  existing ← on_auth (list_mail_rules st (a_id account));
  lift (_bounded_mail_rule_result (updated_payload values expression target current <$> existing)
          None) ≫= λ _,
  _pause_mail_rule_delivery account ≫= λ _,
  r ← update_rule st account values expression target current revision;
  ready ← _publish_mail_rules_after_mutation st account;
  mret (JObj [(u "rule", JObj (_mail_rule_payload r)); (u "delivery_ready", JBool ready)]).

Definition _rules_delete (request : Request) : H json :=
  values ← lift (_params request [u "username"; u "rule_id"] []);
  account ← _rule_account (key (u "username") values);
  st ← store_or RuntimeError;
  let rid := as_text (key (u "rule_id") values) in
  on_auth (get_mail_rule st (a_id account) rid) ≫= λ _,
  _pause_mail_rule_delivery account ≫= λ _,
  on_auth (delete_mail_rule (a_id account) rid) ≫= λ _,
  ready ← _publish_mail_rules_after_mutation st account;
  mret (JObj [(u "deleted", JBool true); (u "delivery_ready", JBool ready)]).

Definition all_texts (l : list json) : option (list (list Z)) :=
  mapM (λ j, match j with JStr s => Some s | _ => None end) l.

(** The identifiers of a new order: every rule of the account, once. *)
Definition supplied_order (current : list (list Z)) (value : json) : result exc (list (list Z)) :=
  match value with
  | JArr l =>
      match all_texts l with
      | Some ids => if bool_decide (NoDup ids) && same_set ids current then Ok ids else Err ValueError
      | None => Err ValueError
      end
  | _ => Err ValueError
  end.

Definition reordered_payloads (rules : list MailRuleRecord) (ids : list (list Z)) : list dict :=
  omap (λ pi, r ← list_find (λ r, rule_id r = pi.2) rules;
              Some (obj_set (u "position") (JInt pi.1) (_mail_rule_payload r.2))) (enumerate ids).

Definition _rules_reorder (request : Request) : H json :=
  values ← lift (_params request [u "username"; u "rule_ids"] []);
  account ← _rule_account (key (u "username") values);
  st ← store_or RuntimeError;
  current ← on_auth (list_mail_rules st (a_id account));
  ids ← lift (supplied_order (rule_id <$> current) (key (u "rule_ids") values));
  lift (_bounded_mail_rule_result (reordered_payloads current ids) None) ≫= λ _,
  _pause_mail_rule_delivery account ≫= λ _,
  on_auth (reorder_mail_rules st (a_id account) ids) ≫= λ _,
  ready ← _publish_mail_rules_after_mutation st account;
  rules ← on_auth (list_mail_rules st (a_id account));
  lift (_bounded_mail_rule_result (_mail_rule_payload <$> rules) None) ≫= λ _,
  mret (JObj [(u "rules", JArr (JObj ∘ _mail_rule_payload <$> rules));
              (u "delivery_ready", JBool ready)]).
End Rules.
