(* ===== verification/HelperRuns.v ===== *)
(** * Applying a rule to existing mail: the run handlers of [helper.py]

    A run is created with one source per mailbox; each step takes the current
    source's next window of messages, moves those the rule matches, and advances
    the cursor. *)

From S2P Require Import Prelude Text Errors Json JsonText RuleDoc RuleMessage RuleEval AuthDb AuthCore AuthStore AuthPasskey AuthRules Protocol Smtp HelperBase HelperAuthz HelperAccounts HelperRules.

Section Runs.
Context {X : Type} `{!MaddyService X} (self : helper).
Notation H := (H X).
Notation store_or := (store_or (X := X) self).
Notation _rule_account := (_rule_account (X := X) self).
Notation casefolded := (casefolded self).

(** [{"run": payload}] *)
Definition run_result (r : MailRuleRun) : json := JObj [(u "run", JObj (_mail_rule_run_payload r))].

Definition _rule_run_snapshot (r : MailRuleRecord) : json :=
  JObj [(u "rule_id", JStr (rule_id r)); (u "rule_name", JStr (rule_name r));
        (u "condition", rule_expression r); (u "target_mailbox", JStr (rule_target_mailbox r));
        (u "revision", JInt (rule_revision r))].

(** [update_mail_rule_run] with the counts of [run] and what the step adds. *)
Definition save_run (st : store) (account : account_row) (run : MailRuleRun)
    (sources : list run_source) (index : nat) (status : RunStatus) (scanned moved failed : Z)
    (error_code : option (list Z)) : H MailRuleRun :=
  on_auth (update_mail_rule_run st (a_id account) (run_id run) (state_json sources index) status
             (run_scanned run + scanned) (run_matched run + moved) (run_moved run + moved)
             (run_failed run + failed) error_code).

Definition _create_rule_run (st : store) (account : account_row) (username : json)
    (r : MailRuleRecord) : H MailRuleRun :=
  active ← on_auth (get_active_mail_rule_run st (a_id account));
  require (is_none active) RuleMailboxConflict ≫= λ _,
  _require_rule_target self username (JStr (rule_target_mailbox r)) ≫= λ _,
  '(sources, index) ← _new_rule_run_state self username (rule_target_mailbox r);
  run ← on_auth (create_mail_rule_run st (a_id account) (rule_id r) (_rule_run_snapshot r)
                   (state_json sources index));
  if bool_decide (index = length sources) then
    on_auth (update_mail_rule_run st (a_id account) (run_id run) (state_json sources index) COMPLETED
               0 0 0 0 None)
  else mret run.

Definition _rules_run_create (request : Request) : H json :=
  values ← lift (_params request [u "username"; u "rule_id"] []);
  account ← _rule_account (key (u "username") values);
  st ← store_or RuntimeError;
  r ← on_auth (get_mail_rule st (a_id account) (as_text (key (u "rule_id") values)));
  run ← _create_rule_run st account (key (u "username") values) r;
  mret (run_result run).

Definition _rules_run_status (request : Request) : H json :=
  values ← lift (_params request [u "username"; u "run_id"] []);
  account ← _rule_account (key (u "username") values);
  st ← store_or RuntimeError;
  run ← on_auth (get_mail_rule_run st (a_id account) (as_text (key (u "run_id") values)));
  mret (run_result run).

Definition _rules_run_cancel (request : Request) : H json :=
  values ← lift (_params request [u "username"; u "run_id"] []);
  account ← _rule_account (key (u "username") values);
  st ← store_or RuntimeError;
  run ← on_auth (cancel_mail_rule_run st (a_id account) (as_text (key (u "run_id") values)));
  mret (run_result run).

(** ** Reading the state of a run back *)

Definition keys_are (d : dict) (names : list (list Z)) : bool :=
  forallb (λ k, bool_decide (k ∈ names)) d.*1 && forallb (λ k, bool_decide (k ∈ d.*1)) names.

Definition source_of_json (seen : list (list Z)) (raw : json) : result exc run_source :=
  match raw with
  | JObj d =>
      if negb (keys_are d [u "mailbox"; u "cursor"; u "done"]) then Err ValueError
      else match key (u "mailbox") d, key (u "cursor") d, key (u "done") d with
           | JStr ((_ :: _) as mailbox), JInt cursor, JBool finished =>
               if bool_decide (casefolded mailbox ∈ seen)
                  || negb ((0 <=? cursor) && (cursor <=? UID_LIMIT))
                  || (finished && negb (cursor =? 0))
               then Err ValueError else Ok (MkSource mailbox cursor finished)
           | _, _, _ => Err ValueError
           end
  | _ => Err ValueError
  end.

Fixpoint sources_of_json (seen : list (list Z)) (raws : list json) : result exc (list run_source) :=
  match raws with
  | [] => Ok []
  | raw :: raws =>
      s ← source_of_json seen raw;
      rest ← sources_of_json (casefolded (src_mailbox s) :: seen) raws;
      Ok (s :: rest)
  end.

Definition _validated_rule_run_state (run : MailRuleRun) : result exc (list run_source * nat) :=
  match run_state run with
  | JObj d =>
      if negb (keys_are d [u "mailboxes"; u "mailbox_index"]) then Err ValueError
      else match key (u "mailboxes") d, key (u "mailbox_index") d with
           | JArr raws, JInt index =>
               if (_MAX_RULE_RUN_MAILBOXES <? zlen raws)
                  || negb ((0 <=? index) && (index <=? zlen raws)) then Err ValueError
               else sources ← sources_of_json [] raws; Ok (sources, Z.to_nat index)
           | _, _ => Err ValueError
           end
  | _ => Err ValueError
  end.

Definition _compiled_rule_run (run : MailRuleRun) : result exc CompiledRule :=
  match run_rule_snapshot run with
  | JObj d =>
      if negb (keys_are d [u "rule_id"; u "rule_name"; u "condition"; u "target_mailbox"; u "revision"])
      then Err ValueError
      else match key (u "rule_id") d, key (u "rule_name") d, key (u "revision") d with
           | JStr _, JStr _, JInt revision =>
               if revision <? 1 then Err ValueError
               else
                 r ← from_mapping (unicode_casefold self)
                       (JObj [(u "condition", key (u "condition") d);
                              (u "target_mailbox", key (u "target_mailbox") d)]);
                 compile_rule (unicode_casefold self) r
           | _, _, _ => Err ValueError
           end
  | _ => Err ValueError
  end.

(** ** One step *)

(** The UIDs of a window: integers in range, each once. *)
Fixpoint window_uids (seen : list Z) (records : list dict) : result exc (list Z) :=
  match records with
  | [] => Ok []
  | r :: records =>
      match valid_uid r with
      | Some uid =>
          if bool_decide (uid ∈ seen) then Err MaddyError
          else rest ← window_uids (uid :: seen) records; Ok (uid :: rest)
      | None => Err MaddyError
      end
  end.

Definition batch : nat := Z.to_nat _RULE_RUN_BATCH_SIZE.

(** [candidates] and [next_cursor]: the batch, newest first, and the UID after it. *)
Definition split_window (uids : list Z) : list Z * Z := (take batch uids, default 0 (uids !! batch)).

Fixpoint matched_uids (compiled : CompiledRule) (username : json) (mailbox : list Z) (uids : list Z)
    : H (list (list Z)) :=
  match uids with
  | [] => mret []
  | uid :: uids =>
      raw ← on_sys (m_dump_message username (JStr mailbox) uid);
      rest ← matched_uids compiled username mailbox uids;
      mret (if matches_raw (unicode_casefold self) (decode_header self) (bytes_decode self)
                 (parse_email self) compiled raw None NoRecipient
            then str_of_int uid :: rest else rest)
  end.

(** The window of the current source: how many messages were looked at, how many
    moved, and the next cursor. *)
Definition scan_window (compiled : CompiledRule) (username : json) (source : run_source)
    : H (Z * Z * Z) :=
  records ← on_sys (m_list_message_window username (JStr (src_mailbox source)) _RULE_RUN_BATCH_SIZE
                      (src_cursor source));
  if _RULE_RUN_BATCH_SIZE + 1 <? zlen records then throw MaddyError
  else
    ordered ← lift (sort_by_uid records);
    uids ← lift (window_uids [] ordered);
    let '(candidates, next_cursor) := split_window uids in
    matched ← matched_uids compiled username (src_mailbox source) candidates;
    (if bool_decide (matched = []) then mret tt
     else
       selection ← lift (_selected_message_uid_set (JStr (join [44] matched)));
       on_sys (m_move_messages username (JStr (src_mailbox source)) selection
                 (JStr (target_mailbox (rule compiled))))) ≫= λ _,
    mret (zlen candidates, zlen matched, next_cursor).

Definition set_source (index : nat) (cursor : Z) (sources : list run_source) : list run_source :=
  alter (λ s, MkSource (src_mailbox s) cursor (cursor =? 0)) index sources.

(** The index after a window: past the source if it is done, and past done ones. *)
Definition next_index (sources : list run_source) (index : nat) (cursor : Z) : nat :=
  if cursor =? 0 then skip_done sources (S index) else index.

(** The step of a run that is running. *)
Definition step_source (st : store) (account : account_row) (username : json) (run : MailRuleRun)
    (compiled : CompiledRule) (sources : list run_source) (index : nat) (source : run_source)
    : H MailRuleRun :=
  outcome ← catch (r ← scan_window compiled username source; mret (inl r))
    (λ e, if catches [MaddyError] e then Some (mret (inr e)) else None);
  match outcome with
  | inr e =>
      save_run st account run sources index FAILED 0 0 1
        (Some (if catches [StaleMessageCursor] e then u "stale_cursor" else u "maddy_failed"))
  | inl (scanned, moved, cursor) =>
      let sources := set_source index cursor sources in
      let index := next_index sources index cursor in
      save_run st account run sources index
        (if (length sources <=? index)%nat then COMPLETED else RUNNING) scanned moved 0 None
  end.

Definition step_run (st : store) (account : account_row) (username : json) (run : MailRuleRun)
    : H MailRuleRun :=
  '(sources, index) ← lift (_validated_rule_run_state run);
  compiled ← lift (_compiled_rule_run run);
  run ← (if bool_decide (run_status run = QUEUED)
         then save_run st account run sources index RUNNING 0 0 0 None else mret run);
  let index := skip_done sources index in
  match sources !! index with
  | None => save_run st account run sources index COMPLETED 0 0 0 None
  | Some source => step_source st account username run compiled sources index source
  end.

(** A step on the stored run: a final one is answered as it is. *)
Definition advance_run (st : store) (account : account_row) (username : json) (rid : list Z)
    : H MailRuleRun :=
  run ← on_auth (get_mail_rule_run st (a_id account) rid);
  if final_status (run_status run) then mret run else step_run st account username run.

Definition _rules_run_step (request : Request) : H json :=
  values ← lift (_params request [u "username"; u "run_id"] []);
  account ← _rule_account (key (u "username") values);
  st ← store_or RuntimeError;
  run ← advance_run st account (key (u "username") values) (as_text (key (u "run_id") values));
  mret (run_result run).
End Runs.
