(* ===== verification/HelperMessages.v ===== *)
(** * The message and certificate handlers of [helper.py]

    Message pages are cut to a size that fits a response frame; bodies travel as
    streams, from or into a spool. *)

From S2P Require Import Prelude Text Errors Json JsonText RuleDoc RuleMessage AuthDb AuthCore AuthStore AuthPasskey Protocol Smtp HelperBase HelperAuthz HelperAuth HelperAccounts HelperRules.

Definition PAGE_BYTES : Z := 48 * 1024.

Section Messages.
Context {X : Type} `{!MaddyService X} `{!CertificateManager X} `{!SubmissionService X}.
Context (self : helper).
Notation H := (H X).

Definition done_ (k : string) : json := JObj [(u k, JBool true)].

(** ** Pages *)

Definition page_json (items : list dict) (offset limit : Z) (next : option Z) : json :=
  JObj [(u "items", JArr (JObj <$> items)); (u "offset", JInt offset); (u "limit", JInt limit);
        (u "total", JNull); (u "next_offset", opt_json JInt next)].

(** Strings are cut to 512 characters. *)
Definition bounded_record (record : dict) : dict :=
  (λ kv, (kv.1, match kv.2 with JStr s => JStr (take 512 s) | v => v end)) <$> record.

(** The longest prefix of the candidates whose page fits: [uids] are those of all
    messages, so that the UID after the page is the next offset. *)
Fixpoint fill_page (offset limit : Z) (uids : list Z) (page candidates : list dict)
    : result exc (list dict) :=
  match candidates with
  | [] => Ok page
  | candidate :: candidates =>
      let trial := page ++ [bounded_record candidate] in
      size ← json_size default_unicode (page_json trial offset limit (uids !! length trial));
      if PAGE_BYTES <? size then Ok page else fill_page offset limit uids trial candidates
  end.

Definition messages_page (limit offset : Z) (records : list dict) : result exc json :=
  messages ← sort_by_uid records;
  if limit + 1 <? zlen messages then Err MaddyError
  else match mapM valid_uid messages with
  | None => Err MaddyError
  | Some uids =>
      let current := if offset =? 0 then default offset (head uids) else offset in
      let candidates := take (Z.to_nat limit) messages in
      page ← fill_page current limit uids [] candidates;
      if negb (bool_decide (candidates = [])) && bool_decide (page = []) then Err CommandOutputLimit
      else Ok (page_json page current limit (uids !! length page))
  end.

Definition int_between (lo hi : Z) (value : json) : result exc Z :=
  match value with
  | JInt z => if (lo <=? z) && (z <=? hi) then Ok z else Err ValueError
  | _ => Err ValueError
  end.

Definition _messages_list (request : Request) : H json :=
  values ← lift (_params request [u "username"; u "mailbox"; u "limit"; u "offset"] []);
  limit ← lift (int_between 1 200 (key (u "limit") values));
  offset ← lift (int_between 0 UID_LIMIT (key (u "offset") values));
  records ← on_sys (m_list_message_window (key (u "username") values) (key (u "mailbox") values)
                      limit offset);
  lift (messages_page limit offset records).

Definition _messages_latest (request : Request) : H json :=
  values ← lift (_params request [u "username"; u "mailbox"] []);
  uid ← on_sys (m_latest_message_uid (key (u "username") values) (key (u "mailbox") values));
  mret (JObj [(u "uid", JInt uid)]).

(** ** Bodies *)

(** The spool is closed on every failure after it was created. *)
Definition _messages_get (request : Request) : H TrustedSpool :=
  values ← lift (_params request [u "username"; u "mailbox"; u "uid"] []);
  create_spool self ≫= λ _,
  catch
    ('(data, length) ← on_sys (m_dump_message_to (key (u "username") values)
                                 (key (u "mailbox") values) (key (u "uid") values));
     match length with
     | JInt n => if (1 <=? n) && (n <=? DEFAULT_MAX_STREAM_BYTES)
                 then mret (MkSpool data n) else throw MaddyError
     | _ => throw MaddyError
     end)
    (λ e, Some (close_spool ≫= λ _, throw e)).

Definition spool_or (spool : option TrustedSpool) : H TrustedSpool :=
  match spool with Some sp => mret sp | None => throw ValueError end.

Definition _messages_append (request : Request) (spool : option TrustedSpool) : H json :=
  sp ← spool_or spool;
  values ← lift (_params request [u "username"; u "mailbox_special"] [u "flags"; u "internal_date"]);
  mailbox ← on_sys (m_resolve_special_mailbox (key (u "username") values)
                      (key (u "mailbox_special") values));
  uid ← on_sys (m_append_message (key (u "username") values) mailbox (sp_data sp) (sp_length sp)
                  (default (JArr []) (obj_get (u "flags") values))
                  (key (u "internal_date") values));
  mret (JObj [(u "uid", uid); (u "mailbox", mailbox)]).

(** What iterating a JSON value yields: the items of an array, the characters of
    a string, the keys of an object. *)
Definition iterate (value : json) : result exc (list json) :=
  match value with
  | JArr l => Ok l
  | JStr s => Ok ((λ c, JStr [c]) <$> s)
  | JObj kvs => Ok (JStr <$> kvs.*1)
  | _ => Err TypeError
  end.

(** The checks of [SMTPSubmissionClient.send] on its arguments. *)
Definition send_arguments (values : dict) (length : Z)
    : result exc (list Z * list Z * list Z * list (list Z)) :=
  username ← address_of (key (u "username") values);
  mail_from ← address_of (key (u "mail_from") values);
  items ← iterate (key (u "recipients") values);
  recipients ← result_map address_of items;
  if bool_decide (recipients = []) || (100 <? zlen recipients) then Err ValueError
  else
    password ← password_of (key (u "password") values);
    if (1 <=? length) && (length <=? s_max_message_bytes)
    then Ok (username, password, mail_from, recipients) else Err ValueError.

Definition _messages_send (request : Request) (spool : option TrustedSpool) : H json :=
  require (has_smtp self) SMTPTransportError ≫= λ _,
  sp ← spool_or spool;
  values ← lift (_params request [u "username"; u "password"; u "mail_from"; u "recipients"] []);
  require (bool_decide (key (u "mail_from") values = key (u "username") values)) ValueError ≫= λ _,
  on_sys (m_require_write_safety MESSAGE_ADMIN) ≫= λ _,
  records ← on_sys (m_list_accounts true);
  let record := snd <$> list_find (λ r, has_key (u "username") r = true
                                        ∧ key (u "username") r = key (u "username") values) records in
  require (active_record record) ValueError ≫= λ _,
  '(username, password, mail_from, recipients) ← lift (send_arguments values (sp_length sp));
  n ← on_sys (s_send username password mail_from recipients (sp_data sp) (sp_length sp));
  mret (JObj [(u "accepted", JBool true); (u "recipients", JInt n)]).

(** ** Changing messages *)

Definition _messages_delete (request : Request) : H json :=
  values ← lift (_params request [u "username"; u "mailbox"; u "uid"; u "confirm"] []);
  lift (_confirmed values) ≫= λ _,
  on_sys (m_delete_message (key (u "username") values) (key (u "mailbox") values)
            (key (u "uid") values)) ≫= λ _,
  mret (done_ "deleted").

Definition _messages_delete_many (request : Request) : H json :=
  values ← lift (_params request [u "username"; u "mailbox"; u "uid_set"; u "confirm"] []);
  lift (_confirmed values) ≫= λ _,
  uid_set ← lift (_selected_message_uid_set (key (u "uid_set") values));
  trash ← on_sys (m_resolve_special_mailbox (key (u "username") values) (JStr (u "trash")));
  require (bool_decide (key (u "mailbox") values = trash)) ValueError ≫= λ _,
  on_sys (m_delete_messages (key (u "username") values) trash uid_set) ≫= λ _,
  mret (done_ "deleted").

Definition _messages_copy (request : Request) : H json :=
  values ← lift (_params request [u "username"; u "source"; u "uid_set"; u "target"] []);
  on_sys (m_copy_messages (key (u "username") values) (key (u "source") values)
            (key (u "uid_set") values) (key (u "target") values)) ≫= λ _,
  mret (done_ "copied").

Definition _messages_move (request : Request) : H json :=
  values ← lift (_params request [u "username"; u "source"]
                   [u "uid"; u "uid_set"; u "target_special"; u "target"]);
  require (xorb (has_key (u "uid") values) (has_key (u "uid_set") values)) ValueError ≫= λ _,
  require (xorb (has_key (u "target_special") values) (has_key (u "target") values)) ValueError
    ≫= λ _,
  target ← (if has_key (u "target_special") values
            then on_sys (m_resolve_special_mailbox (key (u "username") values)
                           (key (u "target_special") values))
            else mret (key (u "target") values));
  (if has_key (u "uid_set") values then
     uid_set ← lift (_selected_message_uid_set (key (u "uid_set") values));
     on_sys (m_move_messages (key (u "username") values) (key (u "source") values) uid_set target)
   else
     on_sys (m_move_message (key (u "username") values) (key (u "source") values)
               (key (u "uid") values) target)) ≫= λ _,
  mret (JObj [(u "moved", JBool true); (u "target", target)]).

Definition _message_flags (request : Request) (method : flag_method) : H json :=
  values ← lift (_params request [u "username"; u "mailbox"; u "uid_set"; u "flags"] []);
  on_sys (m_message_flags method (key (u "username") values) (key (u "mailbox") values)
            (key (u "uid_set") values) (key (u "flags") values)) ≫= λ _,
  mret (done_ "changed").

Definition _messages_set_flags (request : Request) : H json := _message_flags request SET_FLAGS.
Definition _messages_add_flags (request : Request) : H json := _message_flags request ADD_FLAGS.
Definition _messages_remove_flags (request : Request) : H json :=
  _message_flags request REMOVE_FLAGS.

(** ** The service itself *)

Definition _version (request : Request) : H json :=
  lift (_params request [] []) ≫= λ _, info ← on_sys m_version_info; mret (JObj info).

(** [info[k]]: KeyError when it is absent. *)
Definition item (k : string) (info : dict) : result exc json :=
  match obj_get (u k) info with Some v => Ok v | None => Err KeyError end.

Definition _maddy_health (request : Request) : H json :=
  lift (_params request [] []) ≫= λ _,
  info ← on_sys m_version_info;
  on_sys (m_list_accounts false) ≫= λ _,
  version ← lift (item "version" info);
  enabled ← lift (item "writes_enabled" info);
  reason ← lift (item "write_block_reason" info);
  mode ← lift (item "mode" info);
  mret (JObj [(u "available", JBool true); (u "version", version); (u "writes_enabled", enabled);
              (u "write_block_reason", reason); (u "mode", mode);
              (u "storage_available", JBool true)]).

Definition _verify_config (request : Request) : H json :=
  lift (_params request [] []) ≫= λ _,
  output ← on_sys m_verify_config; mret (JObj [(u "output", output)]).

(** ** Certificates *)

Definition _certificates_list (request : Request) : H json :=
  lift (_params request [] []) ≫= λ _, on_sys c_list_certificates.
Definition _certificates_health (request : Request) : H json :=
  lift (_params request [] []) ≫= λ _, on_sys c_health.
Definition _certificates_status (request : Request) : H json :=
  values ← lift (_params request [u "name"] []); on_sys (c_status (key (u "name") values)).

Definition set_timer (enabled : bool) (request : Request) : H json :=
  values ← lift (_params request [u "confirm"] []);
  lift (_confirmed values) ≫= λ _, on_sys (c_set_timer_enabled enabled).
Definition _certificates_timer_enable (request : Request) : H json := set_timer true request.
Definition _certificates_timer_disable (request : Request) : H json := set_timer false request.

Definition _certificates_dry_run (request : Request) : H json :=
  values ← lift (_params request [u "name"] []); on_sys (c_dry_run (key (u "name") values)).
Definition _certificates_renew (request : Request) : H json :=
  values ← lift (_params request [u "name"; u "confirm"] []);
  lift (_confirmed values) ≫= λ _, on_sys (c_renew (key (u "name") values)).
End Messages.
