(* ===== verification/Helper.v ===== *)
(** * Dispatch and the server loop of [helper.py]

    [dispatch] authorizes a request, runs the handler the table names and turns
    what happens into a response; [serve_connection] is one connection: peer
    check, request, optional upload, dispatch, reply.  The spools opened on the
    way are closed at its end. *)

From S2P Require Import Prelude Text Errors Json JsonText RuleDoc RuleMessage AuthDb AuthCore AuthStore AuthPasskey AuthRules Protocol Fs Smtp HelperBase HelperAuthz HelperAuth HelperAccounts HelperRules HelperRuns HelperMessages.

(** What a handler returns, and [DispatchResult]. *)
Inductive value : Type := VJson (j : json) | VSpool (sp : TrustedSpool).
Record DispatchResult := MkDispatch { response : Response; output_spool : option TrustedSpool }.

Section Dispatch.
Context {X : Type} `{!MaddyService X} `{!CertificateManager X} `{!SubmissionService X}.
Context (self : helper).
Notation H := (H X).

Definition handler : Type := Request → option TrustedSpool → H value.
Definition plain (f : Request → H json) : handler := λ request _, j ← f request; mret (VJson j).
Definition body (f : Request → option TrustedSpool → H json) : handler :=
  λ request spool, j ← f request spool; mret (VJson j).
Definition stream (f : Request → H TrustedSpool) : handler :=
  λ request _, sp ← f request; mret (VSpool sp).

(** The methods of the dispatcher, by name ([getattr]). *)
Definition handlers : list (list Z * handler) :=
  [(u "_maddy_health", plain _maddy_health); (u "_version", plain _version);
   (u "_verify_config", plain _verify_config);
   (u "_auth_password_begin", plain (_auth_password_begin self));
   (u "_auth_enrollment_begin", plain (_auth_enrollment_begin self));
   (u "_auth_enrollment_complete", plain (_auth_enrollment_complete self));
   (u "_auth_totp_complete", plain (_auth_totp_complete self));
   (u "_auth_recovery_complete", plain (_auth_recovery_complete self));
   (u "_auth_passkey_login_begin", plain (_auth_passkey_login_begin self));
   (u "_auth_passkey_login_complete", plain (_auth_passkey_login_complete self));
   (u "_auth_session", plain (_auth_session self)); (u "_auth_logout", plain (_auth_logout self));
   (u "_auth_change_password", plain (_auth_change_password self));
   (u "_auth_recovery_regenerate", plain (_auth_recovery_regenerate self));
   (u "_auth_step_up", plain (_auth_step_up self));
   (u "_auth_passkeys_list", plain (_auth_passkeys_list self));
   (u "_auth_passkey_register_begin", plain (_auth_passkey_register_begin self));
   (u "_auth_passkey_register_complete", plain (_auth_passkey_register_complete self));
   (u "_auth_passkey_delete", plain (_auth_passkey_delete self));
   (u "_auth_passkey_step_up_begin", plain (_auth_passkey_step_up_begin self));
   (u "_auth_passkey_step_up_complete", plain (_auth_passkey_step_up_complete self));
   (u "_auth_sessions_list", plain (_auth_sessions_list self));
   (u "_auth_session_revoke_other", plain (_auth_session_revoke_other self));
   (u "_auth_admin_rotate_totp", plain (_auth_admin_rotate_totp self));
   (u "_accounts_list", plain (_accounts_list self));
   (u "_accounts_create", plain (_accounts_create self));
   (u "_accounts_password", plain (_accounts_password self));
   (u "_accounts_disable", plain (_accounts_disable self));
   (u "_accounts_delete_imap", plain (_accounts_delete_imap self));
   (u "_append_limit_get", plain _append_limit_get);
   (u "_append_limit_set", plain _append_limit_set);
   (u "_mailboxes_list", plain _mailboxes_list); (u "_mailboxes_create", plain _mailboxes_create);
   (u "_mailboxes_delete", plain (_mailboxes_delete self));
   (u "_mailboxes_rename", plain (_mailboxes_rename self));
   (u "_rules_list", plain (_rules_list self)); (u "_rules_create", plain (_rules_create self));
   (u "_rules_update", plain (_rules_update self)); (u "_rules_delete", plain (_rules_delete self));
   (u "_rules_reorder", plain (_rules_reorder self));
   (u "_rules_run_create", plain (_rules_run_create self));
   (u "_rules_run_status", plain (_rules_run_status self));
   (u "_rules_run_step", plain (_rules_run_step self));
   (u "_rules_run_cancel", plain (_rules_run_cancel self));
   (u "_messages_list", plain _messages_list); (u "_messages_latest", plain _messages_latest);
   (u "_messages_get", stream (_messages_get self));
   (u "_messages_append", body _messages_append);
   (u "_messages_delete", plain _messages_delete);
   (u "_messages_delete_many", plain _messages_delete_many);
   (u "_messages_copy", plain _messages_copy); (u "_messages_move", plain _messages_move);
   (u "_messages_set_flags", plain _messages_set_flags);
   (u "_messages_add_flags", plain _messages_add_flags);
   (u "_messages_remove_flags", plain _messages_remove_flags);
   (u "_messages_send", body (_messages_send self));
   (u "_certificates_list", plain _certificates_list);
   (u "_certificates_health", plain _certificates_health);
   (u "_certificates_status", plain _certificates_status);
   (u "_certificates_timer_enable", plain _certificates_timer_enable);
   (u "_certificates_timer_disable", plain _certificates_timer_disable);
   (u "_certificates_dry_run", plain _certificates_dry_run);
   (u "_certificates_renew", plain _certificates_renew)].

Fixpoint find_handler (name : list Z) (table : list (list Z * handler)) : option handler :=
  match table with
  | [] => None
  | (k, h) :: table => if str_eqb k name then Some h else find_handler name table
  end.

(** The constructor: the snapshots are reconciled, and every operation of the
    table has its handler. *)
Definition init_dispatcher : H unit :=
  _reconcile_mail_rule_snapshots self ≫= λ _,
  require (forallb (λ no, has_value (find_handler (op_method no.2) handlers)) ALLOWED_OPERATIONS)
    RuntimeError.

(** [close] *)
Definition close_dispatcher : H unit :=
  match auth_store self with Some _ => on_auth AuthStore.close | None => mret tt end.

(** The response to a value; a stream that cannot be announced is closed. *)
Definition respond (request : Request) (v : value) : H DispatchResult :=
  let rid := JStr (request_id request) in
  match v with
  | VJson j => r ← lift (success rid j JNull); mret (MkDispatch r None)
  | VSpool sp =>
      r ← catch (lift (success rid (JObj [(u "stream", JBool true)]) (JInt (sp_length sp))))
            (λ e, Some (close_spool ≫= λ _, throw e));
      mret (MkDispatch r (Some sp))
  end.

Definition set_principal (p : option principal) : H unit :=
  modify (λ s, with_context p (h_auth_audit s) s).

(** The fields a sign-in adds to the audit record of its request. *)
Definition merge_auth_audit : H unit :=
  extra ← gets h_auth_audit;
  match extra with
  | Some d => modify (λ s, with_fields (extend (h_fields s) d) s)
  | None => mret tt
  end.

(** The body of the [try]. *)
Definition run_operation (request : Request) (operation : _Operation) (spool : option TrustedSpool)
    : H DispatchResult :=
  '(request, p) ← _authorize_request self request operation (op_touch_session operation);
  set_principal p ≫= λ _,
  match find_handler (op_method operation) handlers with
  | None => throw RuntimeError
  | Some h =>
      v ← h request spool;
      result ← respond request v;
      merge_auth_audit ≫= λ _,
      (if op_audit_success operation then audit_request (u "ok") [] else mret tt) ≫= λ _,
      mret result
  end.

(** [finally: self._request_context.principal = None; ...auth_audit = None] *)
Definition clear_context {A} (m : H A) : H A := λ s,
  let '(r, s) := m s in (r, with_context None None s).

Definition no_output (m : H Response) : H DispatchResult := r ← m; mret (MkDispatch r None).

Definition dispatch (request : Request) (spool : option TrustedSpool) : H DispatchResult :=
  start_fields (request_fields self request (match spool with Some sp => sp_length sp | None => 0 end))
    ≫= λ _,
  match find_operation (operation request) ALLOWED_OPERATIONS with
  | None => no_output (refuse request "operation_denied" "Operation is not allow-listed")
  | Some operation =>
      if negb (Bool.eqb (op_stream_in operation) (has_value spool))
      then no_output (refuse request "invalid_stream" "Operation stream shape does not match")
      else
        clear_context
          (catch (run_operation request operation spool)
             (λ e, Some (no_output (reject_with request e))))
  end.
End Dispatch.

(** ** [UnixHelperServer] *)

(** One connection: the socket, the helper, the audit fields of the upload being
    received, and the spools of this connection that are open. *)
Record server (X : Type) := MkServer {
  sv_conn : conn; sv_h : hstate X; sv_receiving : option dict; sv_input : bool; sv_output : bool
}.
Arguments MkServer {X}.
Arguments sv_conn {X}.
Arguments sv_h {X}.
Arguments sv_receiving {X}.
Arguments sv_input {X}.
Arguments sv_output {X}.

Section Server.
Context {X : Type} `{!MaddyService X} `{!CertificateManager X} `{!SubmissionService X}.
Context (self : helper) (py_float : list Z → pyfloat).
(* max_frame_bytes, max_stream_bytes; the uid of the peer, and the one allowed *)
Context (max_frame max_stream : Z) (peer_uid : result exc Z) (allowed_peer_uid : option Z).
Notation S := (eff (server X) exc).

Definition on_conn {A} (m : IO A) : S A := λ s,
  let '(r, c) := m (sv_conn s) in
  (r, MkServer c (sv_h s) (sv_receiving s) (sv_input s) (sv_output s)).
Definition on_helper {A} (m : H X A) : S A := λ s,
  let '(r, h) := m (sv_h s) in
  (r, MkServer (sv_conn s) h (sv_receiving s) (sv_input s) (sv_output s)).
Definition set_receiving (d : option dict) : S unit :=
  modify (λ s, MkServer (sv_conn s) (sv_h s) d (sv_input s) (sv_output s)).
Definition set_open (i o : bool) : S unit :=
  modify (λ s, MkServer (sv_conn s) (sv_h s) (sv_receiving s) i o).

Definition _verify_peer : S unit :=
  match allowed_peer_uid with
  | None => throw ProtocolError
  | Some allowed => uid ← lift peer_uid; require (uid =? allowed) ProtocolError
  end.

Definition reply (r : Response) : S unit :=
  payload ← lift (response_to_payload r); on_conn (send_frame (JObj payload) max_frame).

(** Reading a spool: blocks of its declared length, then what is beyond. *)
Fixpoint blocks (fuel : nat) (data : list Z) : list read_result :=
  match fuel, data with
  | Datatypes.S fuel, _ :: _ =>
      ReadBytes (take (Z.to_nat STREAM_CHUNK_BYTES) data)
      :: blocks fuel (drop (Z.to_nat STREAM_CHUNK_BYTES) data)
  | _, _ => []
  end.
Definition spool_source (sp : TrustedSpool) : list read_result :=
  let declared := take (Z.to_nat (sp_length sp)) (sp_data sp) in
  blocks (Datatypes.S (length declared)) declared
  ++ match drop (Z.to_nat (sp_length sp)) (sp_data sp) with
     | [] => [] | b :: _ => [ReadBytes [b]] end.

Definition set_source (l : list read_result) (c : conn) : conn :=
  Conn (incoming c) (sent c) (writable c) l (sink c).
Definition set_sink (l : list Z) (c : conn) : conn :=
  Conn (incoming c) (sent c) (writable c) (Protocol.source c) l.

Definition reply_stream (r : Response) (sp : TrustedSpool) : S unit :=
  payload ← lift (response_to_payload r);
  on_conn (modify (set_source (spool_source sp))) ≫= λ _,
  on_conn (send_stream_frame payload max_frame max_stream true).

(** The upload of a request, after its authorization: its spool. *)
Definition receive_upload (length : Z) : S TrustedSpool :=
  fields ← gets (λ s, h_fields (sv_h s));
  set_receiving (Some fields) ≫= λ _,
  require (length <=? max_stream) StreamError ≫= λ _,
  on_helper (create_spool self) ≫= λ _,
  set_open true false ≫= λ _,
  on_conn (modify (set_sink [])) ≫= λ _,
  on_conn (receive_stream_payload length max_stream true) ≫= λ _,
  data ← gets (λ s, sink (sv_conn s));
  set_receiving None ≫= λ _,
  mret (MkSpool data length).

Definition answer (request : Request) (spool : option TrustedSpool) : S unit :=
  result ← on_helper (dispatch self request spool);
  match output_spool result with
  | None => reply (response result)
  | Some sp => input ← gets sv_input; set_open input true ≫= λ _, reply_stream (response result) sp
  end.

(** The body of the [try]. *)
Definition serve_request : S unit :=
  _verify_peer ≫= λ _,
  payload ← on_conn (receive_frame py_float max_frame);
  request ← lift (request_from_payload payload);
  match stream_length request with
  | None => answer request None
  | Some length =>
      refusal ← on_helper (preflight self request);
      match refusal with
      | Some r => reply r
      | None => spool ← receive_upload length; answer request (Some spool)
      end
  end.

(** The [except] clause. *)
Definition rejected (e : exc) : S unit :=
  receiving ← gets sv_receiving;
  match receiving with
  | Some fields =>
      on_helper (audit (u "helper.operation") (u "stream_receive_failed")
                   (obj_set (u "error_type") (JStr (type_name e)) fields))
  | None => mret tt
  end ≫= λ _,
  on_helper (audit (u "helper.protocol") (u "rejected") [(u "error_type", JStr (type_name e))]).

(** The [finally] clause. *)
Definition close_spools : S unit :=
  input ← gets sv_input; output ← gets sv_output;
  when input (on_helper close_spool) ≫= λ _, when output (on_helper close_spool).

Definition handled (e : exc) : bool :=
  catches [ConnectionClosed; ProtocolError; StreamError; OSError] e.

(** A failure outside the handled classes leaves the [try] through its
    [finally]. *)
Definition serve_connection : S unit := λ s,
  let '(r, s) := match serve_request s with
                 | (Err e, s) => if handled e then rejected e s else (Err e, s)
                 | r => r
                 end in
  let '(_, s) := close_spools s in (r, s).
End Server.
