(* ===== verification/HelperSpools.v ===== *)
(** * No connection leaves a spool open

    The handlers, the dispatcher and the server open temporary files for uploads
    and message bodies; whatever fails on the way, as many are open after a
    connection as before it. *)

From S2P Require Import Prelude Text Errors Json JsonText RuleDoc RuleMessage AuthDb AuthCore AuthStore AuthPasskey AuthRules Protocol Fs Smtp HelperBase HelperAuthz HelperAuth HelperAccounts HelperRules HelperRuns HelperMessages Helper.

#[local] Set Default Proof Using "Type*".

Section Spools.
Context {X : Type} `{!MaddyService X} `{!CertificateManager X} `{!SubmissionService X}.
Context (self : helper).
Notation H := (H X).
Implicit Types (s : hstate X).

(** ** Steps that open no spool *)

Definition balanced {A} (m : H A) : Prop := ∀ s, h_open (m s).2 = h_open s.

Lemma balanced_bind {A B} (m : H A) (f : A → H B) :
  balanced m → (∀ a, balanced (f a)) → balanced (m ≫= f).
Proof.
  intros Hm Hf s. unfold mbind, eff_mbind, eff_bind. specialize (Hm s).
  destruct (m s) as [[a|e] s1]; [by rewrite Hf|done].
Qed.
Lemma balanced_ret {A} (a : A) : balanced (mret a).
Proof. done. Qed.
Lemma balanced_throw {A} e : balanced (A := A) (throw e).
Proof. done. Qed.
Lemma balanced_lift {A} (r : result exc A) : balanced (lift r).
Proof. done. Qed.
Lemma balanced_gets {A} (f : hstate X → A) : balanced (gets f).
Proof. done. Qed.
Lemma balanced_require b e : balanced (require b e).
Proof. by destruct b. Qed.
Lemma balanced_auth {A} (m : M A) : balanced (on_auth m).
Proof. intros s. unfold on_auth. by destruct (m (h_auth s)). Qed.
Lemma balanced_fs {A} (m : FS A) : balanced (on_fs m).
Proof. intros s. unfold on_fs. by destruct (m (h_fs s)). Qed.
Lemma balanced_sys {A} (m : eff X exc A) : balanced (on_sys m).
Proof. intros s. unfold on_sys. by destruct (m (h_sys s)). Qed.
Lemma balanced_audit a o f : balanced (audit a o f).
Proof. done. Qed.
Lemma balanced_field k v : balanced (set_field k v).
Proof. done. Qed.
Lemma balanced_context p f : balanced (modify (λ s, with_context p (f s) s)).
Proof. done. Qed.
Lemma balanced_context' f a : balanced (modify (λ s, with_context (f s) a s)).
Proof. done. Qed.
Lemma balanced_fields f : balanced (modify (λ s, with_fields (f s) s)).
Proof. done. Qed.
Lemma balanced_catch {A} (m : H A) h :
  balanced m → (∀ e k, h e = Some k → balanced k) → balanced (catch m h).
Proof.
  intros Hm Hh s. unfold catch. specialize (Hm s). destruct (m s) as [[a|e] s1]; [done|].
  destruct (h e) as [k|] eqn:E; [|done]. by rewrite (Hh e k E).
Qed.
End Spools.

Create HintDb balanced.
#[export] Hint Resolve balanced_ret balanced_throw balanced_lift balanced_gets balanced_require
  balanced_auth balanced_fs balanced_sys balanced_audit balanced_field balanced_context
  balanced_context' balanced_fields : balanced.

Ltac head_of t := lazymatch t with ?f _ => head_of f | _ => t end.

(** Follows a computation to its primitive steps. *)
Ltac balanced_step :=
  first
    [ solve [eauto with balanced nocore]
    | apply balanced_bind; [|intros ?]
    | apply balanced_catch; [|let e := fresh "e" in let k := fresh "k" in let Hk := fresh "Hk" in
        intros e k Hk; repeat (case_match; try discriminate Hk); injection Hk as <-]
    | progress cbv zeta
    | case_match
    | match goal with |- balanced ?m => let h := head_of m in progress unfold h end ].
Ltac balanced := repeat balanced_step.

Section Handlers.
Context {X : Type} `{!MaddyService X} `{!CertificateManager X} `{!SubmissionService X}.
Context (self : helper).

Lemma balanced_run_sources username target seen records :
  balanced (run_sources (X := X) self username target seen records).
Proof.
  revert seen. induction records as [|record records IH]; intros seen; [apply balanced_ret|].
  cbn [run_sources]. balanced.
Qed.

Lemma balanced_matched compiled username mailbox uids :
  balanced (matched_uids (X := X) self compiled username mailbox uids).
Proof.
  induction uids as [|uid uids IH]; [apply balanced_ret|]. cbn [matched_uids]. balanced.
Qed.
Hint Resolve balanced_run_sources balanced_matched : balanced.

Lemma balanced_create request : balanced (_rules_create self request).
Proof. balanced. Qed.
Lemma balanced_step' request : balanced (_rules_run_step self request).
Proof. balanced. Qed.
Lemma balanced_authorize request operation touch :
  balanced (_authorize_request self request operation touch).
Proof. balanced. Qed.

(** ** Handlers *)

(** A handler that returns a stream hands over one spool; any other outcome
    leaves none behind. *)
Definition handed (r : result exc value) : Z := match r with Ok (VSpool _) => 1 | _ => 0 end.
Definition hands_over (h : handler (X := X)) : Prop :=
  ∀ request spool s, h_open (h request spool s).2 = h_open s + handed (h request spool s).1.

Lemma plain_balanced (f : Request → H X json) : (∀ request, balanced (f request)) → hands_over (plain f).
Proof.
  intros Hf request spool s. unfold plain, mbind, eff_mbind, eff_bind. specialize (Hf request s).
  destruct (f request s) as [[j|e] s1]; simpl in *; lia.
Qed.
Lemma body_balanced (f : Request → option TrustedSpool → H X json) :
  (∀ request spool, balanced (f request spool)) → hands_over (body f).
Proof.
  intros Hf request spool s. unfold body, mbind, eff_mbind, eff_bind. specialize (Hf request spool s).
  destruct (f request spool s) as [[j|e] s1]; simpl in *; lia.
Qed.

Lemma balanced_run {A} (m : H X A) s r s' : balanced m → m s = (r, s') → h_open s' = h_open s.
Proof. intros Hm Hr. specialize (Hm s). by rewrite Hr in Hm. Qed.

(** A computation that takes over the spool, and closes it when it fails. *)
Lemma catch_closes {A} (m : H X A) s r s' : balanced m →
  catch m (λ e, Some (close_spool ≫= λ _, throw e)) s = (r, s') →
  h_open s' = match r with Ok _ => h_open s | Err _ => h_open s - 1 end.
Proof.
  intros Hm. unfold catch. destruct (m s) as [[a|e] s1] eqn:E; intros Hr;
    apply (balanced_run _ _ _ _ Hm) in E; injection Hr as <- <-; simpl; congruence.
Qed.

Lemma messages_get_spool request s r s' : _messages_get self request s = (r, s') →
  h_open s' = h_open s + match r with Ok _ => 1 | Err _ => 0 end.
Proof.
  unfold _messages_get. intros Hr.
  assert (Hc : ∀ r s', create_spool self s = (r, s') →
    h_open s' = h_open s + match r with Ok _ => 1 | Err _ => 0 end).
  { unfold create_spool. intros r0 s0. destruct (spool_fault _ _); intros [= <- <-]; simpl; lia. }
  destruct r as [sp|e].
  - apply eff_bind_ok in Hr as (values & s1 & Hl & Hr). injection Hl as _ <-.
    apply eff_bind_ok in Hr as ([] & s2 & Hs & Hr). apply Hc in Hs.
    apply catch_closes in Hr; [lia|balanced].
  - apply eff_bind_err in Hr as [Hl|(values & s1 & Hl & Hr)]; [injection Hl as _ <-; lia|].
    injection Hl as _ <-. apply eff_bind_err in Hr as [Hs|([] & s2 & Hs & Hr)]; [apply Hc in Hs; lia|].
    apply Hc in Hs. apply catch_closes in Hr; [lia|balanced].
Qed.

Lemma stream_hands_over : hands_over (stream (_messages_get self)).
Proof.
  intros request spool s. unfold stream. destruct ((sp ← _messages_get self request; mret (VSpool sp)) s) as [r s'] eqn:E.
  simpl. destruct r as [v|e].
  - apply eff_bind_ok in E as (sp & s1 & Hg & Hr). apply messages_get_spool in Hg. injection Hr as <- <-. done.
  - apply eff_bind_err in E as [Hg|(sp & s1 & _ & Hr)]; [|done]. by apply messages_get_spool in Hg.
Qed.

Lemma handlers_hand_over : Forall (λ kh, hands_over kh.2) (handlers self).
Proof.
  repeat (apply Forall_cons; split; [|]); try apply Forall_nil; try done; cbn [snd];
    try apply stream_hands_over; try (apply plain_balanced; intros request; balanced; fail);
    try (apply body_balanced; intros request spool; balanced; fail).
Qed.

(** ** Dispatch *)

Definition given (r : result exc DispatchResult) : Z :=
  match r with Ok (MkDispatch _ (Some _)) => 1 | _ => 0 end.

(** From the value of a handler to the result: a spool is passed on or closed. *)
Lemma respond_spool request v s r s' : respond (X := X) request v s = (r, s') →
  h_open s' = h_open s + given r - handed (Ok v).
Proof.
  destruct v as [j|sp]; simpl; intros Hr.
  - destruct r as [res|e].
    + apply eff_bind_ok in Hr as (x & s1 & Hl & Hr). injection Hl as _ <-. injection Hr as <- <-. simpl. lia.
    + apply eff_bind_err in Hr as [Hl|(x & s1 & _ & Hr)]; [|done]. injection Hl as _ <-. simpl. lia.
  - destruct r as [res|e].
    + apply eff_bind_ok in Hr as (x & s1 & Hl & Hr). injection Hr as <- <-.
      apply catch_closes in Hl; [|apply balanced_lift]. simpl. lia.
    + apply eff_bind_err in Hr as [Hl|(x & s1 & _ & Hr)]; [|done].
      apply catch_closes in Hl; [|apply balanced_lift]. simpl. lia.
Qed.

Lemma balanced_merge : balanced (merge_auth_audit (X := X)).
Proof. balanced. Qed.

Lemma run_operation_spool request operation spool s r s' :
  run_operation self request operation spool s = (r, s') → h_open s' = h_open s + given r.
Proof.
  unfold run_operation. intros Hr.
  destruct (_authorize_request self request operation (op_touch_session operation) s) as [[[rq p]|e] s1] eqn:Ea;
    pose proof (balanced_run _ _ _ _ (balanced_authorize _ _ _) Ea) as E1.
  2:{ rewrite (eff_bind_fail _ _ _ _ _ Ea) in Hr. injection Hr as <- <-. simpl. lia. }
  rewrite (eff_bind_run _ _ _ _ _ Ea) in Hr. cbv beta iota in Hr.
  rewrite (eff_bind_run (set_principal p) _ s1 tt (with_context p (h_auth_audit s1) s1) eq_refl) in Hr.
  destruct (find_handler _ _) as [h|] eqn:Ef; [|injection Hr as <- <-; simpl; lia].
  assert (Hh : hands_over h).
  { pose proof handlers_hand_over as Ht. revert Ef Ht. generalize (handlers self).
    induction l as [|[k g] l IH]; [done|]. simpl. intros Ef [Hg Ht]%Forall_cons.
    destruct (str_eqb k _); [by injection Ef as <-|by apply IH]. }
  specialize (Hh rq spool (with_context p (h_auth_audit s1) s1)).
  destruct (h rq spool _) as [[v|e] s2] eqn:Eh.
  2:{ rewrite (eff_bind_fail _ _ _ _ _ Eh) in Hr. injection Hr as <- <-. simpl in *. lia. }
  rewrite (eff_bind_run _ _ _ _ _ Eh) in Hr.
  destruct (respond rq v s2) as [[res|e] s3] eqn:Er; pose proof (respond_spool _ _ _ _ _ Er) as E3.
  2:{ rewrite (eff_bind_fail _ _ _ _ _ Er) in Hr. injection Hr as <- <-. cbn [fst snd given h_open with_context] in *. lia. }
  rewrite (eff_bind_run _ _ _ _ _ Er) in Hr.
  assert (Hrest : balanced (X := X) (merge_auth_audit ≫= λ _ : (),
    (if op_audit_success operation then audit_request (u "ok") [] else mret tt) ≫= λ _ : (), mret res)).
  { balanced. }
  assert (r = Ok res) as ->.
  { clear -Hr. apply (f_equal fst) in Hr. simpl in Hr. rewrite <-Hr.
    unfold merge_auth_audit, mbind, eff_mbind, eff_bind, gets, modify, audit_request. simpl.
    by destruct (h_auth_audit s3), (op_audit_success operation). }
  apply (balanced_run _ _ _ _ Hrest) in Hr. cbn [fst snd h_open with_context] in *. lia.
Qed.

Lemma balanced_reject request e : balanced (reject_with (X := X) request e).
Proof. unfold reject_with. destruct (_safe_error e). balanced. Qed.
Lemma balanced_refuse request c m : balanced (refuse (X := X) request c m).
Proof. balanced. Qed.

Lemma no_output_spool (m : H X Response) s r s' : balanced m → no_output m s = (r, s') →
  h_open s' = h_open s + given r.
Proof.
  intros Hm Hr. unfold no_output, mbind, eff_mbind, eff_bind in Hr. specialize (Hm s).
  destruct (m s) as [[x|e] s1]; injection Hr as <- <-; simpl in *; lia.
Qed.

Lemma dispatch_spool request spool s r s' :
  dispatch self request spool s = (r, s') → h_open s' = h_open s + given r.
Proof.
  unfold dispatch, start_fields, modify, mbind, eff_mbind. unfold eff_bind at 1.
  match goal with |- context [with_fields ?f s] => set (s0 := with_fields f s) end.
  change (h_open s) with (h_open s0). generalize s0. clear s s0. intros s Hr.
  destruct (find_operation _ _) as [operation|].
  2:{ eapply no_output_spool; [|exact Hr]. apply balanced_refuse. }
  destruct (negb _); [eapply no_output_spool; [|exact Hr]; apply balanced_refuse|].
  unfold clear_context, catch in Hr.
  destruct (run_operation self request operation spool s) as [[res|e] s1] eqn:E;
    apply run_operation_spool in E.
  - by injection Hr as <- <-.
  - destruct (no_output _ s1) as [r2 s2] eqn:E2. injection Hr as <- <-.
    apply no_output_spool in E2; [|apply balanced_reject]. simpl in *. lia.
Qed.
End Handlers.

(** ** Connections *)

Section Server.
Context {X : Type} `{!MaddyService X} `{!CertificateManager X} `{!SubmissionService X}.
Context (self : helper) (py_float : list Z → pyfloat).
Context (max_frame max_stream : Z) (peer_uid : result exc Z) (allowed_peer_uid : option Z).
Notation S := (eff (server X) exc).
Implicit Types (s : server X).

Definition count (b : bool) : Z := if b then 1 else 0.
(** The spools that are open are those of before and those of the connection. *)
Definition accounted (base : Z) (i o : bool) s : Prop :=
  h_open (sv_h s) = base + count i + count o ∧ sv_input s = i ∧ sv_output s = o.

Definition steady {A} (m : S A) : Prop := ∀ s,
  h_open (sv_h (m s).2) = h_open (sv_h s) ∧ sv_input (m s).2 = sv_input s ∧
  sv_output (m s).2 = sv_output s.

Lemma steady_bind {A B} (m : S A) (f : A → S B) : steady m → (∀ a, steady (f a)) → steady (m ≫= f).
Proof.
  intros Hm Hf s. unfold mbind, eff_mbind, eff_bind. specialize (Hm s).
  destruct (m s) as [[a|e] s1]; [|done]. destruct (Hf a s1) as (-> & -> & ->). done.
Qed.
Lemma steady_lift {A} (r : result exc A) : steady (lift r).
Proof. done. Qed.
Lemma steady_conn {A} (m : IO A) : steady (on_conn m).
Proof. intros s. unfold on_conn. by destruct (m (sv_conn s)). Qed.
Lemma steady_helper {A} (m : H X A) : balanced m → steady (on_helper m).
Proof. intros Hm s. unfold on_helper. specialize (Hm (sv_h s)). by destruct (m (sv_h s)). Qed.
Lemma steady_receiving d : steady (set_receiving (X := X) d).
Proof. done. Qed.
Lemma steady_gets {A} (f : server X → A) : steady (gets f).
Proof. done. Qed.
Lemma steady_require b e : steady (require b e).
Proof. by destruct b. Qed.
Lemma steady_ret {A} (a : A) : steady (mret a).
Proof. done. Qed.
Lemma steady_throw {A} e : steady (A := A) (throw e).
Proof. done. Qed.
#[local] Hint Resolve steady_lift steady_conn steady_receiving steady_gets steady_require steady_ret
  steady_throw : balanced.
Ltac steady := repeat (first [solve [eauto with balanced nocore] | apply steady_bind; [|intros ?] | case_match]).

Lemma steady_reply r : steady (reply (X := X) max_frame r).
Proof. unfold reply. steady. Qed.
Lemma steady_reply_stream r sp : steady (reply_stream (X := X) max_frame max_stream r sp).
Proof. unfold reply_stream. steady. Qed.
Lemma steady_peer : steady (_verify_peer (X := X) peer_uid allowed_peer_uid).
Proof. unfold _verify_peer. steady. Qed.
Lemma steady_preflight request : steady (on_helper (preflight self request)).
Proof.
  apply steady_helper. unfold preflight, refuse, reject_with, some_of, start_fields. balanced.
Qed.
Lemma steady_rejected e : steady (rejected (X := X) e).
Proof. unfold rejected. apply steady_bind; [|intros ?]; [steady|]; try case_match; steady; apply steady_helper, balanced_audit. Qed.

Definition settled (base : Z) s : Prop := ∃ i o, accounted base i o s.

Lemma wpf_steady {A} (m : S A) (Q : A → server X → Prop) (E : exc → server X → Prop) base i o s :
  steady m → accounted base i o s → (∀ a s', accounted base i o s' → Q a s') →
  (∀ e s', accounted base i o s' → E e s') → wpf m Q E s.
Proof.
  intros Hm (Ha & Hi & Ho) HQ HE. unfold wpf. specialize (Hm s).
  destruct (m s) as [[a|e] s1]; destruct Hm as (H1 & H2 & H3); [apply HQ|apply HE];
    unfold accounted in *; simpl in *; split_and!; congruence.
Qed.

(** Steps over a steady computation; a failure leaves what was there. *)
Ltac over := eapply wpf_bind, wpf_steady;
  [|eassumption|intros ? ? ?|intros ? ? ?; eexists _, _; eassumption].

Lemma upload_accounted base length s : accounted base false false s →
  wpf (receive_upload self max_stream length)
    (λ _ s', accounted base true false s') (λ _ s', settled base s') s.
Proof.
  intros Ha. unfold receive_upload. over; [steady|]. over; [steady|]. over; [steady|].
  apply wpf_bind. unfold wpf at 1, on_helper, create_spool.
  match goal with H : accounted _ _ _ ?x |- _ => rename x into s1; destruct H as (E1 & E2 & E3) end.
  destruct (spool_fault _ _); [exists false, false; by split_and!|].
  apply wpf_bind. unfold set_open. cbn [wpf modify].
  match goal with |- wpf _ _ _ ?x => assert (accounted base true false x) as Ha1 end.
  { split_and!; simpl; try done. simpl in E1. lia. }
  over; [steady|]. over; [steady|]. over; [steady|]. over; [steady|]. by apply wpf_ret.
Qed.

Lemma answer_settled base i request spool s : accounted base i false s →
  wpf (answer self max_frame max_stream request spool) (λ _, settled base) (λ _, settled base) s.
Proof.
  intros (E1 & E2 & E3). unfold answer. apply wpf_bind. unfold wpf at 1, on_helper.
  destruct (dispatch self request spool (sv_h s)) as [[res|e] h] eqn:Ed; apply dispatch_spool in Ed.
  2:{ exists i, false. split_and!; simpl in *; [lia|done..]. }
  destruct res as [resp [sp|]]; cbn [output_spool]; simpl in Ed.
  - apply wpf_bind. cbn [wpf gets]. apply wpf_bind. unfold set_open. cbn [wpf modify].
    match goal with |- wpf _ _ _ ?x => assert (accounted base i true x) as Ha1 end.
    { split_and!; simpl; try done. simpl in *. lia. }
    eapply wpf_steady; [apply steady_reply_stream|exact Ha1|intros; by exists i, true..].
  - eapply (wpf_steady _ _ _ base i false); [apply steady_reply|split_and!; simpl in *; [lia|done..]|intros; by exists i, false..].
Qed.

Lemma serve_request_settled base s : accounted base false false s →
  wpf (serve_request self py_float max_frame max_stream peer_uid allowed_peer_uid)
    (λ _, settled base) (λ _, settled base) s.
Proof.
  intros Ha. unfold serve_request. over; [apply steady_peer|]. over; [steady|]. over; [steady|].
  destruct (stream_length _) as [length|]; [|by eapply answer_settled].
  over; [apply steady_preflight|]. case_match.
  - eapply wpf_steady; [apply steady_reply|eassumption|intros; by exists false, false..].
  - apply wpf_bind. eapply wpf_mono; [by apply upload_accounted| |done].
    intros sp s9 Hs9. cbv beta in *. eapply answer_settled. exact Hs9.
Qed.

End Server.
