(* ===== verification/HelperSpecs.v ===== *)
(** * What the privileged helper lets through

    The table of operations, the answers of [dispatch], and its gate: which
    requests reach a handler, with which parameters. *)

From S2P Require Import Prelude Text Errors Sql Json JsonText RuleDoc RuleMessage AuthDb AuthCore AuthStore AuthPasskey AuthRules AuthInv AuthSafe AuthRun AuthLogin Protocol Fs Smtp HelperBase HelperAuthz HelperAuth HelperAccounts HelperRules HelperRuns HelperMessages Helper.

#[local] Set Default Proof Using "Type*".

(** ** The table *)

(** The policy of one entry: a well-formed name; a change made with the rights of
    an administrator needs a fresh second factor; what is not logged or does not
    touch the session changes nothing; a body is only taken by a change to an
    account. *)
Definition operation_ok (entry : list Z * _Operation) : bool :=
  let '(name, o) := entry in
  _OPERATION_RE name
  && (negb (op_mutating o && is_admin_permission (op_permission o)) || op_step_up o)
  && (negb (op_step_up o) || (op_mutating o && negb (bool_decide (op_permission o = PUBLIC))))
  && ((op_audit_success o && op_touch_session o) || negb (op_mutating o))
  && (negb (op_stream_in o) || (op_mutating o && bool_decide (op_permission o = ACCOUNT_)))
  && negb (op_stream_in o && op_stream_out o).

Section Specs.
Context {X : Type} `{!MaddyService X} `{!CertificateManager X} `{!SubmissionService X}.
Context (self : helper).
Notation H := (H X).
Implicit Types (s : hstate X).

(** Every entry satisfies the policy and has its method. *)
Lemma table_entries :
  forallb (λ no, operation_ok no && has_value (find_handler (op_method no.2) (handlers self)))
    ALLOWED_OPERATIONS = true.
Proof. vm_compute. reflexivity. Qed.

Lemma table_names : NoDup ALLOWED_OPERATIONS.*1.
Proof. apply (bool_decide_unpack _). vm_compute. exact I. Qed.

(** The table of operations is well formed: names are distinct and of the
    protocol's form, every method exists, so that the constructor's check never
    fails; every change with administrator rights needs a fresh second factor; an
    operation that is not logged or leaves the session alone changes nothing; only
    changes to an account take a body; and what an identity that must change its
    password may call are session operations. *)
Theorem operation_table :
  NoDup ALLOWED_OPERATIONS.*1 ∧
  Forall (λ no, operation_ok no = true ∧ ∃ h, find_handler (op_method no.2) (handlers self) = Some h)
    ALLOWED_OPERATIONS ∧
  init_dispatcher self = (_reconcile_mail_rule_snapshots self ≫= λ _, mret tt) ∧
  Forall (λ name, ∃ o, find_operation name ALLOWED_OPERATIONS = Some o ∧ op_permission o = SESSION)
    PASSWORD_CHANGE_OPERATIONS.
Proof.
  split_and!.
  - apply table_names.
  - apply Forall_forall. intros no Hno. pose proof table_entries as Ht. rewrite forallb_forall in Ht.
    specialize (Ht no (proj1 (list_elem_of_In _ _) Hno)). apply andb_true_iff in Ht as [Ho Hh].
    split; [done|]. destruct (find_handler _ _) as [h|]; [by exists h|done].
  - unfold init_dispatcher.
    assert (forallb (λ no, has_value (find_handler (op_method no.2) (handlers self)))
              ALLOWED_OPERATIONS = true) as ->; [vm_compute; reflexivity|done].
  - repeat (apply Forall_cons; split; [eexists; split; [vm_compute; reflexivity|reflexivity]|]).
    apply Forall_nil. done.
Qed.

(** ** Answers *)

(** The code and the message of an error; the text of a rejection carries the
    stage and the reply code of the mail server. *)
Lemma safe_error_ok e :
  _ERROR_CODE_RE (_safe_error e).1 = true ∧
  (message_ok (_safe_error e).2 = true ∨ ∃ code stage, e = SMTPRejected code stage).
Proof.
  destruct e; try (split; vm_compute; [reflexivity|left; reflexivity]).
  - destruct reported_failure; (split; vm_compute; [reflexivity|left; reflexivity]).
  - split; [|eauto]. change (_safe_error (SMTPRejected code stage)) with (rejection_error code stage).
    unfold rejection_error. destruct (str_eqb _ _); [vm_compute; reflexivity|].
    destruct (_ && _); vm_compute; reflexivity.
Qed.

Definition failed (request : Request) (code message : list Z) : Response :=
  MkResponse (request_id request) false JNull (Some (MkErrorPayload code message)) None.

(** The last record of the audit log is one of a request, with this outcome. *)
Definition logged (outcome : list Z) s : Prop :=
  ∃ fields, last (h_log s) = Some (MkAudit (u "helper.operation") outcome fields).

Lemma failure_ok request c m :
  _ID_RE (request_id request) = true → _ERROR_CODE_RE c = true → message_ok m = true →
  failure (JStr (request_id request)) (JStr c) (JStr m) = Ok (failed request c m).
Proof.
  intros Hi Hc Hm. unfold failure, make_error, make_response, _check_identifier.
  rewrite Hc. simpl. rewrite Hm. simpl. rewrite Hi. reflexivity.
Qed.

Lemma failure_err request c m e :
  _ID_RE (request_id request) = true → _ERROR_CODE_RE c = true →
  failure (JStr (request_id request)) (JStr c) (JStr m) = Err e →
  e = ProtocolError ∧ message_ok m = false.
Proof.
  intros Hi Hc. unfold failure, make_error, make_response, _check_identifier.
  rewrite Hc. simpl. destruct (message_ok m); simpl; [by rewrite Hi|]. by intros [= <-].
Qed.

(** What follows an audit record: the answer that refuses the request. *)
Lemma reject_answer request c m extra s r s' :
  _ID_RE (request_id request) = true → _ERROR_CODE_RE c = true →
  (audit_request c extra ≫= λ _, fail_with request c m) s = (r, s') →
  match r with
  | Ok x => x = failed request c m
  | Err e => e = ProtocolError ∧ message_ok m = false
  end ∧ logged c s' ∧ h_auth s' = h_auth s ∧ h_fs s' = h_fs s ∧ h_sys s' = h_sys s ∧
  h_open s' = h_open s.
Proof.
  intros Hi Hc Hrun. unfold audit_request, audit, fail_with in Hrun.
  cbn [mbind eff_mbind eff_bind gets modify lift] in Hrun. injection Hrun as <- <-.
  split; [|split_and!; try done; eexists; apply last_snoc].
  destruct (failure _ _ _) as [x|e] eqn:E.
  - destruct (message_ok m) eqn:Hm.
    + rewrite failure_ok in E by done. by injection E as <-.
    + unfold failure, make_error, _check_identifier in E. rewrite Hc in E. simpl in E. by rewrite Hm in E.
  - by apply failure_err in E.
Qed.

Lemma authorize_id request operation touch s request' p s' :
  _authorize_request self request operation touch s = (Ok (request', p), s') →
  request_id request' = request_id request.
Proof.
  unfold _authorize_request. intros H.
  destruct (auth_store self) as [st|]; [|destruct (bool_decide _); [by injection H as <- _ _|done]].
  destruct (bool_decide _); [by injection H as <- _ _|]. destruct (auth_token request) as [t|]; [|done].
  repeat (apply eff_bind_ok in H as (? & ? & _ & H)). by injection H as <- _ _.
Qed.

Lemma success_shape rid res n r :
  success (JStr rid) res n = Ok r → response_id r = rid ∧ ok r = true ∧ error r = None.
Proof.
  unfold success, make_response, _check_identifier. intros H.
  apply result_bind_ok in H as (i & Hi & H). destruct (_ID_RE rid); [|done]. injection Hi as <-.
  simpl in H. apply result_bind_ok in H as (l & _ & H).
  destruct (has_value l && _); [done|]. destruct (negb _); [done|].
  apply result_bind_ok in H as (u_ & _ & H). by injection H as <-.
Qed.

Lemma catch_ok {A} (m : H A) h s a s' : catch m h s = (Ok a, s') →
  m s = (Ok a, s') ∨ ∃ e s1 k, m s = (Err e, s1) ∧ h e = Some k ∧ k s1 = (Ok a, s').
Proof.
  unfold catch. destruct (m s) as [[b|e] s1]; [by left|]. destruct (h e) as [k|] eqn:E; [|done].
  intros Hk. right. eauto 10.
Qed.

Lemma respond_ok request v s res s' : respond request v s = (Ok res, s') →
  response_id (response res) = request_id request ∧ ok (response res) = true ∧
  error (response res) = None ∧ s' = s ∧
  output_spool res = match v with VJson _ => None | VSpool sp => Some sp end.
Proof.
  intros Hr. destruct v as [j|sp]; simpl in Hr.
  - apply eff_bind_ok in Hr as (r & s1 & Hl & Hr). injection Hr as <- <-. injection Hl as Hl <-.
    simpl. by apply success_shape in Hl as (-> & -> & ->).
  - apply eff_bind_ok in Hr as (r & s1 & Hl & Hr). injection Hr as <- <-.
    apply catch_ok in Hl as [Hl|(e & s2 & k & _ & [= <-] & Hk)].
    + injection Hl as Hl <-. simpl. by apply success_shape in Hl as (-> & -> & ->).
    + by apply eff_bind_ok in Hk as (? & ? & _ & ?).
Qed.

(** A completed operation: its handler ran on the authorized request. *)
Lemma run_operation_ok request operation spool s res s' :
  run_operation self request operation spool s = (Ok res, s') →
  ∃ request' p s1 h v s2,
    _authorize_request self request operation (op_touch_session operation) s = (Ok (request', p), s1) ∧
    find_handler (op_method operation) (handlers self) = Some h ∧
    h request' spool (with_context p (h_auth_audit s1) s1) = (Ok v, s2) ∧
    response_id (response res) = request_id request ∧ ok (response res) = true ∧
    error (response res) = None ∧
    output_spool res = match v with VJson _ => None | VSpool sp => Some sp end ∧
    (op_audit_success operation = true → logged (u "ok") s') ∧
    h_auth s' = h_auth s2 ∧ h_fs s' = h_fs s2 ∧ h_sys s' = h_sys s2 ∧ h_open s' = h_open s2.
Proof.
  unfold run_operation. intros H. apply eff_bind_ok in H as ([request' p] & s1 & Ha & H).
  apply eff_bind_ok in H as ([] & s2 & Hp & H). injection Hp as <-.
  destruct (find_handler _ _) as [h|] eqn:Eh; [|done].
  apply eff_bind_ok in H as (v & s3 & Hv & H). apply eff_bind_ok in H as (res' & s4 & Hr & H).
  apply respond_ok in Hr as (H1 & H2 & H3 & -> & H4).
  apply eff_bind_ok in H as ([] & s5 & Hm & H). apply eff_bind_ok in H as ([] & s6 & Hl & H).
  injection H as <- <-. rewrite (authorize_id _ _ _ _ _ _ _ Ha) in H1.
  exists request', p, s1, h, v, s3.
  assert (h_auth s5 = h_auth s3 ∧ h_fs s5 = h_fs s3 ∧ h_sys s5 = h_sys s3 ∧ h_open s5 = h_open s3) as (E1 & E2 & E3 & E4).
  { unfold merge_auth_audit in Hm. apply eff_bind_ok in Hm as (o & s7 & Hg & Hm).
    injection Hg as <- <-. destruct (h_auth_audit s3); by injection Hm as <-. }
  destruct (op_audit_success operation).
  - injection Hl as <-. split_and!; try done. intros _. eexists. apply last_snoc.
  - injection Hl as <-. by split_and!.
Qed.

(** What [dispatch] does with a request of the table whose shape is right. *)
Definition admitted (request : Request) (spool : option TrustedSpool) (operation : _Operation) : Prop :=
  find_operation (Protocol.operation request) ALLOWED_OPERATIONS = Some operation ∧
  op_stream_in operation = has_value spool.

Definition started (request : Request) (spool : option TrustedSpool) s : hstate X :=
  with_fields (request_fields self request (match spool with Some sp => sp_length sp | None => 0 end)) s.

(** The three ways through [dispatch]. *)
Lemma dispatch_cases request spool s r s' :
  dispatch self request spool s = (r, s') →
  (∃ c m, (∀ operation, ¬ admitted request spool operation) ∧ _ERROR_CODE_RE c = true ∧ message_ok m = true ∧
     (audit_request c [] ≫= λ _, fail_with request c m) (started request spool s)
       = (match r with Ok res => Ok (response res) | Err e => Err e end, s') ∧
     (∀ res, r = Ok res → output_spool res = None)) ∨
  (∃ operation s1, admitted request spool operation ∧ s' = with_context None None s1 ∧
     ((∃ res, r = Ok res ∧ run_operation self request operation spool (started request spool s) = (Ok res, s1)) ∨
      (∃ e s2, run_operation self request operation spool (started request spool s) = (Err e, s2) ∧
         reject_with request e s2
           = (match r with Ok res => Ok (response res) | Err e => Err e end, s1) ∧
         (∀ res, r = Ok res → output_spool res = None)))).
Proof.
  unfold dispatch. intros Hd.
  unfold start_fields, modify, mbind, eff_mbind in Hd. unfold eff_bind at 1 in Hd.
  fold (started request spool s) in Hd.
  assert (Hno : ∀ (m : H Response) s0 r0 s0', no_output m s0 = (r0, s0') →
    m s0 = (match r0 with Ok res => Ok (response res) | Err e => Err e end, s0') ∧
    (∀ res, r0 = Ok res → output_spool res = None)).
  { intros m s0 r0 s0' Hm. unfold no_output, mbind, eff_mbind, eff_bind in Hm.
    destruct (m s0) as [[x|e] s1]; injection Hm as <- <-; (split; [done|]); [|done].
    by intros ? [= <-]. }
  destruct (find_operation _ _) as [operation|] eqn:Ef.
  2:{ left. exists (u "operation_denied"), (u "Operation is not allow-listed").
      apply Hno in Hd as [Hd Ho]. split_and!; try done. intros o [E _]. congruence. }
  destruct (negb _) eqn:En.
  { left. exists (u "invalid_stream"), (u "Operation stream shape does not match").
    apply Hno in Hd as [Hd Ho]. split_and!; try done. intros o [E Es]. rewrite Ef in E. injection E as <-.
    rewrite Es in En. by destruct (has_value spool). }
  right. exists operation. unfold clear_context in Hd.
  destruct (catch _ _ _) as [r0 s1] eqn:Ec. injection Hd as <- <-. exists s1.
  apply negb_false_iff, eqb_prop in En. split; [done|]. split; [done|].
  unfold catch in Ec. destruct (run_operation _ _ _ _ _) as [[res|e] s2]; [injection Ec as <- <-; eauto|].
  right. apply Hno in Ec as [Ec Ho]. eauto.
Qed.


(** ** The gate *)

Lemma on_auth_ok {A} (m : M A) s a s' :
  on_auth m s = (Ok a, s') → ∃ w, m (h_auth s) = (Ok a, w) ∧ s' = with_auth w s.
Proof. unfold on_auth. destruct (m (h_auth s)) as [r w]. intros [= -> <-]. eauto. Qed.

Lemma on_sys_ok {A} (m : eff X exc A) s a s' :
  on_sys m s = (Ok a, s') → ∃ x, m (h_sys s) = (Ok a, x) ∧ s' = with_sys x s.
Proof. unfold on_sys. destruct (m (h_sys s)) as [r x]. intros [= -> <-]. eauto. Qed.

Lemma resolve_account_id_ok id w t w' :
  resolve_account_id id w = (Ok t, w') → a_id t = id ∧ t ∈ accounts (w_db w) ∧ w' = w.
Proof.
  unfold resolve_account_id. intros Hr. apply bind_inv_ok in Hr as (i & w1 & Hi & Hr).
  apply hex32_inv_ok in Hi as (_ & -> & ->). apply bind_inv_ok in Hr as (o & w2 & Ho & Hr).
  unfold locked in Ho. apply bind_inv_ok in Ho as (u_ & w3 & Hu & Ho).
  unfold _account_row_by_id_locked in Ho. apply query_inv_ok in Ho as [-> ->].
  unfold _require_open, require in Hu.
  destruct (lookup_where _ _) as [x|] eqn:E; [|done]. injection Hr as <- <-.
  apply lookup_where_Some in E as [Hid Hin].
  assert (w3 = w) as ->; [|done].
  revert Hu. unfold mbind, eff_mbind, eff_bind, gets. simpl. destruct (w_closed w); [done|]. by intros [= _ <-].
Qed.

(** The parameters the handler of an account operation receives: [username] is
    the address of an account that the principal may act on, whatever the request
    said. *)
Definition bound_to (operation : _Operation) (p : principal) (accounts_ : list account_row)
    (given values : dict) : Prop :=
  ∃ t, t ∈ accounts_ ∧ (a_id t = pr_account p ∨ pr_role p = ADMIN) ∧
    key (u "username") values = JStr (a_email t) ∧
    obj_get (u "target_account_id") values = None ∧
    (op_permission operation = ADMIN_ACCOUNT →
     key (u "target_account_id") given = JStr (a_id t)).

Lemma obj_get_dropped k (d : dict) : obj_get k (filter (λ kv, kv.1 ≠ k) d) = None.
Proof.
  induction d as [|[k' w] d IH]; [done|]. rewrite filter_cons. case_decide as Hd; [|done].
  cbn [obj_get]. by rewrite (str_eqb_ne k' k).
Qed.

Lemma target_params_ok st operation name p given s values s' :
  target_params st operation name p given s = (Ok values, s') →
  (is_account_permission (op_permission operation) = true →
   bound_to operation p (accounts (w_db (h_auth s))) given values) ∧
  h_auth s' = h_auth s ∧ h_fs s' = h_fs s ∧ h_sys s' = h_sys s ∧ h_open s' = h_open s.
Proof.
  unfold target_params. intros Hr. destruct (is_account_permission _) eqn:Ep.
  - apply eff_bind_ok in Hr as (t & s1 & Ht & Hr). apply eff_bind_ok in Hr as ([] & s2 & Hf & Hr).
    injection Hr as <- <-. injection Hf as <-.
    assert (s1 = s ∧ t ∈ accounts (w_db (h_auth s)) ∧ (a_id t = pr_account p ∨ pr_role p = ADMIN) ∧
      (op_permission operation = ADMIN_ACCOUNT → key (u "target_account_id") given = JStr (a_id t)))
      as (-> & Hin & Hor & Hadm).
    { unfold key. destruct (obj_get _ given) as [[]|]; try done; simpl in Ht.
      - destruct (bool_decide _) eqn:Eb; [done|]. apply bool_decide_eq_false in Eb.
        apply on_auth_ok in Ht as (w & Hw & ->). apply resolve_account_id_ok in Hw as (Hid & Hin & ->).
        split; [by destruct s|]. split_and!; [done|by left|by intros ?].
      - apply eff_bind_ok in Ht as (t' & s2 & Hw & Ht). apply on_auth_ok in Hw as (w & Hw & ->).
        apply resolve_account_id_ok in Hw as (Hid & Hin & ->).
        destruct (_ && _) eqn:Eg; [done|]. injection Ht as <- <-. split; [by destruct s|].
        split_and!; [done| |by rewrite Hid].
        apply andb_false_iff in Eg as [Eg|Eg]; apply negb_false_iff in Eg.
        + right. by apply bool_decide_eq_true in Eg.
        + left. by apply str_eqb_true in Eg.
      - destruct (bool_decide _) eqn:Eb; [done|]. apply bool_decide_eq_false in Eb.
        apply on_auth_ok in Ht as (w & Hw & ->). apply resolve_account_id_ok in Hw as (Hid & Hin & ->).
        split; [by destruct s|]. split_and!; [done|by left|by intros ?]. }
    split; [|done]. intros _. exists t. split_and!; try done.
    + unfold key. by rewrite obj_get_set_same.
    + rewrite obj_get_set_other by done. apply obj_get_dropped.
  - destruct (str_eqb _ _); [|by injection Hr as <- <-].
    destruct (key _ given); try done. apply eff_bind_ok in Hr as (t & s1 & Ht & Hr).
    apply on_auth_ok in Ht as (w & Ht & ->). apply resolve_account_id_ok in Ht as (_ & _ & ->).
    apply eff_bind_ok in Hr as ([] & s2 & Hf & Hr). injection Hr as <- <-. by injection Hf as <-.
Qed.

(** What [_authorize_request] has established when it lets a request through that
    is not public. *)
Record authorized (st : store) (operation : _Operation) (touch : bool) (request request' : Request)
    (p : principal) (s s' : hstate X) : Prop := {
  au_token : list Z; au_after : world; au_records : list dict;
  au_has_token : auth_token request = Some au_token;
  au_session : authenticate_session st au_token touch (h_auth s) = (Ok p, au_after);
  au_listed : m_list_accounts false (h_sys s) = (Ok au_records, h_sys s');
  au_active : active_record (find_account self (casefolded self (pr_email p)) au_records) = true;
  au_password : pr_pw_required p = true →
    Protocol.operation request ∈ PASSWORD_CHANGE_OPERATIONS;
  au_admin : is_admin_permission (op_permission operation) = true → pr_role p = ADMIN;
  au_fresh : op_step_up operation = true →
    ∃ p' w, require_step_up st au_token au_after = (Ok p', w);
  au_target : is_account_permission (op_permission operation) = true →
    bound_to operation p (accounts (w_db (h_auth s'))) (params request) (params request');
  au_request : request' = MkRequest (request_id request) (Protocol.operation request)
    (params request') (auth_token request) (stream_length request);
  au_files : h_fs s' = h_fs s ∧ h_open s' = h_open s
}.

Lemma active_principal_ok st p s s' :
  _require_active_principal self st p s = (Ok tt, s') →
  ∃ records x, m_list_accounts false (h_sys s) = (Ok records, x) ∧ s' = with_sys x s ∧
    active_record (find_account self (casefolded self (pr_email p)) records) = true.
Proof.
  unfold _require_active_principal. intros Hr. apply eff_bind_ok in Hr as (o & s1 & Hm & Hr).
  unfold _maddy_account in Hm. apply eff_bind_ok in Hm as (records & s2 & Hl & Hm).
  apply on_sys_ok in Hl as (x & Hl & ->). injection Hm as <- <-.
  destruct (active_record _) eqn:Ea.
  - injection Hr as <-. exists records, x. by split_and!.
  - by apply eff_bind_ok in Hr as (? & ? & _ & ?).
Qed.

Lemma require_fresh_ok st token s s' : require_fresh st token s = (Ok tt, s') →
  ∃ p w, require_step_up st token (h_auth s) = (Ok p, w) ∧ s' = with_auth w s.
Proof.
  unfold require_fresh. intros Hr. apply catch_ok in Hr as [Hr|(e & s1 & k & _ & Hk & Hr)].
  - apply eff_bind_ok in Hr as (p & s1 & Hp & Hr). apply on_auth_ok in Hp as (w & Hp & ->).
    injection Hr as <-. by exists p, w.
  - destruct e; try done; by injection Hk as <-.
Qed.

Lemma authorize_ok st request operation touch s request' po s' :
  auth_store self = Some st → op_permission operation ≠ PUBLIC →
  _authorize_request self request operation touch s = (Ok (request', po), s') →
  ∃ p, po = Some p ∧ authorized st operation touch request request' p s s'.
Proof.
  unfold _authorize_request. intros -> Hp. rewrite bool_decide_false by done.
  destruct (auth_token request) as [token|] eqn:Et; [|done]. intros Hr.
  apply eff_bind_ok in Hr as (p & s1 & Ha & Hr). apply on_auth_ok in Ha as (w & Ha & ->).
  apply eff_bind_ok in Hr as ([] & s2 & Hf & Hr). injection Hf as <-.
  apply eff_bind_ok in Hr as ([] & s3 & Hf & Hr). injection Hf as <-.
  apply eff_bind_ok in Hr as ([] & s4 & Hl & Hr).
  apply active_principal_ok in Hl as (records & x & Hl & -> & Hact).
  apply eff_bind_ok in Hr as ([] & s5 & Hq & Hr). apply require_ok in Hq as [Hpw ->].
  apply eff_bind_ok in Hr as ([] & s6 & Hq & Hr). apply require_ok in Hq as [Hadm ->].
  apply eff_bind_ok in Hr as ([] & s7 & Hq & Hr).
  assert (∃ w', s7 = with_auth w' (with_sys x (with_fields
     (obj_set (u "role") (JStr (_role_value p)) (obj_set (u "actor") (JStr (pr_email p)) (h_fields s))) (with_auth w s))) ∧
     (op_step_up operation = true → ∃ p', require_step_up st token w = (Ok p', w'))) as (w' & -> & Hfresh).
  { destruct (op_step_up operation).
    - apply require_fresh_ok in Hq as (p' & w' & Hq & ->). exists w'. split; [done|]. eauto.
    - injection Hq as <-. exists w. split; [by destruct s|done]. }
  apply eff_bind_ok in Hr as (values & s8 & Hv & Hr). injection Hr as <- <- <-.
  apply target_params_ok in Hv as (Hb & Hau & Hfs & Hsys & Hop). exists p. split; [done|].
  apply (Build_authorized _ _ _ _ _ _ _ _ token w records); try done.
  - simpl. rewrite Hsys. done.
  - intros Hreq. rewrite Hreq in Hpw. simpl in Hpw. by apply bool_decide_eq_true in Hpw.
  - intros Hreq. rewrite Hreq in Hadm. simpl in Hadm. by apply bool_decide_eq_true in Hadm.
  - intros Hs. destruct (Hfresh Hs) as [p' Hp']. eauto.
  - intros Hacc. rewrite Hau. by apply Hb.
  - by rewrite Et.
Qed.

(** The step-up of a session found again after its use was recorded. *)
Lemma touched_step_up st w token seen session now (after : world) p' w2 :
  inv (w_db after) → wf (w_db w) → w_db after = touch_session (session_digest_of st token) seen (w_db w) →
  session ∈ sessions (w_db w) → s_digest session = session_digest_of st token →
  require_step_up st token after = (Ok p', w2) →
  now = s_step_up session → ∃ now2, reads st after now2 ∧ now2 < now.
Proof.
  intros Hi Hwf Hdb Hin Hd Hr ->. apply stepped_up_session in Hr as (now2 & s2 & Hn & Hs2 & Hd2 & Hlt); [|done].
  exists now2. split; [done|]. rewrite Hdb in Hs2. simpl in Hs2. apply elem_of_update in Hs2 as (x & Hx & ->).
  assert (Hxd : s_digest x = session_digest_of st token) by (revert Hd2; by case_decide).
  assert (x = session) as -> by (eapply (NoDup_key_eq s_digest); eauto; [by apply wf_session_digests|congruence]).
  revert Hlt. by case_decide.
Qed.

Lemma reject_not_ok request c m extra s x s' :
  (audit_request c extra ≫= λ _, fail_with request c m) s = (Ok x, s') → ok x = false.
Proof.
  intros Hr. apply eff_bind_ok in Hr as ([] & s1 & _ & Hr). unfold fail_with, lift in Hr.
  injection Hr as Hr <-. unfold failure in Hr. apply result_bind_ok in Hr as (er & _ & Hr).
  unfold make_response in Hr. apply result_bind_ok in Hr as (i & _ & Hr).
  cbn [andb negb has_value check_stream_length] in Hr. simpl in Hr. by injection Hr as <-.
Qed.

(** C1: an operation that is not public completes only for a request whose
    token is that of a session in the database, used within the last 72 hours and
    not expired, of an account whose mailbox is active; an account that must change
    its password gets no further than the operations for that; administrator
    operations complete for administrators only; operations that need a fresh
    second factor, only before the session's step-up has run out; and the handler
    of an account operation receives as [username] the address of an account that
    the caller may act on - its own, or for an administrator the named one -
    whatever the request said. *)
Theorem authorization_gate st now request spool s res s' operation :
  auth_store self = Some st → inv (w_db (h_auth s)) → w_closed (h_auth s) = false →
  reads st (h_auth s) now → dispatch self request spool s = (Ok res, s') →
  ok (response res) = true →
  find_operation (Protocol.operation request) ALLOWED_OPERATIONS = Some operation →
  op_permission operation ≠ PUBLIC →
  ∃ token session a p after records request' s1 h v s2,
    auth_token request = Some token ∧
    session ∈ sessions (w_db (h_auth s)) ∧ s_digest session = session_digest_of st token ∧
    a ∈ accounts (w_db (h_auth s)) ∧ a_id a = s_account session ∧
    now < s_absolute session ∧ now < s_last_seen session + 259200 ∧
    (m_list_accounts false (h_sys s)).1 = Ok records ∧
    active_record (find_account self (casefolded self (a_email a)) records) = true ∧
    (a_pw_required a = true → Protocol.operation request ∈ PASSWORD_CHANGE_OPERATIONS) ∧
    (is_admin_permission (op_permission operation) = true → a_role a = ADMIN) ∧
    authenticate_session st token (op_touch_session operation) (h_auth s) = (Ok p, after) ∧
    pr_account p = a_id a ∧ pr_role p = a_role a ∧
    (op_step_up operation = true → ∃ now2, reads st after now2 ∧ now2 < s_step_up session) ∧
    (is_account_permission (op_permission operation) = true →
     bound_to operation p (accounts (w_db (h_auth s1))) (params request) (params request')) ∧
    find_handler (op_method operation) (handlers self) = Some h ∧
    h request' spool (with_context (Some p) (h_auth_audit s1) s1) = (Ok v, s2) ∧
    h_auth s' = h_auth s2 ∧ h_fs s' = h_fs s2 ∧ h_sys s' = h_sys s2.
Proof.
  intros Hst Hi Hopen Hnow Hd Hok Hf Hp. apply dispatch_cases in Hd
    as [(c & m & Hn & Hc & Hm & Hr & Ho)|(o & s1 & [Hf' Hsh] & -> & [(res' & [= <-] & Hr)|(e & s2 & Hr & Hj & Ho)])].
  - apply reject_not_ok in Hr. congruence.
  - rewrite Hf in Hf'. injection Hf' as <-.
    apply run_operation_ok in Hr as (request' & po & s3 & h & v & s4 & Ha & Hh & Hv & _ & _ & _ & _ & _ & E1 & E2 & E3 & _).
    apply (authorize_ok st) in Ha as (p & -> & [token after records Ht Hau Hl Hact Hpw Hadm Hfr Htg Hrq Hfs]); [|done..].
    change (h_auth (started request spool s)) with (h_auth s) in *.
    change (h_sys (started request spool s)) with (h_sys s) in *.
    pose proof (authenticated_session st _ now token _ p after Hi Hopen Hnow Hau)
      as (session & a & Hin & Hdg & Hain & Haid & Hlt1 & Hlt2 & Hpe & Hdb).
    exists token, session, a, p, after, records, request', s3, h, v, s4.
    split_and!; try done.
    + by rewrite Hl.
    + by rewrite Hpe in Hact.
    + intros Hreq. apply Hpw. by rewrite Hpe.
    + intros Hreq. specialize (Hadm Hreq). by rewrite Hpe in Hadm.
    + by rewrite Hpe.
    + by rewrite Hpe.
    + intros Hs. destruct (Hfr Hs) as (p' & w & Hr).
      eapply touched_step_up; try done; [|apply Hi].
      by apply (authenticate_session_keeps st token (op_touch_session operation) (w_db (h_auth s)) Hi (h_auth s) (Ok p) after eq_refl).
  - destruct (reject_with request e s2) as [[x|x] s3] eqn:Er; [|by injection Hj].
    injection Hj as -> ->. unfold reject_with in Er. destruct (_safe_error e) as [c m].
    apply reject_not_ok in Er. congruence.
Qed.

(** *** Refusals *)

(** Steps that touch the authentication database and the request's own fields. *)
Definition quiet {A} (m : H A) : Prop :=
  ∀ s, h_fs (m s).2 = h_fs s ∧ h_sys (m s).2 = h_sys s ∧ h_open (m s).2 = h_open s.

Lemma inert_bind {A B} (m : H A) (f : A → H B) : quiet m → (∀ a, quiet (f a)) → quiet (m ≫= f).
Proof.
  intros Hm Hf s. unfold mbind, eff_mbind, eff_bind. specialize (Hm s).
  destruct (m s) as [[a|e] s1]; [|done]. destruct (Hf a s1) as (-> & -> & ->). done.
Qed.
Lemma quiet_auth {A} (m : M A) : quiet (on_auth m).
Proof. intros s. unfold on_auth. by destruct (m (h_auth s)). Qed.
Lemma quiet_pure {A} (r : result exc A) : quiet (lift r).
Proof. done. Qed.
Lemma inert_throw {A} e : quiet (A := A) (throw e).
Proof. done. Qed.
Lemma inert_ret {A} (a : A) : quiet (mret a).
Proof. done. Qed.
Lemma inert_require b e : quiet (require b e).
Proof. by destruct b. Qed.
Lemma quiet_field k v : quiet (set_field k v).
Proof. done. Qed.
Lemma quiet_catch {A} (m : H A) h : quiet m → (∀ e k, h e = Some k → quiet k) → quiet (catch m h).
Proof.
  intros Hm Hh s. unfold catch. specialize (Hm s). destruct (m s) as [[a|e] s1]; [done|].
  destruct (h e) as [k|] eqn:E; [|done]. destruct (Hh e k E s1) as (-> & -> & ->). done.
Qed.

Create HintDb quiet.
#[local] Hint Resolve quiet_auth quiet_pure inert_throw inert_ret inert_require quiet_field : quiet.
Ltac quiet := repeat (first [apply inert_bind; [|intros ?] | case_match | progress eauto with quiet]).

Lemma quiet_target st operation name p given : quiet (target_params st operation name p given).
Proof. unfold target_params. quiet. Qed.

Lemma quiet_fresh st token : quiet (require_fresh st token).
Proof.
  unfold require_fresh. apply quiet_catch; [quiet|]. intros e k. destruct e; try done; intros [= <-]; quiet.
Qed.
#[local] Hint Resolve quiet_target quiet_fresh : quiet.

(** Nothing but the account list of the mail server is read. *)
Definition listed_once s s' : Prop :=
  h_fs s' = h_fs s ∧ h_open s' = h_open s ∧
  (h_sys s' = h_sys s ∨ h_sys s' = (m_list_accounts false (h_sys s)).2).

Definition lists {A} (m : H A) : Prop := ∀ s, listed_once s (m s).2.

Lemma lists_quiet {A} (m : H A) : quiet m → lists m.
Proof. intros Hm s. destruct (Hm s) as (E1 & E2 & E3). split_and!; auto. Qed.
Lemma lists_after {A B} (m : H A) (f : A → H B) : quiet m → (∀ a, lists (f a)) → lists (m ≫= f).
Proof.
  intros Hm Hf s. unfold mbind, eff_mbind, eff_bind. specialize (Hm s).
  destruct (m s) as [[a|e] s1]; destruct Hm as (E1 & E2 & E3).
  - destruct (Hf a s1) as (F1 & F2 & F3). simpl in E1, E2, E3. rewrite E1 in F1. rewrite E2 in F3. rewrite E3 in F2.
    by split_and!.
  - simpl in *. split_and!; auto.
Qed.
Lemma lists_before {A B} (m : H A) (f : A → H B) : lists m → (∀ a, quiet (f a)) → lists (m ≫= f).
Proof.
  intros Hm Hf s. unfold mbind, eff_mbind, eff_bind. specialize (Hm s).
  destruct (m s) as [[a|e] s1]; [|done]. destruct Hm as (E1 & E2 & E3).
  destruct (Hf a s1) as (F1 & F2 & F3). split_and!; [by rewrite F1|by rewrite F3|by rewrite F2].
Qed.

Lemma lists_active st p : lists (_require_active_principal self st p).
Proof.
  unfold _require_active_principal, _maddy_account. apply lists_before; [|intros o; quiet].
  apply lists_before; [|intros o; quiet]. intros s. unfold on_sys.
  destruct (m_list_accounts false (h_sys s)) as [r x] eqn:E. split_and!; simpl; auto. right. by rewrite E.
Qed.

Lemma lists_authorize request operation touch : lists (_authorize_request self request operation touch).
Proof.
  unfold _authorize_request. destruct (auth_store self) as [st|]; [|apply lists_quiet; quiet].
  destruct (bool_decide _); [apply lists_quiet; quiet|].
  destruct (auth_token request) as [token|]; [|apply lists_quiet; quiet].
  do 3 (apply lists_after; [quiet|intros ?]).
  apply lists_before; [apply lists_active|intros ?]. quiet.
Qed.

(** C21: a request that is refused - an unknown operation, the wrong shape, no
    valid session, the wrong role, no fresh second factor, another's account -
    reaches no handler: the answer is an error, the rule snapshots are as they
    were, and of the mail server nothing but the list of accounts was read. *)
Theorem refused_request_inert request spool s r s' :
  dispatch self request spool s = (r, s') →
  (∀ operation, admitted request spool operation →
   ∃ e s1, _authorize_request self request operation (op_touch_session operation)
             (started request spool s) = (Err e, s1)) →
  (∀ res, r = Ok res → ok (response res) = false) ∧ listed_once s s'.
Proof.
  intros Hd Hno. apply dispatch_cases in Hd
    as [(c & m & Hn & Hc & Hm & Hr & Ho)|(o & s1 & Had & -> & Hrun)].
  - destruct (audit_request c [] (started request spool s)) as [u_ s2] eqn:Ea.
    assert (s' = s2) as ->.
    { unfold fail_with, lift, mbind, eff_mbind, eff_bind in Hr. rewrite Ea in Hr.
      destruct u_ as [[]|]; by injection Hr as _ ->. }
    split.
    + intros res ->. by apply reject_not_ok in Hr.
    + injection Ea as _ <-. split_and!; auto.
  - destruct (Hno o Had) as (e0 & s2 & Ha).
    pose proof (lists_authorize request o (op_touch_session o) (started request spool s)) as Hl.
    rewrite Ha in Hl. unfold run_operation in Hrun. rewrite (eff_bind_fail _ _ _ _ _ Ha) in Hrun.
    destruct Hrun as [(res & _ & Hr)|(e & s3 & Hr & Hj & Ho)]; [done|].
    injection Hr as -> ->. unfold reject_with in Hj. destruct (_safe_error e) as [c m].
    split.
    + intros res ->. by apply reject_not_ok in Hj.
    + destruct (audit_request c [(u "error_type", JStr (type_name e))] s3) as [u_ s4] eqn:Ea.
      assert (s1 = s4) as ->.
      { unfold fail_with, lift, mbind, eff_mbind, eff_bind in Hj. rewrite Ea in Hj.
        destruct u_ as [[]|]; by injection Hj as _ ->. }
      by injection Ea as _ <-.
Qed.
End Specs.

(** * Selections of messages

    [_selected_message_uid_set] accepts exactly the comma-separated lists of 1 to
    50 distinct UIDs in their decimal form, and returns them as they are; the
    order in which a window of messages is looked at. *)

From S2P Require Import Prelude Text Errors Json JsonRound HelperBase.

#[local] Set Default Proof Using "Type*".

(** ** Decimal forms *)

Lemma int_of_digits_pos s c : forallb is_digit (c :: s) = true → c ≠ 48 → 1 ≤ int_of_digits (c :: s).
Proof.
  induction s as [|d s IH] using rev_ind; intros Hd Hc.
  - unfold int_of_digits, is_digit in *. simpl in *. lia.
  - rewrite app_comm_cons, int_of_digits_app. rewrite app_comm_cons, forallb_app in Hd.
    apply andb_true_iff in Hd as [Hd Hl]. specialize (IH Hd Hc). unfold is_digit in Hl. simpl in Hl. lia.
Qed.

Lemma digits_fuel_canonical fuel s c :
  forallb is_digit (c :: s) = true → c ≠ 48 → int_of_digits (c :: s) < 2 ^ Z.of_nat fuel →
  digits_fuel fuel (int_of_digits (c :: s)) = c :: s.
Proof.
  revert fuel. induction s as [|d s IH] using rev_ind; intros fuel Hd Hc Hlt.
  - pose proof (int_of_digits_pos [] c Hd Hc) as Hp.
    destruct fuel as [|fuel]; [simpl in Hlt; lia|]. cbn [forallb] in Hd. unfold is_digit in Hd.
    change (int_of_digits [c]) with (c - 48). cbn [digits_fuel].
    destruct (Z.ltb_spec (c - 48) 10); [f_equal; lia|lia].
  - rewrite app_comm_cons in Hd. rewrite forallb_app in Hd. apply andb_true_iff in Hd as [Hd Hl].
    pose proof (int_of_digits_pos s c Hd Hc) as Hp.
    rewrite app_comm_cons, int_of_digits_app in *. unfold is_digit in Hl. simpl in Hl.
    destruct fuel as [|fuel]; [simpl in Hlt; lia|]. cbn [digits_fuel].
    destruct (Z.ltb_spec (int_of_digits (c :: s) * 10 + (d - 48)) 10); [lia|].
    replace ((int_of_digits (c :: s) * 10 + (d - 48)) / 10) with (int_of_digits (c :: s))
      by (Z.to_euclidean_division_equations; lia).
    replace ((int_of_digits (c :: s) * 10 + (d - 48)) mod 10) with (d - 48)
      by (Z.to_euclidean_division_equations; lia).
    rewrite IH; [|done|done|rewrite Nat2Z.inj_succ, Z.pow_succ_r in Hlt by lia; lia].
    do 2 f_equal. lia.
Qed.

Lemma digits_canonical s c :
  forallb is_digit (c :: s) = true → c ≠ 48 → digits (int_of_digits (c :: s)) = c :: s.
Proof.
  intros Hd Hc. pose proof (int_of_digits_pos s c Hd Hc).
  apply digits_fuel_canonical; [done|done|].
  rewrite Nat2Z.inj_succ, Z2Nat.id by apply Z.log2_nonneg. apply Z.log2_spec. lia.
Qed.

Lemma digits_fuel_short fuel n : (length (digits_fuel fuel n) ≤ fuel)%nat.
Proof.
  revert n. induction fuel as [|fuel IH]; intros n; simpl; [lia|].
  case_match; simpl; [lia|]. rewrite length_app. simpl. specialize (IH (n / 10)). lia.
Qed.

Definition uid_ok (uid : Z) : Prop := 1 ≤ uid ≤ UID_LIMIT.

Lemma uid_text uid : uid_ok uid →
  str_of_int uid = digits uid ∧ match_plus is_digit (digits uid) = true ∧
  starts_with [48] (digits uid) = false ∧ zlen (digits uid) ≤ 33 ∧
  int_of_digits (digits uid) = uid ∧ 44 ∉ digits uid.
Proof.
  intros [Hlo Hhi]. assert (str_of_int uid = digits uid) as Hs.
  { unfold str_of_int. by replace (uid <? 0) with false by lia. }
  destruct (digits_spec uid) as [Hi Hd]; [lia|].
  destruct (digits_head uid) as (c & r & Hh & Hc); [lia|]. split_and!; [done| | | |done|].
  - unfold match_plus. rewrite Hd, bool_decide_false by (by rewrite Hh). done.
  - rewrite Hh. cbn [starts_with]. by destruct (Z.eqb_spec 48 c); [lia|].
  - unfold digits, zlen. pose proof (digits_fuel_short (S (Z.to_nat (Z.log2 uid))) uid).
    assert (Z.log2 uid ≤ Z.log2 (2 ^ 32)) by (apply Z.log2_le_mono; unfold UID_LIMIT in Hhi; lia).
    rewrite Z.log2_pow2 in * by lia. pose proof (Z.log2_nonneg uid). lia.
  - intros Hin. rewrite forallb_forall in Hd. apply list_elem_of_In in Hin. specialize (Hd _ Hin).
    done.
Qed.

(** ** The selection *)

Lemma select_uids_ok seen items selected : select_uids seen items = Ok selected ↔
  ∃ uids, items = str_of_int <$> uids ∧ selected = items ∧ Forall uid_ok uids ∧ NoDup uids ∧
    Forall (λ uid, str_of_int uid ∉ seen) uids.
Proof.
  revert seen selected. induction items as [|item items IH]; intros seen selected; cbn [select_uids].
  - split; [intros [= <-]; exists []; split_and!; try done; constructor|].
    by intros (uids & Hu & -> & _).
  - split.
    + destruct (negb _ || _) eqn:E1; [done|]. apply orb_false_iff in E1 as [E1 Ez].
      apply negb_false_iff in E1. destruct (MAX_INT_DIGITS <? zlen item); [done|].
      destruct (negb _) eqn:E2; [done|]. apply negb_false_iff in E2.
      case_bool_decide as Hseen; [done|]. intros (rest & Hr & [= <-])%result_bind_ok.
      apply IH in Hr as (uids & -> & -> & Hok & Hnd & Hns).
      unfold match_plus in E1. apply andb_true_iff in E1 as [E1 Ed].
      apply negb_true_iff, bool_decide_eq_false in E1. destruct item as [|c item]; [done|].
      assert (c ≠ 48) by (intros ->; simpl in Ez; done).
      assert (Hitem : str_of_int (int_of_digits (c :: item)) = c :: item).
      { unfold str_of_int. replace (_ <? 0) with false by lia. by apply digits_canonical. }
      exists (int_of_digits (c :: item) :: uids). cbn [fmap list_fmap]. rewrite Hitem in *.
      split_and!; [done|done| | |].
      * constructor; [unfold uid_ok; lia|done].
      * constructor; [|done]. intros Hin. rewrite Forall_forall in Hns. apply (Hns _ Hin).
        rewrite Hitem. left.
      * constructor; [by rewrite Hitem|]. eapply Forall_impl; [exact Hns|].
        intros uid Hn Hs. apply Hn. by right.
    + intros (uids & Hu & -> & Hok & Hnd & Hns). destruct uids as [|uid uids]; [done|].
      injection Hu as -> ->. apply Forall_cons in Hok as [Hu Hok].
      apply NoDup_cons in Hnd as [Hni Hnd]. apply Forall_cons in Hns as [Hs Hns].
      destruct (uid_text uid Hu) as (Ht & H1 & H2 & H3 & H4 & _). rewrite Ht in *.
      rewrite H1, H2. simpl. replace (MAX_INT_DIGITS <? _) with false by (unfold MAX_INT_DIGITS; lia).
      rewrite H4. destruct Hu as [Hlo Hhi].
      replace ((1 <=? uid) && (uid <=? UID_LIMIT)) with true by lia. simpl.
      rewrite Ht, bool_decide_false by done.
      rewrite (proj2 (IH (digits uid :: seen) (str_of_int <$> uids))); [done|].
      exists uids. split_and!; try done. apply Forall_forall. intros v Hv.
      rewrite Forall_forall in Hns, Hok. intros [Heq|Hin]%elem_of_cons; [|by apply (Hns v Hv)].
      destruct (uid_text v (Hok v Hv)) as (Hvt & _ & _ & _ & Hvi & _). rewrite Hvt in Heq.
      assert (v = uid) by congruence. by subst v.
Qed.

(** A selection is accepted exactly when it is the comma-separated decimal
    form of 1 to 50 distinct UIDs between 1 and 2^32 - 1, and is passed on as it
    is: a bulk deletion or move hands the mail server such a list and nothing else. *)
Theorem selected_uids_spec value text :
  _selected_message_uid_set value = Ok text ↔
  ∃ uids, value = JStr text ∧ text = join [44] (str_of_int <$> uids) ∧
    1 ≤ zlen uids ≤ 50 ∧ NoDup uids ∧ Forall uid_ok uids.
Proof.
  unfold _selected_message_uid_set. split.
  - destruct value as [| | | | s | |]; try done. destruct (negb _) eqn:E; [done|].
    apply negb_false_iff in E. intros (sel & Hs & [= <-])%result_bind_ok.
    apply select_uids_ok in Hs as (uids & Hu & -> & Hok & Hnd & _). exists uids.
    rewrite Hu in E. rewrite zlen_fmap in E. rewrite <-Hu, join_split. split_and!; try done; lia.
  - intros (uids & -> & -> & Hl & Hnd & Hok).
    assert (Hsplit : split_char 44 (join [44] (str_of_int <$> uids)) = str_of_int <$> uids).
    { apply split_join.
      - destruct uids; [unfold zlen in Hl; simpl in Hl; lia|done].
      - apply Forall_fmap. eapply Forall_impl; [exact Hok|]. intros uid Hu.
        destruct (uid_text uid Hu) as (E & _ & _ & _ & _ & Hn). simpl. by rewrite E. }
    rewrite Hsplit, zlen_fmap. replace (negb _) with false by lia.
    rewrite (proj2 (select_uids_ok [] _ (str_of_int <$> uids))); [done|].
    exists uids. split_and!; try done. apply Forall_forall. intros v _. apply not_elem_of_nil.
Qed.
