(* ===== verification/HelperProgress.v ===== *)
(** * Runs end

    A run of existing mail is advanced by one step per request.  A step either
    ends the run or takes the cursor of its current mailbox at least a batch
    further down, so a bounded number of steps ends it; the bound is computed from
    the stored state. *)

From S2P Require Import Prelude Text Errors Json JsonRound JsonText RuleDoc RuleMessage RuleEval Sql AuthDb AuthCore AuthStore AuthPasskey AuthRules AuthWp AuthInv AuthSafe AuthSafeRules AuthRun AuthRuleSpecs Protocol Smtp HelperBase HelperAuthz HelperAccounts HelperRules HelperRuns.

#[local] Set Default Proof Using "Type*".

(** ** The order of a window *)

Definition descending {A} (x y : Z * A) : Prop := y.1 ≤ x.1.

Lemma insert_descending_perm {A} (x : Z * A) l : insert_descending x l ≡ₚ x :: l.
Proof.
  induction l as [|y l IH]; [done|]. cbn [insert_descending]. case_match; [done|].
  rewrite IH. apply Permutation_swap.
Qed.

Lemma insert_descending_sorted {A} (x : Z * A) l :
  StronglySorted descending l → StronglySorted descending (insert_descending x l).
Proof.
  induction 1 as [|y l Hs IH Hall]; cbn [insert_descending]; [by repeat constructor|].
  unfold descending in *. destruct (Z.leb_spec y.1 x.1).
  - constructor; [by constructor|]. constructor; [done|].
    eapply Forall_impl; [exact Hall|]. simpl. lia.
  - constructor; [done|]. rewrite insert_descending_perm. constructor; [lia|done].
Qed.

Lemma sort_descending_perm {A} (l : list (Z * A)) : foldr insert_descending [] l ≡ₚ l.
Proof. induction l as [|x l IH]; [done|]. simpl. by rewrite insert_descending_perm, IH. Qed.

Lemma sort_descending_sorted {A} (l : list (Z * A)) :
  StronglySorted descending (foldr insert_descending [] l).
Proof. induction l; simpl; [constructor|by apply insert_descending_sorted]. Qed.

Lemma sort_by_uid_ok records ordered :
  sort_by_uid records = Ok ordered →
  ∃ keyed, ordered = keyed.*2 ∧ StronglySorted descending keyed ∧ ordered ≡ₚ records ∧
    Forall (λ kr, uid_key kr.2 = Ok kr.1) keyed.
Proof.
  unfold sort_by_uid. intros (keyed & Hk & [= <-])%result_bind_ok.
  assert (Hall : Forall (λ kr, uid_key kr.2 = Ok kr.1) keyed ∧ keyed.*2 = records).
  { revert keyed Hk. induction records as [|r records IH]; intros keyed Hk.
    - by injection Hk as <-.
    - cbn [result_map] in Hk. apply result_bind_ok in Hk as ([k r'] & Hr & Hk).
      apply result_bind_ok in Hr as (k' & Hr & [= <- <-]).
      apply result_bind_ok in Hk as (rest & Hrest & [= <-]). destruct (IH _ Hrest) as [Hf <-].
      split; [by constructor|done]. }
  destruct Hall as [Hall Hr]. exists (foldr insert_descending [] keyed).
  split_and!; [done|apply sort_descending_sorted| |by rewrite sort_descending_perm].
  rewrite <-Hr. apply fmap_Permutation, sort_descending_perm.
Qed.

Lemma window_uids_ok seen records uids :
  window_uids seen records = Ok uids →
  Forall2 (λ r uid, valid_uid r = Some uid) records uids ∧ NoDup uids ∧ (∀ uid, uid ∈ uids → uid ∉ seen).
Proof.
  revert seen uids. induction records as [|r records IH]; intros seen uids H; cbn [window_uids] in H.
  - injection H as <-. split_and!; [constructor|constructor|by intros ? ?%elem_of_nil].
  - destruct (valid_uid r) as [uid|] eqn:Hv; [|done].
    case_bool_decide as Hseen; [done|]. apply result_bind_ok in H as (rest & Hrest & [= <-]).
    destruct (IH _ _ Hrest) as (Hf & Hnd & Hns). split_and!; [by constructor| |].
    + constructor; [|done]. intros Hin. apply (Hns uid Hin). left.
    + intros v [->|Hv']%elem_of_cons; [done|]. intros Hs. apply (Hns v Hv'). by right.
Qed.

Lemma valid_uid_key r uid : valid_uid r = Some uid → uid_key r = Ok uid ∧ 1 ≤ uid ≤ UID_LIMIT.
Proof.
  unfold valid_uid, uid_key, key. destruct (obj_get _ r) as [[]|]; try done. simpl.
  case_match; [|done]. intros [= ->]. split; [done|lia].
Qed.

(** The UIDs of a window that passed the checks, newest first. *)
Lemma window_order records ordered uids :
  sort_by_uid records = Ok ordered → window_uids [] ordered = Ok uids →
  StronglySorted (λ x y, y < x) uids ∧
  ∀ uid, uid ∈ uids → 1 ≤ uid ∧ ∃ r, r ∈ records ∧ valid_uid r = Some uid.
Proof.
  intros (keyed & -> & Hs & Hp & Hk)%sort_by_uid_ok (Hf & Hnd & _)%window_uids_ok.
  split.
  - clear Hp. revert uids Hf Hnd. induction Hs as [|x keyed Hs IH Hall]; intros uids Hf Hnd.
    + apply Forall2_nil_inv_l in Hf as ->. constructor.
    + apply Forall_cons in Hk as [Hkx Hk]. cbn [fmap list_fmap] in Hf.
      apply Forall2_cons_inv_l in Hf as (uid & rest & Hv & Hf & ->).
      apply NoDup_cons in Hnd as [Hni Hnd]. constructor; [by apply IH|].
      apply valid_uid_key in Hv as [Hv _]. rewrite Hkx in Hv. injection Hv as <-.
      rewrite Forall_forall. intros v Hin.
      apply list_elem_of_lookup in Hin as [i Hi].
      destruct (Forall2_lookup_r _ _ _ _ _ Hf Hi) as (r & Hr & Hv).
      apply list_lookup_fmap_Some in Hr as (y & -> & Hy).
      apply valid_uid_key in Hv as [Hv _].
      rewrite Forall_lookup in Hk. pose proof (Hk _ _ Hy) as Hky. rewrite Hky in Hv. injection Hv as <-.
      rewrite Forall_lookup in Hall. pose proof (Hall _ _ Hy) as Hle. unfold descending in Hle.
      assert (y.1 ≠ x.1); [|lia]. intros Heq. apply Hni. rewrite <-Heq. by eapply list_elem_of_lookup_2.
  - intros uid [i Hi]%list_elem_of_lookup.
    destruct (Forall2_lookup_r _ _ _ _ _ Hf Hi) as (r & Hr & Hv). split.
    + by apply valid_uid_key in Hv as [_ [? _]].
    + exists r. split; [|done]. rewrite <-Hp. by eapply list_elem_of_lookup_2.
Qed.

Lemma strictly_descending l n c b :
  StronglySorted (λ x y, y < x) l → (∀ x, x ∈ l → x ≤ b) → l !! n = Some c → c ≤ b - Z.of_nat n.
Proof.
  intros Hs. revert n b. induction Hs as [|x l Hs IH Hall]; intros n b Hb Hn; [done|].
  destruct n as [|n]; simpl in Hn.
  - injection Hn as ->. specialize (Hb c ltac:(left)). lia.
  - assert (c ≤ (x - 1) - Z.of_nat n); [|specialize (Hb x ltac:(left)); lia].
    apply IH; [|done]. intros y Hy. rewrite Forall_forall in Hall. specialize (Hall y Hy). lia.
Qed.

Lemma next_cursor_below uids cursor :
  StronglySorted (λ x y, y < x) uids → (∀ uid, uid ∈ uids → 1 ≤ uid ≤ cursor) →
  let next := (split_window uids).2 in next = 0 ∨ 1 ≤ next ≤ cursor - _RULE_RUN_BATCH_SIZE.
Proof.
  intros Hs Hb. unfold split_window. simpl. destruct (uids !! batch) as [c|] eqn:Hc; [|by left].
  right. simpl. split; [by apply list_elem_of_lookup_2, Hb in Hc as [? _]|].
  apply (strictly_descending uids batch c cursor) in Hc; [|done|intros x Hx; by apply Hb].
  unfold batch, _RULE_RUN_BATCH_SIZE in *. lia.
Qed.

(** ** The state of a run as it is stored *)

Section Stored.
Context (self : helper) (st : store).
Notation casefolded := (casefolded self).

Definition text_name (s : run_source) : Prop := Forall (λ c, 0 ≤ c) (src_mailbox s).
Definition cursor_ok (s : run_source) : Prop := 0 ≤ src_cursor s ≤ UID_LIMIT.

Lemma readable_state sources index :
  Forall text_name sources → Forall cursor_ok sources → (index ≤ 64)%nat →
  readable (strict_hooks st) (state_json sources index).
Proof.
  intros Hn Hc Hi.
  assert (Hsources : foldr and True (readable (strict_hooks st) <$> (source_json <$> sources))).
  { induction sources as [|s sources IH]; [done|].
    apply Forall_cons in Hn as [Hn1 Hn]. apply Forall_cons in Hc as [Hc1 Hc].
    split; [|by apply IH]. unfold source_json. cbn [readable].
    split; [apply (bool_decide_unpack _); by vm_compute|]. split.
    { repeat constructor; apply (bool_decide_unpack _); by vm_compute. }
    cbn. split_and!; [exact Hn1| |done|done].
    apply default_int_small. unfold cursor_ok, UID_LIMIT in Hc1. lia. }
  unfold state_json. cbn [readable]. split; [apply (bool_decide_unpack _); by vm_compute|]. split.
  { repeat constructor; apply (bool_decide_unpack _); by vm_compute. }
  cbn [fmap list_fmap foldr fst snd readable]. split_and!; [exact Hsources| |done].
  apply default_int_small. lia.
Qed.

(** What is read back: the items in the order of their names. *)
Definition stored_source (s : run_source) : json :=
  JObj [(u "cursor", JInt (src_cursor s)); (u "done", JBool (src_done s));
        (u "mailbox", JStr (src_mailbox s))].

Lemma canon_source s : canon true (source_json s) = stored_source s.
Proof. reflexivity. Qed.

Lemma canon_state sources index :
  canon true (state_json sources index)
  = JObj [(u "mailbox_index", JInt (Z.of_nat index)); (u "mailboxes", JArr (stored_source <$> sources))].
Proof.
  transitivity (JObj [(u "mailbox_index", JInt (Z.of_nat index));
    (u "mailboxes", JArr (canon true <$> (source_json <$> sources)))]); [reflexivity|].
  rewrite <-list_fmap_compose. reflexivity.
Qed.

Lemma sources_of_stored seen sources r :
  sources_of_json self seen (stored_source <$> sources) = Ok r → r = sources ∧ Forall cursor_ok sources.
Proof.
  revert seen r. induction sources as [|[name cursor finished] sources IH]; intros seen r H.
  - injection H as <-. done.
  - cbn [fmap list_fmap sources_of_json] in H. apply result_bind_ok in H as (s & Hs & H).
    apply result_bind_ok in H as (rest & Hrest & [= <-]).
    unfold stored_source, source_of_json, src_mailbox, src_cursor, src_done in Hs.
    change (keys_are _ _) with true in Hs. cbn [negb] in Hs.
    change (key (u "mailbox") _) with (JStr name) in Hs. change (key (u "cursor") _) with (JInt cursor) in Hs.
    change (key (u "done") _) with (JBool finished) in Hs. cbn beta iota in Hs.
    destruct name as [|c name]; [done|]. case_match eqn:Hb; [done|]. injection Hs as <-.
    apply orb_false_iff in Hb as [[_ Hb]%orb_false_iff _].
    apply negb_false_iff, andb_true_iff in Hb as [Hb1 Hb2].
    destruct (IH _ _ Hrest) as [-> Hall]. split; [done|]. constructor; [|done].
    unfold cursor_ok. simpl. lia.
Qed.

(** The sources of a stored state that passes the checks are those stored. *)
Lemma validated_stored run sources index r :
  run_state run = canon true (state_json sources index) →
  _validated_rule_run_state self run = Ok r → r = (sources, index).
Proof.
  intros Hs. unfold _validated_rule_run_state. rewrite Hs, canon_state.
  change (keys_are _ _) with true. cbn [negb].
  change (key (u "mailboxes") _) with (JArr (stored_source <$> sources)).
  change (key (u "mailbox_index") _) with (JInt (Z.of_nat index)). cbn beta iota.
  case_match; [done|]. intros (l & [-> _]%sources_of_stored & [= <-])%result_bind_ok.
  by rewrite Nat2Z.id.
Qed.

Lemma validated_bounds run sources index :
  _validated_rule_run_state self run = Ok (sources, index) →
  Forall cursor_ok sources ∧ (length sources ≤ 64)%nat ∧ (index ≤ length sources)%nat.
Proof.
  unfold _validated_rule_run_state. destruct (run_state run) as [| | | | | |d]; try done.
  case_match; [done|]. destruct (key (u "mailboxes") d) as [| | | | |raws|]; try done.
  destruct (key (u "mailbox_index") d) as [| |i| | | |]; try done.
  case_match eqn:Hb; [done|]. intros (l & Hl & [= <- <-])%result_bind_ok.
  apply orb_false_iff in Hb as [Hb1 Hb2]. apply negb_false_iff, andb_true_iff in Hb2 as [Hb2 Hb3].
  assert (length l = length raws ∧ Forall cursor_ok l) as [Hlen Hall].
  { revert Hl. generalize (@nil (list Z)). clear. revert l.
    induction raws as [|raw raws IH]; intros l seen Hl; [by injection Hl as <-|].
    cbn [sources_of_json] in Hl. apply result_bind_ok in Hl as (s & Hs & Hl).
    apply result_bind_ok in Hl as (rest & Hrest & [= <-]).
    destruct (IH _ _ Hrest) as [IHl Hall]. split; [simpl; lia|]. constructor; [|done].
    unfold source_of_json in Hs. destruct raw as [| | | | | |d]; try done. case_match; [done|].
    destruct (key (u "mailbox") d) as [| | | |[]| |]; try done.
    destruct (key (u "cursor") d); try done. destruct (key (u "done") d); try done.
    case_match eqn:Hb; [done|]. injection Hs as <-.
    apply orb_false_iff in Hb as [[_ Hb]%orb_false_iff _].
    apply negb_false_iff, andb_true_iff in Hb as [? ?]. unfold cursor_ok. simpl. lia. }
  unfold _MAX_RULE_RUN_MAILBOXES, zlen in *. split; [done|]. lia.
Qed.
End Stored.

(** ** The run in the database *)

Section Database.
Context (st : store).

(** The row of a run of an account, and the record it is read as. *)
Definition stored_run (acc rid : list Z) (run : MailRuleRun) (d : db) : Prop :=
  ∃ row, row ∈ mail_runs d ∧ run_at acc rid row ∧ _mail_rule_run_from_row st row = Ok run.

Lemma stored_run_unique acc rid run run' d :
  inv d → stored_run acc rid run d → stored_run acc rid run' d → run = run'.
Proof.
  intros [Hw _] (row & Hrow & Hat & Hr) (row' & Hrow' & Hat' & Hr').
  pose proof (run_row_unique d acc rid row Hw Hrow Hat) as E.
  rewrite (run_row_unique d acc rid row' Hw Hrow' Hat') in E. congruence.
Qed.

Lemma run_from_row_id row run : _mail_rule_run_from_row st row = Ok run → run_id run = ru_id row.
Proof.
  unfold _mail_rule_run_from_row, validate_hex32. intros (i & Hi & H)%result_bind_ok.
  destruct (is_hex32 (ru_id row)); [|done]. injection Hi as <-.
  do 4 (apply result_bind_ok in H as (? & _ & H)). by injection H as <-.
Qed.

Lemma get_stored acc rid w run w' :
  get_mail_rule_run st acc rid w = (Ok run, w') →
  stored_run acc rid run (w_db w) ∧ w_db w' = w_db w ∧ run_id run = rid.
Proof.
  intros H. pose proof (readonly_inv_ok _ _ _ _ (readonly_get_run st acc rid) H) as Hdb.
  unfold get_mail_rule_run in H.
  apply bind_inv_ok in H as (? & w1 & (_ & -> & ->)%hex32_inv_ok & H).
  apply bind_inv_ok in H as (? & w2 & (_ & -> & ->)%hex32_inv_ok & H).
  apply bind_inv_ok in H as (o & w3 & Hq & H).
  unfold locked in Hq. apply bind_inv_ok in Hq as (? & w4 & Ho & [-> ->]%query_inv_ok).
  unfold _require_open in Ho. destruct (w_closed w); [done|]. injection Ho as _ <-.
  destruct (lookup_where _ _) as [row|] eqn:Hl; [|done].
  apply lookup_where_Some in Hl as [Hat Hrow]. apply lift_inv_ok in H as [Hr _].
  split_and!; [by exists row|done|]. rewrite (run_from_row_id _ _ Hr). apply Hat.
Qed.

Lemma update_stored acc rid state status sc m v f e w run w' :
  inv (w_db w) →
  update_mail_rule_run st acc rid state status sc m v f e w = (Ok run, w') →
  inv (w_db w') ∧ stored_run acc rid run (w_db w') ∧ run_id run = rid ∧ run_status run = status ∧
  ∃ text, dumps true state = Some text ∧ loads (strict_hooks st) text = Some (run_state run).
Proof.
  intros Hi H. split; [exact (update_mail_rule_run_keeps st acc rid state status sc m v f e _ Hi _ _ _ eq_refl H)|].
  unfold update_mail_rule_run in H.
  apply bind_inv_ok in H as (? & w1 & (_ & -> & ->)%hex32_inv_ok & H).
  apply bind_inv_ok in H as (? & w2 & (_ & -> & ->)%hex32_inv_ok & H).
  apply bind_inv_ok in H as (? & w3 & [_ ->]%require_inv_ok & H).
  apply bind_inv_ok in H as (? & w4 & [_ ->]%require_inv_ok & H).
  apply bind_inv_ok in H as (text & w5 & [Ht ->]%lift_inv_ok & H).
  apply bind_inv_ok in H as (now & w6 & [_ [_ ->]]%now_inv_ok & H).
  apply bind_inv_ok in H as (o & w7 & Hb & H). apply transaction_inv_ok in Hb as [_ Hb].
  apply run_body_ok in Hb as (row & Hrow & Hat & _ & -> & Hdb); [|apply Hi].
  apply bind_inv_ok in H as (? & w8 & [<- ->]%ret_inv_ok & [Hr ->]%lift_inv_ok).
  destruct (run_from_row_ok st _ _ Hr) as (Hst & _ & _). split.
  { eexists. split; [|split; [|exact Hr]]; [|exact Hat]. rewrite Hdb. simpl.
    apply elem_of_update. exists row. split; [done|]. by rewrite decide_True. }
  split; [rewrite (run_from_row_id _ _ Hr); apply Hat|]. split; [done|].
  exists text. split.
  - unfold _canonical_json_object in Ht. destruct state; try done.
    destruct (dumps true _); [|done]. destruct (utf8_encode _); [|done]. by case_match; [|done]; injection Ht as ->.
  - unfold _mail_rule_run_from_row in Hr.
    do 4 (apply result_bind_ok in Hr as (? & _ & Hr)).
    apply result_bind_ok in Hr as (state' & Hs & [= <-]). simpl in *.
    unfold _json_object_from_database in Hs. destruct (loads _ text) as [[]|]; try done. by injection Hs as <-.
Qed.
End Database.

(** ** One step *)

Section Progress.
Context {X : Type} `{!MaddyService X} (self : helper) (st : store) (account : account_row).
Context (username : json).
Notation H := (H X).
Notation acc := (a_id account).
Implicit Types (s : hstate X) (run : MailRuleRun).

(** The adapter's promise: a window asked for from a cursor holds no message
    above it. *)
Definition windows_descend : Prop :=
  ∀ mailbox limit cursor x records x', 0 < cursor →
    m_list_message_window username mailbox limit cursor x = (Ok records, x') →
    ∀ record uid, record ∈ records → valid_uid record = Some uid → uid ≤ cursor.

Notation database s := (w_db (h_auth s)).

Lemma wpf_auth {A} (m : M A) (Q : A → hstate X → Prop) (E : exc → hstate X → Prop) s :
  (∀ r w, m (h_auth s) = (r, w) →
     match r with Ok a => Q a (with_auth w s) | Err e => E e (with_auth w s) end) →
  wpf (on_auth m) Q E s.
Proof.
  intros Hm. unfold wpf, on_auth. destruct (m (h_auth s)) as [r w] eqn:E'.
  specialize (Hm r w eq_refl). by destruct r.
Qed.

Lemma wpf_sys {A} (m : eff X exc A) (Q : A → hstate X → Prop) (E : exc → hstate X → Prop) s :
  (∀ r x, m (h_sys s) = (r, x) →
     match r with Ok a => Q a (with_sys x s) | Err e => E e (with_sys x s) end) →
  wpf (on_sys m) Q E s.
Proof.
  intros Hm. unfold wpf, on_sys. destruct (m (h_sys s)) as [r w] eqn:E'.
  specialize (Hm r w eq_refl). by destruct r.
Qed.

(** Steps on the mail server only. *)
Definition same_database s (s' : hstate X) : Prop := database s' = database s.

Lemma matched_database compiled mailbox uids s :
  wpf (matched_uids self compiled username mailbox uids)
    (λ _, same_database s) (λ _, same_database s) s.
Proof.
  unfold same_database.
  assert (Hs : ∀ s', database s' = database s →
    wpf (matched_uids self compiled username mailbox uids)
      (λ _ s2, database s2 = database s) (λ _ s2, database s2 = database s) s'); [|by apply Hs].
  induction uids as [|uid uids IH]; intros s' Hs'; [done|]. cbn [matched_uids]. apply wpf_bind, wpf_sys.
  intros [raw|e] x _; [|done]. apply wpf_bind. eapply wpf_mono; [by apply IH|by auto|done].
Qed.

Lemma scan_window_progress compiled source s :
  windows_descend → 0 < src_cursor source →
  wpf (scan_window self compiled username source)
    (λ r s', same_database s s' ∧ (r.2 = 0 ∨ 1 ≤ r.2 ≤ src_cursor source - _RULE_RUN_BATCH_SIZE))
    (λ _, same_database s) s.
Proof.
  intros Hd Hc. unfold scan_window. apply wpf_bind, wpf_sys. intros [records|e] x Hw; [|done].
  destruct (_ <? zlen records); [done|]. apply wpf_bind, wpf_lift.
  destruct (sort_by_uid records) as [ordered|e] eqn:Hsort; [|done]. apply wpf_bind, wpf_lift.
  destruct (window_uids [] ordered) as [uids|e] eqn:Hu; [|done].
  destruct (window_order _ _ _ Hsort Hu) as [Hs Hb].
  pose proof (next_cursor_below uids (src_cursor source) Hs) as Hn.
  destruct (split_window uids) as [candidates next_cursor]. simpl in Hn.
  specialize (Hn ltac:(intros uid Hin; destruct (Hb uid Hin) as [? (r & Hr & Hv)];
    split; [done|]; by eapply Hd)).
  apply wpf_bind. eapply wpf_mono; [apply matched_database| |done].
  intros matched s1 Hs1. apply wpf_bind.
  assert (Hmove : wpf (if bool_decide (matched = []) then mret tt else
      selection ← lift (_selected_message_uid_set (JStr (join [44] matched)));
      on_sys (m_move_messages username (JStr (src_mailbox source)) selection
                (JStr (target_mailbox (rule compiled)))))
    (λ _ : unit, same_database s) (λ _, same_database s) s1).
  { case_bool_decide; [done|]. apply wpf_bind, wpf_lift. case_match; [|done].
    apply wpf_sys. by intros [] x1 _. }
  eapply wpf_mono; [exact Hmove| |done]. intros [] s2 Hs2. by split.
Qed.

(** Windows still to look at. *)
Definition batches (source : run_source) : Z :=
  (src_cursor source + _RULE_RUN_BATCH_SIZE - 1) / _RULE_RUN_BATCH_SIZE.
Definition windows_left (sources : list run_source) : Z := foldr (λ r n, batches r + n) 0 sources.

Lemma batches_nonneg source : 0 ≤ src_cursor source → 0 ≤ batches source.
Proof. intros. unfold batches, _RULE_RUN_BATCH_SIZE. Z.to_euclidean_division_equations; lia. Qed.

Lemma windows_left_nonneg sources : Forall cursor_ok sources → 0 ≤ windows_left sources.
Proof.
  induction 1 as [|r sources Hr _ IH]; [done|]. simpl. destruct Hr as [Hr _].
  apply batches_nonneg in Hr. lia.
Qed.

Lemma windows_left_set index cursor sources source :
  sources !! index = Some source → 0 < src_cursor source →
  cursor = 0 ∨ 1 ≤ cursor ≤ src_cursor source - _RULE_RUN_BATCH_SIZE →
  windows_left (set_source index cursor sources) < windows_left sources.
Proof.
  intros Hl Hc Hn. unfold set_source. revert index Hl.
  induction sources as [|r sources IH]; intros [|index] Hl; try done.
  - injection Hl as ->. simpl. unfold batches, _RULE_RUN_BATCH_SIZE in *. simpl.
    Z.to_euclidean_division_equations; lia.
  - change (alter ?f (S index) (r :: sources)) with (r :: alter f index sources).
    specialize (IH index Hl). unfold windows_left in *. cbn [foldr]. lia.
Qed.

(** A source whose cursor tells whether it is done, with a text as its name. *)
Definition good_source (source : run_source) : Prop :=
  text_name source ∧ src_done source = (src_cursor source =? 0).
Definition good_run run : Prop :=
  match _validated_rule_run_state self run with
  | Ok (sources, _) => Forall good_source sources | Err _ => True end.
Definition steps_left run : Z :=
  match _validated_rule_run_state self run with
  | Ok (sources, _) => windows_left sources | Err _ => 0 end.

Lemma steps_left_stored run sources index :
  run_state run = canon true (state_json sources index) → Forall good_source sources →
  Forall cursor_ok sources → good_run run ∧ steps_left run ≤ windows_left sources.
Proof.
  intros Hs Hg Hc. unfold good_run, steps_left.
  destruct (_validated_rule_run_state self run) as [r|e] eqn:Hv.
  - by rewrite (validated_stored self run sources index r Hs Hv).
  - split; [done|]. by apply windows_left_nonneg.
Qed.

Lemma save_run_stored run sources index status sc mv fl err s :
  inv (database s) → Forall text_name sources → Forall cursor_ok sources → (index ≤ 64)%nat →
  wpf (save_run (X := X) st account run sources index status sc mv fl err)
    (λ run' s', inv (database s') ∧ stored_run st acc (run_id run) run' (database s') ∧
       run_id run' = run_id run ∧ run_status run' = status ∧
       run_state run' = canon true (state_json sources index))
    (λ _ _, True) s.
Proof.
  intros Hi Hn Hc Hx. unfold save_run. apply wpf_auth. intros [run'|e] w Hu; [|done].
  apply update_stored in Hu as (Hi' & Hst & Hid & Hstat & text & Hd & Hl); [|done].
  split_and!; [done|done|done|done|].
  pose proof (loads_dumps (strict_hooks st) true unique_pairs_dict (state_json sources index) text (readable_state st _ _ Hn Hc Hx) Hd) as E.
  rewrite Hl in E. by injection E.
Qed.

(** What a step may leave: a final run, or one with fewer windows left. *)
Definition progressed (n : Z) (rid : list Z) run s : Prop :=
  inv (database s) ∧ stored_run st acc rid run (database s) ∧
  (final_status (run_status run) = true ∨ good_run run ∧ steps_left run < n).

Lemma save_final run sources index status sc mv fl err n s :
  final_status status = true →
  inv (database s) → Forall text_name sources → Forall cursor_ok sources → (index ≤ 64)%nat →
  wpf (save_run (X := X) st account run sources index status sc mv fl err)
    (progressed n (run_id run)) (λ _ _, True) s.
Proof.
  intros Hf Hi Hn Hc Hx. eapply wpf_mono; [by apply save_run_stored| |done].
  intros run' s' (? & ? & _ & Hst & _). split_and!; [done|done|]. left. by rewrite Hst.
Qed.

Lemma set_source_good index cursor sources :
  0 ≤ cursor ≤ UID_LIMIT → Forall good_source sources → Forall cursor_ok sources →
  Forall good_source (set_source index cursor sources) ∧
  Forall cursor_ok (set_source index cursor sources).
Proof.
  intros Hc Hg Ho. unfold set_source. split; apply Forall_alter; try done.
  by intros r _ [Hn _].
Qed.

Lemma leading_done_spec l source : l !! leading_done l = Some source → src_done source = false.
Proof.
  induction l as [|r l IH]; [done|]. cbn [leading_done]. destruct (src_done r) eqn:E; [apply IH|].
  by intros [= <-].
Qed.

Lemma leading_done_length l : (leading_done l ≤ length l)%nat.
Proof. induction l as [|r l IH]; simpl; [lia|]. case_match; lia. Qed.

Lemma skip_done_spec sources index source :
  sources !! skip_done sources index = Some source → src_done source = false.
Proof. unfold skip_done. rewrite <-lookup_drop. apply leading_done_spec. Qed.

Lemma skip_done_length sources index :
  (index ≤ length sources)%nat → (skip_done sources index ≤ length sources)%nat.
Proof.
  intros Hi. unfold skip_done. pose proof (leading_done_length (drop index sources)) as Hl.
  rewrite length_drop in Hl. lia.
Qed.

Lemma step_source_progress run compiled sources index source s :
  windows_descend → inv (database s) → Forall good_source sources → Forall cursor_ok sources →
  (length sources ≤ 64)%nat → sources !! index = Some source → src_done source = false →
  wpf (step_source self st account username run compiled sources index source)
    (progressed (windows_left sources) (run_id run)) (λ _ _, True) s.
Proof.
  intros Hd Hi Hg Ho Hlen Hl Hdone. pose proof (lookup_lt_Some _ _ _ Hl) as Hlt.
  assert (Hn : Forall text_name sources) by (eapply Forall_impl; [exact Hg|by intros ? []]).
  assert (Hs : good_source source ∧ cursor_ok source)
    by (split; [by eapply (Forall_lookup_1 _ _ _ _ Hg)|by eapply (Forall_lookup_1 _ _ _ _ Ho)]).
  destruct Hs as [[_ Hsd] Hsc]. unfold cursor_ok in Hsc.
  assert (Hpos : 0 < src_cursor source) by (rewrite Hdone in Hsd; lia).
  unfold step_source. apply wpf_bind.
  eapply (wpf_mono _ (λ o s', same_database s s' ∧
    match o with
    | inl (_, _, next) => next = 0 ∨ 1 ≤ next ≤ src_cursor source - _RULE_RUN_BATCH_SIZE
    | inr _ => True end) _ (λ _ _, True)).
  - pose proof (scan_window_progress compiled source s Hd Hpos) as Hscan.
    unfold wpf, catch, mbind, eff_mbind, eff_bind in *.
    destruct (scan_window _ _ _ _ s) as [[[[scanned moved] next]|e] s1]; [done|].
    destruct (catches [MaddyError] e); [by split|done].
  - intros [[[scanned moved] next]|e] s1 [Hs1 Hnext].
    + unfold _RULE_RUN_BATCH_SIZE in Hnext.
      destruct (set_source_good index next sources) as [Hg' Ho']; [lia|done|done|].
      assert (Hlen' : length (set_source index next sources) = length sources) by apply length_alter.
      assert (Hx : (next_index (set_source index next sources) index next ≤ length sources)%nat).
      { unfold next_index. case_match; [|lia]. rewrite <-Hlen'. apply skip_done_length. lia. }
      cbv zeta. eapply wpf_mono; [apply save_run_stored; [by rewrite Hs1| |done|lia]| |done].
      { eapply Forall_impl; [exact Hg'|by intros ? []]. }
      intros run' s' (? & ? & _ & Hst & Hstate). split_and!; [done|done|]. right.
      destruct (steps_left_stored _ _ _ Hstate Hg' Ho') as [? ?]. split; [done|].
      pose proof (windows_left_set index next sources source Hl Hpos Hnext). lia.
    + apply save_final; [done|by rewrite Hs1|done|done|lia].
  - by intros.
Qed.

Lemma step_run_progress run s :
  windows_descend → inv (database s) → good_run run → stored_run st acc (run_id run) run (database s) →
  wpf (step_run self st account username run)
    (progressed (steps_left run) (run_id run)) (λ _ _, True) s.
Proof.
  intros Hd Hi Hg Hst. unfold step_run. apply wpf_bind, wpf_lift. unfold good_run, steps_left in *.
  destruct (_validated_rule_run_state self run) as [[sources index]|e] eqn:Hv; [|done].
  destruct (validated_bounds _ _ _ _ Hv) as (Ho & Hlen & Hx).
  assert (Hn : Forall text_name sources) by (eapply Forall_impl; [exact Hg|by intros ? []]).
  apply wpf_bind, wpf_lift. destruct (_compiled_rule_run self run) as [compiled|e]; [|done].
  apply wpf_bind. eapply (wpf_mono _ (λ run1 s1, inv (database s1) ∧ run_id run1 = run_id run) _
    (λ _ _, True)); [|intros run1 s1 [Hi1 Hid]|done].
  - case_bool_decide; [|done].
    eapply wpf_mono; [by apply save_run_stored; [| | |lia]|by intros ? ? (? & _ & ? & _)|done].
  - cbv zeta. pose proof (skip_done_length sources index Hx) as Hskip. rewrite <-Hid.
    destruct (sources !! skip_done sources index) as [source|] eqn:Hl.
    + apply step_source_progress; [done..|by eapply skip_done_spec].
    + apply save_final; [done..|lia].
Qed.

Lemma advance_progress rid run s :
  windows_descend → inv (database s) → good_run run → stored_run st acc rid run (database s) →
  wpf (advance_run self st account username rid) (progressed (steps_left run) rid) (λ _ _, True) s.
Proof.
  intros Hd Hi Hg Hst. unfold advance_run. apply wpf_bind, wpf_auth. intros [run'|e] w Hget; [|done].
  apply get_stored in Hget as (Hst' & Hdb & Hid).
  pose proof (stored_run_unique _ _ _ _ _ _ Hi Hst Hst') as <-.
  set (s1 := with_auth w s). assert (Hs1 : database s1 = database s) by exact Hdb.
  destruct (final_status (run_status run)) eqn:Hf.
  - split_and!; [by rewrite Hs1|by rewrite Hs1|by left].
  - rewrite <-Hid. apply step_run_progress; [done|by rewrite Hs1|done|]. by rewrite Hs1, Hid.
Qed.

(** ** All the steps *)

(** A client that asks for steps until the run is final. *)
Fixpoint drive (fuel : nat) (rid : list Z) s : option (result exc MailRuleRun * hstate X) :=
  match fuel with
  | O => None
  | S fuel =>
      match advance_run self st account username rid s with
      | (Ok run, s') => if final_status (run_status run) then Some (Ok run, s') else drive fuel rid s'
      | (Err e, s') => Some (Err e, s')
      end
  end.

Lemma steps_left_nonneg run : 0 ≤ steps_left run.
Proof.
  unfold steps_left. destruct (_validated_rule_run_state self run) as [[sources index]|e] eqn:Hv; [|done].
  by apply windows_left_nonneg, (validated_bounds _ _ _ _ Hv).
Qed.

(** C10: a run ends: asked for one step after another, it is final, or a step has raised,
    after at most as many steps as windows are left in its stored cursors, and
    one. *)
Theorem run_terminates rid run s :
  windows_descend → inv (database s) → stored_run st acc rid run (database s) → good_run run →
  ∃ r s', drive (S (Z.to_nat (steps_left run))) rid s = Some (r, s') ∧
    match r with Ok run' => final_status (run_status run') = true | Err _ => True end.
Proof.
  intros Hd. remember (Z.to_nat (steps_left run)) as n eqn:En. assert (Hle : (Z.to_nat (steps_left run) ≤ n)%nat) by lia.
  clear En. revert run s Hle. induction n as [|n IH]; intros run s Hle Hi Hst Hg;
    pose proof (advance_progress rid run s Hd Hi Hg Hst) as Ha; pose proof (steps_left_nonneg run);
    cbn [drive]; unfold wpf in Ha;
    destruct (advance_run self st account username rid s) as [[run'|e] s'];
    try (by eexists _, _); destruct (final_status (run_status run')) eqn:Hf; try (by eexists _, _).
  - destruct Ha as (_ & _ & [?|[_ ?]]); [congruence|]. pose proof (steps_left_nonneg run'). lia.
  - destruct Ha as (Hi' & Hst' & [?|[Hg' Hlt]]); [congruence|].
    apply (IH run' s'); [lia|done..].
Qed.
End Progress.
