(* ===== verification/HelperDelivery.v ===== *)
(** * What delivery reads is never stale

    Delivery files messages by the snapshot of an account's rules.  A handler that
    changes the rules first publishes an empty snapshot, so whatever fails then,
    the file is either empty or the rules of the database. *)

From S2P Require Import Prelude Text Errors Sql Json JsonText RuleDoc RuleMessage AuthDb AuthCore AuthStore AuthPasskey AuthRules AuthWp AuthInv AuthSafe AuthRun Protocol Fs Snapshots SnapshotSpecs Smtp HelperBase HelperAuthz HelperAccounts HelperRules.

#[local] Set Default Proof Using "Type*".

Section Delivery.
Context {X : Type} `{!MaddyService X} (self : helper) (st : store) (directory : list Z).
Notation H := (H X).
Implicit Types (s : hstate X) (a : account_row).

(** ** The rules of the database and the file *)

(** What [list_mail_rules] reads in a database. *)
Definition rules_of (d : db) (acc : list Z) : result exc (list MailRuleRecord) :=
  (list_mail_rules st acc (World d 0 0 false)).1.

Definition snapshot_is (a : account_row) (rules : list rule_mapping) (s : hstate X) : Prop :=
  ∃ target i, snapshot_name (a_email a) = Ok target ∧ file_at target (h_fs s) = Some i ∧
    build_snapshot (a_email a) rules = Ok (i_data i).

(** Delivery filing is off for the account. *)
Definition paused a s : Prop := snapshot_is a [] s.
(** The account's file holds the rules of the database. *)
Definition current a s : Prop :=
  ∃ rules, rules_of (w_db (h_auth s)) (a_id a) = Ok rules ∧ snapshot_is a (snapshot_record <$> rules) s.
Definition absent a s : Prop :=
  ∃ target, snapshot_name (a_email a) = Ok target ∧ file_at target (h_fs s) = None.
Definition fresh a s : Prop := paused a s ∨ current a s ∨ absent a s.

(** ** Steps that change neither *)

Definition looking {A} (m : H A) : Prop :=
  ∀ s, w_db (h_auth (m s).2) = w_db (h_auth s) ∧ h_fs (m s).2 = h_fs s.
Definition leaves_files {A} (m : H A) : Prop := ∀ s, h_fs (m s).2 = h_fs s.

Lemma fresh_same a s s' :
  w_db (h_auth s') = w_db (h_auth s) → h_fs s' = h_fs s → fresh a s → fresh a s'.
Proof. unfold fresh, paused, current, absent, snapshot_is. by intros -> ->. Qed.

Lemma wpf_leaves {A} (m : H A) s (P : hstate X → Prop) :
  leaves_files m → (∀ s', h_fs s' = h_fs s → P s') → wpf m (λ _, P) (λ _, P) s.
Proof. intros Hm HP. unfold wpf. specialize (Hm s). destruct (m s) as [[?|?] s']; by apply HP. Qed.

Lemma wpf_looking {A} (m : H A) s (P : hstate X → Prop) :
  looking m → (∀ s', w_db (h_auth s') = w_db (h_auth s) → h_fs s' = h_fs s → P s') →
  wpf m (λ _, P) (λ _, P) s.
Proof.
  intros Hm HP. unfold wpf. destruct (Hm s) as [H1 H2]. destruct (m s) as [[?|?] s']; by apply HP.
Qed.

Lemma looking_fresh {A} (m : H A) a s : looking m → fresh a s → wpf m (λ _, fresh a) (λ _, fresh a) s.
Proof. intros Hm Hs. apply wpf_looking; [done|]. intros s' H1 H2. by eapply fresh_same. Qed.

Lemma looking_bind {A B} (m : H A) (f : A → H B) : looking m → (∀ x, looking (f x)) → looking (m ≫= f).
Proof.
  intros Hm Hf s. unfold mbind, eff_mbind, eff_bind. destruct (Hm s) as [H1 H2].
  destruct (m s) as [[x|e] s1]; [|done]. destruct (Hf x s1) as [H3 H4]. simpl in *. by rewrite H3, H4.
Qed.
Lemma looking_ret {A} (x : A) : looking (mret x).
Proof. done. Qed.
Lemma looking_throw {A} e : looking (A := A) (throw e).
Proof. done. Qed.
Lemma looking_lift {A} (r : result exc A) : looking (lift r).
Proof. done. Qed.
Lemma looking_require b e : looking (require b e).
Proof. by destruct b. Qed.
Lemma looking_auth {A} (m : M A) : readonly m → looking (on_auth m).
Proof. intros Hm s. unfold on_auth. destruct (m (h_auth s)) as [r w] eqn:E. split; [by eapply Hm|done]. Qed.
Lemma looking_sys {A} (m : eff X exc A) : looking (on_sys m).
Proof. intros s. unfold on_sys. by destruct (m (h_sys s)). Qed.
Lemma looking_audit x o f : looking (audit x o f).
Proof. done. Qed.
Lemma leaves_auth {A} (m : M A) : leaves_files (on_auth m).
Proof. intros s. unfold on_auth. by destruct (m (h_auth s)). Qed.
Lemma leaves_lift {A} (r : result exc A) : leaves_files (lift r).
Proof. done. Qed.
Lemma leaves_ret {A} (x : A) : leaves_files (mret x).
Proof. done. Qed.
Lemma leaves_bind {A B} (m : H A) (f : A → H B) :
  leaves_files m → (∀ x, leaves_files (f x)) → leaves_files (m ≫= f).
Proof.
  intros Hm Hf s. unfold mbind, eff_mbind, eff_bind. specialize (Hm s).
  destruct (m s) as [[x|e] s1]; [|done]. by rewrite Hf.
Qed.

Lemma readonly_list_rules acc : readonly (list_mail_rules st acc).
Proof. unfold list_mail_rules. ro. Qed.
Lemma readonly_get_rule acc rid : readonly (get_mail_rule st acc rid).
Proof. unfold get_mail_rule. ro. Qed.
Lemma readonly_active_run acc : readonly (get_active_mail_rule_run st acc).
Proof. unfold get_active_mail_rule_run. ro. Qed.
Lemma readonly_get_account email : readonly (get_account email).
Proof. unfold get_account. ro. Qed.

Lemma list_rules_of acc w rules w' :
  list_mail_rules st acc w = (Ok rules, w') → rules_of (w_db w) acc = Ok rules.
Proof.
  intros H. unfold list_mail_rules in H.
  apply bind_inv_ok in H as (? & w1 & (Hx & -> & ->)%hex32_inv_ok & H).
  apply bind_inv_ok in H as (rows & w2 & Hrows & [Hr ->]%lift_inv_ok).
  unfold rules_of, list_mail_rules.
  rewrite (run_bind_ok _ _ _ acc (World (w_db w) 0 0 false)).
  2: { unfold _validate_account_id, _validate_hex32. by rewrite Hx. }
  rewrite run_bind.
  assert (E : (AuthDb.locked (_require_account_by_id_locked acc ;; query (account_rules acc)))
                (World (w_db w) 0 0 false) = (Ok rows, World (w_db w) 0 0 false)).
  { unfold AuthDb.locked, _require_open in *. apply bind_inv_ok in Hrows as (? & w3 & Ho & Hrows).
    destruct (w_closed w); [done|]. injection Ho as _ <-.
    apply bind_inv_ok in Hrows as (row & w4 & Hrow & [-> ->]%query_inv_ok).
    unfold _require_account_by_id_locked in *. apply bind_inv_ok in Hrow as (o & w5 & Hq & Hrow).
    unfold _account_row_by_id_locked in *. apply query_inv_ok in Hq as [-> ->].
    rewrite run_bind. cbn [w_closed]. rewrite run_bind, run_bind. unfold query, gets. cbn [w_db].
    destruct (lookup_where (λ r, a_id r = acc) (accounts (w_db w))); [|done].
    by injection Hrow as <- <-. }
  rewrite E. simpl. by rewrite Hr.
Qed.

(** ** Publishing *)

Context (Hdir : rule_snapshot_dir self = Some directory).

Lemma publish_step a rules s :
  fresh a s →
  wpf (publish self a rules)
    (λ _ s', w_db (h_auth s') = w_db (h_auth s) ∧ snapshot_is a rules s')
    (λ _ s', w_db (h_auth s') = w_db (h_auth s) ∧ (fresh a s' ∨ snapshot_is a rules s')) s.
Proof.
  intros Hs. unfold publish, in_snapshots. rewrite Hdir. apply wpf_bind.
  pose proof (publish_wpf (os self) directory (a_email a) rules (rule_snapshot_group_id self) (h_fs s)) as Hp.
  unfold wpf, on_fs in *.
  destruct (publish_snapshot _ _ _ _ _ (h_fs s)) as [[target|e] f].
  - simpl. split; [done|]. destruct Hp as (payload & Hb & Ht & [_ (i & Hi & Hd & _)]).
    exists target, i. by rewrite Hd.
  - split; [done|]. destruct Hp as [[Hn _]|(target & payload & Hb & Ht & [_ [Hold|(i & Hi & Hd)]])].
    + left. unfold fresh, current, paused, absent, snapshot_is, file_at in *. simpl. by rewrite Hn.
    + left. unfold fresh, current, paused, absent, snapshot_is in *. simpl.
      unfold target_old in Hold. destruct Hs as [Hs|[(rules' & Hr & Hs)|Hs]].
      * left. destruct Hs as (t & i & Ht' & Hs). rewrite Ht in Ht'. injection Ht' as <-.
        exists target, i. by rewrite Hold.
      * right; left. exists rules'. split; [done|]. destruct Hs as (t & i & Ht' & Hs).
        rewrite Ht in Ht'. injection Ht' as <-. exists target, i. by rewrite Hold.
      * right; right. destruct Hs as (t & Ht' & Hs). rewrite Ht in Ht'. injection Ht' as <-.
        exists target. by rewrite Hold.
    + right. exists target, i. by rewrite Hd.
Qed.

Lemma pause_step a s : fresh a s →
  wpf (_pause_mail_rule_delivery self a) (λ _, paused a) (λ _, fresh a) s.
Proof.
  intros Hs. eapply wpf_mono; [by apply publish_step|by intros ? ? [_ ?]|].
  intros e s' [_ [?|?]]; [done|by left].
Qed.

(** The rules of the database are published, or the file keeps its state. *)
Lemma publish_current_step a s : fresh a s →
  wpf (_publish_mail_rules self st a) (λ _, current a) (λ _, fresh a) s.
Proof.
  intros Hs. unfold _publish_mail_rules, in_snapshots. rewrite Hdir.
  unfold _mail_rule_snapshot_records. apply wpf_bind, wpf_bind.
  unfold wpf at 1, on_auth. destruct (list_mail_rules st (a_id a) (h_auth s)) as [[rules|e] w] eqn:El;
    pose proof (readonly_list_rules _ _ _ _ El) as Hdb; [|by eapply fresh_same].
  apply list_rules_of in El. apply wpf_ret.
  assert (Hs' : fresh a (with_auth w s)) by by eapply fresh_same.
  eapply wpf_mono; [by apply publish_step| |]; simpl; rewrite Hdb.
  - intros [] s' [Hw Hf]. exists rules. by rewrite Hw.
  - intros e s' [Hw [Hf|Hf]]; [done|]. right; left. exists rules. by rewrite Hw.
Qed.

Lemma publish_after_step a s : fresh a s →
  wpf (_publish_mail_rules_after_mutation self st a)
    (λ ready s', fresh a s' ∧ (ready = true → current a s')) (λ _, fresh a) s.
Proof.
  intros Hs. unfold _publish_mail_rules_after_mutation.
  pose proof (publish_current_step a s Hs) as Hp. unfold wpf, catch in *.
  unfold mbind, eff_mbind, eff_bind in *.
  destruct (_publish_mail_rules self st a s) as [[[]|e] s1]; [simpl; split; [by right; left|done]|].
  destruct (catches _ e); [|done]. simpl. split; [|done]. by eapply fresh_same.
Qed.

(** ** A change of the rules *)

(** What the answer says of delivery is true. *)
Definition told a (j : json) s : Prop :=
  fresh a s ∧ (member (u "delivery_ready") j = JBool true → current a s).

Lemma current_same a s s' :
  w_db (h_auth s') = w_db (h_auth s) → h_fs s' = h_fs s → current a s → current a s'.
Proof. unfold current, snapshot_is. by intros -> ->. Qed.

Lemma change_step {A} a (mutation : H A) (f : A → H json) (k : A → bool → H json) s :
  (∀ x, f x = (ready ← _publish_mail_rules_after_mutation self st a; k x ready)) →
  (∀ s, paused a s → wpf mutation (λ _, paused a) (λ _, fresh a) s) →
  (∀ x ready, looking (k x ready)) →
  (∀ x ready s j s', k x ready s = (Ok j, s') → member (u "delivery_ready") j = JBool ready) →
  fresh a s →
  wpf (_pause_mail_rule_delivery self a ≫= λ _, mutation ≫= f) (told a) (λ _, fresh a) s.
Proof.
  intros Hf0 Hmut Hk Hj Hs. apply wpf_bind. eapply wpf_mono; [by apply pause_step| |done].
  intros [] s1 H1. apply wpf_bind. eapply wpf_mono; [by apply Hmut| |done].
  intros x s2 H2. rewrite Hf0. apply wpf_bind.
  eapply wpf_mono; [by apply publish_after_step; left| |done].
  intros ready s3 [H3 Hready]. unfold wpf. destruct (Hk x ready s3) as [Hw Hf].
  destruct (k x ready s3) as [[j|e] s4] eqn:E; simpl in *; [|by eapply fresh_same].
  split; [by eapply fresh_same|]. rewrite (Hj _ _ _ _ _ E). intros [= ->].
  by eapply current_same; [| |apply Hready].
Qed.

Lemma mutation_step {A} a (m : H A) : leaves_files m →
  ∀ s, paused a s → wpf m (λ _, paused a) (λ _, fresh a) s.
Proof.
  intros Hm s Hs. assert (Hall : wpf m (λ _, paused a) (λ _, paused a) s).
  { apply wpf_leaves; [done|]. intros s' Hf. unfold paused, snapshot_is in *. by rewrite Hf. }
  eapply wpf_mono; [exact Hall|done|]. intros e s' Hp. by left.
Qed.
End Delivery.

Create HintDb looking.
#[export] Hint Resolve looking_ret looking_throw looking_lift looking_require looking_sys looking_audit
  leaves_auth leaves_lift leaves_ret : looking.
#[export] Hint Extern 1 (looking (on_auth _)) =>
  apply looking_auth; first [apply readonly_list_rules | apply readonly_get_rule
    | apply readonly_active_run | apply readonly_get_account] : looking.

(** Follows a computation to its primitive steps. *)
Ltac looking :=
  repeat first
    [ solve [eauto with looking nocore]
    | apply looking_bind; [|intros ?]
    | apply leaves_bind; [|intros ?]
    | progress cbv zeta
    | case_match ].

Section Handlers.
Context {X : Type} `{!MaddyService X} (self : helper) (st : store) (directory : list Z).
Context (Hdir : rule_snapshot_dir self = Some directory) (Hstore : auth_store self = Some st).
Notation H := (H X).
Implicit Types (s : hstate X) (a : account_row).

Lemma looking_target username target : looking (_require_rule_target (X := X) self username target).
Proof. unfold _require_rule_target. looking. Qed.
Lemma looking_sources username target seen records :
  looking (run_sources (X := X) self username target seen records).
Proof.
  revert seen. induction records as [|record records IH]; intros seen; [apply looking_ret|].
  cbn [run_sources]. looking.
Qed.
Hint Resolve looking_target looking_sources : looking.
Lemma looking_run_state username target : looking (_new_rule_run_state (X := X) self username target).
Proof. unfold _new_rule_run_state. looking. Qed.
Hint Resolve looking_run_state : looking.
Lemma looking_store e : looking (store_or (X := X) self e).
Proof. unfold store_or. rewrite Hstore. apply looking_ret. Qed.
Lemma looking_account username : looking (_rule_account (X := X) self username).
Proof. unfold _rule_account. apply looking_bind; [apply looking_store|intros _]. looking. Qed.

Lemma wpf_params {B} request required optional Q (E : exc → hstate X → Prop) (f : dict → H B) s :
  (∀ e, E e s) → wpf (f (params request)) Q E s →
  wpf (values ← lift (_params request required optional); f values) Q E s.
Proof.
  intros He Hf. apply wpf_bind, wpf_lift. unfold _params.
  destruct (negb _); [apply He|]. destruct (negb _); [apply He|done].
Qed.

(** Looking steps on the way to the account of the request, and after it. *)
Lemma before_change {A B} a (m : H A) (f : A → H B) Q s :
  looking m → fresh st a s → (∀ x s, fresh st a s → wpf (f x) Q (λ _, fresh st a) s) →
  wpf (m ≫= f) Q (λ _, fresh st a) s.
Proof.
  intros Hm Hs Hf. apply wpf_bind. eapply wpf_mono; [by apply looking_fresh| |done].
  intros x s'. apply Hf.
Qed.

Lemma at_account {B} a username (f : account_row → H B) Q s :
  (_rule_account self username s).1 = Ok a → fresh st a s →
  (∀ s, fresh st a s → wpf (f a) Q (λ _, fresh st a) s) →
  wpf (account ← _rule_account self username; f account) Q (λ _, fresh st a) s.
Proof.
  intros Ha Hs Hf. apply wpf_bind. unfold wpf at 1. destruct (looking_account username s) as [Hw Hfs].
  destruct (_rule_account self username s) as [r s1]. simpl in *. subst r. by apply Hf, (fresh_same _ _ s).
Qed.

Lemma at_store {B} (f : store → H B) Q E e s :
  wpf (f st) Q E s → wpf (self_store ← store_or self e; f self_store) Q E s.
Proof. intros Hf. apply wpf_bind. unfold store_or. by rewrite Hstore. Qed.

Lemma leaves_create account values expression target prepared :
  leaves_files (create_rule (X := X) st account values expression target prepared).
Proof. unfold create_rule. looking. Qed.

Lemma create_told request a s :
  (_rule_account self (key (u "username") (params request)) s).1 = Ok a → fresh st a s →
  wpf (_rules_create self request) (told st a) (λ _, fresh st a) s.
Proof using All.
  intros Ha Hs. unfold _rules_create. apply wpf_params; [done|]. apply wpf_bind, wpf_lift.
  destruct (as_bool _) as [existing|e]; [|done].
  apply (at_account a); [done..|]. clear s Ha Hs. intros s Hs. apply at_store.
  do 7 (apply (before_change a); [by looking|done|]; clear s Hs; intros ? s Hs).
  apply (change_step self st directory Hdir a _ _ (λ rr ready, mret (JObj
      ([(u "rule", JObj (_mail_rule_payload rr.1)); (u "delivery_ready", JBool ready)]
       ++ match rr.2 with Some run => [(u "run", JObj (_mail_rule_run_payload run))] | None => [] end))));
    [by intros []|..|exact Hs].
  - clear s Hs. intros s Hs. pose proof (leaves_create a (params request) x1 x2 x3 s) as Hf.
    unfold wpf, catch. destruct (create_rule _ _ _ _ _ _ s) as [[r|e] s1]; simpl in Hf.
    + unfold paused, snapshot_is in *. by rewrite Hf.
    + assert (Hs1 : fresh st a s1) by (left; unfold paused, snapshot_is in *; by rewrite Hf).
      pose proof (publish_after_step self st directory Hdir a s1 Hs1) as Hp. unfold wpf in Hp.
      unfold mbind, eff_mbind, eff_bind.
      destruct (_publish_mail_rules_after_mutation self st a s1) as [[ready|e'] s2]; [apply Hp|done].
  - intros [r run] ready. by looking.
  - intros [r run] ready s1 j s2 [= <- <-]. by destruct run.
Qed.

Lemma update_told request a s :
  (_rule_account self (key (u "username") (params request)) s).1 = Ok a → fresh st a s →
  wpf (_rules_update self request) (told st a) (λ _, fresh st a) s.
Proof using All.
  intros Ha Hs. unfold _rules_update. apply wpf_params; [done|]. apply wpf_bind, wpf_lift.
  destruct (supplied_revision _) as [supplied|e]; [|done].
  apply (at_account a); [done..|]. clear s Ha Hs. intros s Hs. apply at_store.
  do 7 (apply (before_change a); [by looking|done|]; clear s Hs; intros ? s Hs).
  refine (change_step self st directory Hdir a _ _ _ s (λ _, eq_refl) _ _ _ Hs).
  - apply mutation_step. unfold update_rule. looking.
  - intros r ready. looking.
  - by intros r ready s1 j s2 [= <- <-].
Qed.

Lemma delete_told request a s :
  (_rule_account self (key (u "username") (params request)) s).1 = Ok a → fresh st a s →
  wpf (_rules_delete self request) (told st a) (λ _, fresh st a) s.
Proof using All.
  intros Ha Hs. unfold _rules_delete. apply wpf_params; [done|].
  apply (at_account a); [done..|]. clear s Ha Hs. intros s Hs. apply at_store. cbv zeta.
  apply (before_change a); [by looking|done|]; clear s Hs; intros ? s Hs.
  refine (change_step self st directory Hdir a _ _ _ s (λ _, eq_refl) _ _ _ Hs).
  - apply mutation_step. looking.
  - intros r ready. looking.
  - by intros r ready s1 j s2 [= <- <-].
Qed.

Lemma reorder_told request a s :
  (_rule_account self (key (u "username") (params request)) s).1 = Ok a → fresh st a s →
  wpf (_rules_reorder self request) (told st a) (λ _, fresh st a) s.
Proof using All.
  intros Ha Hs. unfold _rules_reorder. apply wpf_params; [done|].
  apply (at_account a); [done..|]. clear s Ha Hs. intros s Hs. apply at_store.
  do 3 (apply (before_change a); [by looking|done|]; clear s Hs; intros ? s Hs).
  refine (change_step self st directory Hdir a _ _ _ s (λ _, eq_refl) _ _ _ Hs).
  - apply mutation_step. looking.
  - intros r ready. looking.
  - intros r ready s1 j s2 Hj. unfold mbind, eff_mbind, eff_bind in Hj.
    destruct (on_auth _ s1) as [[rules|e] s3]; [|done]. unfold lift in Hj.
    destruct (_bounded_mail_rule_result _ _); [|done]. by injection Hj as <- <-.
Qed.

(** C8: a request that changes an account's rules never leaves delivery with stale
    rules: however it ends, and whichever system calls fail, the account's file is
    empty, absent or the rules of the database; and an answer that says delivery is
    ready is given only when the file is the rules of the database. *)
Theorem delivery_never_stale handler request a s r s' :
  handler ∈ [_rules_create self; _rules_update self; _rules_delete self; _rules_reorder self] →
  (_rule_account self (key (u "username") (params request)) s).1 = Ok a →
  fresh st a s → handler request s = (r, s') →
  fresh st a s' ∧
  (∀ j, r = Ok j → member (u "delivery_ready") j = JBool true → current st a s').
Proof using All.
  intros Hh Ha Hs Hr.
  assert (Hw : wpf (handler request) (told st a) (λ _, fresh st a) s).
  { set_unfold in Hh. destruct Hh as [->|[->|[->|[->|[]]]]].
    - by apply create_told.
    - by apply update_told.
    - by apply delete_told.
    - by apply reorder_told. }
  unfold wpf in Hw. rewrite Hr in Hw. destruct r as [j|e]; [|done].
  destruct Hw as [Hf Hc]. split; [done|]. by intros ? [= <-].
Qed.
End Handlers.
