(* ===== verification/HelperClaims.v ===== *)
(** * The helper's theorems on a concrete helper

    First the instance the witnesses run on: the store and the worlds of
    [AuthDemo], a directory of snapshots without faults, and a mail server with one
    account whose mailboxes answer what the witnesses need.  Then the witnesses:
    each applies a theorem of [HelperSpecs], [AuditSpecs], [HelperProgress] or
    [HelperDelivery] to it. *)

From S2P Require Import Prelude Text Errors Sql Json JsonText RuleDoc RuleMessage AuthDb AuthCore AuthStore AuthPasskey AuthRules SnapshotSpecs AuthDemo AuthInv AuthSafe AuthReach AuthRun AuthLogin Protocol Fs Smtp HelperBase HelperAuthz HelperAuth HelperAccounts HelperRules HelperRuns HelperMessages Helper.

Definition demo_mailbox : dict :=
  [(u "username", JStr demo_email); (u "has_credentials", JBool true); (u "has_mailbox", JBool true)].

(** The state of the mail server: how often a mailbox was read. *)
#[export] Instance demo_maddy : MaddyService nat := {
  m_version_info := throw MaddyError;
  m_verify_config := throw MaddyError;
  m_list_accounts _ := mret [demo_mailbox];
  m_create_account _ _ := throw MaddyError;
  m_delete_account _ := throw MaddyError;
  m_change_password _ _ := throw MaddyError;
  m_disable_credentials _ := throw MaddyError;
  m_delete_imap_account _ := throw MaddyError;
  m_get_append_limit _ := throw MaddyError;
  m_set_append_limit _ _ := throw MaddyError;
  m_list_mailboxes _ _ :=
    mret [JObj [(u "name", JStr (u "INBOX"))]; JObj [(u "name", JStr (u "Lists"))]];
  m_create_mailbox _ _ _ := throw MaddyError;
  m_rename_mailbox _ _ _ := throw MaddyError;
  m_resolve_special_mailbox _ _ := throw MaddyError;
  m_migrate_and_delete_mailbox _ _ _ := throw MaddyError;
  m_latest_message_uid _ _ := λ n, (Ok 42, S n);
  m_list_message_window _ _ limit cursor :=
    (* messages 1 to the cursor, from the cursor down *)
    mret ((λ i, [(u "uid", JInt (cursor - Z.of_nat i))])
            <$> seq 0 (Z.to_nat (Z.min (limit + 1) cursor)));
  m_dump_message _ _ _ := mret [65; 10];
  m_dump_message_to _ _ _ := mret ([65; 10], JInt 2);
  m_append_message _ _ _ _ _ _ := throw MaddyError;
  m_delete_message _ _ _ := throw MaddyError;
  m_delete_messages _ _ _ := throw MaddyError;
  m_copy_messages _ _ _ _ := throw MaddyError;
  m_move_messages _ _ _ _ := throw MaddyError;
  m_move_message _ _ _ _ := throw MaddyError;
  m_message_flags _ _ _ _ _ := throw MaddyError;
  m_require_write_safety _ := mret tt
}.

#[export] Instance demo_certificates : CertificateManager nat := {
  c_list_certificates := mret (JArr []);
  c_health := mret (JObj []);
  c_status _ := throw UnknownCertificate;
  c_set_timer_enabled b := mret (JBool b);
  c_dry_run _ := throw UnknownCertificate;
  c_renew _ := throw UnknownCertificate
}.

#[export] Instance demo_submission : SubmissionService nat := {
  s_authenticate _ _ := mret tt;
  s_send _ _ _ _ _ _ := mret 1;
  s_max_message_bytes := 32 * 1024 * 1024
}.

Definition demo_helper : helper :=
  MkHelper (Some demo_store) demo_webauthn true (Some demo_dir) None (demo_kernel no_fault)
    (λ _, None) (λ s, s) (λ c, [c]) Some (λ _, Err ValueError) (λ _ _, Err LookupError)
    (λ raw, (0, Err ValueError)).

(** The account of [demo_4], its password accepted. *)
Definition demo_accept : M account_row :=
  set_password_change_required demo_store demo_account false false.
Definition demo_world : world := (demo_accept demo_4).2.

Definition demo_state : hstate nat :=
  MkHState demo_world demo_fs 0%nat [] None None [] 0 0%nat.

Lemma demo_world_run : is_ok (demo_accept demo_4).1 = true ∧ w_closed demo_world = false.
Proof. vm_compute. split; reflexivity. Qed.

Lemma demo_world_inv : inv (w_db demo_world).
Proof.
  unfold demo_world, demo_accept.
  pose proof (set_password_change_required_keeps demo_store demo_account false false (w_db demo_4)
    demo_inv_4 demo_4) as Hk.
  destruct (set_password_change_required _ _ _ _ demo_4) as [r w] eqn:E.
  specialize (Hk r w eq_refl eq_refl). destruct r; exact Hk.
Qed.

(** A request for the newest message of a mailbox that names someone else. *)
Definition demo_latest : Request :=
  MkRequest (u "r1") (u "messages.latest")
    [(u "username", JStr (u "admin@example.org")); (u "mailbox", JStr (u "INBOX"))]
    (Some demo_session) None.

Lemma demo_latest_run :
  match (dispatch demo_helper demo_latest None demo_state).1 with
  | Ok res => ok (response res) && bool_decide (result_ (response res) = JObj [(u "uid", JInt 42)])
  | Err _ => false
  end = true.
Proof. vm_compute. reflexivity. Qed.

From S2P Require Import Prelude Text Errors Sql Json JsonText RuleDoc RuleMessage AuthDb AuthCore AuthStore AuthPasskey AuthRules SnapshotSpecs AuthDemo AuthInv AuthRun AuthLogin Protocol Fs Smtp HelperBase AuditLog HelperAuthz AuditSpecs HelperAuth HelperAccounts HelperRules HelperRuns HelperMessages Helper HelperSpecs.

Lemma demo_latest_ok : ∃ res s', dispatch demo_helper demo_latest None demo_state = (Ok res, s') ∧ ok (response res) = true.
Proof.
  pose proof demo_latest_run as Hr. destruct (dispatch demo_helper demo_latest None demo_state) as [[res|e] s']; [|discriminate Hr].
  exists res, s'. split; [reflexivity|]. apply andb_true_iff in Hr as [Hr _]. exact Hr.
Qed.

(** The request for the mailbox of the administrator reads its own. *)
Lemma authorization_gate_witness :
  ∃ p (s1 : hstate nat) request', bound_to (MkOperation (u "_messages_latest") false false false ACCOUNT_ false false false)
    p (accounts (w_db (h_auth s1))) (params demo_latest) (params request').
Proof.
  destruct demo_latest_ok as (res & s' & Hd & Hok).
  destruct (authorization_gate demo_helper demo_store _ demo_latest None demo_state res s'
    (MkOperation (u "_messages_latest") false false false ACCOUNT_ false false false)
    eq_refl demo_world_inv (proj2 demo_world_run) (demo_reads demo_world) Hd Hok eq_refl)
    as (token & session & a & p & after & records & request' & s1 & h & v & s2 & _ & _ & _ & _ & _ & _ & _
        & _ & _ & _ & _ & _ & _ & _ & _ & Hb & _).
  { discriminate. }
  exists p, s1, request'. apply Hb. reflexivity.
Defined.


(** The same request without a token. *)
Definition demo_anonymous : Request :=
  MkRequest (u "r2") (u "messages.latest") (params demo_latest) None None.

Lemma refused_request_inert_witness :
  listed_once demo_state (dispatch demo_helper demo_anonymous None demo_state).2.
Proof.
  apply (refused_request_inert demo_helper demo_anonymous None demo_state (dispatch demo_helper demo_anonymous None demo_state).1
           (dispatch demo_helper demo_anonymous None demo_state).2).
  - apply surjective_pairing.
  - intros operation [Hf _].
    exists AuthorizationDenied, (started demo_helper demo_anonymous None demo_state).
    unfold _authorize_request. cbn [auth_store demo_helper].
    vm_compute in Hf. injection Hf as <-. reflexivity.
Defined.

(** Two sign-ins that differ in the password only. *)
Definition demo_sign_in (password : string) : Request :=
  MkRequest (u "r3") (u "auth.password_begin")
    [(u "email", JStr demo_email); (u "password", JStr (u password));
     (u "client_ip", JStr (u "192.0.2.1"))] None None.

Lemma audit_hides_witness :
  request_fields demo_helper (demo_sign_in "correct horse") 0
  = request_fields demo_helper (demo_sign_in "battery staple") 0.
Proof.
  apply (audit_hides demo_helper [] (MkAudit [] [] []) (MkAudit [] [] [])). split; [reflexivity|].
  split; [reflexivity|]. cbn [params demo_sign_in]. constructor; [constructor|].
  constructor; [|constructor; [constructor|constructor]].
  assert (sensitive demo_helper (u "password") = true) as -> by (vm_compute; reflexivity). constructor.
Defined.

(** * A run driven to its end

    The witness of [run_terminates]: a run of the demonstration rule over a
    mailbox of 42 messages, three windows of twenty. *)

From S2P Require Import Prelude Text Errors Sql Json JsonText RuleDoc RuleMessage AuthDb AuthCore AuthStore AuthPasskey AuthRules AuthDemo AuthWp AuthInv AuthSafe AuthSafeRules AuthRun AuthReach AuthRuleSpecs Protocol Fs Smtp HelperBase HelperAuthz HelperAccounts HelperRules HelperRuns Helper HelperProgress.

Definition demo_subject_rule : list (list Z * json) :=
  [(u "rule_id", JStr demo_rule_id); (u "rule_name", JStr (u "Lists"));
   (u "condition", JObj [(u "field", JStr (u "subject")); (u "operator", JStr (u "contains")); (u "value", JStr (u "list"))]);
   (u "target_mailbox", JStr (u "Lists")); (u "revision", JInt 1)].
Definition demo_long_state : json := state_json [MkSource (u "INBOX") 42 false] 0.
Definition demo_begin : M MailRuleRun :=
  create_mail_rule_run demo_store demo_account demo_rule_id (JObj demo_subject_rule) demo_long_state.
Definition demo_begun : world := (demo_begin demo_r2).2.
Definition demo_begun_id : list Z :=
  match (demo_begin demo_r2).1 with Ok run => run_id run | Err _ => [] end.
Definition demo_begun_state : hstate nat := with_auth demo_begun demo_state.
Definition demo_row : account_row :=
  AccountRow demo_account demo_email USER false REQUIRED None None None (-1) 0 0.

Definition demo_begun_run : MailRuleRun :=
  match (demo_begin demo_r2).1 with
  | Ok run => run
  | Err _ => MkMailRuleRun [] [] None 0 JNull JNull QUEUED 0 0 0 0 0 None 0 None None
  end.

Lemma demo_begun_get :
  get_mail_rule_run demo_store (a_id demo_row) demo_begun_id demo_begun = (Ok demo_begun_run, demo_begun).
Proof. vm_compute. reflexivity. Qed.

Lemma demo_begun_inv : inv (w_db (h_auth demo_begun_state)).
Proof.
  exact (reachable_inv _ _ _ (reach_step _ _ demo_begin demo_r2 demo_reachable_r2
    (m_create_mail_rule_run _ _ _ _ _ _))).
Qed.

Lemma demo_begun_sources :
  _validated_rule_run_state demo_helper demo_begun_run = Ok ([MkSource (u "INBOX") 42 false], 0%nat).
Proof. vm_compute. reflexivity. Qed.

Lemma demo_begun_good : good_run demo_helper demo_begun_run.
Proof.
  unfold good_run. rewrite demo_begun_sources. repeat constructor; apply (bool_decide_unpack _); by vm_compute.
Qed.

Lemma demo_begun_steps : steps_left demo_helper demo_begun_run = 3.
Proof. unfold steps_left. rewrite demo_begun_sources. reflexivity. Qed.

Lemma demo_windows_descend : windows_descend JNull.
Proof.
  intros mailbox limit cursor x records x' Hc Hw record uid Hin Hv.
  simpl in Hw. injection Hw as <- _.
  apply list_elem_of_fmap in Hin as (i & -> & _). unfold valid_uid in Hv.
  change (key (u "uid") _) with (JInt (cursor - Z.of_nat i)) in Hv. cbn beta iota in Hv.
  case_match; [|done]. injection Hv as <-. lia.
Qed.

Lemma demo_drive_completes :
  match drive demo_helper demo_store demo_row JNull 4 demo_begun_id demo_begun_state with
  | Some (Ok run, _) => bool_decide (run_status run = COMPLETED) && (run_scanned run =? 42)
  | _ => false
  end = true.
Proof. vm_compute. reflexivity. Qed.

Lemma run_terminates_witness :
  ∃ run s', drive demo_helper demo_store demo_row JNull 4 demo_begun_id demo_begun_state = Some (Ok run, s') ∧
    final_status (run_status run) = true ∧ run_scanned run = 42.
Proof.
  destruct (run_terminates demo_helper demo_store demo_row JNull demo_begun_id demo_begun_run
    demo_begun_state demo_windows_descend demo_begun_inv
    (proj1 (get_stored _ _ _ _ _ _ demo_begun_get)) demo_begun_good) as (r & s' & Hd & Hr).
  rewrite demo_begun_steps in Hd. change (S (Z.to_nat 3)) with 4%nat in Hd.
  pose proof demo_drive_completes as Hc. rewrite Hd in Hc. destruct r as [run|e]; [|discriminate Hc].
  exists run, s'. apply andb_true_iff in Hc as [_ Hc]. split; [exact Hd|]. split; [exact Hr|lia].
Defined.

(** * Delivery on a concrete helper *)

From S2P Require Import Prelude Text Errors Sql Json JsonText RuleDoc RuleMessage AuthDb AuthCore AuthStore AuthPasskey AuthRules Snapshots SnapshotSpecs AuthDemo AuthWp AuthInv AuthSafe AuthRun Protocol Fs Smtp HelperBase HelperAuthz HelperAccounts HelperRules Helper HelperDelivery.

Definition demo_condition : json :=
  JObj [(u "field", JStr (u "subject")); (u "operator", JStr (u "contains")); (u "value", JStr (u "list"))].
Definition demo_create : Request :=
  MkRequest (u "r2") (u "rules.create")
    [(u "username", JStr demo_email); (u "name", JStr (u "Lists")); (u "enabled", JBool true);
     (u "target_mailbox", JStr (u "Lists")); (u "stop_processing", JBool true);
     (u "match", demo_condition)] (Some demo_session) None.

Definition ok_or {A} (d : A) (r : result exc A) : A := match r with Ok a => a | Err _ => d end.

(** The owner of the mailbox, as [_rule_account] finds it. *)
Definition demo_owner : account_row :=
  ok_or (AccountRow [] [] USER false REQUIRED None None None (-1) 0 0)
    (_rule_account (X := nat) demo_helper (JStr demo_email) demo_state).1.

Lemma demo_owner_found : (_rule_account (X := nat) demo_helper (JStr demo_email) demo_state).1 = Ok demo_owner.
Proof. vm_compute. reflexivity. Qed.

Definition demo_target : list Z := ok_or [] (snapshot_name (a_email demo_owner)).
Lemma demo_target_eq : snapshot_name (a_email demo_owner) = Ok demo_target.
Proof. vm_compute. reflexivity. Qed.

Lemma demo_absent : fresh (X := nat) demo_store demo_owner demo_state.
Proof.
  right; right. exists demo_target. split; [exact demo_target_eq|]. vm_compute. reflexivity.
Qed.

Definition demo_created : hstate nat := (_rules_create demo_helper demo_create demo_state).2.

Lemma demo_create_run :
  match (_rules_create (X := nat) demo_helper demo_create demo_state).1 with
  | Ok j => bool_decide (member (u "delivery_ready") j = JBool true)
  | Err _ => false
  end = true.
Proof. vm_compute. reflexivity. Qed.

Lemma delivery_never_stale_witness : current (X := nat) demo_store demo_owner demo_created.
Proof.
  pose proof demo_create_run as Hr. unfold demo_created.
  destruct (_rules_create (X := nat) demo_helper demo_create demo_state) as [[j|e] s'] eqn:E;
    [|discriminate Hr].
  cbn beta iota delta [fst] in Hr. apply bool_decide_eq_true in Hr.
  exact (proj2 (delivery_never_stale demo_helper demo_store demo_dir eq_refl eq_refl
    (_rules_create demo_helper) demo_create demo_owner demo_state (Ok j) s'
    (list_elem_of_here _ _) demo_owner_found demo_absent E) j eq_refl Hr).
Defined.

(** The same rule with an empty name: the web client's text fields are checked for
    being text only. *)
Definition demo_rule_of_created : list MailRuleRecord :=
  ok_or [] (rules_of demo_store (w_db (h_auth demo_created)) (a_id demo_owner)).
Definition demo_bad_update : Request :=
  MkRequest (u "r3") (u "rules.update")
    [(u "username", JStr demo_email);
     (u "rule_id", JStr (default [] (head (rule_id <$> demo_rule_of_created))));
     (u "name", JStr []); (u "enabled", JBool true); (u "target_mailbox", JStr (u "Lists"));
     (u "stop_processing", JBool true); (u "match", demo_condition); (u "revision", JInt 1)]
    (Some demo_session) None.

Definition snapshot_check (a : account_row) (rules : list rule_mapping) (s : hstate nat) : bool :=
  match snapshot_name (a_email a), build_snapshot (a_email a) rules with
  | Ok target, Ok payload => bool_decide (i_data <$> file_at target (h_fs s) = Some payload)
  | _, _ => false
  end.

Lemma snapshot_check_is a rules s : snapshot_check a rules s = true → snapshot_is a rules s.
Proof.
  unfold snapshot_check, snapshot_is. destruct (snapshot_name _) as [t|]; [|done].
  destruct (build_snapshot _ _) as [p|]; [|done]. intros H%bool_decide_eq_true.
  destruct (file_at t (h_fs s)) as [i|] eqn:Hi; [|done]. injection H as <-. by exists t, i.
Qed.

Lemma demo_current : current (X := nat) demo_store demo_owner demo_created.
Proof.
  exists demo_rule_of_created. split; [vm_compute; reflexivity|].
  apply snapshot_check_is. vm_compute. reflexivity.
Qed.

Lemma demo_update_run :
  let '(r, s) := _rules_update (X := nat) demo_helper demo_bad_update demo_created in
  r = Err ValueError ∧
  rules_of demo_store (w_db (h_auth s)) (a_id demo_owner) = Ok demo_rule_of_created ∧
  rule_enabled <$> demo_rule_of_created = [true] ∧ snapshot_check demo_owner [] s = true.
Proof. vm_compute. repeat split. Qed.

