(* ===== verification/Maddy.v ===== *)
(** * The Maddy adapter: versions, targets and arguments

    The part of [maddy.py] that runs no command: semantic versions and the
    supported releases, the deployment target with the argument vectors it
    builds, and the checks every value passes before it becomes an argument. *)

From S2P Require Import Prelude Text Errors Json Csrf.

(** What the code uses of the Python library: Unicode tables, codecs,
    [datetime.fromisoformat] ([None] is ValueError, else whether it has a
    timezone), [str] of a JSON container, the order in which a set of strings is
    walked through, [json.loads] of bytes with its exceptions, and [==] of two
    JSON values that are not both texts. *)
Record pylib := MkLib {
  lib_lower : list Z → list Z;
  lib_fold : Z → list Z;
  lib_digit : Z → option Z;
  lib_unsafe : Z → bool;
  lib_decode : list Z → list Z → result exc (list Z);
  lib_iso : list Z → option bool;
  lib_str : json → list Z;
  lib_set : list (list Z) → list (list Z);
  lib_loads : list Z → result exc json;
  lib_same : json → json → bool
}.

Section Unicode.
Context (lib : pylib).

Definition str_lower (s : list Z) : list Z := if is_ascii s then lower s else lib_lower lib s.
Definition casefold (s : list Z) : list Z :=
  mjoin ((λ c, if c <? 128 then [lower_char c] else lib_fold lib c) <$> s).

(** [str.isdecimal], and [\d] of a [str] pattern. *)
Definition is_decimal_char (c : Z) : bool :=
  match digit_value (lib_digit lib) c with Some _ => true | None => false end.
Definition isdecimal (s : list Z) : bool := match_plus is_decimal_char s.

(** [int(s)] of decimal characters. *)
Definition int_of_decimal (s : list Z) : result exc Z :=
  if MAX_INT_DIGITS <? zlen s then Err ValueError
  else Ok (foldl (λ n c, n * 10 + default 0 (digit_value (lib_digit lib) c)) 0 s).
End Unicode.

(** ** Versions *)

Record SemVer := MkSemVer {
  major : Z; minor : Z; patch : Z; prerelease : list (list Z); build : list (list Z) }.
#[export] Instance SemVer_eq_dec : EqDecision SemVer.
Proof. solve_decision. Defined.

Definition is_identifier_char (c : Z) : bool := is_alnum c || (c =? 45).

Section Versions.
Context (lib : pylib).

(** The maximal run of decimal characters, and the rest. *)
Fixpoint decimal_run (s : list Z) : list Z * list Z :=
  match s with
  | c :: r => if is_decimal_char lib c then let '(a, b) := decimal_run r in (c :: a, b) else ([], s)
  | [] => ([], [])
  end.

(** [0|[1-9]\d*] *)
Definition core_number (s : list Z) : option (list Z * list Z) :=
  let '(run, rest) := decimal_run s in
  match run with
  | [48] => Some (run, rest)
  | c :: _ => if (49 <=? c) && (c <=? 57) then Some (run, rest) else None
  | [] => None
  end.

Definition after_dot (s : list Z) : option (list Z) :=
  match s with 46 :: s => Some s | _ => None end.

(** [[0-9A-Za-z-]+(\.[0-9A-Za-z-]+)*] *)
Definition identifiers (s : list Z) : option (list (list Z)) :=
  let fields := split_char 46 s in
  if forallb (match_plus is_identifier_char) fields then Some fields else None.

(** The optional build part, and the optional pre-release part before it. *)
Definition build_part (s : list Z) : option (list (list Z)) :=
  match s with
  | [] => Some []
  | 43 :: s => identifiers s
  | _ => None
  end.
Definition version_tail (s : list Z) : option (list (list Z) * list (list Z)) :=
  match s with
  | 45 :: s =>
      match partition_char 43 s with
      | Some (pre, b) => p ← identifiers pre; b ← identifiers b; Some (p, b)
      | None => p ← identifiers s; Some (p, [])
      end
  | s => b ← build_part s; Some ([], b)
  end.

Definition leading_zero (identifier : list Z) : bool :=
  forallb is_digit identifier && (1 <? zlen identifier) && starts_with [48] identifier.

Definition _SEMVER_RE (s : list Z)
    : option (list Z * list Z * list Z * list (list Z) * list (list Z)) :=
  let s := match s with 118 :: s => s | s => s end in
  '(a, s) ← core_number s; s ← after_dot s;
  '(b, s) ← core_number s; s ← after_dot s;
  '(c, s) ← core_number s;
  '(pre, build) ← version_tail s;
  Some (a, b, c, pre, build).

(** [SemVer.parse] *)
Definition parse (value : list Z) : result exc SemVer :=
  match _SEMVER_RE (strip value) with
  | None => Err VersionParseError
  | Some (a, b, c, pre, build) =>
      if existsb leading_zero pre then Err VersionParseError
      else
        a ← int_of_decimal lib a; b ← int_of_decimal lib b; c ← int_of_decimal lib c;
        Ok (MkSemVer a b c pre build)
  end.
End Versions.

(** [bytes.decode("utf-8", errors="replace")]: each maximal prefix of a sequence
    becomes one replacement character. *)
Definition REPLACEMENT : Z := 65533.
Definition in_range (lo hi b : Z) : bool := (lo <=? b) && (b <=? hi).
Definition second_ok (a b : Z) : bool :=
  if a =? 224 then in_range 160 191 b
  else if a =? 237 then in_range 128 159 b
  else if a =? 240 then in_range 144 191 b
  else if a =? 244 then in_range 128 143 b
  else in_range 128 191 b.

Fixpoint decode_replace (s : list Z) : list Z :=
  match s with
  | [] => []
  | a :: r =>
      if (0 <=? a) && (a <? 128) then a :: decode_replace r
      else if negb (in_range 194 244 a) then REPLACEMENT :: decode_replace r
      else match r with
      | [] => [REPLACEMENT]
      | b :: r2 =>
          if negb (second_ok a b) then REPLACEMENT :: decode_replace r
          else if a <? 224 then ((a - 192) * 64 + (b - 128)) :: decode_replace r2
          else match r2 with
          | [] => [REPLACEMENT]
          | c :: r3 =>
              if negb (in_range 128 191 c) then REPLACEMENT :: decode_replace r2
              else if a <? 240
              then (((a - 224) * 64 + (b - 128)) * 64 + (c - 128)) :: decode_replace r3
              else match r3 with
              | [] => [REPLACEMENT]
              | d :: r4 =>
                  if negb (in_range 128 191 d) then REPLACEMENT :: decode_replace r3
                  else ((((a - 240) * 64 + (b - 128)) * 64 + (c - 128)) * 64 + (d - 128))
                       :: decode_replace r4
              end
          end
      end
  end.

(** [SemVer.from_maddy_output] of bytes. *)
Definition from_maddy_output (lib : pylib) (output : list Z) : result exc SemVer :=
  let first_line := strip (default [] (head (splitlines (decode_replace output)))) in
  let tokens := words first_line in
  let tokens := match tokens with
                | t :: rest => if str_eqb (str_lower lib t) (u "maddy") then rest else tokens
                | [] => [] end in
  match tokens with
  | [] => Err VersionParseError
  | t :: _ => parse lib t
  end.

(** [str(version)] *)
Definition version_text (v : SemVer) : list Z :=
  join [46] (str_of_int <$> [major v; minor v; patch v])
  ++ match prerelease v with [] => [] | p => 45 :: join [46] p end
  ++ match build v with [] => [] | b => 43 :: join [46] b end.

Definition str_ltb (a b : list Z) : bool := zlist_leb a b && negb (str_eqb a b).

(** The loop over the pre-release identifiers. *)
Fixpoint prerelease_lt (own theirs : list (list Z)) : bool :=
  match own, theirs with
  | [], [] => false
  | [], _ :: _ => true
  | _ :: _, [] => false
  | a :: own, b :: theirs =>
      if str_eqb a b then prerelease_lt own theirs
      else
        let own_numeric := match_plus is_digit a in
        let their_numeric := match_plus is_digit b in
        if own_numeric && their_numeric then int_of_digits a <? int_of_digits b
        else if negb (Bool.eqb own_numeric their_numeric) then own_numeric
        else str_ltb a b
  end.

Definition core (v : SemVer) : list Z := [major v; minor v; patch v].

(** [SemVer.__lt__], [__eq__] (which ignores the build) and what
    [total_ordering] makes of them. *)
Definition semver_lt (v w : SemVer) : bool :=
  if negb (bool_decide (core v = core w)) then str_ltb (core v) (core w)
  else match prerelease v, prerelease w with
  | [], [] => false
  | [], _ :: _ => true
  | _ :: _, [] => true
  | p, q => prerelease_lt p q
  end.
Definition semver_eqb (v w : SemVer) : bool :=
  bool_decide (core v = core w) && bool_decide (prerelease v = prerelease w).
Definition semver_le (v w : SemVer) : bool := semver_lt v w || semver_eqb v w.
Definition semver_ge (v w : SemVer) : bool := negb (semver_lt v w).

Definition release (a b c : Z) : SemVer := MkSemVer a b c [] [].
Definition MIN_SUPPORTED_VERSION : SemVer := release 0 8 2.
Definition MAX_SUPPORTED_VERSION : SemVer := release 0 9 5.
Definition TESTED_RELEASES : list SemVer :=
  [release 0 8 2; release 0 9 0; release 0 9 1; release 0 9 2; release 0 9 3; release 0 9 4;
   release 0 9 5].

Definition require_supported_version (version : SemVer) (known_release : bool) : result exc SemVer :=
  if negb (bool_decide (prerelease version = [])) then Err UnsupportedVersion
  else if negb (bool_decide (build version = [])) then Err UnsupportedVersion
  else if negb (semver_le MIN_SUPPORTED_VERSION version && semver_le version MAX_SUPPORTED_VERSION)
  then Err UnsupportedVersion
  else if known_release && negb (existsb (semver_eqb version) TESTED_RELEASES)
  then Err UnsupportedVersion
  else Ok version.

Inductive Capability : Type :=
  DIAGNOSTICS | VERIFY_CONFIG | ACCOUNT_ADMIN | MAILBOX_ADMIN | MESSAGE_ADMIN
| CERTIFICATE_FILE_ADMIN | TLS_RELOAD | ZERO_DOWNTIME_RELOAD | LDAP_AUTH_SAFE
| EXPLICIT_CLI_LIFECYCLE.
#[export] Instance Capability_eq_dec : EqDecision Capability.
Proof. solve_decision. Defined.

Definition capability_value (c : Capability) : list Z :=
  match c with
  | DIAGNOSTICS => u "diagnostics"
  | VERIFY_CONFIG => u "verify_config"
  | ACCOUNT_ADMIN => u "account_admin"
  | MAILBOX_ADMIN => u "mailbox_admin"
  | MESSAGE_ADMIN => u "message_admin"
  | CERTIFICATE_FILE_ADMIN => u "certificate_file_admin"
  | TLS_RELOAD => u "tls_reload"
  | ZERO_DOWNTIME_RELOAD => u "zero_downtime_reload"
  | LDAP_AUTH_SAFE => u "ldap_auth_safe"
  | EXPLICIT_CLI_LIFECYCLE => u "explicit_cli_lifecycle"
  end.

Definition _BASE_CAPABILITIES : list Capability :=
  [DIAGNOSTICS; ACCOUNT_ADMIN; MAILBOX_ADMIN; MESSAGE_ADMIN; CERTIFICATE_FILE_ADMIN; TLS_RELOAD].

Definition capabilities_for (version : SemVer) : result exc (list Capability) :=
  require_supported_version version true ≫= λ _,
  Ok (_BASE_CAPABILITIES
      ++ (if semver_ge version (release 0 9 0) then [ZERO_DOWNTIME_RELOAD; VERIFY_CONFIG] else [])
      ++ (if semver_ge version (release 0 9 3) then [LDAP_AUTH_SAFE] else [])
      ++ (if semver_ge version (release 0 9 4) then [EXPLICIT_CLI_LIFECYCLE] else [])).

(** ** Targets *)

Inductive DeploymentMode : Type := NATIVE | DOCKER.
#[export] Instance DeploymentMode_eq_dec : EqDecision DeploymentMode.
Proof. solve_decision. Defined.
Definition mode_value (m : DeploymentMode) : list Z :=
  match m with NATIVE => u "native" | DOCKER => u "docker" end.
Definition deployment_mode (s : list Z) : option DeploymentMode :=
  if str_eqb s (u "native") then Some NATIVE else if str_eqb s (u "docker") then Some DOCKER else None.

Definition _fixed_token (value : list Z) : result exc (list Z) :=
  if bool_decide (value = []) || (4096 <? zlen value) || existsb (λ c, c <? 32) value
  then Err InvalidMaddyArgument else Ok value.

(** [[A-Za-z0-9][A-Za-z0-9_.-]{0,127}] and the like. *)
Definition head_tail (p q : Z → bool) (n : Z) (s : list Z) : bool :=
  match s with c :: s => p c && forallb q s && (zlen s <=? n) | [] => false end.
Definition is_name_char (c : Z) : bool := is_alnum c || in_chars (u "_.-") c.
Definition _CONTAINER_RE : list Z → bool := head_tail is_alnum is_name_char 127.
Definition _BLOCK_RE : list Z → bool :=
  head_tail (λ c, is_lower c || is_upper c || (c =? 95)) is_name_char 127.
Definition _KEYWORD_RE : list Z → bool := head_tail is_alnum is_name_char 63.

Record MaddyTarget := MkTarget {
  mode : DeploymentMode; maddy_executable : list Z; config_path : option (list Z);
  container : option (list Z); docker_executable : list Z; service_user : option (list Z);
  systemctl_executable : list Z; systemd_unit : list Z
}.

Definition DOCKER_EXECUTABLE : list Z := u "/usr/bin/docker".
Definition SYSTEMCTL_EXECUTABLE : list Z := u "/usr/bin/systemctl".
Definition is_absolute (path : list Z) : bool := starts_with [47] path.

(** [MaddyTarget.__post_init__]; the mode is its text. *)
Definition init_target (mode_text : list Z) (t : MaddyTarget) : result exc MaddyTarget :=
  match deployment_mode mode_text with
  | None => Err InvalidMaddyArgument
  | Some mode =>
      _fixed_token (maddy_executable t) ≫= λ _, _fixed_token (docker_executable t) ≫= λ _,
      _fixed_token (systemctl_executable t) ≫= λ _,
      guard_err (forallb is_absolute [maddy_executable t; docker_executable t; systemctl_executable t])
        InvalidMaddyArgument ≫= λ _,
      guard_err (str_eqb (docker_executable t) DOCKER_EXECUTABLE) InvalidMaddyArgument ≫= λ _,
      guard_err (str_eqb (systemctl_executable t) SYSTEMCTL_EXECUTABLE) InvalidMaddyArgument ≫= λ _,
      match config_path t with Some p => _fixed_token p | None => Ok [] end ≫= λ _,
      match mode with
      | DOCKER => guard_err (match container t with Some c => _CONTAINER_RE c | None => false end)
                    InvalidMaddyArgument
      | NATIVE => guard_err (match container t with None => true | Some _ => false end)
                    InvalidMaddyArgument
      end ≫= λ _,
      guard_err (match_range (λ c, is_alnum c || in_chars (u "_.@-") c) 1 128 (systemd_unit t))
        InvalidMaddyArgument ≫= λ _,
      guard_err (match service_user t with
                 | None => true
                 | Some user => head_tail (λ c, is_lower c || (c =? 95))
                                  (λ c, is_lower c || is_digit c || in_chars (u "_-") c) 31 user
                 end) InvalidMaddyArgument ≫= λ _,
      Ok (MkTarget mode (maddy_executable t) (config_path t) (container t) (docker_executable t)
            (service_user t) (systemctl_executable t) (systemd_unit t))
  end.

(** [MaddyTarget.from_config] on the fields it reads. *)
Definition from_config (mode_text cfg_container cfg_binary cfg_config_path cfg_user : list Z)
    : result exc MaddyTarget :=
  match deployment_mode mode_text with
  | None => Err ValueError
  | Some DOCKER =>
      init_target mode_text
        (MkTarget DOCKER (u "/bin/maddy") (Some (u "/data/maddy.conf")) (Some cfg_container)
           DOCKER_EXECUTABLE None SYSTEMCTL_EXECUTABLE (u "maddy.service"))
  | Some NATIVE =>
      init_target mode_text
        (MkTarget NATIVE cfg_binary (Some cfg_config_path) None DOCKER_EXECUTABLE (Some cfg_user)
           SYSTEMCTL_EXECUTABLE (u "maddy.service"))
  end.

Definition argv (t : MaddyTarget) (suffix : list (list Z)) (has_stdin use_config : bool)
    : result exc (list (list Z)) :=
  if bool_decide (suffix = []) then Err InvalidMaddyArgument
  else
    checked_suffix ← result_map _fixed_token suffix;
    let inner :=
      maddy_executable t
      :: match use_config, config_path t with
         | true, Some p => [u "-config"; p]
         | _, _ => []
         end ++ checked_suffix in
    match mode t with
    | NATIVE => Ok inner
    | DOCKER =>
        Ok (docker_executable t :: u "exec" :: (if has_stdin then [u "-i"] else [])
            ++ default (u "None") (container t) :: inner)
    end.

Definition reload_argv (t : MaddyTarget) : list (list Z) :=
  match mode t with
  | DOCKER => [docker_executable t; u "kill"; u "--signal=USR2"; default (u "None") (container t)]
  | NATIVE => [systemctl_executable t; u "reload"; systemd_unit t]
  end.

Definition config_read_argv (t : MaddyTarget) : result exc (list (list Z)) :=
  match mode t, config_path t with
  | DOCKER, Some p =>
      Ok [docker_executable t; u "exec"; default (u "None") (container t); u "/bin/cat"; p]
  | _, _ => Err InvalidMaddyArgument
  end.

Definition run_as_user (t : MaddyTarget) : option (list Z) :=
  match mode t with NATIVE => service_user t | DOCKER => None end.

(** ** Arguments

    The adapter's methods are handed JSON values of a request: a value that is
    not text fails the way the Python operation on it does. *)

(** [not value] *)
Definition is_falsy (j : json) : bool :=
  match j with
  | JNull | JBool false | JStr [] | JArr [] | JObj [] => true
  | JInt z => z =? 0
  | JFloat (FFinite r) => forallb (λ c, in_chars (u "0.-") c) r
  | _ => false
  end.

(** [len(value)] *)
Definition len_of (j : json) : result exc Z :=
  match j with
  | JStr s => Ok (zlen s) | JArr l => Ok (zlen l) | JObj d => Ok (zlen d) | _ => Err TypeError
  end.

Definition is_argument_control (c : Z) : bool := (c <? 32) || (c =? 127).

Definition _safe_positional (value : json) (max_length : Z) : result exc (list Z) :=
  if is_falsy value then Err InvalidMaddyArgument
  else
    n ← len_of value;
    if max_length <? n then Err InvalidMaddyArgument
    else match value with
    | JStr s =>
        if starts_with [45] s || existsb is_argument_control s then Err InvalidMaddyArgument else Ok s
    | _ => Err AttributeError
    end.

Definition _safe_block (value : list Z) : result exc (list Z) :=
  if _BLOCK_RE value then Ok value else Err InvalidMaddyArgument.

Section Arguments.
Context (lib : pylib).

(** [[1-9]\d*|\*] *)
Definition seq_number (s : list Z) : bool :=
  match s with
  | [42] => true
  | c :: s => (49 <=? c) && (c <=? 57) && forallb (is_decimal_char lib) s
  | [] => false
  end.

Definition _SEQSET_RE (s : list Z) : bool :=
  forallb (λ item,
    let fields := split_char 58 item in
    (zlen fields <=? 2) && forallb seq_number fields) (split_char 44 s).

Definition _safe_seqset (value : json) : result exc (list Z) :=
  match value with
  | JStr s => if _SEQSET_RE s then Ok s else Err InvalidMaddyArgument
  | _ => Err TypeError
  end.

Definition MAX_IMAP_UID : Z := 2 ^ 32 - 1.

Definition _safe_uid (value : json) : result exc (list Z) :=
  match value with
  | JStr s =>
      if negb (is_ascii s) || negb (isdecimal lib s) || starts_with [48] s || (10 <? zlen s)
      then Err InvalidMaddyArgument
      else
        uid ← int_of_decimal lib s;
        if negb ((1 <=? uid) && (uid <=? MAX_IMAP_UID)) then Err InvalidMaddyArgument
        else Ok (str_of_int uid)
  | _ => Err AttributeError
  end.

Definition _SYSTEM_FLAGS : list (list Z) :=
  u <$> ["\Answered"; "\Flagged"; "\Deleted"; "\Seen"; "\Draft"]%string.

Definition _safe_flag (value : json) : result exc (list Z) :=
  match value with
  | JStr s => if bool_decide (s ∈ _SYSTEM_FLAGS) || _KEYWORD_RE s then Ok s else Err InvalidMaddyArgument
  | _ => Err TypeError
  end.

(** The items a [for] loop or [tuple] takes from a value. *)
Definition items_of (j : json) : result exc (list json) :=
  match j with
  | JArr l => Ok l
  | JStr s => Ok ((λ c, JStr [c]) <$> s)
  | JObj d => Ok (JStr <$> d.*1)
  | _ => Err TypeError
  end.

(** [character in value] *)
Definition member_of (c : Z) (j : json) : bool :=
  match j with
  | JStr s => has_char c s
  | JArr l => bool_decide (JStr [c] ∈ l)
  | JObj d => bool_decide ([c] ∈ d.*1)
  | _ => false
  end.

Definition _password_input (password : json) : result exc (list Z) :=
  if is_falsy password then Err InvalidMaddyArgument
  else
    n ← len_of password;
    if (1024 <? n) || member_of 10 password || member_of 13 password || member_of 0 password
    then Err InvalidMaddyArgument
    else match password with
    | JStr s => match utf8_encode s with Some b => Ok (b ++ [10]) | None => Err UnicodeEncodeError end
    | _ => Err AttributeError
    end.
End Arguments.
