(* ===== verification/MaddyConfig.v ===== *)
(** * The configuration check of the Maddy adapter

    Before a write, [maddy.py] reads the configuration the mail server runs with
    and refuses what it cannot prove safe: LDAP on releases where it is unsafe,
    imports, and macros or environment values that could select a module. *)

From S2P Require Import Prelude Text Errors Maddy.

(** ** Lines without comments, and tokens: [_config_tokens_and_text] *)

Definition QUOTE : Z := 34.
Definition BACKSLASH : Z := 92.
Definition is_brace (c : Z) : bool := (c =? 123) || (c =? 125).
Definition is_tab_or_space (c : Z) : bool := (c =? 32) || (c =? 9).
Definition strip_blanks (s : list Z) : list Z := rstrip_by is_tab_or_space (lstrip_by is_tab_or_space s).

(** A line up to its comment; [None] when it ends inside quotes. *)
Fixpoint uncomment (quoted escaped : bool) (s : list Z) : option (list Z) :=
  match s with
  | [] => if quoted || escaped then None else Some []
  | c :: s =>
      if escaped then cons c <$> uncomment quoted false s
      else if quoted && (c =? BACKSLASH) then cons c <$> uncomment quoted true s
      else if c =? QUOTE then cons c <$> uncomment (negb quoted) false s
      else if (c =? 35) && negb quoted then Some []
      else cons c <$> uncomment quoted false s
  end.

(** Between tokens, inside a bare one, inside a quoted one. *)
Inductive lexer : Type := Between | Word (w : list Z) | Quoted (w : list Z).

Fixpoint lex (st : lexer) (s : list Z) : result exc (list (list Z)) :=
  match st, s with
  | Between, [] => Ok []
  | Between, c :: s =>
      if is_space c then lex Between s
      else if is_brace c then rest ← lex Between s; Ok ([c] :: rest)
      else if c =? 39 then Err RuntimeConfigUnsafe
      else if c =? QUOTE then lex (Quoted []) s
      else lex (Word [c]) s
  | Word w, [] => Ok [w]
  | Word w, c :: s =>
      if is_space c then rest ← lex Between s; Ok (w :: rest)
      else if is_brace c then rest ← lex Between s; Ok (w :: [c] :: rest)
      else lex (Word (w ++ [c])) s
  | Quoted w, [] => Err RuntimeConfigUnsafe
  | Quoted w, c :: s =>
      if c =? BACKSLASH then
        match s with
        | [] => Err RuntimeConfigUnsafe
        | d :: s => lex (Quoted (w ++ (if d =? QUOTE then [d] else [BACKSLASH; d]))) s
        end
      else if c =? QUOTE then
        match s with
        | d :: _ => if is_space d || is_brace d then rest ← lex Between s; Ok (w :: rest)
                    else Err RuntimeConfigUnsafe
        | [] => Ok [w]
        end
      else lex (Quoted (w ++ [c])) s
  end.

Definition config_line (raw_line : list Z) : result exc (list (list Z) * list Z) :=
  match uncomment false false raw_line with
  | None => Err RuntimeConfigUnsafe
  | Some line =>
      if ends_with [BACKSLASH] (rstrip_by is_tab_or_space line) then Err RuntimeConfigUnsafe
      else tokens ← lex Between line; Ok (tokens, line)
  end.

Definition BOM : Z := 65279.

Definition _config_tokens_and_text (config_text : list Z) : result exc (list (list Z) * list Z) :=
  if has_char BOM config_text then Err RuntimeConfigUnsafe
  else
    lines ← result_map config_line (splitlines config_text);
    Ok (mjoin lines.*1, join [10] lines.*2).

(** ** Macros *)

Fixpoint span_by (p : Z → bool) (s : list Z) : list Z * list Z :=
  match s with
  | c :: r => if p c then let '(a, b) := span_by p r in (c :: a, b) else ([], s)
  | [] => ([], [])
  end.

(** [_CONFIG_MACRO_REFERENCE_RE] at the start of a text: the name and the rest. *)
Definition macro_at (s : list Z) : option (list Z * list Z) :=
  match s with
  | 36 :: 40 :: s =>
      let '(name, rest) := span_by is_name_char s in
      match rest with
      | 41 :: rest => if _BLOCK_RE name then Some (name, rest) else None
      | _ => None
      end
  | _ => None
  end.

(** [re.sub("", ..)] and [re.findall]; [skip] characters belong to a macro. *)
Fixpoint remove_macros (skip : nat) (s : list Z) : list Z :=
  match s with
  | [] => []
  | c :: r =>
      match skip, macro_at s with
      | S skip, _ => remove_macros skip r
      | O, Some (name, _) => remove_macros (length name + 2) r
      | O, None => c :: remove_macros 0 r
      end
  end.
Fixpoint macro_names (skip : nat) (s : list Z) : list (list Z) :=
  match s with
  | [] => []
  | _ :: r =>
      match skip, macro_at s with
      | S skip, _ => macro_names skip r
      | O, Some (name, _) => name :: macro_names (length name + 2) r
      | O, None => macro_names 0 r
      end
  end.
Definition has_macro (s : list Z) : bool := negb (bool_decide (macro_names 0 s = [])).

(** [_CONFIG_MACRO_ASSIGNMENT_RE]: the value of the macro a line defines. *)
Definition macro_assignment (line : list Z) : option (list Z) :=
  match macro_at (lstrip_by is_tab_or_space line) with
  | Some (_, rest) =>
      match lstrip_by is_tab_or_space rest with
      | 61 :: value => Some (strip_blanks value)
      | _ => None
      end
  | None => None
  end.

Fixpoint after_prefix (p s : list Z) : option (list Z) :=
  match p, s with
  | [], s => Some s
  | x :: p, y :: s => if x =? y then after_prefix p s else None
  | _ :: _, [] => None
  end.

Definition PROVIDER_WORDS : list (list Z) := u <$> ["auth"; "pass"; "user"; "table"; "auth_map"]%string.

Definition provider_ends (s : list Z) : bool :=
  match s with
  | [] => true
  | c :: r => in_chars [QUOTE; 46; 32; 9; 123; 61] c || starts_with [36; 40] s
  end.
Definition provider_at (s : list Z) : bool :=
  existsb (λ w, match after_prefix w s with Some r => provider_ends r | None => false end)
    PROVIDER_WORDS.

(** [_AUTH_PROVIDER_CONTEXT_RE.search]; [boundary]: the character before is not
    part of a name. *)
Fixpoint provider_context (boundary : bool) (s : list Z) : bool :=
  (boundary && (provider_at s || match s with c :: r => (c =? QUOTE) && provider_at r | [] => false end))
  || match s with c :: r => provider_context (negb (is_name_char c)) r | [] => false end.
Definition _AUTH_PROVIDER_CONTEXT_RE (line : list Z) : bool := provider_context true line.

Definition SAFE_WORDS : list (list Z) :=
  u <$> ["hostname"; "entry"; "destination"; "source"; "dkim"; "autogenerated_msg_domain"]%string.
Definition macro_word_ends (s : list Z) : bool :=
  match s with [] => true | c :: _ => is_tab_or_space c end.

Definition _SAFE_LEGACY_MACRO_CONTEXT_RE (line : list Z) : bool :=
  let s := lstrip_by is_tab_or_space line in
  existsb (λ w, match after_prefix w s with Some r => macro_word_ends r | None => false end) SAFE_WORDS
  || match after_prefix (u "tls") s with
     | Some ((c :: _) as r) =>
         is_tab_or_space c
         && match after_prefix (u "file") (lstrip_by is_tab_or_space r) with
            | Some r => macro_word_ends r | None => false end
     | _ => false
     end.

(** ** [_legacy_dynamic_config_is_unsafe] *)

Definition ENV : list Z := u "{env:".
Definition _OFFICIAL_DOCKER_ENV_ASSIGNMENTS : list (list Z) :=
  u <$> ["$(hostname) = {env:MADDY_HOSTNAME}"; "$(primary_domain) = {env:MADDY_DOMAIN}"]%string.

(** A brace next to a character of a token. *)
Definition separate (c : Z) : bool := is_space c || is_brace c.
Fixpoint glued_brace (before : Z) (s : list Z) : bool :=
  match s with
  | [] => false
  | c :: r =>
      (is_brace c && (negb (separate before) || negb (separate (default 32 (head r)))))
      || glued_brace c r
  end.

(** The depth of blocks after a line. *)
Fixpoint block_depth (quoted escaped : bool) (depth : Z) (s : list Z) : result exc Z :=
  match s with
  | [] => Ok depth
  | c :: s =>
      if escaped then block_depth quoted false depth s
      else if quoted && (c =? BACKSLASH) then block_depth quoted true depth s
      else if c =? QUOTE then block_depth (negb quoted) false depth s
      else if quoted then block_depth quoted false depth s
      else if c =? 123 then block_depth quoted false (depth + 1) s
      else if c =? 125 then
        if depth - 1 <? 0 then Err RuntimeConfigUnsafe else block_depth quoted false (depth - 1) s
      else block_depth quoted false depth s
  end.

(** One round of the first loop: [None] is [return True]. *)
Definition check_line (official : bool) (depth : Z) (raw_line clean_line : list Z)
    : result exc (option Z) :=
  if contains [36; 40] (remove_macros 0 clean_line) then Ok None
  else if contains ENV clean_line then
    let raw_assignment := strip_blanks raw_line in
    if negb official || negb (depth =? 0) || negb (str_eqb raw_assignment (strip_blanks clean_line))
       || negb (bool_decide (raw_assignment ∈ _OFFICIAL_DOCKER_ENV_ASSIGNMENTS))
    then Ok None else Ok (Some depth)
  else if match macro_assignment clean_line with Some v => existsb is_brace v | None => false end
  then Ok None
  else if has_macro clean_line && glued_brace 32 clean_line then Ok None
  else d ← block_depth false false depth clean_line; Ok (Some d).

Fixpoint check_lines (official : bool) (depth : Z) (lines : list (list Z * list Z))
    : result exc (option Z) :=
  match lines with
  | [] => Ok (Some depth)
  | (raw_line, clean_line) :: lines =>
      o ← check_line official depth raw_line clean_line;
      match o with Some depth => check_lines official depth lines | None => Ok None end
  end.

(** One round of the last loop. *)
Definition macro_line_unsafe (clean_line : list Z) : bool :=
  has_macro clean_line
  && match macro_assignment clean_line with
     | Some _ => false
     | None => has_char 61 clean_line || _AUTH_PROVIDER_CONTEXT_RE clean_line
               || negb (_SAFE_LEGACY_MACRO_CONTEXT_RE clean_line)
     end.

Definition _legacy_dynamic_config_is_unsafe (config_text uncommented_text : list Z)
    (allow_official_docker_assignments : bool) : result exc bool :=
  let raw_lines := splitlines config_text in
  let clean_lines := match raw_lines with [] => [] | _ => split_char 10 uncommented_text end in
  if negb (zlen raw_lines =? zlen clean_lines) then Err RuntimeConfigUnsafe
  else
    o ← check_lines allow_official_docker_assignments 0 (zip raw_lines clean_lines);
    match o with
    | None => Ok true
    | Some depth =>
        if negb (depth =? 0) then Err RuntimeConfigUnsafe
        else Ok (existsb macro_line_unsafe clean_lines)
    end.
