(* ===== verification/MaddyList.v ===== *)
(** * Message listings of the Maddy adapter

    What [maddy.py] reads off the output of [maddy imap-msgs list]: flags,
    bounded integers, RFC 2047 headers and both styles of listing.  The output
    comes from a program whose version was checked, but every line of it is
    matched against the tested profile. *)

From S2P Require Import Prelude Text Errors Json HelperBase Maddy MaddyConfig.

(** ** Strings cut at a separator of several characters *)

(** [s.partition(sep)]; [None] when the separator is absent. *)
Fixpoint partition_on (sep s : list Z) : option (list Z * list Z) :=
  match after_prefix sep s with
  | Some r => Some ([], r)
  | None => match s with
            | [] => None
            | c :: s => '(a, b) ← partition_on sep s; Some (c :: a, b)
            end
  end.

(** [s.split(sep)]; [skip] characters belong to a separator. *)
Fixpoint split_on (sep : list Z) (skip : nat) (s : list Z) : list (list Z) :=
  match s with
  | [] => [[]]
  | c :: r =>
      match skip with
      | S skip => split_on sep skip r
      | O => if starts_with sep s then [] :: split_on sep (length sep - 1) r
             else match split_on sep 0 r with f :: fs => (c :: f) :: fs | [] => [[c]] end
      end
  end.

(** ** Flags and integers *)

Definition _parse_flags (value : list Z) : list (list Z) :=
  let value := strip value in
  if starts_with [91] value && ends_with [93] value
  then words (take (length value - 2) (drop 1 value)) else [].

Definition _strict_flags (value : list Z) : result exc (list (list Z)) :=
  let flags := _parse_flags value in
  if negb (starts_with [91] (strip value)) || negb (ends_with [93] (strip value))
  then Err CapabilityFingerprintError
  else if existsb (existsb (λ c, c <? 32)) flags then Err CapabilityFingerprintError
  else Ok flags.

Definition _strict_output_integer (value : list Z) (minimum maximum : Z) : result exc Z :=
  let candidate := strip value in
  let digits := match candidate with 45 :: digits => digits | _ => candidate end in
  if negb (match_plus is_digit digits) || (20 <? zlen digits) then Err CapabilityFingerprintError
  else
    let parsed := match candidate with
                  | 45 :: _ => - int_of_digits digits | _ => int_of_digits digits end in
    if negb ((minimum <=? parsed) && (parsed <=? maximum)) then Err CapabilityFingerprintError
    else Ok parsed.

(** ** Headers *)

Section Headers.
Context (lib : pylib).

Definition safe_display_header (value : list Z) (maximum : Z) : result exc (list Z) :=
  if maximum <=? 0 then Err ValueError
  else Ok (take (Z.to_nat maximum) (filter (λ c, lib_unsafe lib c = false) value)).

(** [_HEADER_CONTROL_RE.sub(" ", value)] *)
Fixpoint blank_controls (inside : bool) (s : list Z) : list Z :=
  match s with
  | [] => []
  | c :: s =>
      if is_argument_control c
      then if inside then blank_controls true s else 32 :: blank_controls true s
      else c :: blank_controls false s
  end.

Definition MAX_ENVELOPE_HEADER_INPUT_CHARS : Z := 4096.
Definition MAX_ENVELOPE_HEADER_OUTPUT_CHARS : Z := 512.
Definition MAX_ENCODED_WORDS_PER_HEADER : Z := 64.

Definition _clean_envelope_header (value : list Z) : result exc (list Z) :=
  safe_display_header (strip (blank_controls false value)) MAX_ENVELOPE_HEADER_OUTPUT_CHARS.

Definition is_visible (c : Z) : bool := (33 <=? c) && (c <=? 126).

Fixpoint _decode_q_word (value : list Z) : option (list Z) :=
  match value with
  | [] => Some []
  | 95 :: r => cons 32 <$> _decode_q_word r
  | 61 :: r =>
      match r with
      | a :: b :: r =>
          x ← hex_value a; y ← hex_value b; cons (x * 16 + y) <$> _decode_q_word r
      | _ => None
      end
  | c :: r => if is_visible c then cons c <$> _decode_q_word r else None
  end.

(** The six bits of a character of standard base64. *)
Definition sextet (c : Z) : option Z :=
  if is_upper c then Some (c - 65) else if is_lower c then Some (c - 71)
  else if is_digit c then Some (c + 4) else if c =? 43 then Some 62 else if c =? 47 then Some 63
  else None.

Fixpoint sextets_bytes (ds : list Z) : list Z :=
  match ds with
  | a :: b :: c :: d :: ds =>
      let v := ((a * 64 + b) * 64 + c) * 64 + d in
      v / 65536 :: (v / 256) mod 256 :: v mod 256 :: sextets_bytes ds
  | [a; b; c] => let v := (a * 64 + b) * 64 + c in [v / 1024; (v / 4) mod 256]
  | [a; b] => [(a * 64 + b) / 16]
  | _ => []
  end.

(** [base64.b64decode(payload + padding, validate=True)] of a payload of
    [_BASE64_WORD_RE]: a last group of one character is an error, of two or three
    is completed; a padding after complete groups is ignored, unless it makes the
    length one more than a multiple of four. *)
Definition b64_word (payload : list Z) : option (list Z) :=
  let data := rstrip_by (Z.eqb 61) payload in
  let pads := zlen payload - zlen data in
  if bool_decide (data = []) || (2 <? pads) || (zlen payload mod 4 =? 1) then None
  else
    ds ← mapM sextet data;
    if zlen data mod 4 =? 1 then None else Some (sextets_bytes ds).

(** A match of [_ENCODED_WORD_RE]. *)
Record encoded_word := MkWord { ew_text : list Z; ew_charset : list Z; ew_encoding : Z; ew_payload : list Z }.

Definition is_word_char (c : Z) : bool := negb (c =? 63) && negb (is_space c).

Definition encoded_word_at (s : list Z) : option encoded_word :=
  match s with
  | 61 :: 63 :: r =>
      let '(charset, r) := span_by is_word_char r in
      match r with
      | 63 :: e :: 63 :: r =>
          let '(payload, r) := span_by is_word_char r in
          if (1 <=? zlen charset) && (zlen charset <=? 127) && in_chars (u "BbQq") e
             && (1 <=? zlen payload) && (zlen payload <=? 4096) && starts_with [63; 61] r
          then Some (MkWord ([61; 63] ++ charset ++ [63; e; 63] ++ payload ++ [63; 61])
                       charset e payload)
          else None
      | _ => None
      end
  | _ => None
  end.

(** [_ENCODED_WORD_RE.finditer]: each match with the text before it, and the
    text after the last. *)
Fixpoint encoded_words (skip : nat) (before s : list Z) : list (list Z * encoded_word) * list Z :=
  match s with
  | [] => ([], before)
  | c :: r =>
      match skip with
      | S skip => encoded_words skip before r
      | O => match encoded_word_at s with
             | Some w =>
                 let '(ws, rest) := encoded_words (length (ew_text w) - 1) [] r in
                 ((before, w) :: ws, rest)
             | None => encoded_words 0 (before ++ [c]) r
             end
      end
  end.

(** [return rendered or None] *)
Definition rendered_word (rendered : list Z) : option (list Z) :=
  match rendered, utf8_encode rendered with
  | [], _ | _, None => None
  | _, Some _ => Some rendered
  end.

Definition _decode_encoded_word (w : encoded_word) : result exc (option (list Z)) :=
  if negb (forallb is_visible (ew_charset w)) then Ok None
  else
    match (if lower_char (ew_encoding w) =? 98 then b64_word (ew_payload w)
           else _decode_q_word (ew_payload w)) with
    | None => Ok None
    | Some raw =>
        match lib_decode lib (ew_charset w) raw with
        | Ok rendered => Ok (rendered_word rendered)
        | Err e => if catches [LookupError; UnicodeError; ValueError] e then Ok None else Err e
        end
    end.

(** The loop over the words; [None] is a [return fallback]. *)
Fixpoint decode_words (count : Z) (previous : bool) (ws : list (list Z * encoded_word))
    : result exc (option (list Z)) :=
  match ws with
  | [] => Ok (Some [])
  | (separator, w) :: ws =>
      if MAX_ENCODED_WORDS_PER_HEADER <? count + 1 then Ok None
      else
        decoded ← _decode_encoded_word w;
        let separator :=
          match decoded with
          | Some _ => if previous && bool_decide (strip_blanks separator = []) then [] else separator
          | None => separator
          end in
        rest ← decode_words (count + 1) (match decoded with Some _ => true | None => false end) ws;
        Ok (t ← rest; Some (separator ++ default (ew_text w) decoded ++ t))
  end.

Definition _decode_envelope_header (value : list Z) : result exc (list Z) :=
  fallback ← _clean_envelope_header value;
  if negb (contains [61; 63] value) || (MAX_ENVELOPE_HEADER_INPUT_CHARS <? zlen value)
  then Ok fallback
  else
    let '(ws, tail) := encoded_words 0 [] value in
    text ← decode_words 0 false ws;
    match text with
    | None => Ok fallback
    | Some text =>
        match ws with [] => Ok fallback | _ => _clean_envelope_header (text ++ tail) end
    end.

(** ** [parse_message_list] *)

Definition MAX_MESSAGE_LIST_OUTPUT_BYTES : Z := 4 * 1024 * 1024.
Definition MAX_MESSAGE_OUTPUT_LINE_CHARS : Z := 64 * 1024.

(** The output as text: it was bytes, or text already. *)
Definition listing_text (output : list Z + list Z) : result exc (list Z) :=
  match output with
  | inl bytes =>
      if MAX_MESSAGE_LIST_OUTPUT_BYTES <? zlen bytes then Err CapabilityFingerprintError
      else match utf8_decode bytes with Some s => Ok s | None => Err CapabilityFingerprintError end
  | inr text =>
      match utf8_encode text with
      | None => Err CapabilityFingerprintError
      | Some bytes =>
          if MAX_MESSAGE_LIST_OUTPUT_BYTES <? zlen bytes then Err CapabilityFingerprintError
          else Ok text
      end
  end.

Definition blank (line : list Z) : bool := bool_decide (strip line = []).

(** The number after [UID], the text up to the first dash and the rest. *)
Definition compact_line (line : list Z) : option (list Z * list Z * list Z) :=
  match after_prefix (u "UID ") line with
  | Some ((c :: _) as r) =>
      let '(uid, r) := decimal_run lib r in
      r ← after_prefix (u ": ") r;
      '(from, subject) ← partition_on (u " - ") r;
      if (49 <=? c) && (c <=? 57) then Some (uid, from, subject) else None
  | _ => None
  end.

Definition compact_head (line : list Z) : result exc dict :=
  match compact_line line with
  | None => Err CapabilityFingerprintError
  | Some (uid, from, subject) =>
      uid ← _strict_output_integer uid 1 MAX_IMAP_UID;
      from ← _decode_envelope_header from;
      subject ← _decode_envelope_header subject;
      Ok [(u "uid", JInt uid); (u "from", JStr from); (u "subject", JStr subject)]
  end.

Fixpoint compact_records (lines : list (list Z)) : result exc (list dict) :=
  match lines with
  | [] => Ok []
  | line :: rest =>
      record ← compact_head line;
      match rest with
      | [] => Ok [record]
      | next :: rest' =>
          let details := strip next in
          match partition_on (u ", ") details with
          | Some (flag_text, date_text) =>
              flags ← _strict_flags flag_text;
              records ← compact_records rest';
              Ok ((record ++ [(u "flags", jstrs flags); (u "date", JStr date_text)]) :: records)
          | None =>
              if negb (starts_with (u "UID ") details) then Err CapabilityFingerprintError
              else records ← compact_records rest; Ok (record :: records)
          end
      end
  end.

(** [value.partition(" ")] and [human or value]. *)
Definition unix_human (value : list Z) : list Z * list Z :=
  match partition_char 32 value with
  | Some (unix, []) => (unix, value)
  | Some (unix, human) => (unix, human)
  | None => (value, value)
  end.

Definition INT64_MIN : Z := - 2 ^ 63.
Definition INT64_MAX : Z := 2 ^ 63 - 1.

Definition metadata_line (record : dict) (line : list Z) : result exc dict :=
  match partition_char 58 line with
  | None => if blank line then Ok record else Err CapabilityFingerprintError
  | Some (key, value) =>
      let key := str_lower lib (strip key) in
      let value := strip value in
      if str_eqb key (u "uid") then
        n ← _strict_output_integer value 1 MAX_IMAP_UID; Ok (obj_set (u "uid") (JInt n) record)
      else if str_eqb key (u "sequence number") then
        n ← _strict_output_integer value 1 MAX_IMAP_UID;
        Ok (obj_set (u "sequence_number") (JInt n) record)
      else if str_eqb key (u "flags") then
        flags ← _strict_flags value; Ok (obj_set (u "flags") (jstrs flags) record)
      else if str_eqb key (u "body size") then
        n ← _strict_output_integer value 0 INT64_MAX; Ok (obj_set (u "body_size") (JInt n) record)
      else if str_eqb key (u "internal date") then
        let '(unix, human) := unix_human value in
        n ← _strict_output_integer unix INT64_MIN INT64_MAX;
        Ok (obj_set (u "internal_date") (JStr human) (obj_set (u "internal_date_unix") (JInt n) record))
      else Ok record
  end.

Definition envelope_keys : list (list Z * list Z) :=
  [(u "from", u "from"); (u "to", u "to"); (u "cc", u "cc"); (u "bcc", u "bcc");
   (u "in-reply-to", u "in_reply_to"); (u "message-id", u "message_id"); (u "subject", u "subject")].
Definition _RFC2047_ENVELOPE_FIELDS : list (list Z) :=
  u <$> ["from"; "to"; "cc"; "bcc"; "subject"]%string.

Definition envelope_line (record : dict) (line : list Z) : result exc dict :=
  match partition_char 58 line with
  | None => if blank line then Ok record else Err CapabilityFingerprintError
  | Some (key, value) =>
      let normalized := str_lower lib (strip key) in
      let value := strip value in
      if str_eqb normalized (u "date") then
        let '(unix, human) := unix_human value in
        n ← _strict_output_integer unix INT64_MIN INT64_MAX;
        Ok (obj_set (u "date") (JStr human) (obj_set (u "date_unix") (JInt n) record))
      else match list_find (λ kv, kv.1 = normalized) envelope_keys with
      | None => Ok record
      | Some (_, (_, field)) =>
          text ← (if bool_decide (normalized ∈ _RFC2047_ENVELOPE_FIELDS)
                  then _decode_envelope_header value else Ok value);
          Ok (obj_set field (JStr text) record)
      end
  end.

Fixpoint fold_lines (f : dict → list Z → result exc dict) (record : dict) (lines : list (list Z))
    : result exc dict :=
  match lines with
  | [] => Ok record
  | line :: lines => record ← f record line; fold_lines f record lines
  end.

(** A UID of a record, in the range of IMAP. *)
Definition uid_in_range (v : json) : bool :=
  match v with JInt n => (1 <=? n) && (n <=? MAX_IMAP_UID) | _ => false end.

Definition full_record (block : list Z) : result exc dict :=
  match partition_on (u "- Envelope:") block with
  | None => Err CapabilityFingerprintError
  | Some (metadata_text, envelope_text) =>
      record ← fold_lines metadata_line [(u "flags", JArr [])] (splitlines metadata_text);
      record ← fold_lines envelope_line record (splitlines envelope_text);
      if uid_in_range (key (u "uid") record) then Ok record else Err CapabilityFingerprintError
  end.

Definition METADATA : list Z := u "- Server meta-data:".

Definition parse_message_list (output : list Z + list Z) : result exc (list dict) :=
  output ← listing_text output;
  if existsb (λ line, MAX_MESSAGE_OUTPUT_LINE_CHARS <? zlen line) (splitlines output)
  then Err CapabilityFingerprintError
  else if blank output then Ok []
  else if negb (contains METADATA output)
  then compact_records (filter (λ line, blank line = false) (splitlines output))
  else if negb (starts_with METADATA (lstrip_by is_space output))
  then Err CapabilityFingerprintError
  else match drop 1 (split_on METADATA 0 output) with
  | [] => Err CapabilityFingerprintError
  | blocks => result_map full_record blocks
  end.
End Headers.
