(* ===== verification/MaddyCli.v ===== *)
(** * The Maddy adapter: commands and the write gate

    The first part of the class [MaddyService] of [maddy.py]: how it runs a
    command, what it remembers of the installed release, the attestation of the
    command line and the checks that precede every write.  [Runner] is what runs a
    fixed argument vector, [service] the attributes fixed by the constructor and
    [cache] those the methods change.  The methods hold a re-entrant lock while
    they use the cache, so each is one step. *)

From S2P Require Import Prelude Text Errors Json Totp HelperBase Maddy MaddyConfig MaddyList.

(** ** Running commands *)

Record CommandResult := MkResult {
  returncode : Z; stdout : list Z; stderr : list Z;
  (* the bytes written to the output sink *)
  streamed : list Z
}.

(** No input, [input_data], or [input_stream] (its content) with [input_length]. *)
Inductive command_input : Type :=
| NoInput
| Data (data : list Z)
| Stream (content : list Z) (declared : Z).

Record run_options := MkRun {
  run_input : command_input; run_sink : bool; run_timeout : pyfloat; run_limit : Z;
  run_user : option (list Z)
}.

(** The [Runner] protocol, with the other things the class does outside the
    process: [stat] and [read_bytes] of the configuration file and
    [secrets.token_hex(16)]. *)
Class Runner (X : Type) := {
  r_run : list (list Z) → run_options → eff X exc CommandResult;
  r_size : list Z → eff X exc Z;
  r_bytes : list Z → eff X exc (list Z);
  r_token_hex : eff X exc (list Z)
}.

Record CliFingerprint := MkFingerprint { fp_sha256 : list Z; fp_signatures : list (list Z) }.

Record cache := MkCache {
  _installed_version : option SemVer;
  _installed_version_error : bool;
  _version : option SemVer;
  _cli_fingerprint : option CliFingerprint;
  _cli_fingerprint_version : option SemVer;
  _legacy_config_checked : bool;
  _legacy_config_has_ldap : bool;
  _legacy_config_has_import : bool;
  _runtime_config_has_env : bool;
  _legacy_config_has_unsafe_dynamic_config : bool;
  (* [_output_contract_failure is not None] *)
  _output_contract_failure : bool
}.

Record service := MkService {
  target : MaddyTarget; timeout : pyfloat; auth_block : list Z; storage_block : list Z }.

(** The value of a finite float from its [repr]: a mantissa and a power of ten. *)
Definition decimal_value (r : list Z) : Z * Z :=
  let '(negative, s) := match r with 45 :: s => (true, s) | _ => (false, r) end in
  let '(mantissa, e) := match partition_char 101 s with
                        | Some (m, 45 :: e) => (m, - int_of_digits e)
                        | Some (m, 43 :: e) => (m, int_of_digits e)
                        | Some (m, e) => (m, int_of_digits e)
                        | None => (s, 0)
                        end in
  let '(whole, fraction) := match partition_char 46 mantissa with
                            | Some (a, b) => (a, b) | None => (mantissa, []) end in
  let m := int_of_digits (whole ++ fraction) in
  (if negative then - m else m, e - zlen fraction).

(** [timeout <= 0] *)
Definition float_not_positive (f : pyfloat) : bool :=
  match f with
  | FFinite r => (decimal_value r).1 <=? 0
  | FNan => false
  | FInf negative => negative
  end.

(** [MaddyService.__init__] *)
Definition new_service (target : MaddyTarget) (timeout : pyfloat) (auth_block storage_block : list Z)
    (version : option SemVer) (cli_fingerprint : option CliFingerprint)
    : result exc (service * cache) :=
  if float_not_positive timeout then Err ValueError
  else
    auth_block ← _safe_block auth_block;
    storage_block ← _safe_block storage_block;
    supported ← match version with
                | None => Ok None
                | Some v => match require_supported_version v true with
                            | Ok v => Ok (Some v)
                            | Err e => if catches [UnsupportedVersion] e then Ok None else Err e
                            end
                end;
    Ok (MkService target timeout auth_block storage_block,
        MkCache version false supported cli_fingerprint
          (match cli_fingerprint with Some _ => supported | None => None end)
          false false false false false false).

(** [bytes.splitlines] and [bytes.strip]. *)
Fixpoint byte_lines_from (line s : list Z) : list (list Z) :=
  match s with
  | [] => match line with [] => [] | _ => [line] end
  | 13 :: 10 :: s => line :: byte_lines_from [] s
  | c :: s => if (c =? 10) || (c =? 13) then line :: byte_lines_from [] s
              else byte_lines_from (line ++ [c]) s
  end.
Definition byte_lines (s : list Z) : list (list Z) := byte_lines_from [] s.
Definition is_byte_space (c : Z) : bool := (c =? 32) || ((9 <=? c) && (c <=? 13)).
Definition strip_bytes (s : list Z) : list Z := rstrip_by is_byte_space (lstrip_by is_byte_space s).

Section Failure.
Context (lib : pylib).

(** [str(value)] *)
Definition json_str (j : json) : list Z :=
  match j with
  | JStr s => s
  | JInt z => str_of_int z
  | JBool b => if b then u "True" else u "False"
  | JNull => u "None"
  | JFloat (FFinite r) => r
  | JFloat FNan => u "nan"
  | JFloat (FInf negative) => if negative then u "-inf" else u "inf"
  | _ => lib_str lib j
  end.

Definition get_or (d : dict) (k : list Z) (v : json) : json := default v (obj_get k d).

(** An event of the log: does it report a failure? *)
Definition failure_event (event : json) : bool :=
  match event with
  | JObj d =>
      has_key (u "reason") d
      && (let level := str_lower lib (json_str (get_or d (u "level") (JStr []))) in
          let message :=
            str_lower lib (json_str (get_or d (u "msg") (get_or d (u "message") (JStr [])))) in
          bool_decide (level ∈ [u "error"; u "fatal"]) || contains (u "failed") message)
  | _ => false
  end.

Fixpoint failure_lines (lines : list (list Z)) : result exc bool :=
  match lines with
  | [] => Ok false
  | raw_line :: lines =>
      let line := strip_bytes raw_line in
      if negb (starts_with [123] line && ends_with [125] line) then failure_lines lines
      else match lib_loads lib line with
      | Ok event => if failure_event event then Ok true else failure_lines lines
      | Err e => if catches [JSONDecodeError; UnicodeDecodeError] e then failure_lines lines
                 else Err e
      end
  end.

Definition failure_stream (raw_stream : list Z) : result exc bool :=
  if contains (u "app.Run failed") raw_stream then Ok true
  else failure_lines (byte_lines raw_stream).

Definition _reported_application_failure (r : CommandResult) : result exc bool :=
  out ← failure_stream (stdout r);
  if out : bool then Ok true else failure_stream (stderr r).
End Failure.

(** The state of the adapter: its cache and the world outside. *)
Record maddy (X : Type) := MkMaddy { m_cache : cache; m_outside : X }.
Arguments MkMaddy {X}.
Arguments m_cache {X}.
Arguments m_outside {X}.

Definition C (X : Type) : Type → Type := eff (maddy X) exc.

Section Cache.
Context {X : Type}.

Definition outside {A} (m : eff X exc A) : C X A :=
  λ s, let '(r, x) := m (m_outside s) in (r, MkMaddy (m_cache s) x).
Definition cached {A} (f : cache → A) : C X A := gets (λ s, f (m_cache s)).
Definition update (f : cache → cache) : C X unit :=
  modify (λ s, MkMaddy (f (m_cache s)) (m_outside s)).

Definition with_versions (installed : option SemVer) (error : bool) (version : option SemVer)
    (c : cache) : cache :=
  MkCache installed error version (_cli_fingerprint c) (_cli_fingerprint_version c)
    (_legacy_config_checked c) (_legacy_config_has_ldap c) (_legacy_config_has_import c)
    (_runtime_config_has_env c) (_legacy_config_has_unsafe_dynamic_config c)
    (_output_contract_failure c).
Definition with_version (version : SemVer) (c : cache) : cache :=
  with_versions (_installed_version c) (_installed_version_error c) (Some version) c.
Definition with_fingerprint (fp : CliFingerprint) (version : SemVer) (c : cache) : cache :=
  MkCache (_installed_version c) (_installed_version_error c) (_version c) (Some fp) (Some version)
    (_legacy_config_checked c) (_legacy_config_has_ldap c) (_legacy_config_has_import c)
    (_runtime_config_has_env c) (_legacy_config_has_unsafe_dynamic_config c)
    (_output_contract_failure c).
Definition with_config (checked ldap import env unsafe : bool) (c : cache) : cache :=
  MkCache (_installed_version c) (_installed_version_error c) (_version c) (_cli_fingerprint c)
    (_cli_fingerprint_version c) checked ldap import env unsafe (_output_contract_failure c).
Definition with_contract_failure (c : cache) : cache :=
  MkCache (_installed_version c) (_installed_version_error c) (_version c) (_cli_fingerprint c)
    (_cli_fingerprint_version c) (_legacy_config_checked c) (_legacy_config_has_ldap c)
    (_legacy_config_has_import c) (_runtime_config_has_env c)
    (_legacy_config_has_unsafe_dynamic_config c) true.
Definition unchecked (c : cache) : cache :=
  with_config false (_legacy_config_has_ldap c) (_legacy_config_has_import c)
    (_runtime_config_has_env c) (_legacy_config_has_unsafe_dynamic_config c) c.
End Cache.

(** ** Help texts *)

Definition _ADMIN_GROUP_ACTIONS : list (list Z * list (list Z)) :=
  [(u "creds", u <$> ["list"; "create"; "remove"; "password"]%string);
   (u "imap-acct", u <$> ["list"; "create"; "remove"; "appendlimit"]%string);
   (u "imap-mboxes", u <$> ["list"; "create"; "remove"; "rename"]%string);
   (u "imap-msgs", u <$> ["add"; "add-flags"; "rem-flags"; "set-flags"; "remove"; "copy"; "move";
                          "list"; "dump"]%string)].

Definition action (group name usage : string) (options : list string)
    : list Z * list Z * (list Z * list (list Z)) :=
  (u group, u name, (u usage, u <$> options)).

Definition _ACTION_PROFILE : list (list Z * list Z * (list Z * list (list Z))) :=
  [action "creds" "list" "" ["cfg-block"];
   action "creds" "create" "USERNAME" ["cfg-block"; "password"; "hash"; "bcrypt-cost"];
   action "creds" "remove" "USERNAME" ["cfg-block"; "yes"];
   action "creds" "password" "USERNAME" ["cfg-block"; "password"];
   action "imap-acct" "list" "" ["cfg-block"];
   action "imap-acct" "create" "USERNAME"
     ["cfg-block"; "no-specialuse"; "sent-name"; "trash-name"; "junk-name"; "drafts-name";
      "archive-name"];
   action "imap-acct" "remove" "USERNAME" ["cfg-block"; "yes"];
   action "imap-acct" "appendlimit" "USERNAME" ["cfg-block"; "value"];
   action "imap-mboxes" "list" "USERNAME" ["cfg-block"; "subscribed"];
   action "imap-mboxes" "create" "USERNAME NAME" ["cfg-block"; "special"];
   action "imap-mboxes" "remove" "USERNAME MAILBOX" ["cfg-block"; "yes"];
   action "imap-mboxes" "rename" "USERNAME OLDNAME NEWNAME" ["cfg-block"];
   action "imap-msgs" "add" "USERNAME MAILBOX" ["cfg-block"; "flag"; "date"];
   action "imap-msgs" "add-flags" "USERNAME MAILBOX SEQ FLAGS..." ["cfg-block"; "uid"];
   action "imap-msgs" "rem-flags" "USERNAME MAILBOX SEQ FLAGS..." ["cfg-block"; "uid"];
   action "imap-msgs" "set-flags" "USERNAME MAILBOX SEQ FLAGS..." ["cfg-block"; "uid"];
   action "imap-msgs" "remove" "USERNAME MAILBOX SEQSET" ["cfg-block"; "uid"; "yes"];
   action "imap-msgs" "copy" "USERNAME SRCMAILBOX SEQSET TGTMAILBOX" ["cfg-block"; "uid"];
   action "imap-msgs" "move" "USERNAME SRCMAILBOX SEQSET TGTMAILBOX" ["cfg-block"; "uid"];
   action "imap-msgs" "list" "USERNAME MAILBOX [SEQSET]" ["cfg-block"; "uid"; "full"];
   action "imap-msgs" "dump" "USERNAME MAILBOX SEQ" ["cfg-block"; "uid"]]%string.

Definition _PROFILED_RELEASES : list (list Z) := version_text <$> TESTED_RELEASES.

Definition is_option_char (c : Z) : bool := is_lower c || is_digit c || (c =? 45).

(** A line of the COMMANDS section: the name of the command. *)
Definition help_line (line : list Z) : option (list Z) :=
  let '(blanks, r) := span_by is_space line in
  let '(name, r) := span_by is_option_char r in
  let r := match r with
           | 44 :: r' => match lstrip_by is_space r' with
                         | c :: r' => if is_lower c then r' else r
                         | [] => r
                         end
           | _ => r
           end in
  if (2 <=? zlen blanks) && match name with c :: _ => is_lower c | [] => false end
     && match r with [] => true | a :: b :: _ => is_space a && is_space b | [_] => false end
  then Some name else None.

Definition before_marker (marker section : list Z) : list Z :=
  default section (fst <$> partition_on marker section).

Definition _help_commands (help_text : list Z) : result exc (list (list Z)) :=
  match partition_on (u "COMMANDS:") help_text with
  | None => Err CapabilityFingerprintError
  | Some (_, section) =>
      let section := before_marker (u "OPTIONS:") section in
      let section := before_marker (u "GLOBAL OPTIONS:") section in
      Ok (remove_dups (filter (λ name, name ≠ u "help") (omap help_line (splitlines section))))
  end.

(** A line that starts the next section. *)
Definition section_line (line : list Z) : bool :=
  match line with
  | [] => false
  | c :: _ => negb (is_space c) && ends_with [58] (rstrip_by is_space line)
  end.
Fixpoint until_section (lines : list (list Z)) : list (list Z) :=
  match lines with
  | [] => []
  | line :: lines => if section_line line then [] else line :: until_section lines
  end.
Fixpoint after_options (lines : list (list Z)) : option (list (list Z)) :=
  match lines with
  | [] => None
  | line :: lines => if str_eqb (strip line) (u "OPTIONS:") then Some lines else after_options lines
  end.

(** [re.findall("--([a-z][a-z0-9-]*)", s)] *)
Definition option_at (s : list Z) : option (list Z) :=
  match after_prefix [45; 45] s with
  | Some ((c :: _) as r) => if is_lower c then Some (fst (span_by is_option_char r)) else None
  | _ => None
  end.
Fixpoint option_names (skip : nat) (s : list Z) : list (list Z) :=
  match s with
  | [] => []
  | _ :: r =>
      match skip, option_at s with
      | S skip, _ => option_names skip r
      | O, Some name => name :: option_names (length name + 1) r
      | O, None => option_names 0 r
      end
  end.

Definition _help_options (help_text : list Z) : result exc (list (list Z)) :=
  match after_options (splitlines help_text) with
  | None => Err CapabilityFingerprintError
  | Some lines =>
      let options := option_names 0 (join [10] (until_section lines)) in
      Ok (remove_dups (filter (λ name, name ≠ u "help") options))
  end.

(** Sets of texts: equality, and [sorted]. *)
Definition equal_sets (a b : list (list Z)) : bool :=
  forallb (λ x, bool_decide (x ∈ b)) a && forallb (λ x, bool_decide (x ∈ a)) b.
Definition sorted_texts (l : list (list Z)) : list (list Z) := merge_sort zlist_le l.
Definition comma_list (l : list (list Z)) : list Z := join [44] (sorted_texts l).

(** ** The service *)

Section Service.
Context {X : Type} (lib : pylib) `{!Runner X} (self : service).

(** The call of the runner, and what is read off its result. *)
Definition _invoke (suffix : list (list Z)) (input : command_input) (sink use_config : bool)
    (limit : Z) : C X CommandResult :=
  let has_stdin := match input with NoInput => false | _ => true end in
  argv ← lift (argv (target self) suffix has_stdin use_config);
  result ← outside (r_run argv
    (MkRun input sink (timeout self) limit (run_as_user (target self))));
  if negb (returncode result =? 0) then throw (CommandFailed false)
  else
    failed ← lift (_reported_application_failure lib result);
    if failed : bool then throw (CommandFailed true) else mret result.

Definition DEFAULT_MAX_OUTPUT_BYTES : Z := 8 * 1024 * 1024.
Definition DEFAULT_MAX_INPUT_BYTES : Z := 32 * 1024 * 1024.

(** A command without input. *)
Definition invoke (suffix : list (list Z)) (limit : Z) : C X CommandResult :=
  _invoke suffix NoInput false true limit.

Definition both_text (result : CommandResult) : list Z :=
  decode_replace (stdout result ++ stderr result).

Definition probe_installed_version (refresh : bool) : C X SemVer :=
  known ← cached _installed_version;
  error ← cached _installed_version_error;
  match refresh, known, error with
  | false, Some v, _ => mret v
  | false, None, true => throw VersionParseError
  | _, _, _ =>
      result ← _invoke [u "version"] NoInput false false (64 * 1024);
      match from_maddy_output lib (stdout result) with
      | Ok installed => update (with_versions (Some installed) false None) ≫= λ _, mret installed
      | Err e =>
          if catches [VersionParseError] e
          then update (with_versions None true None) ≫= λ _, throw e else throw e
      end
  end.

Definition probe_version (refresh : bool) : C X SemVer :=
  known ← cached _version;
  match refresh, known with
  | false, Some v => mret v
  | _, _ =>
      installed ← probe_installed_version refresh;
      version ← lift (require_supported_version installed true);
      update (with_version version) ≫= λ _, mret version
  end.

Definition capabilities : C X (list Capability) :=
  version ← probe_version false; lift (capabilities_for version).

Definition HELP_LIMIT : Z := 512 * 1024.

(** The top-level help: the line of the profile. *)
Definition top_profile (version : SemVer) : C X (list Z) :=
  result ← invoke [u "--help"] HELP_LIMIT;
  top_commands ← lift (_help_commands (both_text result));
  let groups := _ADMIN_GROUP_ACTIONS.*1 in
  let missing_groups := negb (forallb (λ g, bool_decide (g ∈ top_commands)) groups) in
  let has_verify_config := bool_decide (u "verify-config" ∈ top_commands) in
  if missing_groups || negb (Bool.eqb has_verify_config (semver_ge version (release 0 9 0)))
  then throw CapabilityFingerprintError
  else mret (u "top:" ++ comma_list (groups ++ if has_verify_config then [u "verify-config"] else [])).

Definition group_profile (entry : list Z * list (list Z)) : C X (list Z) :=
  let '(group, expected_actions) := entry in
  result ← invoke [group; u "--help"] HELP_LIMIT;
  commands ← lift (_help_commands (both_text result));
  if negb (equal_sets commands expected_actions) then throw CapabilityFingerprintError
  else mret (group ++ [58] ++ comma_list expected_actions).

Definition action_profile (entry : list Z * list Z * (list Z * list (list Z))) : C X (list Z) :=
  let '(group, name, (usage_fragment, expected_options)) := entry in
  result ← invoke [group; name; u "--help"] HELP_LIMIT;
  let help_text := both_text result in
  if negb (bool_decide (usage_fragment = []))
     && negb (contains usage_fragment (join [32] (words help_text)))
  then throw CapabilityFingerprintError
  else
    observed_options ← lift (_help_options help_text);
    if negb (equal_sets observed_options expected_options) then throw CapabilityFingerprintError
    else mret (join [32] [group; name] ++ [124] ++ usage_fragment ++ [124]
               ++ comma_list observed_options).

(** The signatures recorded with the digest. *)
Definition profile_signatures : list (list Z) :=
  u "--help" :: ((λ entry, entry.1 ++ u " --help") <$> _ADMIN_GROUP_ACTIONS)
  ++ ((λ entry, join [32] [entry.1.1; entry.1.2] ++ u " --help") <$> _ACTION_PROFILE).

Definition scan_profile (version : SemVer) : C X CliFingerprint :=
  if negb (bool_decide (version_text version ∈ _PROFILED_RELEASES))
  then throw CapabilityFingerprintError
  else
    top ← top_profile version;
    groups ← eff_map group_profile _ADMIN_GROUP_ACTIONS;
    actions ← eff_map action_profile _ACTION_PROFILE;
    match utf8_encode (join [10] (top :: groups ++ actions)) with
    | None => throw UnicodeEncodeError
    | Some profile => mret (MkFingerprint (hex (sha256 profile)) profile_signatures)
    end.

Definition probe_cli_fingerprint (refresh : bool) : C X CliFingerprint :=
  version ← probe_version false;
  known ← cached _cli_fingerprint;
  known_for ← cached _cli_fingerprint_version;
  match known, refresh, known_for with
  | Some fp, false, Some v =>
      if semver_eqb v version then mret fp
      else fp ← scan_profile version; update (with_fingerprint fp version) ≫= λ _, mret fp
  | _, _, _ => fp ← scan_profile version; update (with_fingerprint fp version) ≫= λ _, mret fp
  end.

Definition CONFIG_LIMIT : Z := 2 * 1024 * 1024.

(** [except OSError: raise LegacyLDAPUnsafe] *)
Definition os_unsafe {A} (m : C X A) : C X A :=
  o ← attempt (catches [OSError]) m;
  match o with Some a => mret a | None => throw LegacyLDAPUnsafe end.

Definition _read_effective_config : C X (list Z) :=
  match config_path (target self) with
  | None => throw LegacyLDAPUnsafe
  | Some path =>
      data ← match mode (target self) with
             | NATIVE =>
                 size ← os_unsafe (outside (r_size path));
                 if (size <=? 0) || (CONFIG_LIMIT <? size) then throw LegacyLDAPUnsafe
                 else
                   data ← os_unsafe (outside (r_bytes path));
                   if negb (zlen data =? size) then throw LegacyLDAPUnsafe else mret data
             | DOCKER =>
                 argv ← lift (config_read_argv (target self));
                 result ← outside (r_run argv (MkRun NoInput false (timeout self) CONFIG_LIMIT None));
                 if negb (returncode result =? 0) then throw LegacyLDAPUnsafe
                 else
                   failed ← lift (_reported_application_failure lib result);
                   if failed : bool then throw LegacyLDAPUnsafe else mret (stdout result)
             end;
      mret (decode_replace data)
  end.

Definition is_docker : bool :=
  match mode (target self) with DOCKER => true | NATIVE => false end.

(** The part that reads the configuration unless it was checked before. *)
Definition check_config : C X unit :=
  checked ← cached _legacy_config_checked;
  if checked : bool then mret tt
  else
    config_text ← _read_effective_config;
    '(tokens, uncommented) ← lift (_config_tokens_and_text config_text);
    let has t := bool_decide (u t ∈ tokens) in
    let ldap := has "auth.ldap"%string || has "table.ldap"%string || has "ldap"%string in
    let import := has "import"%string in
    let env := contains ENV uncommented in
    unsafe ← cached _legacy_config_has_unsafe_dynamic_config;
    update (with_config false ldap import env unsafe) ≫= λ _,
    unsafe ← lift (_legacy_dynamic_config_is_unsafe config_text uncommented is_docker);
    update (with_config true ldap import env unsafe).

Definition _ensure_legacy_auth_safe (version : SemVer) : C X unit :=
  let legacy := semver_lt version (release 0 9 3) in
  if negb legacy && is_docker then mret tt
  else
    check_config ≫= λ _,
    ldap ← cached _legacy_config_has_ldap;
    import ← cached _legacy_config_has_import;
    env ← cached _runtime_config_has_env;
    unsafe ← cached _legacy_config_has_unsafe_dynamic_config;
    require (negb (legacy && ldap)) LegacyLDAPUnsafe ≫= λ _,
    require (negb (legacy && import)) LegacyLDAPUnsafe ≫= λ _,
    require (negb (legacy && unsafe)) LegacyLDAPUnsafe ≫= λ _,
    require (negb (negb is_docker && (env || unsafe))) RuntimeConfigUnsafe ≫= λ _,
    require (negb (negb is_docker && import)) RuntimeConfigUnsafe.

(** The exception [startup_safety_status] reports. *)
Definition catch_reason {A} (classes : list exc) (m : C X A) : C X (A + exc) := λ s,
  match m s with
  | (Ok a, s') => (Ok (inl a), s')
  | (Err e, s') => if catches classes e then (Ok (inr e), s') else (Err e, s')
  end.

Definition blocked (version : SemVer) (e : exc) : dict :=
  [(u "version", JStr (version_text version)); (u "writes_enabled", JBool false);
   (u "reason", JStr (type_name e))].

Definition startup_safety_status : C X dict :=
  version ← probe_version false;
  failure ← cached _output_contract_failure;
  if failure : bool then mret (blocked version CapabilityFingerprintError)
  else
    r ← catch_reason [CapabilityFingerprintError; LegacyLDAPUnsafe; RuntimeConfigUnsafe]
          (fingerprint ← probe_cli_fingerprint false;
           _ensure_legacy_auth_safe version ≫= λ _, mret fingerprint);
    match r with
    | inr e => mret (blocked version e)
    | inl fingerprint =>
        mret [(u "version", JStr (version_text version)); (u "writes_enabled", JBool true);
              (u "cli_fingerprint", JStr (fp_sha256 fingerprint))]
    end.

(** [if capability not in capabilities_for(version): raise ..] *)
Definition require_capability (capability : Capability) (version : SemVer) : C X unit :=
  known ← lift (capabilities_for version);
  require (bool_decide (capability ∈ known)) UnsupportedCapability.

Definition require_write_safety (capability : Capability) : C X SemVer :=
  version ← probe_version true;
  failure ← cached _output_contract_failure;
  require (negb failure) CapabilityFingerprintError ≫= λ _,
  require_capability capability version ≫= λ _,
  when (semver_lt version (release 0 9 3) || negb is_docker) (update unchecked) ≫= λ _,
  _ensure_legacy_auth_safe version ≫= λ _,
  probe_cli_fingerprint false ≫= λ _,
  mret version.

Definition _require (capability : Capability) (write : bool) : C X SemVer :=
  if write then require_write_safety capability
  else
    version ← probe_version false;
    require_capability capability version ≫= λ _, mret version.

Definition no_info (version : list Z) (reason : string) : dict :=
  [(u "version", JStr version); (u "mode", JStr (mode_value (mode (target self))));
   (u "capabilities", JArr []); (u "writes_enabled", JBool false); (u "cli_fingerprint", JNull);
   (u "write_block_reason", JStr (u reason))].

Definition version_info : C X dict :=
  installed ← attempt (catches [VersionParseError]) (probe_installed_version false);
  match installed with
  | None => mret (no_info (u "unknown") "VersionParseError")
  | Some installed =>
      supported ← attempt (catches [UnsupportedVersion])
                    (lift (require_supported_version installed true));
      match supported with
      | None => mret (no_info (version_text installed) "UnsupportedVersion")
      | Some version =>
          safety ← startup_safety_status;
          capabilities ← lift (capabilities_for version);
          mret [(u "version", JStr (version_text version));
                (u "mode", JStr (mode_value (mode (target self))));
                (u "capabilities", jstrs (sorted_texts (capability_value <$> capabilities)));
                (u "writes_enabled", key (u "writes_enabled") safety);
                (u "cli_fingerprint", key (u "cli_fingerprint") safety);
                (u "write_block_reason", key (u "reason") safety)]
      end
  end.

Definition verify_config : C X (list Z) :=
  _require VERIFY_CONFIG false ≫= λ _,
  result ← invoke [u "verify-config"] (256 * 1024);
  mret (strip (both_text result)).

Definition reload : C X unit :=
  _require TLS_RELOAD false ≫= λ _,
  result ← outside (r_run (reload_argv (target self))
    (MkRun NoInput false (timeout self) (256 * 1024) None));
  if negb (returncode result =? 0) then throw (CommandFailed false) else mret tt.

(** [_fail_output_contract]: later writes are refused. *)
Definition _fail_output_contract {A} : C X A :=
  update with_contract_failure ≫= λ _, throw CapabilityFingerprintError.

End Service.
