(* ===== verification/MaddyOps.v ===== *)
(** * The Maddy adapter: accounts, mailboxes and messages

    The methods of the class [MaddyService] of [maddy.py] that the helper calls:
    each asks the write gate of [MaddyCli] first, checks its arguments, runs the
    commands and reads the result back.  At the end, the instance of the interface
    [HelperBase.MaddyService]. *)

From S2P Require Import Prelude Text Errors Json HelperBase Maddy MaddyConfig MaddyList MaddyCli.

(** [sorted] with a key, which is stable. *)
Fixpoint insert_by {A} (f : A → list Z) (x : A) (l : list A) : list A :=
  match l with
  | [] => [x]
  | y :: r => if zlist_leb (f x) (f y) then x :: l else y :: insert_by f x r
  end.
Definition sort_by {A} (f : A → list Z) (l : list A) : list A := foldr (insert_by f) [] l.

(** A record of [list_mailboxes]. *)
Record mailbox_record := MkMailbox { mb_name : list Z; mb_attributes : list (list Z) }.
Definition mailbox_dict (m : mailbox_record) : dict :=
  [(u "name", JStr (mb_name m)); (u "attributes", jstrs (mb_attributes m))].

Definition _SPECIAL_USES : list (list Z) :=
  u <$> ["archive"; "drafts"; "junk"; "sent"; "trash"]%string.
Definition _PROTECTED_MAILBOX_NAMES : list (list Z) := u "inbox" :: _SPECIAL_USES.
Definition _PROTECTED_SPECIAL_USE_FLAGS : list (list Z) :=
  u <$> ["\all"; "\archive"; "\drafts"; "\flagged"; "\important"; "\junk"; "\sent"; "\trash"]%string.
Definition _MAILBOX_QUARANTINE_PREFIX : list Z := u "MaddyWeb Quarantine ".
Definition _MAILBOX_QUARANTINE_ATTEMPTS : nat := 4.

Section Methods.
Context {X : Type} (lib : pylib) `{!Runner X} (self : service).

Notation require_ := (_require lib self).
Notation invoke_ := (invoke lib self).
Notation C := (C X).

(** [with suppress(MaddyError)], and [except MaddyError]. *)
Definition is_maddy_error : exc → bool := catches [MaddyError].
Definition suppress {A} (m : C A) : C unit := attempt is_maddy_error m ≫= λ _, mret tt.
Definition on_maddy_error {A} (m : C A) (handler : exc → C A) : C A := λ s,
  match m s with
  | (Err e, s') => if is_maddy_error e then handler e s' else (Err e, s')
  | r => r
  end.

Definition username_ok (username : json) : result exc (list Z) := _safe_positional username 254.
Definition mailbox_ok (mailbox : json) : result exc (list Z) := _safe_positional mailbox 255.

(** ** Accounts *)

Definition CFG : list Z := u "--cfg-block".

Definition _credentials (action : list Z) (args : list (list Z)) (input : command_input)
    (write : bool) : C CommandResult :=
  require_ ACCOUNT_ADMIN write ≫= λ _,
  _invoke lib self ([u "creds"; action; CFG; auth_block self] ++ args) input false true
    DEFAULT_MAX_OUTPUT_BYTES.

Definition _imap_accounts (action : list Z) (args : list (list Z)) (write : bool) : C CommandResult :=
  require_ ACCOUNT_ADMIN write ≫= λ _,
  invoke_ ([u "imap-acct"; action; CFG; storage_block self] ++ args) DEFAULT_MAX_OUTPUT_BYTES.

Definition bad_account_line (line : list Z) : bool :=
  (254 <? zlen line) || starts_with [45] line || existsb (λ c, is_space c || (c <? 32)) line.

Definition is_only (p : list Z → bool) (lines : list (list Z)) : bool :=
  match lines with [line] => p line | _ => false end.

Definition _account_lines (result : CommandResult) (empty_marker : list Z) : C (list (list Z)) :=
  match utf8_decode (stdout result) with
  | None => _fail_output_contract
  | Some text =>
      let lines := filter (λ line, line ≠ []) (strip <$> splitlines text) in
      if is_only (λ line, str_eqb (casefold lib line) (casefold lib empty_marker)) lines then mret []
      else if existsb bad_account_line lines then _fail_output_contract
      else mret lines
  end.

Definition list_credentials : C (list (list Z)) :=
  result ← _credentials (u "list") [] NoInput false; _account_lines result (u "No users.").
Definition list_imap_accounts : C (list (list Z)) :=
  result ← _imap_accounts (u "list") [] false; _account_lines result (u "No users.").

Definition get_append_limit (username : json) : C json :=
  username ← lift (username_ok username);
  result ← _imap_accounts (u "appendlimit") [username] false;
  let value := strip (decode_replace (stdout result)) in
  if bool_decide (value = [])
     || bool_decide (str_lower lib value ∈ [u "none"; u "unlimited"; u "no limit"])
  then mret JNull
  else if negb (isdecimal lib value) then throw MaddyError
  else n ← lift (int_of_decimal lib value); mret (JInt n).

Definition account_record (credentials mailboxes : list (list Z)) (include_append_limits : bool)
    (username : list Z) : C dict :=
  let has_mailbox := bool_decide (username ∈ mailboxes) in
  let account :=
    [(u "id", JStr username); (u "address", JStr username); (u "username", JStr username);
     (u "has_credentials", JBool (bool_decide (username ∈ credentials)));
     (u "has_mailbox", JBool has_mailbox)] in
  if has_mailbox && include_append_limits then
    limit ← attempt is_maddy_error (get_append_limit (JStr username));
    mret (account ++ match limit with
                     | Some limit => [(u "append_limit", limit)]
                     | None => [(u "append_limit", JNull); (u "append_limit_error", JBool true)]
                     end)
  else mret (account ++ [(u "append_limit", JNull)]).

Definition list_accounts (include_append_limits : bool) : C (list dict) :=
  credentials ← list_credentials;
  mailboxes ← list_imap_accounts;
  let usernames := sort_by (casefold lib) (lib_set lib (remove_dups (credentials ++ mailboxes))) in
  eff_map (account_record credentials mailboxes include_append_limits) usernames.

(** Two attempts to see whether the account is listed; [None] when both fail. *)
Definition observe (username : list Z) (list_resource : C (list (list Z))) : C (option bool) :=
  first ← attempt is_maddy_error list_resource;
  match first with
  | Some names => mret (Some (bool_decide (username ∈ names)))
  | None =>
      second ← attempt is_maddy_error list_resource;
      mret ((λ names, bool_decide (username ∈ names)) <$> second)
  end.

Definition seen (o : option bool) : bool := match o with Some b => b | None => false end.

Definition _compensate_account_creation (username : list Z)
    (credential_baseline mailbox_baseline : list (list Z)) : C (list (list Z) * bool) :=
  let credential_was_present := bool_decide (username ∈ credential_baseline) in
  let mailbox_was_present := bool_decide (username ∈ mailbox_baseline) in
  credential_is_present ← observe username list_credentials;
  mailbox_is_present ← observe username list_imap_accounts;
  let credential_was_created := negb credential_was_present && seen credential_is_present in
  let mailbox_was_created := negb mailbox_was_present && seen mailbox_is_present in
  when mailbox_was_created (suppress (_imap_accounts (u "remove") [u "-y"; username] true)) ≫= λ _,
  when credential_was_created
    (suppress (_credentials (u "remove") [u "-y"; username] NoInput true)) ≫= λ _,
  final_credential_is_present ← observe username list_credentials;
  final_mailbox_is_present ← observe username list_imap_accounts;
  let credential_was_created :=
    credential_was_created || (negb credential_was_present && seen final_credential_is_present) in
  let mailbox_was_created :=
    mailbox_was_created || (negb mailbox_was_present && seen final_mailbox_is_present) in
  let completed := (if credential_was_created then [u "credentials.create"] else [])
                   ++ (if mailbox_was_created then [u "mailbox.create"] else []) in
  let rollback_succeeded :=
    bool_decide (final_credential_is_present = Some credential_was_present)
    && bool_decide (final_mailbox_is_present = Some mailbox_was_present) in
  mret (completed, rollback_succeeded).

(** The body of the [try] statement of [create_account]. *)
Definition create_both (username : list Z) (password_data : list Z) : C unit :=
  _credentials (u "create") [username] (Data password_data) true ≫= λ _,
  _imap_accounts (u "create") [username] true ≫= λ _,
  credentials ← list_credentials;
  require (bool_decide (username ∈ credentials)) MaddyError ≫= λ _,
  mailboxes ← list_imap_accounts;
  require (bool_decide (username ∈ mailboxes)) MaddyError.

Definition create_account (username password : json) : C dict :=
  username ← lift (username_ok username);
  password_data ← lift (_password_input password);
  credential_baseline ← list_credentials;
  mailbox_baseline ← list_imap_accounts;
  on_maddy_error (create_both username password_data)
    (λ e,
      '(completed, rollback_succeeded) ←
        _compensate_account_creation username credential_baseline mailbox_baseline;
      if bool_decide (completed = []) && rollback_succeeded then throw e
      else throw PartialOperationError) ≫= λ _,
  mret [(u "username", JStr username); (u "has_credentials", JBool true);
        (u "has_mailbox", JBool true)].

Definition change_password (username password : json) : C unit :=
  username ← lift (username_ok username);
  data ← lift (_password_input password);
  _credentials (u "password") [username] (Data data) true ≫= λ _,
  credentials ← list_credentials;
  require (bool_decide (username ∈ credentials)) MaddyError.

Definition disable_credentials (username : json) : C unit :=
  username ← lift (username_ok username);
  _credentials (u "remove") [u "-y"; username] NoInput true ≫= λ _,
  credentials ← list_credentials;
  require (negb (bool_decide (username ∈ credentials))) MaddyError.

Definition delete_imap_account (username : json) : C unit :=
  username ← lift (username_ok username);
  _imap_accounts (u "remove") [u "-y"; username] true ≫= λ _,
  mailboxes ← list_imap_accounts;
  require (negb (bool_decide (username ∈ mailboxes))) MaddyError.

Definition delete_account (username : json) : C unit :=
  username ← lift (username_ok username);
  disable_credentials (JStr username) ≫= λ _,
  on_maddy_error (delete_imap_account (JStr username)) (λ _, throw PartialOperationError).

Definition MAX_APPEND_LIMIT : Z := 4 * 1024 ^ 3.

Definition set_append_limit (username value : json) : C json :=
  username ← lift (username_ok username);
  match value with
  | JInt n =>
      if negb ((0 <=? n) && (n <=? MAX_APPEND_LIMIT)) then throw InvalidMaddyArgument
      else
        _imap_accounts (u "appendlimit") [u "--value"; str_of_int n; username] true ≫= λ _,
        observed ← get_append_limit (JStr username);
        let expected := if n =? 0 then JNull else JInt n in
        require (bool_decide (observed = expected)) MaddyError ≫= λ _, mret expected
  | _ => throw InvalidMaddyArgument
  end.

(** ** Mailboxes *)

Definition bad_mailbox_name (name : list Z) : bool :=
  bool_decide (name = []) || (255 <? zlen name) || starts_with [45] name
  || existsb (λ c, c <? 32) name.

(** A line of the listing; [None] breaks the output contract. *)
Definition mailbox_entry (line : list Z) : option mailbox_record :=
  match partition_char 9 line with
  | None => if bad_mailbox_name line then None else Some (MkMailbox line [])
  | Some (name, attributes) =>
      if bad_mailbox_name name || negb (starts_with [91] (strip attributes)) then None
      else match _strict_flags attributes with
           | Ok flags => Some (MkMailbox name flags)
           | Err _ => None
           end
  end.

Definition mailbox_records (username : json) (subscribed_only : bool) : C (list mailbox_record) :=
  require_ MAILBOX_ADMIN false ≫= λ _,
  username ← lift (username_ok username);
  result ← invoke_ ([u "imap-mboxes"; u "list"; CFG; storage_block self]
                    ++ (if subscribed_only then [u "--subscribed"] else []) ++ [username])
             DEFAULT_MAX_OUTPUT_BYTES;
  match utf8_decode (stdout result) with
  | None => _fail_output_contract
  | Some text =>
      let lines := filter (λ line, blank line = false) (splitlines text) in
      let lines :=
        if is_only (λ line, str_eqb (casefold lib (strip line)) (u "no mailboxes.")) lines then []
        else lines in
      match mapM mailbox_entry lines with
      | Some mailboxes => mret mailboxes
      | None => _fail_output_contract
      end
  end.

Definition list_mailboxes (username subscribed_only : json) : C (list json) :=
  records ← mailbox_records username (negb (is_falsy subscribed_only));
  mret ((λ m, JObj (mailbox_dict m)) <$> records).

(** The names [list_mailboxes(username)] shows. *)
Definition mailbox_names (username : list Z) : C (list (list Z)) :=
  records ← mailbox_records (JStr username) false; mret (mb_name <$> records).

Definition protected_name (mailbox : list Z) : bool :=
  bool_decide (casefold lib mailbox ∈ _PROTECTED_MAILBOX_NAMES).
Definition is_named_mailbox (name : list Z) (m : mailbox_record) : bool := str_eqb (mb_name m) name.

Definition _require_mutable_mailbox (username mailbox : list Z)
    (mailboxes : option (list mailbox_record)) : C unit :=
  if protected_name mailbox then throw InvalidMaddyArgument
  else
    records ← match mailboxes with
              | None => mailbox_records (JStr username) false
              | Some records => mret records
              end;
    match List.filter (is_named_mailbox mailbox) records with
    | [record] =>
        require (negb (existsb (λ a, bool_decide (casefold lib a ∈ _PROTECTED_SPECIAL_USE_FLAGS))
                         (mb_attributes record))) InvalidMaddyArgument
    | _ => throw InvalidMaddyArgument
    end.

(** [special.lower()] and its check. *)
Definition special_ok (special : json) : result exc (list Z) :=
  match special with
  | JStr s =>
      let special := str_lower lib s in
      if bool_decide (special ∈ _SPECIAL_USES) then Ok special else Err InvalidMaddyArgument
  | _ => Err AttributeError
  end.

Definition create_mailbox (username mailbox special : json) : C unit :=
  require_ MAILBOX_ADMIN true ≫= λ _,
  username ← lift (username_ok username);
  mailbox ← lift (mailbox_ok mailbox);
  options ← match special with
            | JNull => if protected_name mailbox then throw InvalidMaddyArgument else mret []
            | _ => special ← lift (special_ok special); mret [u "--special"; special]
            end;
  require (negb (str_eqb (casefold lib mailbox) (u "inbox"))) InvalidMaddyArgument ≫= λ _,
  invoke_ ([u "imap-mboxes"; u "create"; CFG; storage_block self] ++ options ++ [username; mailbox])
    DEFAULT_MAX_OUTPUT_BYTES ≫= λ _,
  names ← mailbox_names username;
  require (bool_decide (mailbox ∈ names)) MaddyError.

(** [special.capitalize()] of a lower-case ASCII word. *)
Definition capitalize (s : list Z) : list Z :=
  match s with c :: s => upper_char c :: s | [] => [] end.

Definition resolve_special_mailbox (username special : json) : C json :=
  special ← lift (special_ok special);
  mailboxes ← mailbox_records username false;
  let expected_flag := 92 :: special in
  let flagged := List.filter (λ m, bool_decide (expected_flag ∈ str_lower lib <$> mb_attributes m))
                   mailboxes in
  let matches := match flagged with
                 | [] => List.filter (is_named_mailbox (capitalize special)) mailboxes
                 | _ => flagged
                 end in
  match matches with
  | [m] => name ← lift (mailbox_ok (JStr (mb_name m))); mret (JStr name)
  | _ => throw MaddyError
  end.

Definition remove_mailbox (username mailbox : list Z) : C unit :=
  invoke_ [u "imap-mboxes"; u "remove"; CFG; storage_block self; u "-y"; username; mailbox]
    DEFAULT_MAX_OUTPUT_BYTES ≫= λ _, mret tt.
Definition rename_command (username old_name new_name : list Z) : C unit :=
  invoke_ [u "imap-mboxes"; u "rename"; CFG; storage_block self; username; old_name; new_name]
    DEFAULT_MAX_OUTPUT_BYTES ≫= λ _, mret tt.

Definition delete_mailbox (username mailbox : json) : C unit :=
  require_ MAILBOX_ADMIN true ≫= λ _,
  username ← lift (username_ok username);
  mailbox ← lift (mailbox_ok mailbox);
  _require_mutable_mailbox username mailbox None ≫= λ _,
  remove_mailbox username mailbox ≫= λ _,
  names ← mailbox_names username;
  require (negb (bool_decide (mailbox ∈ names))) MaddyError.

Definition rename_mailbox (username old_name new_name : json) : C unit :=
  require_ MAILBOX_ADMIN true ≫= λ _,
  username ← lift (username_ok username);
  old_name ← lift (mailbox_ok old_name);
  new_name ← lift (mailbox_ok new_name);
  mailboxes ← mailbox_records (JStr username) false;
  _require_mutable_mailbox username old_name (Some mailboxes) ≫= λ _,
  require (negb (protected_name new_name)) InvalidMaddyArgument ≫= λ _,
  rename_command username old_name new_name ≫= λ _,
  names ← mailbox_names username;
  require (negb (bool_decide (old_name ∈ names)) && bool_decide (new_name ∈ names)) MaddyError.

(** ** Messages *)

Definition _list_message_set (username mailbox message_set : json) (full use_uids : bool)
    : C (list dict) :=
  require_ MESSAGE_ADMIN false ≫= λ _,
  username ← lift (username_ok username);
  mailbox ← lift (mailbox_ok mailbox);
  message_set ← lift (_safe_seqset lib message_set);
  result ← invoke_ ([u "imap-msgs"; u "list"] ++ (if use_uids then [u "--uid"] else [])
                    ++ (if full then [u "--full"] else [])
                    ++ [CFG; storage_block self; username; mailbox; message_set])
             MAX_MESSAGE_LIST_OUTPUT_BYTES;
  match parse_message_list lib (inl (stdout result)) with
  | Ok records => mret records
  | Err e => if catches [CapabilityFingerprintError] e then _fail_output_contract else throw e
  end.

Definition list_messages (username mailbox uid_set : json) (full : bool) : C (list dict) :=
  _list_message_set username mailbox uid_set full true.

Definition uid_of (record : dict) : json := key (u "uid") record.

Definition latest_message_uid (username mailbox : json) : C Z :=
  records ← _list_message_set username mailbox (JStr [42]) false true;
  match records with
  | [] => mret 0
  | [record] =>
      match uid_of record with
      | JInt uid => if (1 <=? uid) && (uid <=? MAX_IMAP_UID) then mret uid else throw MaddyError
      | _ => throw MaddyError
      end
  | _ => throw MaddyError
  end.

(** The UID and the sequence number of a record, when both are valid. *)
Definition message_place (record : dict) : option (Z * Z) :=
  match uid_of record, key (u "sequence_number") record with
  | JInt uid, JInt n =>
      if (1 <=? uid) && (uid <=? MAX_IMAP_UID) && (0 <? n) then Some (uid, n) else None
  | _, _ => None
  end.

(** The loop over the window: the places of the records, of distinct UIDs. *)
Fixpoint window_places (seen_uids : list Z) (records : list dict) : option (list (Z * Z)) :=
  match records with
  | [] => Some []
  | record :: records =>
      '(uid, n) ← message_place record;
      if bool_decide (uid ∈ seen_uids) then None
      else rest ← window_places (uid :: seen_uids) records; Some ((uid, n) :: rest)
  end.

Definition descending_uid (record : dict) : list Z :=
  match uid_of record with JInt uid => [- uid] | _ => [] end.

(** The last checks: the newest record is the anchor, at its sequence number. *)
Definition anchored (anchor_uid anchor_sequence : Z) (places : list (Z * Z)) (records : list dict)
    : bool :=
  bool_decide (filter (λ p, p.1 = anchor_uid) places = [(anchor_uid, anchor_sequence)])
  && match records with
     | record :: _ => bool_decide (uid_of record = JInt anchor_uid)
     | [] => false
     end.

Definition list_message_window (username mailbox : json) (limit cursor_uid : Z) : C (list dict) :=
  require ((1 <=? limit) && (limit <=? 200)) InvalidMaddyArgument ≫= λ _,
  require ((0 <=? cursor_uid) && (cursor_uid <=? MAX_IMAP_UID)) InvalidMaddyArgument ≫= λ _,
  let anchor_set := if cursor_uid =? 0 then [42] else str_of_int cursor_uid in
  anchor_records ← _list_message_set username mailbox (JStr anchor_set) true true;
  match anchor_records with
  | [] => if cursor_uid =? 0 then mret [] else throw StaleMessageCursor
  | [anchor] =>
      match message_place anchor with
      | None => throw MaddyError
      | Some (anchor_uid, anchor_sequence) =>
          if negb (cursor_uid =? 0) && negb (anchor_uid =? cursor_uid) then throw StaleMessageCursor
          else
            let lower_sequence := Z.max 1 (anchor_sequence - limit) in
            records ← _list_message_set username mailbox
              (JStr (str_of_int lower_sequence ++ [58] ++ str_of_int anchor_sequence)) true false;
            if limit + 1 <? zlen records then throw MaddyError
            else match window_places [] records with
            | None => throw MaddyError
            | Some places =>
                let records := sort_by descending_uid records in
                if anchored anchor_uid anchor_sequence places records then mret records
                else throw StaleMessageCursor
            end
      end
  | _ => throw MaddyError
  end.

Definition dump_message_to (username mailbox uid : json) (max_bytes : Z) : C (list Z * json) :=
  require_ MESSAGE_ADMIN false ≫= λ _,
  username ← lift (username_ok username);
  mailbox ← lift (mailbox_ok mailbox);
  let uid_text := json_str lib uid in
  n ← (if isdecimal lib uid_text then lift (int_of_decimal lib uid_text) else mret 0);
  if n <=? 0 then throw InvalidMaddyArgument
  else
    result ← _invoke lib self
      [u "imap-msgs"; u "dump"; CFG; storage_block self; u "--uid"; username; mailbox; uid_text]
      NoInput true true max_bytes;
    mret (streamed result, JInt (zlen (streamed result))).

Definition dump_message (username mailbox : json) (uid : Z) : C (list Z) :=
  '(output, _) ← dump_message_to username mailbox (JInt uid) DEFAULT_MAX_INPUT_BYTES;
  mret output.

(** [content] is bytes, or a stream with its declared length. *)
Definition message_input (content : list Z + list Z * option Z) : result exc command_input :=
  match content with
  | inl data =>
      if bool_decide (data = []) || (DEFAULT_MAX_INPUT_BYTES <? zlen data)
      then Err InvalidMaddyArgument else Ok (Data data)
  | inr (data, Some n) =>
      if (n <=? 0) || (DEFAULT_MAX_INPUT_BYTES <? n) then Err InvalidMaddyArgument
      else Ok (Stream data n)
  | inr (_, None) => Err InvalidMaddyArgument
  end.

Definition flag_options (flags : json) : result exc (list (list Z)) :=
  items ← items_of flags;
  flags ← result_map _safe_flag items;
  Ok (mjoin ((λ flag, [u "--flag"; flag]) <$> flags)).

Definition date_options (internal_date : json) : result exc (list (list Z)) :=
  match internal_date with
  | JNull => Ok []
  | JStr s =>
      match lib_iso lib (replace_char 90 (u "+00:00") s) with
      | Some true => Ok [u "--date"; s]
      | _ => Err InvalidMaddyArgument
      end
  | _ => Err AttributeError
  end.

Definition append_message (username mailbox : json) (content : list Z + list Z * option Z)
    (flags internal_date : json) : C json :=
  require_ MESSAGE_ADMIN true ≫= λ _,
  username ← lift (username_ok username);
  mailbox ← lift (mailbox_ok mailbox);
  input ← lift (message_input content);
  flags ← lift (flag_options flags);
  date ← lift (date_options internal_date);
  result ← _invoke lib self
    ([u "imap-msgs"; u "add"; CFG; storage_block self] ++ flags ++ date ++ [username; mailbox])
    input false true DEFAULT_MAX_OUTPUT_BYTES;
  let uid := strip (decode_replace (stdout result)) in
  uid_number ← (if isdecimal lib uid then lift (int_of_decimal lib uid) else mret 0);
  if uid_number <=? 0 then throw MaddyError
  else
    records ← list_messages (JStr username) (JStr mailbox) (JStr (str_of_int uid_number)) true;
    require (existsb (λ record, bool_decide (uid_of record = JInt uid_number)) records) MaddyError
      ≫= λ _, mret (JInt uid_number).

Definition _message_transfer (action : list Z) (username source uid_set target : json) : C unit :=
  require_ MESSAGE_ADMIN true ≫= λ _,
  username ← lift (username_ok username);
  source ← lift (mailbox_ok source);
  target ← lift (mailbox_ok target);
  uid_set ← lift (_safe_seqset lib uid_set);
  invoke_ [u "imap-msgs"; action; CFG; storage_block self; u "--uid"; username; source; uid_set;
           target] DEFAULT_MAX_OUTPUT_BYTES ≫= λ _, mret tt.

Definition copy_messages (username source uid_set target : json) : C unit :=
  _message_transfer (u "copy") username source uid_set target.
Definition move_messages (username source uid_set target : json) : C unit :=
  _message_transfer (u "move") username source uid_set target.

(** [source == target], and the comparison of their case-folded names. *)
Definition same_value (a b : json) : bool :=
  match a, b with
  | JStr s, JStr t => str_eqb s t
  | JStr _, _ | _, JStr _ => false
  | _, _ => lib_same lib a b
  end.
Definition folds_to_inbox (j : json) : result exc bool :=
  match j with
  | JStr s => Ok (str_eqb (casefold lib s) (u "inbox"))
  | _ => Err AttributeError
  end.
Definition same_mailbox (source target : json) : result exc bool :=
  if same_value source target then Ok true
  else
    inbox ← folds_to_inbox source;
    if inbox : bool then folds_to_inbox target else Ok false.

Definition move_message (username source uid target : json) : C unit :=
  same ← lift (same_mailbox source target);
  if same : bool then throw InvalidMaddyArgument
  else
    uid ← lift (_safe_uid lib uid);
    _message_transfer (u "move") username source (JStr uid) target.

Definition _message_uid_operation (action : list Z) (username mailbox uid_set : json)
    (destructive : bool) (flags : json) : C unit :=
  require_ MESSAGE_ADMIN true ≫= λ _,
  username ← lift (username_ok username);
  mailbox ← lift (mailbox_ok mailbox);
  uid_set ← lift (_safe_seqset lib uid_set);
  items ← lift (items_of flags);
  checked_flags ← lift (result_map _safe_flag items);
  invoke_ ([u "imap-msgs"; action; CFG; storage_block self; u "--uid"]
           ++ (if destructive then [u "-y"] else []) ++ [username; mailbox; uid_set]
           ++ checked_flags) DEFAULT_MAX_OUTPUT_BYTES ≫= λ _, mret tt.

Definition delete_messages (username mailbox uid_set : json) : C unit :=
  _message_uid_operation (u "remove") username mailbox uid_set true (JArr []) ≫= λ _,
  remaining ← list_messages username mailbox uid_set true;
  require (bool_decide (remaining = [])) MaddyError.

Definition delete_message (username mailbox uid : json) : C unit :=
  uid ← lift (_safe_uid lib uid);
  _message_uid_operation (u "remove") username mailbox (JStr uid) true (JArr []) ≫= λ _,
  remaining ← list_messages username mailbox (JStr uid) true;
  require (bool_decide (remaining = [])) MaddyError.

Definition set_message_seen (username mailbox uid : json) (seen : bool) : C unit :=
  uid ← lift (_safe_uid lib uid);
  _message_uid_operation (if seen then u "add-flags" else u "rem-flags") username mailbox (JStr uid)
    false (jstrs [u "\Seen"]).

(** [set_message_flags], [add_message_flags] and [remove_message_flags]. *)
Definition flags_action (method : flag_method) : list Z :=
  match method with
  | SET_FLAGS => u "set-flags" | ADD_FLAGS => u "add-flags" | REMOVE_FLAGS => u "rem-flags"
  end.
Definition message_flags (method : flag_method) (username mailbox uid_set flags : json) : C unit :=
  if is_falsy flags then throw InvalidMaddyArgument
  else _message_uid_operation (flags_action method) username mailbox uid_set false flags.

(** ** Deleting a mailbox by quarantine *)

Fixpoint quarantine_name (attempts : nat) (existing : list (list Z)) : C (list Z) :=
  match attempts with
  | O => throw MaddyError
  | S attempts =>
      token ← outside r_token_hex;
      candidate ← lift (mailbox_ok (JStr (_MAILBOX_QUARANTINE_PREFIX ++ token)));
      if bool_decide (candidate ∈ existing) then quarantine_name attempts existing
      else mret candidate
  end.
Definition _new_mailbox_quarantine_name (mailboxes : list mailbox_record) : C (list Z) :=
  quarantine_name _MAILBOX_QUARANTINE_ATTEMPTS (mb_name <$> mailboxes).

Definition has_name (name : list Z) (names : list (list Z)) : bool := bool_decide (name ∈ names).

Definition _restore_mailbox_quarantine (username mailbox quarantine : list Z) : C unit :=
  suppress
    (observed ← mailbox_names username;
     if has_name mailbox observed || negb (has_name quarantine observed) then mret tt
     else
       rename_command username quarantine mailbox ≫= λ _,
       restored ← mailbox_names username;
       require (has_name mailbox restored && negb (has_name quarantine restored)) MaddyError).

(** A read-back: [mailbox] is gone, [quarantine] and [target] are there. *)
Definition check_moved (username mailbox quarantine target : list Z) : C unit :=
  names ← mailbox_names username;
  require (negb (has_name mailbox names) && has_name quarantine names && has_name target names)
    MaddyError.

(** The body of the [try] statement of [migrate_and_delete_mailbox]. *)
Definition migrate (username mailbox target quarantine : list Z) : C unit :=
  rename_command username mailbox quarantine ≫= λ _,
  check_moved username mailbox quarantine target ≫= λ _,
  anchor_uid ← latest_message_uid (JStr username) (JStr quarantine);
  let snapshot_uids := JStr (u "1:" ++ str_of_int anchor_uid) in
  when (negb (anchor_uid =? 0))
    (copy_messages (JStr username) (JStr quarantine) snapshot_uids (JStr target)) ≫= λ _,
  check_moved username mailbox quarantine target ≫= λ _,
  when (negb (anchor_uid =? 0))
    (_message_uid_operation (u "remove") (JStr username) (JStr quarantine) snapshot_uids true (JArr []))
    ≫= λ _,
  left ← list_message_window (JStr username) (JStr quarantine) 1 0;
  require (bool_decide (left = [])) MaddyError ≫= λ _,
  check_moved username mailbox quarantine target ≫= λ _,
  remove_mailbox username quarantine ≫= λ _,
  observed ← mailbox_names username;
  require (negb (has_name mailbox observed) && negb (has_name quarantine observed)) MaddyError
    ≫= λ _,
  require (has_name target observed) MaddyError.

Definition migrate_and_delete_mailbox (username mailbox target : json) : C unit :=
  require_ MAILBOX_ADMIN true ≫= λ _,
  require_ MESSAGE_ADMIN true ≫= λ _,
  username ← lift (username_ok username);
  mailbox ← lift (mailbox_ok mailbox);
  target ← lift (mailbox_ok target);
  mailboxes ← mailbox_records (JStr username) false;
  _require_mutable_mailbox username mailbox (Some mailboxes) ≫= λ _,
  require (negb (existsb (λ m, starts_with (mailbox ++ [47]) (mb_name m)) mailboxes))
    InvalidMaddyArgument ≫= λ _,
  require (negb (str_eqb mailbox target)) InvalidMaddyArgument ≫= λ _,
  match List.filter (is_named_mailbox target) mailboxes with
  | [_] =>
      quarantine ← _new_mailbox_quarantine_name mailboxes;
      on_maddy_error (migrate username mailbox target quarantine)
        (λ e, _restore_mailbox_quarantine username mailbox quarantine ≫= λ _, throw e)
  | _ => throw InvalidMaddyArgument
  end.

(** ** Calls

    A request of a client of the service: one method with its arguments. *)

Inductive service_call : Type :=
| CallProbe (refresh : bool)
| CallSafety
| CallInfo
| CallVerify
| CallReload
| CallAccounts (include_append_limits : bool)
| CallCreateAccount (username password : json)
| CallChangePassword (username password : json)
| CallDisable (username : json)
| CallDeleteImap (username : json)
| CallDeleteAccount (username : json)
| CallGetLimit (username : json)
| CallSetLimit (username value : json)
| CallMailboxes (username subscribed_only : json)
| CallCreateMailbox (username mailbox special : json)
| CallDeleteMailbox (username mailbox : json)
| CallRenameMailbox (username old_name new_name : json)
| CallResolve (username special : json)
| CallMigrate (username mailbox target : json)
| CallList (username mailbox uid_set : json) (full : bool)
| CallLatest (username mailbox : json)
| CallWindow (username mailbox : json) (limit cursor_uid : Z)
| CallDump (username mailbox uid : json) (max_bytes : Z)
| CallAppend (username mailbox : json) (content : list Z + list Z * option Z) (flags date : json)
| CallDelete (username mailbox uid : json)
| CallDeleteMany (username mailbox uid_set : json)
| CallCopy (username source uid_set target : json)
| CallMoveMany (username source uid_set target : json)
| CallMove (username source uid target : json)
| CallSeen (username mailbox uid : json) (seen : bool)
| CallFlags (method : flag_method) (username mailbox uid_set flags : json)
| CallGate (capability : Capability).

Definition drop_value {A} (m : C A) : C unit := m ≫= λ _, mret tt.

Definition run_call (c : service_call) : C unit :=
  match c with
  | CallProbe refresh => drop_value (probe_cli_fingerprint lib self refresh)
  | CallSafety => drop_value (startup_safety_status lib self)
  | CallInfo => drop_value (version_info lib self)
  | CallVerify => drop_value (verify_config lib self)
  | CallReload => reload lib self
  | CallAccounts include_append_limits => drop_value (list_accounts include_append_limits)
  | CallCreateAccount username password => drop_value (create_account username password)
  | CallChangePassword username password => change_password username password
  | CallDisable username => disable_credentials username
  | CallDeleteImap username => delete_imap_account username
  | CallDeleteAccount username => delete_account username
  | CallGetLimit username => drop_value (get_append_limit username)
  | CallSetLimit username value => drop_value (set_append_limit username value)
  | CallMailboxes username subscribed_only => drop_value (list_mailboxes username subscribed_only)
  | CallCreateMailbox username mailbox special => create_mailbox username mailbox special
  | CallDeleteMailbox username mailbox => delete_mailbox username mailbox
  | CallRenameMailbox username old_name new_name => rename_mailbox username old_name new_name
  | CallResolve username special => drop_value (resolve_special_mailbox username special)
  | CallMigrate username mailbox target => migrate_and_delete_mailbox username mailbox target
  | CallList username mailbox uid_set full => drop_value (list_messages username mailbox uid_set full)
  | CallLatest username mailbox => drop_value (latest_message_uid username mailbox)
  | CallWindow username mailbox limit cursor_uid =>
      drop_value (list_message_window username mailbox limit cursor_uid)
  | CallDump username mailbox uid max_bytes =>
      drop_value (dump_message_to username mailbox uid max_bytes)
  | CallAppend username mailbox content flags date =>
      drop_value (append_message username mailbox content flags date)
  | CallDelete username mailbox uid => delete_message username mailbox uid
  | CallDeleteMany username mailbox uid_set => delete_messages username mailbox uid_set
  | CallCopy username source uid_set target => copy_messages username source uid_set target
  | CallMoveMany username source uid_set target => move_messages username source uid_set target
  | CallMove username source uid target => move_message username source uid target
  | CallSeen username mailbox uid seen => set_message_seen username mailbox uid seen
  | CallFlags method username mailbox uid_set flags => message_flags method username mailbox uid_set flags
  | CallGate capability => drop_value (require_write_safety lib self capability)
  end.

(** Calls one after the other, whatever each of them raises. *)
Definition run_calls (calls : list service_call) (s : maddy X) : maddy X :=
  foldl (λ s c, snd (run_call c s)) s calls.

(** ** The interface of the helper *)

#[export] Instance maddy_service : HelperBase.MaddyService (maddy X) := {|
  m_version_info := version_info lib self;
  m_verify_config := text ← verify_config lib self; mret (JStr text);
  m_list_accounts := list_accounts;
  m_create_account := create_account;
  m_delete_account := delete_account;
  m_change_password := change_password;
  m_disable_credentials := disable_credentials;
  m_delete_imap_account := delete_imap_account;
  m_get_append_limit := get_append_limit;
  m_set_append_limit := set_append_limit;
  m_list_mailboxes := list_mailboxes;
  m_create_mailbox := create_mailbox;
  m_rename_mailbox := rename_mailbox;
  m_resolve_special_mailbox := resolve_special_mailbox;
  m_migrate_and_delete_mailbox := migrate_and_delete_mailbox;
  m_latest_message_uid := latest_message_uid;
  m_list_message_window := list_message_window;
  m_dump_message := dump_message;
  m_dump_message_to username mailbox uid :=
    dump_message_to username mailbox uid DEFAULT_MAX_INPUT_BYTES;
  m_append_message username mailbox data n flags date :=
    append_message username mailbox (inr (data, Some n)) flags date;
  m_delete_message := delete_message;
  m_delete_messages username mailbox uid_set := delete_messages username mailbox (JStr uid_set);
  m_copy_messages := copy_messages;
  m_move_messages username source uid_set target :=
    move_messages username source (JStr uid_set) target;
  m_move_message := move_message;
  m_message_flags := message_flags;
  m_require_write_safety capability :=
    match capability with
    | HelperBase.MESSAGE_ADMIN => require_write_safety lib self MESSAGE_ADMIN ≫= λ _, mret tt
    end
|}.
End Methods.
