(* ===== verification/MaddyGuard.v ===== *)
(** * What the Maddy adapter may run

    A monitor of argument vectors: the probes, and the commands of the attested
    profile with options of the profile, arguments the command line cannot take
    for options, and nothing else.  The lemmas show that the methods of
    [MaddyOps] keep every property of the world that the monitored commands
    keep, and that only the write gate leads to a command that changes
    something. *)

From S2P Require Import Prelude Text Errors Json Csrf HelperBase Maddy MaddyConfig MaddyList MaddyCli MaddyOps.

#[local] Set Default Proof Using "Type*".

(** ** The monitor *)

(** A value the command line takes for an argument: not empty, no option, no
    control character. *)
Definition positional (a : list Z) : bool :=
  negb (bool_decide (a = [])) && negb (starts_with [45] a) && negb (existsb is_argument_control a).

Definition VALUED_OPTIONS : list (list Z) :=
  u <$> ["cfg-block"; "special"; "value"; "flag"; "date"]%string.

(** The arguments of a command with these long options; [-y] is [--yes]. *)
Fixpoint args_ok (options args : list (list Z)) : bool :=
  match args with
  | [] => true
  | a :: rest =>
      if str_eqb a (u "-y") then bool_decide (u "yes" ∈ options) && args_ok options rest
      else match after_prefix [45; 45] a with
      | Some name =>
          bool_decide (name ∈ options)
          && (if bool_decide (name ∈ VALUED_OPTIONS)
              then match rest with [] => false | _ :: rest => args_ok options rest end
              else args_ok options rest)
      | None => positional a && args_ok options rest
      end
  end.

Definition profile_options (group name : list Z) : option (list (list Z)) :=
  '(_, entry) ← list_find (λ entry, entry.1 = (group, name)) _ACTION_PROFILE;
  Some entry.2.2.

Definition in_profile (suffix : list (list Z)) : bool :=
  match suffix with
  | group :: name :: args =>
      match profile_options group name with
      | Some options => args_ok options args
      | None => false
      end
  | _ => false
  end.

Definition PROBES : list (list (list Z)) :=
  [[u "version"]; [u "--help"]; [u "verify-config"]]
  ++ ((λ entry, [entry.1; u "--help"]) <$> _ADMIN_GROUP_ACTIONS)
  ++ ((λ entry, [entry.1.1; entry.1.2; u "--help"]) <$> _ACTION_PROFILE).
Definition is_probe (suffix : list (list Z)) : bool := bool_decide (suffix ∈ PROBES).

Definition attested (suffix : list (list Z)) : bool := is_probe suffix || in_profile suffix.

(** Does the command change what the mail server stores? *)
Definition mutates (suffix : list (list Z)) : bool :=
  negb (is_probe suffix)
  && match suffix with
     | _ :: name :: args =>
         if str_eqb name (u "appendlimit") then bool_decide (u "--value" ∈ args)
         else negb (bool_decide (name ∈ [u "list"; u "dump"]))
     | _ => true
     end.

(** What may be run: when writes are frozen, nothing that changes anything. *)
Definition allowed (frozen : bool) (suffix : list (list Z)) : bool :=
  attested suffix && negb (frozen && mutates suffix).

(** ** Checked arguments *)

Lemma safe_positional_ok j n a : _safe_positional j n = Ok a → positional a = true ∧ zlen a ≤ n.
Proof.
  unfold _safe_positional. destruct (is_falsy j) eqn:Ef; [done|].
  intros (l & Hl & H)%result_bind_ok. destruct (Z.ltb_spec n l); [done|].
  destruct j as [| | | |s| |]; try done. simpl in Hl. injection Hl as <-.
  destruct (starts_with [45] s || existsb is_argument_control s) eqn:E; [done|]. injection H as <-.
  apply orb_false_iff in E as [E1 E2]. split; [|lia]. unfold positional. rewrite E1, E2.
  by destruct s.
Qed.

Lemma positional_cons c s :
  (c =? 45) = false → forallb (λ c, negb (is_argument_control c)) (c :: s) = true →
  positional (c :: s) = true.
Proof.
  intros Hc Hs. unfold positional. rewrite bool_decide_eq_false_2 by done.
  cbn [starts_with negb andb]. rewrite Z.eqb_sym, Hc. cbn [andb negb].
  assert (existsb is_argument_control (c :: s) = false) as ->; [|done].
  rewrite <- not_true_iff_false, existsb_exists. intros (x & Hx & Hcx).
  rewrite forallb_forall in Hs. specialize (Hs x Hx). by rewrite Hcx in Hs.
Qed.

(** Characters from a class that has neither controls nor a leading dash. *)
Lemma positional_class p s :
  s ≠ [] → Forall (λ c, p c = true) s → (∀ c, p c = true → 32 < c ∧ c ≠ 127) →
  head s ≠ Some 45 → positional s = true.
Proof.
  intros Hs Hp Hc Hh. destruct s as [|c s]; [done|]. apply positional_cons.
  - apply Z.eqb_neq. intros ->. done.
  - apply forallb_forall. intros x Hx%list_elem_of_In. rewrite Forall_forall in Hp.
    specialize (Hc x (Hp x Hx)). unfold is_argument_control.
    destruct (Z.ltb_spec x 32), (Z.eqb_spec x 127); simpl; lia || done.
Qed.

Lemma decimal_char_bounds lib c :
  is_decimal_char lib c = true → 48 ≤ c ∧ c ≠ 127 ∧ c ≠ 45.
Proof.
  unfold is_decimal_char, digit_value. destruct (Z.ltb_spec c 128); [|lia].
  unfold is_digit. destruct (Z.leb_spec 48 c), (Z.leb_spec c 57); simpl; lia || done.
Qed.

Definition seqset_char (lib : pylib) (c : Z) : bool := is_decimal_char lib c || in_chars (u "*:,") c.

Lemma seqset_char_bounds lib c : seqset_char lib c = true → 32 < c ∧ c ≠ 127 ∧ c ≠ 45.
Proof.
  unfold seqset_char. intros [H%decimal_char_bounds|H]%orb_true_iff; [lia|].
  unfold in_chars, has_char in H. change (u "*:,") with [42; 58; 44] in H. simpl in H.
  rewrite !orb_true_iff, !Z.eqb_eq in H. lia.
Qed.

Lemma seq_number_chars lib s : seq_number lib s = true →
  s ≠ [] ∧ Forall (λ c, seqset_char lib c = true) s.
Proof.
  unfold seq_number. intros H. destruct s as [|c s]; [done|]. split; [done|].
  assert (c = 42 ∧ s = [] ∨ (48 <? c) && (c <=? 57) && forallb (is_decimal_char lib) s = true) as Hcase.
  { destruct (Z.eq_dec c 42) as [->|Hc]; [destruct s; [by left|]|]; right; revert H;
      repeat case_match; simplify_eq/=; try done.
    all: rewrite ?andb_true_iff, ?Z.leb_le, ?Z.ltb_lt; intuition lia. }
  destruct Hcase as [[-> ->]|[[H1 H2]%andb_true_iff H3]%andb_true_iff].
  { by repeat constructor. }
  constructor.
  - unfold seqset_char, is_decimal_char, digit_value, is_digit.
    apply Z.ltb_lt in H1. apply Z.leb_le in H2.
    destruct (Z.ltb_spec c 128); [|lia]. by destruct (Z.leb_spec 48 c), (Z.leb_spec c 57); try lia.
  - apply Forall_forall. intros x Hx. rewrite forallb_forall in H3. unfold seqset_char.
    rewrite H3; [done|]. by apply list_elem_of_In.
Qed.

Lemma seqset_ok lib j s : _safe_seqset lib j = Ok s → positional s = true.
Proof.
  unfold _safe_seqset. destruct j as [| | | |t| |]; try done. destruct (_SEQSET_RE lib t) eqn:E; [|done].
  intros [= <-]. unfold _SEQSET_RE in E. rewrite forallb_forall in E.
  assert (∀ item, item ∈ split_char 44 t → Forall (λ c, seqset_char lib c = true) item) as Hitems.
  { intros item Hi%list_elem_of_In. apply E, andb_true_iff in Hi as [_ Hf].
    rewrite forallb_forall in Hf. apply Forall_forall. intros c Hc. rewrite <- (join_split 58 item) in Hc.
    apply join_elem in Hc as [->%list_elem_of_singleton|(f & Hf' & Hc)]; [unfold seqset_char; by rewrite orb_true_r|].
    apply list_elem_of_In, Hf, seq_number_chars in Hf' as [_ HF]. rewrite Forall_forall in HF. auto. }
  apply (positional_class (seqset_char lib)).
  - intros ->. specialize (E [] (or_introl eq_refl)). done.
  - apply Forall_forall. intros c Hc. rewrite <- (join_split 44 t) in Hc.
    apply join_elem in Hc as [->%list_elem_of_singleton|(f & Hf' & Hc)]; [unfold seqset_char; by rewrite orb_true_r|].
    specialize (Hitems f Hf'). rewrite Forall_forall in Hitems. auto.
  - intros c ?%seqset_char_bounds. lia.
  - intros Hh. destruct t as [|c t]; [done|]. injection Hh as ->.
    assert (seqset_char lib 45 = true) as Hb; [|apply seqset_char_bounds in Hb; lia].
    assert (45 ∈ (join [44] (split_char 44 (45 :: t)))) as Hc; [rewrite join_split; left|].
    apply join_elem in Hc as [?%list_elem_of_singleton|(f & Hf' & Hc)]; [done|].
    specialize (Hitems f Hf'). rewrite Forall_forall in Hitems. auto.
Qed.

Lemma flag_ok j s : _safe_flag j = Ok s → positional s = true.
Proof.
  unfold _safe_flag. destruct j as [| | | |t| |]; try done.
  destruct (bool_decide (t ∈ _SYSTEM_FLAGS) || _KEYWORD_RE t) eqn:E; [|done]. intros [= <-].
  apply orb_true_iff in E as [E%bool_decide_eq_true|E].
  - assert (forallb positional _SYSTEM_FLAGS = true) as H by by vm_compute.
    rewrite forallb_forall in H. by apply H, list_elem_of_In.
  - unfold _KEYWORD_RE, head_tail in E. destruct t as [|c t]; [done|].
    apply andb_true_iff in E as [[Hc Ht]%andb_true_iff _].
    assert (∀ x, is_alnum x = true → 48 ≤ x ≤ 122) as Ha.
    { intros x. unfold is_alnum, is_digit, is_lower, is_upper. rewrite !orb_true_iff, !andb_true_iff, !Z.leb_le. lia. }
    apply (positional_class is_name_char); [done| | |].
    + constructor; [unfold is_name_char; by rewrite Hc|]. apply Forall_forall. intros x Hx.
      rewrite forallb_forall in Ht. by apply Ht, list_elem_of_In.
    + intros x. unfold is_name_char, in_chars, has_char. change (u "_.-") with [95; 46; 45]. simpl.
      rewrite !orb_true_iff, !Z.eqb_eq. intros [?%Ha|?]; lia.
    + intros [= ->]. apply Ha in Hc. lia.
Qed.

Lemma decimal_ok lib s : isdecimal lib s = true → positional s = true.
Proof.
  unfold isdecimal, match_plus. intros [Hne Hs]%andb_true_iff.
  apply negb_true_iff, bool_decide_eq_false in Hne.
  apply (positional_class (is_decimal_char lib)); [done| | |].
  - apply Forall_forall. intros x Hx. rewrite forallb_forall in Hs. by apply Hs, list_elem_of_In.
  - intros c ?%decimal_char_bounds. lia.
  - destruct s as [|c s]; [done|]. intros [= ->]. by simpl in Hs.
Qed.

Lemma flags_ok items l : result_map _safe_flag items = Ok l → forallb positional l = true.
Proof.
  intros H%result_map_ok. apply forallb_forall. intros x Hx%list_elem_of_In.
  apply list_elem_of_lookup in Hx as (i & Hi). eapply Forall2_lookup_r in Hi as (j & _ & Hj); [|done].
  by apply flag_ok in Hj.
Qed.

(** ** Commands of the profile *)

Lemma args_pos options a rest :
  positional a = true → args_ok options rest = true → args_ok options (a :: rest) = true.
Proof.
  intros Ha Hr. destruct a as [|c a]; [done|].
  assert (c ≠ 45) as Hc.
  { intros ->. unfold positional in Ha. simpl in Ha. done. }
  cbn [args_ok after_prefix]. rewrite (proj2 (Z.eqb_neq 45 c)) by done.
  unfold str_eqb. rewrite bool_decide_eq_false_2; [|by intros [=]]. by rewrite Ha, Hr.
Qed.

Lemma args_poss options l rest :
  forallb positional l = true → args_ok options rest = true → args_ok options (l ++ rest) = true.
Proof.
  induction l as [|a l IH]; intros Hl Hr; [done|]. simpl in Hl. apply andb_true_iff in Hl as [Ha Hl].
  cbn [app]. apply args_pos; auto.
Qed.

(** An option of the profile with its value, and one without. *)
Definition takes (options : list (list Z)) (valued : bool) (a : list Z) : bool :=
  match after_prefix [45; 45] a with
  | Some name => bool_decide (name ∈ options) && Bool.eqb valued (bool_decide (name ∈ VALUED_OPTIONS))
  | None => negb valued && str_eqb a (u "-y") && bool_decide (u "yes" ∈ options)
  end.

Lemma dash_y : after_prefix [45; 45] (u "-y") = None.
Proof. by vm_compute. Qed.

Lemma args_valued options a v rest :
  takes options true a = true → args_ok options rest = true → args_ok options (a :: v :: rest) = true.
Proof.
  unfold takes. cbn [args_ok]. destruct (str_eqb a (u "-y")) eqn:E.
  { apply bool_decide_eq_true in E as ->. by rewrite dash_y. }
  destruct (after_prefix [45; 45] a) as [name|]; [|done].
  intros [-> Hv%eqb_prop]%andb_true_iff Hr. by rewrite <- Hv, Hr.
Qed.
Lemma args_bare options a rest :
  takes options false a = true → args_ok options rest = true → args_ok options (a :: rest) = true.
Proof.
  unfold takes. cbn [args_ok]. destruct (str_eqb a (u "-y")) eqn:E.
  { apply bool_decide_eq_true in E as ->. rewrite dash_y. intros [_ ->]%andb_true_iff Hr. by rewrite Hr. }
  destruct (after_prefix [45; 45] a) as [name|]; [|done].
  intros [-> Hv%eqb_prop]%andb_true_iff Hr. by rewrite <- Hv, Hr.
Qed.

(** The arguments of a command, one after the other. *)
Ltac args_tac :=
  cbn [app];
  repeat lazymatch goal with
  | |- args_ok _ [] = true => reflexivity
  | |- args_ok _ (_ ++ _) = true => apply args_poss; [assumption|]
  | H : positional ?a = true |- args_ok _ (?a :: _) = true => apply args_pos; [exact H|]
  | |- args_ok _ (_ :: _) = true =>
      first [ apply args_valued; [vm_compute; reflexivity|] | apply args_bare; [vm_compute; reflexivity|] ]
  end.

Lemma attested_command group name options args :
  profile_options group name = Some options → args_ok options args = true →
  attested (group :: name :: args) = true.
Proof.
  intros Hp Ha. unfold attested. apply orb_true_iff. right. unfold in_profile. by rewrite Hp.
Qed.

Lemma reads_nothing group name args :
  str_eqb name (u "appendlimit") = false → bool_decide (name ∈ [u "list"; u "dump"]) = true →
  mutates (group :: name :: args) = false.
Proof. intros H1 H2. unfold mutates. rewrite H1, H2. by rewrite andb_false_r. Qed.

Ltac attested_tac :=
  cbn [app]; eapply attested_command; [vm_compute; reflexivity|]; args_tac.
Ltac reads_tac := cbn [app]; apply reads_nothing; vm_compute; reflexivity.

(** ** What the methods keep

    [Q] is a property of the world that the commands [ok] accepts keep, as do
    the other things the service does outside; [frozen] says that an output
    broke the contract before.  [keeps m]: [m] keeps both, returning or raising. *)

Section Keeps.
Context {X : Type} (lib : pylib) `{!Runner X} (self : service).
Context (Q : X → Prop) (frozen : bool) (ok : list (list Z) → bool).

Definition kept_by (argv : list (list Z)) : Prop := ∀ opts x, Q x → Q (r_run argv opts x).2.

(** Everything outside that is not a command of the monitor. *)
Record world_kept : Prop := {
  kept_run suffix has_stdin use_config v :
    ok suffix = true → argv (target self) suffix has_stdin use_config = Ok v → kept_by v;
  kept_cat v : config_read_argv (target self) = Ok v → kept_by v;
  kept_reload : kept_by (reload_argv (target self));
  kept_size path x : Q x → Q (r_size path x).2;
  kept_bytes path x : Q x → Q (r_bytes path x).2;
  kept_token x : Q x → Q (r_token_hex x).2
}.
Definition inv_of (s : maddy X) : Prop :=
  Q (m_outside s) ∧ (frozen = true → _output_contract_failure (m_cache s) = true).
Definition keeps {A} (m : C X A) : Prop := ∀ s, inv_of s → inv_of (m s).2.

Lemma keeps_ret {A} (a : A) : keeps (mret a).
Proof. by intros s. Qed.
Lemma keeps_throw {A} e : keeps (throw e : C X A).
Proof. by intros s. Qed.
Lemma keeps_lift {A} (r : result exc A) : keeps (lift r).
Proof. by intros s. Qed.
Lemma keeps_cached {A} (f : cache → A) : keeps (cached f).
Proof. by intros s. Qed.
Lemma kept_bind {A B} (m : C X A) (f : A → C X B) : keeps m → (∀ a, keeps (f a)) → keeps (m ≫= f).
Proof.
  intros Hm Hf s Hs. specialize (Hm s Hs). unfold mbind, eff_mbind, eff_bind.
  destruct (m s) as [[a|e] s']; [by apply Hf|done].
Qed.
Lemma keeps_bind_post {A B} (m : C X A) (f : A → C X B) :
  keeps m → (∀ s a s', inv_of s → m s = (Ok a, s') → keeps (f a)) → keeps (m ≫= f).
Proof.
  intros Hm Hf s Hs. pose proof (Hm s Hs) as Hs'. unfold mbind, eff_mbind, eff_bind.
  destruct (m s) as [[a|e] s'] eqn:E; [by apply (Hf s a s')|done].
Qed.
Lemma keeps_check {A B} (r : result exc A) (f : A → C X B) :
  (∀ a, r = Ok a → keeps (f a)) → keeps (lift r ≫= f).
Proof. intros Hf s Hs. destruct r as [a|e]; [by apply (Hf a)|done]. Qed.
Lemma keeps_update f :
  (∀ c, _output_contract_failure c = true → _output_contract_failure (f c) = true) → keeps (update f).
Proof. intros Hf s [HQ Hc]. split; [done|]. intros H. by apply Hf, Hc. Qed.
Lemma keeps_outside {A} (m : eff X exc A) : (∀ x, Q x → Q (m x).2) → keeps (outside m).
Proof. intros Hm s [HQ Hc]. unfold outside. specialize (Hm _ HQ). by destruct (m (m_outside s)). Qed.
Lemma keeps_attempt {A} classes (m : C X A) : keeps m → keeps (attempt classes m).
Proof.
  intros Hm s Hs. specialize (Hm s Hs). unfold attempt. destruct (m s) as [[a|e] s']; [done|].
  by destruct (classes e).
Qed.
Lemma keeps_catch_reason {A} classes (m : C X A) : keeps m → keeps (catch_reason classes m).
Proof.
  intros Hm s Hs. specialize (Hm s Hs). unfold catch_reason. destruct (m s) as [[a|e] s']; [done|].
  by destruct (catches classes e).
Qed.
Lemma keeps_on_maddy_error {A} (m : C X A) h :
  keeps m → (∀ e, keeps (h e)) → keeps (on_maddy_error m h).
Proof.
  intros Hm Hh s Hs. specialize (Hm s Hs). unfold on_maddy_error.
  destruct (m s) as [[a|e] s']; [done|]. destruct (is_maddy_error e); [by apply Hh|done].
Qed.
Lemma keeps_suppress {A} (m : C X A) : keeps m → keeps (suppress m).
Proof. intros Hm. apply kept_bind; [by apply keeps_attempt|]. intros ?. apply keeps_ret. Qed.
Lemma keeps_when b (m : C X unit) : (b = true → keeps m) → keeps (when b m).
Proof. destruct b; simpl; [auto|]. intros _. apply keeps_ret. Qed.
Lemma keeps_require b e : keeps (require b e).
Proof. destruct b; [apply keeps_ret|apply keeps_throw]. Qed.
Lemma keeps_map {A B} (f : A → C X B) l : (∀ x, x ∈ l → keeps (f x)) → keeps (eff_map f l).
Proof.
  induction l as [|x l IH]; intros Hf; simpl; [apply keeps_ret|].
  apply kept_bind; [apply Hf; left|]. intros y.
  apply kept_bind; [apply IH; intros z Hz; apply Hf; by right|]. intros ys. apply keeps_ret.
Qed.

(** One step of a proof about a method, chosen by the form of its code. *)
Ltac keeps_step :=
  lazymatch goal with
  | |- keeps (mret _) => apply keeps_ret
  | |- keeps (throw _) => apply keeps_throw
  | |- keeps (cached _) => apply keeps_cached
  | |- keeps (require _ _) => apply keeps_require
  | |- keeps (lift _ ≫= _) => apply keeps_check; intros ? ?
  | |- keeps (lift _) => apply keeps_lift
  | |- keeps (_ ≫= _) => apply kept_bind; [|intros ?]
  | |- keeps (attempt _ _) => apply keeps_attempt
  | |- keeps (catch_reason _ _) => apply keeps_catch_reason
  | |- keeps (suppress _) => apply keeps_suppress
  | |- keeps (on_maddy_error _ _) => apply keeps_on_maddy_error; [|intros ?]
  | |- keeps (when _ _) => apply keeps_when; intros ?
  | |- keeps (update _) => apply keeps_update; by intros ?
  | |- keeps (match ?x with _ => _ end) => destruct x eqn:?
  end.

Context (Hworld : world_kept)
  (Hread : ∀ suffix, attested suffix = true → mutates suffix = false → ok suffix = true).

Lemma Hprobe suffix : is_probe suffix = true → ok suffix = true.
Proof.
  intros Hp. apply Hread; [unfold attested; by rewrite Hp|]. unfold mutates. by rewrite Hp.
Qed.

Lemma keeps_invoke_with suffix input sink use_config limit :
  ok suffix = true → keeps (_invoke lib self suffix input sink use_config limit).
Proof.
  intros Hs. unfold _invoke. apply keeps_check. intros v Hv. apply kept_bind.
  - apply keeps_outside. intros x. by eapply kept_run.
  - intros r. repeat keeps_step.
Qed.
Lemma keeps_invoke suffix limit : ok suffix = true → keeps (invoke lib self suffix limit).
Proof. apply keeps_invoke_with. Qed.

Lemma keeps_contract {A} : keeps (_fail_output_contract : C X A).
Proof. unfold _fail_output_contract. repeat keeps_step. Qed.

Lemma keeps_probe_installed refresh : keeps (probe_installed_version lib self refresh).
Proof.
  unfold probe_installed_version. repeat keeps_step.
  all: apply keeps_invoke_with, Hprobe; by vm_compute.
Qed.
Lemma keeps_probe_version refresh : keeps (probe_version lib self refresh).
Proof. unfold probe_version. repeat keeps_step. all: apply keeps_probe_installed. Qed.

Lemma probe_group entry : entry ∈ _ADMIN_GROUP_ACTIONS → is_probe [entry.1; u "--help"] = true.
Proof.
  intros He. apply bool_decide_eq_true. unfold PROBES. rewrite !elem_of_app, !list_elem_of_fmap.
  right; left. by exists entry.
Qed.
Lemma probe_action entry :
  entry ∈ _ACTION_PROFILE → is_probe [entry.1.1; entry.1.2; u "--help"] = true.
Proof.
  intros He. apply bool_decide_eq_true. unfold PROBES. rewrite !elem_of_app, !list_elem_of_fmap.
  right; right. by exists entry.
Qed.

Lemma keeps_scan version : keeps (scan_profile lib self version).
Proof.
  unfold scan_profile. keeps_step; [keeps_step|]. apply kept_bind; [|intros top].
  { unfold top_profile. apply kept_bind.
    - apply keeps_invoke, Hprobe. by vm_compute.
    - intros r. repeat keeps_step. }
  apply kept_bind; [|intros groups].
  { apply keeps_map. intros [group actions] He. unfold group_profile. apply kept_bind.
    - by apply keeps_invoke, Hprobe, (probe_group (group, actions)).
    - intros r. repeat keeps_step. }
  apply kept_bind; [|intros actions; repeat keeps_step].
  apply keeps_map. intros [[group name] [usage options]] He. unfold action_profile. apply kept_bind.
  - by apply keeps_invoke, Hprobe, (probe_action (group, name, (usage, options))).
  - intros r. cbn zeta. repeat keeps_step.
Qed.

Lemma keeps_fingerprint refresh : keeps (probe_cli_fingerprint lib self refresh).
Proof.
  unfold probe_cli_fingerprint. apply kept_bind; [apply keeps_probe_version|]. intros version.
  repeat first [keeps_step | apply keeps_scan].
Qed.

Lemma keeps_read_config : keeps (_read_effective_config lib self).
Proof.
  unfold _read_effective_config, os_unsafe. repeat keeps_step.
  all: apply keeps_outside; intros x; first [by eapply kept_cat | by apply kept_size | by apply kept_bytes].
Qed.
Lemma keeps_auth_safe version : keeps (_ensure_legacy_auth_safe lib self version).
Proof.
  unfold _ensure_legacy_auth_safe, check_config.
  repeat first [keeps_step | apply keeps_read_config].
Qed.

Lemma keeps_capability capability version : keeps (require_capability capability version : C X unit).
Proof. unfold require_capability. repeat keeps_step. Qed.

Lemma keeps_write_safety capability : keeps (require_write_safety lib self capability).
Proof.
  unfold require_write_safety.
  repeat first [keeps_step | apply keeps_probe_version | apply keeps_capability
               | apply keeps_auth_safe | apply keeps_fingerprint].
Qed.

(** Behind the gate, writes are not frozen. *)
Lemma frozen_gate capability s : frozen = true → inv_of s →
  ∃ e, (require_write_safety lib self capability s).1 = Err e.
Proof.
  intros Hf Hs. unfold require_write_safety, mbind, eff_mbind, eff_bind.
  pose proof (keeps_probe_version true s Hs) as Hp.
  destruct (probe_version lib self true s) as [[v|e] s']; [|by exists e].
  destruct Hp as [_ Hp]. simpl in Hp. unfold cached, gets. rewrite (Hp Hf). simpl. by eexists.
Qed.
Lemma keeps_gate {A} capability (f : SemVer → C X A) :
  (frozen = false → ∀ v, keeps (f v)) → keeps (require_write_safety lib self capability ≫= f).
Proof.
  intros Hf s Hs. pose proof (keeps_write_safety capability s Hs) as Hg.
  destruct frozen eqn:Ef.
  - destruct (frozen_gate capability s) as (e & He); [done..|].
    unfold mbind, eff_mbind, eff_bind.
    destruct (require_write_safety lib self capability s) as [[v|e'] s']; [done|done].
  - by apply kept_bind; [apply keeps_write_safety|apply Hf|].
Qed.
(** [_require]: what follows may write only when the gate was asked. *)
Lemma keeps_required {A} capability write (f : SemVer → C X A) :
  (write = false ∨ frozen = false → ∀ v, keeps (f v)) →
  keeps (_require lib self capability write ≫= f).
Proof.
  intros Hf. unfold _require. destruct write.
  - apply keeps_gate. auto.
  - apply kept_bind; [|auto]. apply kept_bind; [apply keeps_probe_version|]. intros v.
    apply kept_bind; [apply keeps_capability|]. intros _. apply keeps_ret.
Qed.

(** ** Accounts *)

Context (Hstorage : positional (storage_block self) = true).
Lemma keeps_list_command {A} group args limit (f : CommandResult → C X A) :
  attested (group :: u "list" :: args) = true → (∀ r, keeps (f r)) →
  keeps (invoke lib self (group :: u "list" :: args) limit ≫= f).
Proof.
  intros Ha Hf. apply kept_bind; [|done]. apply keeps_invoke, Hread; [done|]. reads_tac.
Qed.

Lemma keeps_credentials action args input write :
  (write = false ∨ frozen = false →
   ok (u "creds" :: action :: [CFG; auth_block self] ++ args) = true) →
  keeps (_credentials lib self action args input write).
Proof.
  intros Hs. apply keeps_required. intros Hw v. apply keeps_invoke_with. by apply Hs.
Qed.
Lemma keeps_imap_accounts action args write :
  (write = false ∨ frozen = false →
   ok (u "imap-acct" :: action :: [CFG; storage_block self] ++ args) = true) →
  keeps (_imap_accounts lib self action args write).
Proof.
  intros Hs. apply keeps_required. intros Hw v. apply keeps_invoke. by apply Hs.
Qed.

Lemma keeps_account_lines r marker : keeps (_account_lines lib r marker : C X _).
Proof. unfold _account_lines. repeat first [keeps_step | apply keeps_contract]. Qed.

Lemma keeps_list_credentials : keeps (list_credentials lib self).
Proof.
  apply kept_bind; [|intros; apply keeps_account_lines]. apply keeps_credentials. intros _.
  apply Hread; [attested_tac|reads_tac].
Qed.
Lemma keeps_list_imap_accounts : keeps (list_imap_accounts lib self).
Proof.
  apply kept_bind; [|intros; apply keeps_account_lines]. apply keeps_imap_accounts. intros _.
  apply Hread; [attested_tac|reads_tac].
Qed.

Lemma username_positional j a : username_ok j = Ok a → positional a = true.
Proof. by intros [? _]%safe_positional_ok. Qed.
Lemma mailbox_positional j a : mailbox_ok j = Ok a → positional a = true.
Proof. by intros [? _]%safe_positional_ok. Qed.

Lemma keeps_observe username m : keeps m → keeps (observe username m : C X (option bool)).
Proof. intros Hm. unfold observe. repeat first [keeps_step | exact Hm]. Qed.

Lemma keeps_append_limit username : keeps (get_append_limit lib self username).
Proof.
  unfold get_append_limit. apply keeps_check. intros a Ha%username_positional.
  apply kept_bind; [|intros r; repeat keeps_step]. apply keeps_imap_accounts. intros _.
  apply Hread; [attested_tac|]. unfold mutates. rewrite andb_false_iff. right.
  change (str_eqb (u "appendlimit") (u "appendlimit")) with true. cbv iota.
  apply bool_decide_eq_false. cbn [app]. rewrite !elem_of_cons, elem_of_nil.
  assert (∀ a, positional a = true → u "--value" ≠ a) as Hd by (intros ? Hp <-; by vm_compute in Hp).
  intros [He|[?|[?|[]]]]; [by vm_compute in He|by apply (Hd (storage_block self))|by apply (Hd a)].
Qed.

Lemma keeps_compensate username credentials mailboxes :
  (frozen = false → username ∉ mailboxes →
   ok [u "imap-acct"; u "remove"; CFG; storage_block self; u "-y"; username] = true) →
  (frozen = false → username ∉ credentials →
   ok [u "creds"; u "remove"; CFG; auth_block self; u "-y"; username] = true) →
  keeps (_compensate_account_creation lib self username credentials mailboxes).
Proof.
  intros Hm Hc. unfold _compensate_account_creation. cbn zeta.
  repeat first [keeps_step | apply keeps_observe | apply keeps_list_credentials
               | apply keeps_list_imap_accounts].
  - apply keeps_imap_accounts. intros [?|?]; [done|]. apply Hm; [done|].
    match goal with H : _ && _ = true |- _ => apply andb_true_iff in H as [H _] end.
    by eapply bool_decide_eq_false, negb_true_iff.
  - apply keeps_credentials. intros [?|?]; [done|]. apply Hc; [done|].
    match goal with H : negb (bool_decide (username ∈ credentials)) && _ = true |- _ => apply andb_true_iff in H as [H _] end.
    by eapply bool_decide_eq_false, negb_true_iff.
Qed.

Lemma keeps_create_both username data :
  (frozen = false → ok [u "creds"; u "create"; CFG; auth_block self; username] = true) →
  (frozen = false → ok [u "imap-acct"; u "create"; CFG; storage_block self; username] = true) →
  keeps (create_both lib self username data).
Proof.
  intros Hc Hm. unfold create_both.
  repeat first [keeps_step | apply keeps_list_credentials | apply keeps_list_imap_accounts].
  - apply keeps_credentials. intros [?|?]; [done|by apply Hc].
  - apply keeps_imap_accounts. intros [?|?]; [done|by apply Hm].
Qed.

(** ** Every method *)

Context (Hwrite : frozen = false → ∀ suffix, attested suffix = true → ok suffix = true).

Lemma ok_write suffix : frozen = false → attested suffix = true → ok suffix = true.
Proof. auto. Qed.

Lemma keeps_accounts include : keeps (list_accounts lib self include).
Proof.
  unfold list_accounts. apply kept_bind; [apply keeps_list_credentials|]. intros credentials.
  apply kept_bind; [apply keeps_list_imap_accounts|]. intros mailboxes. cbn zeta.
  apply keeps_map. intros username _. unfold account_record. cbn zeta.
  repeat first [keeps_step | apply keeps_append_limit].
Qed.

Lemma keeps_create_account username password : keeps (create_account lib self username password).
Proof.
  unfold create_account. apply keeps_check. intros a Ha%username_positional.
  repeat first [keeps_step | apply keeps_list_credentials | apply keeps_list_imap_accounts].
  - apply keeps_create_both; intros Hf; apply ok_write; [done|attested_tac|done|attested_tac].
  - apply keeps_compensate; intros Hf _; apply ok_write; [done|attested_tac|done|attested_tac].
Qed.

Lemma keeps_write_credentials {A} action args input (f : CommandResult → C X A) :
  attested ([u "creds"; action; CFG; auth_block self] ++ args) = true → (∀ r, keeps (f r)) →
  keeps (_credentials lib self action args input true ≫= f).
Proof.
  intros Ha Hf. apply kept_bind; [|done]. apply keeps_credentials.
  intros [?|?]; [done|by apply ok_write].
Qed.
Lemma keeps_write_imap {A} action args (f : CommandResult → C X A) :
  attested ([u "imap-acct"; action; CFG; storage_block self] ++ args) = true → (∀ r, keeps (f r)) →
  keeps (_imap_accounts lib self action args true ≫= f).
Proof.
  intros Ha Hf. apply kept_bind; [|done]. apply keeps_imap_accounts.
  intros [?|?]; [done|by apply ok_write].
Qed.

Lemma keeps_change_password username password : keeps (change_password lib self username password).
Proof.
  unfold change_password. apply keeps_check. intros a Ha%username_positional. apply keeps_check.
  intros data _. apply keeps_write_credentials; [attested_tac|]. intros r.
  repeat first [keeps_step | apply keeps_list_credentials].
Qed.
Lemma keeps_disable username : keeps (disable_credentials lib self username).
Proof.
  unfold disable_credentials. apply keeps_check. intros a Ha%username_positional.
  apply keeps_write_credentials; [attested_tac|]. intros r.
  repeat first [keeps_step | apply keeps_list_credentials].
Qed.
Lemma keeps_delete_imap username : keeps (delete_imap_account lib self username).
Proof.
  unfold delete_imap_account. apply keeps_check. intros a Ha%username_positional.
  apply keeps_write_imap; [attested_tac|]. intros r.
  repeat first [keeps_step | apply keeps_list_imap_accounts].
Qed.
Lemma keeps_delete_account username : keeps (delete_account lib self username).
Proof.
  unfold delete_account. repeat first [keeps_step | apply keeps_disable | apply keeps_delete_imap].
Qed.
Lemma keeps_set_limit username value : keeps (set_append_limit lib self username value).
Proof.
  unfold set_append_limit. apply keeps_check. intros a Ha%username_positional.
  destruct value; try apply keeps_throw. keeps_step; [apply keeps_throw|].
  apply keeps_write_imap; [attested_tac|]. intros r. cbn zeta.
  repeat first [keeps_step | apply keeps_append_limit].
Qed.

(** ** Mailboxes *)

(** A command that changes something, behind the gate. *)
Lemma keeps_write {A} suffix limit (f : CommandResult → C X A) :
  frozen = false → attested suffix = true → (∀ r, keeps (f r)) →
  keeps (invoke lib self suffix limit ≫= f).
Proof. intros Hf Ha Hr. apply kept_bind; [|done]. by apply keeps_invoke, ok_write. Qed.

(** [_require] before a read, and the gate before a write. *)
Lemma keeps_reading {A} capability (f : SemVer → C X A) :
  (∀ v, keeps (f v)) → keeps (_require lib self capability false ≫= f).
Proof. intros Hf. by apply keeps_required. Qed.
Lemma keeps_writing {A} capability (f : SemVer → C X A) :
  (frozen = false → ∀ v, keeps (f v)) → keeps (_require lib self capability true ≫= f).
Proof. intros Hf. apply keeps_required. intros [?|?]; [done|]. by apply Hf. Qed.

Lemma keeps_mailboxes username subscribed : keeps (mailbox_records lib self username subscribed).
Proof.
  unfold mailbox_records. apply keeps_reading. intros _. apply keeps_check.
  intros a Ha%username_positional. apply keeps_list_command.
  - destruct subscribed; attested_tac.
  - intros r. cbn zeta. repeat first [keeps_step | apply keeps_contract].
Qed.
Lemma keeps_names username : keeps (mailbox_names lib self username).
Proof. unfold mailbox_names. repeat first [keeps_step | apply keeps_mailboxes]. Qed.
Lemma keeps_mutable username mailbox mailboxes :
  keeps (_require_mutable_mailbox lib self username mailbox mailboxes).
Proof.
  unfold _require_mutable_mailbox. repeat first [keeps_step | apply keeps_mailboxes].
Qed.

Lemma special_positional j a : special_ok lib j = Ok a → positional a = true.
Proof.
  unfold special_ok. destruct j; try done.
  destruct (bool_decide_reflect (str_lower lib s ∈ _SPECIAL_USES)) as [H|]; [|done]. intros [= <-].
  assert (forallb positional _SPECIAL_USES = true) as Hf by by vm_compute.
  rewrite forallb_forall in Hf. by apply Hf, list_elem_of_In.
Qed.

Lemma keeps_create_mailbox username mailbox special :
  keeps (create_mailbox lib self username mailbox special).
Proof.
  unfold create_mailbox. apply keeps_writing. intros Hf _.
  apply keeps_check. intros a Ha%username_positional. apply keeps_check. intros b Hb%mailbox_positional.
  assert (∀ options, attested ([u "imap-mboxes"; u "create"; CFG; storage_block self]
      ++ options ++ [a; b]) = true →
    keeps (require (negb (str_eqb (casefold lib b) (u "inbox"))) InvalidMaddyArgument ≫= λ _,
      invoke lib self ([u "imap-mboxes"; u "create"; CFG; storage_block self]
        ++ options ++ [a; b]) DEFAULT_MAX_OUTPUT_BYTES ≫= λ _,
      names ← mailbox_names lib self a; require (bool_decide (b ∈ names)) MaddyError)) as Hgo.
  { intros options Ho. keeps_step; [keeps_step|]. apply keeps_write; [done..|]. intros _.
    repeat first [keeps_step | apply keeps_names]. }
  assert (keeps (special ← lift (special_ok lib special); mret [u "--special"; special]
                 : C X (list (list Z)))) as Hs by repeat keeps_step.
  intros s Hinv. unfold mbind at 1, eff_mbind at 1, eff_bind at 1.
  destruct special as [| | | |sp| |]; try done.
  - destruct (protected_name lib b); [done|]. apply Hgo; [attested_tac|done].
  - unfold mbind at 1, eff_mbind at 1, eff_bind at 1, lift at 1.
    destruct (special_ok lib (JStr sp)) as [x|e] eqn:Hx; [|done]. apply special_positional in Hx.
    apply Hgo; [attested_tac|done].
Qed.

Lemma keeps_resolve username special : keeps (resolve_special_mailbox lib self username special).
Proof.
  unfold resolve_special_mailbox. apply keeps_check. intros a _.
  apply kept_bind; [apply keeps_mailboxes|]. intros mailboxes. cbn zeta. repeat keeps_step.
Qed.

Lemma keeps_remove_mailbox a b : frozen = false → positional a = true → positional b = true →
  keeps (remove_mailbox lib self a b).
Proof. intros. apply keeps_write; [done|attested_tac|]. intros _. keeps_step. Qed.
Lemma keeps_rename a b c : frozen = false → positional a = true → positional b = true →
  positional c = true → keeps (rename_command lib self a b c).
Proof. intros. apply keeps_write; [done|attested_tac|]. intros _. keeps_step. Qed.

Lemma keeps_delete_mailbox username mailbox : keeps (delete_mailbox lib self username mailbox).
Proof.
  unfold delete_mailbox. apply keeps_writing. intros Hf _.
  apply keeps_check. intros a Ha%username_positional. apply keeps_check. intros b Hb%mailbox_positional.
  repeat first [keeps_step | apply keeps_mutable | by apply keeps_remove_mailbox | apply keeps_names].
Qed.
Lemma keeps_rename_mailbox username old_name new_name :
  keeps (rename_mailbox lib self username old_name new_name).
Proof.
  unfold rename_mailbox. apply keeps_writing. intros Hf _.
  apply keeps_check. intros a Ha%username_positional. apply keeps_check. intros b Hb%mailbox_positional.
  apply keeps_check. intros c Hc%mailbox_positional.
  repeat first [keeps_step | apply keeps_mailboxes | apply keeps_mutable | by apply keeps_rename
               | apply keeps_names].
Qed.

(** ** Messages *)

Lemma keeps_message_set username mailbox message_set full use_uids :
  keeps (_list_message_set lib self username mailbox message_set full use_uids).
Proof.
  unfold _list_message_set. apply keeps_reading. intros _.
  apply keeps_check. intros a Ha%username_positional. apply keeps_check. intros b Hb%mailbox_positional.
  apply keeps_check. intros c Hc%seqset_ok. apply keeps_list_command.
  - destruct use_uids, full; attested_tac.
  - intros r. repeat first [keeps_step | apply keeps_contract].
Qed.
Lemma keeps_latest username mailbox : keeps (latest_message_uid lib self username mailbox).
Proof. unfold latest_message_uid. repeat first [keeps_step | apply keeps_message_set]. Qed.
Lemma keeps_window username mailbox limit cursor :
  keeps (list_message_window lib self username mailbox limit cursor).
Proof.
  unfold list_message_window. cbn zeta. repeat first [keeps_step | apply keeps_message_set].
Qed.

Lemma keeps_dump username mailbox uid limit : keeps (dump_message_to lib self username mailbox uid limit).
Proof.
  unfold dump_message_to. apply keeps_reading. intros _.
  apply keeps_check. intros a Ha%username_positional. apply keeps_check. intros b Hb%mailbox_positional.
  cbn zeta. destruct (isdecimal lib (json_str lib uid)) eqn:Hd.
  - apply decimal_ok in Hd. keeps_step. keeps_step; [keeps_step|]. keeps_step; [|keeps_step].
    apply keeps_invoke_with, Hread; [attested_tac|reads_tac].
  - by intros s.
Qed.

Lemma flag_options_ok options flags l rest :
  bool_decide (u "flag" ∈ options) = true → flag_options flags = Ok l →
  args_ok options rest = true → args_ok options (l ++ rest) = true.
Proof.
  intros Ho Hl Hr. unfold flag_options in Hl. apply result_bind_ok in Hl as (items & _ & Hl).
  apply result_bind_ok in Hl as (fs & _ & [= <-]). induction fs as [|f fs IH]; [done|].
  change (mjoin ((λ flag, [u "--flag"; flag]) <$> f :: fs))
    with (u "--flag" :: f :: mjoin ((λ flag, [u "--flag"; flag]) <$> fs)).
  cbn [app]. apply args_valued; [|done]. unfold takes.
  assert (after_prefix [45; 45] (u "--flag") = Some (u "flag")) as -> by by vm_compute.
  rewrite Ho. by vm_compute.
Qed.

Lemma date_options_ok options date l rest :
  bool_decide (u "date" ∈ options) = true → date_options lib date = Ok l →
  args_ok options rest = true → args_ok options (l ++ rest) = true.
Proof.
  intros Ho Hl Hr. unfold date_options in Hl. destruct date as [| | | |s| |]; simplify_eq/=; try done.
  destruct (lib_iso lib _) as [[|]|]; simplify_eq. cbn [app]. apply args_valued; [|done]. unfold takes.
  assert (after_prefix [45; 45] (u "--date") = Some (u "date")) as -> by by vm_compute.
  rewrite Ho. by vm_compute.
Qed.

Lemma keeps_append username mailbox content flags date :
  keeps (append_message lib self username mailbox content flags date).
Proof.
  unfold append_message. apply keeps_writing. intros Hf _.
  apply keeps_check. intros a Ha%username_positional. apply keeps_check. intros b Hb%mailbox_positional.
  apply keeps_check. intros input _. apply keeps_check. intros fs Hfs. apply keeps_check. intros ds Hds.
  apply kept_bind.
  - apply keeps_invoke_with, ok_write; [done|]. cbn [app].
    eapply attested_command; [vm_compute; reflexivity|].
    apply args_valued; [by vm_compute|]. eapply flag_options_ok; [by vm_compute|done|].
    eapply date_options_ok; [by vm_compute|done|]. args_tac.
  - intros r. cbn zeta. apply kept_bind; [repeat keeps_step|]. intros n.
    unfold list_messages. repeat first [keeps_step | apply keeps_message_set].
Qed.

Lemma keeps_transfer action username source uid_set target :
  action = u "copy" ∨ action = u "move" →
  keeps (_message_transfer lib self action username source uid_set target).
Proof.
  intros Hact. unfold _message_transfer. apply keeps_writing. intros Hf _.
  apply keeps_check. intros a Ha%username_positional. apply keeps_check. intros b Hb%mailbox_positional.
  apply keeps_check. intros c Hc%mailbox_positional. apply keeps_check. intros d Hd%seqset_ok.
  apply keeps_write; [done| |intros _; keeps_step]. destruct Hact as [->| ->]; attested_tac.
Qed.

Definition uid_actions : list (list Z) := u <$> ["remove"; "add-flags"; "rem-flags"; "set-flags"]%string.

Lemma keeps_uid_operation action username mailbox uid_set destructive flags :
  action ∈ uid_actions → (destructive = true → action = u "remove") →
  keeps (_message_uid_operation lib self action username mailbox uid_set destructive flags).
Proof.
  intros Hact Hdes. unfold _message_uid_operation. apply keeps_writing. intros Hf _.
  apply keeps_check. intros a Ha%username_positional. apply keeps_check. intros b Hb%mailbox_positional.
  apply keeps_check. intros d Hd%seqset_ok. apply keeps_check. intros items _.
  apply keeps_check. intros fs Hfs%flags_ok.
  apply keeps_write; [done| |intros _; keeps_step]. rewrite <- (app_nil_r fs).
  destruct destructive; [rewrite Hdes by done; attested_tac|].
  unfold uid_actions in Hact. cbn [fmap list_fmap] in Hact.
  rewrite !elem_of_cons, elem_of_nil in Hact.
  destruct Hact as [->|[->|[->|[->|[]]]]]; attested_tac.
Qed.

Lemma keeps_messages username mailbox uid_set full : keeps (list_messages lib self username mailbox uid_set full).
Proof. apply keeps_message_set. Qed.

Lemma keeps_delete_messages username mailbox uid_set : keeps (delete_messages lib self username mailbox uid_set).
Proof.
  unfold delete_messages. repeat first [keeps_step | apply keeps_messages].
  apply keeps_uid_operation; [left|done].
Qed.
Lemma keeps_delete_message username mailbox uid : keeps (delete_message lib self username mailbox uid).
Proof.
  unfold delete_message. repeat first [keeps_step | apply keeps_messages].
  apply keeps_uid_operation; [left|done].
Qed.
Lemma keeps_move_message username source uid target :
  keeps (move_message lib self username source uid target).
Proof.
  unfold move_message. repeat keeps_step. apply keeps_transfer. by right.
Qed.
Lemma keeps_seen username mailbox uid b : keeps (set_message_seen lib self username mailbox uid b).
Proof.
  unfold set_message_seen. apply keeps_check. intros a _. apply keeps_uid_operation; [|done].
  destruct b; [right; left|right; right; left].
Qed.
Lemma keeps_flags method username mailbox uid_set flags :
  keeps (message_flags lib self method username mailbox uid_set flags).
Proof.
  unfold message_flags. keeps_step; [keeps_step|]. apply keeps_uid_operation; [|done].
  destruct method; [right; right; right; left|right; left|right; right; left].
Qed.

Lemma keeps_quarantine n existing : keeps (quarantine_name n existing : C X _).
Proof.
  induction n as [|n IH]; [apply keeps_throw|]. simpl.
  repeat first [keeps_step | exact IH]. apply keeps_outside. intros x. by apply kept_token.
Qed.

Lemma quarantine_positional n existing s q s' :
  quarantine_name n existing s = (Ok q, s') → positional q = true.
Proof.
  revert s. induction n as [|n IH]; intros s; [done|]. simpl.
  intros (t & s1 & _ & H)%eff_bind_ok. apply eff_bind_ok in H as (c & s2 & [= Hc ->] & H).
  apply mailbox_positional in Hc. destruct (bool_decide (c ∈ existing)); [by eapply IH|].
  by injection H as <- <-.
Qed.

Lemma keeps_restore a b q : frozen = false → positional a = true → positional b = true →
  positional q = true → keeps (_restore_mailbox_quarantine lib self a b q).
Proof.
  intros. unfold _restore_mailbox_quarantine.
  repeat first [keeps_step | apply keeps_names | by apply keeps_rename].
Qed.

Lemma keeps_check_moved a b q t : keeps (check_moved lib self a b q t).
Proof. unfold check_moved. keeps_step; [apply keeps_names|keeps_step]. Qed.

Lemma keeps_migrate a b t q : frozen = false → positional a = true → positional b = true →
  positional t = true → positional q = true → keeps (migrate lib self a b t q).
Proof.
  intros. unfold migrate. cbn zeta.
  repeat lazymatch goal with
  | |- keeps (check_moved _ _ _ _ _ _) => apply keeps_check_moved
  | |- keeps (rename_command _ _ _ _ _) => by apply keeps_rename
  | |- keeps (mailbox_names _ _ _) => apply keeps_names
  | |- keeps (latest_message_uid _ _ _ _) => apply keeps_latest
  | |- keeps (list_message_window _ _ _ _ _ _) => apply keeps_window
  | |- keeps (remove_mailbox _ _ _ _) => by apply keeps_remove_mailbox
  | |- _ => keeps_step
  end.
  - apply keeps_transfer. by left.
  - apply keeps_uid_operation; [left|done].
Qed.

Lemma keeps_migrate_and_delete username mailbox t :
  keeps (migrate_and_delete_mailbox lib self username mailbox t).
Proof.
  unfold migrate_and_delete_mailbox. apply keeps_writing. intros Hf _. apply keeps_writing. intros _ _.
  apply keeps_check. intros a Ha%username_positional. apply keeps_check. intros b Hb%mailbox_positional.
  apply keeps_check. intros c Hc%mailbox_positional.
  apply kept_bind; [apply keeps_mailboxes|]. intros mailboxes.
  apply kept_bind; [apply keeps_mutable|]. intros _. do 2 (keeps_step; [keeps_step|]).
  destruct (List.filter _ mailboxes) as [|? [|]]; try apply keeps_throw.
  intros s Hs. pose proof (keeps_quarantine _MAILBOX_QUARANTINE_ATTEMPTS (mb_name <$> mailboxes) s Hs) as Hq.
  unfold mbind at 1, eff_mbind at 1, eff_bind at 1, _new_mailbox_quarantine_name.
  destruct (quarantine_name _ _ s) as [[q|e] s'] eqn:Eq; [|done].
  apply quarantine_positional in Eq. apply keeps_on_maddy_error; [by apply keeps_migrate| |done].
  intros e. keeps_step; [by apply keeps_restore|keeps_step].
Qed.

(** ** Sequences of calls *)

Lemma keeps_drop {A} (m : C X A) : keeps m → keeps (drop_value m).
Proof. intros Hm. unfold drop_value. by repeat first [keeps_step | exact Hm]. Qed.

Lemma keeps_reload : keeps (reload lib self).
Proof.
  unfold reload. apply keeps_reading. intros _. apply kept_bind; [|intros r; repeat keeps_step].
  apply keeps_outside. intros x. by apply kept_reload.
Qed.
Lemma keeps_verify : keeps (verify_config lib self).
Proof.
  unfold verify_config. apply keeps_reading. intros _. apply kept_bind; [|intros r; keeps_step].
  apply keeps_invoke, Hprobe. by vm_compute.
Qed.
Lemma keeps_safety_status : keeps (startup_safety_status lib self).
Proof.
  unfold startup_safety_status.
  repeat first [keeps_step | apply keeps_probe_version | apply keeps_fingerprint | apply keeps_auth_safe].
Qed.
Lemma keeps_info : keeps (version_info lib self).
Proof.
  unfold version_info.
  repeat first [keeps_step | apply keeps_probe_installed | apply keeps_safety_status].
Qed.

Lemma keeps_call c : keeps (run_call lib self c).
Proof.
  destruct c; try apply keeps_drop.
  - apply keeps_fingerprint.
  - apply keeps_safety_status.
  - apply keeps_info.
  - apply keeps_verify.
  - apply keeps_reload.
  - apply keeps_accounts.
  - apply keeps_create_account.
  - apply keeps_change_password.
  - apply keeps_disable.
  - apply keeps_delete_imap.
  - apply keeps_delete_account.
  - apply keeps_append_limit.
  - apply keeps_set_limit.
  - apply kept_bind; [apply keeps_mailboxes|]. intros records. apply keeps_ret.
  - apply keeps_create_mailbox.
  - apply keeps_delete_mailbox.
  - apply keeps_rename_mailbox.
  - apply keeps_resolve.
  - apply keeps_migrate_and_delete.
  - apply keeps_messages.
  - apply keeps_latest.
  - apply keeps_window.
  - apply keeps_dump.
  - apply keeps_append.
  - apply keeps_delete_message.
  - apply keeps_delete_messages.
  - apply keeps_transfer. by left.
  - apply keeps_transfer. by right.
  - apply keeps_move_message.
  - apply keeps_seen.
  - apply keeps_flags.
  - apply keeps_write_safety.
Qed.

Lemma run_calls_keep calls s : inv_of s → inv_of (run_calls lib self calls s).
Proof.
  revert s. induction calls as [|c calls IH]; intros s Hs; [done|]. apply IH. by apply keeps_call.
Qed.
End Keeps.

(** The blocks of a constructed service are arguments. *)
Lemma block_positional b : _BLOCK_RE b = true → positional b = true.
Proof.
  unfold _BLOCK_RE, head_tail. destruct b as [|c b]; [done|].
  intros [[Hc Hb]%andb_true_iff _]%andb_true_iff.
  assert (∀ x, is_name_char x = true → 45 ≤ x ≤ 122) as Hn.
  { intros x. unfold is_name_char, is_alnum, is_digit, is_lower, is_upper, in_chars, has_char.
    change (u "_.-") with [95; 46; 45]. simpl.
    rewrite !orb_true_iff, !andb_true_iff, !Z.leb_le, !Z.eqb_eq. lia. }
  assert (65 ≤ c ≤ 122) as Hc'.
  { revert Hc. unfold is_lower, is_upper. rewrite !orb_true_iff, !andb_true_iff, !Z.leb_le, !Z.eqb_eq. lia. }
  apply (positional_class (λ x, (45 <=? x) && (x <=? 122))); [done| | |].
  - constructor; [apply andb_true_iff; rewrite !Z.leb_le; lia|]. apply Forall_forall. intros x Hx.
    rewrite forallb_forall in Hb. apply list_elem_of_In, Hb, Hn in Hx.
    apply andb_true_iff. rewrite !Z.leb_le. lia.
  - intros x. rewrite andb_true_iff, !Z.leb_le. lia.
  - intros [= ->]. lia.
Qed.

Lemma new_service_storage t timeout auth_block storage version fp self c :
  new_service t timeout auth_block storage version fp = Ok (self, c) →
  positional (storage_block self) = true.
Proof.
  unfold new_service. destruct (float_not_positive timeout); [done|].
  intros (a & Ha & H)%result_bind_ok. apply result_bind_ok in H as (b & Hb & H).
  apply result_bind_ok in H as (v & _ & [= <- <-]). simpl. unfold _safe_block in Hb.
  destruct (_BLOCK_RE storage) eqn:E; [|done]. injection Hb as <-. by apply block_positional.
Qed.
