(* ===== verification/MaddySpecs.v ===== *)
(** * What the Maddy adapter guarantees

    The commands it runs, what the write gate has established when it opens,
    what a listing holds, and the window that [HelperProgress] asks of its mail
    server. *)

From S2P Require Import Prelude Text Errors Json Csrf HelperBase Maddy MaddyConfig MaddyList MaddyCli MaddyOps MaddyGuard.

#[local] Set Default Proof Using "Type*".

(** ** Commands *)

Section Commands.
Context {X : Type} (lib : pylib) `{!Runner X}.



(** ** Creating an account that exists *)

Definition removal (credentials : bool) (self : service) (username : list Z) : list (list Z) :=
  if credentials then [u "creds"; u "remove"; CFG; auth_block self; u "-y"; username]
  else [u "imap-acct"; u "remove"; CFG; storage_block self; u "-y"; username].
Definition listing (credentials : bool) (self : service) : C X (list (list Z)) :=
  if credentials then list_credentials lib self else list_imap_accounts lib self.

Definition spares (credentials : bool) (self : service) (username : list Z)
    (suffix : list (list Z)) : bool :=
  attested suffix && negb (bool_decide (suffix = removal credentials self username)).

Lemma spares_ok (credentials : bool) self username group name args :
  attested (group :: name :: args) = true →
  bool_decide (group = if credentials then u "creds" else u "imap-acct") = false
  ∨ bool_decide (name = u "remove") = false →
  spares credentials self username (group :: name :: args) = true.
Proof.
  intros Ha Hd. unfold spares. rewrite Ha. apply negb_true_iff, bool_decide_eq_false.
  destruct credentials; intros [= Hg Hn _]; destruct Hd as [Hd%bool_decide_eq_false|Hd%bool_decide_eq_false]; done.
Qed.

Lemma spares_reads (credentials : bool) self username suffix :
  attested suffix = true → mutates suffix = false → spares credentials self username suffix = true.
Proof.
  intros Ha Hm. unfold spares. rewrite Ha. apply negb_true_iff, bool_decide_eq_false. intros ->.
  unfold mutates in Hm. apply andb_false_iff in Hm as [Hp|Hm].
  - apply negb_false_iff, bool_decide_eq_true in Hp. revert Hp. unfold PROBES, removal.
    rewrite !elem_of_app, !list_elem_of_fmap. intros [Hp|[([g l] & He & _)|(e & He & _)]].
    + rewrite !elem_of_cons, elem_of_nil in Hp. destruct credentials; intuition discriminate.
    + destruct credentials; discriminate.
    + destruct credentials; discriminate.
  - destruct credentials; by vm_compute in Hm.
Qed.

(** C18: creating an account never deletes one that exists. If the listing of
    credentials (of mailboxes) shows the name before, [create_account] never runs
    the removal of the credentials (of the mailbox) of that name, however its
    commands fail and whatever compensation it does. *)
Theorem create_spares_existing target timeout auth_block storage_block version fp self c
    (credentials : bool) (Q : X → Prop) username password s :
  new_service target timeout auth_block storage_block version fp = Ok (self, c) →
  world_kept self Q (spares credentials self username) →
  (∀ s names s', Q (m_outside s) → listing credentials self s = (Ok names, s') → username ∈ names) →
  Q (m_outside s) →
  Q (m_outside (create_account lib self (JStr username) password s).2).
Proof.
  intros Hst%new_service_storage Hw Hlist HQ.
  pose proof (spares_reads credentials self username) as Hr.
  refine (proj1 ((_ : keeps Q false (create_account lib self (JStr username) password)) s _));
    [|by split].
  unfold create_account. apply keeps_check. intros a Ha.
  assert (a = username) as ->.
  { revert Ha. unfold username_ok, _safe_positional. destruct (is_falsy _); [done|]. simpl.
    destruct (_ <? _); [done|]. destruct (_ || _); [done|]. by intros [= ->]. }
  pose proof (safe_positional_ok _ _ _ Ha) as [Hp _]. apply keeps_check. intros data _.
  apply keeps_bind_post; [by eapply keeps_list_credentials|]. intros s1 creds s1' HI1 Hc.
  apply keeps_bind_post; [by eapply keeps_list_imap_accounts|]. intros s2 boxes s2' HI2 Hb.
  apply kept_bind; [|intros []; apply keeps_ret]. apply keeps_on_maddy_error; [|intros e].
  - eapply keeps_create_both; [done..| |]; intros _; (apply spares_ok; [attested_tac|]);
      right; by vm_compute.
  - apply kept_bind; [|intros [completed done_]; destruct (_ && _); apply keeps_throw].
    eapply keeps_compensate; [done..| |]; intros _ Hni; (apply spares_ok; [attested_tac|]);
      destruct credentials; try (left; by vm_compute); destruct Hni;
      [eapply (Hlist s2); [apply HI2|exact Hb]|eapply (Hlist s1); [apply HI1|exact Hc]].
Qed.
End Commands.

(** ** Releases *)

Lemma supported_tested v w : require_supported_version v true = Ok w ↔ v = w ∧ v ∈ TESTED_RELEASES.
Proof.
  split.
  - unfold require_supported_version. destruct (bool_decide_reflect (prerelease v = [])) as [Hp|]; [|done].
    destruct (bool_decide_reflect (build v = [])) as [Hb|]; [|done]. cbn [negb].
    destruct (negb (semver_le _ _ && _)); [done|]. cbn [andb].
    destruct (existsb (semver_eqb v) TESTED_RELEASES) eqn:E; [|done]. intros [= <-]. split; [done|].
    apply existsb_exists in E as (r & Hr & Heq). apply list_elem_of_In in Hr.
    unfold semver_eqb in Heq. apply andb_true_iff in Heq as [Hc%bool_decide_eq_true _].
    assert (prerelease r = [] ∧ build r = []) as [Hp' Hb'].
    { unfold TESTED_RELEASES, release in Hr. rewrite !elem_of_cons, elem_of_nil in Hr.
      by destruct Hr as [->|[->|[->|[->|[->|[->|[->|[]]]]]]]]. }
    assert (v = r) as ->; [|done]. destruct v, r. unfold core in Hc. simpl in *. by simplify_eq.
  - intros [<- Hv]. unfold TESTED_RELEASES in Hv. rewrite !elem_of_cons, elem_of_nil in Hv.
    by destruct Hv as [->|[->|[->|[->|[->|[->|[->|[]]]]]]]]; vm_compute.
Qed.

(** A release and a pre-release of it are each below the other: [SemVer.__lt__] is
    no order on them (the service refuses pre-releases before it compares). *)
Lemma release_and_prerelease v w :
  core v = core w → prerelease v = [] → prerelease w ≠ [] → semver_lt v w = true ∧ semver_lt w v = true.
Proof.
  intros Hc Hv Hw. unfold semver_lt. rewrite Hc, Hv, !bool_decide_eq_true_2 by done. simpl.
  by destruct (prerelease w).
Qed.

(** ** The write gate *)

Section Gate.
Context {X : Type} (lib : pylib) `{!Runner X} (self : service).

Definition legacy (v : SemVer) : bool := semver_lt v (release 0 9 3).

(** What the gate requires of the text of the configuration. *)
Definition config_safe (v : SemVer) (text : list Z) : Prop :=
  ∃ tokens uncommented,
    _config_tokens_and_text text = Ok (tokens, uncommented)
    ∧ _legacy_dynamic_config_is_unsafe text uncommented (is_docker self) = Ok false
    ∧ u "import" ∉ tokens
    ∧ (legacy v = true → u "auth.ldap" ∉ tokens ∧ u "table.ldap" ∉ tokens ∧ u "ldap" ∉ tokens)
    ∧ (mode (target self) = NATIVE → contains ENV uncommented = false).

Lemma probe_refreshed s v s' :
  probe_version lib self true s = (Ok v, s') →
  v ∈ TESTED_RELEASES ∧ _version (m_cache s') = Some v ∧
  ∃ argv r x,
    Maddy.argv (target self) [u "version"] false false = Ok argv ∧
    r_run argv (MkRun NoInput false (timeout self) (64 * 1024) (run_as_user (target self)))
      (m_outside s) = (Ok r, x) ∧
    returncode r = 0 ∧ from_maddy_output lib (stdout r) = Ok v ∧ m_outside s' = x.
Proof.
  unfold probe_version. intros (known & s1 & Hk & H)%eff_bind_ok. injection Hk as <- <-.
  apply eff_bind_ok in H as (installed & s2 & Hi & H).
  apply eff_bind_ok in H as (w & s3 & Hw & H). injection Hw as Hw <-.
  apply supported_tested in Hw as [-> Hw]. injection H as <- <-. split; [done|]. split; [done|].
  unfold probe_installed_version in Hi. apply eff_bind_ok in Hi as (k & s4 & Hk & Hi).
  injection Hk as <- <-. apply eff_bind_ok in Hi as (er & s5 & Hk & Hi). injection Hk as <- <-.
  apply eff_bind_ok in Hi as (r & s6 & Hr & Hi).
  unfold _invoke in Hr. apply eff_bind_ok in Hr as (argv & s7 & Ha & Hr). injection Ha as Ha <-.
  apply eff_bind_ok in Hr as (r' & s8 & Hrun & Hr). unfold outside in Hrun.
  destruct (r_run argv _ (m_outside s)) as [rr x] eqn:Er. injection Hrun as -> <-.
  exists argv, r, x.
  destruct (Z.eqb_spec (returncode r') 0) as [H0|]; [|done]. cbn [negb] in Hr.
  apply eff_bind_ok in Hr as (failed & s9 & Hl & Hr). injection Hl as _ <-. destruct failed; [done|]. injection Hr as -> <-.
  repeat (split; [done|]).
  destruct (from_maddy_output lib (stdout r)) as [i|e].
  - apply eff_bind_ok in Hi as (? & ? & Hu & [= -> <-]). by injection Hu as _ <-.
  - destruct (catches _ e); [|done]. by apply eff_bind_ok in Hi as (? & ? & _ & [=]).
Qed.

Lemma checked_config v s u0 s' :
  legacy v = true ∨ is_docker self = false →
  _legacy_config_checked (m_cache s) = false →
  _ensure_legacy_auth_safe lib self v s = (Ok u0, s') →
  ∃ text s1, _read_effective_config lib self s = (Ok text, s1) ∧ config_safe v text.
Proof.
  intros Hv Hc. unfold _ensure_legacy_auth_safe.
  assert (negb (legacy v) && is_docker self = false) as He.
  { destruct Hv as [Hv|Hv]; rewrite Hv; [done|apply andb_false_r]. }
  unfold legacy in He. rewrite He. intros (c1 & s1 & Hcheck & H)%eff_bind_ok.
  unfold check_config in Hcheck. apply eff_bind_ok in Hcheck as (k & s2 & Hk & Hcheck).
  injection Hk as <- <-. rewrite Hc in Hcheck.
  apply eff_bind_ok in Hcheck as (text & s3 & Hread & Hcheck). exists text, s3. split; [done|].
  apply eff_bind_ok in Hcheck as ([tokens uncommented] & s4 & Ht & Hcheck). injection Ht as Ht <-.
  cbn zeta in Hcheck. apply eff_bind_ok in Hcheck as (un & s5 & Hun & Hcheck). injection Hun as <- <-.
  apply eff_bind_ok in Hcheck as (? & s6 & Hup & Hcheck). injection Hup as _ <-.
  apply eff_bind_ok in Hcheck as (unsafe & s7 & Hdyn & Hcheck). injection Hdyn as Hdyn <-.
  injection Hcheck as _ <-. cbn [m_cache m_outside] in H.
  apply eff_bind_ok in H as (l1 & t1 & Hl & H). injection Hl as <- <-.
  apply eff_bind_ok in H as (l2 & t2 & Hl & H). injection Hl as <- <-.
  apply eff_bind_ok in H as (l3 & t3 & Hl & H). injection Hl as <- <-.
  apply eff_bind_ok in H as (l4 & t4 & Hl & H). injection Hl as <- <-.
  cbn [with_config _legacy_config_has_ldap _legacy_config_has_import _runtime_config_has_env
       _legacy_config_has_unsafe_dynamic_config] in H.
  apply eff_bind_ok in H as (? & ? & [H1 ->]%require_ok & H).
  apply eff_bind_ok in H as (? & ? & [H2 ->]%require_ok & H).
  apply eff_bind_ok in H as (? & ? & [H3 ->]%require_ok & H).
  apply eff_bind_ok in H as (? & ? & [H4 ->]%require_ok & [H5 ->]%require_ok).
  rewrite negb_true_iff, andb_false_iff in H1, H2, H3, H4, H5. fold (legacy v) in H1, H2, H3.
  rewrite !orb_false_iff, !bool_decide_eq_false in H1. rewrite bool_decide_eq_false in H2, H5.
  rewrite orb_false_iff in H4.
  exists tokens, uncommented. split; [done|].
  assert (is_docker self = false ↔ mode (target self) = NATIVE) as Hd
    by (unfold is_docker; by destruct (mode (target self))).
  split_and!.
  - rewrite Hdyn. f_equal. destruct Hv as [Hv|Hv]; rewrite Hv in *; [by destruct H3|].
    by destruct H4 as [|[_ ?]].
  - destruct Hv as [Hv|Hv]; rewrite Hv in *; [by destruct H2|by destruct H5].
  - intros Hl. rewrite Hl in H1. by destruct H1 as [|[[? ?] ?]].
  - intros Hn%Hd. rewrite Hn in H4. by destruct H4 as [|[? _]].
Qed.

Lemma attested_fingerprint v s fp s' :
  _version (m_cache s) = Some v → probe_cli_fingerprint lib self false s = (Ok fp, s') →
  ∃ w, _cli_fingerprint (m_cache s') = Some fp ∧ _cli_fingerprint_version (m_cache s') = Some w
       ∧ semver_eqb w v = true.
Proof.
  intros Hv. unfold probe_cli_fingerprint. intros (w & s1 & Hw & H)%eff_bind_ok.
  assert (w = v ∧ s1 = s) as [-> ->].
  { unfold probe_version in Hw. apply eff_bind_ok in Hw as (k & s2 & Hk & Hw). injection Hk as <- <-.
    rewrite Hv in Hw. by injection Hw as <- <-. }
  assert (semver_eqb v v = true) as Hvv by (unfold semver_eqb; by rewrite !bool_decide_eq_true_2).
  apply eff_bind_ok in H as (known & s1 & Hk & H). injection Hk as Hk <-.
  apply eff_bind_ok in H as (known_for & s1 & Hf & H). injection Hf as Hf <-.
  assert ((f ← scan_profile lib self v; update (with_fingerprint f v) ≫= λ _, mret f) s = (Ok fp, s') →
    _cli_fingerprint (m_cache s') = Some fp ∧ _cli_fingerprint_version (m_cache s') = Some v) as Hscan.
  { intros (f & s2 & _ & Hg)%eff_bind_ok. by injection Hg as <- <-. }
  destruct known as [f|], known_for as [w|]; try (exists v; destruct (Hscan H); by eauto).
  destruct (semver_eqb w v) eqn:E; [|exists v; destruct (Hscan H); by eauto].
  injection H as <- <-. by exists w.
Qed.

(** The check of the configuration leaves the version alone. *)
Definition same_cache {A} (m : C X A) : Prop := ∀ s, m_cache (m s).2 = m_cache s.

Lemma same_cache_bind {A B} (m : C X A) (f : A → C X B) :
  same_cache m → (∀ a, same_cache (f a)) → same_cache (m ≫= f).
Proof.
  intros Hm Hf s. specialize (Hm s). unfold mbind, eff_mbind, eff_bind.
  destruct (m s) as [[a|e] s']; [|done]. simpl in Hm. by rewrite Hf.
Qed.
Lemma same_cache_outside {A} (m : eff X exc A) : same_cache (outside m).
Proof. intros s. unfold outside. by destruct (m (m_outside s)). Qed.
Lemma same_cache_unsafe {A} (m : C X A) : same_cache m → same_cache (os_unsafe m).
Proof.
  intros Hm. apply same_cache_bind; [|by intros [?|] s].
  intros s. specialize (Hm s). unfold attempt. destruct (m s) as [[a|e] s']; [done|].
  by destruct (catches _ e).
Qed.
Lemma same_cache_read : same_cache (_read_effective_config lib self).
Proof.
  unfold _read_effective_config. destruct (config_path (target self)); [|by intros s].
  apply same_cache_bind; [|by intros data s]. destruct (mode (target self)).
  - apply same_cache_bind; [apply same_cache_unsafe, same_cache_outside|]. intros size.
    destruct (_ || _); [by intros s|].
    apply same_cache_bind; [apply same_cache_unsafe, same_cache_outside|]. intros data.
    by destruct (negb _); intros s.
  - apply same_cache_bind; [by intros s|]. intros v.
    apply same_cache_bind; [apply same_cache_outside|]. intros r.
    destruct (negb _); [by intros s|]. apply same_cache_bind; [by intros s|].
    by intros [] s.
Qed.

Lemma auth_safe_version v s u0 s' :
  _ensure_legacy_auth_safe lib self v s = (Ok u0, s') → _version (m_cache s') = _version (m_cache s).
Proof.
  unfold _ensure_legacy_auth_safe. destruct (negb _ && _); [by intros [= _ <-]|].
  intros (? & s1 & Hc & H)%eff_bind_ok. trans (_version (m_cache s1)).
  - do 4 (apply eff_bind_ok in H as (? & ? & Hk & H); injection Hk as _ <-).
    do 4 (apply eff_bind_ok in H as (? & ? & [_ ->]%require_ok & H)).
    by apply require_ok in H as [_ ->].
  - unfold check_config in Hc. apply eff_bind_ok in Hc as (k & ? & Hk & Hc). injection Hk as <- <-.
    destruct (_legacy_config_checked (m_cache s)); [by injection Hc as _ <-|].
    apply eff_bind_ok in Hc as (text & s2 & Hr & Hc). pose proof (same_cache_read s) as Hs.
    rewrite Hr in Hs. simpl in Hs. rewrite <- Hs.
    apply eff_bind_ok in Hc as ([? ?] & s3 & Ht & Hc). injection Ht as _ <-. cbn zeta in Hc.
    apply eff_bind_ok in Hc as (? & ? & Hk & Hc). injection Hk as _ <-.
    apply eff_bind_ok in Hc as (? & ? & Hk & Hc). injection Hk as _ <-.
    apply eff_bind_ok in Hc as (? & ? & Hk & Hc). injection Hk as _ <-. by injection Hc as _ <-.
Qed.

Lemma probe_contract refresh s v s' :
  probe_version lib self refresh s = (Ok v, s') →
  _output_contract_failure (m_cache s') = false → _output_contract_failure (m_cache s) = false.
Proof.
  intros Hp Hf. apply not_true_iff_false. intros Ht.
  assert (keeps (λ _ : X, True) true (probe_version lib self refresh)) as Hk.
  { apply (keeps_probe_version lib self (λ _, True) true attested); [by constructor|done]. }
  destruct (Hk s) as [_ Hk']; [done|]. rewrite Hp in Hk'. simpl in Hk'. specialize (Hk' eq_refl). congruence.
Qed.

(** C3: what the write gate has established when it opens. The version is the one
    the mail server printed in this very call, and a tested release with the
    capability; no output has broken the contract; on releases before 0.9.3 and on
    native targets the configuration read after that has no import, no dynamic
    context outside the allow-list, no LDAP token on those releases and no
    environment value on native targets; and the help of the command line was
    attested for this version. *)
Theorem write_gate_sound capability s v s' :
  require_write_safety lib self capability s = (Ok v, s') →
  v ∈ TESTED_RELEASES
  ∧ _output_contract_failure (m_cache s) = false
  ∧ (∃ known, capabilities_for v = Ok known ∧ capability ∈ known)
  ∧ (∃ argv r x,
       Maddy.argv (target self) [u "version"] false false = Ok argv
       ∧ r_run argv (MkRun NoInput false (timeout self) (64 * 1024) (run_as_user (target self)))
           (m_outside s) = (Ok r, x)
       ∧ returncode r = 0 ∧ from_maddy_output lib (stdout r) = Ok v
       ∧ (legacy v = true ∨ mode (target self) = NATIVE →
          ∃ s1 text s2, m_outside s1 = x
            ∧ _read_effective_config lib self s1 = (Ok text, s2) ∧ config_safe v text))
  ∧ ∃ fp w, _cli_fingerprint (m_cache s') = Some fp
            ∧ _cli_fingerprint_version (m_cache s') = Some w ∧ semver_eqb w v = true.
Proof.
  unfold require_write_safety. intros (w & s1 & Hp & H)%eff_bind_ok.
  apply eff_bind_ok in H as (failure & ? & Hk & H). injection Hk as Hfail <-.
  apply eff_bind_ok in H as (? & ? & [Hf ->]%require_ok & H). apply negb_true_iff in Hf as ->.
  pose proof (probe_contract _ _ _ _ Hp Hfail) as Hs.
  destruct (probe_refreshed _ _ _ Hp) as (Hw & Hv & argv & r & y & Ha & Hr & H0 & Ho & Hx).
  apply eff_bind_ok in H as (? & ? & Hcap & H). unfold require_capability in Hcap.
  apply eff_bind_ok in Hcap as (known & ? & Hk & [Hin%bool_decide_eq_true ->]%require_ok).
  injection Hk as Hk <-. apply eff_bind_ok in H as (? & s2 & Hun & H).
  apply eff_bind_ok in H as (u1 & s3 & Hen & H). apply eff_bind_ok in H as (fp & s4 & Hfp & H).
  injection H as <- <-.
  assert (m_outside s2 = y ∧ _version (m_cache s2) = Some w ∧
    (legacy w = true ∨ is_docker self = false → _legacy_config_checked (m_cache s2) = false)) as (Hx2 & Hv2 & Hu).
  { unfold when in Hun. fold (legacy w) in Hun. destruct (legacy w || negb (is_docker self)) eqn:E.
    - injection Hun as _ <-. done.
    - injection Hun as _ <-. repeat (split; [done|]). apply orb_false_iff in E as [-> E%negb_false_iff].
      rewrite E. by intros [|]. }
  split_and!; [done|done|by exists known| |].
  - exists argv, r, y. repeat (split; [done|]). intros Hl.
    assert (legacy w = true ∨ is_docker self = false) as Hl'.
    { destruct Hl as [|Hm]; [by left|right]. unfold is_docker. by rewrite Hm. }
    destruct (checked_config w s2 u1 s3 Hl' (Hu Hl') Hen) as (text & s5 & Hread & Hsafe).
    by exists s2, text, s5.
  - eapply attested_fingerprint in Hfp; [|by rewrite (auth_safe_version _ _ _ _ Hen)].
    destruct Hfp as (w' & ?). by exists fp, w'.
Qed.
End Gate.

(** ** Listings *)

Section Listings.
Context (lib : pylib).

(** What a header of a listing may look like: short, and without the characters
    [safe_display_header] removes. *)
Definition displayable (v : json) : Prop :=
  ∃ s, v = JStr s ∧ zlen s ≤ MAX_ENVELOPE_HEADER_OUTPUT_CHARS ∧ Forall (λ c, lib_unsafe lib c = false) s.

Definition good_record (record : dict) : Prop :=
  ∀ field v, field ∈ _RFC2047_ENVELOPE_FIELDS → obj_get field record = Some v → displayable v.

Lemma clean_displayable value s : _clean_envelope_header lib value = Ok s → displayable (JStr s).
Proof.
  unfold _clean_envelope_header, safe_display_header. change (_ <=? 0) with false. cbv iota.
  intros [= <-]. eexists. split; [done|]. split.
  - unfold zlen, MAX_ENVELOPE_HEADER_OUTPUT_CHARS. rewrite length_take. lia.
  - apply Forall_take, Forall_forall. intros c [? _]%list_elem_of_filter. done.
Qed.

Lemma header_displayable value s : _decode_envelope_header lib value = Ok s → displayable (JStr s).
Proof.
  unfold _decode_envelope_header. intros (fallback & Hf%clean_displayable & H)%result_bind_ok.
  destruct (_ || _); [by injection H as <-|].
  destruct (encoded_words 0 [] value) as [ws tail].
  apply result_bind_ok in H as ([text|] & _ & H); [|by injection H as <-].
  destruct ws; [by injection H as <-|by eapply clean_displayable].
Qed.

Lemma good_set field v record :
  (field ∈ _RFC2047_ENVELOPE_FIELDS → displayable v) → good_record record →
  good_record (obj_set field v record).
Proof.
  intros Hv Hr k w Hk Hw. destruct (decide (k = field)) as [->|Hne].
  - rewrite obj_get_set_same in Hw. injection Hw as <-. auto.
  - rewrite obj_get_set_other in Hw by done. eauto.
Qed.

(** A field that is not one of the headers. *)
Lemma not_header field : existsb (str_eqb field) _RFC2047_ENVELOPE_FIELDS = false →
  field ∉ _RFC2047_ENVELOPE_FIELDS.
Proof.
  intros H Hin%list_elem_of_In. apply not_true_iff_false in H. apply H, existsb_exists.
  exists field. by rewrite str_eqb_refl.
Qed.
Lemma other_field field :
  existsb (str_eqb field) _RFC2047_ENVELOPE_FIELDS = false → ∀ v : json,
  field ∈ _RFC2047_ENVELOPE_FIELDS → displayable v.
Proof. by intros H%not_header v ?. Qed.

(** A branch of the [if] chains: fields other than the headers. *)
Ltac set_other :=
  repeat first [ apply good_set; [apply other_field; by vm_compute|] | assumption ].

Lemma good_metadata record line record' :
  good_record record → metadata_line lib record line = Ok record' → good_record record'.
Proof.
  intros Hr. unfold metadata_line. destruct (partition_char 58 line) as [[name value]|].
  2: { by destruct (blank line); [intros [= <-]|]. }
  cbn zeta. do 4 (destruct (str_eqb _ _);
    [intros (n & _ & H)%result_bind_ok; injection H as <-; set_other|]).
  destruct (str_eqb _ _); [|by intros [= <-]].
  destruct (unix_human _) as [unix human].
  intros (n & _ & H)%result_bind_ok. injection H as <-. set_other.
Qed.

Lemma good_envelope record line record' :
  good_record record → envelope_line lib record line = Ok record' → good_record record'.
Proof.
  intros Hr. unfold envelope_line. destruct (partition_char 58 line) as [[name value]|].
  2: { by destruct (blank line); [intros [= <-]|]. }
  cbn zeta. set (normalized := str_lower lib (strip name)). destruct (str_eqb normalized (u "date")).
  { destruct (unix_human _) as [unix human]. intros (n & _ & H)%result_bind_ok. injection H as <-. set_other. }
  destruct (list_find _ envelope_keys) as [[i [k field]]|] eqn:Ef; [|by intros [= <-]].
  intros (text & Ht & H)%result_bind_ok. injection H as <-. apply good_set; [|done].
  apply list_find_Some in Ef as (Hi & Hk & _). simpl in Hk. subst k. intros Hfield.
  assert (normalized ∈ _RFC2047_ENVELOPE_FIELDS) as Hn.
  { apply list_elem_of_lookup_2 in Hi. unfold envelope_keys in Hi.
    rewrite !elem_of_cons, elem_of_nil in Hi.
    destruct Hi as [Hi|[Hi|[Hi|[Hi|[Hi|[Hi|[Hi|[]]]]]]]]; injection Hi as Hn Hf; rewrite Hn;
      rewrite Hf in Hfield; first [exact Hfield | by eapply not_header in Hfield]. }
  rewrite bool_decide_eq_true_2 in Ht by done. by eapply header_displayable.
Qed.

Lemma good_fold f lines record record' :
  (∀ r line r', good_record r → f r line = Ok r' → good_record r') →
  good_record record → fold_lines f record lines = Ok record' → good_record record'.
Proof.
  intros Hf. revert record. induction lines as [|line lines IH]; intros record Hr; simpl.
  - by intros [= <-].
  - intros (r & H1 & H2)%result_bind_ok. eauto.
Qed.

Lemma full_record_good block record :
  full_record lib block = Ok record → uid_in_range (uid_of record) = true ∧ good_record record.
Proof.
  unfold full_record. destruct (partition_on _ block) as [[meta envelope]|]; [|done].
  intros (r1 & H1 & H)%result_bind_ok. apply result_bind_ok in H as (r2 & H2 & H).
  destruct (uid_in_range _) eqn:E; [|done]. injection H as <-. split; [done|].
  eapply good_fold; [by apply good_envelope| |done]. eapply good_fold; [by apply good_metadata| |done].
  intros k v Hk. cbn [obj_get]. destruct (str_eqb _ k) eqn:Ek; [|done].
  apply str_eqb_true in Ek as <-. by apply not_header in Hk.
Qed.

Lemma integer_in_range value lo hi n : _strict_output_integer value lo hi = Ok n → lo ≤ n ≤ hi.
Proof.
  unfold _strict_output_integer. cbn zeta. destruct (_ || _); [done|].
  destruct (negb _) eqn:E; [done|]. intros [= <-].
  apply negb_false_iff, andb_true_iff in E. by rewrite !Z.leb_le in E.
Qed.

(** A record of the compact style, with or without its details. *)
Lemma compact_head_good line record details :
  compact_head lib line = Ok record →
  Forall (λ kv, kv.1 ∉ u "uid" :: _RFC2047_ENVELOPE_FIELDS) details →
  uid_in_range (uid_of (record ++ details)) = true ∧ good_record (record ++ details).
Proof.
  unfold compact_head. destruct (compact_line lib line) as [[[uid from] subject]|]; [|done].
  intros (n & Hn%integer_in_range & H)%result_bind_ok.
  apply result_bind_ok in H as (f & Hf%header_displayable & H).
  apply result_bind_ok in H as (sb & Hs%header_displayable & H). injection H as <-. intros Hd. split.
  - cbn [app]. unfold uid_of, key. cbn [obj_get]. rewrite str_eqb_refl. simpl.
    apply andb_true_iff. rewrite !Z.leb_le. lia.
  - intros k v Hk. cbn [app obj_get].
    destruct (str_eqb (u "uid") k) eqn:E1.
    { apply str_eqb_true in E1 as <-. by apply not_header in Hk. }
    destruct (str_eqb (u "from") k); [by intros [= <-]|].
    destruct (str_eqb (u "subject") k); [by intros [= <-]|]. clear E1.
    induction Hd as [|[k' w] details Hd _ IH]; [done|]. cbn [obj_get].
    destruct (str_eqb k' k) eqn:E; [|done]. apply str_eqb_true in E as ->. simpl in Hd.
    rewrite elem_of_cons in Hd. intros _. tauto.
Qed.

Lemma compact_records_good n lines records :
  (length lines ≤ n)%nat → compact_records lib lines = Ok records →
  Forall (λ r, uid_in_range (uid_of r) = true ∧ good_record r) records.
Proof.
  revert lines records. induction n as [|n IH]; intros [|line rest] records Hn; simpl in Hn; try lia.
  { by intros [= <-]. }
  { by intros [= <-]. }
  cbn [compact_records]. intros (record & Hr & H)%result_bind_ok.
  pose proof (compact_head_good _ _ [] Hr (Forall_nil_2 _)) as Hgood. rewrite app_nil_r in Hgood.
  destruct rest as [|next rest]; [injection H as <-; by apply Forall_singleton|].
  cbn zeta in H. destruct (partition_on (u ", ") (strip next)) as [[flag_text date_text]|].
  - apply result_bind_ok in H as (flags & _ & H). apply result_bind_ok in H as (records' & Hrs & H).
    injection H as <-. constructor; [|apply (IH rest); [simpl in Hn; lia|done]].
    eapply compact_head_good; [done|]. repeat constructor; simpl.
    all: rewrite elem_of_cons; intros [He|He]; [by vm_compute in He|by apply not_header in He].
  - destruct (negb _); [done|]. apply result_bind_ok in H as (records' & Hrs & H). injection H as <-.
    constructor; [done|]. apply (IH (next :: rest)); [lia|done].
Qed.

End Listings.

(** ** Windows *)

(** The order of [sort_by], and its elements. *)
Lemma insert_by_elem {A} (f : A → list Z) x l y : y ∈ insert_by f x l ↔ y = x ∨ y ∈ l.
Proof.
  induction l as [|z l IH]; simpl; [by rewrite list_elem_of_singleton, elem_of_nil; tauto|].
  destruct (zlist_leb _ _); rewrite !elem_of_cons, ?IH; tauto.
Qed.
Lemma sort_by_elem {A} (f : A → list Z) l y : y ∈ sort_by f l ↔ y ∈ l.
Proof.
  induction l as [|x l IH]; [done|]. simpl. rewrite insert_by_elem, elem_of_cons. tauto.
Qed.

Lemma insert_by_least {A} (f : A → list Z) x l m r :
  (∀ y, y ∈ l → zlist_le (f (default x (head l))) (f y)) →
  insert_by f x l = m :: r → ∀ y, y ∈ m :: r → zlist_le (f m) (f y).
Proof.
  intros Hl Heq y Hy. rewrite <- Heq in Hy. apply insert_by_elem in Hy.
  destruct l as [|z l]; simpl in *.
  { injection Heq as <- <-. destruct Hy as [->|?%not_elem_of_nil]; [|done]. by destruct (total zlist_le (f x) (f x)). }
  destruct (zlist_leb (f x) (f z)) eqn:E; injection Heq as <- <-.
  - assert (zlist_le (f x) (f z)) as Hxz by (unfold zlist_le; by rewrite E).
    destruct Hy as [->|Hy]; [by destruct (total zlist_le (f x) (f x))|].
    trans (f z); [done|auto].
  - destruct Hy as [->|Hy]; [|auto]. destruct (total zlist_le (f x) (f z)) as [Hxz|]; [|done].
    unfold zlist_le in Hxz. by rewrite E in Hxz.
Qed.
Lemma sort_by_least {A} (f : A → list Z) l m r :
  sort_by f l = m :: r → ∀ y, y ∈ l → zlist_le (f m) (f y).
Proof.
  intros Heq y Hy. apply (sort_by_elem f) in Hy. rewrite Heq in Hy. revert m r Heq y Hy.
  induction l as [|x l IH]; intros m r Heq; [done|]. simpl in Heq.
  eapply insert_by_least; [|exact Heq]. intros z Hz.
  destruct (sort_by f l) as [|h t] eqn:Hs; [by apply not_elem_of_nil in Hz|]. simpl. by eapply IH.
Qed.

(** The records of a window all have a UID. *)
Lemma window_has_uids seen records places record :
  window_places seen records = Some places → record ∈ records → ∃ uid, uid_of record = JInt uid.
Proof.
  revert seen places. induction records as [|r records IH]; intros seen places; simpl.
  { by intros _ ?%not_elem_of_nil. }
  destruct (message_place r) as [[uid n]|] eqn:Hp; [|done]. simpl. case_bool_decide; [done|].
  destruct (window_places _ records) as [rest|] eqn:Hw; [|done]. intros _ [->|Hr]%elem_of_cons; [|eauto].
  unfold message_place in Hp. destruct (uid_of r) eqn:Hu; try done. eauto.
Qed.

Section Windows.
Context {X : Type} (lib : pylib) `{!Runner X} (self : service).

Lemma window_below username mailbox limit cursor s records s' record uid :
  0 < cursor →
  list_message_window lib self username mailbox limit cursor s = (Ok records, s') →
  record ∈ records → uid_of record = JInt uid → uid ≤ cursor.
Proof.
  intros Hc. unfold list_message_window. cbn zeta.
  intros (? & ? & [_ ->]%require_ok & H)%eff_bind_ok Hin Hu.
  apply eff_bind_ok in H as (? & ? & [_ ->]%require_ok & H).
  apply eff_bind_ok in H as (anchors & s1 & _ & H). rewrite (proj2 (Z.eqb_neq cursor 0)) in H by lia.
  destruct anchors as [|anchor [|]]; [done| |done].
  destruct (message_place anchor) as [[anchor_uid anchor_sequence]|]; [|done]. cbn [negb andb] in H.
  destruct (Z.eqb_spec anchor_uid cursor) as [->|]; [|done]. cbn [negb] in H.
  apply eff_bind_ok in H as (window & s2 & _ & H). destruct (_ <? _); [done|].
  destruct (window_places [] window) as [places|] eqn:Hw; [|done].
  destruct (anchored _ _ _ _) eqn:Ha; [|done]. injection H as <- _.
  unfold anchored in Ha. apply andb_true_iff in Ha as [_ Ha].
  destruct (sort_by descending_uid window) as [|first rest] eqn:Hs; [done|].
  apply bool_decide_eq_true in Ha.
  assert (record ∈ window) as Hin' by (apply (sort_by_elem descending_uid); by rewrite Hs).
  pose proof (sort_by_least descending_uid _ _ _ Hs record Hin') as Hle.
  unfold descending_uid in Hle. rewrite Ha, Hu in Hle. unfold zlist_le, zlist_leb in Hle.
  destruct (Z.ltb_spec (- cursor) (- uid)); [lia|]. destruct (Z.eqb_spec (- cursor) (- uid)); [lia|done].
Qed.
End Windows.
