(* ===== verification/MaddyClaims.v ===== *)
(** * A concrete mail server for the Maddy adapter

    [demo_world] answers the adapter's commands: a release, help texts that match
    the profile, one account, and a log of the argument vectors.  The theorems of
    [MaddySpecs] are applied to it, and the adapter is shown to satisfy what
    [HelperProgress] asks of a mail server. *)

From S2P Require Import Prelude Text Errors Json JsonText HelperBase HelperProgress Maddy MaddyConfig MaddyList MaddyCli MaddyOps MaddyGuard MaddySpecs.

(** ** The windows of the adapter *)

(** C11: the adapter is a mail server whose windows descend, whatever the commands
    print: a window that continues at a cursor holds no message above it, which is
    what the termination of rule runs asks of the mail server. *)
Theorem adapter_windows_descend (X : Type) (lib : pylib) (R : Runner X) (self : service)
    (username : json) :
  @windows_descend (maddy X) (maddy_service lib self) username.
Proof.
  intros mailbox limit cursor s records s' Hc Hw record uid Hin Hv.
  unfold HelperRules.valid_uid in Hv. destruct (key (u "uid") record) as [| |z| | | |] eqn:Hk; try done.
  destruct (_ && _); [|done]. injection Hv as <-.
  exact (window_below lib self username mailbox limit cursor s records s' record z Hc Hw Hin Hk).
Qed.

(** ** The library and the server *)

Definition demo_lib : pylib := {|
  lib_lower s := s; lib_fold c := [c]; lib_digit _ := None; lib_unsafe c := (c <? 32) || (c =? 8238);
  lib_decode charset raw := if str_eqb charset (u "utf-8") then
                              match utf8_decode raw with Some s => Ok s | None => Err UnicodeDecodeError end
                            else Err LookupError;
  lib_iso _ := None; lib_str _ := []; lib_set l := l; lib_loads _ := Err JSONDecodeError;
  lib_same _ _ := false |}.

Definition lines_text (lines : list (list Z)) : list Z := join [10] lines ++ [10].
Definition commands_help (names : list (list Z)) : list Z :=
  lines_text (u "COMMANDS:" :: ((λ name, u "   " ++ name ++ u "  x") <$> names)).
Definition options_help (usage : list Z) (options : list (list Z)) : list Z :=
  lines_text ((u "USAGE: " ++ usage) :: u "OPTIONS:"
              :: ((λ name, u "   --" ++ name ++ u " value") <$> options)).

Definition demo_help (suffix : list (list Z)) : option (list Z) :=
  match suffix with
  | [_] => Some (commands_help _ADMIN_GROUP_ACTIONS.*1)
  | [group; _] =>
      '(_, entry) ← list_find (λ entry, entry.1 = group) _ADMIN_GROUP_ACTIONS;
      Some (commands_help entry.2)
  | [group; name; _] =>
      '(_, entry) ← list_find (λ entry, entry.1 = (group, name)) _ACTION_PROFILE;
      Some (options_help entry.2.1 entry.2.2)
  | _ => None
  end.

Definition BOB : list Z := u "bob@example.test".

(** The answer to a command: exit status and output. No account is created. *)
Definition demo_answer (suffix : list (list Z)) : Z * list Z :=
  match suffix with
  | [name] => if str_eqb name (u "version") then (0, u "0.8.2 linux/amd64 go1.22")
              else (0, default [] (demo_help suffix))
  | group :: name :: rest =>
      if bool_decide (last suffix = Some (u "--help")) then (0, default [] (demo_help suffix))
      else if str_eqb name (u "list") then (0, lines_text [BOB])
      else (1, [])
  | [] => (1, [])
  end.

Definition without_config (argv : list (list Z)) : list (list Z) :=
  match argv with
  | _ :: c :: _ :: suffix => if str_eqb c (u "-config") then suffix else drop 1 argv
  | _ => drop 1 argv
  end.

Definition DEMO_CONFIG : list Z :=
  lines_text [u "auth.pass_table local_authdb {"; u "    table sql_table"; u "}"].

(** Each run is logged. *)
#[export] Instance demo_runner : Runner (list (list (list Z))) := {|
  r_run argv _ := λ log,
    let '(status, out) := demo_answer (without_config argv) in
    (Ok (MkResult status out [] []), log ++ [argv]);
  r_size _ := λ log, (Ok (zlen DEMO_CONFIG), log);
  r_bytes _ := λ log, (Ok DEMO_CONFIG, log);
  r_token_hex := λ log, (Ok (u "00112233445566778899aabbccddeeff"), log)
|}.

Definition demo_target : MaddyTarget :=
  MkTarget NATIVE (u "/usr/bin/maddy") (Some (u "/etc/maddy/maddy.conf")) None DOCKER_EXECUTABLE
    (Some (u "maddy")) SYSTEMCTL_EXECUTABLE (u "maddy.service").
Definition demo_service : service :=
  MkService demo_target (FFinite (u "15.0")) (u "local_authdb") (u "local_mailboxes").
Definition demo_cache : cache :=
  MkCache None false None None None false false false false false false.
Definition demo_start : maddy (list (list (list Z))) := MkMaddy demo_cache [].

Lemma demo_constructed :
  new_service demo_target (FFinite (u "15.0")) (u "local_authdb") (u "local_mailboxes") None None
  = Ok (demo_service, demo_cache).
Proof. by vm_compute. Qed.

Lemma demo_gate :
  fst (require_write_safety demo_lib demo_service ACCOUNT_ADMIN demo_start) = Ok (release 0 8 2).
Proof. by vm_compute. Qed.

(** What is in the log: the reload of the unit, and commands [ok] accepts. *)
Definition ran (ok : list (list Z) → bool) (argv : list (list Z)) : Prop :=
  argv = reload_argv demo_target
  ∨ ∃ suffix has_stdin use_config,
      ok suffix = true ∧ Maddy.argv demo_target suffix has_stdin use_config = Ok argv.

Lemma demo_logs v opts log : (r_run v opts log).2 = log ++ [v].
Proof. unfold r_run, demo_runner. by destruct (demo_answer _). Qed.

Lemma demo_kept ok : world_kept demo_service (Forall (ran ok)) ok.
Proof.
  split; try done.
  - intros suffix h c v Hok Hv opts log Hlog. rewrite demo_logs. apply Forall_app_2; [done|].
    apply Forall_singleton. right. by exists suffix, h, c.
  - intros opts log Hlog. rewrite demo_logs. apply Forall_app_2; [done|].
    apply Forall_singleton. by left.
Qed.

(** A user name that looks like an option, one with a line break, flags, and a
    set of messages. *)
Definition demo_calls : list service_call :=
  [CallMailboxes (JStr (u "--subscribed")) (JBool false);
   CallDisable (JStr [98; 10; 99]);
   CallFlags ADD_FLAGS (JStr BOB) (JStr (u "INBOX")) (JStr (u "1:*")) (JArr [JStr (u "-y")]);
   CallCreateAccount (JStr BOB) (JStr (u "correct horse"));
   CallReload].


Definition demo_broken : maddy (list (list (list Z))) := MkMaddy (with_contract_failure demo_cache) [].


Lemma demo_credentials_output s :
  fst (invoke demo_lib demo_service [u "creds"; u "list"; CFG; u "local_authdb"]
         DEFAULT_MAX_OUTPUT_BYTES s) = Ok (MkResult 0 (lines_text [BOB]) [] []).
Proof. destruct s. by vm_compute. Qed.

Lemma demo_listing s names s' :
  listing demo_lib true demo_service s = (Ok names, s') → BOB ∈ names.
Proof.
  unfold listing, list_credentials. intros (r & s1 & Hr & H)%eff_bind_ok.
  unfold _credentials in Hr. apply eff_bind_ok in Hr as (v & s2 & _ & Hr).
  pose proof (demo_credentials_output s2) as Ho. unfold invoke in Ho. cbn [app] in Hr.
  change (auth_block demo_service) with (u "local_authdb") in Hr. rewrite Hr in Ho. injection Ho as ->.
  assert (_account_lines demo_lib (MkResult 0 (lines_text [BOB]) [] []) (u "No users.") s1
          = (Ok [BOB], s1)) as Ha by (destruct s1; by vm_compute).
  rewrite Ha in H. injection H as <- _. left.
Qed.

Lemma create_spares_existing_witness :
  Forall (ran (spares true demo_service BOB))
    (m_outside (create_account demo_lib demo_service (JStr BOB) (JStr (u "correct horse")) demo_start).2).
Proof.
  exact (create_spares_existing demo_lib _ _ _ _ _ _ _ _ true (Forall (ran (spares true demo_service BOB)))
           BOB (JStr (u "correct horse")) demo_start demo_constructed (demo_kept _)
           (λ s names s' _, demo_listing s names s') (Forall_nil_2 _)).
Defined.

Lemma write_gate_sound_witness : release 0 8 2 ∈ TESTED_RELEASES.
Proof.
  refine (proj1 (write_gate_sound demo_lib demo_service ACCOUNT_ADMIN demo_start (release 0 8 2)
    (snd (require_write_safety demo_lib demo_service ACCOUNT_ADMIN demo_start)) _)).
  rewrite <- demo_gate. by destruct (require_write_safety demo_lib demo_service ACCOUNT_ADMIN demo_start).
Defined.

(** A listing with an encoded subject and a direction override. *)
Definition DEMO_LISTING : list Z :=
  lines_text [u "UID 7: Eve - =?utf-8?Q?Gr=C3=BC=C3=9Fe_=E2=80=AE?="; u "  [\Seen], today"].
Definition demo_message : dict :=
  [(u "uid", JInt 7); (u "from", JStr (u "Eve")); (u "subject", JStr [71; 114; 252; 223; 101; 32]);
   (u "flags", jstrs [u "\Seen"]); (u "date", JStr (u "today"))].

Lemma demo_parsed : parse_message_list demo_lib (inl DEMO_LISTING) = Ok [demo_message].
Proof. by vm_compute. Qed.

