(* ===== verification/Config.v ===== *)
(** * Settings: [config.py]

    The closed configuration: one record per section with its [from_dict], and
    [AppConfig.from_dict].  A TOML value is a JSON value, [JNull] standing for the
    types no setting has (dates and times); reading the file and parsing TOML are
    the operating system's and the library's.  The lemmas show what an accepted
    configuration is, and that the adapter of [Maddy] can be built from it. *)

From S2P Require Import Prelude Text Errors Json Csrf Http Maddy MaddyCli.

(** What the code uses of the Python library beyond ASCII, and [repr(float(n))]
    of an integer of sixteen digits or more. *)
Record clib := MkClib {
  c_net : netlib;
  c_upper : list Z → list Z;
  c_digit : Z → option Z;
  c_float : Z → list Z
}.

(** ** POSIX paths: [PurePosixPath] *)

Record posix := MkPosix { root : list Z; parts : list (list Z) }.
#[export] Instance posix_eq_dec : EqDecision posix.
Proof. solve_decision. Defined.

Definition path_root (s : list Z) : list Z :=
  match s with
  | 47 :: 47 :: 47 :: _ => [47]
  | 47 :: 47 :: _ => [47; 47]
  | 47 :: _ => [47]
  | _ => []
  end.
Definition posix_path (s : list Z) : posix :=
  MkPosix (path_root s) (List.filter (λ p, negb (str_eqb p []) && negb (str_eqb p [46])) (split_char 47 s)).
Definition path_text (p : posix) : list Z :=
  match root p ++ join [47] (parts p) with [] => [46] | s => s end.
Definition path_name (p : posix) : list Z := default [] (last (parts p)).
Definition path_parent (p : posix) : posix := MkPosix (root p) (take (length (parts p) - 1) (parts p)).
Definition path_child (p : posix) (name : list Z) : posix := MkPosix (root p) (parts p ++ [name]).
Definition is_relative_to (p other : posix) : bool :=
  str_eqb (root p) (root other) && bool_decide (take (length (parts other)) (parts p) = parts other).

(** ** Values of a section *)

#[local] Notation section := (list (list Z * json)).

(** [set(values) - allowed] is empty. *)
Definition _closed (values : section) (allowed : list (list Z)) : result exc unit :=
  guard_err (forallb (λ k, bool_decide (k ∈ allowed)) values.*1) ConfigError.

Definition _string (raw : section) (key default_ : list Z) : result exc (list Z) :=
  match obj_get key raw with
  | None => Ok default_
  | Some (JStr s) => Ok s
  | Some _ => Err ConfigError
  end.

Definition _integer (raw : section) (key : list Z) (default_ : Z) : result exc Z :=
  match obj_get key raw with
  | None => Ok default_
  | Some (JInt n) => Ok n
  | Some _ => Err ConfigError
  end.

Definition _boolean (raw : section) (key : list Z) (default_ : bool) : result exc bool :=
  match obj_get key raw with
  | None => Ok default_
  | Some (JBool b) => Ok b
  | Some _ => Err ConfigError
  end.

Definition item_text (j : json) : result exc (list Z) :=
  match j with JStr s => Ok s | _ => Err ConfigError end.
Definition _strings (raw : section) (key : list Z) (default_ : list (list Z)) : result exc (list (list Z)) :=
  match obj_get key raw with
  | None => Ok default_
  | Some (JArr items) => result_map item_text items
  | Some _ => Err ConfigError
  end.

(** The integers [float] rounds to infinity. *)
Definition FLOAT_LIMIT : Z := 2 ^ 1024 - 2 ^ 970.
Definition float_of_int (lib : clib) (n : Z) : result exc pyfloat :=
  if FLOAT_LIMIT <=? Z.abs n then Err OverflowError
  else if Z.abs n <? 10 ^ 16 then Ok (FFinite (str_of_int n ++ u ".0"))
  else Ok (FFinite (c_float lib n)).

Definition _number (lib : clib) (raw : section) (key : list Z) (default_ : pyfloat) : result exc pyfloat :=
  match obj_get key raw with
  | None => Ok default_
  | Some (JInt n) => float_of_int lib n
  | Some (JFloat f) => Ok f
  | Some _ => Err ConfigError
  end.

(** [lo <= f <= hi] for integral bounds. *)
Definition float_between (lo hi : Z) (f : pyfloat) : bool :=
  match f with
  | FFinite r =>
      let '(m, e) := decimal_value r in
      if 0 <=? e then (lo <=? m * 10 ^ e) && (m * 10 ^ e <=? hi)
      else (lo * 10 ^ (- e) <=? m) && (m <=? hi * 10 ^ (- e))
  | _ => false
  end.

Definition between (lo hi n : Z) : bool := (lo <=? n) && (n <=? hi).

Definition is_control (c : Z) : bool := (c <? 32) || (c =? 127).

Definition _absolute (value : list Z) : result exc posix :=
  if bool_decide (value = []) || has_char 92 value || existsb is_control value then Err ConfigError
  else
    let path := posix_path value in
    if bool_decide (root path = []) || existsb (λ p, bool_decide (p ∈ [[46]; [46; 46]])) (parts path)
    then Err ConfigError else Ok path.

(** [_absolute(_string(raw, key, str(default), ..), ..)] *)
Definition path_setting (raw : section) (key : string) (default_ : posix) : result exc posix :=
  s ← _string raw (u key) (path_text default_); _absolute s.

(** ** Hosts *)

(** One label of [_DNS_HOST_RE]. *)
Definition dns_char (c : Z) : bool := is_lower c || is_digit c || (c =? 45).
Definition dns_label (s : list Z) : bool :=
  (1 <=? zlen s) && (zlen s <=? 63) && forallb dns_char s
  && negb (starts_with [45] s) && negb (ends_with [45] s).
Definition _DNS_HOST_RE (s : list Z) : bool :=
  (1 <=? zlen s) && (zlen s <=? 253) && forallb dns_label (split_char 46 s).

Section Hosts.
Context (lib : clib).

(** [ipaddress.ip_address]: the version. *)
Definition ip_version (s : list Z) : option Z :=
  if ipv4_address s then Some 4 else if is_ipv6 (c_net lib) s then Some 6 else None.

Definition _host (value : list Z) : result exc (list Z) :=
  let candidate := py_lower (c_net lib) (rstrip_by (Z.eqb 46) (strip value)) in
  if bool_decide (candidate = []) || negb (str_eqb candidate (py_lower (c_net lib) value))
     || existsb (λ c, (c <? 33) || (126 <? c)) candidate then Err ConfigError
  else match ip_version candidate with
  | None => if _DNS_HOST_RE candidate then Ok candidate else Err ConfigError
  | Some v => if v =? 4 then Ok candidate else Err ConfigError
  end.

Definition _dns_name (value : list Z) : result exc (list Z) :=
  candidate ← _host value;
  match ip_version candidate with None => Ok candidate | Some _ => Err ConfigError end.

(** [except ValueError: raise ConfigError] *)
Definition or_config {A} (r : result exc A) : result exc A :=
  match r with
  | Err e => if catches [ValueError] e then Err ConfigError else Err e
  | ok => ok
  end.

Definition _https_origin (value : list Z) : result exc (list Z) :=
  parsed ← or_config (urlsplit (c_net lib) value);
  port ← or_config (port_of parsed);
  match hostname (c_net lib) parsed with
  | Some host =>
      if negb (str_eqb (scheme parsed) (u "https")) || has_userinfo parsed
         || negb (bool_decide (path parsed ∈ [[]; [47]])) || negb (bool_decide (query parsed = []))
         || negb (bool_decide (fragment parsed = []))
         || negb (bool_decide (port ∈ [None; Some 443]))
      then Err ConfigError
      else host ← _host host; Ok (u "https://" ++ host)
  | None => Err ConfigError
  end.
End Hosts.

(** ** [server] *)

Record ServerConfig := MkServer {
  listen : list Z; allowed_hosts : list (list Z); concurrency : Z; backlog : Z;
  keepalive_seconds : Z; request_body_timeout_seconds : pyfloat; max_upload_bytes : Z;
  page_size : Z; temp_dir : posix
}.

Definition DEFAULT_WEB_HOST : list Z := u "127.0.0.1".
Definition DEFAULT_WEB_LISTEN : list Z := u "127.0.0.1:8787".

(** [dict.fromkeys]: the first occurrence of each. *)
Fixpoint unique (seen l : list (list Z)) : list (list Z) :=
  match l with
  | [] => []
  | x :: l => if bool_decide (x ∈ seen) then unique seen l else x :: unique (x :: seen) l
  end.

Definition server_keys : list (list Z) :=
  u <$> ["listen"; "allowed_hosts"; "concurrency"; "backlog"; "keepalive_seconds";
         "request_body_timeout_seconds"; "max_upload_bytes"; "page_size"; "temp_dir"]%string.

Section Sections.
Context (lib : clib).

(** [ServerConfig.host_port] *)
Definition host_port (s : ServerConfig) : option (list Z * Z) :=
  '(host, port) ← rpartition_char 58 (listen s); port ← py_int (c_digit lib) port; Some (host, port).

(** The port of [server.listen], whose host is fixed. *)
Definition listen_port (value : list Z) : result exc Z :=
  match rpartition_char 58 value with
  | None => Err ConfigError
  | Some (host, port_text) =>
      let is_decimal c := match digit_value (c_digit lib) c with Some _ => true | None => false end in
      if MAX_INT_DIGITS <? zlen (List.filter is_decimal port_text) then Err ConfigError
      else match py_int (c_digit lib) port_text, ip_version lib host with
      | Some port, Some _ => if str_eqb host DEFAULT_WEB_HOST then Ok port else Err ConfigError
      | _, _ => Err ConfigError
      end
  end.

Definition server_from_dict (raw : section) : result exc ServerConfig :=
  _closed raw server_keys ≫= λ _,
  listen ← _string raw (u "listen") DEFAULT_WEB_LISTEN;
  port ← listen_port listen;
  guard_err (between 1 65535 port) ConfigError ≫= λ _,
  items ← _strings raw (u "allowed_hosts") [u "127.0.0.1"; u "localhost"];
  hosts ← result_map (_host lib) items;
  let hosts := unique [] hosts in
  guard_err (negb (bool_decide (hosts = []))) ConfigError ≫= λ _,
  concurrency ← _integer raw (u "concurrency") 8;
  backlog ← _integer raw (u "backlog") 16;
  keepalive ← _integer raw (u "keepalive_seconds") 5;
  body_timeout ← _number lib raw (u "request_body_timeout_seconds") (FFinite (u "15.0"));
  max_upload ← _integer raw (u "max_upload_bytes") (20 * 1024 * 1024);
  page_size ← _integer raw (u "page_size") 50;
  guard_err (between 1 64 concurrency) ConfigError ≫= λ _,
  guard_err (between 1 256 backlog) ConfigError ≫= λ _,
  guard_err (between 1 30 keepalive) ConfigError ≫= λ _,
  guard_err (float_between 1 120 body_timeout) ConfigError ≫= λ _,
  guard_err (between 1024 (100 * 1024 * 1024) max_upload) ConfigError ≫= λ _,
  guard_err (between 1 200 page_size) ConfigError ≫= λ _,
  temp_dir ← path_setting raw "temp_dir" (posix_path (u "/var/tmp/maddyweb"));
  Ok (MkServer (DEFAULT_WEB_HOST ++ [58] ++ str_of_int port) hosts concurrency backlog keepalive
        body_timeout max_upload page_size temp_dir).

(** ** [maddy] *)

Record MaddyConfig := MkMaddyConfig {
  md_mode : list Z; docker_submission_scope : list Z; md_container : list Z; binary : posix;
  md_config_path : posix; data_dir : posix; md_service_user : list Z; helper_socket : posix;
  submission_host : list Z; submission_port : Z; command_timeout_seconds : pyfloat
}.

Definition maddy_keys : list (list Z) :=
  u <$> ["mode"; "docker_submission_scope"; "container"; "binary"; "config_path"; "data_dir";
         "service_user"; "helper_socket"; "submission_host"; "submission_port";
         "command_timeout_seconds"]%string.

(** [[a-z_][a-z0-9_-]{0,31}] *)
Definition is_user_name (s : list Z) : bool :=
  head_tail (λ c, is_lower c || (c =? 95)) (λ c, is_lower c || is_digit c || in_chars (u "_-") c) 31 s.

Definition maddy_from_dict (raw : section) : result exc MaddyConfig :=
  _closed raw maddy_keys ≫= λ _,
  guard_err (bool_decide (u "mode" ∈ raw.*1)) ConfigError ≫= λ _,
  mode ← _string raw (u "mode") (u "docker");
  guard_err (bool_decide (mode ∈ [u "docker"; u "native"])) ConfigError ≫= λ _,
  scope ← _string raw (u "docker_submission_scope") (u "container");
  guard_err (bool_decide (scope ∈ [u "container"; u "host-loopback"])) ConfigError ≫= λ _,
  guard_err (negb (str_eqb mode (u "native") && str_eqb scope (u "host-loopback"))) ConfigError ≫= λ _,
  let docker := str_eqb mode (u "docker") in
  container ← _string raw (u "container") (u "maddy");
  guard_err (_CONTAINER_RE container) ConfigError ≫= λ _,
  service_user ← _string raw (u "service_user") (u "maddy");
  guard_err (is_user_name service_user) ConfigError ≫= λ _,
  host ← _string raw (u "submission_host") (u "127.0.0.1");
  guard_err (str_eqb host (u "127.0.0.1")) ConfigError ≫= λ _,
  port ← _integer raw (u "submission_port") 1587;
  timeout ← _number lib raw (u "command_timeout_seconds") (FFinite (u "15.0"));
  guard_err (port =? 1587) ConfigError ≫= λ _,
  guard_err (float_between 1 120 timeout) ConfigError ≫= λ _,
  binary ← path_setting raw "binary" (posix_path (u "/usr/bin/maddy"));
  config_path ← path_setting raw "config_path"
    (posix_path (if docker then u "/data/maddy.conf" else u "/etc/maddy/maddy.conf"));
  data_dir ← path_setting raw "data_dir" (posix_path (if docker then u "/data" else u "/var/lib/maddy"));
  helper_socket ← path_setting raw "helper_socket" (posix_path (u "/run/maddyweb/helper.sock"));
  Ok (MkMaddyConfig mode scope container binary config_path data_dir service_user helper_socket host
        port timeout).

(** ** [certificates] *)

Record CertificateConfig := MkCertificates {
  enabled : bool; names : list (list Z); certbot_binary : posix; openssl_binary : posix;
  nginx_binary : posix; renewal_dir : posix; webroot_roots : list posix; live_dir : posix;
  timer_unit : list Z; deployed_cert_path : posix; deployed_key_path : posix;
  cert_timeout_seconds : pyfloat
}.

Definition certificate_keys : list (list Z) :=
  u <$> ["enabled"; "names"; "certbot_binary"; "openssl_binary"; "nginx_binary"; "renewal_dir";
         "webroot_roots"; "live_dir"; "timer_unit"; "deployed_cert_path"; "deployed_key_path";
         "command_timeout_seconds"]%string.

Definition _CERT_RE : list Z → bool := head_tail is_alnum is_name_char 252.

(** [[a-zA-Z0-9][a-zA-Z0-9_.@-]*\.timer] *)
Definition _UNIT_RE (s : list Z) : bool :=
  match s with
  | c :: s => is_alnum c && forallb (λ c, is_name_char c || (c =? 64)) s && ends_with (u ".timer") s
  | [] => false
  end.

Definition stays_below (roots : list posix) (p : posix) : bool := existsb (is_relative_to p) roots.
Definition permitted_webroot_roots : list posix := posix_path <$> [u "/var/www"; u "/srv/www"].
Definition _CUSTOM_CERTBOT_CONFIG_ROOTS : list posix :=
  posix_path <$> [u "/var/lib/maddyweb/certbot"; u "/srv/maddyweb/certbot"].
Definition _DEFAULT_RENEWAL_DIR : posix := posix_path (u "/etc/letsencrypt/renewal").

Definition certificates_from_dict (raw : section) (maddy_mode : list Z) : result exc CertificateConfig :=
  let docker := str_eqb maddy_mode (u "docker") in
  _closed raw certificate_keys ≫= λ _,
  enabled ← _boolean raw (u "enabled") false;
  names ← _strings raw (u "names") [];
  guard_err (forallb _CERT_RE names) ConfigError ≫= λ _,
  guard_err (negb enabled || negb (bool_decide (names = []))) ConfigError ≫= λ _,
  timer ← _string raw (u "timer_unit") (u "certbot-renew.timer");
  guard_err (_UNIT_RE timer) ConfigError ≫= λ _,
  command_timeout ← _number lib raw (u "command_timeout_seconds") (FFinite (u "300.0"));
  guard_err (float_between 30 900 command_timeout) ConfigError ≫= λ _,
  items ← _strings raw (u "webroot_roots") [];
  webroot_roots ← result_map _absolute items;
  guard_err (bool_decide (NoDup webroot_roots)) ConfigError ≫= λ _,
  guard_err (forallb (stays_below permitted_webroot_roots) webroot_roots) ConfigError ≫= λ _,
  renewal_dir ← path_setting raw "renewal_dir" _DEFAULT_RENEWAL_DIR;
  guard_err (str_eqb (path_name renewal_dir) (u "renewal")) ConfigError ≫= λ _,
  let config_root := path_parent renewal_dir in
  guard_err (bool_decide (config_root = path_parent _DEFAULT_RENEWAL_DIR)
             || stays_below _CUSTOM_CERTBOT_CONFIG_ROOTS config_root) ConfigError ≫= λ _,
  live_dir ← path_setting raw "live_dir" (posix_path (u "/etc/letsencrypt/live"));
  guard_err (bool_decide (live_dir = path_child config_root (u "live"))) ConfigError ≫= λ _,
  certbot ← path_setting raw "certbot_binary" (posix_path (u "/usr/bin/certbot"));
  openssl ← path_setting raw "openssl_binary" (posix_path (u "/usr/bin/openssl"));
  nginx ← path_setting raw "nginx_binary" (posix_path (u "/usr/bin/nginx"));
  cert ← path_setting raw "deployed_cert_path"
    (posix_path (if docker then u "/data/tls/fullchain.pem" else u "/var/lib/maddy/tls/fullchain.pem"));
  key ← path_setting raw "deployed_key_path"
    (posix_path (if docker then u "/data/tls/privkey.pem" else u "/var/lib/maddy/tls/privkey.pem"));
  Ok (MkCertificates enabled names certbot openssl nginx renewal_dir webroot_roots live_dir timer cert
        key command_timeout).

(** ** [security] and [logging] *)

Record SecurityConfig := MkSecurity {
  session_key_file : posix; auth_state_dir : posix; csrf_ttl_seconds : Z;
  session_cookie_name : list Z; csrf_cookie_name : list Z; public_origin : list Z;
  login_domain : list Z; totp_issuer : list Z
}.

Definition security_keys : list (list Z) :=
  u <$> ["session_key_file"; "auth_state_dir"; "csrf_ttl_seconds"; "session_cookie_name";
         "csrf_cookie_name"; "public_origin"; "login_domain"; "totp_issuer"]%string.

Definition is_token_char (c : Z) : bool := is_alnum c || in_chars (u "!#$%&'*+.^_`|~-") c.
Definition cookie_name_ok (cookie : list Z) : bool :=
  starts_with (u "__Host-") cookie && match_range is_token_char 1 64 cookie.

Definition issuer_ok (issuer : list Z) : bool :=
  (1 <=? zlen issuer) && (zlen issuer <=? 64) && is_ascii issuer
  && negb (existsb is_control issuer) && negb (has_char 58 issuer).

Definition _DEFAULT_AUTH_STATE_DIR : posix := posix_path (u "/var/lib/maddyweb-auth").

Definition security_from_dict (raw : section) : result exc SecurityConfig :=
  _closed raw security_keys ≫= λ _,
  ttl ← _integer raw (u "csrf_ttl_seconds") 900;
  guard_err (between 60 3600 ttl) ConfigError ≫= λ _,
  session_cookie ← _string raw (u "session_cookie_name") (u "__Host-maddyweb-session");
  csrf_cookie ← _string raw (u "csrf_cookie_name") (u "__Host-maddyweb-csrf");
  guard_err (cookie_name_ok session_cookie) ConfigError ≫= λ _,
  guard_err (cookie_name_ok csrf_cookie) ConfigError ≫= λ _,
  guard_err (negb (str_eqb session_cookie csrf_cookie)) ConfigError ≫= λ _,
  origin ← _string raw (u "public_origin") [];
  public_origin ← (if bool_decide (origin = []) then Ok [] else _https_origin lib origin);
  domain ← _string raw (u "login_domain") [];
  login_domain ← (if bool_decide (domain = []) then Ok [] else _dns_name lib domain);
  issuer ← _string raw (u "totp_issuer") (u "MaddyWeb");
  guard_err (issuer_ok issuer) ConfigError ≫= λ _,
  auth_state_dir ← path_setting raw "auth_state_dir" _DEFAULT_AUTH_STATE_DIR;
  guard_err (bool_decide (auth_state_dir = _DEFAULT_AUTH_STATE_DIR)) ConfigError ≫= λ _,
  session_key_file ← path_setting raw "session_key_file" (posix_path (u "/var/lib/maddyweb/session.key"));
  Ok (MkSecurity session_key_file auth_state_dir ttl session_cookie csrf_cookie public_origin
        login_domain issuer).

Definition py_upper (s : list Z) : list Z := if is_ascii s then upper s else c_upper lib s.

Definition logging_from_dict (raw : section) : result exc (list Z) :=
  _closed raw [u "level"] ≫= λ _,
  level ← _string raw (u "level") (u "INFO");
  let level := py_upper level in
  guard_err (bool_decide (level ∈ u <$> ["DEBUG"; "INFO"; "WARNING"; "ERROR"]%string)) ConfigError
    ≫= λ _, Ok level.

(** ** [AppConfig] *)

Record AppConfig := MkApp {
  server : ServerConfig; maddy_ : MaddyConfig; certificates : CertificateConfig;
  security : SecurityConfig; logging_level : list Z
}.

Definition _SECTIONS : list (list Z) :=
  u <$> ["server"; "maddy"; "certificates"; "security"; "logging"]%string.

(** [raw.get(name, {})] of a configuration whose sections are tables. *)
Definition table (raw : section) (name : string) : section :=
  match obj_get (u name) raw with Some (JObj d) => d | _ => [] end.
Definition is_table (j : json) : bool := match j with JObj _ => true | _ => false end.

Definition from_dict (raw : section) : result exc AppConfig :=
  guard_err (forallb (λ k, bool_decide (k ∈ _SECTIONS)) raw.*1) ConfigError ≫= λ _,
  guard_err (forallb is_table raw.*2) ConfigError ≫= λ _,
  guard_err (bool_decide (u "maddy" ∈ raw.*1)) ConfigError ≫= λ _,
  maddy ← maddy_from_dict (table raw "maddy");
  certificates ← certificates_from_dict (table raw "certificates") (md_mode maddy);
  guard_err (negb (enabled certificates && str_eqb (md_mode maddy) (u "docker"))
             || is_relative_to (deployed_cert_path certificates) (data_dir maddy)
                && is_relative_to (deployed_key_path certificates) (data_dir maddy)) ConfigError ≫= λ _,
  server ← server_from_dict (table raw "server");
  security ← security_from_dict (table raw "security");
  (if bool_decide (public_origin security = []) then Ok tt
   else
     parsed ← urlsplit (c_net lib) (public_origin security);
     guard_err (match hostname (c_net lib) parsed with
                | Some host => bool_decide (host ∈ allowed_hosts server)
                | None => false
                end) ConfigError) ≫= λ _,
  level ← logging_from_dict (table raw "logging");
  Ok (MkApp server maddy certificates security level).
End Sections.

(** ** Accepted configurations *)

Lemma guard_ok b (e : exc) x : guard_err b e = Ok x → b = true.
Proof. by destruct b. Qed.

(** One step through the code of a section that returned. *)
Ltac config_step H :=
  lazymatch type of H with
  | (guard_err _ _ ≫= _) = Ok _ => apply result_bind_ok in H as ([] & ?%guard_ok & H)
  | (_ ≫= _) = Ok _ => apply result_bind_ok in H as (? & ? & H)
  | (let _ := _ in _) = Ok _ => cbv zeta in H
  end.

(** A path of the configuration: absolute, without [..], backslash or control
    character. *)
Definition safe_path (p : posix) : Prop :=
  (root p = [47] ∨ root p = [47; 47])
  ∧ Forall (λ part, part ≠ [46; 46] ∧ Forall (λ c, is_control c = false ∧ c ≠ 92) part) (parts p).

Lemma split_chars s part (c : Z) : part ∈ split_char 47 s → c ∈ part → c ∈ s.
Proof.
  intros Hp Hc. rewrite <- (join_split 47 s). revert Hp. generalize (split_char 47 s) as fs.
  induction fs as [|f [|g fs] IH]; [by intros ?%not_elem_of_nil| |].
  - by intros ->%list_elem_of_singleton.
  - cbn [join]. intros [->|Hp]%elem_of_cons; rewrite !elem_of_app, ?elem_of_cons; [by left|]. right. right. auto.
Qed.

Lemma absolute_safe value p : _absolute value = Ok p → safe_path p.
Proof.
  unfold _absolute. destruct (bool_decide (value = [])); [done|].
  destruct (has_char 92 value) eqn:Hb; [done|]. destruct (existsb is_control value) eqn:Hc; [done|].
  cbn [orb]. destruct (bool_decide_reflect (root (posix_path value) = [])) as [|Hr]; [done|].
  destruct (existsb _ (parts (posix_path value))) eqn:Hd; [done|]. intros [= <-]. split.
  - revert Hr. unfold posix_path, path_root. simpl.
    destruct value as [|a [|b [|c ?]]]; try done; repeat (case_match; simplify_eq/=; try done; auto).
  - apply Forall_forall. intros part Hpart. split.
    + intros ->. apply not_true_iff_false in Hd. apply Hd, existsb_exists. exists [46; 46].
      split; [by apply list_elem_of_In|by vm_compute].
    + apply Forall_forall. intros c Hcp. apply list_elem_of_In in Hpart.
      apply List.filter_In in Hpart as [Hpart _]. apply list_elem_of_In in Hpart.
      pose proof (split_chars _ _ _ Hpart Hcp) as Hcv. split.
      * apply not_true_iff_false. intros Hcc. apply not_true_iff_false in Hc. apply Hc, existsb_exists.
        exists c. split; [by apply list_elem_of_In|done].
      * intros ->. apply not_true_iff_false in Hb. apply Hb, existsb_exists. exists 92.
        split; [by apply list_elem_of_In|done].
Qed.

Lemma setting_safe raw k d p : path_setting raw k d = Ok p → safe_path p.
Proof. unfold path_setting. intros (s & _ & H)%result_bind_ok. by eapply absolute_safe. Qed.

Lemma between_range lo hi n : between lo hi n = true → lo ≤ n ≤ hi.
Proof. unfold between. by intros [?%Z.leb_le ?%Z.leb_le]%andb_true_iff. Qed.

(** The paths of a list that are settings. *)
Ltac setting_paths := repeat (apply Forall_cons; split; [by eapply setting_safe|]).

Section Accepted.
Context (lib : clib).

(** Every key of a table is one of the section's. *)
Definition closed (raw : section) (allowed : list (list Z)) : Prop := Forall (λ k, k ∈ allowed) raw.*1.
Lemma closed_ok raw allowed x : _closed raw allowed = Ok x → closed raw allowed.
Proof.
  intros H%guard_ok. apply Forall_forall. intros k Hk. rewrite forallb_forall in H.
  by apply (bool_decide_eq_true_1 _), H, list_elem_of_In.
Qed.

(** What the rest of the program relies on, section by section. *)
Definition server_safe (s : ServerConfig) : Prop :=
  (∃ port, listen s = DEFAULT_WEB_HOST ++ [58] ++ str_of_int port ∧ 1 ≤ port ≤ 65535)
  ∧ allowed_hosts s ≠ [] ∧ 1 ≤ concurrency s ≤ 64 ∧ 1 ≤ backlog s ≤ 256 ∧ 1 ≤ keepalive_seconds s ≤ 30
  ∧ 1024 ≤ max_upload_bytes s ≤ 104857600 ∧ 1 ≤ page_size s ≤ 200 ∧ safe_path (temp_dir s).

Definition maddy_safe (m : MaddyConfig) : Prop :=
  md_mode m ∈ [u "docker"; u "native"] ∧ submission_host m = u "127.0.0.1" ∧ submission_port m = 1587
  ∧ _CONTAINER_RE (md_container m) = true ∧ is_user_name (md_service_user m) = true
  ∧ float_between 1 120 (command_timeout_seconds m) = true
  ∧ Forall safe_path [binary m; md_config_path m; data_dir m; helper_socket m].

Definition certificates_safe (m : MaddyConfig) (c : CertificateConfig) : Prop :=
  Forall (λ p, stays_below permitted_webroot_roots p = true) (webroot_roots c)
  ∧ path_name (renewal_dir c) = u "renewal"
  ∧ live_dir c = path_child (path_parent (renewal_dir c)) (u "live")
  ∧ (enabled c = true → names c ≠ [])
  ∧ (enabled c = true → md_mode m = u "docker" →
     is_relative_to (deployed_cert_path c) (data_dir m) = true
     ∧ is_relative_to (deployed_key_path c) (data_dir m) = true)
  ∧ Forall safe_path ([certbot_binary c; openssl_binary c; nginx_binary c; renewal_dir c; live_dir c;
                       deployed_cert_path c; deployed_key_path c] ++ webroot_roots c).

Definition security_safe (s : SecurityConfig) : Prop :=
  session_cookie_name s ≠ csrf_cookie_name s
  ∧ starts_with (u "__Host-") (session_cookie_name s) = true
  ∧ starts_with (u "__Host-") (csrf_cookie_name s) = true
  ∧ 60 ≤ csrf_ttl_seconds s ≤ 3600 ∧ auth_state_dir s = _DEFAULT_AUTH_STATE_DIR
  ∧ safe_path (session_key_file s).

Lemma server_accepted raw s : server_from_dict lib raw = Ok s → closed raw server_keys ∧ server_safe s.
Proof.
  unfold server_from_dict. intros H. apply result_bind_ok in H as (? & Hcl%closed_ok & H).
  repeat config_step H. injection H as <-.
  repeat match goal with Hb : between _ _ _ = true |- _ => apply between_range in Hb end.
  split; [done|]. unfold server_safe. cbn [listen allowed_hosts concurrency backlog keepalive_seconds
    max_upload_bytes page_size temp_dir]. split_and!; try lia.
  - by eexists.
  - by eapply bool_decide_eq_false, negb_true_iff.
  - by eapply setting_safe.
Qed.

Lemma maddy_accepted raw m : maddy_from_dict lib raw = Ok m → closed raw maddy_keys ∧ maddy_safe m.
Proof.
  unfold maddy_from_dict. intros H. apply result_bind_ok in H as (? & Hcl%closed_ok & H).
  repeat config_step H. injection H as <-. split; [done|]. unfold maddy_safe.
  cbn [md_mode submission_host submission_port md_container md_service_user command_timeout_seconds
       binary md_config_path data_dir helper_socket]. split_and!; try done.
  - by eapply bool_decide_eq_true_1.
  - by apply str_eqb_true.
  - by apply Z.eqb_eq.
  - setting_paths. by apply Forall_nil.
Qed.

Lemma absolutes_safe items ps : result_map _absolute items = Ok ps → Forall safe_path ps.
Proof.
  intros H%result_map_ok. induction H as [|x p xs ps Hx _ IH]; constructor; [|done].
  by eapply absolute_safe.
Qed.

Lemma certificates_accepted raw m c :
  certificates_from_dict lib raw (md_mode m) = Ok c →
  (negb (enabled c && str_eqb (md_mode m) (u "docker"))
   || is_relative_to (deployed_cert_path c) (data_dir m)
      && is_relative_to (deployed_key_path c) (data_dir m)) = true →
  closed raw certificate_keys ∧ certificates_safe m c.
Proof.
  unfold certificates_from_dict. cbv zeta. intros H Hin.
  apply result_bind_ok in H as (? & Hcl%closed_ok & H). repeat config_step H. injection H as <-.
  split; [done|]. unfold certificates_safe.
  cbn [enabled names certbot_binary openssl_binary nginx_binary renewal_dir webroot_roots live_dir
       deployed_cert_path deployed_key_path] in *. split_and!.
  - apply Forall_forall. intros p Hp.
    match goal with Hb : forallb (stays_below _) _ = true |- _ => rewrite forallb_forall in Hb; apply Hb end.
    by apply list_elem_of_In.
  - by apply str_eqb_true.
  - by eapply bool_decide_eq_true_1.
  - intros He. rewrite He in *. cbn [negb orb] in *.
    by eapply bool_decide_eq_false, negb_true_iff.
  - intros -> Hm. rewrite Hm, str_eqb_refl in Hin. cbn [negb andb orb] in Hin. by apply andb_true_iff in Hin.
  - cbn [app]. setting_paths. by eapply absolutes_safe.
Qed.

Lemma security_accepted raw s : security_from_dict lib raw = Ok s → closed raw security_keys ∧ security_safe s.
Proof.
  unfold security_from_dict. intros H. apply result_bind_ok in H as (? & Hcl%closed_ok & H).
  repeat config_step H. injection H as <-. split; [done|]. unfold security_safe, cookie_name_ok in *.
  repeat match goal with Hb : between _ _ _ = true |- _ => apply between_range in Hb end.
  cbn [session_cookie_name csrf_cookie_name csrf_ttl_seconds auth_state_dir session_key_file]. split_and!; try lia.
  - intros He. rewrite He, str_eqb_refl in *. done.
  - match goal with Hb : _ && _ = true |- _ => by apply andb_true_iff in Hb as [? _] end.
  - match goal with H1 : starts_with _ ?a && _ = true |- starts_with _ ?a = true =>
      by apply andb_true_iff in H1 as [? _] end.
  - by eapply bool_decide_eq_true_1.
  - by eapply setting_safe.
Qed.

(** C23: what an accepted configuration is. Every section and key is known, so a
    misspelled setting is never ignored; the server listens on the loopback
    address only; every path is absolute and has no parent reference or control
    character; cookies are host-bound and distinct; certificates stay below their
    roots, and in the data directory of a container; and the public origin's host
    is an allowed host. *)
Theorem accepted_config_safe raw cfg :
  from_dict lib raw = Ok cfg →
  closed raw _SECTIONS
  ∧ (∀ name keys, (name, keys) ∈ [("server"%string, server_keys); ("maddy"%string, maddy_keys);
       ("certificates"%string, certificate_keys); ("security"%string, security_keys);
       ("logging"%string, [u "level"])] → closed (table raw name) keys)
  ∧ server_safe (server cfg) ∧ maddy_safe (maddy_ cfg)
  ∧ certificates_safe (maddy_ cfg) (certificates cfg) ∧ security_safe (security cfg)
  ∧ (public_origin (security cfg) ≠ [] →
     ∃ parsed host, urlsplit (c_net lib) (public_origin (security cfg)) = Ok parsed
       ∧ hostname (c_net lib) parsed = Some host ∧ host ∈ allowed_hosts (server cfg)).
Proof.
  unfold from_dict. intros H. apply result_bind_ok in H as (? & Hs%(closed_ok raw _SECTIONS) & H).
  do 2 config_step H.
  apply result_bind_ok in H as (m & [Hm Hm']%maddy_accepted & H).
  apply result_bind_ok in H as (c & Hc & H). apply result_bind_ok in H as ([] & Hin%guard_ok & H).
  apply certificates_accepted in Hc as [Hc Hc']; [|done].
  apply result_bind_ok in H as (sv & [Hsv Hsv']%server_accepted & H).
  apply result_bind_ok in H as (sc & [Hsc Hsc']%security_accepted & H).
  apply result_bind_ok in H as (? & Ho & H). apply result_bind_ok in H as (level & Hl & [= <-]).
  cbn [server maddy_ certificates security]. split_and!; try done.
  - intros name keys Hk. unfold logging_from_dict in Hl.
    apply result_bind_ok in Hl as (? & Hl%closed_ok & _). rewrite !elem_of_cons, elem_of_nil in Hk.
    by destruct Hk as [[= -> ->]|[[= -> ->]|[[= -> ->]|[[= -> ->]|[[= -> ->]|[]]]]]].
  - intros Hne. rewrite bool_decide_eq_false_2 in Ho by done.
    apply result_bind_ok in Ho as (parsed & Hp & Hh%guard_ok). exists parsed.
    destruct (hostname (c_net lib) parsed) as [host|]; [|done]. exists host. split_and!; try done.
    by eapply bool_decide_eq_true_1.
Qed.

(** ** The adapter of an accepted configuration *)

Lemma absolute_token p : safe_path p → zlen (path_text p) ≤ 4096 →
  _fixed_token (path_text p) = Ok (path_text p) ∧ is_absolute (path_text p) = true.
Proof.
  intros [Hr Hp] Hl. assert (path_text p = root p ++ join [47] (parts p)) as He.
  { unfold path_text. by destruct Hr as [->| ->]. }
  rewrite He in *. split; [|by destruct Hr as [->| ->]].
  unfold _fixed_token. rewrite bool_decide_eq_false_2 by (by destruct Hr as [->| ->]).
  rewrite (proj2 (Z.ltb_ge _ _)) by done. cbn [orb].
  destruct (existsb _ _) eqn:E; [|done]. apply existsb_exists in E as (c & Hc%list_elem_of_In & Hlt).
  exfalso. apply Z.ltb_lt in Hlt. apply elem_of_app in Hc as [Hc|Hc].
  - destruct Hr as [Hr|Hr]; rewrite Hr in Hc; rewrite !elem_of_cons, elem_of_nil in Hc; lia.
  - clear Hl He. revert Hc. induction Hp as [|part ps [_ Hpart] Hps IH]; [by intros ?%not_elem_of_nil|].
    assert (c ∉ part) as Hn.
    { intros Hin. rewrite Forall_forall in Hpart. destruct (Hpart c Hin) as [Hcc _].
      unfold is_control in Hcc. apply orb_false_iff in Hcc as [Hcc%Z.ltb_ge _]. lia. }
    destruct ps as [|q ps]; cbn [join]; [done|].
    rewrite !elem_of_app, elem_of_cons, elem_of_nil. intros [?|[[?|[]]|?]]; [done|lia|by apply IH].
Qed.

Lemma timeout_positive f : float_between 1 120 f = true → float_not_positive f = false.
Proof.
  unfold float_between, float_not_positive. destruct f as [r| |]; try done.
  destruct (decimal_value r) as [m e]. simpl. intros H. apply Z.leb_gt.
  destruct (Z.leb_spec 0 e); apply andb_true_iff in H as [H%Z.leb_le _].
  - assert (0 < 10 ^ e) by (apply Z.pow_pos_nonneg; lia). nia.
  - assert (0 < 10 ^ - e) by (apply Z.pow_pos_nonneg; lia). lia.
Qed.

(** The target [MaddyTarget.from_config] and the service [MaddyService.from_config]
    build. *)
Definition config_target (m : MaddyConfig) : result exc MaddyTarget :=
  from_config (md_mode m) (md_container m) (path_text (binary m)) (path_text (md_config_path m))
    (md_service_user m).
Definition config_service (m : MaddyConfig) : result exc (service * cache) :=
  target ← config_target m;
  new_service target (command_timeout_seconds m) (u "local_authdb") (u "local_mailboxes") None None.

Lemma docker_target container :
  _CONTAINER_RE container = true →
  ∃ t, (∀ binary config user, from_config (u "docker") container binary config user = Ok t)
    ∧ mode t = DOCKER ∧ maddy_executable t = u "/bin/maddy" ∧ Maddy.container t = Some container.
Proof.
  intros Hc. exists (MkTarget DOCKER (u "/bin/maddy") (Some (u "/data/maddy.conf")) (Some container)
    DOCKER_EXECUTABLE None SYSTEMCTL_EXECUTABLE (u "maddy.service")). split; [|done].
  intros. unfold from_config, init_target. replace (deployment_mode (u "docker")) with (Some DOCKER) by done.
  cbn [Maddy.container]. rewrite Hc. by vm_compute.
Qed.

Lemma native_target container binary config user :
  _fixed_token binary = Ok binary → is_absolute binary = true → _fixed_token config = Ok config →
  is_user_name user = true →
  ∃ t, from_config (u "native") container binary config user = Ok t
    ∧ mode t = NATIVE ∧ maddy_executable t = binary ∧ Maddy.container t = None.
Proof.
  intros Hb Ha Hc Hu. exists (MkTarget NATIVE binary (Some config) None DOCKER_EXECUTABLE (Some user)
    SYSTEMCTL_EXECUTABLE (u "maddy.service")). split; [|done].
  unfold from_config, init_target. replace (deployment_mode (u "native")) with (Some NATIVE) by done.
  cbn [maddy_executable docker_executable systemctl_executable config_path Maddy.container systemd_unit
       service_user forallb].
  rewrite Hb, Ha, Hc. unfold is_user_name in Hu. rewrite Hu. by vm_compute.
Qed.

(** C24: an accepted configuration can be deployed: when its two paths are not
    longer than a command argument may be, the adapter of the mail server is built
    from it without an error, for the container the configuration names or for its
    executable on the host. *)
Theorem accepted_config_deploys raw cfg :
  from_dict lib raw = Ok cfg →
  zlen (path_text (binary (maddy_ cfg))) ≤ 4096 → zlen (path_text (md_config_path (maddy_ cfg))) ≤ 4096 →
  ∃ self c, config_service (maddy_ cfg) = Ok (self, c)
    ∧ mode_value (mode (target self)) = md_mode (maddy_ cfg)
    ∧ match mode (target self) with
      | DOCKER => maddy_executable (target self) = u "/bin/maddy"
                  ∧ container (target self) = Some (md_container (maddy_ cfg))
      | NATIVE => maddy_executable (target self) = path_text (binary (maddy_ cfg))
                  ∧ container (target self) = None
      end.
Proof.
  unfold from_dict. intros H Hb Hp. do 3 config_step H.
  apply result_bind_ok in H as (m & [_ Hm]%maddy_accepted & H). repeat config_step H.
  injection H as <-. cbn [maddy_] in *.
  destruct Hm as (Hmode & _ & _ & Hcont & Huser & Htime & Hpaths).
  rewrite !Forall_cons in Hpaths. destruct Hpaths as (Hbin & Hcfg & _).
  destruct (absolute_token _ Hbin Hb) as [Hbt Hba]. destruct (absolute_token _ Hcfg Hp) as [Hct _].
  apply timeout_positive in Htime. unfold config_service, config_target, new_service. rewrite Htime.
  rewrite !elem_of_cons, elem_of_nil in Hmode. destruct Hmode as [->|[->|[]]].
  - destruct (docker_target _ Hcont) as (t & Ht & Hmt & He & Hct'). rewrite Ht. do 2 eexists.
    split; [by vm_compute|]. cbn [target]. by rewrite Hmt.
  - destruct (native_target (md_container m) _ _ _ Hbt Hba Hct Huser) as (t & Ht & Hmt & He & Hct').
    rewrite Ht. do 2 eexists. split; [by vm_compute|]. cbn [target]. by rewrite Hmt.
Qed.
End Accepted.

(** An integer too large for a float escapes as [OverflowError]. *)
Lemma huge_timeout_escapes lib :
  maddy_from_dict lib [(u "mode", JStr (u "native")); (u "command_timeout_seconds", JInt (10 ^ 400))]
  = Err OverflowError.
Proof. by vm_compute. Qed.

(** ** Concrete configurations *)

(** A library for text of ASCII characters. *)
Definition demo_clib : clib :=
  MkClib (NetLib (λ s, s) (λ _, true) (λ _, Err UnicodeError) (λ _, false)) (λ s, s) (λ _, None)
    (λ n, str_of_int n ++ u ".0").

Definition demo_raw (mode : string) : section :=
  [(u "maddy", JObj [(u "mode", JStr (u mode)); (u "command_timeout_seconds", JFloat (FFinite (u "1.25e1")))]);
   (u "server", JObj [(u "listen", JStr (u "127.0.0.1:9000"));
      (u "allowed_hosts", JArr [JStr (u "Mail.Example.org"); JStr (u "10.0.0.7"); JStr (u "mail.example.org")])]);
   (u "certificates", JObj [(u "enabled", JBool true); (u "names", JArr [JStr (u "mail.example.org")]);
      (u "webroot_roots", JArr [JStr (u "/var/www//site/./html")])]);
   (u "security", JObj [(u "public_origin", JStr (u "https://MAIL.example.org:443/"))])].
Definition demo_config (mode : string) : AppConfig :=
  match from_dict demo_clib (demo_raw mode) with Ok cfg => cfg | Err _ =>
    MkApp (MkServer [] [] 0 0 0 FNan 0 0 (posix_path []))
      (MkMaddyConfig [] [] [] (posix_path []) (posix_path []) (posix_path []) [] (posix_path []) [] 0 FNan)
      (MkCertificates false [] (posix_path []) (posix_path []) (posix_path []) (posix_path []) []
         (posix_path []) [] (posix_path []) (posix_path []) FNan)
      (MkSecurity (posix_path []) (posix_path []) 0 [] [] [] [] []) []
  end.

Example demo_values :
  let cfg := demo_config "docker" in
  allowed_hosts (server cfg) = [u "mail.example.org"; u "10.0.0.7"]
  ∧ host_port demo_clib (server cfg) = Some (u "127.0.0.1", 9000)
  ∧ path_text <$> webroot_roots (certificates cfg) = [u "/var/www/site/html"]
  ∧ public_origin (security cfg) = u "https://mail.example.org".
Proof. by vm_compute. Qed.

Example demo_refused :
  _absolute (u "/data/../etc/passwd") = Err ConfigError ∧ _absolute (u "//x") = Ok (MkPosix [47; 47] [u "x"])
  ∧ _host demo_clib (u "example.org.") = Err ConfigError ∧ _host demo_clib (u "010.1.1.1") = Ok (u "010.1.1.1")
  ∧ listen_port demo_clib (u "0.0.0.0:80") = Err ConfigError.
Proof. by vm_compute. Qed.

Lemma accepted_config_safe_witness :
  from_dict demo_clib (demo_raw "docker") = Ok (demo_config "docker")
  ∧ maddy_safe (maddy_ (demo_config "docker"))
  ∧ ∃ host, host ∈ allowed_hosts (server (demo_config "docker")).
Proof.
  assert (from_dict demo_clib (demo_raw "docker") = Ok (demo_config "docker")) as H by by vm_compute.
  destruct (accepted_config_safe _ _ _ H) as (_ & _ & _ & Hm & _ & _ & Ho).
  split; [done|]. split; [done|].
  destruct Ho as (_ & host & _ & _ & Hin); [by vm_compute|]. by exists host.
Defined.

Lemma accepted_config_deploys_witness :
  ∃ self c, config_service (maddy_ (demo_config "native")) = Ok (self, c)
    ∧ maddy_executable (target self) = u "/usr/bin/maddy".
Proof.
  assert (from_dict demo_clib (demo_raw "native") = Ok (demo_config "native")) as H by by vm_compute.
  destruct (accepted_config_deploys _ _ _ H) as (self & c & Hs & Hm & He); [by vm_compute..|].
  exists self, c. split; [done|]. destruct (mode (target self)); [|done].
  destruct He as [-> _]. by vm_compute.
Defined.
