(* ===== verification/Gateway.v ===== *)
(** * The web process's view of the helper: [gateway.py]

    [HelperGateway] calls the helper for every page and keeps short-lived caches
    of what it answered.  Its coroutines interleave at their awaits, a cancelled
    HTTP request leaves its calls running, and a call may be answered, lost or
    still in a thread when the next one starts: the model is a step function on
    events over the pool of tasks.  A call is served once it is connected, and the
    helper serves connections in order. *)

From stdpp Require Import functions.
From S2P Require Import Prelude Text Errors Json Totp Protocol.
#[local] Open Scope Z_scope.

Definition _HEALTH_CACHE_SECONDS : Z := 10.
Definition _ACCOUNT_CACHE_SECONDS : Z := 2.
Definition _MAILBOX_CACHE_SECONDS : Z := 15.
Definition _MAILBOX_CACHE_CAPACITY : nat := 128.
Definition _MESSAGE_LIST_CACHE_SECONDS : Z := 5.
Definition _MESSAGE_LIST_CACHE_CAPACITY : nat := 128.
Definition _SESSION_CACHE_SECONDS : Z := 2.
Definition _SESSION_CACHE_CAPACITY : nat := 256.

(** [time.monotonic() + seconds], in nanoseconds. *)
Definition after (now seconds : Z) : Z := now + seconds * 1000000000.

(** ** Outcomes *)

(** What a coroutine raises; [Rejected] is [DeliveryRejected] with its public
    message, and [CancelledError] is no [Exception]. *)
Inductive gexc : Type :=
| Exn (e : exc)
| Rejected (public_message : option (list Z))
| CancelledError.

Definition invalid_response : exc := HelperCallError (u "invalid_response").

Definition token : Type := option (list Z).
Definition _authorization_cache_key (auth_token : token) : result exc (list Z) :=
  match auth_token with
  | None => Ok []
  | Some t => if is_ascii t then Ok (sha256 t) else Err UnicodeEncodeError
  end.

Definition _checked_result (response : Response) : result exc json :=
  if ok response then Ok (result_ response)
  else Err (HelperCallError (match error response with Some e => code e | None => u "internal_error" end)).

Definition _mapping (v : json) : result exc json :=
  match v with JObj _ => Ok v | _ => Err invalid_response end.
Definition _sequence (v : json) : result exc (list json) :=
  match v with JArr l => Ok l | _ => Err invalid_response end.

(** [value.get(key)] of a mapping, [None] when it is missing. *)
Definition get_field (k : string) (v : json) : json :=
  match v with JObj d => default JNull (obj_get (u k) d) | _ => JNull end.

(** [str.isdecimal] of ASCII text. *)
Definition _single_uid (value : list Z) : result exc (list Z) :=
  if negb (is_ascii value) || negb (match_plus is_digit value) || starts_with [48] value then Err ValueError
  else if MAX_INT_DIGITS <? zlen value then Err ValueError
  else let uid := int_of_digits value in
       if (1 <=? uid) && (uid <=? 2 ^ 32 - 1) then Ok (str_of_int uid) else Err ValueError.

Fixpoint checked_uids (seen values : list (list Z)) : result exc (list (list Z)) :=
  match values with
  | [] => Ok []
  | value :: values =>
      uid ← _single_uid value;
      if bool_decide (uid ∈ seen) then Err ValueError
      else rest ← checked_uids (uid :: seen) values; Ok (uid :: rest)
  end.
Definition _uid_set (values : option (list (list Z))) : result exc (list Z) :=
  match values with
  | None => Ok (u "1:*")
  | Some values =>
      if (1 <=? zlen values) && (zlen values <=? 50)
      then checked ← checked_uids [] values; Ok (join [44] checked)
      else Err ValueError
  end.

(** A call of [_call] or [_upload]: what [Request.create] is given.  When it
    refuses the request the call breaks as one whose transport fails does. *)
Record call := MkCall {
  c_operation : list Z; c_params : list (list Z * json); c_token : token; c_length : option Z
}.
Definition _call (op : string) (ps : list (string * json)) (auth_token : token) : call :=
  MkCall (u op) ((λ p, (u p.1, p.2)) <$> ps) auth_token None.
Definition _upload (op : string) (ps : list (string * json)) (auth_token : token) (size : Z)
    : result exc call :=
  if (1 <=? size) && (size <=? DEFAULT_MAX_STREAM_BYTES)
  then Ok (MkCall (u op) ((λ p, (u p.1, p.2)) <$> ps) auth_token (Some size))
  else Err (HelperCallError (u "limit_exceeded")).

(** ** Caches *)

(** [d[k] = v] and [del d[k]] of a [dict]. *)
Section Assoc.
Context {K V : Type} `{EqDecision K}.
Fixpoint dget (k : K) (d : list (K * V)) : option V :=
  match d with
  | [] => None
  | (k', v) :: d => if decide (k' = k) then Some v else dget k d
  end.
Fixpoint dset (k : K) (v : V) (d : list (K * V)) : list (K * V) :=
  match d with
  | [] => [(k, v)]
  | (k', w) :: d => if decide (k' = k) then (k', v) :: d else (k', w) :: dset k v d
  end.
Definition dpop (k : K) (d : list (K * V)) : list (K * V) := filter (λ e, e.1 ≠ k) d.

(** The entries still valid at [now], less the oldest until a new one fits. *)
Definition prune (capacity : nat) (expires : V → Z) (now : Z) (d : list (K * V)) : list (K * V) :=
  let live := filter (λ e, now < expires e.2) d in
  drop (length live - (capacity - 1)) live.
End Assoc.

Record _AccountFlight := MkFlight {
  fl_generation : Z; fl_auth_key : list Z; fl_auth_token : token; fl_task : nat
}.

(** The state of the accounts' cache; [account_cache] is [None] when its value is. *)
Record account_state := Accounts {
  account_cache : option (Z * list json * list Z);
  account_flight : option _AccountFlight;
  account_generation : Z; account_mutations_inflight : Z;
  account_mutation_tasks : list nat; account_cache_quarantined : bool
}.

Definition mailbox_key : Type := list Z * list Z.
Record _MailboxCacheEntry := MkMailboxes { mb_expires_at : Z; mb_generation : Z; mb_value : list json }.
Record mailbox_state := Mailboxes {
  mailbox_cache : list (mailbox_key * _MailboxCacheEntry); mailbox_generation : list Z → Z
}.

Definition scope : Type := list Z * list Z.
(** Authorization key, account, mailbox, limit, offset. *)
Definition message_key : Type := list Z * scope * Z * Z.
Definition key_scope (k : message_key) : scope := k.1.1.2.
Record message_state := Messages {
  message_list_cache : list (message_key * (Z * json));
  message_account_generation : list Z → Z; message_mailbox_generation : scope → Z;
  message_mutations_inflight : scope → Z; message_mutation_tasks : scope → list nat;
  message_cache_quarantined : list scope
}.

Record session_state := Sessions {
  session_cache : list (list Z * (Z * json)); session_flights : list (list Z * nat)
}.

Record HelperGateway := MkGateway {
  health_cache : option (Z * json); health_lock : bool;
  accounts : account_state; mailboxes : mailbox_state; messages : message_state;
  sessions : session_state
}.

Definition set_health (c : option (Z * json)) (l : bool) (g : HelperGateway) : HelperGateway :=
  MkGateway c l (accounts g) (mailboxes g) (messages g) (sessions g).
Definition set_accounts (a : account_state) (g : HelperGateway) : HelperGateway :=
  MkGateway (health_cache g) (health_lock g) a (mailboxes g) (messages g) (sessions g).
Definition set_mailboxes (m : mailbox_state) (g : HelperGateway) : HelperGateway :=
  MkGateway (health_cache g) (health_lock g) (accounts g) m (messages g) (sessions g).
Definition set_messages (m : message_state) (g : HelperGateway) : HelperGateway :=
  MkGateway (health_cache g) (health_lock g) (accounts g) (mailboxes g) m (sessions g).
Definition set_sessions (s : session_state) (g : HelperGateway) : HelperGateway :=
  MkGateway (health_cache g) (health_lock g) (accounts g) (mailboxes g) (messages g) s.

(** [HelperGateway.__init__] *)
Definition new_gateway : HelperGateway :=
  MkGateway None false (Accounts None None 0 0 [] false) (Mailboxes [] (λ _, 0))
    (Messages [] (λ _, 0) (λ _, 0) (λ _, 0) (λ _, []) []) (Sessions [] []).

(** *** Accounts *)

Definition _invalidate_accounts (a : account_state) : account_state :=
  Accounts None None (account_generation a + 1) (account_mutations_inflight a) (account_mutation_tasks a)
    (account_cache_quarantined a).

(** [_fetch_accounts] of the helper's answer. *)
Definition _fetch_accounts (answer : result exc json) : result exc (list json) :=
  v ← answer; items ← _sequence v; result_map _mapping items.

(** [_start_account_read], for the task it creates. *)
Definition _start_account_read (t : nat) (key : list Z) (auth_token : token) (a : account_state)
    : account_state :=
  Accounts (account_cache a) (Some (MkFlight (account_generation a) key auth_token t)) (account_generation a)
    (account_mutations_inflight a) (account_mutation_tasks a) (account_cache_quarantined a).

(** [_run_account_read] in the task [t], from the helper's answer on. *)
Definition _run_account_read (t : nat) (generation : Z) (key : list Z) (now : Z)
    (answer : result exc json) (a : account_state) : result exc (list json) * account_state :=
  let outcome := _fetch_accounts answer in
  let a := match outcome with
           | Ok v => if (generation =? account_generation a) && (account_mutations_inflight a =? 0)
                     then Accounts (Some (after now _ACCOUNT_CACHE_SECONDS, v, key)) (account_flight a)
                            (account_generation a) (account_mutations_inflight a)
                            (account_mutation_tasks a) false
                     else a
           | Err _ => a
           end in
  (outcome,
   match account_flight a with
   | Some flight => if bool_decide (fl_task flight = t)
                    then Accounts (account_cache a) None (account_generation a) (account_mutations_inflight a)
                           (account_mutation_tasks a) (account_cache_quarantined a)
                    else a
   | None => a
   end).

(** An exception that is no framed error of the helper. *)
Definition ambiguous (answer : result exc json) : bool :=
  match answer with Err (HelperCallError _) => false | Err _ => true | Ok _ => false end.

(** [_account_mutation] up to its await, for the task it creates. *)
Definition _account_mutation (t : nat) (a : account_state) : account_state :=
  let a := _invalidate_accounts a in
  Accounts (account_cache a) (account_flight a) (account_generation a) (account_mutations_inflight a + 1)
    (account_mutation_tasks a ++ [t]) (account_cache_quarantined a).

(** [_run_account_mutation] from the helper's answer on. *)
Definition _run_account_mutation (answer : result exc json) (a : account_state) : account_state :=
  _invalidate_accounts
    (Accounts (account_cache a) (account_flight a) (account_generation a) (account_mutations_inflight a - 1)
       (account_mutation_tasks a) (account_cache_quarantined a || ambiguous answer)).

(** What a pass through a reader's loop does next. *)
Inductive turn (A : Type) : Type :=
| Lost                       (* the tracking of mutations was lost *)
| Gather (tasks : list nat)  (* wait for them, then [continue] *)
| Hit (value : A)
| Await (flight : _AccountFlight)
| Fetch.
Arguments Lost {A}. Arguments Gather {A} _. Arguments Hit {A} _. Arguments Await {A} _. Arguments Fetch {A}.

(** [_wait_for_account_mutations], up to its await: the tasks not done. *)
Definition undone (done : nat → bool) (tasks : list nat) : list nat := List.filter (λ t, negb (done t)) tasks.
Definition gather {A} (tasks : list nat) : turn A := match tasks with [] => Lost | _ => Gather tasks end.

Definition _wait_for_account_mutations {A} (done : nat → bool) (a : account_state) : turn A * account_state :=
  let tasks := undone done (account_mutation_tasks a) in
  (gather tasks, Accounts (account_cache a) (account_flight a) (account_generation a)
                   (account_mutations_inflight a) tasks (account_cache_quarantined a)).

(** The loop of [list_accounts] up to its next await. *)
Definition list_accounts_turn (done : nat → bool) (key : list Z) (now : Z) (a : account_state)
    : turn (list json) * account_state :=
  if negb (account_mutations_inflight a =? 0) then _wait_for_account_mutations done a
  else
    let join :=
      match account_flight a with
      | Some flight => if (fl_generation flight =? account_generation a) && str_eqb (fl_auth_key flight) key
                       then Await flight else Fetch
      | None => Fetch
      end in
    (match account_cache a with
     | Some (expires_at, value, auth_key) =>
         if negb (account_cache_quarantined a) && str_eqb auth_key key && (now <? expires_at)
         then Hit value else join
     | None => join
     end, a).

(** A mutation began while the flight was waited for: [continue]. *)
Definition outdated_flight (flight : _AccountFlight) (a : account_state) : bool :=
  negb (fl_generation flight =? account_generation a) || negb (account_mutations_inflight a =? 0).

(** *** Mailboxes *)

Definition _invalidate_mailboxes (account : list Z) (m : mailbox_state) : mailbox_state :=
  Mailboxes (filter (λ e, e.1.2 ≠ account) (mailbox_cache m))
    (<[account := mailbox_generation m account + 1]> (mailbox_generation m)).

Definition cached_mailboxes (key : mailbox_key) (now : Z) (m : mailbox_state) : option (list json) :=
  match dget key (mailbox_cache m) with
  | Some e => if (now <? mb_expires_at e) && (mb_generation e =? mailbox_generation m key.2)
              then Some (mb_value e) else None
  | None => None
  end.

(** [list_mailboxes] from the helper's answer on. *)
Definition store_mailboxes (key : mailbox_key) (generation now : Z) (value : list json) (m : mailbox_state)
    : mailbox_state :=
  if generation =? mailbox_generation m key.2 then
    Mailboxes (dset key (MkMailboxes (after now _MAILBOX_CACHE_SECONDS) generation value)
                 (prune _MAILBOX_CACHE_CAPACITY mb_expires_at now (mailbox_cache m)))
      (mailbox_generation m)
  else m.

(** *** Message lists *)

Definition in_scope (account : list Z) (mailbox : option (list Z)) (s : scope) : bool :=
  str_eqb s.1 account && match mailbox with Some b => str_eqb s.2 b | None => true end.
Definition _invalidate_message_lists (account : list Z) (mailbox : option (list Z)) (m : message_state)
    : message_state :=
  let cache := List.filter (λ e, negb (in_scope account mailbox (key_scope e.1))) (message_list_cache m) in
  match mailbox with
  | None => Messages cache
              (<[account := message_account_generation m account + 1]> (message_account_generation m))
              (message_mailbox_generation m) (message_mutations_inflight m) (message_mutation_tasks m)
              (message_cache_quarantined m)
  | Some b => Messages cache (message_account_generation m)
                (<[(account, b) := message_mailbox_generation m (account, b) + 1]>
                   (message_mailbox_generation m))
                (message_mutations_inflight m) (message_mutation_tasks m) (message_cache_quarantined m)
  end.

Definition _message_generation (s : scope) (m : message_state) : Z * Z :=
  (message_account_generation m s.1, message_mailbox_generation m s).

(** [_message_mutation] up to its await, for the task it creates. *)
Definition _message_mutation (t : nat) (s : scope) (m : message_state) : message_state :=
  let m := _invalidate_message_lists s.1 (Some s.2) m in
  Messages (message_list_cache m) (message_account_generation m) (message_mailbox_generation m)
    (<[s := message_mutations_inflight m s + 1]> (message_mutations_inflight m))
    (<[s := message_mutation_tasks m s ++ [t]]> (message_mutation_tasks m)) (message_cache_quarantined m).

(** [_run_message_mutation] from the helper's answer on. *)
Definition _run_message_mutation (s : scope) (answer : result exc json) (m : message_state) : message_state :=
  let remaining := message_mutations_inflight m s - 1 in
  _invalidate_message_lists s.1 (Some s.2)
    (Messages (message_list_cache m) (message_account_generation m) (message_mailbox_generation m)
       (<[s := Z.max 0 remaining]> (message_mutations_inflight m)) (message_mutation_tasks m)
       (if ambiguous answer then s :: message_cache_quarantined m else message_cache_quarantined m)).

Definition _wait_for_message_mutations {A} (done : nat → bool) (s : scope) (m : message_state)
    : turn A * message_state :=
  let tasks := undone done (message_mutation_tasks m s) in
  (gather tasks, Messages (message_list_cache m) (message_account_generation m)
                   (message_mailbox_generation m) (message_mutations_inflight m)
                   (<[s := tasks]> (message_mutation_tasks m)) (message_cache_quarantined m)).

(** The loop of [list_messages] up to its next await. *)
Definition list_messages_turn (done : nat → bool) (key : message_key) (now : Z) (m : message_state)
    : turn json * message_state :=
  let s := key_scope key in
  if negb (message_mutations_inflight m s =? 0) then _wait_for_message_mutations done s m
  else (match dget key (message_list_cache m) with
        | Some (expires_at, value) =>
            if negb (bool_decide (s ∈ message_cache_quarantined m)) && (now <? expires_at)
            then Hit value else Fetch
        | None => Fetch
        end, m).

Definition message_list (answer : result exc json) : result exc json :=
  v ← answer; v ← _mapping v; _sequence (get_field "items" v) ≫= λ _, Ok v.

Definition outdated_list (s : scope) (generation : Z * Z) (m : message_state) : bool :=
  negb (bool_decide (generation = _message_generation s m)) || negb (message_mutations_inflight m s =? 0).

Definition store_messages (key : message_key) (now : Z) (value : json) (m : message_state) : message_state :=
  Messages (dset key (after now _MESSAGE_LIST_CACHE_SECONDS, value)
              (prune _MESSAGE_LIST_CACHE_CAPACITY fst now (message_list_cache m)))
    (message_account_generation m) (message_mailbox_generation m) (message_mutations_inflight m)
    (message_mutation_tasks m) (filter (λ s, s ≠ key_scope key) (message_cache_quarantined m)).

(** *** Sessions *)

Definition cached_session (key : list Z) (now : Z) (s : session_state) : option json :=
  match dget key (session_cache s) with
  | Some (expires_at, value) => if now <? expires_at then Some value else None
  | None => None
  end.

(** The [finally] clause of [session]. *)
Definition end_flight (key : list Z) (t : nat) (done : bool) (s : session_state) : session_state :=
  if done && bool_decide (dget key (session_flights s) = Some t)
  then Sessions (session_cache s) (dpop key (session_flights s)) else s.

Definition store_session (key : list Z) (now : Z) (value : json) (s : session_state) : session_state :=
  Sessions (dset key (after now _SESSION_CACHE_SECONDS, value)
              (prune _SESSION_CACHE_CAPACITY fst now (session_cache s)))
    (session_flights s).

(** What methods drop before a call and after it. *)
Inductive invalidation : Type :=
| DropMailboxes (account : list Z)
| DropMessages (account : list Z) (mailbox : option (list Z))
| DropSession (key : list Z)
| DropSessions.
Definition invalidate (i : invalidation) (g : HelperGateway) : HelperGateway :=
  match i with
  | DropMailboxes account => set_mailboxes (_invalidate_mailboxes account (mailboxes g)) g
  | DropMessages account mailbox => set_messages (_invalidate_message_lists account mailbox (messages g)) g
  | DropSession key => set_sessions (Sessions (dpop key (session_cache (sessions g))) (session_flights (sessions g))) g
  | DropSessions => set_sessions (Sessions [] (session_flights (sessions g))) g
  end.
Definition invalidate_all (drops : list invalidation) (g : HelperGateway) : HelperGateway :=
  foldl (λ g i, invalidate i g) g drops.

(** ** Coroutines

    A task is a coroutine ([job]) with what it waits for.  A job is the rest of
    the method's code: [begin] runs it from its start, [resume_call],
    [resume_join] and [begin] again (for a loop) from an await on, up to the next
    await.  Wrapper tasks are those a method creates and shields. *)

Inductive job : Type :=
| Const (r : result gexc json)
(* invalidations around one call of the helper, with its [except] clause *)
| Method (before : list invalidation) (request : result exc call) (finally : list invalidation)
    (except : exc → gexc) (check : json → result gexc json) (following : json → list invalidation)
| AccountMutation (before : list invalidation) (request : call) (finally : list invalidation) (none : bool)
| RunAccountMutation
| MessageMutation (s : scope) (request : result exc call)
| RunMessageMutation (s : scope)
| MailRuleStep (account : list Z) (request : call)
| RunMailRuleStep (account : list Z)
(* the caller of a wrapper; [none]: it returns [None] *)
| Shielded (finally : list invalidation) (none : bool)
| ListAccounts (auth_token : token)
| AwaitFlight (auth_token : token) (flight : _AccountFlight)
| RunAccountRead (generation : Z) (key : list Z)
| ListMailboxes (auth_token : token) (account : list Z)
| ReadMailboxes (key : mailbox_key) (generation : Z)
| ListMessages (auth_token : token) (s : scope) (limit offset : Z)
| ReadMessages (auth_token : token) (key : message_key) (generation : Z * Z)
| Session (auth_token : list Z)
| LoadSession
| AwaitSession (key : list Z) (flight : nat)
| Health (auth_token : token)
| ProbeHealth (auth_token : token)
| CertificateHealth (auth_token : token) (probe : result exc json)
| CertificateList (probe : result exc json).

Inductive action : Type :=
| Finish (r : result gexc json)
| CallHelper (request : call) (j : job)
| Spawn (child : job) (request : call) (j : job)
| WaitTask (t : nat) (j : job)
| WaitTasks (ts : list nat) (j : job)
| WaitLock (j : job).

(** The moment a segment of code runs at: the clock, the task itself and the one
    created next, the tasks that are done, and what the configuration and [str]
    of a value that is no string are. *)
Record ctx := MkCtx {
  x_now : Z; x_self : nat; x_next : nat; x_done : nat → bool;
  x_certificates : bool; x_version : list Z; x_str : json → list Z
}.

Definition exn {A} (r : result exc A) : result gexc A :=
  match r with Ok v => Ok v | Err e => Err (Exn e) end.
Definition none_if (none : bool) (v : json) : json := if none then JNull else v.

Section Segments.
Context (x : ctx).
Notation now := (x_now x).

Definition pass (g : HelperGateway) (a : action) : HelperGateway * action := (g, a).

(** [list_accounts] *)
Definition list_accounts (auth_token : token) (g : HelperGateway) : HelperGateway * action :=
  match _authorization_cache_key auth_token with
  | Err e => pass g (Finish (Err (Exn e)))
  | Ok key =>
      let '(t, a) := list_accounts_turn (x_done x) key now (accounts g) in
      let g := set_accounts a g in
      match t with
      | Lost => pass g (Finish (Err (Exn RuntimeError)))
      | Gather ts => pass g (WaitTasks ts (ListAccounts auth_token))
      | Hit v => pass g (Finish (Ok (JArr v)))
      | Await flight => pass g (WaitTask (fl_task flight) (AwaitFlight auth_token flight))
      | Fetch =>
          pass (set_accounts (_start_account_read (x_next x) key auth_token a) g)
            (Spawn (RunAccountRead (account_generation a) key)
               (_call "accounts.list" [("include_append_limits", JBool false)]%string auth_token)
               (AwaitFlight auth_token (MkFlight (account_generation a) key auth_token (x_next x))))
      end
  end.

Definition await_flight (auth_token : token) (flight : _AccountFlight) (outcome : result gexc json)
    (g : HelperGateway) : HelperGateway * action :=
  match outcome with
  | Err e => pass g (Finish (Err e))
  | Ok v => if outdated_flight flight (accounts g) then list_accounts auth_token g
            else pass g (Finish (Ok v))
  end.

(** [list_messages] *)
Definition list_messages (auth_token : token) (s : scope) (limit offset : Z) (g : HelperGateway)
    : HelperGateway * action :=
  match _authorization_cache_key auth_token with
  | Err e => pass g (Finish (Err (Exn e)))
  | Ok auth_key =>
      let key := (auth_key, s, limit, offset) in
      let '(t, m) := list_messages_turn (x_done x) key now (messages g) in
      let g := set_messages m g in
      match t with
      | Gather ts => pass g (WaitTasks ts (ListMessages auth_token s limit offset))
      | Hit v => pass g (Finish (Ok v))
      | Fetch =>
          pass g (CallHelper
            (_call "messages.list" [("target_account_id", JStr s.1); ("mailbox", JStr s.2);
                                    ("limit", JInt limit); ("offset", JInt offset)]%string auth_token)
            (ReadMessages auth_token key (_message_generation s m)))
      | Lost | Await _ => pass g (Finish (Err (Exn RuntimeError)))
      end
  end.

Definition read_messages (auth_token : token) (key : message_key) (generation : Z * Z)
    (answer : result gexc json) (g : HelperGateway) : HelperGateway * action :=
  match answer with
  | Err e => pass g (Finish (Err e))
  | Ok v =>
      match message_list (Ok v) with
      | Err e => pass g (Finish (Err (Exn e)))
      | Ok v => if outdated_list (key_scope key) generation (messages g)
                then list_messages auth_token (key_scope key) key.1.2 key.2 g
                else pass (set_messages (store_messages key now v (messages g)) g) (Finish (Ok v))
      end
  end.

(** [list_mailboxes] *)
Definition list_mailboxes (auth_token : token) (account : list Z) (g : HelperGateway)
    : HelperGateway * action :=
  match _authorization_cache_key auth_token with
  | Err e => pass g (Finish (Err (Exn e)))
  | Ok auth_key =>
      match cached_mailboxes (auth_key, account) now (mailboxes g) with
      | Some v => pass g (Finish (Ok (JArr v)))
      | None =>
          pass g (CallHelper (_call "mailboxes.list" [("target_account_id", JStr account)]%string auth_token)
                    (ReadMailboxes (auth_key, account) (mailbox_generation (mailboxes g) account)))
      end
  end.

Definition read_mailboxes (key : mailbox_key) (generation : Z) (answer : result gexc json)
    (g : HelperGateway) : HelperGateway * action :=
  match answer with
  | Err e => pass g (Finish (Err e))
  | Ok v => match _sequence v with
            | Err e => pass g (Finish (Err (Exn e)))
            | Ok l => pass (set_mailboxes (store_mailboxes key generation now l (mailboxes g)) g)
                        (Finish (Ok (JArr l)))
            end
  end.

(** [session] *)
Definition session (auth_token : list Z) (g : HelperGateway) : HelperGateway * action :=
  match _authorization_cache_key (Some auth_token) with
  | Err e => pass g (Finish (Err (Exn e)))
  | Ok key =>
      match cached_session key now (sessions g) with
      | Some v => pass g (Finish (Ok v))
      | None =>
          match dget key (session_flights (sessions g)) with
          | Some t => pass g (WaitTask t (AwaitSession key t))
          | None =>
              pass (set_sessions (Sessions (session_cache (sessions g))
                                    (dset key (x_next x) (session_flights (sessions g)))) g)
                (Spawn LoadSession (_call "auth.session" [] (Some auth_token)) (AwaitSession key (x_next x)))
          end
      end
  end.

Definition await_session (key : list Z) (t : nat) (outcome : result gexc json) (g : HelperGateway)
    : HelperGateway * action :=
  let s := end_flight key t (x_done x t) (sessions g) in
  match outcome with
  | Err e => pass (set_sessions s g) (Finish (Err e))
  | Ok v => pass (set_sessions (store_session key now v s) g) (Finish (Ok v))
  end.

(** [health] *)
Definition is_true (v : json) : bool := match v with JBool b => b | _ => false end.
Definition py_str (v : json) : list Z := match v with JStr s => s | _ => x_str x v end.

Definition health_of (probe : result exc json) (certificates : json) : json :=
  let version := match probe ≫= _mapping with Ok v => v | Err _ => JNull end in
  let known := is_ok (probe ≫= _mapping) in
  let storage := is_true (get_field "storage_available" version) in
  let certbot := is_true (get_field "certbot_available" certificates) in
  JObj ((λ p, (u p.1, p.2)) <$>
    [("status", JStr (if storage then u "ok" else u "degraded"));
     ("version", JStr (x_version x));
     ("maddy_version", JStr (if known then match version with
                                           | JObj d => match obj_get (u "version") d with
                                                       | Some v => py_str v
                                                       | None => u "unknown"
                                                       end
                                           | _ => u "unknown"
                                           end
                             else u "unknown"));
     ("maddy_write_enabled", JBool (is_true (get_field "writes_enabled" version)));
     ("storage_available", JBool storage);
     ("certbot_available", JBool certbot);
     ("certificate_management_enabled",
       JBool (match certificates with
              | JArr _ => true
              | _ => is_true (get_field "available" certificates)
                     || certbot && is_true (get_field "source_readable" certificates)
              end))]%string).

Definition health (auth_token : token) (g : HelperGateway) : HelperGateway * action :=
  let unlocked := if health_lock g then pass g (WaitLock (Health auth_token))
                  else pass (set_health (health_cache g) true g)
                         (CallHelper (_call "maddy.health" [] auth_token) (ProbeHealth auth_token)) in
  match health_cache g with
  | Some (expires_at, v) => if now <? expires_at then pass g (Finish (Ok v)) else unlocked
  | None => unlocked
  end.

(** The end of [health], which releases the lock. *)
Definition end_health (probe : result exc json) (certificates : json) (g : HelperGateway)
    : HelperGateway * action :=
  let v := health_of probe certificates in
  pass (set_health (Some (after now _HEALTH_CACHE_SECONDS, v)) false g) (Finish (Ok v)).

(** [except Exception]: the answer, unless the task was cancelled. *)
Definition caught (answer : result gexc json) (g : HelperGateway)
    (rest : result exc json → HelperGateway * action) : HelperGateway * action :=
  match answer with
  | Ok v => rest (Ok v)
  | Err (Exn e) => rest (Err e)
  | Err e => pass (set_health (health_cache g) false g) (Finish (Err e))
  end.

Definition probe_health (auth_token : token) (answer : result gexc json) (g : HelperGateway) : HelperGateway * action :=
  caught answer g (λ probe,
    if x_certificates x
    then pass g (CallHelper (_call "certificates.health" [] auth_token) (CertificateHealth auth_token probe))
    else end_health probe JNull g).

Definition certificate_health (auth_token : token) (probe : result exc json) (answer : result gexc json)
    (g : HelperGateway) : HelperGateway * action :=
  caught answer g (λ certificates,
    match certificates with
    | Ok v => end_health probe v g
    | Err (HelperCallError c) =>
        if str_eqb c (u "operation_denied")
        then pass g (CallHelper (_call "certificates.list" [] auth_token) (CertificateList probe))
        else end_health probe JNull g
    | Err _ => end_health probe JNull g
    end).

Definition certificate_list (probe : result exc json) (answer : result gexc json) (g : HelperGateway)
    : HelperGateway * action :=
  caught answer g (λ certificates, end_health probe (match certificates with Ok v => v | Err _ => JNull end) g).

(** [_mail_rules_result] *)
Definition _mail_rules_result (v : json) : result exc json :=
  v ← _mapping v;
  (match get_field "rules" v with
   | JNull => Ok tt
   | rules => l ← _sequence rules; result_map _mapping l ≫= λ _, Ok tt
   end) ≫= λ _,
  (match get_field "active_run" v with JNull => Ok JNull | r => _mapping r end) ≫= λ _,
  (match get_field "rule" v with JNull => Ok JNull | r => _mapping r end) ≫= λ _,
  (match get_field "run" v with JNull => Ok JNull | r => _mapping r end) ≫= λ _,
  match get_field "delivery_ready" v with JNull | JBool _ => Ok v | _ => Err invalid_response end.

(** ** Segments of code *)

(** From the start of the coroutine, or from the top of its loop. *)
Definition begin (j : job) (g : HelperGateway) : HelperGateway * action :=
  match j with
  | Const r => pass g (Finish r)
  | Method before request finally except check following =>
      let g := invalidate_all before g in
      match request with
      | Ok rq => pass g (CallHelper rq (Method before request finally except check following))
      | Err e => pass (invalidate_all finally g) (Finish (Err (except e)))
      end
  | AccountMutation before request finally none =>
      let g := invalidate_all before g in
      pass (set_accounts (_account_mutation (x_next x) (accounts g)) g)
        (Spawn RunAccountMutation request (Shielded finally none))
  | MessageMutation s (Ok request) =>
      pass (set_messages (_message_mutation (x_next x) s (messages g)) g)
        (Spawn (RunMessageMutation s) request (Shielded [] true))
  | MessageMutation _ (Err e) => pass g (Finish (Err (Exn e)))
  | MailRuleStep account request =>
      pass (invalidate (DropMessages account None) g)
        (Spawn (RunMailRuleStep account) request (Shielded [] false))
  | ListAccounts auth_token => list_accounts auth_token g
  | ListMailboxes auth_token account => list_mailboxes auth_token account g
  | ListMessages auth_token s limit offset => list_messages auth_token s limit offset g
  | Session auth_token => session auth_token g
  | Health auth_token => health auth_token g
  | _ => pass g (Finish (Err (Exn RuntimeError)))
  end.

(** From the await of a helper call on. *)
Definition resume_call (j : job) (answer : result gexc json) (g : HelperGateway) : HelperGateway * action :=
  let plain := match answer with Ok v => Ok v | Err (Exn e) => Err e | Err _ => Err RuntimeError end in
  match j with
  | Method _ _ finally except check following =>
      let g := invalidate_all finally g in
      match answer with
      | Ok v => match check v with
                | Ok r => pass (invalidate_all (following r) g) (Finish (Ok r))
                | Err e => pass g (Finish (Err e))
                end
      | Err (Exn e) => pass g (Finish (Err (except e)))
      | Err e => pass g (Finish (Err e))
      end
  | RunAccountMutation => pass (set_accounts (_run_account_mutation plain (accounts g)) g) (Finish answer)
  | RunMessageMutation s => pass (set_messages (_run_message_mutation s plain (messages g)) g) (Finish answer)
  | RunMailRuleStep account =>
      pass (invalidate (DropMessages account None) g) (Finish (exn (v ← plain; _mail_rules_result v)))
  | RunAccountRead generation key =>
      let '(outcome, a) := _run_account_read (x_self x) generation key now plain (accounts g) in
      pass (set_accounts a g) (Finish (exn (l ← outcome; Ok (JArr l))))
  | ReadMailboxes key generation => read_mailboxes key generation answer g
  | ReadMessages auth_token key generation => read_messages auth_token key generation answer g
  | LoadSession => pass g (Finish (exn (v ← plain; _mapping v)))
  | ProbeHealth auth_token => probe_health auth_token answer g
  | CertificateHealth auth_token probe => certificate_health auth_token probe answer g
  | CertificateList probe => certificate_list probe answer g
  | _ => pass g (Finish (Err (Exn RuntimeError)))
  end.

(** From the await of another task on. *)
Definition resume_join (j : job) (outcome : result gexc json) (g : HelperGateway) : HelperGateway * action :=
  match j with
  | Shielded finally none =>
      pass (invalidate_all finally g) (Finish (v ← outcome; Ok (none_if none v)))
  | AwaitFlight auth_token flight => await_flight auth_token flight outcome g
  | AwaitSession key t => await_session key t outcome g
  | _ => pass g (Finish (Err (Exn RuntimeError)))
  end.
End Segments.

(** Tasks that only a method holds: nothing cancels them. *)
Definition is_wrapper (j : job) : bool :=
  match j with
  | RunAccountMutation | RunMessageMutation _ | RunMailRuleStep _ | RunAccountRead _ _ | LoadSession => true
  | _ => false
  end.

(** ** The event loop, the threads and the helper *)

Inductive state : Type :=
| Ready
| OnCall (c : nat)
| OnTask (t : nat)
| OnTasks (ts : list nat)
| OnLock
| Done (r : result gexc json).
Record task := Task { t_job : job; t_state : state }.

(** A call is in a thread that has not connected yet ([threads]), in the helper's
    line ([queue]), answered ([log], the newest last), or was given up before it
    connected.  Tasks and calls are named by their places in the lists. *)
Record world := World {
  gateway : HelperGateway; clock : Z; tasks : list task; calls : list call;
  threads : list nat; queue : list nat; log : list (nat * Response);
  certificates_on : bool; version_text : list Z; str_of : json → list Z
}.
Definition new_world (certificates : bool) (version : list Z) (str_of : json → list Z) : world :=
  World new_gateway 0 [] [] [] [] [] certificates version str_of.

Definition is_done (w : world) (t : nat) : bool :=
  match tasks w !! t with Some (Task _ (Done _)) => true | _ => false end.
Definition ctx_of (w : world) (t : nat) : ctx :=
  MkCtx (clock w) t (length (tasks w)) (is_done w) (certificates_on w) (version_text w) (str_of w).

Definition with_tasks (g : HelperGateway) (ts : list task) (w : world) : world :=
  World g (clock w) ts (calls w) (threads w) (queue w) (log w) (certificates_on w) (version_text w) (str_of w).
Definition with_calls (cs : list call) (th q : list nat) (l : list (nat * Response)) (w : world) : world :=
  World (gateway w) (clock w) (tasks w) cs th q l (certificates_on w) (version_text w) (str_of w).

(** A call is made: its thread starts. *)
Definition make_call (request : call) (w : world) : world :=
  with_calls (calls w ++ [request]) (threads w ++ [length (calls w)]) (queue w) (log w) w.

(** The end of a segment of the task [t]. *)
Definition perform (t : nat) (j : job) (w : world) (ga : HelperGateway * action) : world :=
  let '(g, a) := ga in
  let set j s := with_tasks g (<[t := Task j s]> (tasks w)) w in
  match a with
  | Finish r => set j (Done r)
  | CallHelper request j => make_call request (set j (OnCall (length (calls w))))
  | Spawn child request j =>
      make_call request
        (with_tasks g (<[t := Task j (OnTask (length (tasks w)))]> (tasks w)
                       ++ [Task child (OnCall (length (calls w)))]) w)
  | WaitTask t' j => set j (OnTask t')
  | WaitTasks ts j => set j (OnTasks ts)
  | WaitLock j => set j OnLock
  end.

Inductive event : Type :=
| Start (j : job)                (* the web process calls a method *)
| Wake (t : nat)                 (* what the task waited for is there *)
| Connect (c : nat)              (* a call's thread reaches the helper *)
| Serve (response : Response)    (* the helper answers the first of its line *)
| Settle (t : nat)               (* the answer reaches the task *)
| Break (t : nat) (e : exc)      (* the call fails: its transport, or the request *)
| Cancel (t : nat)               (* the client of an HTTP request went away *)
| Forget (t : nat)               (* a done mutation's callback leaves the sets *)
| Tick (d : Z).

Definition forget (t : nat) (g : HelperGateway) : HelperGateway :=
  let a := accounts g in
  let m := messages g in
  set_accounts (Accounts (account_cache a) (account_flight a) (account_generation a)
                  (account_mutations_inflight a) (List.filter (λ t', negb (t' =? t)%nat) (account_mutation_tasks a))
                  (account_cache_quarantined a))
    (set_messages (Messages (message_list_cache m) (message_account_generation m) (message_mailbox_generation m)
                     (message_mutations_inflight m)
                     (λ s, List.filter (λ t', negb (t' =? t)%nat) (message_mutation_tasks m s))
                     (message_cache_quarantined m)) g).

Definition find_response (c : nat) (l : list (nat * Response)) : option Response := dget c l.

(** [None]: the event cannot happen. *)
Definition step (w : world) (e : event) : option world :=
  match e with
  | Start j => Some (with_tasks (gateway w) (tasks w ++ [Task j Ready]) w)
  | Wake t =>
      let begin j := Some (perform t j w (begin (ctx_of w t) j (gateway w))) in
      match tasks w !! t with
      | Some (Task j Ready) => begin j
      | Some (Task j (OnTask t')) =>
          match tasks w !! t' with
          | Some (Task _ (Done r)) => Some (perform t j w (resume_join (ctx_of w t) j r (gateway w)))
          | _ => None
          end
      | Some (Task j (OnTasks ts)) => if forallb (is_done w) ts then begin j else None
      | Some (Task j OnLock) => if health_lock (gateway w) then None else begin j
      | _ => None
      end
  | Connect c =>
      if bool_decide (c ∈ threads w)
      then Some (with_calls (calls w) (List.filter (λ c', negb (c' =? c)%nat) (threads w)) (queue w ++ [c]) (log w) w)
      else None
  | Serve response =>
      match queue w with
      | c :: q => Some (with_calls (calls w) (threads w) q (log w ++ [(c, response)]) w)
      | [] => None
      end
  | Settle t =>
      match tasks w !! t with
      | Some (Task j (OnCall c)) =>
          match find_response c (log w) with
          | Some response =>
              Some (perform t j w (resume_call (ctx_of w t) j (exn (_checked_result response)) (gateway w)))
          | None => None
          end
      | _ => None
      end
  | Break t e =>
      match tasks w !! t with
      | Some (Task j (OnCall c)) =>
          let w := with_calls (calls w) (List.filter (λ c', negb (c' =? c)%nat) (threads w)) (queue w) (log w) w in
          Some (perform t j w (resume_call (ctx_of w t) j (Err (Exn e)) (gateway w)))
      | _ => None
      end
  | Cancel t =>
      match tasks w !! t with
      | Some (Task j s) =>
          if is_wrapper j then None
          else match s with
          | Done _ => None
          | OnCall _ => Some (perform t j w (resume_call (ctx_of w t) j (Err CancelledError) (gateway w)))
          | OnTask _ => Some (perform t j w (resume_join (ctx_of w t) j (Err CancelledError) (gateway w)))
          | _ => Some (perform t j w (gateway w, Finish (Err CancelledError)))
          end
      | None => None
      end
  | Forget t => if is_done w t then Some (with_tasks (forget t (gateway w)) (tasks w) w) else None
  | Tick d => if 0 <=? d
              then Some (World (gateway w) (clock w + d) (tasks w) (calls w) (threads w) (queue w) (log w)
                           (certificates_on w) (version_text w) (str_of w))
              else None
  end.

Fixpoint run (w : world) (es : list event) : option world :=
  match es with
  | [] => Some w
  | e :: es => match step w e with Some w => run w es | None => None end
  end.

(** ** The methods *)

Notation params := (list (string * json)).
Notation str := (list Z).

Definition keep (_ : json) : list invalidation := [].
Definition mapping (v : json) : result gexc json := exn (_mapping v).
(** One call, whose answer is a mapping; [_request] drops nothing. *)
Definition _request (op : string) (ps : params) (auth_token : token) : job :=
  Method [] (Ok (_call op ps auth_token)) [] Exn mapping keep.
(** ... with [finally: self._session_cache.clear()]. *)
Definition _session_request (op : string) (ps : params) (auth_token : token) : job :=
  Method [] (Ok (_call op ps auth_token)) [DropSessions] Exn mapping keep.
(** The methods that return [None], or the answer itself. *)
Definition returns_none (_ : json) : result gexc json := Ok JNull.
Definition returns_answer (v : json) : result gexc json := Ok v.

Definition begin_password_login (email password client_ip : str) : job :=
  _request "auth.password_begin"
    [("email", JStr email); ("password", JStr password); ("client_ip", JStr client_ip)]%string None.
Definition begin_totp_enrollment (challenge : str) : job :=
  _request "auth.enrollment_begin" [("challenge", JStr challenge)]%string None.
Definition complete_totp_enrollment (challenge code client_ip user_agent : str) : job :=
  _request "auth.enrollment_complete"
    [("challenge", JStr challenge); ("code", JStr code); ("client_ip", JStr client_ip);
     ("user_agent", JStr user_agent)]%string None.
Definition complete_totp_login (challenge code client_ip user_agent : str) : job :=
  _request "auth.totp_complete"
    [("challenge", JStr challenge); ("code", JStr code); ("client_ip", JStr client_ip);
     ("user_agent", JStr user_agent)]%string None.
Definition complete_recovery_login (challenge recovery_code client_ip user_agent : str) : job :=
  _request "auth.recovery_complete"
    [("challenge", JStr challenge); ("recovery_code", JStr recovery_code); ("client_ip", JStr client_ip);
     ("user_agent", JStr user_agent)]%string None.
Definition begin_passkey_login (client_ip : str) : job :=
  _request "auth.passkey_login_begin" [("client_ip", JStr client_ip)]%string None.
Definition complete_passkey_login (challenge : str) (credential : json) (client_ip user_agent : str) : job :=
  _request "auth.passkey_login_complete"
    [("challenge", JStr challenge); ("credential", credential); ("client_ip", JStr client_ip);
     ("user_agent", JStr user_agent)]%string None.

Definition peek_session (auth_token : str) : job := _request "auth.session_peek" [] (Some auth_token).

Definition logout (auth_token : str) : job :=
  match _authorization_cache_key (Some auth_token) with
  | Ok key => Method [DropSession key] (Ok (_call "auth.logout" [] (Some auth_token))) [DropSession key] Exn
                returns_none keep
  | Err e => Const (Err (Exn e))
  end.

Definition change_own_password (auth : token) (current_password new_password client_ip : str) : job :=
  _session_request "auth.change_password"
    [("current_password", JStr current_password); ("new_password", JStr new_password);
     ("client_ip", JStr client_ip)]%string auth.
Definition regenerate_recovery_codes (auth : token) (password code client_ip : str) : job :=
  _session_request "auth.recovery_regenerate"
    [("password", JStr password); ("code", JStr code); ("client_ip", JStr client_ip)]%string auth.
Definition step_up (auth : token) (password code client_ip : str) : job :=
  _session_request "auth.step_up"
    [("password", JStr password); ("code", JStr code); ("client_ip", JStr client_ip)]%string auth.
Definition list_passkeys (auth : token) : job := _request "auth.passkeys_list" [] auth.
Definition begin_passkey_registration (auth : token) : job := _request "auth.passkey_register_begin" [] auth.
Definition complete_passkey_registration (auth : token) (challenge : str) (credential : json) (name : str) : job :=
  _request "auth.passkey_register_complete"
    [("challenge", JStr challenge); ("credential", credential); ("name", JStr name)]%string auth.
Definition delete_passkey (auth : token) (passkey_id : str) : job :=
  _request "auth.passkey_delete" [("passkey_id", JStr passkey_id); ("confirm", JBool true)]%string auth.
Definition begin_passkey_step_up (auth : token) : job := _request "auth.passkey_step_up_begin" [] auth.
Definition complete_passkey_step_up (auth : token) (challenge : str) (credential : json) : job :=
  _session_request "auth.passkey_step_up_complete"
    [("challenge", JStr challenge); ("credential", credential)]%string auth.
Definition list_sessions (auth : token) : job := _request "auth.sessions_list" [] auth.
Definition revoke_session (auth : token) (session_id : str) : job :=
  _session_request "auth.session_revoke_other"
    [("session_id", JStr session_id); ("confirm", JBool true)]%string auth.
Definition rotate_account_totp (auth : token) (account : str) : job :=
  _session_request "auth.admin_rotate_totp"
    [("target_account_id", JStr account); ("confirm", JBool true)]%string auth.

Definition create_account (auth : token) (username password : str) : job :=
  AccountMutation [] (_call "accounts.create" [("username", JStr username); ("password", JStr password)]%string auth)
    [] false.
Definition change_password (auth : token) (account password : str) : job :=
  AccountMutation []
    (_call "accounts.change_password" [("target_account_id", JStr account); ("password", JStr password)]%string auth)
    [DropSessions] true.
Definition set_append_limit (auth : token) (account : str) (limit : Z) : job :=
  AccountMutation []
    (_call "accounts.set_append_limit" [("target_account_id", JStr account); ("value", JInt limit)]%string auth)
    [] true.
Definition disable_credentials (auth : token) (account : str) : job :=
  AccountMutation []
    (_call "accounts.disable_credentials" [("target_account_id", JStr account); ("confirm", JBool true)]%string auth)
    [DropSessions] true.
Definition delete_mailbox (auth : token) (account : str) : job :=
  AccountMutation [DropMailboxes account; DropMessages account None]
    (_call "accounts.delete_imap_account" [("target_account_id", JStr account); ("confirm", JBool true)]%string auth)
    [DropMailboxes account; DropMessages account None; DropSessions] true.

(** [_mailbox_mutation] with what its callers drop around it. *)
Definition _mailbox_mutation (auth : token) (account : str) (op : string) (ps : params)
    (before finally : list invalidation) (check : json → result gexc json)
    (following : json → list invalidation) : job :=
  Method (before ++ [DropMailboxes account]) (Ok (_call op ps auth)) (DropMailboxes account :: finally) Exn
    check following.

Definition create_mailbox (auth : token) (account mailbox : str) : job :=
  _mailbox_mutation auth account "mailboxes.create"
    [("target_account_id", JStr account); ("mailbox", JStr mailbox)]%string [] [] returns_none keep.
Definition rename_mailbox (auth : token) (account old_name new_name : str) : job :=
  _mailbox_mutation auth account "mailboxes.rename"
    [("target_account_id", JStr account); ("old_name", JStr old_name); ("new_name", JStr new_name)]%string
    [DropMessages account (Some old_name); DropMessages account (Some new_name)] [] returns_none keep.

(** The non-empty text under [target] of a mapping. *)
Definition target_of (v : json) : result exc json :=
  v ← _mapping v;
  match get_field "target" v with JStr ((_ :: _) as t) => Ok (JStr t) | _ => Err invalid_response end.
Definition target (v : json) : result gexc json := exn (target_of v).
Definition drop_target (account : str) (v : json) : list invalidation :=
  match v with JStr t => [DropMessages account (Some t)] | _ => [] end.

Definition delete_named_mailbox (auth : token) (account mailbox disposition : str) (target_mailbox : option str)
    : job :=
  let drops := DropMessages account (Some mailbox)
               :: match target_mailbox with
                  | Some t => [DropMessages account (Some t)]
                  | None => if str_eqb disposition (u "trash") then [DropMessages account None] else []
                  end in
  _mailbox_mutation auth account "mailboxes.delete"
    ([("target_account_id", JStr account); ("mailbox", JStr mailbox); ("disposition", JStr disposition);
      ("confirm", JBool true)]%string
     ++ match target_mailbox with Some t => [("target"%string, JStr t)] | None => [] end)
    drops drops target (drop_target account).

Definition _rules_request (auth : token) (op : string) (ps : params) (check : json → result exc json) : job :=
  Method [] (Ok (_call op ps auth)) [] Exn (λ v, exn (check v)) keep.
Definition list_mail_rules (auth : token) (account : str) : job :=
  _rules_request auth "rules.list" [("target_account_id", JStr account)]%string _mail_rules_result.
Definition create_mail_rule (auth : token) (account name : str) (enabled : bool) (match_condition : json)
    (target_mailbox : str) (stop_processing apply_existing : bool) : job :=
  _rules_request auth "rules.create"
    [("target_account_id", JStr account); ("name", JStr name); ("enabled", JBool enabled);
     ("match", match_condition); ("target_mailbox", JStr target_mailbox);
     ("stop_processing", JBool stop_processing); ("apply_existing", JBool apply_existing)]%string _mail_rules_result.
Definition update_mail_rule (auth : token) (account rule_id name : str) (enabled : bool) (match_condition : json)
    (target_mailbox : str) (stop_processing : bool) (expected_revision : Z) : job :=
  _rules_request auth "rules.update"
    [("target_account_id", JStr account); ("rule_id", JStr rule_id); ("name", JStr name);
     ("enabled", JBool enabled); ("match", match_condition); ("target_mailbox", JStr target_mailbox);
     ("stop_processing", JBool stop_processing); ("expected_revision", JInt expected_revision)]%string
    _mail_rules_result.
Definition delete_mail_rule (auth : token) (account rule_id : str) : job :=
  _rules_request auth "rules.delete" [("target_account_id", JStr account); ("rule_id", JStr rule_id)]%string
    (λ v, _mail_rules_result v ≫= (λ _, Ok JNull)).
Definition reorder_mail_rules (auth : token) (account : str) (rule_ids : list str) : job :=
  _rules_request auth "rules.reorder"
    [("target_account_id", JStr account); ("rule_ids", JArr (JStr <$> rule_ids))]%string _mail_rules_result.
Definition create_mail_rule_run (auth : token) (account rule_id : str) : job :=
  _rules_request auth "rules.run_create" [("target_account_id", JStr account); ("rule_id", JStr rule_id)]%string
    _mail_rules_result.
Definition get_mail_rule_run (auth : token) (account run_id : str) : job :=
  _rules_request auth "rules.run_status" [("target_account_id", JStr account); ("run_id", JStr run_id)]%string
    _mail_rules_result.
Definition step_mail_rule_run (auth : token) (account run_id : str) : job :=
  MailRuleStep account
    (_call "rules.run_step" [("target_account_id", JStr account); ("run_id", JStr run_id)]%string auth).
Definition cancel_mail_rule_run (auth : token) (account run_id : str) : job :=
  _rules_request auth "rules.run_cancel" [("target_account_id", JStr account); ("run_id", JStr run_id)]%string
    _mail_rules_result.

(** The [uid] of a mapping, an integer of the range of message identifiers. *)
Definition uid_of (v : json) : result exc json :=
  v ← _mapping v;
  match get_field "uid" v with
  | JInt n => if (0 <=? n) && (n <=? 2 ^ 32 - 1) then Ok (JInt n) else Err invalid_response
  | _ => Err invalid_response
  end.
Definition latest_message_uid (auth : token) (account mailbox : str) : job :=
  Method [] (Ok (_call "messages.latest" [("target_account_id", JStr account); ("mailbox", JStr mailbox)]%string auth))
    [] Exn (λ v, exn (uid_of v)) (λ _, [DropMessages account (Some mailbox)]).

(** [spool_message], whose stream writes [size] bytes to the destination; opening
    that file is the operating system's, and its failure breaks the call. *)
Definition spool_message (auth : token) (account mailbox message_id : str) (max_bytes size : Z) : job :=
  Method []
    (if (1 <=? max_bytes) && (max_bytes <=? DEFAULT_MAX_STREAM_BYTES)
     then Ok (_call "messages.get" [("target_account_id", JStr account); ("mailbox", JStr mailbox);
                                    ("uid", JStr message_id)]%string auth)
     else Err ValueError) [] Exn
    (λ _, if max_bytes <? size then Err (Exn (HelperCallError (u "limit_exceeded"))) else Ok (JInt size)) keep.

(** The bodies the moves and the flag changes share. *)
Definition _move (auth : token) (account mailbox : str) (which : string * result exc str)
    (target : string * str) (drops : list invalidation) (following : json → list invalidation) : job :=
  let drops := DropMessages account (Some mailbox) :: drops in
  Method drops
    (uid ← which.2;
     Ok (_call "messages.move" [("target_account_id"%string, JStr account); ("source"%string, JStr mailbox);
                                (which.1, JStr uid); (target.1, JStr target.2)] auth))
    drops Exn (λ v, exn (target_of v)) following.
Definition uid_param (message_id : str) : string * result exc str := ("uid"%string, _single_uid message_id).
Definition uid_set_param (ids : option (list str)) : string * result exc str := ("uid_set"%string, _uid_set ids).

Definition move_message_to_trash (auth : token) (account mailbox message_id : str) : job :=
  _move auth account mailbox (uid_param message_id) ("target_special"%string, u "trash") [] (drop_target account).
Definition move_message_to_archive (auth : token) (account mailbox message_id : str) : job :=
  _move auth account mailbox (uid_param message_id) ("target_special"%string, u "archive") [] (drop_target account).
Definition move_message (auth : token) (account mailbox message_id target : str) : job :=
  _move auth account mailbox (uid_param message_id) ("target"%string, target)
    [DropMessages account (Some target)] keep.
Definition move_messages (auth : token) (account mailbox : str) (ids : list str) (target : str) : job :=
  _move auth account mailbox (uid_set_param (Some ids)) ("target"%string, target)
    [DropMessages account (Some target)] keep.
Definition _move_messages (auth : token) (account mailbox : str) (ids : list str) (target_special : str) : job :=
  _move auth account mailbox (uid_set_param (Some ids)) ("target_special"%string, target_special) []
    (drop_target account).
Definition move_messages_to_trash (auth : token) (account mailbox : str) (ids : list str) : job :=
  _move_messages auth account mailbox ids (u "trash").
Definition move_messages_to_archive (auth : token) (account mailbox : str) (ids : list str) : job :=
  _move_messages auth account mailbox ids (u "archive").

Definition _set_seen (auth : token) (account mailbox : str) (uid_set : result exc str) (seen : bool) : job :=
  Method [DropMessages account (Some mailbox)]
    (uid_set ← uid_set;
     Ok (_call (if seen then "messages.add_flags" else "messages.remove_flags")%string
           [("target_account_id", JStr account); ("mailbox", JStr mailbox); ("uid_set", JStr uid_set);
            ("flags", JArr [JStr (u "\Seen")])]%string auth))
    [DropMessages account (Some mailbox)] Exn returns_none keep.
Definition set_message_seen (auth : token) (account mailbox message_id : str) (seen : bool) : job :=
  _set_seen auth account mailbox (_single_uid message_id) seen.
Definition set_messages_seen (auth : token) (account mailbox : str) (ids : option (list str)) (seen : bool) : job :=
  _set_seen auth account mailbox (_uid_set ids) seen.

Definition delete_message_permanently (auth : token) (account mailbox message_id : str) : job :=
  MessageMutation (account, mailbox)
    (uid ← _single_uid message_id;
     Ok (_call "messages.delete" [("target_account_id", JStr account); ("mailbox", JStr mailbox);
                                  ("uid", JStr uid); ("confirm", JBool true)]%string auth)).
Definition delete_messages_permanently (auth : token) (account mailbox : str) (ids : list str) : job :=
  MessageMutation (account, mailbox)
    (uid_set ← _uid_set (Some ids);
     Ok (_call "messages.delete_many" [("target_account_id", JStr account); ("mailbox", JStr mailbox);
                                       ("uid_set", JStr uid_set); ("confirm", JBool true)]%string auth)).

(** [certificate_status]: [str_of] is [str] of what is no string. *)
Definition certificate_record (str_of : json → list Z) (record : json) : json :=
  let sub k := match get_field k record with JObj d => JObj d | _ => JNull end in
  JObj ((λ p, (u p.1, p.2)) <$>
    [("name", JStr (match get_field "name" record with
                    | JStr s => s
                    | v => match record with
                           | JObj d => match obj_get (u "name") d with Some _ => str_of v | None => [] end
                           | _ => []
                           end
                    end));
     ("expires", match sub "source"%string with
                 | JObj d => default (JStr []) (obj_get (u "not_after") d) | _ => JStr [] end);
     ("source_fingerprint", match sub "source"%string with
                            | JObj d => default (JStr []) (obj_get (u "sha256_fingerprint") d) | _ => JStr [] end);
     ("deployed_fingerprint", match sub "deployed"%string with
                              | JObj d => default (JStr []) (obj_get (u "sha256_fingerprint") d) | _ => JStr [] end);
     ("fingerprints_match", JBool (is_true (get_field "fingerprints_match" record)));
     ("automation_safe", JBool (is_true (get_field "automation_safe" record)))]%string).

(** [if not timer]: the first non-empty mapping, or the last empty one. *)
Fixpoint first_timer (records : list json) : json :=
  match records with
  | [] => JObj []
  | r :: records => match get_field "timer" r with
                    | JObj ((_ :: _) as d) => JObj d
                    | _ => first_timer records
                    end
  end.
Definition certificate_summary (str_of : json → list Z) (v : json) : result exc json :=
  records ← _sequence v;
  records ← result_map _mapping records;
  let timer := first_timer records in
  Ok (JObj ((λ p, (u p.1, p.2)) <$>
    [("certificates", JArr (certificate_record str_of <$> records));
     ("timer_enabled", JBool (is_true (get_field "enabled" timer)));
     ("timer_active", JBool (is_true (get_field "active" timer)));
     ("timer_state", JStr (match timer with
                           | JObj d => match obj_get (u "active_state") d with
                                       | Some (JStr s) => s | Some v => str_of v | None => u "unknown" end
                           | _ => u "unknown"
                           end));
     ("timer_enable_safe", JBool (negb (bool_decide (length records = 0%nat))
                                  && forallb (λ r, is_true (get_field "timer_enable_safe" r)) records))]%string)).
Definition certificate_status (enabled : bool) (str_of : json → list Z) (auth : token) : job :=
  if enabled then Method [] (Ok (_call "certificates.list" [] auth)) [] Exn (λ v, exn (certificate_summary str_of v)) keep
  else Const (Ok (JObj ((λ p, (u p.1, p.2)) <$>
         [("certificates", JArr []); ("timer_enabled", JBool false); ("timer_active", JBool false);
          ("timer_state", JStr (u "disabled"))]%string))).
Definition set_certificate_timer (auth : token) (enabled : bool) : job :=
  Method [] (Ok (_call (if enabled then "certificates.timer_enable" else "certificates.timer_disable")%string
                   [("confirm", JBool true)]%string auth)) [] Exn returns_none keep.
Definition certificate_dry_run (auth : token) (name : str) : job :=
  Method [] (Ok (_call "certificates.renew_dry_run" [("name", JStr name)]%string auth)) [] Exn returns_answer keep.
Definition renew_certificate_if_due (auth : token) (name : str) : job :=
  Method [] (Ok (_call "certificates.renew" [("name", JStr name); ("confirm", JBool true)]%string auth)) [] Exn
    returns_answer keep.

(** [deliver_message]: a framed error of the helper is a rejection, an unknown
    outcome is not, and neither is a failure of the transport. *)
Definition _SMTP_AUTH_PUBLIC_MESSAGE : list Z :=
  u "Authentication for the selected sending account was rejected. Check its mailbox password and confirm that credentials are enabled, then try again. The message was not submitted.".
Definition delivery_error (e : exc) : gexc :=
  match e with
  | HelperCallError c =>
      if str_eqb c (u "smtp_outcome_unknown") then Exn DeliveryUncertain
      else Rejected (if str_eqb c (u "smtp_authentication_rejection") then Some _SMTP_AUTH_PUBLIC_MESSAGE else None)
  | e => Exn e
  end.
Definition accepted (message_id : json) (v : json) : result gexc json :=
  match _mapping v with
  | Err e => Err (delivery_error e)
  | Ok v => if is_true (get_field "accepted" v) then Ok message_id else Err (Exn DeliveryUncertain)
  end.
Definition target_param (target : option str) : params :=
  match target with Some t => [("target_account_id"%string, JStr t)] | None => [] end.
Definition deliver_message (auth : token) (target : option str) (size : Z) (message_id : json)
    (envelope_from : str) (recipients : list str) (submission_password : str) : job :=
  Method []
    (_upload "messages.send"
       ([("password", JStr submission_password); ("mail_from", JStr envelope_from);
         ("recipients", JArr (JStr <$> recipients))]%string ++ target_param target) auth size)
    [] delivery_error (accepted message_id) keep.
Definition save_sent (auth : token) (target : option str) (size : Z) : job :=
  let drops := match target with Some t => [DropMessages t None] | None => [] end in
  Method drops
    (_upload "messages.append"
       ([("mailbox_special", JStr (u "sent")); ("flags", JArr [JStr (u "\Seen")])]%string ++ target_param target)
       auth size)
    drops Exn returns_none keep.

(** What the web process may call: every public method. *)
Inductive public : job → Prop :=
| pub_begin_password_login e p i : public (begin_password_login e p i)
| pub_begin_totp_enrollment c : public (begin_totp_enrollment c)
| pub_complete_totp_enrollment c o i a : public (complete_totp_enrollment c o i a)
| pub_complete_totp_login c o i a : public (complete_totp_login c o i a)
| pub_complete_recovery_login c r i a : public (complete_recovery_login c r i a)
| pub_begin_passkey_login i : public (begin_passkey_login i)
| pub_complete_passkey_login c d i a : public (complete_passkey_login c d i a)
| pub_session t : public (Session t)
| pub_peek_session t : public (peek_session t)
| pub_logout t : public (logout t)
| pub_change_own_password t c n i : public (change_own_password t c n i)
| pub_regenerate_recovery_codes t p c i : public (regenerate_recovery_codes t p c i)
| pub_step_up t p c i : public (step_up t p c i)
| pub_list_passkeys t : public (list_passkeys t)
| pub_begin_passkey_registration t : public (begin_passkey_registration t)
| pub_complete_passkey_registration t c d n : public (complete_passkey_registration t c d n)
| pub_delete_passkey t k : public (delete_passkey t k)
| pub_begin_passkey_step_up t : public (begin_passkey_step_up t)
| pub_complete_passkey_step_up t c d : public (complete_passkey_step_up t c d)
| pub_list_sessions t : public (list_sessions t)
| pub_revoke_session t i : public (revoke_session t i)
| pub_rotate_account_totp t a : public (rotate_account_totp t a)
| pub_health t : public (Health t)
| pub_list_accounts t : public (ListAccounts t)
| pub_create_account t n p : public (create_account t n p)
| pub_change_password t a p : public (change_password t a p)
| pub_set_append_limit t a l : public (set_append_limit t a l)
| pub_disable_credentials t a : public (disable_credentials t a)
| pub_delete_mailbox t a : public (delete_mailbox t a)
| pub_list_mailboxes t a : public (ListMailboxes t a)
| pub_create_mailbox t a b : public (create_mailbox t a b)
| pub_rename_mailbox t a o n : public (rename_mailbox t a o n)
| pub_delete_named_mailbox t a b d o : public (delete_named_mailbox t a b d o)
| pub_list_mail_rules t a : public (list_mail_rules t a)
| pub_create_mail_rule t a n e m b s x : public (create_mail_rule t a n e m b s x)
| pub_update_mail_rule t a r n e m b s x : public (update_mail_rule t a r n e m b s x)
| pub_delete_mail_rule t a r : public (delete_mail_rule t a r)
| pub_reorder_mail_rules t a r : public (reorder_mail_rules t a r)
| pub_create_mail_rule_run t a r : public (create_mail_rule_run t a r)
| pub_get_mail_rule_run t a r : public (get_mail_rule_run t a r)
| pub_step_mail_rule_run t a r : public (step_mail_rule_run t a r)
| pub_cancel_mail_rule_run t a r : public (cancel_mail_rule_run t a r)
| pub_list_messages t s l o : public (ListMessages t s l o)
| pub_latest_message_uid t a b : public (latest_message_uid t a b)
| pub_spool_message t a b m x n : public (spool_message t a b m x n)
| pub_move_message_to_trash t a b m : public (move_message_to_trash t a b m)
| pub_move_message_to_archive t a b m : public (move_message_to_archive t a b m)
| pub_move_message t a b m o : public (move_message t a b m o)
| pub_set_message_seen t a b m s : public (set_message_seen t a b m s)
| pub_set_messages_seen t a b m s : public (set_messages_seen t a b m s)
| pub_move_messages_to_trash t a b m : public (move_messages_to_trash t a b m)
| pub_move_messages_to_archive t a b m : public (move_messages_to_archive t a b m)
| pub_move_messages t a b m o : public (move_messages t a b m o)
| pub_delete_message_permanently t a b m : public (delete_message_permanently t a b m)
| pub_delete_messages_permanently t a b m : public (delete_messages_permanently t a b m)
| pub_certificate_status e f t : public (certificate_status e f t)
| pub_set_certificate_timer t e : public (set_certificate_timer t e)
| pub_certificate_dry_run t n : public (certificate_dry_run t n)
| pub_renew_certificate_if_due t n : public (renew_certificate_if_due t n)
| pub_deliver_message t a s m f r p : public (deliver_message t a s m f r p)
| pub_save_sent t a s : public (save_sent t a s).

(** Any interleaving of the methods, whatever the transport and the helper do. *)
Inductive reachable (w0 : world) : world → Prop :=
| reach_start : reachable w0 w0
| reach_step w e w' : reachable w0 w → (∀ j, e = Start j → public j) → step w e = Some w' → reachable w0 w'.
