(* ===== verification/GatewaySpecs.v ===== *)
(** * Coherence of the gateway's caches

    Accounts and message lists are read under one protocol: a mutation of their
    lane bumps the lane's generation and is counted until its call settles, and a
    reader trusts an answer only when nothing was counted and the generation has
    not moved since its call was made.  [Inv] is the invariant of all interleavings
    of [Gateway]; the theorems are that what a reader returns was answered after
    every mutation of its lane, and that no reader loses track of mutations. *)

From stdpp Require Import functions.
From S2P Require Import Prelude Text Errors Json Totp Protocol Gateway.
#[local] Open Scope Z_scope.

(** ** Lanes *)

Inductive lane : Type := AccountLane | MessageLane (s : scope).
#[export] Instance lane_eq_dec : EqDecision lane.
Proof. solve_decision. Defined.

(** The calls that change what the readers of a lane are told, and that the
    gateway counts. *)
Definition account_operations : list (list Z) :=
  u <$> ["accounts.create"; "accounts.change_password"; "accounts.set_append_limit";
         "accounts.disable_credentials"; "accounts.delete_imap_account"]%string.
Definition field_is (k : string) (v : list Z) (rq : call) : bool :=
  match obj_get (u k) (c_params rq) with Some (JStr s) => str_eqb s v | _ => false end.
Definition mutates (l : lane) (rq : call) : bool :=
  match l with
  | AccountLane => existsb (str_eqb (c_operation rq)) account_operations
  | MessageLane s =>
      existsb (str_eqb (c_operation rq)) (u <$> ["messages.delete"; "messages.delete_many"]%string)
      && field_is "target_account_id" s.1 rq && field_is "mailbox" s.2 rq
  end.

Definition inflight (l : lane) (g : HelperGateway) : Z :=
  match l with
  | AccountLane => account_mutations_inflight (accounts g)
  | MessageLane s => message_mutations_inflight (messages g) s
  end.
Definition generation (l : lane) (g : HelperGateway) : Z * Z :=
  match l with
  | AccountLane => (account_generation (accounts g), 0)
  | MessageLane s => _message_generation s (messages g)
  end.
Definition tracked (l : lane) (g : HelperGateway) : list nat :=
  match l with
  | AccountLane => account_mutation_tasks (accounts g)
  | MessageLane s => message_mutation_tasks (messages g) s
  end.
Definition gen_le (a b : Z * Z) : Prop := a.1 ≤ b.1 ∧ a.2 ≤ b.2.

(** A task that runs a counted mutation. *)
Definition running (l : lane) (x : task) : bool :=
  match x with
  | Task RunAccountMutation (OnCall _) => bool_decide (l = AccountLane)
  | Task (RunMessageMutation s) (OnCall _) => bool_decide (l = MessageLane s)
  | _ => false
  end.
Definition count (l : lane) (ts : list task) : Z := zlen (List.filter (running l) ts).

(** ** Order of the calls *)

Definition order (w : world) : list nat := (log w).*1 ++ queue w.
Definition mutation (l : lane) (w : world) (c : nat) : Prop := ∃ rq, calls w !! c = Some rq ∧ mutates l rq = true.

(** No mutation of the lane can be served after the call [c]. *)
Definition quiet (l : lane) (c : nat) (w : world) : Prop :=
  (∀ m, m ∈ threads w → ¬ mutation l w m)
  ∧ (∀ l1 l2, order w = l1 ++ c :: l2 → ∀ m, m ∈ l2 → ¬ mutation l w m).

(** Every call is in one place only. *)
Definition placed (w : world) : Prop :=
  NoDup (threads w ++ order w) ∧ ∀ c, c ∈ threads w ++ order w → (c < length (calls w))%nat.

(** What one world keeps of another: calls keep their names, answers stay, and a
    quiet call stays quiet. *)
Definition calm (l : lane) (w w' : world) : Prop :=
  (∃ cs, calls w' = calls w ++ cs) ∧ (∀ a, a ∈ log w → a ∈ log w')
  ∧ ∀ c, (c < length (calls w))%nat → quiet l c w → quiet l c w'.

Lemma mutation_extend l w w' cs c :
  calls w' = calls w ++ cs → (c < length (calls w))%nat → mutation l w' c → mutation l w c.
Proof. intros Hc Hlt (rq & Hr & Hm). exists rq. split; [|done]. by rewrite Hc, lookup_app_l in Hr. Qed.

Lemma calm_same l w w' :
  calls w' = calls w → threads w' = threads w → order w' = order w → (∀ a, a ∈ log w → a ∈ log w') →
  calm l w w'.
Proof.
  intros Hc Ht Ho Hl. split; [exists []; by rewrite app_nil_r|]. split; [done|].
  intros c _. unfold quiet, mutation. by rewrite Hc, Ht, Ho.
Qed.

Lemma calm_call l w rq :
  placed w → mutates l rq = false → calm l w (make_call rq w).
Proof.
  intros [_ Hp] Hrq. split; [by exists [rq]|]. split; [done|]. intros c Hc [Ht Ho]. split.
  - intros m. cbn [threads make_call with_calls]. intros [Hm|Hm]%elem_of_app (r & Hr & Hm').
    + apply (Ht m Hm). eapply (mutation_extend l w (make_call rq w) [rq]); [done| |by exists r].
      apply Hp, elem_of_app. by left.
    + apply list_elem_of_singleton in Hm as ->. cbn [calls make_call with_calls] in Hr.
      rewrite lookup_app_r, Nat.sub_diag in Hr by done. injection Hr as ->. congruence.
  - intros l1 l2 Hl m Hm Hmut. apply (Ho l1 l2 Hl m Hm).
    eapply (mutation_extend l w (make_call rq w) [rq]); [done| |done].
    apply Hp, elem_of_app. right. change (order (make_call rq w)) with (order w) in Hl. rewrite Hl.
    apply elem_of_app. right. by right.
Qed.

(** A new reader's call is quiet when no mutation of the lane is in a thread. *)
Lemma quiet_new l w rq :
  placed w → mutates l rq = false → (∀ m, m ∈ threads w → ¬ mutation l w m) →
  quiet l (length (calls w)) (make_call rq w).
Proof.
  intros Hw Hrq Ht. assert (quiet l (length (calls w)) w) as Hq.
  { split; [done|]. intros l1 l2 Hl. exfalso. destruct Hw as [_ Hp].
    assert (length (calls w) < length (calls w))%nat; [|lia].
    apply Hp, elem_of_app. right. rewrite Hl. apply elem_of_app. right. by left. }
  destruct Hq as [_ Ho]. split.
  - intros m. cbn [threads make_call with_calls]. intros [Hm|Hm]%elem_of_app (r & Hr & Hm').
    + apply (Ht m Hm). eapply (mutation_extend l w (make_call rq w) [rq]); [done| |by exists r].
      destruct Hw as [_ Hp]. apply Hp, elem_of_app. by left.
    + apply list_elem_of_singleton in Hm as ->. cbn [calls make_call with_calls] in Hr.
      rewrite lookup_app_r, Nat.sub_diag in Hr by done. injection Hr as ->. congruence.
  - intros l1 l2 Hl m Hm Hmut. apply (Ho l1 l2 Hl m Hm).
    eapply (mutation_extend l w (make_call rq w) [rq]); [done| |done].
    destruct Hw as [_ Hp]. apply Hp, elem_of_app. right. change (order (make_call rq w)) with (order w) in Hl.
    rewrite Hl. apply elem_of_app. right. by right.
Qed.

Lemma placed_call rq w : placed w → placed (make_call rq w).
Proof.
  intros [Hn Hp]. unfold placed. change (order (make_call rq w)) with (order w).
  cbn [threads calls make_call with_calls]. rewrite length_app. simpl. split.
  - rewrite <- app_assoc. apply NoDup_app. apply NoDup_app in Hn as (H1 & H2 & H3). split_and!; [done| |].
    + intros c Hc [?%list_elem_of_singleton|Ho]%elem_of_app; [|by eapply H2]. subst.
      assert (length (calls w) < length (calls w))%nat; [|lia]. apply Hp, elem_of_app. by left.
    + apply NoDup_cons. split; [|done]. intros Ho.
      assert (length (calls w) < length (calls w))%nat; [|lia]. apply Hp, elem_of_app. by right.
  - intros c. rewrite !elem_of_app, list_elem_of_singleton. intros [[Hc| ->]|Hc]; [|lia|].
    + assert (c < length (calls w))%nat; [apply Hp, elem_of_app; by left|lia].
    + assert (c < length (calls w))%nat; [apply Hp, elem_of_app; by right|lia].
Qed.

Definition dropped (c : nat) (l : list nat) : list nat := List.filter (λ c', negb (c' =? c)%nat) l.
Lemma elem_of_dropped c m l : m ∈ dropped c l ↔ m ∈ l ∧ m ≠ c.
Proof.
  unfold dropped. by rewrite list_elem_of_In, List.filter_In, <- list_elem_of_In, negb_true_iff, Nat.eqb_neq.
Qed.
Lemma dropped_NoDup c l : NoDup l → NoDup (dropped c l).
Proof. unfold dropped. rewrite !NoDup_ListNoDup. apply List.NoDup_filter. Qed.

Definition connected (c : nat) (w : world) : world :=
  with_calls (calls w) (dropped c (threads w)) (queue w ++ [c]) (log w) w.
Definition given_up (c : nat) (w : world) : world :=
  with_calls (calls w) (dropped c (threads w)) (queue w) (log w) w.
Definition answered (c : nat) (q : list nat) (r : Response) (w : world) : world :=
  with_calls (calls w) (threads w) q (log w ++ [(c, r)]) w.

Lemma order_connected c w : order (connected c w) = order w ++ [c].
Proof. unfold order. cbn. by rewrite app_assoc. Qed.
Lemma order_answered c q r w : queue w = c :: q → order (answered c q r w) = order w.
Proof. intros Hq. unfold order. cbn. rewrite Hq, fmap_app, <- app_assoc. done. Qed.

Lemma calm_connected l c w : placed w → c ∈ threads w → calm l w (connected c w).
Proof.
  intros [Hn Hp] Hc. split; [exists []; by rewrite app_nil_r|]. split; [done|].
  intros c0 Hlt [Ht Ho]. split.
  - intros m [Hm _]%elem_of_dropped. apply (Ht m Hm).
  - intros l1 l2. rewrite order_connected. intros Hl m Hm.
    induction l2 as [|y l2' _] using rev_ind; [by apply not_elem_of_nil in Hm|].
    rewrite app_comm_cons, app_assoc in Hl.
    apply app_inj_tail in Hl as [Hl <-]. apply elem_of_app in Hm as [Hm| ->%list_elem_of_singleton].
    + apply (Ho _ _ Hl m Hm).
    + by apply Ht.
Qed.
Lemma calm_given_up l c w : calm l w (given_up c w).
Proof.
  split; [exists []; by rewrite app_nil_r|]. split; [done|]. intros c0 _ [Ht Ho].
  split; [|done]. intros m [Hm _]%elem_of_dropped. apply (Ht m Hm).
Qed.
Lemma calm_answered l c q r w : queue w = c :: q → calm l w (answered c q r w).
Proof.
  intros Hq. apply calm_same; [done|done|by apply order_answered|]. intros a Ha. apply elem_of_app. by left.
Qed.

Lemma placed_connected c w : placed w → c ∈ threads w → placed (connected c w).
Proof.
  intros [Hn Hp] Hc. unfold placed. rewrite order_connected. apply NoDup_app in Hn as (H1 & H2 & H3).
  cbn [threads connected with_calls calls]. split.
  - apply NoDup_app. split_and!.
    + by apply dropped_NoDup.
    + intros m [Hm Hne]%elem_of_dropped [Ho|Ho%list_elem_of_singleton]%elem_of_app; [by eapply H2|done].
    + apply NoDup_app. split_and!; [done| |apply NoDup_singleton].
      intros m Hm ->%list_elem_of_singleton. by eapply H2.
  - intros m. rewrite !elem_of_app, elem_of_dropped, list_elem_of_singleton. intros [[Hm _]|[Hm| ->]]; apply Hp, elem_of_app; auto.
Qed.
Lemma placed_given_up c w : placed w → placed (given_up c w).
Proof.
  intros [Hn Hp]. unfold placed. change (order (given_up c w)) with (order w).
  cbn [threads given_up with_calls calls]. apply NoDup_app in Hn as (H1 & H2 & H3). split.
  - apply NoDup_app. split_and!; [by apply dropped_NoDup| |done]. intros m [Hm _]%elem_of_dropped. by apply H2.
  - intros m. rewrite elem_of_app, elem_of_dropped. intros [[Hm _]|Hm]; apply Hp, elem_of_app; auto.
Qed.
Lemma placed_answered c q r w : queue w = c :: q → placed w → placed (answered c q r w).
Proof. intros Hq. unfold placed. by rewrite (order_answered c q r w Hq). Qed.

(** ** What a reader may trust *)

(** The value was answered, to a question of this kind, after every mutation of
    the lane. *)
Definition fresh (l : lane) (question : call → Prop) (decode : result exc json → result exc json) (v : json)
    (w : world) : Prop :=
  ∃ c rq response, calls w !! c = Some rq ∧ question rq ∧ (c, response) ∈ log w
    ∧ decode (_checked_result response) = Ok v ∧ quiet l c w.

Definition accounts_question (key : list Z) (rq : call) : Prop :=
  c_operation rq = u "accounts.list" ∧ _authorization_cache_key (c_token rq) = Ok key.
Definition accounts_answer (answer : result exc json) : result exc json :=
  l ← _fetch_accounts answer; Ok (JArr l).
Definition messages_call (auth_token : token) (s : scope) (limit offset : Z) : call :=
  _call "messages.list" [("target_account_id", JStr s.1); ("mailbox", JStr s.2);
                         ("limit", JInt limit); ("offset", JInt offset)]%string auth_token.
Definition messages_question (key : message_key) (rq : call) : Prop :=
  ∃ auth_token, _authorization_cache_key auth_token = Ok key.1.1.1
    ∧ rq = messages_call auth_token (key_scope key) key.1.2 key.2.

(** A reader whose call [c] was made at a generation. *)
Definition reading (l : lane) (question : call → Prop) (gen : Z * Z) (c : nat) (w : world) : Prop :=
  gen_le gen (generation l (gateway w))
  ∧ (∃ rq, calls w !! c = Some rq ∧ question rq)
  ∧ (gen = generation l (gateway w) → inflight l (gateway w) = 0 ∧ quiet l c w).
(** A reader that has its answer. *)
Definition has_read (l : lane) (question : call → Prop) (decode : result exc json → result exc json)
    (gen : Z * Z) (v : json) (w : world) : Prop :=
  gen_le gen (generation l (gateway w))
  ∧ (gen = generation l (gateway w) → inflight l (gateway w) = 0 ∧ fresh l question decode v w).

Definition flight_ok (w : world) (f : _AccountFlight) : Prop :=
  ∃ s, tasks w !! fl_task f = Some (Task (RunAccountRead (fl_generation f) (fl_auth_key f)) s).

(** The calls a job has still to make are no mutation but its own. *)
Definition plain_call (rq : call) : Prop := ∀ l, mutates l rq = false.
Definition tame (j : job) : Prop :=
  match j with
  | Method _ (Ok rq) _ _ _ _ | MailRuleStep _ rq => plain_call rq
  | AccountMutation _ rq _ _ => ∀ s, mutates (MessageLane s) rq = false
  | MessageMutation s (Ok rq) => ∀ l, l ≠ MessageLane s → mutates l rq = false
  | Method _ (Err _) _ _ _ _ | MessageMutation _ (Err _) | Const _ | ListAccounts _ | ListMailboxes _ _
  | ListMessages _ _ _ _ | Session _ | Health _ => True
  | _ => False
  end.
Definition looping (j : job) : Prop :=
  match j with ListAccounts _ | ListMessages _ _ _ _ | Health _ => True | _ => False end.

Definition task_ok (w : world) (x : task) : Prop :=
  match t_state x with
  | Ready => tame (t_job x)
  | OnCall c =>
      (c < length (calls w))%nat
      ∧ match t_job x with
        | RunAccountRead gen key => reading AccountLane (accounts_question key) (gen, 0) c w
        | ReadMessages auth_token key gen =>
            _authorization_cache_key auth_token = Ok key.1.1.1
            ∧ reading (MessageLane (key_scope key)) (messages_question key) gen c w
        | _ => True
        end
  | OnTask t => match t_job x with
                | AwaitFlight auth_token f =>
                    t = fl_task f ∧ flight_ok w f ∧ _authorization_cache_key auth_token = Ok (fl_auth_key f)
                | _ => True
                end
  | OnTasks _ | OnLock => looping (t_job x)
  | Done (Ok v) => match t_job x with
                   | RunAccountRead gen key =>
                       has_read AccountLane (accounts_question key) accounts_answer (gen, 0) v w
                   | _ => True
                   end
  | Done (Err _) => True
  end.

(** What holds of a gateway's state beside the tasks and calls of a world. *)
Definition cache_ok (w : world) (g : HelperGateway) : Prop :=
  (∀ expires_at v key, account_cache (accounts g) = Some (expires_at, v, key) →
     inflight AccountLane g = 0 ∧ fresh AccountLane (accounts_question key) accounts_answer (JArr v) w)
  ∧ (∀ key expires_at v, (key, (expires_at, v)) ∈ message_list_cache (messages g) →
     inflight (MessageLane (key_scope key)) g = 0
     ∧ fresh (MessageLane (key_scope key)) (messages_question key) message_list v w).
Definition tracks (w : world) (g : HelperGateway) : Prop :=
  ∀ l t x, tasks w !! t = Some x → running l x = true → t ∈ tracked l g.
Definition flights_ok (w : world) (g : HelperGateway) : Prop :=
  ∀ f, account_flight (accounts g) = Some f → flight_ok w f.

Record Inv (w : world) : Prop := {
  inv_placed : placed w;
  inv_counts : ∀ l, inflight l (gateway w) = count l (tasks w);
  inv_threads : ∀ l m, m ∈ threads w → mutation l w m →
    ∃ t j, tasks w !! t = Some (Task j (OnCall m)) ∧ running l (Task j (OnCall m)) = true;
  inv_tracks : tracks w (gateway w);
  inv_cache : cache_ok w (gateway w);
  inv_flights : flights_ok w (gateway w);
  inv_tasks : ∀ t x, tasks w !! t = Some x → task_ok w x
}.

(** ** Preservation by changes of the world *)

Lemma fresh_calm l q d v w w' : calm l w w' → fresh l q d v w → fresh l q d v w'.
Proof.
  intros ([cs Hc] & Hl & Hq) (c & rq & r & Hrq & Hqr & Hr & Hd & Hqu). exists c, rq, r.
  split_and!; auto.
  - rewrite Hc. by apply lookup_app_l_Some.
  - apply Hq; [by eapply lookup_lt_Some|done].
Qed.

(** [g'] is a step of the gateway's state that no lane of [w] notices: counts stay,
    generations grow, and what is cached may be trusted. *)
Record harmless (w : world) (g' : HelperGateway) : Prop := {
  h_inflight : ∀ l, inflight l g' = inflight l (gateway w);
  h_generation : ∀ l, gen_le (generation l (gateway w)) (generation l g');
  h_tracks : tracks w g';
  h_cache : cache_ok w g';
  h_flights : flights_ok w g'
}.

Lemma gen_le_refl a : gen_le a a.
Proof. by split. Qed.
Lemma gen_le_trans a b c : gen_le a b → gen_le b c → gen_le a c.
Proof. intros [??] [??]. split; lia. Qed.
Lemma gen_le_antisym a b : gen_le a b → gen_le b a → a = b.
Proof. destruct a, b. intros [??] [??]. simpl in *. f_equal; lia. Qed.

Lemma running_insert l ts t x y :
  ts !! t = Some x → count l (<[t := y]> ts) = count l ts - Z.b2z (running l x) + Z.b2z (running l y).
Proof.
  unfold count, zlen. revert t. induction ts as [|z ts IH]; intros [|t]; try done; cbn [lookup list_lookup].
  - intros [= ->]. change (<[0%nat:=y]> (x :: ts)) with (y :: ts). simpl.
    destruct (running l x), (running l y); simpl; lia.
  - intros Ht. specialize (IH t Ht). change (<[S t:=y]> (z :: ts)) with (z :: <[t:=y]> ts). simpl.
    destruct (running l z); simpl; lia.
Qed.
Lemma running_app l ts x : count l (ts ++ [x]) = count l ts + Z.b2z (running l x).
Proof. unfold count, zlen. rewrite List.filter_app, length_app. simpl. destruct (running l x); simpl; lia. Qed.
Lemma running_pos l ts : 0 < count l ts ↔ ∃ t x, ts !! t = Some x ∧ running l x = true.
Proof.
  unfold count. split.
  - intros H. destruct (List.filter (running l) ts) as [|x k] eqn:E; [done|].
    assert (x ∈ List.filter (running l) ts) as Hx by (rewrite E; left).
    apply list_elem_of_In, List.filter_In in Hx as [Hx Hr]. apply list_elem_of_In, list_elem_of_lookup in Hx as [t Ht].
    eauto.
  - intros (t & x & Ht & Hr). assert (x ∈ List.filter (running l) ts) as Hx.
    { apply list_elem_of_In, List.filter_In. split; [|done]. apply list_elem_of_In. by eapply list_elem_of_lookup_2. }
    destruct (List.filter (running l) ts); [by apply not_elem_of_nil in Hx|]. unfold zlen. simpl. lia.
Qed.

(** A step of the world, seen from a lane: either the lane's generation moved, or
    the step is calm and counts as many mutations as before. *)
Record evolves (w w' : world) : Prop := {
  e_calls : ∃ cs, calls w' = calls w ++ cs;
  e_generation : ∀ l, gen_le (generation l (gateway w)) (generation l (gateway w'));
  e_same : ∀ l, generation l (gateway w) = generation l (gateway w') →
    calm l w w' ∧ inflight l (gateway w') = inflight l (gateway w);
  e_flights : ∀ f, flight_ok w f → flight_ok w' f
}.

Lemma reading_evolves l q gen c w w' :
  evolves w w' → (c < length (calls w))%nat → reading l q gen c w → reading l q gen c w'.
Proof.
  intros [[cs Hc] Hg Hs Hf] Hlt (Hle & (rq & Hrq & Hq) & Hr). split_and!.
  - by eapply gen_le_trans.
  - exists rq. split; [|done]. rewrite Hc. by apply lookup_app_l_Some.
  - intros ->. assert (generation l (gateway w) = generation l (gateway w')) as He by by apply gen_le_antisym.
    destruct (Hs l He) as [(_ & _ & Hcalm) Hi]. rewrite Hi. destruct (Hr (eq_sym He)) as [H0 Hqu]. auto.
Qed.
Lemma has_read_evolves l q d gen v w w' : evolves w w' → has_read l q d gen v w → has_read l q d gen v w'.
Proof.
  intros [Hc Hg Hs Hf] (Hle & Hr). split; [by eapply gen_le_trans|].
  intros ->. assert (generation l (gateway w) = generation l (gateway w')) as He by by apply gen_le_antisym.
  destruct (Hs l He) as [Hcalm Hi]. rewrite Hi. destruct (Hr (eq_sym He)) as [H0 Hqu].
  split; [done|]. by eapply fresh_calm.
Qed.
Lemma task_ok_evolves w w' x : evolves w w' → task_ok w x → task_ok w' x.
Proof.
  intros He. unfold task_ok. destruct (t_state x) as [|c|t'|ts| |[v|e]]; try done.
  - intros [Hlt Hj]. assert (length (calls w) ≤ length (calls w'))%nat as Hl.
    { destruct (e_calls _ _ He) as [cs ->]. rewrite length_app. lia. }
    split; [lia|]. destruct (t_job x); try done; [by eapply reading_evolves|].
    destruct Hj as [Hk Hj]. split; [done|]. by eapply reading_evolves.
  - destruct (t_job x); try done. intros (-> & Hf & Hk). split_and!; [done| |done]. by apply (e_flights _ _ He).
  - destruct (t_job x); try done. by apply has_read_evolves.
Qed.

Lemma cache_ok_calm w w' g : (∀ l, calm l w w') → cache_ok w g → cache_ok w' g.
Proof.
  intros Hc [Ha Hm]. split.
  - intros e v key H. destruct (Ha e v key H) as [H0 Hf]. split; [done|]. by eapply fresh_calm.
  - intros key e v H. destruct (Hm key e v H) as [H0 Hf]. split; [done|]. by eapply fresh_calm.
Qed.

(** Calls move on and time passes: the tasks and the gateway stay. *)
Lemma inv_calls w w' :
  Inv w → gateway w' = gateway w → tasks w' = tasks w → placed w' → (∀ l, calm l w w') →
  (∀ m, m ∈ threads w' → m ∈ threads w ∨ ∀ l, ¬ mutation l w' m) → Inv w'.
Proof.
  intros [Hp Hco Hth Htr Hca Hfl Hta] Hg Ht Hp' Hcalm Hsub.
  assert (∀ f, flight_ok w f → flight_ok w' f) as Hf by (intros f; unfold flight_ok; by rewrite Ht).
  assert (evolves w w') as He.
  { split; [apply (Hcalm AccountLane)| | |done]; intros l; rewrite Hg; [apply gen_le_refl|by split]. }
  split; try done.
  - intros l. by rewrite Hg, Ht.
  - intros l m Hm Hmut. destruct (Hsub m Hm) as [Hm'|Hm']; [|by destruct (Hm' l)]. rewrite Ht. apply Hth; [done|].
    destruct (Hcalm l) as ([cs Hc] & _). eapply mutation_extend; [done| |done].
    apply Hp, elem_of_app. by left.
  - unfold tracks. by rewrite Hg, Ht.
  - rewrite Hg. by eapply cache_ok_calm.
  - intros f. rewrite Hg. auto.
  - intros t x. rewrite Ht. intros Hx. eapply task_ok_evolves; [done|by eapply Hta].
Qed.

Lemma inv_call w rq : Inv w → plain_call rq → Inv (make_call rq w).
Proof.
  intros Hi Hrq. pose proof (inv_placed w Hi) as Hp. apply (inv_calls w); try done.
  - by apply placed_call.
  - intros l. by apply calm_call.
  - intros m. cbn [threads make_call with_calls]. intros [Hm| ->%list_elem_of_singleton]%elem_of_app; [by left|right].
    intros l (r & Hr & Hm). cbn [calls make_call with_calls] in Hr.
    rewrite lookup_app_r, Nat.sub_diag in Hr by done. injection Hr as <-. by rewrite Hrq in Hm.
Qed.

(** A task moves on, with the gateway: it may be a mutation's that ends. *)
Lemma inv_set w g' t x y :
  Inv w → tasks w !! t = Some x →
  (∀ l, running l y = false) →
  (∀ l, inflight l g' = inflight l (gateway w) - Z.b2z (running l x)) →
  (∀ l, gen_le (generation l (gateway w)) (generation l g')) →
  (∀ l, running l x = true → generation l (gateway w) ≠ generation l g') →
  (∀ l c, running l x = true → t_state x = OnCall c → c ∉ threads w) →
  tracks w g' → cache_ok w g' → flights_ok w g' →
  (∀ gen key, t_job x = RunAccountRead gen key → t_job y = t_job x) →
  task_ok (with_tasks g' (tasks w) w) y →
  Inv (with_tasks g' (<[t := y]> (tasks w)) w).
Proof.
  intros [Hp Hco Hth Htr Hca Hfl Hta] Ht Hy Hin Hge Hne Hthr Htr' Hca' Hfl' Hjob Hok.
  set (w' := with_tasks g' (<[t := y]> (tasks w)) w) in *.
  assert (∀ t' x', t' ≠ t → tasks w !! t' = Some x' → tasks w' !! t' = Some x') as Hother.
  { intros t' x' Hn Hx'. cbn. by rewrite list_lookup_insert_ne. }
  assert (t < length (tasks w))%nat as Hlt by by eapply lookup_lt_Some.
  assert (tasks w' !! t = Some y) as Hself by (cbn; by rewrite list_lookup_insert_eq).
  assert (∀ f, flight_ok w f → flight_ok w' f) as Hf.
  { intros f [s Hs]. destruct (decide (fl_task f = t)) as [E|E]; [|exists s; by apply Hother].
    rewrite E in *. rewrite Ht in Hs. injection Hs as ->. exists (t_state y). rewrite E, Hself.
    specialize (Hjob _ _ eq_refl). destruct y. simpl in *. by subst. }
  assert (∀ l, calm l w w') as Hcalm by (intros l; by apply calm_same).
  assert (task_ok w' y) as Hok'.
  { eapply task_ok_evolves; [|done]. split; [by exists []; rewrite app_nil_r|intros; apply gen_le_refl| |done].
    intros l _. split; [|done]. by apply calm_same. }
  assert (evolves w w') as He.
  { split; [by exists []; rewrite app_nil_r|done| |done]. intros l E. split; [done|]. cbn [gateway].
    rewrite Hin. destruct (running l x) eqn:Er; [by destruct (Hne l Er)|]. simpl. lia. }
  split.
  - done.
  - intros l. cbn [gateway tasks w' with_tasks]. rewrite (running_insert l _ _ _ _ Ht), Hin, Hco, Hy. simpl. lia.
  - intros l m Hm Hmut. destruct (Hth l m Hm Hmut) as (t' & j' & Ht' & Hr').
    exists t', j'. split; [|done]. apply Hother; [|done]. intros ->. rewrite Ht in Ht'. injection Ht' as ->.
    by eapply (Hthr l m).
  - intros l t' x' Hx' Hr'. destruct (decide (t' = t)) as [->|Hn].
    + rewrite Hself in Hx'. injection Hx' as <-. by rewrite Hy in Hr'.
    + apply (Htr' l t' x'); [|done]. cbn in Hx'. by rewrite list_lookup_insert_ne in Hx'.
  - by eapply cache_ok_calm.
  - intros f Hff. by apply Hf, Hfl'.
  - intros t' x' Hx'. destruct (decide (t' = t)) as [->|Hn].
    + rewrite Hself in Hx'. by injection Hx' as <-.
    + cbn in Hx'. rewrite list_lookup_insert_ne in Hx' by done. eapply task_ok_evolves; [done|by eapply Hta].
Qed.

Lemma running_nonneg l ts : 0 ≤ count l ts.
Proof. unfold count, zlen. lia. Qed.

(** A task is created, with the call it waits for: it may run a mutation. *)
Lemma inv_append w w1 g' x :
  Inv w → tasks w1 = tasks w → gateway w1 = gateway w → placed w1 →
  (∃ cs, calls w1 = calls w ++ cs) →
  (∀ l, running l x = false → calm l w w1) →
  (∀ l, running l x = true → generation l (gateway w) ≠ generation l g') →
  (∀ l, inflight l g' = inflight l (gateway w) + Z.b2z (running l x)) →
  (∀ l, gen_le (generation l (gateway w)) (generation l g')) →
  (∀ l m, m ∈ threads w1 → mutation l w1 m →
     m ∈ threads w ∨ t_state x = OnCall m ∧ running l x = true) →
  tracks w g' → (∀ l, running l x = true → length (tasks w) ∈ tracked l g') →
  cache_ok w g' → flights_ok w g' →
  task_ok (with_tasks g' (tasks w ++ [x]) w1) x →
  Inv (with_tasks g' (tasks w ++ [x]) w1).
Proof.
  intros [Hp Hco Hth Htr Hca Hfl Hta] Ht1 Hg1 Hp1 Hcs Hcalm Hne Hin Hge Hthr Htr' Htx Hca' Hfl' Hok.
  set (w' := with_tasks g' (tasks w ++ [x]) w1) in *.
  assert (∀ t y, tasks w !! t = Some y → tasks w' !! t = Some y) as Hother.
  { intros t y Hy. by apply lookup_app_l_Some. }
  assert (∀ f, flight_ok w f → flight_ok w' f) as Hf by (intros f [s Hs]; exists s; by apply Hother).
  assert (∀ l, running l x = false → calm l w w') as Hcalm'.
  { intros l E. destruct (Hcalm l E) as (H1 & H2 & H3). done. }
  assert (evolves w w') as He.
  { split; [done|done| |done]. intros l E. cbn [gateway]. rewrite Hin.
    destruct (running l x) eqn:Er; [by destruct (Hne l Er)|]. split; [by apply Hcalm'|]. simpl. lia. }
  assert (∀ l, inflight l g' = 0 → calm l w w') as Hquiet.
  { intros l. rewrite Hin, Hco. pose proof (running_nonneg l (tasks w)).
    destruct (running l x) eqn:Er; simpl; [lia|]. intros _. by apply Hcalm'. }
  split.
  - done.
  - intros l. cbn [gateway tasks w' with_tasks]. by rewrite running_app, Hin, Hco.
  - intros l m Hm Hmut. destruct (Hthr l m Hm Hmut) as [Hm'|[Hs Hr]].
    + destruct (Hth l m Hm') as (t & j & Ht & Hr); [|exists t, j; split; [by apply Hother|done]].
      destruct Hcs as [cs Hcs]. eapply (mutation_extend l w w1); [done| |done].
      apply Hp, elem_of_app. by left.
    + exists (length (tasks w)), (t_job x). destruct x as [j s]. simpl in *. subst s. split; [|done].
      cbn. by rewrite lookup_app_r, Nat.sub_diag by done.
  - intros l t y Hy Hr. cbn in Hy. apply lookup_app_Some in Hy as [Hy|[Hl Hy]]; [by eapply Htr'|].
    apply list_lookup_singleton_Some in Hy as [Hy <-]. replace t with (length (tasks w)) by lia. by apply Htx.
  - destruct Hca' as [Ha Hm]. split.
    + intros e v key H. destruct (Ha e v key H) as [H0 Hfr]. split; [done|]. eapply fresh_calm; [|done]. by apply Hquiet.
    + intros key e v H. destruct (Hm key e v H) as [H0 Hfr]. split; [done|]. eapply fresh_calm; [|done]. by apply Hquiet.
  - intros f Hff. by apply Hf, Hfl'.
  - intros t y Hy. cbn in Hy. apply lookup_app_Some in Hy as [Hy|[Hl Hy]].
    + eapply task_ok_evolves; [done|by eapply Hta].
    + apply list_lookup_singleton_Some in Hy as [_ <-]. done.
Qed.

(** A task that runs no mutation is created. *)
Lemma inv_new w w1 x :
  Inv w → tasks w1 = tasks w → gateway w1 = gateway w → placed w1 → (∀ l, calm l w w1) →
  (∀ l m, m ∈ threads w1 → mutation l w1 m → m ∈ threads w) → (∀ l, running l x = false) →
  task_ok (with_tasks (gateway w) (tasks w ++ [x]) w1) x →
  Inv (with_tasks (gateway w) (tasks w ++ [x]) w1).
Proof.
  intros Hi Ht Hg Hp Hc Hth Hr Hok. apply inv_append; try done.
  - apply (Hc AccountLane).
  - intros l. by rewrite Hr.
  - intros l. rewrite Hr. simpl. lia.
  - intros l m Hm Hmut. left. by eapply Hth.
  - by apply inv_tracks.
  - intros l. by rewrite Hr.
  - by apply inv_cache.
  - by apply inv_flights.
Qed.

(** ** Segments *)

(** A gateway that only forgot something. *)
Record shrinks (g g' : HelperGateway) : Prop := {
  s_inflight : ∀ l, inflight l g' = inflight l g;
  s_generation : ∀ l, gen_le (generation l g) (generation l g');
  s_tracked : ∀ l, tracked l g' = tracked l g;
  s_cache : ∀ e, account_cache (accounts g') = Some e → account_cache (accounts g) = Some e;
  s_flight : ∀ f, account_flight (accounts g') = Some f → account_flight (accounts g) = Some f;
  s_messages : ∀ e, e ∈ message_list_cache (messages g') → e ∈ message_list_cache (messages g)
}.
Lemma shrinks_refl g : shrinks g g.
Proof. by split. Qed.
Lemma shrinks_trans g1 g2 g3 : shrinks g1 g2 → shrinks g2 g3 → shrinks g1 g3.
Proof.
  intros [A1 A2 A3 A4 A5 A6] [B1 B2 B3 B4 B5 B6]. split; auto.
  - intros l. by rewrite B1.
  - intros l. eapply gen_le_trans; [apply A2|apply B2].
  - intros l. by rewrite B3.
Qed.

Lemma shrinks_same g g' : accounts g' = accounts g → messages g' = messages g → shrinks g g'.
Proof.
  intros Ha Hm. split; try (intros [|s]; unfold inflight, generation, tracked; rewrite ?Ha, ?Hm; done).
  - by rewrite Ha.
  - by rewrite Ha.
  - by rewrite Hm.
Qed.

(** A lane's own view of a change of the message lists. *)
Lemma insert_le {A} `{EqDecision A} (f : A → Z) k k' : f k' ≤ (<[k := f k + 1]> f : A → Z) k'.
Proof.
  destruct (decide (k' = k)) as [->|Hn]; [rewrite fn_lookup_insert; lia|].
  rewrite fn_lookup_insert_ne by done. lia.
Qed.
Lemma shrinks_lists account mailbox g :
  shrinks g (set_messages (_invalidate_message_lists account mailbox (messages g)) g).
Proof.
  unfold _invalidate_message_lists. split.
  - by intros [|s]; destruct mailbox.
  - intros [|s]; [done|]. destruct mailbox; split; simpl; try done; apply insert_le.
  - by intros [|s]; destruct mailbox.
  - done.
  - done.
  - intros e. destruct mailbox; cbn; rewrite !list_elem_of_In, List.filter_In; tauto.
Qed.
Lemma shrinks_invalidate i g : shrinks g (invalidate i g).
Proof. destruct i; [|apply shrinks_lists|..]; by apply shrinks_same. Qed.
Lemma shrinks_all drops g : shrinks g (invalidate_all drops g).
Proof.
  unfold invalidate_all. revert g. induction drops as [|i drops IH]; intros g; [apply shrinks_refl|].
  simpl. eapply shrinks_trans; [apply shrinks_invalidate|apply IH].
Qed.

Lemma tracks_shrinks w g g' : shrinks g g' → tracks w g → tracks w g'.
Proof. intros Hs Ht l t x Hx Hr. rewrite (s_tracked _ _ Hs). by eapply Ht. Qed.
Lemma cache_shrinks w g g' : shrinks g g' → cache_ok w g → cache_ok w g'.
Proof.
  intros [Hi _ _ Hc _ Hm] [Ha Hl]. split.
  - intros e v key H. rewrite Hi. by eapply Ha, Hc.
  - intros key e v H. rewrite Hi. by eapply Hl, Hm.
Qed.
Lemma flights_shrinks w g g' : shrinks g g' → flights_ok w g → flights_ok w g'.
Proof. intros [_ _ _ _ Hf _] Ho f H. by apply Ho, Hf. Qed.

(** What a segment of a task that runs no mutation may do. *)
Definition reader_job (j : job) : bool := match j with RunAccountRead _ _ => true | _ => false end.
Definition mutation_job (j : job) : bool :=
  match j with RunAccountMutation | RunMessageMutation _ => true | _ => false end.
Definition act_ok (w : world) (j : job) (g' : HelperGateway) (a : action) : Prop :=
  match a with
  | Finish r => flights_ok w g' ∧ task_ok (with_tasks g' (tasks w) w) (Task j (Done r))
  | CallHelper rq j' =>
      flights_ok w g' ∧ reader_job j = false ∧ plain_call rq ∧ mutation_job j' = false
      ∧ task_ok (with_tasks g' (tasks w) (make_call rq w)) (Task j' (OnCall (length (calls w))))
  | Spawn child rq j' =>
      let w2 := with_tasks (gateway w) (tasks w ++ [Task child (OnCall (length (calls w)))]) (make_call rq w) in
      flights_ok w2 g' ∧ reader_job j = false ∧ plain_call rq ∧ mutation_job child = false
      ∧ task_ok w2 (Task child (OnCall (length (calls w))))
      ∧ task_ok (with_tasks g' (tasks w2) w2) (Task j' (OnTask (length (tasks w))))
  | WaitTask t j' => flights_ok w g' ∧ reader_job j = false
                     ∧ task_ok (with_tasks g' (tasks w) w) (Task j' (OnTask t))
  | WaitTasks _ j' | WaitLock j' => flights_ok w g' ∧ reader_job j = false ∧ looping j'
  end.
Record proceeds (w : world) (j : job) (ga : HelperGateway * action) : Prop := {
  p_inflight : ∀ l, inflight l ga.1 = inflight l (gateway w);
  p_generation : ∀ l, gen_le (generation l (gateway w)) (generation l ga.1);
  p_tracks : tracks w ga.1;
  p_cache : cache_ok w ga.1;
  p_act : act_ok w j ga.1 ga.2
}.

Lemma mutation_not_running l j s : mutation_job j = false → running l (Task j s) = false.
Proof. by destruct j. Qed.
Lemma not_call_not_running l j s : (∀ c, s ≠ OnCall c) → running l (Task j s) = false.
Proof. destruct s; try by destruct j. intros H. by destruct (H c). Qed.

Lemma inv_quiet_set w g' t j s y :
  Inv w → tasks w !! t = Some (Task j s) → (∀ l, running l (Task j s) = false) → (∀ l, running l y = false) →
  (∀ l, inflight l g' = inflight l (gateway w)) → (∀ l, gen_le (generation l (gateway w)) (generation l g')) →
  tracks w g' → cache_ok w g' → flights_ok w g' → (reader_job j = true → t_job y = j) →
  task_ok (with_tasks g' (tasks w) w) y → Inv (with_tasks g' (<[t := y]> (tasks w)) w).
Proof.
  intros Hi Ht Hr Hy Hin Hg Htr Hc Hf Hj Hok. apply (inv_set _ _ _ _ _ Hi Ht); try done.
  - intros l. rewrite Hr, Hin. simpl. lia.
  - intros l. by rewrite Hr.
  - intros l c. by rewrite Hr.
  - simpl. intros gen key ->. by apply Hj.
Qed.

Lemma perform_inv w t j s ga :
  Inv w → tasks w !! t = Some (Task j s) → (∀ l, running l (Task j s) = false) → proceeds w j ga →
  Inv (perform t j w ga).
Proof.
  intros Hi Ht Hr [Hin Hge Htr Hca Hact]. destruct ga as [g' a]. cbn [fst snd] in *. unfold perform.
  assert (∀ y, reader_job j = false → reader_job j = true → t_job y = j) as Hnr by (intros y; congruence).
  destruct a as [r|rq j'|child rq j'|t' j'|ts j'|j']; cbn [act_ok] in Hact.
  - destruct Hact as [Hf Hok]. apply (inv_quiet_set _ _ _ _ _ _ Hi Ht); try done.
    intros l. by apply not_call_not_running.
  - destruct Hact as (Hf & Hj & Hrq & Hmj & Hok).
    apply (inv_quiet_set (make_call rq w) g' t j s); try done.
    + by apply inv_call.
    + intros l. by apply mutation_not_running.
    + eapply cache_ok_calm; [|done]. intros l. by apply calm_call; [apply inv_placed|].
    + by apply Hnr.
  - destruct Hact as (Hf & Hj & Hrq & Hmc & Hok & Hok').
    rewrite <- (insert_app_l (tasks w)) by by eapply lookup_lt_Some.
    set (w2 := with_tasks (gateway w) (tasks w ++ [Task child (OnCall (length (calls w)))]) (make_call rq w)) in *.
    assert (∀ l, calm l w (make_call rq w)) as Hcalm by (intros l; by apply calm_call; [apply inv_placed|]).
    assert (Inv w2) as Hi2.
    { apply inv_new; try done.
      - by apply placed_call, inv_placed.
      - intros l m [Hm| ->%list_elem_of_singleton]%elem_of_app; [done|]. intros (r & Hrr & Hmm).
        cbn [calls make_call with_calls] in Hrr. rewrite lookup_app_r, Nat.sub_diag in Hrr by done.
        injection Hrr as <-. by rewrite Hrq in Hmm.
      - intros l. by apply mutation_not_running. }
    apply (inv_quiet_set w2 g' t j s); try done.
    + by apply lookup_app_l_Some.
    + intros l. by apply not_call_not_running.
    + intros l t0 x Hx Hrx. cbn in Hx. apply lookup_app_Some in Hx as [Hx|[_ Hx]]; [by eapply Htr|].
      apply list_lookup_singleton_Some in Hx as [_ <-]. by rewrite mutation_not_running in Hrx.
    + by eapply (cache_ok_calm w).
    + by apply Hnr.
  - destruct Hact as (Hf & Hj & Hok). apply (inv_quiet_set _ _ _ _ _ _ Hi Ht); try done.
    + intros l. by apply not_call_not_running.
    + by apply Hnr.
  - destruct Hact as (Hf & Hj & Hok). apply (inv_quiet_set _ _ _ _ _ _ Hi Ht); try done.
    + intros l. by apply not_call_not_running.
    + by apply Hnr.
  - destruct Hact as (Hf & Hj & Hok). apply (inv_quiet_set _ _ _ _ _ _ Hi Ht); try done.
    + intros l. by apply not_call_not_running.
    + by apply Hnr.
Qed.

(** *** The readers *)

Lemma undone_running w l t x ts :
  tasks w !! t = Some x → running l x = true → t ∈ ts → t ∈ undone (is_done w) ts.
Proof.
  intros Hx Hr Ht. unfold undone. rewrite list_elem_of_In, List.filter_In, <- list_elem_of_In. split; [done|].
  unfold is_done. rewrite Hx. destruct x as [j []]; try done; by destruct j.
Qed.

(** Nothing of a lane is in a thread when none of its mutations is counted. *)
Lemma idle_threads w l : Inv w → inflight l (gateway w) = 0 → ∀ m, m ∈ threads w → ¬ mutation l w m.
Proof.
  intros Hi H0 m Hm Hmut. destruct (inv_threads w Hi l m Hm Hmut) as (t & j & Ht & Hr).
  rewrite (inv_counts w Hi) in H0. assert (0 < count l (tasks w)); [|lia]. apply running_pos. eauto.
Qed.

(** The call of a new reader. *)
Lemma reading_new w w' l q rq gen :
  Inv w → plain_call rq → q rq → inflight l (gateway w) = 0 → gen = generation l (gateway w) →
  calls w' = calls (make_call rq w) → threads w' = threads (make_call rq w) → order w' = order w →
  generation l (gateway w') = generation l (gateway w) → inflight l (gateway w') = inflight l (gateway w) →
  reading l q gen (length (calls w)) w'.
Proof.
  intros Hi Hrq Hq H0 -> Hc Ht Ho Hg Hin. unfold reading. rewrite Hg, Hin, Hc. split_and!; [apply gen_le_refl| |].
  - exists rq. split; [|done]. cbn. by rewrite lookup_app_r, Nat.sub_diag.
  - intros _. split; [done|]. assert (quiet l (length (calls w)) (make_call rq w)) as Hqu.
    { apply quiet_new; [by apply inv_placed|done|by apply idle_threads]. }
    unfold quiet, mutation in *. rewrite Hc, Ht, Ho. exact Hqu.
Qed.

Lemma gateway_with_tasks g ts w : gateway (with_tasks g ts w) = g.
Proof. done. Qed.

Lemma negb_eqb_0 n : negb (n =? 0) = false → n = 0.
Proof. intros H%negb_false_iff. by apply Z.eqb_eq. Qed.

Lemma waiting_proceeds w j j' ts a :
  Inv w → reader_job j = false → looping j' →
  a = (let a := accounts (gateway w) in
       Accounts (account_cache a) (account_flight a) (account_generation a) (account_mutations_inflight a)
         (undone (is_done w) (account_mutation_tasks a)) (account_cache_quarantined a)) →
  proceeds w j (set_accounts a (gateway w), WaitTasks ts j')
  ∧ (∀ r, proceeds w j (set_accounts a (gateway w), Finish (Err r))).
Proof.
  intros Hi Hj Hl ->. assert (tracks w (set_accounts
      (Accounts (account_cache (accounts (gateway w))) (account_flight (accounts (gateway w)))
         (account_generation (accounts (gateway w))) (account_mutations_inflight (accounts (gateway w)))
         (undone (is_done w) (account_mutation_tasks (accounts (gateway w))))
         (account_cache_quarantined (accounts (gateway w)))) (gateway w))) as Htr.
  { intros l t x Hx Hr. pose proof (inv_tracks w Hi l t x Hx Hr) as Ht. destruct l; [|done].
    by eapply undone_running. }
  pose proof (inv_cache w Hi). pose proof (inv_flights w Hi).
  split; [|intros r]; (split; [by intros []|by intros []|done|done|by split_and!]).
Qed.

Definition accounts_call (auth_token : token) : call :=
  _call "accounts.list" [("include_append_limits", JBool false)]%string auth_token.
Lemma accounts_call_plain auth_token : plain_call (accounts_call auth_token).
Proof. intros [|s]; by vm_compute. Qed.

Lemma fetch_accounts_proceeds w j auth_token key g :
  Inv w → reader_job j = false → _authorization_cache_key auth_token = Ok key → g = gateway w →
  account_mutations_inflight (accounts g) = 0 →
  proceeds w j
    (set_accounts (_start_account_read (length (tasks w)) key auth_token (accounts g)) (set_accounts (accounts g) g),
     Spawn (RunAccountRead (account_generation (accounts g)) key) (accounts_call auth_token)
       (AwaitFlight auth_token (MkFlight (account_generation (accounts g)) key auth_token (length (tasks w))))).
Proof.
  intros Hi Hj Hk -> H0. pose proof (inv_cache w Hi) as Hc.
  split; cbn [fst snd]; [by intros []|by intros []|by apply inv_tracks|done|]. cbn [act_ok]. split_and!; try done.
  - intros f [= <-]. eexists. cbn. by rewrite lookup_app_r, Nat.sub_diag.
  - apply accounts_call_plain.
  - split; [cbn; rewrite length_app; simpl; lia|]. cbn [t_job].
    apply (reading_new w _ AccountLane _ (accounts_call auth_token)); try done. apply accounts_call_plain.
  - split_and!; [done| |done]. eexists. cbn. by rewrite lookup_app_r, Nat.sub_diag.
Qed.

Lemma quiet_proceeds w j a :
  Inv w → act_ok w j (gateway w) a → proceeds w j (gateway w, a).
Proof.
  intros Hi Ha. split; cbn [fst snd]; [done| | | |done].
  - intros l. apply gen_le_refl.
  - by apply inv_tracks.
  - by apply inv_cache.
Qed.

Lemma set_accounts_same g : set_accounts (accounts g) g = g.
Proof. by destruct g. Qed.
Lemma set_messages_same g : set_messages (messages g) g = g.
Proof. by destruct g. Qed.

Lemma list_accounts_proceeds w t j auth_token :
  Inv w → reader_job j = false → proceeds w j (list_accounts (ctx_of w t) auth_token (gateway w)).
Proof.
  intros Hi Hj. pose proof (inv_flights w Hi) as Hf.
  unfold list_accounts, list_accounts_turn, pass.
  destruct (_authorization_cache_key auth_token) as [key|e] eqn:Hk; [|by apply quiet_proceeds].
  destruct (negb _) eqn:Hb.
  { unfold _wait_for_account_mutations, gather. cbn [x_done ctx_of].
    destruct (undone _ _) as [|t0 ts] eqn:Hu; rewrite <- Hu;
      by apply (waiting_proceeds w j (ListAccounts auth_token) (undone (is_done w) (account_mutation_tasks (accounts (gateway w))))). }
  apply negb_eqb_0 in Hb. cbn [x_now x_done x_next ctx_of].
  pose proof (fetch_accounts_proceeds w j auth_token key _ Hi Hj Hk eq_refl Hb) as Hfetch.
  assert (∀ f, account_flight (accounts (gateway w)) = Some f →
            (fl_generation f =? account_generation (accounts (gateway w))) && str_eqb (fl_auth_key f) key = true →
            proceeds w j (gateway w, WaitTask (fl_task f) (AwaitFlight auth_token f))) as Hjoin.
  { intros f Hff [_ He]%andb_true_iff. apply str_eqb_true in He. apply quiet_proceeds; [done|].
    split_and!; [done|done|]. split_and!; [done|by apply Hf|by rewrite He]. }
  assert (∀ v, proceeds w j (gateway w, Finish (Ok (JArr v)))) as Hhit.
  { intros v. apply quiet_proceeds; [done|]. split; [done|]. by destruct j. }
  rewrite set_accounts_same in *.
  destruct (account_cache _) as [[[e v] k]|]; [destruct (negb _ && _ && _); [done|]|];
    (destruct (account_flight _) as [f|] eqn:Hff; [|done]); destruct (_ && _) eqn:E; try done; by apply Hjoin.
Qed.

(** What [list_accounts] returns at once may be trusted. *)
Definition accounts_fresh (w : world) (auth_token : token) (v : json) : Prop :=
  ∃ key, _authorization_cache_key auth_token = Ok key
    ∧ fresh AccountLane (accounts_question key) accounts_answer v w.

Lemma list_accounts_fresh w t auth_token v :
  Inv w → (list_accounts (ctx_of w t) auth_token (gateway w)).2 = Finish (Ok v) → accounts_fresh w auth_token v.
Proof.
  intros Hi. unfold list_accounts, list_accounts_turn, pass, _wait_for_account_mutations, gather.
  destruct (_authorization_cache_key auth_token) as [key|e] eqn:Hk; [|done].
  destruct (negb _) eqn:Hb; [by destruct (undone _ _)|].
  destruct (inv_cache w Hi) as [Hc _]. destruct (account_cache _) as [[[e v'] k]|] eqn:Hcache.
  - destruct (negb _ && str_eqb k key && _) eqn:E; [|by repeat case_match].
    apply andb_true_iff in E as [[_ E%str_eqb_true]%andb_true_iff _]. subst k. cbn. intros [= <-].
    exists key. split; [done|]. by eapply Hc.
  - by repeat case_match.
Qed.

Lemma outdated_flight_false f a :
  outdated_flight f a = false → (fl_generation f, 0) = (account_generation a, 0) ∧ account_mutations_inflight a = 0.
Proof.
  unfold outdated_flight. intros [H1%negb_false_iff%Z.eqb_eq H2%negb_false_iff%Z.eqb_eq]%orb_false_iff.
  by rewrite H1, H2.
Qed.

Lemma await_flight_proceeds w t j auth_token f r :
  Inv w → reader_job j = false → proceeds w j (await_flight (ctx_of w t) auth_token f r (gateway w)).
Proof.
  intros Hi Hj. pose proof (inv_flights w Hi). unfold await_flight, pass.
  destruct r as [v|e]; [destruct (outdated_flight _ _)|]; [by apply list_accounts_proceeds| |];
    (apply quiet_proceeds; [done|]; split; [done|by destruct j]).
Qed.
Lemma await_flight_fresh w t auth_token f j' r v :
  Inv w → _authorization_cache_key auth_token = Ok (fl_auth_key f) → flight_ok w f →
  tasks w !! fl_task f = Some (Task j' (Done r)) →
  (await_flight (ctx_of w t) auth_token f r (gateway w)).2 = Finish (Ok v) → accounts_fresh w auth_token v.
Proof.
  intros Hi Hk [s Hs] Ht. unfold await_flight, pass. destruct r as [v'|e]; [|done].
  destruct (outdated_flight _ _) eqn:Ho; [by apply list_accounts_fresh|]. intros [= <-].
  apply outdated_flight_false in Ho as [Hg H0]. exists (fl_auth_key f). split; [done|].
  rewrite Ht in Hs. injection Hs as -> <-. pose proof (inv_tasks w Hi _ _ Ht) as [_ Hr]. by apply Hr.
Qed.

(** [list_messages] *)
Lemma messages_call_plain auth_token s limit offset : plain_call (messages_call auth_token s limit offset).
Proof. intros [|s']; by vm_compute. Qed.

Lemma waiting_messages_proceeds w j s ts r :
  Inv w → reader_job j = false →
  let m := messages (gateway w) in
  let g' := set_messages (Messages (message_list_cache m) (message_account_generation m)
              (message_mailbox_generation m) (message_mutations_inflight m)
              (<[s := undone (is_done w) (message_mutation_tasks m s)]> (message_mutation_tasks m))
              (message_cache_quarantined m)) (gateway w) in
  (∀ j', looping j' → proceeds w j (g', WaitTasks ts j')) ∧ proceeds w j (g', Finish (Err r)).
Proof.
  intros Hi Hj m g'. assert (tracks w g') as Htr.
  { intros l t x Hx Hr. pose proof (inv_tracks w Hi l t x Hx Hr) as Ht. destruct l as [|s']; [done|]. cbn.
    destruct (decide (s' = s)) as [->|Hn]; [|by rewrite fn_lookup_insert_ne].
    rewrite fn_lookup_insert. by eapply undone_running. }
  pose proof (inv_cache w Hi). pose proof (inv_flights w Hi).
  split; [intros j' Hj'|]; (split; [by intros []|by intros []|done|done|by split_and!]).
Qed.

Lemma list_messages_proceeds w t j auth_token s limit offset :
  Inv w → reader_job j = false → proceeds w j (list_messages (ctx_of w t) auth_token s limit offset (gateway w)).
Proof.
  intros Hi Hj. pose proof (inv_flights w Hi) as Hf.
  unfold list_messages, list_messages_turn, pass.
  destruct (_authorization_cache_key auth_token) as [key|e] eqn:Hk; [|by apply quiet_proceeds].
  cbn [key_scope fst snd]. destruct (negb _) eqn:Hb.
  { unfold _wait_for_message_mutations, gather. cbn [x_done ctx_of].
    destruct (waiting_messages_proceeds w j s (undone (is_done w) (message_mutation_tasks (messages (gateway w)) s))
      (Exn RuntimeError) Hi Hj) as [Hw Hr].
    destruct (undone _ _) as [|t0 ts] eqn:Hu; rewrite <- Hu in *; [apply Hr|by apply Hw]. }
  apply negb_eqb_0 in Hb. rewrite set_messages_same.
  assert (proceeds w j (gateway w,
    CallHelper (messages_call auth_token s limit offset)
      (ReadMessages auth_token (key, s, limit, offset) (_message_generation s (messages (gateway w)))))) as Hfetch.
  { apply quiet_proceeds; [done|]. split_and!; try done; [apply messages_call_plain|].
    split; [cbn; rewrite length_app; simpl; lia|]. split; [done|].
    apply (reading_new w _ (MessageLane s) _ (messages_call auth_token s limit offset)); try done.
    - apply messages_call_plain.
    - by exists auth_token. }
  destruct (dget _ _) as [[e v]|]; [|done]. destruct (_ && _); [|done].
  apply quiet_proceeds; [done|]. split; [done|by destruct j].
Qed.

Definition messages_fresh (w : world) (auth_token : token) (s : scope) (limit offset : Z) (v : json) : Prop :=
  ∃ key, _authorization_cache_key auth_token = Ok key
    ∧ fresh (MessageLane s) (messages_question (key, s, limit, offset)) message_list v w.

Section AssocLemmas.
Context {K V : Type} `{EqDecision K}.
Implicit Type d : list (K * V).
Lemma dget_elem k v d : dget k d = Some v → (k, v) ∈ d.
Proof.
  induction d as [|[k' w] d IH]; [done|]. simpl. destruct (decide (k' = k)) as [->|Hn]; [intros [= ->]; left|].
  intros H. right. auto.
Qed.
Lemma dset_elem k v d e : e ∈ dset k v d → e = (k, v) ∨ e ∈ d.
Proof.
  induction d as [|[k' w] d IH]; simpl; [intros ->%list_elem_of_singleton; by left|].
  destruct (decide (k' = k)) as [->|Hn]; rewrite !elem_of_cons; [naive_solver|]. intros [->|H]; [auto|].
  destruct (IH H); auto.
Qed.
Lemma prune_elem cap (expires : V → Z) now d e : e ∈ prune cap expires now d → e ∈ d.
Proof. unfold prune. intros H%subseteq_drop. by apply list_elem_of_filter in H as [_ H]. Qed.
Lemma dset_length k v d : (length (dset k v d) ≤ S (length d))%nat.
Proof. induction d as [|[k' w] d IH]; simpl; [lia|]. destruct (decide _); simpl; lia. Qed.
Lemma prune_length cap (expires : V → Z) now d : (length (prune cap expires now d) ≤ cap - 1)%nat.
Proof. unfold prune. rewrite length_drop. lia. Qed.
End AssocLemmas.

Lemma list_messages_fresh w t auth_token s limit offset v :
  Inv w → (list_messages (ctx_of w t) auth_token s limit offset (gateway w)).2 = Finish (Ok v) →
  messages_fresh w auth_token s limit offset v.
Proof.
  intros Hi. unfold list_messages, list_messages_turn, pass, _wait_for_message_mutations, gather.
  destruct (_authorization_cache_key auth_token) as [key|e] eqn:Hk; [|done].
  destruct (negb _) eqn:Hb; [by destruct (undone _ _)|].
  destruct (inv_cache w Hi) as [_ Hc]. destruct (dget _ _) as [[e v']|] eqn:Hcache; [|done].
  destruct (_ && _); [|done]. cbn. intros [= <-]. exists key. split; [done|].
  by eapply (Hc (key, s, limit, offset)), dget_elem.
Qed.

(** *** Answers *)

(** The answer of the call [c], or its failure. *)
Definition answers (w : world) (c : nat) (answer : result gexc json) : Prop :=
  match answer with
  | Ok v => ∃ response, (c, response) ∈ log w ∧ _checked_result response = Ok v
  | Err _ => True
  end.

Lemma reading_has_read l q d gen c v v' w :
  reading l q gen c w → answers w c (Ok v') → d (Ok v') = Ok v → has_read l q d gen v w.
Proof.
  intros (Hg & (rq & Hrq & Hq) & Hr) (response & Hlog & Hres) Hd. split; [done|]. intros E.
  destruct (Hr E) as [H0 Hqu]. split; [done|]. exists c, rq, response. split_and!; try done. by rewrite Hres.
Qed.

Lemma outdated_list_false s gen m :
  outdated_list s gen m = false → gen = _message_generation s m ∧ message_mutations_inflight m s = 0.
Proof.
  unfold outdated_list. intros [H1%negb_false_iff H2%negb_eqb_0]%orb_false_iff. split; [|done].
  by apply bool_decide_eq_true in H1.
Qed.

Lemma message_key_eta (key : message_key) : (key.1.1.1, key_scope key, key.1.2, key.2) = key.
Proof. by destruct key as [[[? ?] ?] ?]. Qed.

Lemma read_messages_ok w t j auth_token key gen c answer :
  Inv w → reader_job j = false → _authorization_cache_key auth_token = Ok key.1.1.1 →
  reading (MessageLane (key_scope key)) (messages_question key) gen c w → answers w c answer →
  let ga := read_messages (ctx_of w t) auth_token key gen answer (gateway w) in
  proceeds w j ga
  ∧ ∀ v, ga.2 = Finish (Ok v) → messages_fresh w auth_token (key_scope key) key.1.2 key.2 v.
Proof.
  intros Hi Hj Hk Hr Ha ga. pose proof (inv_flights w Hi) as Hf. subst ga. unfold read_messages, pass.
  assert (∀ e, proceeds w j (gateway w, Finish (Err e))) as Herr by (intros e; by apply quiet_proceeds).
  destruct answer as [v'|e]; [|done]. destruct (message_list (Ok v')) as [v|e] eqn:Hv; [|done].
  destruct (outdated_list _ _ _) eqn:Ho.
  { split; [by apply list_messages_proceeds|]. intros v0. by apply list_messages_fresh. }
  apply outdated_list_false in Ho as [-> H0].
  pose proof (reading_has_read _ _ message_list _ c v v' w Hr Ha Hv) as [_ Hread].
  destruct (Hread eq_refl) as [_ Hfresh]. split.
  - split; cbn [fst snd]; [by intros []|by intros []|by apply inv_tracks| |split; [done|by destruct j]].
    destruct (inv_cache w Hi) as [Hca Hcm]. split; [done|]. intros key' e' v'' Hin. cbn in Hin.
    apply dset_elem in Hin as [[= -> _ ->]|Hin%prune_elem]; [by split|]. by apply (Hcm key' e' v'').
  - cbn. intros v0 [= <-]. exists key.1.1.1. split; [done|]. by rewrite message_key_eta.
Qed.

(** What [_run_account_read] leaves: a cached answer is its own only when the
    generation is still the one it began at and nothing is counted. *)
Lemma run_account_read_state t gen key now answer a :
  let '(outcome, a') := _run_account_read t gen key now answer a in
  outcome = _fetch_accounts answer ∧ account_generation a' = account_generation a
  ∧ account_mutations_inflight a' = account_mutations_inflight a
  ∧ account_mutation_tasks a' = account_mutation_tasks a
  ∧ (∀ f, account_flight a' = Some f → account_flight a = Some f)
  ∧ ∀ e v k, account_cache a' = Some (e, v, k) →
      account_cache a = Some (e, v, k)
      ∨ k = key ∧ outcome = Ok v ∧ gen = account_generation a ∧ account_mutations_inflight a = 0.
Proof.
  unfold _run_account_read.
  assert (∀ a1, account_generation a1 = account_generation a →
    account_mutations_inflight a1 = account_mutations_inflight a →
    account_mutation_tasks a1 = account_mutation_tasks a → account_flight a1 = account_flight a →
    (∀ e v k, account_cache a1 = Some (e, v, k) → account_cache a = Some (e, v, k)
       ∨ k = key ∧ _fetch_accounts answer = Ok v ∧ gen = account_generation a ∧ account_mutations_inflight a = 0) →
    let a' := match account_flight a1 with
              | Some flight => if bool_decide (fl_task flight = t)
                  then Accounts (account_cache a1) None (account_generation a1) (account_mutations_inflight a1)
                         (account_mutation_tasks a1) (account_cache_quarantined a1) else a1
              | None => a1 end in
    account_generation a' = account_generation a ∧ account_mutations_inflight a' = account_mutations_inflight a
    ∧ account_mutation_tasks a' = account_mutation_tasks a
    ∧ (∀ f, account_flight a' = Some f → account_flight a = Some f)
    ∧ ∀ e v k, account_cache a' = Some (e, v, k) → account_cache a = Some (e, v, k)
       ∨ k = key ∧ _fetch_accounts answer = Ok v ∧ gen = account_generation a ∧ account_mutations_inflight a = 0)
    as Hend.
  { intros a1 A1 A2 A3 A4 A5. rewrite A4. cbv zeta. destruct (account_flight a) as [f|] eqn:Hf;
      [destruct (bool_decide _)|]; split_and!; try done; cbn; congruence. }
  split; [done|]. apply Hend; (destruct (_fetch_accounts answer) as [l|e]; [|by auto]);
    (destruct (_ && _) eqn:E; [|by auto]); try done.
  apply andb_true_iff in E as [E1%Z.eqb_eq E2%Z.eqb_eq]. cbn. intros e v k [= <- <- <-]. by right.
Qed.

Definition plain_answer (answer : result gexc json) : result exc json :=
  match answer with Ok v => Ok v | Err (Exn e) => Err e | Err _ => Err RuntimeError end.

Lemma run_account_read_proceeds w t gen key now c answer :
  Inv w → reading AccountLane (accounts_question key) (gen, 0) c w → answers w c answer →
  proceeds w (RunAccountRead gen key)
    (let '(outcome, a) := _run_account_read t gen key now (plain_answer answer) (accounts (gateway w)) in
     (set_accounts a (gateway w), Finish (exn (l ← outcome; Ok (JArr l))))).
Proof.
  intros Hi Hr Ha. pose proof (inv_flights w Hi) as Hf. destruct (inv_cache w Hi) as [Hca Hcm].
  pose proof (run_account_read_state t gen key now (plain_answer answer) (accounts (gateway w))) as Hst.
  destruct (_run_account_read _ _ _ _ _ _) as [outcome a]. destruct Hst as (-> & A1 & A2 & A3 & A4 & A5).
  assert (∀ l, _fetch_accounts (plain_answer answer) = Ok l →
            has_read AccountLane (accounts_question key) accounts_answer (gen, 0) (JArr l) w) as Hread.
  { intros l Hl. destruct answer as [v|[]]; try done. eapply reading_has_read; [done|done|].
    unfold accounts_answer. cbn [plain_answer] in Hl. by rewrite Hl. }
  split; cbn [fst snd].
  - by intros [].
  - intros []; [|apply gen_le_refl]. unfold generation. cbn. rewrite A1. apply gen_le_refl.
  - intros l t0 x Hx Hrx. pose proof (inv_tracks w Hi l t0 x Hx Hrx) as Ht. destruct l; [|done]. cbn in *. by rewrite A3.
  - split; [|done]. cbn. rewrite A2. intros e v k Hc. destruct (A5 e v k Hc) as [Hc'|(-> & Hl & -> & H0)]; [by eapply Hca|].
    split; [done|]. by apply (Hread v Hl).
  - split; [intros f Hff; by apply Hf, A4|]. destruct (_fetch_accounts _) as [l|e]; [|done].
    destruct (Hread l eq_refl) as [Hg Hrd]. unfold task_ok, has_read, generation in *. cbn in *. by rewrite A1, A2.
Qed.

(** *** The other segments *)

Lemma shrink_proceeds w j g' a :
  Inv w → shrinks (gateway w) g' → act_ok w j g' a → proceeds w j (g', a).
Proof.
  intros Hi Hs Ha. split; cbn [fst snd]; [by apply Hs|by apply Hs| | |done].
  - eapply tracks_shrinks; [done|by apply inv_tracks].
  - eapply cache_shrinks; [done|by apply inv_cache].
Qed.
Lemma inv_flights_shrinks w g' : Inv w → shrinks (gateway w) g' → flights_ok w g'.
Proof. intros Hi Hs. eapply flights_shrinks; [done|by apply inv_flights]. Qed.

Lemma finish_proceeds w j g' r :
  Inv w → shrinks (gateway w) g' → reader_job j = false → proceeds w j (g', Finish r).
Proof.
  intros Hi Hs Hj. apply shrink_proceeds; [done|done|]. split; [by apply inv_flights_shrinks|].
  destruct r; [|done]. by destruct j.
Qed.

(** A job that waits for a call or a task with nothing to remember. *)
Definition simple (j : job) : bool :=
  match j with
  | RunAccountRead _ _ | ReadMessages _ _ _ | RunAccountMutation | RunMessageMutation _ | AwaitFlight _ _ => false
  | _ => true
  end.
Lemma call_proceeds w j g' rq j' :
  Inv w → shrinks (gateway w) g' → reader_job j = false → plain_call rq → simple j' = true →
  proceeds w j (g', CallHelper rq j').
Proof.
  intros Hi Hs Hj Hrq Hj'. apply shrink_proceeds; [done|done|]. split_and!; try done.
  - by apply inv_flights_shrinks.
  - by destruct j'.
  - split; [cbn; rewrite length_app; simpl; lia|]. by destruct j'.
Qed.
Lemma spawn_proceeds w j g' child rq j' :
  Inv w → shrinks (gateway w) g' → reader_job j = false → plain_call rq → simple child = true → simple j' = true →
  proceeds w j (g', Spawn child rq j').
Proof.
  intros Hi Hs Hj Hrq Hc Hj'. apply shrink_proceeds; [done|done|]. split_and!; try done.
  - intros f Hf. destruct (inv_flights_shrinks w g' Hi Hs f Hf) as [s Ht]. exists s. by apply lookup_app_l_Some.
  - by destruct child.
  - split; [cbn; rewrite length_app; simpl; lia|]. by destruct child.
  - by destruct j'.
Qed.
Lemma wait_task_proceeds w j t j' :
  Inv w → reader_job j = false → simple j' = true → proceeds w j (gateway w, WaitTask t j').
Proof.
  intros Hi Hj Hj'. apply quiet_proceeds; [done|]. split_and!; [by apply inv_flights|done|]. by destruct j'.
Qed.

Lemma plain_requests (op : string) ps auth_token :
  existsb (str_eqb (u op)) account_operations = false →
  existsb (str_eqb (u op)) (u <$> ["messages.delete"; "messages.delete_many"]%string) = false →
  plain_call (_call op ps auth_token).
Proof. intros H1 H2 [|s]; unfold mutates; cbn [c_operation _call]; [done|]. by rewrite H2. Qed.

Ltac side := first [done | by apply shrinks_same | by apply plain_requests].

Lemma list_mailboxes_proceeds w t j auth_token account :
  Inv w → reader_job j = false → proceeds w j (list_mailboxes (ctx_of w t) auth_token account (gateway w)).
Proof.
  intros Hi Hj. pose proof (shrinks_refl (gateway w)). unfold list_mailboxes, pass.
  destruct (_authorization_cache_key _); [|by apply finish_proceeds].
  destruct (cached_mailboxes _ _ _); [by apply finish_proceeds|].
  apply call_proceeds; side.
Qed.
Lemma session_proceeds w t j auth_token :
  Inv w → reader_job j = false → proceeds w j (session (ctx_of w t) auth_token (gateway w)).
Proof.
  intros Hi Hj. pose proof (shrinks_refl (gateway w)). unfold session, pass.
  destruct (_authorization_cache_key _); [|by apply finish_proceeds].
  destruct (cached_session _ _ _); [by apply finish_proceeds|].
  destruct (dget _ _); [by apply wait_task_proceeds|].
  apply spawn_proceeds; side.
Qed.
Lemma health_proceeds w t j auth_token :
  Inv w → reader_job j = false → proceeds w j (health (ctx_of w t) auth_token (gateway w)).
Proof.
  intros Hi Hj. pose proof (shrinks_refl (gateway w)).
  assert (proceeds w j (if health_lock (gateway w) then (gateway w, WaitLock (Health auth_token))
     else (set_health (health_cache (gateway w)) true (gateway w),
           CallHelper (_call "maddy.health" [] auth_token) (ProbeHealth auth_token)))) as Hu.
  { destruct (health_lock _).
    - apply quiet_proceeds; [done|]. split_and!; [by apply inv_flights|done|done].
    - apply call_proceeds; side. }
  unfold health, pass. destruct (health_cache _) as [[e v]|]; [|done].
  destruct (_ <? _); [by apply finish_proceeds|done].
Qed.

Definition starts_mutation (j : job) : bool :=
  match j with AccountMutation _ _ _ _ | MessageMutation _ (Ok _) => true | _ => false end.
Lemma begin_proceeds w t j :
  Inv w → tame j → starts_mutation j = false → proceeds w j (begin (ctx_of w t) j (gateway w)).
Proof.
  intros Hi Ht Hs. pose proof (shrinks_refl (gateway w)).
  destruct j as [r|before [rq|e] finally except check following| | |s [rq|e]| |account rq| | | | | | | | | | | | | | | |];
    try done; cbn [begin].
  - by apply finish_proceeds.
  - apply call_proceeds; [done|apply shrinks_all|done|done|done].
  - apply finish_proceeds; [done| |done]. eapply shrinks_trans; apply shrinks_all.
  - by apply finish_proceeds.
  - apply spawn_proceeds; try done. apply shrinks_invalidate.
  - by apply list_accounts_proceeds.
  - by apply list_mailboxes_proceeds.
  - by apply list_messages_proceeds.
  - by apply session_proceeds.
  - by apply health_proceeds.
Qed.

Lemma caught_proceeds w j answer k :
  Inv w → reader_job j = false → (∀ r, proceeds w j (k r)) → proceeds w j (caught answer (gateway w) k).
Proof.
  intros Hi Hj Hk. unfold caught, pass. destruct answer as [v|[]]; try done; apply finish_proceeds; try done;
    by apply shrinks_same.
Qed.
Lemma end_health_proceeds w t j probe v :
  Inv w → reader_job j = false → proceeds w j (end_health (ctx_of w t) probe v (gateway w)).
Proof. intros Hi Hj. apply finish_proceeds; [done| |done]. by apply shrinks_same. Qed.

(** From the await of a call on, in a task that runs no mutation. *)
Lemma resume_call_proceeds w t j c answer :
  Inv w → tasks w !! t = Some (Task j (OnCall c)) → mutation_job j = false → answers w c answer →
  proceeds w j (resume_call (ctx_of w t) j answer (gateway w)).
Proof.
  intros Hi Ht Hm Ha. pose proof (shrinks_refl (gateway w)) as Hs.
  pose proof (inv_tasks w Hi _ _ Ht) as [Hlt Hok]. cbn [t_job] in Hok.
  destruct j as [ |before request finally except check following| | | | | |account| | | |gen key|
    |key gen| |auth_token key gen| | | | |auth_token|auth_token probe|probe];
    try (by apply finish_proceeds); try done; cbn [resume_call].
  - pose proof (shrinks_all finally (gateway w)) as Hf. destruct answer as [v|[]]; try by apply finish_proceeds.
    destruct (check v) as [r|]; [|by apply finish_proceeds]. apply finish_proceeds; [done| |done].
    eapply shrinks_trans; [done|apply shrinks_all].
  - apply finish_proceeds; [done|apply shrinks_invalidate|done].
  - by eapply run_account_read_proceeds.
  - unfold read_mailboxes, pass. destruct answer as [v|]; [|by apply finish_proceeds].
    destruct (_sequence v); [|by apply finish_proceeds]. apply finish_proceeds; [done|by apply shrinks_same|done].
  - destruct Hok as [Hk Hr]. by eapply read_messages_ok.
  - apply caught_proceeds; [done|done|]. intros r. destruct (x_certificates _); [|by apply end_health_proceeds].
    apply call_proceeds; side.
  - apply caught_proceeds; [done|done|]. intros [v|e]; [by apply end_health_proceeds|].
    destruct e; try by apply end_health_proceeds. destruct (str_eqb _ _); [|by apply end_health_proceeds].
    apply call_proceeds; side.
  - apply caught_proceeds; [done|done|]. intros r. by apply end_health_proceeds.
Qed.

Lemma resume_join_proceeds w t j r :
  Inv w → proceeds w j (resume_join (ctx_of w t) j r (gateway w)).
Proof.
  intros Hi. pose proof (shrinks_refl (gateway w)) as Hs.
  destruct j; try (by apply finish_proceeds); cbn [resume_join].
  - apply finish_proceeds; [done|apply shrinks_all|done].
  - by apply await_flight_proceeds.
  - by apply quiet_proceeds; [|split; [apply inv_flights|]].
  - unfold await_session, pass. destruct r; (apply finish_proceeds; [done|by apply shrinks_same|done]).
Qed.

(** ** Mutations *)

(** The gateway's state moves on for a mutation of the lane [l0]: [d] more are
    counted, the generation grows and nothing of the lane stays cached. *)
Record moves (l0 : lane) (d : Z) (g g' : HelperGateway) : Prop := {
  m_inflight : ∀ l, inflight l g' = inflight l g + d * Z.b2z (bool_decide (l = l0));
  m_generation : ∀ l, gen_le (generation l g) (generation l g');
  m_moved : generation l0 g ≠ generation l0 g';
  m_tracked : ∀ l t, t ∈ tracked l g → t ∈ tracked l g';
  m_cache : ∀ e, account_cache (accounts g') = Some e → account_cache (accounts g) = Some e ∧ l0 ≠ AccountLane;
  m_messages : ∀ e, e ∈ message_list_cache (messages g') →
    e ∈ message_list_cache (messages g) ∧ l0 ≠ MessageLane (key_scope e.1);
  m_flight : ∀ f, account_flight (accounts g') = Some f → account_flight (accounts g) = Some f
}.

Lemma moves_after_shrink l0 d g g1 g' : shrinks g g1 → moves l0 d g1 g' → moves l0 d g g'.
Proof.
  intros [A1 A2 A3 A4 A5 A6] [B1 B2 B3 B4 B5 B6 B7]. split.
  - intros l. by rewrite B1, A1.
  - intros l. eapply gen_le_trans; [apply A2|apply B2].
  - intros E. apply B3. apply gen_le_antisym; [apply B2|]. rewrite <- E. apply A2.
  - intros l t. rewrite <- A3. apply B4.
  - intros e He. destruct (B5 e He). auto.
  - intros e He. destruct (B6 e He). auto.
  - auto.
Qed.

Lemma not_in_scope account mailbox (k : scope) :
  negb (in_scope account (Some mailbox) k) = true → (account, mailbox) ≠ k.
Proof. intros H <-. unfold in_scope in H. simpl in H. by rewrite !str_eqb_refl in H. Qed.

Lemma moves_lists s (F : scope → Z) d (T : scope → list nat) q g :
  (∀ s', F s' = message_mutations_inflight (messages g) s' + d * Z.b2z (bool_decide (MessageLane s' = MessageLane s))) →
  (∀ s' t, t ∈ message_mutation_tasks (messages g) s' → t ∈ T s') →
  let m := _invalidate_message_lists s.1 (Some s.2) (messages g) in
  moves (MessageLane s) d g
    (set_messages (Messages (message_list_cache m) (message_account_generation m) (message_mailbox_generation m)
                     F T q) g).
Proof.
  intros Hf Ht m. destruct s as [a b]. split; cbn.
  - intros [|s]; [rewrite bool_decide_eq_false_2 by done; simpl; lia|]. apply Hf.
  - intros [|s]; [apply gen_le_refl|]. split; cbn; [done|]. apply (insert_le (message_mailbox_generation (messages g))).
  - unfold _message_generation. cbn. rewrite fn_lookup_insert. intros [= E]. lia.
  - intros [|s] t; [done|]. apply Ht.
  - done.
  - intros e. rewrite list_elem_of_In, List.filter_In, <- list_elem_of_In. intros [He Hs]. split; [done|].
    intros [= E]. by apply (not_in_scope a b (key_scope e.1)).
  - done.
Qed.
Lemma insert_count (f : scope → Z) s d v s' :
  v = f s + d → (<[s := v]> f : scope → Z) s' = f s' + d * Z.b2z (bool_decide (MessageLane s' = MessageLane s)).
Proof.
  intros ->. destruct (decide (s' = s)) as [->|Hn].
  - rewrite fn_lookup_insert, bool_decide_eq_true_2 by done. simpl. lia.
  - rewrite fn_lookup_insert_ne by done. rewrite bool_decide_eq_false_2 by congruence. simpl. lia.
Qed.

Lemma moves_account (d : Z) tasks' q g :
  (∀ t, t ∈ account_mutation_tasks (accounts g) → t ∈ tasks') →
  moves AccountLane d g
    (set_accounts (Accounts None None (account_generation (accounts g) + 1)
                     (account_mutations_inflight (accounts g) + d) tasks' q) g).
Proof.
  intros Ht. split; cbn; try done.
  - intros [|s]; [rewrite bool_decide_eq_true_2 by done|rewrite bool_decide_eq_false_2 by done]; simpl; lia.
  - intros [|s]; [split; simpl; lia|apply gen_le_refl].
  - intros [= E]. lia.
  - intros [|s] t; [apply Ht|done].
Qed.

Lemma moves_flights w l0 d g' : Inv w → moves l0 d (gateway w) g' → flights_ok w g'.
Proof. intros Hi Hm f Hf. by apply (inv_flights w Hi), (m_flight _ _ _ _ Hm). Qed.
Lemma moves_tracks w l0 d g' : Inv w → moves l0 d (gateway w) g' → tracks w g'.
Proof. intros Hi Hm l t x Hx Hr. apply (m_tracked _ _ _ _ Hm). by eapply (inv_tracks w Hi). Qed.
Lemma moves_cache w l0 d g' : Inv w → moves l0 d (gateway w) g' → cache_ok w g'.
Proof.
  intros Hi Hm. destruct (inv_cache w Hi) as [Ha Hl]. split.
  - intros e v key H. destruct (m_cache _ _ _ _ Hm _ H) as [H' Hn]. rewrite (m_inflight _ _ _ _ Hm).
    rewrite bool_decide_eq_false_2 by done. rewrite Z.mul_0_r, Z.add_0_r. by eapply Ha.
  - intros key e v H. destruct (m_messages _ _ _ _ Hm _ H) as [H' Hn]. rewrite (m_inflight _ _ _ _ Hm).
    rewrite bool_decide_eq_false_2 by done. rewrite Z.mul_0_r, Z.add_0_r. by eapply Hl.
Qed.

(** A mutation begins. *)
Lemma begin_mutation_inv w t j s l0 g' child rq finally none :
  Inv w → tasks w !! t = Some (Task j s) → (∀ l, running l (Task j s) = false) → reader_job j = false →
  moves l0 1 (gateway w) g' → length (tasks w) ∈ tracked l0 g' → (∀ l, l ≠ l0 → mutates l rq = false) →
  (∀ l c, running l (Task child (OnCall c)) = bool_decide (l = l0)) → mutation_job child = true →
  Inv (perform t j w (g', Spawn child rq (Shielded finally none))).
Proof.
  intros Hi Ht Hr Hj Hm Hnew Hrq Hchild Hmj. unfold perform.
  rewrite <- (insert_app_l (tasks w)) by by eapply lookup_lt_Some.
  set (x := Task child (OnCall (length (calls w)))).
  assert (Inv (with_tasks g' (tasks w ++ [x]) (make_call rq w))) as Hi2.
  { apply (inv_append w (make_call rq w)); try done.
    - by apply placed_call, inv_placed.
    - by exists [rq].
    - intros l. unfold x. rewrite Hchild. intros Hl%bool_decide_eq_false. apply calm_call; [by apply inv_placed|auto].
    - intros l. unfold x. rewrite Hchild. intros ->%bool_decide_eq_true. apply (m_moved _ _ _ _ Hm).
    - intros l. unfold x. rewrite Hchild, (m_inflight _ _ _ _ Hm). lia.
    - apply (m_generation _ _ _ _ Hm).
    - intros l m [Hmm| ->%list_elem_of_singleton]%elem_of_app Hmut; [by left|right]. split; [done|].
      destruct Hmut as (r & Hrr & Hmm). cbn [calls make_call with_calls] in Hrr.
      rewrite lookup_app_r, Nat.sub_diag in Hrr by done. injection Hrr as <-. unfold x. rewrite Hchild.
      apply bool_decide_eq_true. destruct (decide (l = l0)) as [|Hn]; [done|]. by rewrite Hrq in Hmm.
    - by eapply moves_tracks.
    - intros l. unfold x. rewrite Hchild. by intros ->%bool_decide_eq_true.
    - by eapply moves_cache.
    - by eapply moves_flights.
    - split; [cbn; rewrite length_app; simpl; lia|]. unfold x. cbn [t_job]. by destruct child. }
  apply (inv_quiet_set _ g' t j s _ Hi2); try done.
  - by apply lookup_app_l_Some.
  - apply (inv_tracks _ Hi2).
  - apply (inv_cache _ Hi2).
  - apply (inv_flights _ Hi2).
  - by rewrite Hj.
Qed.

(** A mutation ends. *)
Lemma end_mutation_inv w t j c l0 g' r :
  Inv w → tasks w !! t = Some (Task j (OnCall c)) → mutation_job j = true →
  (∀ l, running l (Task j (OnCall c)) = bool_decide (l = l0)) → c ∉ threads w →
  moves l0 (-1) (gateway w) g' → Inv (with_tasks g' (<[t := Task j (Done r)]> (tasks w)) w).
Proof.
  intros Hi Ht Hj Hr Hc Hm. apply (inv_set _ _ _ _ _ Hi Ht).
  - intros l. by apply not_call_not_running.
  - intros l. rewrite Hr, (m_inflight _ _ _ _ Hm). lia.
  - apply (m_generation _ _ _ _ Hm).
  - intros l. rewrite Hr. intros ->%bool_decide_eq_true. apply (m_moved _ _ _ _ Hm).
  - intros l c0 _ [= <-]. done.
  - by eapply moves_tracks.
  - by eapply moves_cache.
  - by eapply moves_flights.
  - simpl. intros gen key ->. done.
  - unfold task_ok. cbn. destruct r; [|done]. by destruct j.
Qed.

Lemma begin_account_mutation_inv w t before rq finally none :
  Inv w → tasks w !! t = Some (Task (AccountMutation before rq finally none) Ready) →
  tame (AccountMutation before rq finally none) →
  Inv (perform t (AccountMutation before rq finally none) w
         (begin (ctx_of w t) (AccountMutation before rq finally none) (gateway w))).
Proof.
  intros Hi Ht Hrq. cbn [begin pass x_next ctx_of]. unfold pass.
  apply (begin_mutation_inv w t _ Ready AccountLane); try done.
  - eapply moves_after_shrink; [apply shrinks_all|]. apply (moves_account 1).
    intros t0 H. apply elem_of_app. by left.
  - cbn. apply elem_of_app. right. by left.
  - intros [|s] Hl; [done|]. apply Hrq.
Qed.
Lemma begin_message_mutation_inv w t s rq :
  Inv w → tasks w !! t = Some (Task (MessageMutation s (Ok rq)) Ready) → tame (MessageMutation s (Ok rq)) →
  Inv (perform t (MessageMutation s (Ok rq)) w (begin (ctx_of w t) (MessageMutation s (Ok rq)) (gateway w))).
Proof.
  intros Hi Ht Hrq. cbn [begin x_next ctx_of]. unfold pass.
  apply (begin_mutation_inv w t _ Ready (MessageLane s)); try done.
  - unfold _message_mutation. apply moves_lists.
    + intros s'. by apply (insert_count (message_mutations_inflight (messages (gateway w))) s 1).
    + intros s' t0. cbn. destruct (decide (s' = s)) as [->|Hn].
      * rewrite fn_lookup_insert. intros H. apply elem_of_app. by left.
      * by rewrite fn_lookup_insert_ne.
  - cbn. rewrite fn_lookup_insert. apply elem_of_app. right. by left.
Qed.

Lemma resume_call_inv w t j c answer :
  Inv w → tasks w !! t = Some (Task j (OnCall c)) → c ∉ threads w → answers w c answer →
  Inv (perform t j w (resume_call (ctx_of w t) j answer (gateway w))).
Proof.
  intros Hi Ht Hc Ha. destruct (mutation_job j) eqn:Hj.
  - assert (∀ l0, (∀ l, running l (Task j (OnCall c)) = bool_decide (l = l0)) → 1 ≤ inflight l0 (gateway w)) as Hpos.
    { intros l0 Hr. rewrite (inv_counts w Hi). assert (0 < count l0 (tasks w)); [|lia]. apply running_pos.
      exists t, (Task j (OnCall c)). split; [done|]. rewrite Hr. by apply bool_decide_eq_true. }
    destruct j; try done; cbn [resume_call]; unfold pass, perform.
    + eapply (end_mutation_inv w t _ c AccountLane); try done. by apply (moves_account (-1)).
    + eapply (end_mutation_inv w t _ c (MessageLane s)); try done.
      unfold _run_message_mutation. apply moves_lists; [|done]. intros s'.
      apply (insert_count (message_mutations_inflight (messages (gateway w))) s (-1)).
      specialize (Hpos (MessageLane s)). cbn in Hpos. lapply Hpos; [lia|done].
  - apply (perform_inv _ _ _ _ _ Hi Ht); [intros l; by apply mutation_not_running|]. by eapply resume_call_proceeds.
Qed.

(** ** Every interleaving *)

Definition quiet_operation (op : string) : bool :=
  negb (existsb (str_eqb (u op)) account_operations)
  && negb (existsb (str_eqb (u op)) (u <$> ["messages.delete"; "messages.delete_many"]%string)).
Lemma quiet_plain op ps auth_token n :
  quiet_operation op = true → plain_call (MkCall (u op) ps auth_token n).
Proof.
  intros [H1%negb_true_iff H2%negb_true_iff]%andb_true_iff [|s]; unfold mutates; cbn [c_operation]; [done|].
  by rewrite H2.
Qed.
Lemma method_tame before op ps auth_token finally except check following :
  quiet_operation op = true → tame (Method before (Ok (_call op ps auth_token)) finally except check following).
Proof. apply quiet_plain. Qed.
Lemma step_tame account op ps auth_token :
  quiet_operation op = true → tame (MailRuleStep account (_call op ps auth_token)).
Proof. apply quiet_plain. Qed.
Lemma account_tame before op ps auth_token finally none :
  existsb (str_eqb (u op)) (u <$> ["messages.delete"; "messages.delete_many"]%string) = false →
  tame (AccountMutation before (_call op ps auth_token) finally none).
Proof. intros H s. unfold mutates. cbn [c_operation _call]. by rewrite H. Qed.

Lemma move_tame auth account mailbox which target drops following :
  tame (_move auth account mailbox which target drops following).
Proof. unfold _move. destruct which as [k [uid|e]]; [|done]. by apply quiet_plain. Qed.
Lemma set_seen_tame auth account mailbox uid_set seen : tame (_set_seen auth account mailbox uid_set seen).
Proof. unfold _set_seen. destruct uid_set; [|done]. destruct seen; by apply quiet_plain. Qed.
Lemma logout_tame auth_token : tame (logout auth_token).
Proof. unfold logout. destruct (_authorization_cache_key _); [|done]. by apply quiet_plain. Qed.
Lemma upload_tame before op ps auth_token size finally except check following :
  quiet_operation op = true →
  tame (Method before (_upload op ps auth_token size) finally except check following).
Proof. intros H. unfold _upload. destruct (_ && _); [|done]. by apply quiet_plain. Qed.

Lemma delete_tame account mailbox (op : string) rest auth :
  existsb (str_eqb (u op)) account_operations = false →
  tame (MessageMutation (account, mailbox)
    (Ok (_call op (("target_account_id"%string, JStr account) :: ("mailbox"%string, JStr mailbox) :: rest) auth))).
Proof.
  intros Hop [|[a b]] Hl; [done|]. unfold mutates. apply andb_false_iff.
  destruct (str_eqb mailbox b) eqn:Hb; [|by right]. left. apply andb_false_iff.
  destruct (str_eqb account a) eqn:Ha; [|by right].
  apply str_eqb_true in Ha as ->. by apply str_eqb_true in Hb as ->.
Qed.

Lemma public_tame j : public j → tame j.
Proof.
  destruct 1; try exact I; first
    [ by apply method_tame | by apply step_tame | by apply account_tame | apply move_tame | apply set_seen_tame
    | apply logout_tame | by apply upload_tame | idtac ].
  - unfold spool_message. destruct (_ && _); [|done]. by apply method_tame.
  - unfold delete_message_permanently. destruct (_single_uid m); [|done]. by apply delete_tame.
  - unfold delete_messages_permanently. destruct (_uid_set _); [|done]. by apply delete_tame.
  - unfold certificate_status. destruct e; [|done]. by apply method_tame.
  - unfold set_certificate_timer. destruct e; by apply method_tame.
Qed.

Lemma inv_start certificates version str_of : Inv (new_world certificates version str_of).
Proof.
  split; cbn; try done.
  - split; [constructor|]. by intros c ?%not_elem_of_nil.
  - by intros [].
  - by intros l m ?%not_elem_of_nil.
  - split; [done|]. by intros key e v ?%not_elem_of_nil.
Qed.

Lemma elem_of_threads_log w c response : placed w → (c, response) ∈ log w → c ∉ threads w.
Proof.
  intros [Hn _] Hl Ht. apply NoDup_app in Hn as (_ & Hn & _). eapply Hn; [done|].
  apply elem_of_app. left. by apply (list_elem_of_fmap_2 fst _ (c, response)).
Qed.
Lemma find_response_elem c l r : find_response c l = Some r → (c, r) ∈ l.
Proof. apply dget_elem. Qed.

Lemma looping_tame j : looping j → tame j ∧ starts_mutation j = false.
Proof. by destruct j. Qed.

Lemma wake_inv w t j s w' :
  Inv w → tasks w !! t = Some (Task j s) → step w (Wake t) = Some w' → Inv w'.
Proof.
  intros Hi Ht Hs. pose proof (inv_tasks w Hi _ _ Ht) as Hok. unfold task_ok in Hok. cbn [t_state t_job] in Hok.
  unfold step in Hs. rewrite Ht in Hs. destruct s as [|c|t'|ts| |r]; try done.
  - injection Hs as <-. destruct (starts_mutation j) eqn:Hm.
    + destruct j; try done; [by apply begin_account_mutation_inv|]. destruct request; [|done].
      by apply begin_message_mutation_inv.
    + eapply perform_inv; [done|done|by intros l; apply not_call_not_running|by apply begin_proceeds].
  - destruct (tasks w !! t') as [[j' [| | | | |r]]|]; try done. injection Hs as <-.
    eapply perform_inv; [done|done|by intros l; apply not_call_not_running|by apply resume_join_proceeds].
  - destruct (forallb _ _); [|done]. injection Hs as <-. apply looping_tame in Hok as [??].
    eapply perform_inv; [done|done|by intros l; apply not_call_not_running|by apply begin_proceeds].
  - destruct (health_lock _); [done|]. injection Hs as <-. apply looping_tame in Hok as [??].
    eapply perform_inv; [done|done|by intros l; apply not_call_not_running|by apply begin_proceeds].
Qed.

Lemma cancel_inv w t w' : Inv w → step w (Cancel t) = Some w' → Inv w'.
Proof.
  intros Hi Hs. unfold step in Hs. destruct (tasks w !! t) as [[j s]|] eqn:Ht; [|done].
  destruct (is_wrapper j) eqn:Hw; [done|].
  assert (∀ l, running l (Task j s) = false) as Hr by (intros l; apply mutation_not_running; by destruct j).
  assert (reader_job j = false) as Hj by by destruct j.
  assert (proceeds w j (gateway w, Finish (Err CancelledError))) as Hf.
  { apply finish_proceeds; [done|apply shrinks_refl|done]. }
  pose proof (λ ga, perform_inv w t j s ga Hi Ht Hr) as Hperform.
  destruct s; try done; injection Hs as <-; try exact (Hperform _ Hf).
  - eapply Hperform, resume_call_proceeds; [done|done|by destruct j|done].
  - by apply Hperform, resume_join_proceeds.
Qed.

Lemma forget_inv w t : Inv w → is_done w t = true → Inv (with_tasks (forget t (gateway w)) (tasks w) w).
Proof.
  intros Hi Hd. unfold is_done in Hd. destruct (tasks w !! t) as [[j [| | | | |r]]|] eqn:Ht; try done.
  rewrite <- (list_insert_id (tasks w) t _ Ht) at 1.
  assert (∀ l, running l (Task j (Done r)) = false) as Hr by (intros l; by apply not_call_not_running).
  assert (task_ok (with_tasks (forget t (gateway w)) (tasks w) w) (Task j (Done r))) as Hok.
  { eapply task_ok_evolves; [|by eapply (inv_tasks w)]. split; [by exists []; rewrite app_nil_r|intros []; apply gen_le_refl| |done].
    intros l _. split; [by apply calm_same|by destruct l]. }
  apply (inv_quiet_set w _ t j (Done r)); try done.
  - intros l t' x Hx Hrx. pose proof (inv_tracks w Hi l t' x Hx Hrx) as H.
    assert (t' ≠ t) as Hn by (intros ->; rewrite Ht in Hx; injection Hx as <-; by rewrite Hr in Hrx).
    destruct l; by apply elem_of_dropped.
  - apply (inv_cache w Hi).
  - apply (inv_flights w Hi).
Qed.

Lemma step_inv w e w' : Inv w → (∀ j, e = Start j → tame j) → step w e = Some w' → Inv w'.
Proof.
  intros Hi Htame Hs. pose proof (inv_placed w Hi) as Hp.
  destruct e as [j|t|c|response|t|t e|t|t|d].
  - injection Hs as <-. apply inv_new; try done; [by intros l; apply calm_same|by intros []; destruct j|]. by apply Htame.
  - destruct (tasks w !! t) as [[j s]|] eqn:Ht; [by eapply wake_inv|]. unfold step in Hs. by rewrite Ht in Hs.
  - unfold step in Hs. destruct (bool_decide_reflect (c ∈ threads w)) as [Hc|]; [|done]. injection Hs as <-.
    apply (inv_calls w); try done; [by apply placed_connected|intros l; by apply calm_connected|].
    intros m [Hm _]%elem_of_dropped. by left.
  - unfold step in Hs. destruct (queue w) as [|c q] eqn:Hq; [done|]. injection Hs as <-.
    apply (inv_calls w); try done; [by apply placed_answered|intros l; by apply calm_answered|]. auto.
  - unfold step in Hs. destruct (tasks w !! t) as [[j [|c| | | |]]|] eqn:Ht; try done.
    destruct (find_response c (log w)) as [r|] eqn:Hf; [|done]. injection Hs as <-.
    apply find_response_elem in Hf. apply (resume_call_inv w t j c); [done|done|by eapply elem_of_threads_log|].
    destruct (_checked_result r) eqn:Hr; [|done]. by exists r.
  - unfold step in Hs. destruct (tasks w !! t) as [[j [|c| | | |]]|] eqn:Ht; try done. injection Hs as <-.
    assert (Inv (given_up c w)) as Hi'.
    { apply (inv_calls w); try done; [by apply placed_given_up|intros l; apply calm_given_up|].
      intros m [Hm _]%elem_of_dropped. by left. }
    apply (resume_call_inv (given_up c w) t j c); try done. by intros [_ ?]%elem_of_dropped.
  - by eapply cancel_inv.
  - unfold step in Hs. destruct (is_done w t) eqn:Hd; [|done]. injection Hs as <-. by apply forget_inv.
  - unfold step in Hs. destruct (0 <=? d); [|done]. injection Hs as <-.
    apply (inv_calls w); try done; [intros l; by apply calm_same|auto].
Qed.

Lemma gateway_inv certificates version str_of w :
  reachable (new_world certificates version str_of) w → Inv w.
Proof.
  induction 1 as [|w e w' _ IH Hpub Hs]; [apply inv_start|]. eapply step_inv; [done| |done].
  intros j ->. by apply public_tame, Hpub.
Qed.

(** ** What a task returns *)

(** How a task came to return a value. *)
Inductive returns (w : world) (t : nat) (j : job) (v : json) : state → Prop :=
| ret_begin s : (∀ c, s ≠ OnCall c) → (begin (ctx_of w t) j (gateway w)).2 = Finish (Ok v) → returns w t j v s
| ret_join t' j' r : tasks w !! t' = Some (Task j' (Done r)) →
    (resume_join (ctx_of w t) j r (gateway w)).2 = Finish (Ok v) → returns w t j v (OnTask t')
| ret_cancel t' : (resume_join (ctx_of w t) j (Err CancelledError) (gateway w)).2 = Finish (Ok v) →
    returns w t j v (OnTask t')
| ret_call c answer : answers w c answer → (resume_call (ctx_of w t) j answer (gateway w)).2 = Finish (Ok v) →
    returns w t j v (OnCall c).

Lemma perform_other t t' j w ga x :
  t' ≠ t → tasks w !! t' = Some x → tasks (perform t j w ga) !! t' = Some x.
Proof.
  intros Hn Ht. destruct ga as [g []]; cbn; rewrite ?list_lookup_insert_ne by done; try done.
  apply lookup_app_l_Some. by rewrite list_lookup_insert_ne.
Qed.
Lemma perform_self t j w ga x j' v :
  tasks w !! t = Some x → tasks (perform t j w ga) !! t = Some (Task j' (Done (Ok v))) →
  ga.2 = Finish (Ok v) ∧ (∀ l, calm l w (perform t j w ga)).
Proof.
  intros Ht. assert (t < length (tasks w))%nat as Hlt by by eapply lookup_lt_Some.
  destruct ga as [g [r|rq j1|child rq j1|t1 j1|ts j1|j1]]; unfold perform; cbn -[insert].
  2-6: rewrite ?lookup_app_l by (by rewrite length_insert); rewrite list_lookup_insert_eq by done; done.
  rewrite list_lookup_insert_eq by done. intros [= _ ->]. split; [done|]. intros l. by apply calm_same.
Qed.

(** The task named by an event, or one that the event does not touch. *)
Lemma step_returns w e w' t j s j' v :
  Inv w → step w e = Some w' → tasks w !! t = Some (Task j s) → (∀ r, s ≠ Done r) →
  tasks w' !! t = Some (Task j' (Done (Ok v))) → returns w t j v s ∧ ∀ l, calm l w w'.
Proof.
  intros Hi Hs Ht Hnd Ht'.
  assert (∀ ts, ts = tasks w → ts !! t = Some (Task j' (Done (Ok v))) → False) as Hsame.
  { intros ts ->. rewrite Ht. intros [= -> ->]. by eapply Hnd. }
  assert (∀ t0 j0 w0 ga, tasks w0 = tasks w → tasks (perform t0 j0 w0 ga) !! t = Some (Task j' (Done (Ok v))) →
            t0 = t ∧ ga.2 = Finish (Ok v) ∧ ∀ l, calm l w0 (perform t0 j0 w0 ga)) as Hperf.
  { intros t0 j0 w0 ga Hw0 H. assert (t0 = t) as ->.
    { destruct (decide (t0 = t)) as [|Hn]; [done|]. rewrite (perform_other t0 t j0 w0 ga (Task j s)) in H by congruence.
      injection H as -> ->. by destruct (Hnd (Ok v)). }
    split; [done|]. eapply perform_self; [|done]. by rewrite Hw0. }
  destruct e as [j0|t0|c|response|t0|t0 e0|t0|t0|d]; unfold step in Hs.
  - injection Hs as <-. exfalso. cbn in Ht'. rewrite lookup_app_l in Ht' by by eapply lookup_lt_Some. by eapply Hsame.
  - destruct (tasks w !! t0) as [[j0 s0]|] eqn:Ht0; [|done].
    destruct s0 as [| |t1|ts| |]; try done; repeat case_match; try done; injection Hs as <-;
      apply Hperf in Ht' as (-> & Hga & Hc); try done; rewrite Ht in Ht0; injection Ht0 as -> ->; (split; [|done]);
      by econstructor.
  - case_match; [|done]. injection Hs as <-. exfalso. by eapply Hsame.
  - case_match; [done|]. injection Hs as <-. exfalso. by eapply Hsame.
  - destruct (tasks w !! t0) as [[j0 [|c| | | |]]|] eqn:Ht0; try done.
    destruct (find_response c (log w)) as [r|] eqn:Hf; [|done]. injection Hs as <-.
    apply Hperf in Ht' as (-> & Hga & Hc); [|done]. rewrite Ht in Ht0. injection Ht0 as -> ->. split; [|done].
    eapply ret_call; [|done]. destruct (_checked_result r) eqn:Hr; [|done].
    exists r. split; [by apply find_response_elem|done].
  - destruct (tasks w !! t0) as [[j0 [|c| | | |]]|] eqn:Ht0; try done. injection Hs as <-.
    apply Hperf in Ht' as (-> & Hga & Hc); [|done]. rewrite Ht in Ht0. injection Ht0 as -> ->. split.
    + by eapply (ret_call _ _ _ _ c (Err (Exn e0))).
    + intros l. destruct (Hc l) as ([cs E1] & E2 & E3). destruct (calm_given_up l c w) as (_ & _ & E4).
      split; [by exists cs|]. split; [done|]. intros c0 Hc0 Hq. apply E3; [done|]. by apply E4.
  - destruct (tasks w !! t0) as [[j0 s0]|] eqn:Ht0; [|done]. destruct (is_wrapper j0); [done|].
    destruct s0 as [|c|t1| | |]; try done; injection Hs as <-;
      first [apply Hperf in Ht' as (-> & Hga & Hc); [|done]
            |by apply (Hperf t0 j0 w (gateway w, Finish (Err CancelledError))) in Ht' as (_ & ? & _)];
      rewrite Ht in Ht0; injection Ht0 as -> ->; (split; [|done]).
    + by eapply (ret_call _ _ _ _ c (Err CancelledError)).
    + by apply ret_cancel.
  - case_match; [|done]. injection Hs as <-. exfalso. by eapply Hsame.
  - case_match; [|done]. injection Hs as <-. exfalso. by eapply Hsame.
Qed.
