(* ===== verification/GatewayClaims.v ===== *)
(** * Theorems on the gateway, and what it does not promise

    The claims on the caches of [Gateway], from the invariant of [GatewaySpecs];
    runs of concrete worlds that witness them; and two runs in which a cache
    outlives what it shows: a message list read during the renaming of its mailbox,
    and a session read during its logout. *)

From stdpp Require Import functions.
From S2P Require Import Prelude Text Errors Json Totp Protocol Gateway GatewaySpecs.
#[local] Open Scope Z_scope.

(** The coroutine of [list_accounts], and that of [list_messages]. *)
Definition lists_accounts (auth_token : token) (j : job) : Prop :=
  j = ListAccounts auth_token ∨ ∃ f, j = AwaitFlight auth_token f.
Definition lists_messages (auth_token : token) (s : scope) (limit offset : Z) (j : job) : Prop :=
  j = ListMessages auth_token s limit offset
  ∨ ∃ key gen, j = ReadMessages auth_token key gen ∧ key_scope key = s ∧ key.1.2 = limit ∧ key.2 = offset.

Section Claims.
Context (certificates : bool) (version : list Z) (str_of : json → list Z) (w w' : world) (e : event).
Context (Hreach : reachable (new_world certificates version str_of) w) (Hstep : step w e = Some w').


(** C13: a message list is never older than a deletion: when [list_messages]
    returns, from its cache or from a read, the page was answered to a caller with
    the same authorization key, and no permanent deletion of messages in that
    mailbox was served after that answer or can still reach the helper. *)
Theorem message_lists_never_stale t j s j' auth_token mailbox limit offset v :
  tasks w !! t = Some (Task j s) → lists_messages auth_token mailbox limit offset j → (∀ r, s ≠ Done r) →
  tasks w' !! t = Some (Task j' (Done (Ok v))) → messages_fresh w' auth_token mailbox limit offset v.
Proof using All.
  intros Ht Hj Hnd Ht'. pose proof (gateway_inv _ _ _ _ Hreach) as Hi.
  destruct (step_returns w e w' t j s j' v Hi Hstep Ht Hnd Ht') as [Hret Hcalm].
  assert (messages_fresh w auth_token mailbox limit offset v) as (key & Hk & Hf).
  { pose proof (inv_tasks w Hi _ _ Ht) as Hok.
    destruct Hj as [->|(key & gen & -> & <- & <- & <-)];
      destruct Hret as [s Hs Hb|t' j0 r Ht0 Hb|t' Hb|c answer Ha Hb]; try done.
    - by apply (list_messages_fresh w t).
    - destruct Hok as (Hlt & Hk & Hr).
      destruct (read_messages_ok w t (ReadMessages auth_token key gen) auth_token key gen c answer Hi eq_refl Hk Hr Ha)
        as [_ Hread]. by apply Hread. }
  exists key. split; [done|]. by apply (fresh_calm _ _ _ _ w).
Qed.

(** No reader loses track of the mutations it waits for: while any is
    counted, one of the tasks the reader gathers is still running, so
    [list_accounts] and [list_messages] never fail with a lost tracking. *)
Theorem mutations_stay_tracked key mkey now :
  (list_accounts_turn (is_done w) key now (accounts (gateway w))).1 ≠ Lost
  ∧ (list_messages_turn (is_done w) mkey now (messages (gateway w))).1 ≠ Lost.
Proof using Hreach.
  pose proof (gateway_inv _ _ _ _ Hreach) as Hi.
  assert (∀ l, inflight l (gateway w) ≠ 0 → undone (is_done w) (tracked l (gateway w)) ≠ []) as Hu.
  { intros l Hn Hnil. rewrite (inv_counts w Hi) in Hn. pose proof (running_nonneg l (tasks w)).
    destruct (proj1 (running_pos l (tasks w))) as (t & x & Ht & Hr); [lia|].
    pose proof (undone_running w l t x _ Ht Hr (inv_tracks w Hi l t x Ht Hr)) as Hin. rewrite Hnil in Hin.
    by apply not_elem_of_nil in Hin. }
  split.
  - unfold list_accounts_turn. destruct (negb _) eqn:E; [|by repeat case_match].
    apply negb_true_iff, Z.eqb_neq, (Hu AccountLane) in E. revert E.
    unfold _wait_for_account_mutations, gather. cbn -[undone]. by destruct (undone _ _).
  - unfold list_messages_turn. destruct (negb _) eqn:E; [|by repeat case_match].
    apply negb_true_iff, Z.eqb_neq, (Hu (MessageLane (key_scope mkey))) in E. revert E.
    unfold _wait_for_message_mutations, gather. cbn -[undone]. by destruct (undone _ _).
Qed.
End Claims.

(** ** Bounded caches *)

Definition bounded (g : HelperGateway) : Prop :=
  (length (mailbox_cache (mailboxes g)) ≤ _MAILBOX_CACHE_CAPACITY)%nat
  ∧ (length (message_list_cache (messages g)) ≤ _MESSAGE_LIST_CACHE_CAPACITY)%nat
  ∧ (length (session_cache (sessions g)) ≤ _SESSION_CACHE_CAPACITY)%nat.

Section Lengths.
Context {K V : Type} `{EqDecision K}.
Implicit Type d : list (K * V).
Lemma filter_shorter {A} (p : A → bool) l n : (length l ≤ n)%nat → (length (List.filter p l) ≤ n)%nat.
Proof. intros H. pose proof (List.filter_length_le p l). lia. Qed.
Lemma store_length cap k (v : V) expires now d :
  (1 ≤ cap)%nat → (length (dset k v (prune cap expires now d)) ≤ cap)%nat.
Proof.
  intros H. pose proof (dset_length k v (prune cap expires now d)).
  pose proof (prune_length cap expires now d). lia.
Qed.
Lemma dpop_length k d n : (length d ≤ n)%nat → (length (dpop k d) ≤ n)%nat.
Proof. intros H. unfold dpop. pose proof (length_filter (λ e, e.1 ≠ k) d). lia. Qed.
End Lengths.

(** The parts of the state that hold the three caches are as they were, or bounded. *)
Lemma bounded_parts g g' :
  bounded g → mailboxes g' = mailboxes g → messages g' = messages g → sessions g' = sessions g → bounded g'.
Proof. unfold bounded. by intros ? -> -> ->. Qed.
Lemma bounded_lists g m : bounded g →
  (length (message_list_cache m) ≤ _MESSAGE_LIST_CACHE_CAPACITY)%nat → bounded (set_messages m g).
Proof. unfold bounded. naive_solver. Qed.
Lemma bounded_sessions g s : bounded g →
  (length (session_cache s) ≤ _SESSION_CACHE_CAPACITY)%nat → bounded (set_sessions s g).
Proof. unfold bounded. naive_solver. Qed.
Lemma bounded_mailboxes g m : bounded g →
  (length (mailbox_cache m) ≤ _MAILBOX_CACHE_CAPACITY)%nat → bounded (set_mailboxes m g).
Proof. unfold bounded. naive_solver. Qed.
Lemma bounded_accounts g a : bounded g → bounded (set_accounts a g).
Proof. done. Qed.

Lemma bounded_drop_lists account mailbox g :
  bounded g → bounded (set_messages (_invalidate_message_lists account mailbox (messages g)) g).
Proof.
  intros Hb. apply bounded_lists; [done|]. destruct Hb as (_ & Hb & _).
  unfold _invalidate_message_lists. destruct mailbox; by apply filter_shorter.
Qed.
Lemma bounded_invalidate i g : bounded g → bounded (invalidate i g).
Proof.
  intros Hb. destruct i; cbn [invalidate].
  - apply bounded_mailboxes; [done|]. destruct Hb as (Hb & _). etrans; [apply length_filter|done].
  - by apply bounded_drop_lists.
  - apply bounded_sessions; [done|]. destruct Hb as (_ & _ & Hb). by apply dpop_length.
  - apply bounded_sessions; [done|]. cbn. lia.
Qed.
Lemma bounded_all drops g : bounded g → bounded (invalidate_all drops g).
Proof.
  unfold invalidate_all. revert g. induction drops as [|i drops IH]; intros g Hb; [done|].
  by apply IH, bounded_invalidate.
Qed.

Section Segments.
Context (x : ctx).

Lemma list_accounts_bounded auth_token g : bounded g → bounded (list_accounts x auth_token g).1.
Proof.
  intros Hb. unfold list_accounts, pass. destruct (_authorization_cache_key _); [|done].
  destruct (list_accounts_turn _ _ _ _) as [[] ?]; by repeat apply bounded_accounts.
Qed.
Lemma list_messages_bounded auth_token s limit offset g :
  bounded g → bounded (list_messages x auth_token s limit offset g).1.
Proof.
  intros Hb. unfold list_messages, list_messages_turn, _wait_for_message_mutations, pass.
  destruct (_authorization_cache_key _) as [key|]; [|done]. destruct (negb _).
  - unfold gather. destruct (undone _ _); (apply bounded_lists; [done|apply Hb]).
  - rewrite set_messages_same. by repeat case_match.
Qed.
Lemma read_messages_bounded auth_token key gen answer g :
  bounded g → bounded (read_messages x auth_token key gen answer g).1.
Proof.
  intros Hb. unfold read_messages, pass. repeat case_match; try done; [by apply list_messages_bounded|].
  apply bounded_lists; [done|]. apply store_length. unfold _MESSAGE_LIST_CACHE_CAPACITY. lia.
Qed.
Lemma read_mailboxes_bounded key gen answer g : bounded g → bounded (read_mailboxes x key gen answer g).1.
Proof.
  intros Hb. unfold read_mailboxes, pass. repeat case_match; try done. apply bounded_mailboxes; [done|].
  unfold store_mailboxes. case_match; [|apply Hb]. apply store_length. unfold _MAILBOX_CACHE_CAPACITY. lia.
Qed.
Lemma await_session_bounded key t outcome g : bounded g → bounded (await_session x key t outcome g).1.
Proof.
  intros Hb. assert (length (session_cache (end_flight key t (x_done x t) (sessions g))) ≤ _SESSION_CACHE_CAPACITY)%nat.
  { unfold end_flight. case_match; apply Hb. }
  unfold await_session, pass. destruct outcome; (apply bounded_sessions; [done|]); [|done].
  apply store_length. unfold _SESSION_CACHE_CAPACITY. lia.
Qed.

Lemma begin_bounded j g : bounded g → bounded (begin x j g).1.
Proof.
  intros Hb. destruct j; try done; cbn [begin].
  - unfold pass. destruct request; cbn [fst]; by repeat apply bounded_all.
  - unfold pass. by apply bounded_accounts, bounded_all.
  - destruct request; [|done]. unfold pass. cbn [fst]. apply bounded_lists; [done|].
    apply (bounded_drop_lists s.1 (Some s.2) g Hb).
  - by apply bounded_invalidate.
  - by apply list_accounts_bounded.
  - unfold list_mailboxes, pass. by repeat case_match.
  - by apply list_messages_bounded.
  - unfold session, pass. by repeat case_match.
  - unfold health, pass. by repeat case_match.
Qed.
Lemma caught_bounded answer g k :
  bounded g → (∀ r, bounded (k r).1) → bounded (caught answer g k).1.
Proof. intros Hb Hk. unfold caught, pass. by repeat case_match. Qed.
Lemma resume_call_bounded j answer g : bounded g → bounded (resume_call x j answer g).1.
Proof.
  intros Hb. destruct j; try done; cbn [resume_call].
  - unfold pass. repeat case_match; cbn [fst]; by repeat apply bounded_all.
  - unfold pass. cbn [fst]. apply bounded_lists; [done|]. destruct Hb as (_ & Hb & _). by apply filter_shorter.
  - by apply bounded_invalidate.
  - by apply read_mailboxes_bounded.
  - by apply read_messages_bounded.
  - apply caught_bounded; [done|]. intros r. by case_match.
  - apply caught_bounded; [done|]. intros r. by repeat case_match.
  - by apply caught_bounded.
Qed.
Lemma resume_join_bounded j outcome g : bounded g → bounded (resume_join x j outcome g).1.
Proof.
  intros Hb. destruct j; try done; cbn [resume_join].
  - by apply bounded_all.
  - unfold await_flight, pass. repeat case_match; try done. by apply list_accounts_bounded.
  - by apply await_session_bounded.
Qed.
End Segments.

Lemma gateway_perform t j w ga : gateway (perform t j w ga) = ga.1.
Proof. by destruct ga as [g []]. Qed.

Lemma step_bounded w e w' : bounded (gateway w) → step w e = Some w' → bounded (gateway w').
Proof.
  intros Hb. unfold step. destruct e; repeat case_match; intros; simplify_eq; try done;
    rewrite ?gateway_perform;
    first [by apply begin_bounded|by apply resume_call_bounded|by apply resume_join_bounded|idtac].
Qed.

(** The caches stay small: whatever is called and answered, the mailbox lists,
    the message lists and the sessions the gateway keeps are at most as many as
    their capacities. *)
Theorem caches_bounded certificates version str_of w :
  reachable (new_world certificates version str_of) w → bounded (gateway w).
Proof.
  induction 1 as [|w e w' _ IH _ Hs]; [|by eapply step_bounded].
  unfold bounded, new_world. cbn. lia.
Qed.

(** ** Runs *)

Definition demo_world : world := new_world true (u "1.0") (λ _, []).
Definition response (v : json) : Response := MkResponse (u "r") true v None None.
Definition account_list (names : list string) : json :=
  JArr ((λ n, JObj [(u "username", JStr (u n))]) <$> names).
Definition page (uids : list Z) : json :=
  JObj [(u "items", JArr ((λ n, JObj [(u "uid", JInt n)]) <$> uids))].
(** The world after events, if they can happen. *)
Definition after_run (es : list event) : world := default demo_world (run demo_world es).
Definition outcome (w : world) (t : nat) : option (result gexc json) :=
  match tasks w !! t with Some (Task _ (Done r)) => Some r | _ => None end.

Definition starts_public (e : event) : Prop := match e with Start j => public j | _ => True end.
Lemma run_reachable w0 es w w' :
  run w es = Some w' → Forall starts_public es → reachable w0 w → reachable w0 w'.
Proof.
  revert w. induction es as [|e es IH]; intros w; [by intros [= <-]|].
  simpl. destruct (step w e) as [w1|] eqn:E; [|done]. intros Hr Hf Hw. apply Forall_cons in Hf as [He Hf].
  apply (IH w1 Hr Hf). eapply reach_step; [done| |done]. by intros j ->.
Qed.

(** [list_accounts] (task 0) is answered while [create_account] (task 2) begins; it
    drops that answer and reads again once the creation has settled. *)
Definition accounts_events : list event :=
  [Start (ListAccounts None); Wake 0; Connect 0; Start (create_account None (u "b@x.org") (u "secret")); Wake 2;
   Serve (response (account_list ["a@x.org"])); Settle 1; Connect 1; Serve (response (JObj [])); Settle 3;
   Wake 0; Connect 2; Serve (response (account_list ["a@x.org"; "b@x.org"])); Settle 4].
Lemma accounts_public : Forall starts_public accounts_events.
Proof. repeat apply Forall_cons_2; try exact I; try apply Forall_nil_2; constructor. Qed.


(** [list_messages] (task 0) is answered while a deletion (task 1) begins; it waits
    for the deletion's task and reads again. *)
Definition inbox : scope := (u "a@x.org", u "INBOX").
Definition messages_events : list event :=
  [Start (ListMessages None inbox 50 0); Wake 0; Connect 0; Serve (response (page [1; 2]));
   Start (delete_message_permanently None (u "a@x.org") (u "INBOX") (u "2")); Wake 1; Settle 0;
   Connect 1; Serve (response (JObj [])); Settle 2; Wake 0; Connect 2; Serve (response (page [1]))].
Lemma messages_public : Forall starts_public messages_events.
Proof. repeat apply Forall_cons_2; try exact I; try apply Forall_nil_2; constructor. Qed.

Lemma message_lists_never_stale_witness :
  ∃ w', step (after_run messages_events) (Settle 0) = Some w' ∧ messages_fresh w' None inbox 50 0 (page [1]).
Proof.
  destruct (step (after_run messages_events) (Settle 0)) as [w'|] eqn:E; [|vm_compute in E; discriminate E].
  exists w'. split; [reflexivity|].
  assert (tasks w' !! 0%nat = Some (Task (ReadMessages None ([], inbox, 50, 0) (0, 2)) (Done (Ok (page [1]))))) as Hd.
  { vm_compute in E. injection E as <-. vm_compute. reflexivity. }
  eapply (message_lists_never_stale true (u "1.0") (λ _, []) (after_run messages_events) w' (Settle 0)
            ltac:(eapply (run_reachable _ messages_events demo_world);
                    [vm_compute; reflexivity|apply messages_public|apply reach_start]) E 0);
    [vm_compute; reflexivity|right; eexists _, _; repeat split; reflexivity|discriminate|exact Hd].
Defined.

Lemma mutations_stay_tracked_witness :
  (list_accounts_turn (is_done (after_run (take 8 accounts_events))) [] 0
     (accounts (gateway (after_run (take 8 accounts_events))))).1 = Gather [3%nat]
  ∧ (list_accounts_turn (is_done (after_run (take 8 accounts_events))) [] 0
     (accounts (gateway (after_run (take 8 accounts_events))))).1 ≠ Lost.
Proof.
  split; [vm_compute; reflexivity|].
  apply (mutations_stay_tracked true (u "1.0") (λ _, []) (after_run (take 8 accounts_events))
           ltac:(eapply (run_reachable _ (take 8 accounts_events) demo_world);
                   [vm_compute; reflexivity|apply Forall_take, accounts_public|apply reach_start])
           [] ([], inbox, 50, 0) 0).
Defined.

Lemma caches_bounded_witness : bounded (gateway (after_run messages_events)).
Proof.
  apply (caches_bounded true (u "1.0") (λ _, []) (after_run messages_events)).
  eapply (run_reachable _ messages_events demo_world); [vm_compute; reflexivity|apply messages_public|apply reach_start].
Defined.

(** ** Two caches that outlive what they show *)

(** [rename_mailbox] drops the message lists of both names before its call and not
    after it.  A page read meanwhile (task 1), answered before the renaming was, is
    kept and shown (task 2) after the renaming has returned. *)
Definition rename_events : list event :=
  [Start (rename_mailbox None (u "a@x.org") (u "Old") (u "New")); Wake 0;
   Start (ListMessages None (u "a@x.org", u "Old") 50 0); Wake 1; Connect 1; Serve (response (page [7])); Settle 1;
   Connect 0; Serve (response (JObj [])); Settle 0;
   Start (ListMessages None (u "a@x.org", u "Old") 50 0); Wake 2].
Lemma rename_keeps_old_page :
  ∃ w, run demo_world rename_events = Some w ∧ Forall starts_public rename_events
    ∧ (log w).*1 = [1%nat; 0%nat] ∧ c_operation <$> calls w = [u "mailboxes.rename"; u "messages.list"]
    ∧ outcome w 0 = Some (Ok JNull) ∧ outcome w 2 = Some (Ok (page [7])).
Proof.
  eexists. split; [vm_compute; reflexivity|]. split; [|by vm_compute].
  repeat apply Forall_cons_2; try exact I; try apply Forall_nil_2; constructor.
Qed.

(** [session] has no generation: a read (task 0) that was answered before a logout
    (task 2) and resumes after it puts the session back, and the next request
    (task 3) is told that it is live. *)
Definition demo_token : list Z := u "t0".
Definition principal : json := JObj [(u "account", JStr (u "a@x.org"))].
Definition logout_events : list event :=
  [Start (Session demo_token); Wake 0; Connect 0; Serve (response principal); Settle 1;
   Start (logout demo_token); Wake 2; Connect 1; Serve (response JNull); Settle 2;
   Wake 0; Start (Session demo_token); Wake 3].
Lemma logout_leaves_session :
  ∃ w, run demo_world logout_events = Some w ∧ Forall starts_public logout_events
    ∧ (log w).*1 = [0%nat; 1%nat] ∧ c_operation <$> calls w = [u "auth.session"; u "auth.logout"]
    ∧ outcome w 2 = Some (Ok JNull) ∧ outcome w 3 = Some (Ok principal).
Proof.
  eexists. split; [vm_compute; reflexivity|]. split; [|by vm_compute].
  repeat apply Forall_cons_2; try exact I; try apply Forall_nil_2; constructor.
Qed.

Example uid_sets :
  _uid_set (Some [u "7"; u "12"]) = Ok (u "7,12") ∧ _uid_set (Some [u "7"; u "7"]) = Err ValueError
  ∧ _uid_set (Some [u "07"]) = Err ValueError ∧ _uid_set None = Ok (u "1:*")
  ∧ _single_uid (u "4294967296") = Err ValueError.
Proof. by vm_compute. Qed.
